(* ===== verification/_CoqProject ===== *)
-Q . S2P
Prelude.v
RustStr.v
RustNet.v
Varint.v
Capsule.v
Datagram.v
Template.v
Target.v
DgramRouter.v
ConnectIp.v
PolicyDest.v
PolicyUnits.v
Floats.v
PolicyModel.v
PolicyEval.v
PolicyParse.v
PolicyRender.v
PolicyLearn.v
PolicyChecks.v
Identity.v
Credential.v
Tenant.v
Platform.v
AuditLog.v
AuditChain.v
AddressPolicy.v
Rates.v
Service.v
Auth.v
PolicyLayer.v
Revocation.v
Quota.v
IpPool.v
IpSession.v
Gateway.v
Relay.v
PlatformGateway.v
Server.v
Socks5.v
HttpConnect.v
StateDir.v
ControlSync.v
Minting.v
ServerStart.v
ControlCalls.v
AuditShip.v
Reporting.v
Shutdown.v
Boot.v
Probe.v
Session.v
Client.v
PolicyCli.v
Certificates.v
Account.v
Sandbox.v
Exec.v
Commands.v
LocalProxy.v
Native.v
Markup.v
Visual.v
Dashboard.v
SiteChrome.v
SiteGen.v
