(* ===== verification/Prelude.v ===== *)
(** * Skimasque: a verification development

    Skimasque is an identity-aware MASQUE gateway.  A client asks over HTTP/3 for a
    tunnel to a host and port (connect-udp, connect-tcp) or to an IP network
    (connect-ip); the gateway authenticates it, asks a policy engine whether this
    workload may reach that destination, and relays the traffic.  The crates
    modelled here, under [src/crates]:

    - [skimasque-core], the wire formats: variable-length integers, capsules, HTTP
      datagrams, URI templates, targets, connect-ip capsules;
    - [skimasque-policy], the policy engine: documents, matching, evaluation,
      learning, tests and lints;
    - [skimasque], the gateway: a stack of services (authentication, revocation,
      policy, quota, metering, proxies) with the address floor, tenants, audit, the
      datagram router and the address pool, and around it the server: admission of
      connections, reading requests, answering them, relaying; and the client's
      side of a request;
    - [skimasque-identity], tokens to identities, and the credentials the platform
      issues;
    - [skimasque-protocol], of which the slugs, tenant lists and the audit chain;
    - of [skimasque-cli], the gateway's start-up decisions, the functions that
      assemble the stack, its state directory and its synchronisation with the
      control plane, the tenants of a shared gateway, audit shipping and minting;
      and on the client's side the SOCKS5 and HTTP front ends, the session file,
      the policy and account commands, the tunnel probe, running a command in the
      sandbox under a supervised session, the standing local proxy, the native
      tunnel device, and the [skimasque] command as a whole;
    - [skimasque-visual], the components the dashboard and the web site are written
      with, and the site generator.

    ** How code is modelled

    A string is the list of its code points ([str]); [as_bytes] is its UTF-8 form.
    Integers are [Z] with the bounds, wrap-around or saturation of their Rust type
    written out where the code depends on them; bytes are [Z] below 256.  A
    fallible function returns [result], and [option] where the source does; a
    panic is an error or [None] and the comment at the definition says so.  A
    [HashMap] is a [gmap], a [HashSet] a [gset], an ordered map a sorted
    association list.  Shared mutable state is passed explicitly: a service call
    maps a [World] to an answer and a new [World].  Loops over input recurse on
    it, or take fuel from the length of the input (each turn consumes at
    least one byte) and the theorems are about the function with that fuel; the
    search of the address pool takes one turn per address of the pool.  A loop
    around [select!] recurses on the list of events it is given: what the network
    delivers, when, and which ready branch is polled first are in that list, and
    the theorems quantify over it.  Tasks that run side by side are step relations.

    Code outside the repository is a parameter: name resolution, sockets and
    network prefixes ([Service.Network]), base64 and JSON ([Revocation.TokenCodec]),
    token verifiers (fields of the authentication layers), the TOML and YAML
    readers ([PolicyParse] starts at the deserialised documents;
    [PolicyRender.TomlReader] states what a rendered text reads as), Unicode
    lower-casing ([Tenant]), JWT decoding and the published key sets
    ([Identity.Oidc]), signing ([Credential.Jwt], whose laws are [JwtLaws]), header
    maps and URIs ([Server.Headers] with [HeaderLaws]), SHA-256 and the JSON of an
    event ([AuditChain]), the gateway a front end opens tunnels through
    ([Socks5], [HttpConnect]), serde's JSON ([StateDir.Serde] with [SerdeLaws]), the
    disk, whose every operation may be cut short, the control plane's answers
    ([ControlSync.Peer], the requests of [ControlCalls.Http] and the fields of
    [Exec.Host]), certificates and TLS ([Certificates.Tls], with what a chain and its
    key must satisfy), stucco's escaping ([Markup.Escaper] with [EscapeLaws]), the
    pages of the site and the reader of a policy's comments.

    ** Files

    Foundations.  [Prelude] (this file): [result], tactics ([inv_ok],
    [bind_simpl]), big-endian bytes, list lemmas.  [RustStr]: the methods of
    [str] and the integer parsers and printers, with their inverses.  [RustNet]:
    [Ipv4Addr] and [Ipv6Addr], their text forms, [SocketAddr].

    Wire formats ([skimasque-core], and [skimasque/src/capsules.rs]).
    - [Varint] (varint.rs): encoding and decoding are inverse on every value below
      2^62, the decoder reads no more than it says.
    - [Capsule] (capsule.rs, capsules.rs): a stream of capsules cut anywhere is
      reassembled; the decoder never buffers more than its limit and fails as soon
      as a header announces more.
    - [Datagram] (datagram.rs, connect_udp.rs): framing round trips; allocated
      context ids are fresh.
    - [Template] (template.rs): expanding a template and matching the path gives
      the variables back.
    - [Target] (target.rs, lib.rs): targets round trip through paths and text.
    - [ConnectIp] (connect_ip.rs): capsules round trip, what decodes is well formed
      and its routes are ordered and disjoint.

    Policy engine ([skimasque-policy]).
    - [PolicyDest] (destination.rs): when a pattern matches, in terms of address
      blocks and domain suffixes; text round trips.
    - [PolicyUnits] (units.rs): durations, sizes and rates; durations round trip.
    - [Floats]: addition, subtraction and comparison of 64-bit floats, and when an
      operation is exact.
    - [PolicyModel] (model.rs, identity.rs): selection takes the most specific
      policy, the earliest on a tie.
    - [PolicyEval] (eval.rs): a set allows a request exactly when the selected (or
      pinned) policy's first applicable rule does and no baseline denies it;
      baselines and pins only restrict; a suggested rule would allow the request.
    - [PolicyParse] (parse.rs): which documents load, what a load error blames,
      what a loaded set satisfies, what a YAML policy allows.
    - [PolicyRender] (render.rs): a rendered policy reads back as itself.
    - [PolicyLearn] (learn.rs): a learned policy allows exactly what was observed.
    - [PolicyChecks] (report.rs, lint.rs): a policy's tests report exactly its
      decisions; a lint-clean policy constrains its identity.

    Gateway ([skimasque], [skimasque-cli]).
    - [AddressPolicy] (policy.rs): which addresses the floor refuses.
    - [Tenant] (tenant.rs, [TunnelMeter]): the table refines a first-wins map; the
      usage report is the sum of what was counted.
    - [AuditLog] (audit.rs): the event of a decision; its date is the calendar's.
    - [DgramRouter] (dgram.rs): a tunnel receives only its own stream's datagrams,
      in order; memory is bounded; early datagrams reach the tunnel that registers.
    - [IpPool] (the pool of skimasque/src/connect_ip.rs): leases are distinct and
      in range; a lease is refused exactly when the pool is full.
    - [IpSession] (the sessions of the same file): the capsules one end writes are
      the changes the other end reports, however they are cut; every address
      request is answered; two sessions never hold one address.
    - [Service] (service.rs): the class [Service], the world, requests and answers,
      the proxies and [Dispatch]; a tunnel goes to the first resolved address the
      floor permits and that opens.
    - [Auth], [PolicyLayer], [Quota] (service.rs), [Revocation] (revocation.rs): the
      layers, each against an arbitrary inner service.  [Quota] models interleaved
      calls as a step relation and proves by rule induction that permits are
      neither exceeded nor lost.
    - [Gateway] (build_dispatch, build_service and load_policy_layer of
      skimasque-server.rs, platform_service of platform.rs): the stack composed
      from the layers' lemmas; a request is accepted exactly when every layer's
      condition holds, and no configuration bypasses the floor.

    Identity ([skimasque-identity]) and the platform.
    - [Identity] (provider.rs, verify.rs, jwks.rs, lib.rs): a token cannot choose
      its kind; claims are accepted only under the issuer's keys, cached or fetched
      by the call; a rotation costs one refetch.
    - [Credential] (credential.rs): issue and verify are inverse for the holder of
      the key, the organisation and the lifetime, and for no other.
    - [Platform] (platform.rs of skimasque-cli and skimasque-protocol): audiences
      and slugs; the table and the keys of a list describe the same tenants; a
      credential is accepted for its own organisation only, also while lists are
      replaced; a mint request is made only for a tenant that owns the job.
    - [PlatformGateway]: the above composed with [Gateway]: one tenant's tunnel end
      to end.
    - [AuditChain] (audit_ship.rs, audit_hash, the batches of platform.rs): the
      shipping task against a control plane that recomputes the chain, as a step
      relation; nothing taken is lost or reordered, it always recovers, and the
      stored chain cannot be rewritten short of a SHA-256 collision.

    Server and front ends.
    - [Rates] (server.rs, [RateLimiter] of service.rs): token buckets in 64-bit
      floats; a full bucket admits exactly its burst; the accept loop stays within
      its limits; a flood from one address does not touch another's bucket.
    - [Server] (server.rs, client.rs, exchange.rs): what the client sends is what
      the gateway reads; every request is answered once, as the service decided;
      an exchanged credential is the minted one; tunnels of a connection are
      bounded.
    - [Relay] (relay, relay_tcp and until_ended of server.rs): what is relayed,
      counted and charged; the ceiling; termination; TCP as two independent
      streams; a tunnel stops with its session.
    - [Socks5] (socks5.rs): packets round trip; an association serves one client.
    - [HttpConnect] (http_connect.rs, forward.rs): a head is read the same however
      it arrives; a rewritten request is one request.

    The gateway beside the control plane ([skimasque-cli]).
    - [StateDir] (the files of control.rs): a write interrupted at any point leaves
      the old file or the new one; what is cached is read back.
    - [ControlSync] (the sync of control.rs): what a bundle or a tenant list
      installs, what is refused, what an offline start comes up with.
    - [Minting] (the mint client of platform.rs): which requests are made and which
      answers accepted.
    - [ServerStart] (skimasque-server.rs): the start-up decisions and registration;
      a registered identity is kept; a torn one blocks the start.
    - [ControlCalls] (the other calls of control.rs): each is one request to its own
      address, and its answer is read for what it says; an exchange is answered
      with what the control plane granted or refused.
    - [AuditShip] (the loops of audit_ship.rs and of platform.rs): both refine the
      relation of [AuditChain], so nothing taken is lost; two turns with a control
      plane that is reached are enough to recover.
    - [Reporting] (metrics.rs, the heartbeat loops): a report is what the metrics
      export shows, never falls, and an outage shows after the lease.

    The gateway's life ([skimasque], skimasque-server.rs).
    - [Certificates] (tls.rs, acme.rs, load_tls, run_tls_reload): which
      configurations are built; a renewal never presents a broken chain and
      converges to the files.
    - [Shutdown] (run_until and serve_connection of server.rs): connections and
      tunnels as events; gauges account for what runs; a shutdown within its grace
      cuts no tunnel and always ends.
    - [Boot] (main and the spawning of tasks): nothing is bound before everything
      the gateway enforces is in place.

    What is shown ([skimasque-visual]).
    - [Markup] (render.rs, lib.rs): writing with escaping, and a reader of HTML that
      says when markup is contained.
    - [Visual] (node.rs, status.rs, connection.rs, boundary.rs, flow.rs, layout.rs,
      topology.rs, motif.rs, motion.rs), [Dashboard] (content.rs, access.rs, decision.rs,
      policy.rs, diagrams/control.rs), [SiteChrome] (chrome.rs, site_chrome.rs): the
      components, each contained whatever its texts say; together, whatever is built
      from them is.  A connector stays in its frame; what a code example copies is its
      commands; the navigation marks one page.
    - [SiteGen] (site/mod.rs, bin/sitegen.rs): the check of the generated site is exact
      and accepts what the generator wrote.

    The client ([skimasque-cli], and [skimasque/src/client.rs]).
    - [Probe] (probe.rs): the DNS question a probe sends, read back by a resolver.
    - [Session] (session.rs): the session file, its expiry and the credential sent.
    - [Client] (client.rs): the client's tunnels, composed with [Server] and [Relay]:
      what is written at one end is what is read at the other.
    - [PolicyCli] (policy.rs): the policy commands; the reload loop converges to the
      last good file.
    - [Account] (account.rs): the management calls and how answers are read.
    - [Sandbox] (sandbox.rs): the sandbox's settings confine what the agent may do.
    - [Exec] (exec.rs): the whole run of a command as the sequence of its actions on
      the host: the agent starts only confined, a session that began ends, the
      command is supervised.
    - [Commands] (bin/skimasque.rs): every subcommand as its effects on the machine;
      a started agent session is never lost; the sign-in session goes to its own
      control plane; a printed command is read back by a shell; exit codes.
    - [LocalProxy] (http_proxy.rs, proxy.rs, ops.rs, bin/skimasque-client.rs): what a
      proxied request comes to and what is forwarded of it; the record of a running
      proxy appears whole or not at all; probing.
    - [Native] (native/): the UDP flows of the tunnel device as events of the main
      loop and its tasks; flows are isolated and bounded.

    ** Not modelled

    Argument parsing is clap's.  The pages of the web site, its gallery and its
    example diagrams are content; the icon sprite, scripts and stylesheets, and the
    shell of a page that joins them, are included as they are; log lines and the sinks
    of the audit log only write.  The network device of connect-ip and the pump task
    of a SOCKS5 tunnel move packets without deciding anything.  QUIC, HTTP/3, TLS,
    ACME's protocol and the vendored userspace network stack are third-party. *)

From Stdlib Require Export ZArith Lia Sorted.
From stdpp Require Export base tactics numbers list list_numbers option sets gmap strings.

#[global] Open Scope Z_scope.

(** ** Rust's [Result]

    Fallible code of the repository returns [Result<T, E>]; the error type
    comes first so that [result E] is a functor and the [?] operator is
    stdpp's monadic bind [x ← c; k]. *)
Inductive result (E A : Type) : Type :=
  | Ok (a : A)
  | Err (e : E).
Arguments Ok {E A} a.
Arguments Err {E A} e.

Definition result_bind {E A B} (f : A → result E B) (r : result E A) : result E B :=
  match r with
  | Ok a => f a
  | Err e => Err e
  end.
Arguments result_bind {E A B} f !r /.

#[global] Instance result_mret E : MRet (result E) := @Ok E.
#[global] Instance result_mbind E : MBind (result E) := @result_bind E.
#[global] Instance result_fmap E : FMap (result E) :=
  λ A B f r, match r with Ok a => Ok (f a) | Err e => Err e end.

(** [Result::map_err], [Option::ok_or] and [Result::ok]. *)
Definition map_err {E F A} (f : E → F) (r : result E A) : result F A :=
  match r with
  | Ok a => Ok a
  | Err e => Err (f e)
  end.
Definition ok_or {E A} (o : option A) (e : E) : result E A :=
  match o with
  | Some a => Ok a
  | None => Err e
  end.
Definition result_ok {E A} (r : result E A) : option A :=
  match r with
  | Ok a => Some a
  | Err _ => None
  end.
Arguments map_err {E F A} f !r /.
Arguments ok_or {E A} !o e /.
Arguments result_ok {E A} !r /.

Definition is_ok {E A} (r : result E A) : bool :=
  match r with Ok _ => true | Err _ => false end.
Definition is_some {A} (o : option A) : bool := match o with Some _ => true | None => false end.
Definition is_empty {A} (l : list A) : bool := match l with [] => true | _ => false end.

(** [iter.map(f).collect::<Result<Vec<_>, _>>()]: the first error wins. *)
Fixpoint traverse {E A B} (f : A → result E B) (l : list A) : result E (list B) :=
  match l with
  | [] => Ok []
  | x :: l => y ← f x; ys ← traverse f l; Ok (y :: ys)
  end.

#[global] Instance result_eq_dec E A `{EqDecision E, EqDecision A} : EqDecision (result E A).
Proof. solve_decision. Defined.

(** ** Boolean tests of the code as propositions *)

(** Case analysis on the boolean comparisons the code branches on. *)
Ltac cmp_step :=
  match goal with
  | |- context [Z.eqb ?a ?b] => destruct (Z.eqb_spec a b)
  | |- context [Z.ltb ?a ?b] => destruct (Z.ltb_spec a b)
  | |- context [Z.leb ?a ?b] => destruct (Z.leb_spec a b)
  | |- context [Nat.eqb ?a ?b] => destruct (Nat.eqb_spec a b)
  | |- context [Nat.ltb ?a ?b] => destruct (Nat.ltb_spec a b)
  | |- context [Nat.leb ?a ?b] => destruct (Nat.leb_spec a b)
  end.
(** [lia] with quotients and remainders. *)
Ltac dm_lia := Z.to_euclidean_division_equations; lia.
Ltac cmp_cases := repeat (cmp_step; simpl; try lia).

(** [Forall P] of an explicit list, element by element. *)
Ltac forall_list_by tac := repeat (apply Forall_cons_2; [solve [tac]|]); apply Forall_nil_2.
Ltac forall_list := forall_list_by done.

(** Reduce the binds of the result and option monads and nothing else. *)
Ltac bind_simpl :=
  cbn [ok_or map_err mbind mret fmap result_mbind result_mret result_fmap result_bind
       option_bind option_ret option_fmap option_map].

Tactic Notation "bind_simpl" "in" hyp(H) :=
  cbn [ok_or map_err mbind mret fmap result_mbind result_mret result_fmap result_bind
       option_bind option_ret option_fmap option_map] in H.

(** Settle a closed decidable fact by evaluation. *)
Ltac by_decide :=
  match goal with |- ?P => apply (bool_decide_unpack P); vm_compute; exact I end.

(** ** Results: inversion of the [?] operator *)

Lemma bind_Ok {E A B} (f : A → result E B) (r : result E A) b :
  r ≫= f = Ok b ↔ ∃ a, r = Ok a ∧ f a = Ok b.
Proof. destruct r; naive_solver. Qed.

Lemma map_err_Ok {E F A} (f : E → F) (r : result E A) a :
  map_err f r = Ok a ↔ r = Ok a.
Proof. destruct r; naive_solver. Qed.

Lemma ok_or_Ok {E A} (o : option A) (e : E) a : ok_or o e = Ok a ↔ o = Some a.
Proof. destruct o; naive_solver. Qed.

Lemma ok_or_Err {E A} (o : option A) (e e' : E) :
  ok_or o e = Err e' ↔ o = None ∧ e = e'.
Proof. destruct o; naive_solver. Qed.

Lemma map_err_Err {E F A} (f : E → F) (r : result E A) e' :
  map_err f r = Err e' ↔ ∃ e, r = Err e ∧ e' = f e.
Proof. destruct r; naive_solver. Qed.

Lemma result_ok_Some {E A} (r : result E A) a : result_ok r = Some a ↔ r = Ok a.
Proof. destruct r; naive_solver. Qed.

(** Take apart every successful [?], [map_err] and [ok_or] among the hypotheses. *)
Lemma fmap_Ok {E A B} (f : A → B) (r : result E A) b : f <$> r = Ok b ↔ ∃ a, b = f a ∧ r = Ok a.
Proof.
  destruct r as [a|e]; cbn; split.
  - intros [= <-]. eauto.
  - by intros (? & -> & [= ->]).
  - done.
  - by intros (? & _ & ?).
Qed.

Ltac inv_ok :=
  repeat match goal with
  | H : _ ≫= _ = Ok _ |- _ => apply bind_Ok in H as (? & ? & H)
  | H : map_err _ _ = Ok _ |- _ => apply map_err_Ok in H
  | H : ok_or _ _ = Ok _ |- _ => apply ok_or_Ok in H
  | H : Ok _ = Ok _ |- _ => injection H as H; subst
  | H : Err _ = Ok _ |- _ => discriminate H
  | H : Ok _ = Err _ |- _ => discriminate H
  end.

Lemma traverse_Ok {E A B} (f : A → result E B) l k :
  traverse f l = Ok k ↔ Forall2 (λ x y, f x = Ok y) l k.
Proof.
  revert k. induction l as [|x l IH]; intros k; simpl.
  - split; [intros [= <-]; constructor | by inversion 1].
  - split.
    + intros H. inv_ok. constructor; [done | by apply IH].
    + inversion 1 as [|? y ? k' Hx Hk]; subst. rewrite Hx; simpl.
      apply IH in Hk. by rewrite Hk.
Qed.

(** ** Machine integers and big-endian bytes *)

(** The largest values of the unsigned machine integers. *)
Definition u8_max : Z := 2 ^ 8 - 1.
Definition u16_max : Z := 2 ^ 16 - 1.
Definition u32_max : Z := 2 ^ 32 - 1.
Definition u64_max : Z := 2 ^ 64 - 1.
Definition u128_max : Z := 2 ^ 128 - 1.

(** [v as uN]: keep the low [w] bits. *)
Definition wrap (w v : Z) : Z := v mod 2 ^ w.

Definition is_byte (b : Z) : Prop := 0 ≤ b < 256.
#[global] Instance is_byte_dec b : Decision (is_byte b).
Proof. unfold is_byte. apply _. Defined.
Abbreviation bytes_ok := (Forall is_byte).

(** [uN::to_be_bytes], [BufMut::put_uN]: the low [n] bytes of [v], most
    significant first. *)
Fixpoint be_bytes (n : nat) (v : Z) : list Z :=
  match n with
  | O => []
  | S n => (v / 256 ^ Z.of_nat n) mod 256 :: be_bytes n v
  end.

(** [uN::from_be_bytes]. *)
Definition from_be_bytes (bs : list Z) : Z := fold_left (λ v b, v * 256 + b) bs 0.

Lemma length_be_bytes n v : length (be_bytes n v) = n.
Proof. induction n; simpl; congruence. Qed.

Lemma be_bytes_ok n v : bytes_ok (be_bytes n v).
Proof.
  induction n as [|n IH]; simpl; [constructor|].
  constructor; [by apply Z.mod_pos_bound | done].
Qed.

Lemma fold_be_acc bs acc :
  fold_left (λ v b, v * 256 + b) bs acc = acc * 256 ^ Z.of_nat (length bs) + from_be_bytes bs.
Proof.
  unfold from_be_bytes. revert acc. induction bs as [|b bs IH]; intros acc; cbn [fold_left].
  - change (Z.of_nat (length [])) with 0. lia.
  - rewrite IH, (IH (0 * 256 + b)). cbn [length].
    rewrite Nat2Z.inj_succ, Z.pow_succ_r by lia. ring.
Qed.

Lemma from_be_bytes_cons b bs :
  from_be_bytes (b :: bs) = b * 256 ^ Z.of_nat (length bs) + from_be_bytes bs.
Proof. unfold from_be_bytes at 1. cbn [fold_left]. by rewrite fold_be_acc. Qed.

Lemma from_be_bytes_bound bs :
  bytes_ok bs → 0 ≤ from_be_bytes bs < 256 ^ Z.of_nat (length bs).
Proof.
  induction 1 as [|b bs Hb Hbs IH]; [done|].
  rewrite from_be_bytes_cons. simpl length. rewrite Nat2Z.inj_succ, Z.pow_succ_r by lia.
  unfold is_byte in Hb. nia.
Qed.

Lemma from_be_be_bytes n v : from_be_bytes (be_bytes n v) = v mod 256 ^ Z.of_nat n.
Proof.
  induction n as [|n IH]; simpl be_bytes.
  - change (256 ^ Z.of_nat 0) with 1. by rewrite Z.mod_1_r.
  - rewrite from_be_bytes_cons, length_be_bytes, IH.
    rewrite Nat2Z.inj_succ, Z.pow_succ_r, Z.mul_comm by lia.
    rewrite (Z.mul_comm 256). rewrite Z.rem_mul_r by lia. ring.
Qed.

Lemma from_be_be_bytes_small n v :
  0 ≤ v < 256 ^ Z.of_nat n → from_be_bytes (be_bytes n v) = v.
Proof. intros. rewrite from_be_be_bytes. by apply Z.mod_small. Qed.

Lemma be_bytes_mod n m v :
  (n ≤ m)%nat → be_bytes n (v mod 256 ^ Z.of_nat m) = be_bytes n v.
Proof.
  induction n as [|n IH]; intros Hle; simpl; [done|]. f_equal; [|apply IH; lia].
  replace (Z.of_nat m) with (Z.of_nat n + Z.of_nat (m - n)) by lia.
  rewrite Z.pow_add_r by lia. rewrite Z.rem_mul_r by lia.
  rewrite Z.mul_comm, Z.div_add by lia.
  rewrite (Z.div_small (v mod _)) by (apply Z.mod_pos_bound; lia). rewrite Z.add_0_l.
  destruct (m - n)%nat as [|k] eqn:?; [lia|].
  rewrite Nat2Z.inj_succ, Z.pow_succ_r by lia.
  rewrite Z.rem_mul_r by lia. rewrite Z.mul_comm, Z.mod_add by lia.
  by rewrite Z.mod_mod by lia.
Qed.

Lemma be_from_be_bytes bs :
  bytes_ok bs → be_bytes (length bs) (from_be_bytes bs) = bs.
Proof.
  induction 1 as [|b bs Hb Hbs IH]; [done|]. simpl be_bytes.
  pose proof (from_be_bytes_bound bs Hbs). unfold is_byte in Hb.
  rewrite from_be_bytes_cons. f_equal.
  - rewrite Z.add_comm, Z.div_add by lia.
    rewrite Z.div_small, Z.add_0_l, Z.mod_small by lia. done.
  - rewrite <- (be_bytes_mod _ (length bs)) by lia.
    rewrite Z.add_comm, Z.mod_add by lia. rewrite Z.mod_small by lia. done.
Qed.

(** Adding a number below [2 ^ n] to a multiple of [2 ^ n] is a bitwise or. *)
Lemma lor_mul_pow2 v b n :
  0 ≤ n → 0 ≤ b < 2 ^ n → Z.lor (v * 2 ^ n) b = v * 2 ^ n + b.
Proof.
  intros Hn Hb. assert (Z.land (v * 2 ^ n) b = 0) as Hl.
  { apply Z.bits_inj'. intros i Hi. rewrite Z.land_spec, Z.bits_0.
    destruct (Z.ltb_spec i n); [by rewrite Z.mul_pow2_bits_low|].
    rewrite <- (Z.mod_small b (2 ^ n)) by lia.
    rewrite Z.mod_pow2_bits_high by lia. apply andb_false_r. }
  rewrite <- Z.lxor_lor by done. symmetry. by apply Z.add_nocarry_lxor.
Qed.

(** [(v << 8) | b] on a [w]-bit integer is Horner's step while it fits. *)
Lemma shl8_lor v b w :
  0 ≤ v → is_byte b → v * 256 < 2 ^ w →
  Z.lor (wrap w (Z.shiftl v 8)) b = v * 256 + b.
Proof.
  unfold is_byte, wrap. intros Hv Hb Hw.
  rewrite Z.shiftl_mul_pow2 by lia. change (2 ^ 8) with 256.
  rewrite Z.mod_small by lia. change 256 with (2 ^ 8). by apply lor_mul_pow2.
Qed.

(** ** Iterator adaptors *)

(** [iter().enumerate()]. *)
Definition enumerate {A} (l : list A) : list (nat * A) := imap pair l.

(** [max_by_key] keeps the later of two elements unless the earlier is strictly
    greater; [le a b] compares the keys. *)
Definition max_by {A} (le : A → A → bool) (l : list A) : option A :=
  match l with
  | [] => None
  | x :: l => Some (fold_left (λ best y, if le best y then y else best) l x)
  end.

Lemma max_by_spec {A} (le : A → A → bool) l :
  (∀ x y, le x y = true ∨ le y x = true) →
  (∀ x y z, le x y = true → le y z = true → le x z = true) →
  match max_by le l with
  | Some x => x ∈ l ∧ ∀ y, y ∈ l → le y x = true
  | None => l = []
  end.
Proof.
  intros Htot Htr. destruct l as [|x l]; [done|]. simpl. revert x. induction l as [|y l IH]; intros x; simpl.
  { split; [left|]. intros y ->%list_elem_of_singleton. by destruct (Htot x x). }
  destruct (le x y) eqn:Hxy.
  - destruct (IH y) as [Hin Hmax]. split; [by right|].
    intros z [->|Hz]%elem_of_cons; [|by apply Hmax]. eapply Htr; [exact Hxy|]. apply Hmax. left.
  - destruct (IH x) as [Hin Hmax]. split.
    + apply elem_of_cons in Hin as [->|?]; [left|by do 2 right].
    + intros z [->|[->|Hz]%elem_of_cons]%elem_of_cons; [apply Hmax; left| |apply Hmax; by right].
      eapply Htr; [|apply Hmax; left]. destruct (Htot x y); [congruence|done].
Qed.

(** Filtering keeps the order of what it keeps. *)
Lemma filter_lookup_order {A} (f : A → bool) l n x :
  List.filter f l !! n = Some x →
  ∃ i, l !! i = Some x ∧ f x = true ∧
    ∀ j y, l !! j = Some y → f y = true →
      ∃ k, List.filter f l !! k = Some y ∧ ((n ≤ k)%nat → (i ≤ j)%nat).
Proof.
  revert n. induction l as [|a l IH]; intros n Hn; [done|]. cbn [List.filter] in *.
  destruct (f a) eqn:Ha.
  - destruct n as [|n]; cbn [lookup list_lookup] in Hn.
    + injection Hn as ->. exists 0%nat. split_and!; [done|done|]. intros j y Hj Hy.
      assert (y ∈ List.filter f (x :: l)) as [k Hk]%list_elem_of_lookup.
      { apply list_elem_of_In, filter_In. split; [|done]. apply list_elem_of_In.
        by eapply list_elem_of_lookup_2. }
      cbn [List.filter] in Hk. rewrite Ha in Hk. exists k. split; [done|lia].
    + destruct (IH n Hn) as (i & Hi & Hx & Hall). exists (S i). split_and!; [done|done|].
      intros [|j] y Hj Hy; cbn [lookup list_lookup] in Hj.
      * exists 0%nat. split; [done|lia].
      * destruct (Hall j y Hj Hy) as (k & Hk & Hle). exists (S k). split; [done|lia].
  - destruct (IH n Hn) as (i & Hi & Hx & Hall). exists (S i). split_and!; [done|done|].
    intros [|j] y Hj Hy; cbn [lookup list_lookup] in Hj; [congruence|].
    destruct (Hall j y Hj Hy) as (k & Hk & Hle). exists k. split; [done|lia].
Qed.

(** [sort_by], a stable sort. *)
Fixpoint insert_sorted {A} (le : A → A → bool) (x : A) (l : list A) : list A :=
  match l with
  | [] => [x]
  | y :: l => if le x y then x :: y :: l else y :: insert_sorted le x l
  end.
Definition sort_by {A} (le : A → A → bool) (l : list A) : list A :=
  fold_right (insert_sorted le) [] l.

Lemma insert_sorted_perm {A} (le : A → A → bool) x l : insert_sorted le x l ≡ₚ x :: l.
Proof.
  induction l as [|y l IH]; simpl; [done|]. destruct (le x y); [done|].
  rewrite IH. apply Permutation_swap.
Qed.

Lemma sort_by_perm {A} (le : A → A → bool) l : sort_by le l ≡ₚ l.
Proof. induction l as [|x l IH]; simpl; [done|]. by rewrite insert_sorted_perm, IH. Qed.

Lemma sort_by_id {A} (le : A → A → bool) l : StronglySorted (λ x y, le x y = true) l → sort_by le l = l.
Proof.
  induction 1 as [|x l _ IH Hx]; simpl; [done|]. rewrite IH.
  destruct Hx as [|y l Hy _]; simpl; [done|]. by rewrite Hy.
Qed.

Lemma sort_by_sorted {A} (le : A → A → bool) l :
  (∀ x y, le x y = true ∨ le y x = true) →
  (∀ x y z, le x y = true → le y z = true → le x z = true) →
  StronglySorted (λ x y, le x y = true) (sort_by le l).
Proof.
  intros Htot Htr. induction l as [|x l IH]; simpl; [constructor|].
  induction IH as [|y l' Hs IH' Hall]; simpl; [repeat constructor|].
  destruct (le x y) eqn:Hxy.
  - constructor; [by constructor|]. constructor; [done|]. eapply Forall_impl; [exact Hall|]. eauto.
  - constructor; [done|]. rewrite insert_sorted_perm. constructor; [|done].
    destruct (Htot x y); [congruence|done].
Qed.

(** ** Masks *)

(** Keeping the top [len] of [w] bits clears the rest. *)
Lemma land_high_bits w len b :
  0 ≤ len ≤ w → 0 ≤ b < 2 ^ w →
  Z.land b (Z.shiftl (Z.ones len) (w - len)) = b / 2 ^ (w - len) * 2 ^ (w - len).
Proof.
  intros Hl Hb. rewrite <- Z.shiftr_div_pow2, <- Z.shiftl_mul_pow2 by lia.
  apply Z.bits_inj'. intros j Hj. rewrite Z.land_spec, !Z.shiftl_spec by done.
  destruct (Z.le_gt_cases (w - len) j) as [Hge|Hlt].
  - rewrite Z.shiftr_spec by lia. replace (j - (w - len) + (w - len)) with j by lia.
    destruct (Z.le_gt_cases w j) as [Hw|Hw].
    + destruct (Z.eq_dec b 0) as [->|]; [by rewrite Z.bits_0|].
      rewrite (Z.bits_above_log2 b j); [done|lia|].
      assert (Z.log2 b < w) by (apply Z.log2_lt_pow2; lia). lia.
    + rewrite Z.ones_spec_low by lia. apply andb_true_r.
  - rewrite (Z.testbit_neg_r (Z.ones len)), (Z.testbit_neg_r (Z.shiftr _ _)) by lia.
    apply andb_false_r.
Qed.
