(* ===== verification/RustStr.v ===== *)
(** * Rust strings

    The part of Rust's [str] and [char] the repository uses.  A string is the
    list of its Unicode scalar values, so that the [char]-level functions
    ([trim], [split_once], [find], [chars]) are list functions, and [as_bytes]
    and [String::from_utf8] are the UTF-8 encoder and the strict decoder.
    Numbers are parsed the way [uN::from_str_radix] parses them, the optional
    leading [+] included. *)

From S2P Require Import Prelude.
From Stdlib Require Ascii.

Abbreviation str := (list Z).

(** String literals of the source, all ASCII, as [str]. *)
Fixpoint of_string (s : string) : str :=
  match s with
  | EmptyString => []
  | String a s => Z.of_N (Ascii.N_of_ascii a) :: of_string s
  end.
Coercion of_string : string >-> list.

(** A [char] is a Unicode scalar value. *)
Definition is_char (c : Z) : Prop := (0 ≤ c < 0xD800) ∨ (0xE000 ≤ c < 0x110000).
#[global] Instance is_char_dec c : Decision (is_char c).
Proof. unfold is_char. apply _. Defined.
Abbreviation chars_ok := (Forall is_char).

Definition str_eqb (a b : str) : bool := bool_decide (a = b).

(** ** Character classes *)

Definition is_ascii_digit (c : Z) : bool := (48 <=? c) && (c <=? 57).
Definition is_ascii_lowercase (c : Z) : bool := (97 <=? c) && (c <=? 122).
Definition is_ascii_uppercase (c : Z) : bool := (65 <=? c) && (c <=? 90).
Definition is_ascii_alphabetic (c : Z) : bool := is_ascii_lowercase c || is_ascii_uppercase c.
Definition is_ascii_alphanumeric (c : Z) : bool := is_ascii_alphabetic c || is_ascii_digit c.

(** [char::is_whitespace]: the Unicode [White_Space] property. *)
Definition is_whitespace (c : Z) : bool :=
  ((9 <=? c) && (c <=? 13)) || (c =? 0x20) || (c =? 0x85) || (c =? 0xA0) || (c =? 0x1680) ||
  ((0x2000 <=? c) && (c <=? 0x200A)) || (c =? 0x2028) || (c =? 0x2029) || (c =? 0x202F) ||
  (c =? 0x205F) || (c =? 0x3000).

(** [char::is_control]: the general category [Cc]. *)
Definition is_control (c : Z) : bool := (c <=? 0x1F) || ((0x7F <=? c) && (c <=? 0x9F)).

Definition ascii_lower (c : Z) : Z := if is_ascii_uppercase c then c + 32 else c.
Definition to_ascii_lowercase (s : str) : str := map ascii_lower s.
Definition eq_ignore_ascii_case (a b : str) : bool :=
  str_eqb (to_ascii_lowercase a) (to_ascii_lowercase b).

(** ** Searching and splitting *)

Definition contains (c : Z) (s : str) : bool := existsb (Z.eqb c) s.

Fixpoint strip_prefix (p s : str) : option str :=
  match p, s with
  | [], _ => Some s
  | _ :: _, [] => None
  | c :: p, d :: s => if c =? d then strip_prefix p s else None
  end.
Definition strip_suffix (p s : str) : option str := (λ r, rev r) <$> strip_prefix (rev p) (rev s).
Definition starts_with (p s : str) : bool := bool_decide (is_Some (strip_prefix p s)).
Definition ends_with (p s : str) : bool := bool_decide (is_Some (strip_suffix p s)).

(** [str::contains] of a string. *)
Definition contains_str (needle s : str) : bool := existsb (λ n, starts_with needle (drop n s)) (seq 0 (S (length s))).

Fixpoint split_once (c : Z) (s : str) : option (str * str) :=
  match s with
  | [] => None
  | x :: s =>
      if x =? c then Some ([], s)
      else match split_once c s with Some (a, b) => Some (x :: a, b) | None => None end
  end.

Fixpoint rsplit_once (c : Z) (s : str) : option (str * str) :=
  match s with
  | [] => None
  | x :: s =>
      match rsplit_once c s with
      | Some (a, b) => Some (x :: a, b)
      | None => if x =? c then Some ([], s) else None
      end
  end.

(** [s.split_once("pat")] for a string pattern. *)
Fixpoint split_once_str (p s : str) : option (str * str) :=
  match strip_prefix p s with
  | Some rest => Some ([], rest)
  | None =>
      match s with
      | [] => None
      | x :: s => match split_once_str p s with Some (a, b) => Some (x :: a, b) | None => None end
      end
  end.

(** [s.split(c)]: always at least one piece. *)
Fixpoint split (c : Z) (s : str) : list str :=
  match s with
  | [] => [[]]
  | x :: s =>
      if x =? c then [] :: split c s
      else match split c s with p :: ps => (x :: p) :: ps | [] => [[x]] end
  end.

(** [s.split_at(s.find(|c| !p(c)).unwrap_or(s.len()))]. *)
Fixpoint span (p : Z → bool) (s : str) : str * str :=
  match s with
  | [] => ([], [])
  | x :: s' => if p x then let '(a, b) := span p s' in (x :: a, b) else ([], s)
  end.

Fixpoint trim_start (s : str) : str :=
  match s with
  | [] => []
  | x :: s' => if is_whitespace x then trim_start s' else s
  end.
Definition trim_end (s : str) : str := rev (trim_start (rev s)).
Definition trim (s : str) : str := trim_end (trim_start s).

(** Lexicographic order on code points, which is the order of the UTF-8 bytes. *)
Fixpoint str_compare (a b : str) : comparison :=
  match a, b with
  | [], [] => Eq
  | [], _ :: _ => Lt
  | _ :: _, [] => Gt
  | x :: a, y :: b => match Z.compare x y with Eq => str_compare a b | c => c end
  end.

(** [str::lines]. *)
Definition strip_cr (l : str) : str := match strip_suffix [13] l with Some l => l | None => l end.
Fixpoint lines_of (pieces : list str) : list str :=
  match pieces with
  | [] | [[]] => []
  | [l] => [l]
  | l :: pieces => strip_cr l :: lines_of pieces
  end.
Definition lines (text : str) : list str := lines_of (split 10 text).

(** ** Numbers *)

(** Decimal digits of [n], most significant first; [fuel] digits at most. *)
Fixpoint dec_digits (fuel : nat) (n : Z) (acc : str) : str :=
  match fuel with
  | O => acc
  | S fuel =>
      let acc := (48 + n mod 10) :: acc in
      if n <? 10 then acc else dec_digits fuel (n / 10) acc
  end.
(** [n.to_string()] for an unsigned [n]: [log2 n + 1] digits are always enough. *)
Definition to_string (n : Z) : str := dec_digits (S (Z.to_nat (Z.log2 n))) n [].

(** [char::to_digit]. *)
Definition to_digit (radix c : Z) : option Z :=
  let d :=
    if is_ascii_digit c then c - 48
    else if is_ascii_lowercase c then c - 87
    else if is_ascii_uppercase c then c - 55
    else radix in
  if d <? radix then Some d else None.

Fixpoint parse_digits (radix max acc : Z) (s : str) : option Z :=
  match s with
  | [] => Some acc
  | c :: s =>
      match to_digit radix c with
      | None => None
      | Some d =>
          let acc := acc * radix + d in
          if max <? acc then None else parse_digits radix max acc s
      end
  end.

(** [uN::from_str_radix] for the unsigned type with maximum [max], errors
    dropped: the empty string and a lone sign are errors, a leading [+] is
    accepted, overflow is an error. *)
Definition from_str_radix (radix max : Z) (s : str) : option Z :=
  match s with
  | [] => None
  | c :: s' =>
      if c =? 43 then match s' with [] => None | _ => parse_digits radix max 0 s' end
      else parse_digits radix max 0 s
  end.
Definition parse_u8 : str → option Z := from_str_radix 10 u8_max.
Definition parse_u16 : str → option Z := from_str_radix 10 u16_max.
Definition parse_u64 : str → option Z := from_str_radix 10 u64_max.

(** ** UTF-8 *)

Definition utf8_char (c : Z) : list Z :=
  if c <? 0x80 then [c]
  else if c <? 0x800 then [0xC0 + c / 64; 0x80 + c mod 64]
  else if c <? 0x10000 then [0xE0 + c / 4096; 0x80 + (c / 64) mod 64; 0x80 + c mod 64]
  else [0xF0 + c / 262144; 0x80 + (c / 4096) mod 64; 0x80 + (c / 64) mod 64; 0x80 + c mod 64].
(** [str::as_bytes]. *)
Definition as_bytes (s : str) : list Z := flat_map utf8_char s.

Definition is_cont (b : Z) : bool := (0x80 <=? b) && (b <? 0xC0).

(** [String::from_utf8]: shortest forms only, no surrogates, at most U+10FFFF. *)
Fixpoint from_utf8 (bs : list Z) : option str :=
  match bs with
  | [] => Some []
  | b0 :: r0 =>
      if b0 <? 0x80 then cons b0 <$> from_utf8 r0
      else
        match r0 with
        | b1 :: r1 =>
            if negb (is_cont b1) then None
            else if (0xC2 <=? b0) && (b0 <? 0xE0) then
              cons ((b0 - 0xC0) * 64 + (b1 - 0x80)) <$> from_utf8 r1
            else
              match r1 with
              | b2 :: r2 =>
                  if negb (is_cont b2) then None
                  else if (0xE0 <=? b0) && (b0 <? 0xF0) then
                    let c := (b0 - 0xE0) * 4096 + (b1 - 0x80) * 64 + (b2 - 0x80) in
                    if (c <? 0x800) || ((0xD800 <=? c) && (c <? 0xE000)) then None
                    else cons c <$> from_utf8 r2
                  else
                    match r2 with
                    | b3 :: r3 =>
                        if negb (is_cont b3) || (b0 <? 0xF0) || (0xF5 <=? b0) then None
                        else
                          let c := (b0 - 0xF0) * 262144 + (b1 - 0x80) * 4096 +
                                   (b2 - 0x80) * 64 + (b3 - 0x80) in
                          if (c <? 0x10000) || (0x10FFFF <? c) then None
                          else cons c <$> from_utf8 r3
                    | [] => None
                    end
              | [] => None
              end
        | [] => None
        end
  end.

(** The text between square brackets, or the text itself when it has none:
    [host.strip_prefix('[').and_then(|r| r.strip_suffix(']')).unwrap_or(host)]. *)
Definition unbracketed (host : str) : str :=
  default host (rest ← strip_prefix "[" host; strip_suffix "]" rest).

(** ** Lemmas: equality, prefixes, splitting *)

Lemma str_eqb_eq a b : str_eqb a b = true ↔ a = b.
Proof. apply bool_decide_eq_true. Qed.
Lemma str_eqb_neq a b : str_eqb a b = false ↔ a ≠ b.
Proof. apply bool_decide_eq_false. Qed.
Lemma str_eqb_refl a : str_eqb a a = true.
Proof. by apply str_eqb_eq. Qed.
Lemma str_eqb_spec a b : reflect (a = b) (str_eqb a b).
Proof. apply bool_decide_reflect. Qed.

Lemma contains_true c s : contains c s = true ↔ c ∈ s.
Proof.
  unfold contains. rewrite existsb_exists. setoid_rewrite Z.eqb_eq.
  rewrite list_elem_of_In. naive_solver.
Qed.
Lemma contains_false c s : contains c s = false ↔ c ∉ s.
Proof. rewrite <- contains_true. by destruct (contains c s). Qed.

Lemma strip_prefix_Some p s r : strip_prefix p s = Some r ↔ s = p ++ r.
Proof.
  revert s. induction p as [|c p IH]; intros [|d s]; simpl; [naive_solver..|].
  destruct (Z.eqb_spec c d) as [->|]; [|naive_solver]. rewrite IH. naive_solver.
Qed.

Lemma contains_str_true needle s : contains_str needle s = true ↔ ∃ a b, s = a ++ needle ++ b.
Proof.
  unfold contains_str, starts_with. rewrite existsb_exists. split.
  - intros (n & _ & H). destruct (strip_prefix needle (drop n s)) as [b|] eqn:E; [|done].
    apply strip_prefix_Some in E. exists (take n s), b. by rewrite <- E, take_drop.
  - intros (a & b & ->). exists (length a). split; [apply in_seq; rewrite length_app; lia|].
    rewrite drop_app_length. by rewrite (proj2 (strip_prefix_Some _ _ b) eq_refl).
Qed.
Lemma strip_prefix_app p r : strip_prefix p (p ++ r) = Some r.
Proof. by apply strip_prefix_Some. Qed.
Lemma strip_prefix_None p s : strip_prefix p s = None ↔ ∀ r, s ≠ p ++ r.
Proof.
  rewrite eq_None_not_Some. setoid_rewrite <- strip_prefix_Some. unfold is_Some. naive_solver.
Qed.
Lemma strip_suffix_Some p s r : strip_suffix p s = Some r ↔ s = r ++ p.
Proof.
  unfold strip_suffix. rewrite fmap_Some. setoid_rewrite strip_prefix_Some. split.
  - intros (x & Hx & ->). apply (f_equal (λ l, rev l)) in Hx.
    by rewrite rev_involutive, rev_app_distr, rev_involutive in Hx.
  - intros ->. exists (rev r). by rewrite rev_app_distr, rev_involutive.
Qed.
Lemma strip_suffix_app s p : strip_suffix p (s ++ p) = Some s.
Proof. apply strip_suffix_Some. done. Qed.
Lemma ends_with_true p s : ends_with p s = true ↔ ∃ r, s = r ++ p.
Proof. unfold ends_with. rewrite bool_decide_eq_true. unfold is_Some. by setoid_rewrite strip_suffix_Some. Qed.
Lemma starts_with_true p s : starts_with p s = true ↔ ∃ r, s = p ++ r.
Proof. unfold starts_with. rewrite bool_decide_eq_true. unfold is_Some. by setoid_rewrite strip_prefix_Some. Qed.

Lemma split_once_Some c s a b : split_once c s = Some (a, b) ↔ s = a ++ c :: b ∧ c ∉ a.
Proof.
  revert a b. induction s as [|x s IH]; intros a b; simpl.
  - split; [done|]. intros [H _]. by destruct a.
  - destruct (Z.eqb_spec x c) as [->|Hne].
    + split; [intros [= <- <-]; split; [done|apply not_elem_of_nil]|].
      intros [H Hn]. destruct a as [|y a]; simplify_list_eq; [done|]. by destruct Hn; left.
    + destruct (split_once c s) as [[a' b']|] eqn:Hs.
      * specialize (proj1 (IH a' b') eq_refl) as [-> Hn]. split.
        -- intros [= <- <-]. split; [done|]. rewrite elem_of_cons. naive_solver.
        -- intros [H Hn']. destruct a as [|y a]; simplify_list_eq.
           rewrite elem_of_cons in Hn'.
           assert (Some (a', b') = Some (a, b)) as [= -> ->]; [|done].
           apply IH. naive_solver.
      * split; [done|]. intros [H Hn]. destruct a as [|y a]; simplify_list_eq.
        rewrite elem_of_cons in Hn. assert (None = Some (a, b)); [|done]. apply IH. naive_solver.
Qed.

Lemma split_once_None c s : split_once c s = None ↔ c ∉ s.
Proof.
  induction s as [|x s IH]; simpl; [split; [intros _; apply not_elem_of_nil|done]|].
  rewrite not_elem_of_cons. destruct (Z.eqb_spec x c); [naive_solver|].
  destruct (split_once c s) as [[]|]; naive_solver.
Qed.

Lemma split_app c a b : c ∉ a → split c (a ++ c :: b) = a :: split c b.
Proof.
  induction a as [|x a IH]; intros Hc; simpl; [by rewrite Z.eqb_refl|].
  apply not_elem_of_cons in Hc as [Hx Hc]. destruct (Z.eqb_spec x c); [congruence|]. by rewrite IH.
Qed.
Lemma split_none c a : c ∉ a → split c a = [a].
Proof.
  induction a as [|x a IH]; intros Hc; simpl; [done|].
  apply not_elem_of_cons in Hc as [Hx Hc]. destruct (Z.eqb_spec x c); [congruence|]. by rewrite IH.
Qed.

Lemma rsplit_once_None c s : rsplit_once c s = None ↔ c ∉ s.
Proof.
  induction s as [|x s IH]; simpl; [split; [intros _; apply not_elem_of_nil|done]|].
  rewrite not_elem_of_cons. destruct (rsplit_once c s) as [[]|] eqn:?; [naive_solver|].
  destruct (Z.eqb_spec x c); naive_solver.
Qed.

Lemma rsplit_once_Some c s a b : rsplit_once c s = Some (a, b) ↔ s = a ++ c :: b ∧ c ∉ b.
Proof.
  revert a b. induction s as [|x s IH]; intros a b; simpl.
  - split; [done|]. intros [H _]. by destruct a.
  - destruct (rsplit_once c s) as [[a' b']|] eqn:Hs.
    + specialize (proj1 (IH a' b') eq_refl) as [-> Hn]. split.
      * by intros [= <- <-].
      * intros [H Hn']. destruct a as [|y a]; simplify_list_eq.
        -- destruct Hn'. rewrite elem_of_app, elem_of_cons. naive_solver.
        -- assert (Some (a', b') = Some (a, b)) as [= -> ->]; [by apply IH|done].
    + apply rsplit_once_None in Hs. destruct (Z.eqb_spec x c) as [->|Hne].
      * split; [intros [= <- <-]; done|]. intros [H Hn]. destruct a as [|y a]; simplify_list_eq; [done|].
        destruct Hs. rewrite elem_of_app, elem_of_cons. naive_solver.
      * split; [done|]. intros [H Hn]. destruct a as [|y a]; simplify_list_eq.
        destruct Hs. rewrite elem_of_app, elem_of_cons. naive_solver.
Qed.

Lemma span_app p a b :
  Forall (λ c, p c = true) a → (match b with [] => True | c :: _ => p c = false end) →
  span p (a ++ b) = (a, b).
Proof.
  intros Ha Hb. induction Ha as [|x a Hx Ha IH]; simpl.
  - destruct b as [|c b]; [done|]. simpl. by rewrite Hb.
  - by rewrite Hx, IH.
Qed.

Lemma span_spec p s a b :
  span p s = (a, b) → s = a ++ b ∧ Forall (λ c, p c = true) a ∧
    match b with [] => True | c :: _ => p c = false end.
Proof.
  revert a b. induction s as [|x s IH]; intros a b; simpl; [by intros [= <- <-]|].
  destruct (p x) eqn:Hp; [|by intros [= <- <-]].
  destruct (span p s) as [a' b'] eqn:Hs. intros [= <- <-].
  destruct (IH a' b') as (-> & ? & ?); [done|]. split_and!; [done|by constructor|done].
Qed.

Lemma trim_start_id s :
  match s with [] => True | c :: _ => is_whitespace c = false end → trim_start s = s.
Proof. destruct s; simpl; [done|]. by intros ->. Qed.

Lemma trim_id s : Forall (λ c, is_whitespace c = false) s → trim s = s.
Proof.
  intros Hs. unfold trim, trim_end. rewrite (trim_start_id s).
  - rewrite trim_start_id; [apply rev_involutive|].
    destruct (rev s) as [|c r] eqn:Hr; [done|].
    rewrite Forall_forall in Hs. apply Hs, list_elem_of_In, in_rev. rewrite Hr. by left.
  - destruct Hs; done.
Qed.

Lemma ascii_lower_idem c : ascii_lower (ascii_lower c) = ascii_lower c.
Proof.
  unfold ascii_lower, is_ascii_uppercase.
  destruct (Z.leb_spec 65 c), (Z.leb_spec c 90); simpl; cmp_cases; lia.
Qed.
Lemma to_ascii_lowercase_idem s : to_ascii_lowercase (to_ascii_lowercase s) = to_ascii_lowercase s.
Proof. unfold to_ascii_lowercase. rewrite map_map. apply map_ext, ascii_lower_idem. Qed.

(** ** Lemmas: decimal numbers *)

(** What [dec_digits] prints, digit by digit. *)
Lemma dec_digits_spec fuel n acc :
  0 ≤ n < 2 ^ Z.of_nat fuel → (0 < fuel)%nat →
  ∃ ds, dec_digits fuel n acc = ds ++ acc ∧ ds ≠ [] ∧
    Forall (λ c, is_ascii_digit c = true) ds ∧
    ∀ a, fold_left (λ v c, v * 10 + (c - 48)) ds a = a * 10 ^ Z.of_nat (length ds) + n.
Proof.
  revert n acc. induction fuel as [|fuel IH]; intros n acc Hn Hf; [lia|]. cbn [dec_digits].
  assert (is_ascii_digit (48 + n mod 10) = true) as Hd.
  { unfold is_ascii_digit. apply andb_true_iff. rewrite !Z.leb_le. dm_lia. }
  destruct (Z.ltb_spec n 10).
  - exists [48 + n mod 10]. split_and!; [done|done|by repeat constructor|].
    intros a. cbn [fold_left length]. rewrite Z.mod_small by lia. change (10 ^ Z.of_nat 1) with 10. lia.
  - rewrite Nat2Z.inj_succ, Z.pow_succ_r in Hn by lia.
    destruct (IH (n / 10) ((48 + n mod 10) :: acc)) as (ds & -> & Hne & Hds & Hv).
    { split; [apply Z.div_pos; lia|apply Z.div_lt_upper_bound; lia]. }
    { destruct fuel; [|lia]. change (2 ^ Z.of_nat 0) with 1 in Hn. lia. }
    exists (ds ++ [48 + n mod 10]). split_and!.
    + by rewrite <- app_assoc.
    + by destruct ds.
    + by apply Forall_app_2; [|repeat constructor].
    + intros a. rewrite fold_left_app, Hv. cbn [fold_left]. rewrite length_app. cbn [length].
      rewrite Nat2Z.inj_add, Z.pow_add_r by lia. change (10 ^ Z.of_nat 1) with 10.
      pose proof (Z.div_mod n 10). lia.
Qed.

Lemma to_string_spec n :
  0 ≤ n → ∃ c ds, to_string n = c :: ds ∧ Forall (λ c, is_ascii_digit c = true) (c :: ds) ∧
    fold_left (λ v c, v * 10 + (c - 48)) (c :: ds) 0 = n.
Proof.
  intros Hn. unfold to_string.
  destruct (dec_digits_spec (S (Z.to_nat (Z.log2 n))) n []) as (ds & -> & Hne & Hd & Hv); [|lia|].
  { rewrite Nat2Z.inj_succ, Z2Nat.id by apply Z.log2_nonneg.
    destruct (Z.eq_dec n 0) as [->|]; [done|]. pose proof (Z.log2_spec n). lia. }
  rewrite app_nil_r. destruct ds as [|c ds]; [done|]. exists c, ds.
  split_and!; [done..|]. rewrite Hv. lia.
Qed.

Lemma to_digit_dec c : is_ascii_digit c = true → to_digit 10 c = Some (c - 48).
Proof.
  intros H. unfold to_digit. rewrite H. unfold is_ascii_digit in H.
  apply andb_true_iff in H as [?%Z.leb_le ?%Z.leb_le]. by rewrite (proj2 (Z.ltb_lt _ _)) by lia.
Qed.

Lemma parse_digits_dec max ds a :
  0 ≤ a → Forall (λ c, is_ascii_digit c = true) ds →
  parse_digits 10 max a ds =
    (let v := fold_left (λ v c, v * 10 + (c - 48)) ds a in
     if decide (ds = [] ∨ v ≤ max) then Some v else None).
Proof.
  intros Ha Hds. revert a Ha. induction Hds as [|c ds Hc Hds IH]; intros a Ha; cbn [parse_digits].
  { case_decide; naive_solver. }
  rewrite to_digit_dec by done. cbn [fold_left].
  unfold is_ascii_digit in Hc. apply andb_true_iff in Hc as [?%Z.leb_le ?%Z.leb_le].
  assert (∀ a, 0 ≤ a → a ≤ fold_left (λ v c, v * 10 + (c - 48)) ds a) as Hmono.
  { clear IH a Ha. induction Hds as [|d ds Hd Hds IH]; intros a Ha; cbn [fold_left]; [lia|].
    unfold is_ascii_digit in Hd. apply andb_true_iff in Hd as [?%Z.leb_le ?%Z.leb_le].
    specialize (IH (a * 10 + (d - 48))). lia. }
  destruct (Z.ltb_spec max (a * 10 + (c - 48))).
  - rewrite decide_False; [done|]. intros [|]; [done|]. specialize (Hmono (a * 10 + (c - 48))). lia.
  - rewrite IH by lia. destruct ds as [|d ds].
    + rewrite !decide_True; auto.
    + cbv zeta. repeat case_decide; try done; exfalso; intuition congruence.
Qed.

Lemma to_string_no_plus n : 0 ≤ n → Forall (λ c, is_ascii_digit c = true) (to_string n) ∧ to_string n ≠ [].
Proof. intros (c & ds & -> & ? & ?)%to_string_spec. done. Qed.

(** Parsing the decimal rendering of a number gives the number back, or fails
    when the type is too narrow for it. *)
Lemma from_str_radix_to_string max n :
  0 ≤ n → from_str_radix 10 max (to_string n) = if decide (n ≤ max) then Some n else None.
Proof.
  intros Hn. destruct (to_string_spec n Hn) as (c & ds & -> & Hd & Hv).
  unfold from_str_radix. apply Forall_cons in Hd as Hd'. destruct Hd' as [Hc _].
  destruct (Z.eqb_spec c 43) as [->|]; [done|].
  rewrite parse_digits_dec by (done || lia). cbv zeta. rewrite Hv.
  repeat case_decide; naive_solver.
Qed.

Lemma parse_digits_bound radix max a s v :
  0 < radix → 0 ≤ a ≤ max → parse_digits radix max a s = Some v → 0 ≤ v ≤ max.
Proof.
  intros Hr. revert a. induction s as [|c s IH]; intros a Ha; cbn [parse_digits]; [by intros [= <-]|].
  destruct (to_digit radix c) as [d|] eqn:Hd; [|done].
  assert (0 ≤ d).
  { unfold to_digit, is_ascii_digit, is_ascii_lowercase, is_ascii_uppercase in Hd.
    repeat case_match; rewrite ?andb_true_iff, ?Z.leb_le in *; simplify_eq; lia. }
  destruct (Z.ltb_spec max (a * radix + d)); [done|]. apply IH. nia.
Qed.

Lemma from_str_radix_bound radix max s v :
  0 < radix → 0 ≤ max → from_str_radix radix max s = Some v → 0 ≤ v ≤ max.
Proof.
  intros ??. unfold from_str_radix. destruct s as [|c s]; [done|].
  case_match; [destruct s; [done|]|]; by apply parse_digits_bound.
Qed.

(** ** Lemmas: UTF-8 *)

(** Decide the comparisons of the goal by arithmetic. *)
Ltac decide_cmp :=
  repeat match goal with
  | |- context [?a <? ?b] =>
      first [rewrite (proj2 (Z.ltb_lt a b)) by dm_lia|rewrite (proj2 (Z.ltb_ge a b)) by dm_lia]
  | |- context [?a <=? ?b] =>
      first [rewrite (proj2 (Z.leb_le a b)) by dm_lia|rewrite (proj2 (Z.leb_gt a b)) by dm_lia]
  end; cbn [andb orb negb].

Lemma from_utf8_utf8_char c bs :
  is_char c → from_utf8 (utf8_char c ++ bs) = cons c <$> from_utf8 bs.
Proof.
  unfold is_char, utf8_char. intros Hc.
  destruct (Z.ltb_spec c 0x80); [|destruct (Z.ltb_spec c 0x800); [|destruct (Z.ltb_spec c 0x10000)]].
  - cbn [app from_utf8]. by rewrite (proj2 (Z.ltb_lt _ _)).
  - assert (c = c / 64 * 64 + c mod 64 ∧ 0 ≤ c mod 64 < 64) as [Hs ?] by dm_lia.
    set (x := c / 64) in *. set (y := c mod 64) in *. clearbody x y.
    cbn [app from_utf8]. unfold is_cont. decide_cmp. do 2 f_equal. lia.
  - assert (c = c / 4096 * 4096 + (c / 64) mod 64 * 64 + c mod 64 ∧ 0 ≤ c mod 64 < 64 ∧
      0 ≤ (c / 64) mod 64 < 64) as (Hs & ? & ?) by dm_lia.
    set (x := c / 4096) in *. set (y := (c / 64) mod 64) in *. set (z := c mod 64) in *.
    clearbody x y z. cbn [app from_utf8]. unfold is_cont. decide_cmp.
    replace ((0xE0 + x - 0xE0) * 4096 + (0x80 + y - 0x80) * 64 + (0x80 + z - 0x80)) with c by lia.
    decide_cmp. destruct Hc; decide_cmp; done.
  - assert (c = c / 262144 * 262144 + (c / 4096) mod 64 * 4096 + (c / 64) mod 64 * 64 + c mod 64 ∧
      0 ≤ c mod 64 < 64 ∧ 0 ≤ (c / 64) mod 64 < 64 ∧ 0 ≤ (c / 4096) mod 64 < 64)
      as (Hs & ? & ? & ?) by dm_lia.
    set (x := c / 262144) in *. set (y := (c / 4096) mod 64) in *. set (z := (c / 64) mod 64) in *.
    set (t := c mod 64) in *. clearbody x y z t. cbn [app from_utf8]. unfold is_cont. decide_cmp.
    replace ((0xF0 + x - 0xF0) * 262144 + (0x80 + y - 0x80) * 4096 + (0x80 + z - 0x80) * 64 +
      (0x80 + t - 0x80)) with c by lia.
    by decide_cmp.
Qed.

Lemma from_utf8_as_bytes s : chars_ok s → from_utf8 (as_bytes s) = Some s.
Proof.
  induction 1 as [|c s Hc Hs IH]; [done|]. unfold as_bytes in *. cbn [flat_map].
  by rewrite from_utf8_utf8_char, IH.
Qed.

Lemma utf8_char_bytes_ok c : is_char c → bytes_ok (utf8_char c).
Proof.
  unfold is_char, utf8_char, is_byte. intros Hc.
  repeat case_match; rewrite ?Z.ltb_lt, ?Z.ltb_ge in *; repeat constructor; dm_lia.
Qed.
Lemma as_bytes_inj a b : chars_ok a → chars_ok b → as_bytes a = as_bytes b → a = b.
Proof.
  intros Ha Hb Heq. apply from_utf8_as_bytes in Ha, Hb. rewrite Heq in Ha. congruence.
Qed.

Definition is_ascii (c : Z) : Prop := 0 ≤ c < 128.

Lemma as_bytes_ascii s : Forall is_ascii s → as_bytes s = s.
Proof.
  induction 1 as [|c s Hc Hs IH]; [done|]. unfold as_bytes in *. cbn [flat_map]. rewrite IH.
  unfold utf8_char. by rewrite (proj2 (Z.ltb_lt c 0x80)) by (unfold is_ascii in Hc; lia).
Qed.

Lemma as_bytes_ok s : chars_ok s → bytes_ok (as_bytes s).
Proof.
  induction 1; unfold as_bytes in *; cbn [flat_map]; [constructor|].
  apply Forall_app_2; [by apply utf8_char_bytes_ok|done].
Qed.

(** ** Lemmas: hosts and ports as text *)

Lemma unbracketed_id s : 91 ∉ s → unbracketed s = s.
Proof.
  intros H. unfold unbracketed. destruct (strip_prefix "[" s) as [r|] eqn:Hp; [|done].
  apply strip_prefix_Some in Hp as ->. exfalso. apply H. left.
Qed.

Lemma unbracketed_app s : unbracketed ("[" ++ s ++ "]") = s.
Proof.
  unfold unbracketed. rewrite strip_prefix_app. simpl.
  by rewrite (proj2 (strip_suffix_Some _ _ s)).
Qed.

Lemma chars_ok_to_string n : 0 ≤ n → chars_ok (to_string n).
Proof.
  intros [H _]%to_string_no_plus. eapply Forall_impl; [exact H|]. unfold is_ascii_digit, is_char.
  intros c. rewrite andb_true_iff, !Z.leb_le. lia.
Qed.

Lemma digit_not_in n c : 0 ≤ n → is_ascii_digit c = false → c ∉ to_string n.
Proof.
  intros [H _]%to_string_no_plus Hc Hin. rewrite Forall_forall in H. apply H in Hin. congruence.
Qed.

(** Printable ASCII is not white space. *)
Lemma printable_not_whitespace c : 33 ≤ c < 127 → is_whitespace c = false.
Proof. intros H. unfold is_whitespace. cmp_cases; done. Qed.

Lemma to_string_digit n c : 0 ≤ n → c ∈ to_string n → 48 ≤ c ≤ 57.
Proof.
  intros [H _]%to_string_no_plus Hc. rewrite Forall_forall in H. apply H in Hc.
  unfold is_ascii_digit in Hc. by apply andb_true_iff in Hc as [?%Z.leb_le ?%Z.leb_le].
Qed.

Lemma to_string_nonempty n : 0 ≤ n → to_string n ≠ [].
Proof. apply to_string_no_plus. Qed.

(** ** Lemmas: the order of strings *)

Lemma str_compare_eq a b : str_compare a b = Eq ↔ a = b.
Proof.
  revert b. induction a as [|x a IH]; intros [|y b]; simpl; [done..|].
  destruct (Z.compare_spec x y); [subst; rewrite IH; naive_solver|naive_solver lia..].
Qed.

Lemma str_compare_antisym a b : str_compare b a = CompOpp (str_compare a b).
Proof.
  revert b. induction a as [|x a IH]; intros [|y b]; simpl; [done..|].
  rewrite (Z.compare_antisym x y). destruct (x ?= y); simpl; [apply IH|done|done].
Qed.

(** Not greater. *)
Definition str_le (a b : str) : bool := match str_compare a b with Gt => false | _ => true end.

Lemma str_le_total a b : str_le a b = true ∨ str_le b a = true.
Proof. unfold str_le. rewrite (str_compare_antisym a b). destruct (str_compare a b); auto. Qed.

Lemma str_le_trans a b c : str_le a b = true → str_le b c = true → str_le a c = true.
Proof.
  unfold str_le. revert b c. induction a as [|x a IH]; intros [|y b] [|z c]; simpl; try done.
  destruct (Z.compare_spec x y), (Z.compare_spec y z), (Z.compare_spec x z); subst; try done; try lia.
  apply IH.
Qed.

Lemma str_le_antisym a b : str_le a b = true → str_le b a = true → a = b.
Proof.
  unfold str_le. rewrite (str_compare_antisym a b), <- str_compare_eq.
  by destruct (str_compare a b).
Qed.
