(* ===== verification/RustNet.v ===== *)
(** * Rust's [std::net] addresses

    [IpAddr] with the classification methods, the textual syntax ([FromStr])
    and the rendering ([Display]) the repository relies on.  An address is its
    big-endian integer, so [octets] and [segments] are views and the derived
    order of the standard library is the order of the integers. *)

From S2P Require Import Prelude RustStr.

Inductive IpAddr : Type :=
  | V4 (bits : Z)
  | V6 (bits : Z).
#[global] Instance IpAddr_eq_dec : EqDecision IpAddr.
Proof. solve_decision. Defined.

Definition ip_ok (ip : IpAddr) : Prop :=
  match ip with V4 b => 0 ≤ b < 2 ^ 32 | V6 b => 0 ≤ b < 2 ^ 128 end.
#[global] Instance ip_ok_dec ip : Decision (ip_ok ip).
Proof. destruct ip; simpl; apply _. Defined.

Record SocketAddr : Type := { sa_ip : IpAddr; sa_port : Z }.

Definition is_ipv4 (ip : IpAddr) : bool := match ip with V4 _ => true | V6 _ => false end.
Definition is_ipv6 (ip : IpAddr) : bool := match ip with V4 _ => false | V6 _ => true end.

(** [octets()] of the address, whichever family. *)
Definition octets (ip : IpAddr) : list Z :=
  match ip with V4 b => be_bytes 4 b | V6 b => be_bytes 16 b end.
Definition octet (ip : IpAddr) (i : nat) : Z := nth i (octets ip) 0.

(** [Ipv6Addr::segments()] and [Ipv6Addr::from([u16; 8])]. *)
Definition segment (b i : Z) : Z := (b / 2 ^ (16 * i)) mod 2 ^ 16.
Definition segments (b : Z) : list Z := map (segment b) [7; 6; 5; 4; 3; 2; 1; 0].
Definition from_segments (l : list Z) : Z := fold_left (λ a s, a * 2 ^ 16 + s) l 0.

(** Derived [Ord]: every IPv4 address is below every IPv6 address. *)
Definition ip_ltb (a b : IpAddr) : bool :=
  match a, b with
  | V4 x, V4 y => x <? y
  | V6 x, V6 y => x <? y
  | V4 _, V6 _ => true
  | V6 _, V4 _ => false
  end.

(** ** Classification *)

Definition is_unspecified (ip : IpAddr) : bool := match ip with V4 b | V6 b => b =? 0 end.
Definition is_loopback (ip : IpAddr) : bool :=
  match ip with V4 _ => octet ip 0 =? 127 | V6 b => b =? 1 end.
Definition is_multicast (ip : IpAddr) : bool :=
  match ip with
  | V4 _ => (224 <=? octet ip 0) && (octet ip 0 <=? 239)
  | V6 _ => octet ip 0 =? 255
  end.
(** [Ipv4Addr] only. *)
Definition is_link_local (b : Z) : bool := (octet (V4 b) 0 =? 169) && (octet (V4 b) 1 =? 254).
Definition is_broadcast (b : Z) : bool := b =? u32_max.
Definition is_private (b : Z) : bool :=
  let o := octet (V4 b) in
  (o 0%nat =? 10) ||
  ((o 0%nat =? 172) && (16 <=? o 1%nat) && (o 1%nat <=? 31)) ||
  ((o 0%nat =? 192) && (o 1%nat =? 168)).
(** [Ipv6Addr::to_ipv4_mapped]: [::ffff:a.b.c.d]. *)
Definition to_ipv4_mapped (b : Z) : option Z :=
  if b / 2 ^ 32 =? 0xffff then Some (b mod 2 ^ 32) else None.

(** ** Rendering *)

(** Lower-case hexadecimal of a 16-bit group, without leading zeros: [{:x}]. *)
Definition hex_digit (d : Z) : Z := if d <? 10 then 48 + d else 87 + d.
Definition hex (s : Z) : str :=
  if s <? 16 then [hex_digit s]
  else if s <? 256 then [hex_digit (s / 16); hex_digit (s mod 16)]
  else if s <? 4096 then [hex_digit (s / 256); hex_digit ((s / 16) mod 16); hex_digit (s mod 16)]
  else [hex_digit (s / 4096); hex_digit ((s / 256) mod 16); hex_digit ((s / 16) mod 16);
        hex_digit (s mod 16)].

Definition display_v4 (b : Z) : str :=
  to_string (octet (V4 b) 0) ++ "." ++ to_string (octet (V4 b) 1) ++ "." ++
  to_string (octet (V4 b) 2) ++ "." ++ to_string (octet (V4 b) 3).

(** The longest run of zero groups: [(start, len)], the leftmost of equals. *)
Fixpoint zero_span (i : nat) (cur longest : nat * nat) (l : list Z) : nat * nat :=
  match l with
  | [] => longest
  | s :: l =>
      if s =? 0 then
        let cur := if (cur.2 =? 0)%nat then (i, 1%nat) else (cur.1, S cur.2) in
        zero_span (S i) cur (if (longest.2 <? cur.2)%nat then cur else longest) l
      else zero_span (S i) (0, 0)%nat longest l
  end.

Fixpoint fmt_subslice (l : list Z) : str :=
  match l with
  | [] => []
  | [s] => hex s
  | s :: l => hex s ++ ":" ++ fmt_subslice l
  end.

Definition display_v6 (b : Z) : str :=
  match to_ipv4_mapped b with
  | Some v4 => "::ffff:" ++ display_v4 v4
  | None =>
      let segs := segments b in
      let '(start, len) := zero_span 0 (0, 0)%nat (0, 0)%nat segs in
      if (1 <? len)%nat then
        fmt_subslice (take start segs) ++ "::" ++ fmt_subslice (drop (start + len) segs)
      else fmt_subslice segs
  end.

Definition display_ip (ip : IpAddr) : str :=
  match ip with V4 b => display_v4 b | V6 b => display_v6 b end.

(** ** Parsing *)

(** A reader of [core::net::parser]: it returns what it read and the rest, or
    fails and leaves the input untouched. *)
Definition reader (A : Type) : Type := str → option (A * str).

Definition read_given_char (c : Z) : reader unit :=
  λ s, match s with x :: s => if x =? c then Some (tt, s) else None | [] => None end.

Fixpoint read_digits (radix : Z) (max_digits count : nat) (acc : Z) (s : str)
    : option (nat * Z * str) :=
  match s with
  | [] => Some (count, acc, [])
  | c :: s' =>
      match to_digit radix c with
      | Some d =>
          if (max_digits <? S count)%nat then None
          else read_digits radix max_digits (S count) (acc * radix + d) s'
      | None => Some (count, acc, s)
      end
  end.

Definition read_number (radix : Z) (max_digits : nat) (allow_zero_prefix : bool) (max : Z)
    : reader Z :=
  λ s,
    match read_digits radix max_digits 0 0 s with
    | None => None
    | Some (count, v, rest) =>
        let leading_zero := match s with c :: _ => c =? 48 | [] => false end in
        if (count =? 0)%nat then None
        else if negb allow_zero_prefix && leading_zero && (1 <? count)%nat then None
        else if max <? v then None
        else Some (v, rest)
    end.

Definition read_separator {A} (sep : Z) (index : nat) (inner : reader A) : reader A :=
  λ s, if (0 <? index)%nat then '(_, s) ← read_given_char sep s; inner s else inner s.

Definition read_octet : reader Z := read_number 10 3 false u8_max.

Definition read_ipv4_addr : reader Z :=
  λ s,
    '(a, s) ← read_octet s;
    '(b, s) ← read_separator 46 1 read_octet s;
    '(c, s) ← read_separator 46 2 read_octet s;
    '(d, s) ← read_separator 46 3 read_octet s;
    Some (from_be_bytes [a; b; c; d], s).

(** [n] slots left, [i] groups read so far. *)
Fixpoint read_groups (n i : nat) (s : str) : list Z * bool * str :=
  match n with
  | O => ([], false, s)
  | S n' =>
      match (if (1 <=? n')%nat then read_separator 58 i read_ipv4_addr s else None) with
      | Some (v4, s') => ([v4 / 2 ^ 16; v4 mod 2 ^ 16], true, s')
      | None =>
          match read_separator 58 i (read_number 16 4 true u16_max) s with
          | Some (g, s') => let '(gs, v4, s'') := read_groups n' (S i) s' in (g :: gs, v4, s'')
          | None => ([], false, s)
          end
      end
  end.

Definition read_ipv6_addr : reader Z :=
  λ s,
    let '(head, head_ipv4, s) := read_groups 8 0 s in
    if (length head =? 8)%nat then Some (from_segments head, s)
    else if head_ipv4 then None
    else
      '(_, s) ← read_given_char 58 s;
      '(_, s) ← read_given_char 58 s;
      let '(tail, _, s) := read_groups (8 - (length head + 1)) 0 s in
      Some (from_segments (head ++ replicate (8 - length head - length tail) 0 ++ tail), s).

Definition read_ip_addr : reader IpAddr :=
  λ s,
    match read_ipv4_addr s with
    | Some (b, s) => Some (V4 b, s)
    | None => '(b, s) ← read_ipv6_addr s; Some (V6 b, s)
    end.

(** [s.parse::<IpAddr>().ok()]: the reader must consume everything. *)
Definition parse_ip (s : str) : option IpAddr :=
  match read_ip_addr s with
  | Some (ip, []) => Some ip
  | _ => None
  end.

(** ** What the readers consume *)

Definition digit_value (radix c : Z) : Z := default 0 (to_digit radix c).
Definition stops (radix : Z) (rest : str) : Prop :=
  match rest with [] => True | c :: _ => to_digit radix c = None end.

Lemma to_digit_bound radix c d : to_digit radix c = Some d → 0 ≤ d < radix.
Proof.
  unfold to_digit, is_ascii_digit, is_ascii_lowercase, is_ascii_uppercase.
  intros H. repeat case_match; rewrite ?andb_true_iff, ?Z.leb_le, ?Z.ltb_lt in *; simplify_eq; lia.
Qed.

(** Reading a run of digits [ds] that [rest] does not continue. *)
Lemma read_digits_app radix max_digits count acc ds rest :
  Forall (λ c, is_Some (to_digit radix c)) ds → (count + length ds ≤ max_digits)%nat →
  stops radix rest →
  read_digits radix max_digits count acc (ds ++ rest) =
    Some ((count + length ds)%nat, fold_left (λ v c, v * radix + digit_value radix c) ds acc, rest).
Proof.
  intros Hds. revert count acc. induction Hds as [|c ds [d Hd] Hds IH]; intros count acc Hle Hs.
  - rewrite Nat.add_0_r. destruct rest as [|c rest]; [done|]. simpl in *. by rewrite Hs.
  - cbn [app read_digits length fold_left] in *. rewrite Hd.
    destruct (Nat.ltb_spec max_digits (S count)); [lia|].
    replace (digit_value radix c) with d by (unfold digit_value; by rewrite Hd).
    rewrite IH by (done || lia). do 3 f_equal. lia.
Qed.

Lemma read_digits_Some radix max_digits count acc s n v rest :
  read_digits radix max_digits count acc s = Some (n, v, rest) → 0 ≤ acc → 0 ≤ radix →
  ∃ ds, s = ds ++ rest ∧ Forall (λ c, is_Some (to_digit radix c)) ds ∧
    n = (count + length ds)%nat ∧ 0 ≤ v ∧ stops radix rest.
Proof.
  revert count acc. induction s as [|c s IH]; intros count acc; cbn [read_digits].
  - intros [= <- <- <-] ??. exists []. split_and!; [done|constructor|simpl; lia|done|done].
  - destruct (to_digit radix c) as [d|] eqn:Hd.
    + case_match; [done|]. intros Hr ? ?. apply to_digit_bound in Hd as Hb.
      apply IH in Hr as (ds & -> & Hds & -> & ? & ?); [|nia|done].
      exists (c :: ds). split_and!; [done|by constructor|simpl; lia|done|done].
    + intros [= <- <- <-] ??. exists []. split_and!; [done|constructor|simpl; lia|done|done].
Qed.

Lemma read_number_Some radix m z max s v rest :
  0 ≤ radix → read_number radix m z max s = Some (v, rest) →
  0 ≤ v ≤ max ∧ ∃ ds, s = ds ++ rest ∧ ds ≠ [] ∧ Forall (λ c, is_Some (to_digit radix c)) ds ∧
    stops radix rest.
Proof.
  unfold read_number. intros Hr H.
  destruct (read_digits radix m 0 0 s) as [[[n v'] rest']|] eqn:Hd; [|done].
  repeat (case_match; [done|]). simplify_eq.
  apply read_digits_Some in Hd as (ds & -> & ? & -> & ? & ?); [|done..].
  rewrite Z.ltb_ge in *. split; [lia|]. exists ds. split_and!; try done.
  intros ->. done.
Qed.

(** The next character decides against a dotted quad. *)
Definition dec_dot (c : Z) : bool := is_ascii_digit c || (c =? 46).

Lemma to_digit_10 c : is_Some (to_digit 10 c) → is_ascii_digit c = true.
Proof.
  intros [d H]. unfold to_digit in H. destruct (is_ascii_digit c); [done|].
  unfold is_ascii_lowercase, is_ascii_uppercase in H.
  repeat case_match; rewrite ?andb_true_iff, ?Z.leb_le, ?Z.ltb_lt in *; simplify_eq; lia.
Qed.

Lemma digits_dec_dot ds :
  Forall (λ c, is_Some (to_digit 10 c)) ds → Forall (λ c, dec_dot c = true) ds.
Proof.
  intros H. eapply Forall_impl; [exact H|]. intros c Hc%to_digit_10. unfold dec_dot. by rewrite Hc.
Qed.

Lemma read_octet_Some s v rest :
  read_octet s = Some (v, rest) →
  is_byte v ∧ ∃ ds, s = ds ++ rest ∧ Forall (λ c, dec_dot c = true) ds.
Proof.
  intros (Hb & ds & -> & _ & Hds & _)%read_number_Some; [|lia].
  split; [unfold is_byte, u8_max in *; lia|]. exists ds. eauto using digits_dec_dot.
Qed.

Lemma read_dot_octet_Some i s v rest :
  (0 < i)%nat → read_separator 46 i read_octet s = Some (v, rest) →
  is_byte v ∧ ∃ ds, s = ds ++ rest ∧ Forall (λ c, dec_dot c = true) ds.
Proof.
  unfold read_separator. intros Hi H. destruct (Nat.ltb_spec 0 i); [|lia].
  destruct s as [|c s]; [done|]. simpl in H. destruct (Z.eqb_spec c 46) as [->|]; [|done].
  simpl in H. apply read_octet_Some in H as (? & ds & -> & ?). split; [done|].
  exists (46 :: ds). split; [done|]. by constructor.
Qed.

Lemma read_ipv4_addr_Some s b rest :
  read_ipv4_addr s = Some (b, rest) →
  0 ≤ b < 2 ^ 32 ∧ ∃ used, s = used ++ rest ∧ Forall (λ c, dec_dot c = true) used.
Proof.
  unfold read_ipv4_addr. intros H.
  apply bind_Some in H as ([x1 s1] & H1 & H). apply bind_Some in H as ([x2 s2] & H2 & H).
  apply bind_Some in H as ([x3 s3] & H3 & H). apply bind_Some in H as ([x4 s4] & H4 & H).
  simplify_eq. apply read_octet_Some in H1 as (? & u1 & -> & ?).
  apply read_dot_octet_Some in H2 as (? & u2 & -> & ?); [|lia].
  apply read_dot_octet_Some in H3 as (? & u3 & -> & ?); [|lia].
  apply read_dot_octet_Some in H4 as (? & u4 & -> & ?); [|lia].
  split; [apply (from_be_bytes_bound [x1; x2; x3; x4]); forall_list|].
  exists (u1 ++ u2 ++ u3 ++ u4). rewrite <- !app_assoc. split; [done|]. by repeat apply Forall_app_2.
Qed.

Definition is_u16 (g : Z) : Prop := 0 ≤ g < 2 ^ 16.

Lemma read_separator_Some {A} sep i (inner : reader A) s x rest :
  read_separator sep i inner s = Some (x, rest) →
  ∃ s', inner s' = Some (x, rest) ∧
    if (0 <? i)%nat then s = sep :: s' else s = s'.
Proof.
  unfold read_separator. case_match; [|eauto].
  intros ([[] s1] & H1 & H2)%bind_Some. exists s1. split; [done|].
  destruct s as [|c s]; [done|]. simpl in H1. destruct (Z.eqb_spec c sep); naive_solver.
Qed.

Lemma read_groups_Some n i s gs v4 rest :
  read_groups n i s = (gs, v4, rest) →
  (length gs ≤ n)%nat ∧ Forall is_u16 gs ∧ (∃ used, s = used ++ rest) ∧
  ((0 < i)%nat → gs ≠ [] → 58 ∈ s).
Proof.
  revert i s gs v4 rest. induction n as [|n IH]; intros i s gs v4 rest; cbn [read_groups].
  { intros [= <- <- <-]. split_and!; [simpl; lia|constructor|by exists []|done]. }
  destruct (if (1 <=? n)%nat then _ else _) as [[q s1]|] eqn:Hv4.
  - intros [= <- <- <-]. destruct (Nat.leb_spec 1 n); [|done].
    apply read_separator_Some in Hv4 as (s2 & (? & u & -> & ?)%read_ipv4_addr_Some & Hs).
    split_and!; [simpl; lia|unfold is_u16; forall_list_by dm_lia|..].
    + case_match; subst; [by exists (58 :: u)|by exists u].
    + intros Hi _. rewrite (proj2 (Nat.ltb_lt 0 i)) in Hs by done. subst. left.
  - destruct (read_separator 58 i (read_number 16 4 true u16_max) s) as [[g s1]|] eqn:Hg.
    + destruct (read_groups n (S i) s1) as [[gs' v4'] s2] eqn:Hr. intros [= <- <- <-].
      apply IH in Hr as (? & ? & (u & ->) & _).
      apply read_separator_Some in Hg as (s3 & (? & ds & -> & ? & ? & ?)%read_number_Some & Hs); [|lia].
      split_and!; [simpl; lia|apply Forall_cons_2; [unfold is_u16, u16_max in *; lia|done]|..].
      * case_match; subst; [exists (58 :: ds ++ u)|exists (ds ++ u)]; simpl; by rewrite <- app_assoc.
      * intros Hi _. rewrite (proj2 (Nat.ltb_lt 0 i)) in Hs by done. subst. left.
    + intros [= <- <- <-]. split_and!; [simpl; lia|constructor|by exists []|done].
Qed.

Lemma fold_segments_bound l a :
  Forall is_u16 l → 0 ≤ a →
  0 ≤ fold_left (λ a s, a * 2 ^ 16 + s) l a < (a + 1) * 2 ^ (16 * Z.of_nat (length l)).
Proof.
  intros Hl. revert a. induction Hl as [|s l Hs Hl IH]; intros a Ha; cbn [fold_left length].
  - change (16 * Z.of_nat 0) with 0. lia.
  - unfold is_u16 in Hs. specialize (IH (a * 2 ^ 16 + s)). rewrite Nat2Z.inj_succ, Z.mul_succ_r.
    rewrite Z.pow_add_r by lia. assert (0 < 2 ^ (16 * Z.of_nat (length l))) by (apply Z.pow_pos_nonneg; lia).
    nia.
Qed.

Lemma from_segments_bound l :
  Forall is_u16 l → length l = 8%nat → 0 ≤ from_segments l < 2 ^ 128.
Proof.
  intros Hl Hlen. pose proof (fold_segments_bound l 0 Hl) as H. rewrite Hlen in H.
  unfold from_segments. change (2 ^ (16 * Z.of_nat 8)) with (2 ^ 128) in H. lia.
Qed.

Lemma read_ipv6_addr_Some s b rest :
  read_ipv6_addr s = Some (b, rest) → 0 ≤ b < 2 ^ 128 ∧ 58 ∈ s.
Proof.
  unfold read_ipv6_addr. destruct (read_groups 8 0 s) as [[hd h4] s1] eqn:Hr.
  pose proof (read_groups_Some _ _ _ _ _ _ Hr) as (Hle & Hok & (u & Hu) & _).
  destruct (Nat.eqb_spec (length hd) 8) as [Hl|Hl].
  - intros [= <- <-]. split; [by apply from_segments_bound|].
    cbn [read_groups] in Hr. change (0 <? 0)%nat with false in Hr.
    destruct (if (1 <=? 7)%nat then _ else _) as [[q s2]|]; [by simplify_eq|].
    destruct (read_separator 58 0 (read_number 16 4 true u16_max) s) as [[g s2]|] eqn:Hg;
      [|by simplify_eq].
    fold (read_groups 7 1 s2) in Hr. destruct (read_groups 7 1 s2) as [[gs v] s3] eqn:Hr1.
    simplify_eq. apply read_groups_Some in Hr1 as (_ & _ & _ & Hin).
    apply read_separator_Some in Hg as (s4 & (_ & ds & -> & _)%read_number_Some & Hs); [|lia].
    change (0 <? 0)%nat with false in Hs. simpl in Hs. rewrite Hs. apply elem_of_app. right.
    apply Hin; [lia|]. by intros ->.
  - destruct h4; [done|]. intros H. apply bind_Some in H as ([[] s2] & H1 & H).
    apply bind_Some in H as ([[] s3] & H2 & H).
    destruct (read_groups (8 - (length hd + 1)) 0 s3) as [[tl t4] s4] eqn:Ht. simplify_eq.
    apply read_groups_Some in Ht as (Hle' & Hok' & _). split.
    + apply from_segments_bound.
      * apply Forall_app_2; [done|]. apply Forall_app_2; [|done]. apply Forall_replicate.
        unfold is_u16. lia.
      * rewrite !length_app, length_replicate. lia.
    + destruct s1 as [|c s1]; [done|]. simpl in H1. destruct (Z.eqb_spec c 58) as [->|]; [|done].
      apply elem_of_app. right. left.
Qed.

Lemma parse_ip_ok s ip : parse_ip s = Some ip → ip_ok ip.
Proof.
  unfold parse_ip, read_ip_addr. destruct (read_ipv4_addr s) as [[b r]|] eqn:H4.
  - apply read_ipv4_addr_Some in H4 as [? _]. destruct r; [|done]. by intros [= <-].
  - destruct (read_ipv6_addr s) as [[b r]|] eqn:H6; [|done]. simpl.
    apply read_ipv6_addr_Some in H6 as [? _]. destruct r; [|done]. by intros [= <-].
Qed.

(** A text without a colon can only be a dotted quad. *)
Lemma parse_ip_no_colon s ip :
  58 ∉ s → parse_ip s = Some ip → Forall (λ c, dec_dot c = true) s ∧ is_ipv4 ip = true.
Proof.
  intros Hn. unfold parse_ip, read_ip_addr. destruct (read_ipv4_addr s) as [[b r]|] eqn:H4.
  - apply read_ipv4_addr_Some in H4 as (? & u & -> & ?). destruct r; [|done]. intros [= <-].
    by rewrite app_nil_r.
  - destruct (read_ipv6_addr s) as [[b r]|] eqn:H6; [|done].
    by apply read_ipv6_addr_Some in H6 as [_ ?].
Qed.

(** ** Reading back what [Display] prints *)

(** Checked for every octet by evaluation. *)
Definition octet_text_ok (o : Z) : bool :=
  let ds := to_string o in
  forallb is_ascii_digit ds && (length ds <=? 3)%nat && negb (length ds =? 0)%nat &&
  (negb (match ds with c :: _ => c =? 48 | [] => false end) || (length ds =? 1)%nat) &&
  (fold_left (λ v c, v * 10 + digit_value 10 c) ds 0 =? o).

Lemma octet_text_all : forallb octet_text_ok (seqZ 0 256) = true.
Proof. by vm_compute. Qed.

Lemma read_octet_to_string o rest :
  is_byte o → stops 10 rest → read_octet (to_string o ++ rest) = Some (o, rest).
Proof.
  intros Ho Hs. assert (octet_text_ok o = true) as Hok.
  { pose proof octet_text_all as H. rewrite forallb_forall in H. apply H.
    apply list_elem_of_In, elem_of_seqZ. unfold is_byte in Ho. lia. }
  unfold octet_text_ok in Hok. rewrite !andb_true_iff in Hok.
  destruct Hok as ((((Hd & Hl) & Hn) & Hz) & Hv). apply Nat.leb_le in Hl. apply Z.eqb_eq in Hv.
  unfold read_octet, read_number.
  rewrite read_digits_app; [|apply Forall_forall|lia|done].
  - rewrite Nat.add_0_l, Hv. destruct (to_string o) as [|c ds]; [done|]. cbn [app].
    change (length (c :: ds) =? 0)%nat with false. cbn [negb andb].
    destruct (c =? 48); cbn [negb orb andb] in *.
    + apply Nat.eqb_eq in Hz. rewrite Hz. cbn. destruct (Z.ltb_spec u8_max o); [|done].
      unfold is_byte, u8_max in *. lia.
    + destruct (Z.ltb_spec u8_max o); [|done]. unfold is_byte, u8_max in *. lia.
  - rewrite forallb_forall in Hd. intros c Hc%list_elem_of_In%Hd. by rewrite to_digit_dec.
Qed.

Lemma read_dot_octet i o rest :
  (0 < i)%nat → is_byte o → stops 10 rest →
  read_separator 46 i read_octet (46 :: to_string o ++ rest) = Some (o, rest).
Proof.
  intros Hi ??. unfold read_separator. rewrite (proj2 (Nat.ltb_lt 0 i)) by done.
  simpl. by apply read_octet_to_string.
Qed.

Create HintDb net.

Lemma octet_byte ip i : is_byte (octet ip i).
Proof.
  assert (bytes_ok (octets ip)) as H by (destruct ip; apply be_bytes_ok).
  unfold octet. destruct (nth_in_or_default i (octets ip) 0) as [Hin| ->]; [|done].
  rewrite Forall_forall in H. by apply H, list_elem_of_In.
Qed.
#[export] Hint Resolve octet_byte : net.
#[export] Hint Extern 1 (stops _ (_ :: _)) => reflexivity : net.
#[export] Hint Extern 1 (stops _ []) => exact I : net.

Lemma read_display_v4 b rest :
  0 ≤ b < 2 ^ 32 → stops 10 rest → read_ipv4_addr (display_v4 b ++ rest) = Some (b, rest).
Proof.
  intros Hb Hs. unfold display_v4, read_ipv4_addr. rewrite <- !app_assoc.
  change (of_string ".") with [46]. cbn [app].
  rewrite read_octet_to_string by auto with net. cbn [mbind option_bind].
  do 3 (rewrite read_dot_octet by (auto with net || lia); cbn [mbind option_bind]).
  do 2 f_equal. change (from_be_bytes (be_bytes 4 b) = b). by apply from_be_be_bytes_small.
Qed.

Lemma read_ipv4_needs_dot s b r :
  read_ipv4_addr s = Some (b, r) →
  ∃ ds t, s = ds ++ 46 :: t ∧ Forall (λ c, is_Some (to_digit 10 c)) ds.
Proof.
  unfold read_ipv4_addr. intros H.
  apply bind_Some in H as ([x1 s1] & H1 & H). apply bind_Some in H as ([x2 s2] & H2 & _).
  apply read_number_Some in H1 as (_ & ds & -> & _ & Hds & _); [|lia].
  apply read_separator_Some in H2 as (s3 & _ & Hs). simpl in Hs. subst. by exists ds, s3.
Qed.

Lemma read_ipv4_None u rest :
  46 ∉ u → match rest with [] => True | c :: _ => c ≠ 46 ∧ to_digit 10 c = None end →
  read_ipv4_addr (u ++ rest) = None.
Proof.
  intros Hu Hr. destruct (read_ipv4_addr (u ++ rest)) as [[b r]|] eqn:H; [|done].
  apply read_ipv4_needs_dot in H as (ds & t & Heq & Hds). exfalso.
  apply app_eq_inv in Heq as [(k & Hk & Hk')|(k & -> & ->)].
  - destruct k as [|c k]; simplify_list_eq; [by destruct Hr|].
    apply Hu, elem_of_app. right. left.
  - destruct k as [|c k]; [by destruct Hr|]. destruct Hr as [_ Hr].
    apply Forall_app in Hds as [_ [[? Hc] _]%Forall_cons]. congruence.
Qed.

(** A hexadecimal group. *)
Lemma hex_digit_value d :
  0 ≤ d < 16 → to_digit 16 (hex_digit d) = Some d ∧ hex_digit d ≠ 46.
Proof.
  intros Hd. assert (forallb (λ d, bool_decide (to_digit 16 (hex_digit d) = Some d) &&
    bool_decide (hex_digit d ≠ 46)) (seqZ 0 16) = true) as H by (by vm_compute).
  rewrite forallb_forall in H. specialize (H d).
  rewrite andb_true_iff, !bool_decide_eq_true in H. apply H, list_elem_of_In, elem_of_seqZ. lia.
Qed.

Lemma hex_spec s :
  is_u16 s → Forall (λ c, is_Some (to_digit 16 c)) (hex s) ∧ 46 ∉ hex s ∧
    (0 < length (hex s) ≤ 4)%nat ∧ fold_left (λ v c, v * 16 + digit_value 16 c) (hex s) 0 = s.
Proof.
  unfold is_u16, hex, digit_value. intros Hs.
  repeat case_match; rewrite ?Z.ltb_lt, ?Z.ltb_ge in *;
    (assert (∀ d, 0 ≤ d < 16 → to_digit 16 (hex_digit d) = Some d) as Hd
      by (intros; by apply hex_digit_value));
    (assert (∀ d, 0 ≤ d < 16 → hex_digit d ≠ 46) as Hd' by (intros; by apply hex_digit_value));
    cbn [fold_left length]; rewrite !Hd by dm_lia; cbn [default from_option id];
    (split_and!; [forall_list_by ltac:(rewrite Hd by dm_lia; eauto)| |lia|lia|dm_lia]);
    rewrite ?not_elem_of_cons; split_and?; try (apply not_eq_sym, Hd'; dm_lia); apply not_elem_of_nil.
Qed.

Lemma read_number_hex s rest :
  is_u16 s → stops 16 rest → read_number 16 4 true u16_max (hex s ++ rest) = Some (s, rest).
Proof.
  intros Hu Hs. destruct (hex_spec s Hu) as (Hd & _ & Hl & Hv).
  unfold read_number. rewrite read_digits_app by (done || lia). rewrite Hv, Nat.add_0_l.
  destruct (Nat.eqb_spec (length (hex s)) 0); [lia|]. cbn [negb andb].
  destruct (Z.ltb_spec u16_max s); [|done]. unfold is_u16, u16_max in *. lia.
Qed.

(** Groups after the first, each behind its colon. *)
Definition colon_groups (gs : list Z) : str := flat_map (λ g, 58 :: hex g) gs.

Lemma fmt_subslice_cons g gs : fmt_subslice (g :: gs) = hex g ++ colon_groups gs.
Proof.
  revert g. induction gs as [|g' gs IH]; intros g; simpl; [by rewrite app_nil_r|].
  change (of_string ":") with [58]. f_equal. cbn [app]. f_equal. apply IH.
Qed.

(** Where a run of groups ends: the end of the text, or the [::]. *)
Definition group_end (rest : str) : Prop := rest = [] ∨ ∃ t, rest = 58 :: 58 :: t.

Lemma colon_groups_stops gs rest :
  group_end rest →
  match colon_groups gs ++ rest with
  | [] => True
  | c :: _ => c ≠ 46 ∧ to_digit 10 c = None ∧ to_digit 16 c = None
  end.
Proof. intros [->|[t ->]]; by destruct gs. Qed.

Lemma read_group_ipv4 i g gs rest :
  is_u16 g → group_end rest →
  read_separator 58 i read_ipv4_addr
    ((if (0 <? i)%nat then [58] else []) ++ hex g ++ colon_groups gs ++ rest) = None.
Proof.
  intros Hg He. pose proof (colon_groups_stops gs rest He) as Hs.
  destruct (hex_spec g Hg) as (_ & Hn & _).
  unfold read_separator. destruct (0 <? i)%nat; cbn [app read_given_char Z.eqb mbind option_bind].
  - simpl. apply read_ipv4_None; [done|]. case_match; naive_solver.
  - apply read_ipv4_None; [done|]. case_match; naive_solver.
Qed.

Lemma read_group_number i g gs rest :
  is_u16 g → group_end rest →
  read_separator 58 i (read_number 16 4 true u16_max)
    ((if (0 <? i)%nat then [58] else []) ++ hex g ++ colon_groups gs ++ rest) =
    Some (g, colon_groups gs ++ rest).
Proof.
  intros Hg He. pose proof (colon_groups_stops gs rest He) as Hs.
  unfold read_separator. destruct (0 <? i)%nat; simpl; apply read_number_hex; try done;
    unfold stops; case_match; naive_solver.
Qed.

Lemma read_groups_end n i rest :
  group_end rest → read_groups n i rest = ([], false, rest).
Proof.
  intros He. destruct n as [|n]; [done|]. cbn [read_groups]. unfold read_separator.
  destruct He as [->|[t ->]]; destruct (1 <=? n)%nat, (0 <? i)%nat; done.
Qed.

Lemma read_groups_colon gs n i rest :
  Forall is_u16 gs → (0 < i)%nat → (length gs ≤ n)%nat → group_end rest →
  read_groups n i (colon_groups gs ++ rest) = (gs, false, rest).
Proof.
  intros Hgs. revert n i. induction Hgs as [|g gs Hg Hgs IH]; intros n i Hi Hn He.
  { by apply read_groups_end. }
  cbn [length] in Hn. destruct n as [|n]; [lia|]. cbn [read_groups colon_groups flat_map].
  pose proof (read_group_ipv4 i g gs rest Hg He) as H4.
  pose proof (read_group_number i g gs rest Hg He) as H6.
  rewrite (proj2 (Nat.ltb_lt 0 i) Hi) in H4, H6. cbn [app] in H4, H6 |- *.
  rewrite <- app_assoc. fold (colon_groups gs). rewrite H6.
  rewrite IH by (done || lia). by destruct (1 <=? n)%nat; rewrite ?H4.
Qed.

Lemma read_groups_fmt gs n rest :
  Forall is_u16 gs → (length gs ≤ n)%nat → group_end rest →
  read_groups n 0 (fmt_subslice gs ++ rest) = (gs, false, rest).
Proof.
  intros Hgs Hn He. destruct Hgs as [|g gs Hg Hgs]; [by apply read_groups_end|].
  cbn [length] in Hn. destruct n as [|n]; [lia|]. rewrite fmt_subslice_cons, <- app_assoc.
  pose proof (read_group_ipv4 0 g gs rest Hg He) as H4.
  pose proof (read_group_number 0 g gs rest Hg He) as H6. cbn [Nat.ltb Nat.leb app] in H4, H6.
  cbn [read_groups]. rewrite H6, read_groups_colon by (done || lia).
  by destruct (1 <=? n)%nat; rewrite ?H4.
Qed.

(** The span [zero_span] finds is a run of zeros. *)
Definition zero_run (l : list Z) (sp : nat * nat) : Prop :=
  (sp.1 + sp.2 ≤ length l)%nat ∧ take sp.2 (drop sp.1 l) = replicate sp.2 0.

Lemma zero_run_empty l i : (i ≤ length l)%nat → zero_run l (i, 0%nat).
Proof. intros. split; [simpl; lia|done]. Qed.

Lemma zero_run_app l l' sp : zero_run l sp → zero_run (l ++ l') sp.
Proof.
  intros [Hle Ht]. split; [rewrite length_app; lia|].
  rewrite drop_app_le by lia. rewrite take_app_le; [done|]. rewrite length_drop. lia.
Qed.

Lemma zero_span_run l pre cur longest :
  zero_run pre longest → zero_run pre cur → (cur.2 = 0%nat ∨ (cur.1 + cur.2 = length pre)%nat) →
  zero_run (pre ++ l) (zero_span (length pre) cur longest l).
Proof.
  revert pre cur longest. induction l as [|s l IH]; intros pre [cs cl] [ls ll] Hlong Hcur Hend.
  { by rewrite app_nil_r. }
  cbn [zero_span]. rewrite cons_middle, app_assoc.
  assert (S (length pre) = length (pre ++ [s])) as Hlen by (rewrite length_app; simpl; lia).
  rewrite Hlen. destruct (Z.eqb_spec s 0) as [->|Hs]; cbv zeta.
  - assert (zero_run (pre ++ [0]) (if (cl =? 0)%nat then (length pre, 1%nat) else (cs, S cl))) as Hnew.
    { destruct (Nat.eqb_spec cl 0) as [->|Hcl].
      - split; [rewrite length_app; simpl; lia|]. simpl. by rewrite drop_app_length.
      - destruct Hend as [|Hend]; [done|]. simpl in Hend. destruct Hcur as [_ Ht]. simpl in Ht.
        split; [rewrite length_app; simpl; lia|]. cbn [fst snd].
        rewrite drop_app_le by lia. rewrite take_app_ge by (rewrite length_drop; lia).
        rewrite take_ge in Ht by (rewrite length_drop; lia).
        rewrite length_drop. replace (S cl - (length pre - cs))%nat with 1%nat by lia.
        rewrite Ht. cbn [replicate]. by rewrite replicate_cons_app. }
    apply IH; [|done|].
    + match goal with |- zero_run _ (if ?b then _ else _) => destruct b end; [done|].
      by apply zero_run_app.
    + right. cbn [fst snd] in *. rewrite length_app. simpl.
      destruct (Nat.eqb_spec cl 0); simpl; lia.
  - apply IH; [by apply zero_run_app|apply zero_run_empty; lia|by left].
Qed.

(** Segments and the integer they spell. *)
Lemma from_segments_segments b : 0 ≤ b < 2 ^ 128 → from_segments (segments b) = b.
Proof.
  intros Hb. unfold from_segments, segments, segment. cbn [map fold_left].
  change (16 * 7) with 112. change (16 * 6) with 96. change (16 * 5) with 80.
  change (16 * 4) with 64. change (16 * 3) with 48. change (16 * 2) with 32.
  change (16 * 1) with 16. change (16 * 0) with 0. dm_lia.
Qed.

Lemma segments_u16 b : Forall is_u16 (segments b).
Proof. unfold segments. apply Forall_map, Forall_forall. intros i _. by apply Z.mod_pos_bound. Qed.

Lemma length_segments b : length (segments b) = 8%nat.
Proof. done. Qed.

Lemma read_compressed hd tl :
  Forall is_u16 hd → Forall is_u16 tl → (length hd + length tl ≤ 6)%nat →
  read_ipv6_addr (fmt_subslice hd ++ 58 :: 58 :: fmt_subslice tl) =
    Some (from_segments (hd ++ replicate (8 - length hd - length tl) 0 ++ tl), []).
Proof.
  intros Hh Ht Hle. unfold read_ipv6_addr.
  rewrite read_groups_fmt; [|done|lia|right; eauto].
  destruct (Nat.eqb_spec (length hd) 8); [lia|]. cbn [read_given_char Z.eqb Pos.eqb mbind option_bind].
  rewrite <- (app_nil_r (fmt_subslice tl)).
  rewrite read_groups_fmt; [done|done|lia|by left].
Qed.

(** The tail of an IPv4-mapped address: one group, then the dotted quad. *)
Lemma read_groups_mapped v4 :
  0 ≤ v4 < 2 ^ 32 →
  read_groups 7 0 (hex 0xffff ++ 58 :: display_v4 v4) =
    ([0xffff; v4 / 2 ^ 16; v4 mod 2 ^ 16], true, []).
Proof.
  intros Hv.
  assert (read_separator 58 1 read_ipv4_addr (58 :: display_v4 v4) = Some (v4, [])) as H4.
  { unfold read_separator. simpl. rewrite <- (app_nil_r (display_v4 v4)).
    by apply read_display_v4. }
  assert (read_separator 58 0 read_ipv4_addr (hex 0xffff ++ 58 :: display_v4 v4) = None) as Hn.
  { apply (read_ipv4_None (hex 0xffff)); [|by split]. apply (hex_spec 0xffff). by split. }
  assert (read_separator 58 0 (read_number 16 4 true u16_max) (hex 0xffff ++ 58 :: display_v4 v4)
    = Some (0xffff, 58 :: display_v4 v4)) as Hx by (apply read_number_hex; by split).
  cbn [read_groups Nat.leb]. by rewrite Hn, Hx, H4.
Qed.

Lemma read_mapped v4 :
  0 ≤ v4 < 2 ^ 32 →
  read_ipv6_addr (of_string "::ffff:" ++ display_v4 v4) = Some (0xffff * 2 ^ 32 + v4, []).
Proof.
  intros Hv. change (of_string "::ffff:") with (58 :: 58 :: hex 0xffff ++ [58]).
  unfold read_ipv6_addr. cbn [app]. rewrite read_groups_end by (right; eauto).
  cbn [length Nat.eqb read_given_char Z.eqb Pos.eqb mbind option_bind Nat.sub Nat.add].
  rewrite <- app_assoc. cbn [app]. rewrite read_groups_mapped by done.
  cbn [length Nat.sub replicate app]. do 2 f_equal. unfold from_segments. cbn [fold_left]. dm_lia.
Qed.

Lemma read_display_v6 b :
  0 ≤ b < 2 ^ 128 → read_ipv6_addr (display_v6 b) = Some (b, []).
Proof.
  intros Hb. unfold display_v6. destruct (to_ipv4_mapped b) as [v4|] eqn:Hm.
  - unfold to_ipv4_mapped in Hm. destruct (Z.eqb_spec (b / 2 ^ 32) 0xffff) as [Hq|]; [|done].
    injection Hm as <-. rewrite read_mapped by dm_lia. do 2 f_equal. dm_lia.
  - destruct (zero_span 0 (0, 0)%nat (0, 0)%nat (segments b)) as [start len] eqn:Hz.
    assert (zero_run (segments b) (start, len)) as [Hle Hrun].
    { rewrite <- Hz. apply (zero_span_run (segments b) []);
        [by apply zero_run_empty; simpl; lia..|by left]. }
    cbn [fst snd] in Hle, Hrun. rewrite length_segments in Hle.
    destruct (Nat.ltb_spec 1 len).
    + change (of_string "::") with [58; 58]. cbn [app].
      rewrite read_compressed; [|apply Forall_take, segments_u16|apply Forall_drop, segments_u16|
        rewrite length_take, length_drop, length_segments; lia].
      do 2 f_equal. transitivity (from_segments (segments b)); [|by apply from_segments_segments].
      f_equal. etransitivity; [|apply (take_drop start)]. f_equal.
      etransitivity; [|apply (take_drop len)]. rewrite Hrun, drop_drop. f_equal. f_equal.
      rewrite length_take, length_drop, length_segments. lia.
    + rewrite <- (app_nil_r (fmt_subslice _)). unfold read_ipv6_addr.
      rewrite read_groups_fmt; [|apply segments_u16|done|by left].
      cbn [length segments map Nat.eqb]. do 2 f_equal. by apply from_segments_segments.
Qed.

(** The characters a rendered address is made of. *)
Definition addr_char (c : Z) : bool :=
  is_ascii_digit c || (c =? 46) || (c =? 58) || ((97 <=? c) && (c <=? 102)).

Lemma digits_addr_char ds :
  Forall (λ c, is_ascii_digit c = true) ds → Forall (λ c, addr_char c = true) ds.
Proof. intros H. eapply Forall_impl; [exact H|]. intros c Hc. unfold addr_char. by rewrite Hc. Qed.

Lemma to_string_addr_char n : 0 ≤ n → Forall (λ c, addr_char c = true) (to_string n).
Proof.
  intros Hn. destruct (to_string_spec n Hn) as (c & ds & -> & Hd & _). by apply digits_addr_char.
Qed.

Lemma display_v4_chars b : Forall (λ c, addr_char c = true) (display_v4 b).
Proof.
  unfold display_v4. change (of_string ".") with [46].
  repeat first [apply Forall_app_2 | apply to_string_addr_char, octet_byte | by constructor].
Qed.

Lemma hex_addr_char g : is_u16 g → Forall (λ c, addr_char c = true) (hex g).
Proof.
  unfold is_u16, hex. intros Hg.
  assert (∀ d, 0 ≤ d < 16 → addr_char (hex_digit d) = true) as Hd.
  { intros d Hd. unfold addr_char, hex_digit, is_ascii_digit.
    destruct (Z.ltb_spec d 10); cmp_cases; try done; lia. }
  repeat case_match; rewrite ?Z.ltb_lt, ?Z.ltb_ge in *; forall_list_by ltac:(apply Hd; dm_lia).
Qed.

Lemma fmt_subslice_chars gs :
  Forall is_u16 gs → Forall (λ c, addr_char c = true) (fmt_subslice gs).
Proof.
  intros H. destruct H as [|g gs Hg Hgs]; [constructor|]. rewrite fmt_subslice_cons.
  apply Forall_app_2; [by apply hex_addr_char|].
  induction Hgs as [|g' gs Hg' Hgs IH]; [constructor|]. cbn [colon_groups flat_map].
  apply Forall_app_2; [|done]. constructor; [done|by apply hex_addr_char].
Qed.

(** A rendered IPv6 address has a colon before any dot, so it is never read as IPv4. *)
Lemma display_v6_shape b :
  ∃ u t, display_v6 b = u ++ 58 :: t ∧ 46 ∉ u ∧ Forall (λ c, addr_char c = true) (display_v6 b).
Proof.
  assert (∀ gs t, Forall is_u16 gs → ∃ u t', fmt_subslice gs ++ 58 :: t = u ++ 58 :: t' ∧ 46 ∉ u)
    as Hf.
  { intros gs t H. destruct H as [|g gs Hg Hgs]; [by exists [], t; split; [|apply not_elem_of_nil]|].
    rewrite fmt_subslice_cons, <- app_assoc. exists (hex g).
    destruct gs; eexists; (split; [done|]); by apply hex_spec. }
  unfold display_v6. destruct (to_ipv4_mapped b) as [v4|].
  { exists [], (of_string ":ffff:" ++ display_v4 v4).
    split_and!; [done|apply not_elem_of_nil|].
    apply Forall_app_2; [forall_list|apply display_v4_chars]. }
  destruct (zero_span _ _ _ _) as [start len]. pose proof (segments_u16 b) as Hs.
  destruct (1 <? len)%nat.
  - destruct (Hf (take start (segments b)) (58 :: fmt_subslice (drop (start + len) (segments b))))
      as (u & t & Heq & Hu); [by apply Forall_take|].
    exists u, t. split_and!; [done|done|]. change (of_string "::") with [58; 58].
    repeat apply Forall_app_2; [apply fmt_subslice_chars; by apply Forall_take|forall_list|].
    apply fmt_subslice_chars. by apply Forall_drop.
  - destruct (segments b) as [|g [|g' gs]] eqn:Hg; [done|done|].
    exists (hex g). eexists. split_and!; [done| |by apply fmt_subslice_chars].
    apply hex_spec. by apply Forall_cons in Hs as [? _].
Qed.

Lemma display_ip_chars ip : Forall (λ c, addr_char c = true) (display_ip ip).
Proof.
  destruct ip as [b|b]; [apply display_v4_chars|]. by destruct (display_v6_shape b) as (?&?&?&?&?).
Qed.

(** [Display] then [FromStr] is the identity on addresses. *)
Lemma parse_display_ip ip : ip_ok ip → parse_ip (display_ip ip) = Some ip.
Proof.
  unfold parse_ip, read_ip_addr. destruct ip as [b|b]; cbn [ip_ok display_ip]; intros Hb.
  - rewrite <- (app_nil_r (display_v4 b)). by rewrite read_display_v4.
  - destruct (display_v6_shape b) as (u & t & Heq & Hu & _). rewrite Heq, read_ipv4_None by done.
    rewrite <- Heq, read_display_v6 by done. done.
Qed.

Lemma addr_char_spec c :
  addr_char c = true → (c = 46 ∨ 48 ≤ c ≤ 58 ∨ 97 ≤ c ≤ 102).
Proof.
  unfold addr_char, is_ascii_digit. rewrite !orb_true_iff, !andb_true_iff, !Z.leb_le, !Z.eqb_eq. lia.
Qed.

Lemma display_ip_not_in ip c : ¬ (c = 46 ∨ 48 ≤ c ≤ 58 ∨ 97 ≤ c ≤ 102) → c ∉ display_ip ip.
Proof.
  intros Hc Hin. pose proof (display_ip_chars ip) as H. rewrite Forall_forall in H.
  by apply H, addr_char_spec in Hin.
Qed.

Lemma display_ip_nonempty ip : ip_ok ip → display_ip ip ≠ [].
Proof. intros H%parse_display_ip Hn. by rewrite Hn in H. Qed.

Lemma chars_ok_display_ip ip : chars_ok (display_ip ip).
Proof.
  eapply Forall_impl; [apply display_ip_chars|]. intros c Hc%addr_char_spec. unfold is_char. lia.
Qed.
