(* ===== verification/Varint.v ===== *)
(** * QUIC variable-length integers

    Model of [crates/skimasque-core/src/varint.rs] (RFC 9000, Section 16): the
    encoder appends to a byte buffer, the decoder reads the head of a slice and
    never consumes input it could not parse.  Values are 64-bit integers as
    [Z], wire bytes are [Z] below 256, buffer lengths are [nat]. *)

From S2P Require Import Prelude.

(** [MAX] and [MAX_ENCODED_LEN]. *)
Definition MAX : Z := Z.shiftl 1 62 - 1.
Definition MAX_ENCODED_LEN : nat := 8.

Inductive Error : Type :=
  | Overflow (value : Z)
  | UnexpectedEnd.

#[global] Instance Error_eq_dec : EqDecision Error.
Proof. solve_decision. Defined.

Definition encoded_len (value : Z) : nat :=
  if value <? Z.shiftl 1 6 then 1
  else if value <? Z.shiftl 1 14 then 2
  else if value <? Z.shiftl 1 30 then 4
  else 8.

(** The buffer after [encode(value, &mut out)]; on error it is untouched. *)
Definition encode (value : Z) (out : list Z) : result Error (list Z) :=
  if MAX <? value then Err (Overflow value)
  else
    Ok (out ++
      match encoded_len value with
      | 1%nat => be_bytes 1 (wrap 8 value)
      | 2%nat => be_bytes 2 (Z.lor (wrap 16 value) (Z.shiftl 1 14))
      | 4%nat => be_bytes 4 (Z.lor (wrap 32 value) (Z.shiftl 2 30))
      | _ => be_bytes 8 (Z.lor value (Z.shiftl 3 62))
      end).

(** The accumulation loop of [decode_slice] on a [u64]. *)
Definition accumulate (value : Z) (bs : list Z) : Z :=
  fold_left (λ value byte, Z.lor (wrap 64 (Z.shiftl value 8)) byte) bs value.

Definition decode_slice (input : list Z) : result Error (Z * nat) :=
  match input with
  | [] => Err UnexpectedEnd
  | first :: _ =>
      let len := Z.to_nat (Z.shiftl 1 (Z.shiftr first 6)) in
      if (length input <? len)%nat then Err UnexpectedEnd
      else Ok (accumulate (Z.land first 63) (take (len - 1) (drop 1 input)), len)
  end.

(** [take_slice] and [take]: the value, and the cursor afterwards. *)
Definition take_slice (input : list Z) : result Error Z * list Z :=
  match decode_slice input with
  | Ok (value, len) => (Ok value, drop len input)
  | Err e => (Err e, input)
  end.

(** ** Supporting lemmas *)

Lemma accumulate_be v bs :
  0 ≤ v → bytes_ok bs → v * 256 ^ Z.of_nat (length bs) + 256 ^ Z.of_nat (length bs) ≤ 2 ^ 64 →
  accumulate v bs = fold_left (λ v b, v * 256 + b) bs v.
Proof.
  revert v. induction bs as [|b bs IH]; intros v Hv Hbs Hb; [done|].
  apply Forall_cons in Hbs as [Hb1 Hbs]. unfold accumulate in *. cbn [fold_left].
  cbn [length] in Hb. rewrite Nat2Z.inj_succ, Z.pow_succ_r in Hb by lia.
  assert (0 < 256 ^ Z.of_nat (length bs)) by (apply Z.pow_pos_nonneg; lia).
  unfold is_byte in Hb1. rewrite shl8_lor; [|lia|done|nia].
  apply IH; [lia|done|nia].
Qed.

(** The first byte of an encoding whose top bits are [t] and whose payload is
    [v], in [n] bytes: the length field and the remaining six bits. *)
Lemma first_byte_split t w :
  0 ≤ t < 4 → 0 ≤ w < 64 → Z.shiftr (t * 64 + w) 6 = t ∧ Z.land (t * 64 + w) 63 = w.
Proof.
  intros Ht Hw. rewrite Z.shiftr_div_pow2 by lia.
  change 63 with (Z.ones 6). rewrite Z.land_ones by lia. change (2 ^ 6) with 64. dm_lia.
Qed.

(** Decoding a first byte [t * 64 + w] followed by enough bytes. *)
Lemma decode_slice_head t w bs rest :
  0 ≤ t < 4 → 0 ≤ w < 64 → bytes_ok bs →
  length bs = (Z.to_nat (2 ^ t) - 1)%nat →
  decode_slice ((t * 64 + w) :: bs ++ rest) =
    Ok (w * 256 ^ Z.of_nat (length bs) + from_be_bytes bs, S (length bs)).
Proof.
  intros Ht Hw Hbs Hlen. unfold decode_slice.
  destruct (first_byte_split t w) as [-> ->]; [done..|].
  rewrite Z.shiftl_mul_pow2, Z.mul_1_l by lia.
  assert (2 ^ t = 1 ∨ 2 ^ t = 2 ∨ 2 ^ t = 4 ∨ 2 ^ t = 8) as Hp.
  { assert (t = 0 ∨ t = 1 ∨ t = 2 ∨ t = 3) as [->|[->|[->| ->]]] by lia; cbn; auto. }
  cbn [length]. rewrite length_app.
  destruct (Nat.ltb_spec (S (length bs + length rest)) (Z.to_nat (2 ^ t))); [lia|].
  f_equal. f_equal; [|lia]. simpl drop. rewrite <- Hlen, drop_0, take_app_length.
  rewrite accumulate_be; [apply fold_be_acc|lia|done|].
  assert (256 ^ Z.of_nat (length bs) ≤ 256 ^ 7) by (apply Z.pow_le_mono_r; lia). nia.
Qed.

(** What the bytes appended by [encode] look like: a first byte carrying the
    length field [t] and the top six bits [w], then a big-endian tail. *)
Definition encodes (v : Z) (wire : list Z) : Prop :=
  ∃ t w bs, wire = (t * 64 + w) :: bs ∧ 0 ≤ t < 4 ∧ 0 ≤ w < 64 ∧ bytes_ok bs ∧
    length bs = (Z.to_nat (2 ^ t) - 1)%nat ∧ v = w * 256 ^ Z.of_nat (length bs) + from_be_bytes bs.

Lemma encodes_be_bytes n t v :
  0 ≤ t < 4 → n = (Z.to_nat (2 ^ t) - 1)%nat → 0 ≤ v < 64 * 256 ^ Z.of_nat n →
  encodes v (be_bytes (S n) (t * 64 * 256 ^ Z.of_nat n + v)).
Proof.
  intros Ht Hl Hv. assert (0 < 256 ^ Z.of_nat n) by (apply Z.pow_pos_nonneg; lia).
  assert (0 ≤ v / 256 ^ Z.of_nat n < 64)
    by (split; [apply Z.div_pos; lia|apply Z.div_lt_upper_bound; lia]).
  exists t, (v / 256 ^ Z.of_nat n), (be_bytes n (t * 64 * 256 ^ Z.of_nat n + v)).
  rewrite length_be_bytes. split_and!; [|lia..|apply be_bytes_ok|done|].
  - cbn [be_bytes]. f_equal. rewrite Z.div_add_l by lia. apply Z.mod_small. lia.
  - rewrite from_be_be_bytes, (Z.add_comm (t * 64 * _)), Z.mod_add by lia.
    rewrite (Z.mul_comm (_ / _)). apply Z.div_mod. lia.
Qed.

Lemma encode_encodes v out :
  0 ≤ v ≤ MAX → ∃ wire, encode v out = Ok (out ++ wire) ∧ length wire = encoded_len v ∧
    encodes v wire.
Proof.
  intros Hv. unfold encode, encoded_len, wrap, MAX in *.
  change (Z.shiftl 1 62) with (2 ^ 62) in *. change (Z.shiftl 1 6) with (2 ^ 6).
  change (Z.shiftl 1 14) with (1 * 2 ^ 14). change (Z.shiftl 1 30) with (2 ^ 30).
  change (Z.shiftl 2 30) with (2 * 2 ^ 30). change (Z.shiftl 3 62) with (3 * 2 ^ 62).
  destruct (Z.ltb_spec (2 ^ 62 - 1) v); [lia|].
  destruct (Z.ltb_spec v (2 ^ 6)); [|destruct (Z.ltb_spec v (1 * 2 ^ 14));
    [|destruct (Z.ltb_spec v (2 ^ 30))]]; (eexists; split; [done|]);
    rewrite length_be_bytes; (split; [done|]).
  - rewrite Z.mod_small by lia. by apply (encodes_be_bytes 0 0); [..|lia].
  - rewrite Z.lor_comm, Z.mod_small, lor_mul_pow2 by lia.
    by apply (encodes_be_bytes 1 1); [..|lia].
  - rewrite Z.lor_comm, Z.mod_small, lor_mul_pow2 by lia.
    by apply (encodes_be_bytes 3 2); [..|lia].
  - rewrite Z.lor_comm, lor_mul_pow2 by lia. by apply (encodes_be_bytes 7 3); [..|lia].
Qed.

Lemma encodes_decode v wire rest :
  encodes v wire → decode_slice (wire ++ rest) = Ok (v, length wire).
Proof.
  intros (t & w & bs & -> & ? & ? & ? & ? & ->). cbn [app length]. by apply decode_slice_head.
Qed.

Lemma encodes_bytes_ok v wire : encodes v wire → bytes_ok wire.
Proof.
  intros (t & w & bs & -> & ? & ? & ? & ? & ->). constructor; [unfold is_byte; lia|done].
Qed.

(** Taking apart a successful [decode_slice]. *)
Lemma decode_slice_encodes input v n :
  bytes_ok input → decode_slice input = Ok (v, n) →
  (n ≤ length input)%nat ∧ (0 < n)%nat ∧ encodes v (take n input).
Proof.
  intros Hok Hd. destruct input as [|first rest]; [done|].
  apply Forall_cons in Hok as [Hf Hrest]. unfold is_byte in Hf.
  assert (∃ t w, first = t * 64 + w ∧ 0 ≤ t < 4 ∧ 0 ≤ w < 64) as (t & w & -> & Ht & Hw)
    by (exists (first / 64), (first mod 64); dm_lia).
  assert ((n = Z.to_nat (2 ^ t) ∧ n ≤ S (length rest))%nat) as [-> Hlen].
  { unfold decode_slice in Hd. destruct (first_byte_split t w) as [Hs Hl]; [done..|].
    rewrite Hs, Z.shiftl_mul_pow2, Z.mul_1_l in Hd by lia. case_match eqn:Hle; [done|].
    apply Nat.ltb_ge in Hle. cbn [length] in Hle. injection Hd as _ <-. lia. }
  assert (0 < 2 ^ t) by (apply Z.pow_pos_nonneg; lia).
  split; [done|]. split; [lia|].
  assert (length (take (Z.to_nat (2 ^ t) - 1) rest) = Z.to_nat (2 ^ t) - 1)%nat as Hl
    by (rewrite length_take; lia).
  exists t, w, (take (Z.to_nat (2 ^ t) - 1) rest).
  split_and!; [|lia..|by apply Forall_take|done|].
  - replace (Z.to_nat (2 ^ t)) with (S (Z.to_nat (2 ^ t) - 1)) at 1 by lia. done.
  - rewrite <- (take_drop (Z.to_nat (2 ^ t) - 1) rest) in Hd.
    rewrite decode_slice_head in Hd; [|done|done|by apply Forall_take|done].
    congruence.
Qed.

Lemma encodes_bound v wire : encodes v wire → 0 ≤ v ≤ MAX.
Proof.
  intros (t & w & bs & -> & Ht & Hw & Hok & Hl & ->).
  apply from_be_bytes_bound in Hok. unfold MAX. change (Z.shiftl 1 62) with (64 * 256 ^ 7).
  assert (t = 0 ∨ t = 1 ∨ t = 2 ∨ t = 3) as [->|[->|[->| ->]]] by lia;
    rewrite Hl in *; change (Z.to_nat (2 ^ 0) - 1)%nat with 0%nat in *;
    change (Z.to_nat (2 ^ 1) - 1)%nat with 1%nat in *;
    change (Z.to_nat (2 ^ 2) - 1)%nat with 3%nat in *;
    change (Z.to_nat (2 ^ 3) - 1)%nat with 7%nat in *; lia.
Qed.

Lemma encodes_shortest v wire : encodes v wire → (encoded_len v ≤ length wire)%nat.
Proof.
  intros (t & w & bs & -> & Ht & Hw & Hok & Hl & ->).
  apply from_be_bytes_bound in Hok. cbn [length].
  assert (t = 0 ∨ t = 1 ∨ t = 2 ∨ t = 3) as [->|[->|[->| ->]]] by lia;
    rewrite Hl in *; change (Z.to_nat (2 ^ 0) - 1)%nat with 0%nat in *;
    change (Z.to_nat (2 ^ 1) - 1)%nat with 1%nat in *;
    change (Z.to_nat (2 ^ 2) - 1)%nat with 3%nat in *;
    change (Z.to_nat (2 ^ 3) - 1)%nat with 7%nat in *;
    unfold encoded_len; change (Z.shiftl 1 6) with 64; change (Z.shiftl 1 14) with 16384;
    change (Z.shiftl 1 30) with 1073741824; repeat (case_match; [lia|]);
    rewrite ?Z.ltb_ge in *; lia.
Qed.

(** More input never changes an answer already given. *)
Lemma decode_slice_mono input more v n :
  bytes_ok input → decode_slice input = Ok (v, n) →
  decode_slice (input ++ more) = Ok (v, n) ∧ (0 < n ≤ length input)%nat ∧ (n ≤ MAX_ENCODED_LEN)%nat.
Proof.
  intros Hok (Hle & Hpos & He)%decode_slice_encodes; [|done].
  assert (length (take n input) = n) as Hn by (rewrite length_take; lia).
  split_and!; [|lia..|].
  - rewrite <- (take_drop n input), <- app_assoc, (encodes_decode _ _ _ He). by rewrite Hn.
  - destruct He as (t & w & bs & Ht & ? & ? & ? & Hl & ?). rewrite Ht in Hn. cbn [length] in Hn.
    assert (2 ^ t ≤ 2 ^ 3) by (apply Z.pow_le_mono_r; lia). unfold MAX_ENCODED_LEN. lia.
Qed.

(** ** Correctness *)

(** Round trip: every value up to [2^62 - 1] is encoded in exactly
    [encoded_len] bytes, appended to what the buffer already held, and decoding
    those bytes, whatever follows them on the wire, returns the value and the
    number of bytes it occupied. *)
Theorem varint_roundtrip (v : Z) (out rest : list Z) :
  0 ≤ v ≤ MAX →
  ∃ wire, encode v out = Ok (out ++ wire) ∧ length wire = encoded_len v ∧ bytes_ok wire ∧
    decode_slice (wire ++ rest) = Ok (v, length wire).
Proof.
  intros (wire & ? & ? & Hw)%(encode_encodes v out). exists wire.
  split_and!; eauto using encodes_decode, encodes_bytes_ok.
Qed.

Lemma varint_roundtrip_witness :
  0 ≤ 151288809941952652 ≤ MAX ∧
  encode 151288809941952652 [] = Ok [0xc2; 0x19; 0x7c; 0x5e; 0xff; 0x14; 0xe8; 0x8c] ∧
  ∃ wire, encode 151288809941952652 [] = Ok ([] ++ wire) ∧
    length wire = encoded_len 151288809941952652 ∧ bytes_ok wire ∧
    decode_slice (wire ++ [7]) = Ok (151288809941952652, length wire).
Proof.
  split; [by vm_compute|]. split; [by vm_compute|].
  apply (varint_roundtrip 151288809941952652 [] [7]). by vm_compute.
Defined.

(** What the decoder accepts: a decoded value fits in 62 bits, its length
    is at least the length of the shortest encoding (the one [encode] emits) and
    at most what was buffered, and more input never changes the answer. *)
Theorem varint_decode_sound (input rest : list Z) (v : Z) (n : nat) :
  bytes_ok input → decode_slice input = Ok (v, n) →
  0 ≤ v ≤ MAX ∧ (encoded_len v ≤ n ≤ length input)%nat ∧ (n ≤ MAX_ENCODED_LEN)%nat ∧
  decode_slice (input ++ rest) = Ok (v, n).
Proof.
  intros Hok Hd. destruct (decode_slice_mono input rest v n) as (? & ? & ?); [done..|].
  apply decode_slice_encodes in Hd as (Hle & Hpos & He); [|done].
  assert (length (take n input) = n) as Hn by (rewrite length_take; lia).
  split_and!; [by eapply encodes_bound..| |done|done|done].
  rewrite <- Hn. by apply encodes_shortest.
Qed.

Lemma varint_decode_sound_witness :
  bytes_ok [0x40; 0x25] ∧ decode_slice [0x40; 0x25] = Ok (37, 2%nat) ∧
  decode_slice ([0x40; 0x25] ++ [9]) = Ok (37, 2%nat).
Proof.
  split; [by repeat constructor|]. split; [done|].
  apply (varint_decode_sound [0x40; 0x25] [9] 37 2); [by repeat constructor|done].
Defined.

(** Nothing is consumed on failure and exactly the encoding on success:
    the only decoding error is "wait for more bytes", it leaves the cursor where
    it was, and it is reported exactly for the proper prefixes of encodings. *)
Theorem take_slice_cursor (input : list Z) :
  bytes_ok input →
  match take_slice input with
  | (Ok v, after) => ∃ wire, input = wire ++ after ∧ encodes v wire
  | (Err e, after) =>
      e = UnexpectedEnd ∧ after = input ∧ ∃ more v n, bytes_ok more ∧
        decode_slice (input ++ more) = Ok (v, n) ∧ (length input < n)%nat
  end.
Proof.
  intros Hok. unfold take_slice. destruct (decode_slice input) as [[v n]|e] eqn:Hd.
  - apply decode_slice_encodes in Hd as (? & ? & He); [|done].
    exists (take n input). by rewrite take_drop.
  - destruct input as [|first rest].
    { injection Hd as <-. split_and!; [done..|]. exists [0], 0, 1%nat. repeat split; auto with lia.
      constructor; [unfold is_byte; lia|done]. }
    unfold decode_slice in Hd. case_match eqn:Hle; [|done]. injection Hd as <-.
    split_and!; [done..|]. apply Nat.ltb_lt in Hle. cbv zeta in Hle.
    set (len := Z.to_nat (Z.shiftl 1 (Z.shiftr first 6))) in *.
    exists (replicate len 0). do 2 eexists. split.
    { apply Forall_replicate. unfold is_byte. lia. }
    rewrite <- app_comm_cons. unfold decode_slice. fold len.
    case_match eqn:Hlt; [|split; [done|done]].
    apply Nat.ltb_lt in Hlt. cbn [length] in Hlt. rewrite length_app, length_replicate in Hlt. lia.
Qed.

Lemma take_slice_cursor_witness :
  bytes_ok [0xc2; 0x19] ∧ take_slice [0xc2; 0x19] = (Err UnexpectedEnd, [0xc2; 0x19]) ∧
  match take_slice [0xc2; 0x19] with
  | (Ok v, after) => ∃ wire, [0xc2; 0x19] = wire ++ after ∧ encodes v wire
  | (Err e, after) =>
      e = UnexpectedEnd ∧ after = [0xc2; 0x19] ∧ ∃ more v n, bytes_ok more ∧
        decode_slice ([0xc2; 0x19] ++ more) = Ok (v, n) ∧ (length [0xc2; 0x19] < n)%nat
  end.
Proof.
  assert (bytes_ok [0xc2; 0x19]) by (repeat constructor; done).
  split; [done|]. split; [done|]. by apply take_slice_cursor.
Defined.

(** A value above the 62-bit maximum is refused without touching the buffer. *)
Lemma encode_overflow v out : MAX < v → encode v out = Err (Overflow v).
Proof. intros H. unfold encode. by rewrite (proj2 (Z.ltb_lt _ _) H). Qed.

(** [encode] as an appending function, for the formats built on top of it. *)
Lemma encode_Ok_inv v out out' :
  0 ≤ v → encode v out = Ok out' →
  v ≤ MAX ∧ ∃ wire, out' = out ++ wire ∧ length wire = encoded_len v ∧ encodes v wire.
Proof.
  intros Hv H. destruct (Z.le_gt_cases v MAX) as [Hle|Hgt].
  - split; [done|]. destruct (encode_encodes v out) as (wire & He & ? & ?); [done|].
    rewrite H in He. injection He as ->. eauto.
  - rewrite encode_overflow in H by lia. done.
Qed.
