(* ===== verification/Capsule.v ===== *)
(** * The Capsule Protocol

    Model of [crates/skimasque-core/src/capsule.rs] (RFC 9297, Section 3), the
    codec of the type-length-value records on a request stream, and of the
    routing half of [crates/skimasque/src/capsules.rs], the pump that feeds a
    stream's bytes to the decoder and hands each capsule to its queue.

    A panic of the code ([expect]) is [None].  A [tokio::sync::mpsc] sender is a
    [sink]: what it has delivered and how many more sends succeed before the
    receiver goes away. *)

From S2P Require Import Prelude RustStr Varint.

Definition DEFAULT_MAX_VALUE_LEN : Z := 64 * 1024.

(** [CapsuleType(u64)]; unknown codes are represented as they came. *)
Definition CapsuleType : Type := Z.
Definition DATAGRAM : CapsuleType := 0x00.
Definition ADDRESS_ASSIGN : CapsuleType := 0x01.
Definition ADDRESS_REQUEST : CapsuleType := 0x02.
Definition ROUTE_ADVERTISEMENT : CapsuleType := 0x03.

Definition name (kind : CapsuleType) : option str :=
  if kind =? 0x00 then Some ("DATAGRAM" : str)
  else if kind =? 0x01 then Some ("ADDRESS_ASSIGN" : str)
  else if kind =? 0x02 then Some ("ADDRESS_REQUEST" : str)
  else if kind =? 0x03 then Some ("ROUTE_ADVERTISEMENT" : str)
  else None.

Inductive Error : Type :=
  | ValueTooLarge (kind : CapsuleType) (len max : Z)
  | IncompleteAtEndOfStream (buffered : nat)
  | Malformed (why : str).

Record Capsule : Type := mkCapsule { kind : CapsuleType; value : list Z }.
#[global] Instance Capsule_eq_dec : EqDecision Capsule.
Proof. unfold CapsuleType. solve_decision. Defined.

Definition new (kind : CapsuleType) (value : list Z) : Capsule := mkCapsule kind value.
Definition datagram (payload : list Z) : Capsule := new DATAGRAM payload.

Definition encoded_len (kind : CapsuleType) (value_len : nat) : nat :=
  (Varint.encoded_len kind + Varint.encoded_len (Z.of_nat value_len) + value_len)%nat.

(** The buffer after [write_header]; [None] is the [expect] panic. *)
Definition write_header (kind : CapsuleType) (value_len : nat) (out : list Z)
    : option (list Z) :=
  out ← result_ok (Varint.encode kind out);
  result_ok (Varint.encode (Z.of_nat value_len) out).

Definition encode_into (c : Capsule) (out : list Z) : option (list Z) :=
  out ← write_header (kind c) (length (value c)) out; Some (out ++ value c).

Definition encode (c : Capsule) : option (list Z) := encode_into c [].

(** ** The decoder *)

Record CapsuleDecoder : Type := mkDecoder { buf : list Z; max_value_len : Z }.

Definition with_max_value_len (max : Z) : CapsuleDecoder := mkDecoder [] max.
Definition new_decoder : CapsuleDecoder := with_max_value_len DEFAULT_MAX_VALUE_LEN.

Definition push (d : CapsuleDecoder) (chunk : list Z) : CapsuleDecoder :=
  mkDecoder (buf d ++ chunk) (max_value_len d).
Definition buffered (d : CapsuleDecoder) : nat := length (buf d).

Definition next_capsule (d : CapsuleDecoder) : result Error (option Capsule) * CapsuleDecoder :=
  let head := buf d in
  match Varint.decode_slice head with
  | Err _ => (Ok None, d)
  | Ok (kind, type_len) =>
      match Varint.decode_slice (drop type_len head) with
      | Err _ => (Ok None, d)
      | Ok (value_len, len_len) =>
          if max_value_len d <? value_len then
            (Err (ValueTooLarge kind value_len (max_value_len d)), d)
          else
            let header_len := (type_len + len_len)%nat in
            let total := (header_len + Z.to_nat value_len)%nat in
            if (length (buf d) <? total)%nat then (Ok None, d)
            else
              let rest := drop header_len (buf d) in
              (Ok (Some (mkCapsule kind (take (Z.to_nat value_len) rest))),
               mkDecoder (drop (Z.to_nat value_len) rest) (max_value_len d))
      end
  end.

Definition finish (d : CapsuleDecoder) : result Error unit :=
  match buf d with
  | [] => Ok tt
  | _ => Err (IncompleteAtEndOfStream (length (buf d)))
  end.

(** ** The pump *)

Record sink (A : Type) : Type := mkSink { delivered : list A; accepts : nat }.
Arguments mkSink {A} _ _.
Arguments delivered {A} _.
Arguments accepts {A} _.

(** [sender.send(x).await]: an error once the receiver is gone. *)
Definition send {A} (s : sink A) (x : A) : option (sink A) :=
  match accepts s with
  | O => None
  | S n => Some (mkSink (delivered s ++ [x]) n)
  end.

Inductive ControlFlow : Type := Continue | Break.

Record CapsulePump : Type := mkPump {
  decoder : CapsuleDecoder;
  datagrams : sink (list Z);
  control : option (sink Capsule);
}.

Definition new_pump (datagrams : sink (list Z)) : CapsulePump :=
  mkPump new_decoder datagrams None.
Definition with_control (datagrams : sink (list Z)) (control : sink Capsule) : CapsulePump :=
  mkPump new_decoder datagrams (Some control).

(** One capsule to its queue: [None] when nothing is listening any more. *)
Definition route (p : CapsulePump) (c : Capsule) : option CapsulePump :=
  if kind c =? DATAGRAM then
    s ← send (datagrams p) (value c); Some (mkPump (decoder p) s (control p))
  else
    match control p with
    | Some ctl => s ← send ctl c; Some (mkPump (decoder p) (datagrams p) (Some s))
    | None => Some p
    end.

(** The loop of [CapsulePump::push]; [None] is running out of fuel. *)
Fixpoint push_loop (fuel : nat) (p : CapsulePump) : option (ControlFlow * CapsulePump) :=
  match fuel with
  | O => None
  | S fuel =>
      let '(r, d) := next_capsule (decoder p) in
      let p := mkPump d (datagrams p) (control p) in
      match r with
      | Ok (Some c) =>
          match route p c with
          | Some p => push_loop fuel p
          | None => Some (Break, p)
          end
      | Ok None => Some (Continue, p)
      | Err _ => Some (Break, p)
      end
  end.

(** Each turn of the loop but the last removes at least a two-byte header. *)
Definition pump_push (p : CapsulePump) (chunk : list Z) : option (ControlFlow * CapsulePump) :=
  let p := mkPump (push (decoder p) chunk) (datagrams p) (control p) in
  push_loop (S (length (buf (decoder p)))) p.

(** The read loop of a tunnel: chunk after chunk until one breaks it. *)
Fixpoint pump_all (p : CapsulePump) (chunks : list (list Z))
    : option (ControlFlow * CapsulePump) :=
  match chunks with
  | [] => Some (Continue, p)
  | chunk :: chunks =>
      match pump_push p chunk with
      | Some (Continue, p) => pump_all p chunks
      | r => r
      end
  end.

(** ** The layout on the wire *)

(** [wire] is the capsule [c]: the type, the length, the value. *)
Definition wire_of (c : Capsule) (wire : list Z) : Prop :=
  ∃ h1 h2, wire = h1 ++ h2 ++ value c ∧ Varint.encodes (kind c) h1 ∧
    Varint.encodes (Z.of_nat (length (value c))) h2 ∧ bytes_ok (value c).

(** A capsule a decoder with limit [max] accepts. *)
Definition capsule_ok (max : Z) (c : Capsule) : Prop :=
  0 ≤ kind c ≤ Varint.MAX ∧ Z.of_nat (length (value c)) ≤ Z.min max Varint.MAX ∧ bytes_ok (value c).

Lemma write_header_encodes k n out :
  0 ≤ k ≤ Varint.MAX → Z.of_nat n ≤ Varint.MAX →
  ∃ h1 h2, write_header k n out = Some (out ++ h1 ++ h2) ∧ Varint.encodes k h1 ∧
    Varint.encodes (Z.of_nat n) h2 ∧ length h1 = Varint.encoded_len k ∧
    length h2 = Varint.encoded_len (Z.of_nat n).
Proof.
  intros Hk Hn. unfold write_header.
  destruct (Varint.encode_encodes k out) as (h1 & -> & ? & ?); [done|]. simpl.
  destruct (Varint.encode_encodes (Z.of_nat n) (out ++ h1)) as (h2 & -> & ? & ?); [lia|].
  exists h1, h2. by rewrite <- app_assoc.
Qed.

Lemma encode_into_wire max c out :
  capsule_ok max c →
  ∃ wire, encode_into c out = Some (out ++ wire) ∧ wire_of c wire ∧
    length wire = encoded_len (kind c) (length (value c)).
Proof.
  intros (Hk & Hl & Hv). unfold encode_into.
  destruct (write_header_encodes (kind c) (length (value c)) out)
    as (h1 & h2 & -> & ? & ? & Hl1 & Hl2); [done|lia|].
  exists (h1 ++ h2 ++ value c). simpl. rewrite <- !app_assoc. split; [done|]. split.
  - by exists h1, h2.
  - unfold encoded_len. rewrite !length_app. lia.
Qed.

Lemma wire_of_length c wire : wire_of c wire → (2 + length (value c) ≤ length wire)%nat.
Proof.
  intros (h1 & h2 & -> & (t & w & bs & -> & _) & (t' & w' & bs' & -> & _) & _).
  rewrite !length_app. simpl. lia.
Qed.

Lemma wire_of_bytes_ok c wire : wire_of c wire → bytes_ok wire.
Proof.
  intros (h1 & h2 & -> & H1%Varint.encodes_bytes_ok & H2%Varint.encodes_bytes_ok & ?).
  by repeat apply Forall_app_2.
Qed.

(** The decoder on a header, whatever follows. *)
Lemma next_capsule_header k n h1 h2 rest max :
  Varint.encodes k h1 → Varint.encodes n h2 →
  next_capsule (mkDecoder (h1 ++ h2 ++ rest) max) =
    if max <? n then (Err (ValueTooLarge k n max), mkDecoder (h1 ++ h2 ++ rest) max)
    else if (length rest <? Z.to_nat n)%nat then (Ok None, mkDecoder (h1 ++ h2 ++ rest) max)
    else (Ok (Some (mkCapsule k (take (Z.to_nat n) rest))), mkDecoder (drop (Z.to_nat n) rest) max).
Proof.
  intros H1 H2. unfold next_capsule. cbn [buf max_value_len].
  rewrite (Varint.encodes_decode k h1) by done. rewrite drop_app_length.
  rewrite (Varint.encodes_decode n h2) by done. destruct (max <? n); [done|].
  assert (drop (length h1 + length h2) (h1 ++ h2 ++ rest) = rest) as ->
    by (by rewrite app_assoc, <- length_app, drop_app_length).
  rewrite !length_app. destruct (Nat.ltb_spec (length rest) (Z.to_nat n)),
    (Nat.ltb_spec (length h1 + (length h2 + length rest))
      (length h1 + length h2 + Z.to_nat n)); done || lia.
Qed.

Lemma next_capsule_wire c wire rest max :
  wire_of c wire → Z.of_nat (length (value c)) ≤ max →
  next_capsule (mkDecoder (wire ++ rest) max) = (Ok (Some c), mkDecoder rest max).
Proof.
  intros (h1 & h2 & -> & H1 & H2 & _) Hmax. rewrite <- !app_assoc.
  rewrite (next_capsule_header _ _ h1 h2 _ _ H1 H2), Nat2Z.id, length_app.
  destruct (Z.ltb_spec max (Z.of_nat (length (value c)))); [lia|].
  destruct (Nat.ltb_spec (length (value c) + length rest) (length (value c))); [lia|].
  rewrite take_app_length, drop_app_length. by destruct c.
Qed.

(** What [next_capsule] did, in every case. *)
Definition next_capsule_post (d : CapsuleDecoder) (r : result Error (option Capsule))
    (d' : CapsuleDecoder) : Prop :=
  match r with
  | Ok (Some c) =>
      max_value_len d' = max_value_len d ∧ Z.of_nat (length (value c)) ≤ max_value_len d ∧
      ∃ wire, buf d = wire ++ buf d' ∧ wire_of c wire
  | Ok None => d' = d ∧ Z.of_nat (length (buf d)) < 16 + Z.max 0 (max_value_len d)
  | Err e =>
      d' = d ∧ ∃ k n h1 h2 rest, e = ValueTooLarge k n (max_value_len d) ∧
        max_value_len d < n ∧ buf d = h1 ++ h2 ++ rest ∧
        Varint.encodes k h1 ∧ Varint.encodes n h2
  end.

Lemma decode_slice_short input e :
  bytes_ok input → Varint.decode_slice input = Err e → (length input < 8)%nat.
Proof.
  intros Hok H. destruct input as [|first rest]; [simpl; lia|].
  unfold Varint.decode_slice in H. case_match eqn:Hlt; [|done]. apply Nat.ltb_lt in Hlt.
  apply Forall_cons in Hok as [Hf _]. unfold is_byte in Hf.
  rewrite Z.shiftr_div_pow2, Z.shiftl_1_l in Hlt by lia.
  assert (2 ^ (first / 2 ^ 6) ≤ 2 ^ 3) by (apply Z.pow_le_mono_r; dm_lia). lia.
Qed.

Lemma next_capsule_spec d :
  bytes_ok (buf d) → next_capsule_post d (next_capsule d).1 (next_capsule d).2.
Proof.
  destruct d as [b max]. cbn [buf]. intros Hok.
  destruct (Varint.decode_slice b) as [[k n1]|e] eqn:H1.
  2:{ unfold next_capsule. cbn [buf]. rewrite H1. simpl. split; [done|].
      apply decode_slice_short in H1; [lia|done]. }
  destruct (Varint.decode_slice_mono b [] k n1 Hok H1) as (_ & Hn1 & Hb1).
  apply Varint.decode_slice_encodes in H1 as H1'; [|done]. destruct H1' as (_ & _ & E1).
  destruct (Varint.decode_slice (drop n1 b)) as [[v n2]|e] eqn:H2.
  2:{ unfold next_capsule. cbn [buf]. rewrite H1, H2. simpl. split; [done|].
      apply decode_slice_short in H2; [|by apply Forall_drop]. rewrite length_drop in H2.
      unfold Varint.MAX_ENCODED_LEN in *. lia. }
  assert (bytes_ok (drop n1 b)) as Hok' by (by apply Forall_drop).
  destruct (Varint.decode_slice_mono _ [] v n2 Hok' H2) as (_ & Hn2 & Hb2).
  apply Varint.decode_slice_encodes in H2 as (_ & _ & E2); [|done].
  rewrite length_drop in Hn2.
  assert (b = take n1 b ++ take n2 (drop n1 b) ++ drop n2 (drop n1 b)) as Hb
    by (by rewrite !take_drop).
  assert (bytes_ok (drop n2 (drop n1 b))) as Hok'' by (by apply Forall_drop).
  assert (length (take n1 b) ≤ 8 ∧ length (take n2 (drop n1 b)) ≤ 8)%nat as [Hl1 Hl2]
    by (unfold Varint.MAX_ENCODED_LEN in *; rewrite !length_take; lia).
  revert Hb E1 E2 Hok'' Hl1 Hl2. generalize (take n1 b) (take n2 (drop n1 b)) (drop n2 (drop n1 b)).
  intros h1 h2 rest -> E1 E2 Hrest Hl1 Hl2. rewrite (next_capsule_header k v) by done.
  pose proof (Varint.encodes_bound _ _ E2) as Hv.
  destruct (Z.ltb_spec max v); [|destruct (Nat.ltb_spec (length rest) (Z.to_nat v))]; simpl.
  - split; [done|]. by exists k, v, h1, h2, rest.
  - split; [done|]. rewrite !length_app. lia.
  - rewrite length_take. split_and!; [done|lia|].
    exists (h1 ++ h2 ++ take (Z.to_nat v) rest). rewrite <- !app_assoc, take_drop.
    split; [done|]. exists h1, h2. simpl. rewrite length_take.
    split_and!; [done|done| |by apply Forall_take].
    by replace (Z.of_nat _) with v by lia.
Qed.

(** ** The pump over a whole stream *)

Definition with_decoder (p : CapsulePump) (d : CapsuleDecoder) : CapsulePump :=
  mkPump d (datagrams p) (control p).

Fixpoint route_all (p : CapsulePump) (cs : list Capsule) : option CapsulePump :=
  match cs with
  | [] => Some p
  | c :: cs => p ← route p c; route_all p cs
  end.

Lemma route_decoder p d c :
  route (with_decoder p d) c = (λ q, with_decoder q d) <$> route p c.
Proof.
  unfold route, with_decoder, send. simpl. destruct (kind c =? DATAGRAM).
  - by destruct (accepts (datagrams p)).
  - destruct (control p) as [s|] eqn:Hc; simpl; [by destruct (accepts s)|by rewrite Hc].
Qed.

(** The values of the DATAGRAM capsules, and the other capsules, in order. *)
Definition datagram_values (cs : list Capsule) : list (list Z) :=
  map value (List.filter (λ c, kind c =? DATAGRAM) cs).
Definition control_capsules (cs : list Capsule) : list Capsule :=
  List.filter (λ c, negb (kind c =? DATAGRAM)) cs.

Definition accepts_at_least (p : CapsulePump) (n : nat) : Prop :=
  (n ≤ accepts (datagrams p))%nat ∧
  match control p with Some s => (n ≤ accepts s)%nat | None => True end.

Lemma route_all_delivers p cs :
  accepts_at_least p (length cs) →
  ∃ q, route_all p cs = Some q ∧ decoder q = decoder p ∧
    delivered (datagrams q) = delivered (datagrams p) ++ datagram_values cs ∧
    delivered <$> control q = (λ s, delivered s ++ control_capsules cs) <$> control p.
Proof.
  revert p. induction cs as [|c cs IH]; intros [d [dl na] ctl] [Hd Hc]; simpl in *.
  { exists (mkPump d (mkSink dl na) ctl). unfold datagram_values, control_capsules. simpl.
    rewrite app_nil_r. split_and!; try done. destruct ctl; simpl; [|done]. by rewrite app_nil_r. }
  unfold datagram_values, control_capsules in *. simpl. unfold route, send. simpl.
  destruct (kind c =? DATAGRAM) eqn:Hk; simpl.
  - destruct na as [|na]; [lia|]. simpl.
    destruct (IH (mkPump d (mkSink (dl ++ [value c]) na) ctl)) as (q & -> & ? & Hq & Hq').
    { split; simpl; [lia|]. destruct ctl; [lia|done]. }
    exists q. simpl in Hq, Hq'. by rewrite Hq, Hq', <- app_assoc.
  - destruct ctl as [[cl nc]|]; simpl in *.
    + destruct nc as [|nc]; [lia|]. simpl.
      destruct (IH (mkPump d (mkSink dl na) (Some (mkSink (cl ++ [c]) nc)))) as (q & -> & ? & Hq & Hq').
      { split; simpl; lia. }
      exists q. simpl in Hq, Hq'. by rewrite Hq, Hq', <- app_assoc.
    + apply (IH (mkPump d (mkSink dl na) None)). split; simpl; [lia|done].
Qed.

(** The loop on a prefix [b] of a stream of capsules: it routes the capsules
    that are complete and keeps the rest. *)
Lemma push_loop_prefix max cs ws b r p q fuel :
  Forall2 wire_of cs ws → Forall (λ c, Z.of_nat (length (value c)) ≤ max) cs →
  b ++ r = concat ws → (length b < fuel)%nat → route_all p cs = Some q →
  ∃ cs' ws' b' p', Forall2 wire_of cs' ws' ∧ Forall (λ c, Z.of_nat (length (value c)) ≤ max) cs' ∧
    b' ++ r = concat ws' ∧ route_all p' cs' = Some q ∧
    next_capsule (mkDecoder b' max) = (Ok None, mkDecoder b' max) ∧
    push_loop fuel (with_decoder p (mkDecoder b max)) =
      Some (Continue, with_decoder p' (mkDecoder b' max)).
Proof.
  intros Hws Hmax. revert b r p q fuel Hmax.
  induction Hws as [|c w cs ws Hc Hws IH]; intros b r p q fuel Hmax Hb Hfuel Hq;
    (destruct fuel as [|fuel]; [lia|]).
  { apply app_nil in Hb as [-> ->]. by exists [], [], [], p. }
  apply Forall_cons in Hmax as [Hm Hmax]. simpl in Hb, Hq.
  assert (bytes_ok b) as Hok.
  { apply (Forall_app _ b r). rewrite Hb. apply Forall_app_2; [by eapply wire_of_bytes_ok|].
    clear -Hws. induction Hws; simpl; [constructor|].
    apply Forall_app_2; [by eapply wire_of_bytes_ok|done]. }
  assert (next_capsule (mkDecoder (b ++ r) max) = (Ok (Some c), mkDecoder (concat ws) max)) as Hall
    by (rewrite Hb; by apply next_capsule_wire).
  pose proof (next_capsule_spec (mkDecoder b max) Hok) as Hspec. cbn [push_loop with_decoder decoder].
  destruct (next_capsule (mkDecoder b max)) as [[[c'|]|e] [b' max']] eqn:Hn; simpl in Hspec.
  - destruct Hspec as (-> & Hlen & wire & -> & Hw). rewrite <- app_assoc in Hall.
    rewrite (next_capsule_wire c' wire) in Hall by done. injection Hall as -> Hb'.
    apply bind_Some in Hq as (p1 & Hp1 & Hq). apply wire_of_length in Hw. rewrite length_app in Hfuel.
    destruct (IH b' r p1 q fuel) as (cs' & ws' & b'' & p' & H); [done..|lia|done|].
    exists cs', ws', b'', p'. simpl.
    change (mkPump _ _ _) with (with_decoder p (mkDecoder b' max)).
    by rewrite route_decoder, Hp1.
  - destruct Hspec as [Heq _]. injection Heq as -> ->.
    exists (c :: cs), (w :: ws), b, p. split_and!; [by constructor|by constructor|done|..|done|done].
    simpl. done.
  - destruct Hspec as (_ & k & n & h1 & h2 & rest & _ & Hlt & -> & E1 & E2). exfalso.
    rewrite <- !app_assoc, (next_capsule_header k n) in Hall by done.
    destruct (Z.ltb_spec max n); [done|lia].
Qed.

Lemma pump_all_stream max cs ws b chunks p q :
  Forall2 wire_of cs ws → Forall (λ c, Z.of_nat (length (value c)) ≤ max) cs →
  b ++ concat chunks = concat ws → route_all p cs = Some q →
  next_capsule (mkDecoder b max) = (Ok None, mkDecoder b max) →
  pump_all (with_decoder p (mkDecoder b max)) chunks =
    Some (Continue, with_decoder q (mkDecoder [] max)).
Proof.
  revert cs ws b p. induction chunks as [|chunk chunks IH]; intros cs ws b p Hws Hmax Hb Hq Hn.
  - simpl in *. rewrite app_nil_r in Hb. subst. destruct Hws as [|c w cs ws Hc Hws].
    { simpl in *. by simplify_eq. }
    apply Forall_cons in Hmax as [Hm _]. simpl in Hn. by rewrite (next_capsule_wire c) in Hn.
  - cbn [pump_all concat] in *. unfold pump_push. cbn [with_decoder decoder push buf max_value_len].
    rewrite app_assoc in Hb.
    destruct (push_loop_prefix max cs ws (b ++ chunk) (concat chunks) p q
      (S (length (b ++ chunk)))) as (cs' & ws' & b' & p' & ? & ? & ? & ? & ? & Hl);
      [done|done|done|lia|done|].
    match goal with |- context [push_loop ?n ?x] =>
      change (push_loop n x) with
        (push_loop (S (length (b ++ chunk))) (with_decoder p (mkDecoder (b ++ chunk) max))) end.
    rewrite Hl. by eapply IH.
Qed.

(** The encodings of [cs], one after the other. *)
Fixpoint encode_all (cs : list Capsule) (out : list Z) : option (list Z) :=
  match cs with
  | [] => Some out
  | c :: cs => out ← encode_into c out; encode_all cs out
  end.

Lemma encode_all_wires max cs out :
  Forall (capsule_ok max) cs →
  ∃ ws, encode_all cs out = Some (out ++ concat ws) ∧ Forall2 wire_of cs ws.
Proof.
  intros H. revert out. induction H as [|c cs Hc Hcs IH]; intros out.
  { exists []. simpl. rewrite app_nil_r. split; [done|constructor]. }
  destruct (encode_into_wire max c out Hc) as (w & He & Hw & _).
  destruct (IH (out ++ w)) as (ws & Hws & HF). exists (w :: ws). simpl. rewrite He. simpl.
  rewrite Hws, <- app_assoc. split; [done|by constructor].
Qed.

(** The loop always ends within its fuel, and leaves a bounded buffer behind. *)
Lemma push_loop_total fuel p :
  bytes_ok (buf (decoder p)) → (length (buf (decoder p)) < fuel)%nat →
  ∃ flow p', push_loop fuel p = Some (flow, p') ∧ bytes_ok (buf (decoder p')) ∧
    max_value_len (decoder p') = max_value_len (decoder p) ∧
    (flow = Continue →
      Z.of_nat (buffered (decoder p')) < 16 + Z.max 0 (max_value_len (decoder p))).
Proof.
  revert p. induction fuel as [|fuel IH]; intros p Hok Hfuel; [lia|]. cbn [push_loop].
  pose proof (next_capsule_spec _ Hok) as Hspec.
  destruct (next_capsule (decoder p)) as [[[c|]|e] d]; cbn [fst snd next_capsule_post] in Hspec.
  - destruct Hspec as (Hm & _ & wire & Hb & Hw). apply wire_of_length in Hw.
    rewrite Hb in Hok, Hfuel. apply Forall_app in Hok as [_ Hok]. rewrite length_app in Hfuel.
    change (mkPump _ _ _) with (with_decoder p d). rewrite route_decoder.
    destruct (route p c) as [q|]; cbn [fmap option_fmap option_map].
    + destruct (IH (with_decoder q d)) as (flow & p' & H); [done|simpl; lia|].
      exists flow, p'. cbn [with_decoder decoder] in H. by rewrite Hm in H.
    + by exists Break, (with_decoder p d).
  - destruct Hspec as [-> Hb]. by eexists Continue, _.
  - destruct Hspec as [-> _]. by eexists Break, _.
Qed.

(** ** Correctness *)

(** Reassembly: a sequence of capsules encoded one after the other and
    delivered to a pump in any chunks comes out as it went in.  Every DATAGRAM
    value reaches the datagram queue and every other capsule the control queue,
    in order; without a control queue they are dropped and parsing carries on;
    and the stream ends on a capsule boundary. *)
Theorem pump_reassembles (p : CapsulePump) (cs : list Capsule) (stream : list Z)
    (chunks : list (list Z)) :
  buf (decoder p) = [] → Forall (capsule_ok (max_value_len (decoder p))) cs →
  accepts_at_least p (length cs) →
  encode_all cs [] = Some stream → concat chunks = stream →
  ∃ q, pump_all p chunks = Some (Continue, q) ∧ finish (decoder q) = Ok tt ∧
    delivered (datagrams q) = delivered (datagrams p) ++ datagram_values cs ∧
    delivered <$> control q = (λ s, delivered s ++ control_capsules cs) <$> control p.
Proof.
  intros Hb Hcs Hacc Henc Hch.
  destruct (route_all_delivers p cs Hacc) as (q & Hq & _ & Hd & Hc).
  destruct (encode_all_wires _ cs [] Hcs) as (ws & He & Hws).
  rewrite He in Henc. injection Henc as Hs. destruct p as [[b max] dg ctl]. simpl in Hb. subst b.
  exists (with_decoder q (mkDecoder [] max)). split_and!; [|done..].
  change (mkPump _ _ _) with (with_decoder (mkPump (mkDecoder [] max) dg ctl) (mkDecoder [] max)).
  eapply pump_all_stream; [done| |by subst|done|done].
  eapply Forall_impl; [exact Hcs|]. intros c (_ & Hl & _). simpl in Hl. lia.
Qed.

Lemma pump_reassembles_witness :
  let p := with_control (mkSink [] 4) (mkSink [] 4) in
  let cs := [new ADDRESS_ASSIGN [0]; datagram [112; 107; 116]] in
  encode_all cs [] = Some [1; 1; 0; 0; 3; 112; 107; 116] ∧
  ∃ q, pump_all p [[1; 1]; []; [0; 0; 3; 112]; [107; 116]] = Some (Continue, q) ∧
    finish (decoder q) = Ok tt ∧ delivered (datagrams q) = [] ++ datagram_values cs ∧
    delivered <$> control q = Some ([] ++ control_capsules cs).
Proof.
  split; [done|].
  apply (pump_reassembles (with_control (mkSink [] 4) (mkSink [] 4))
    [new ADDRESS_ASSIGN [0]; datagram [112; 107; 116]] [1; 1; 0; 0; 3; 112; 107; 116]
    [[1; 1]; []; [0; 0; 3; 112]; [107; 116]]); [done| |by vm_compute; lia..|done|done].
  repeat (apply Forall_cons_2; [vm_compute; split_and!; try done; forall_list|]).
  apply Forall_nil_2.
Defined.

(** What one decoding step does, in every case.  A capsule is removed
    together with its header and nothing else, and its value is within the
    limit; "not yet" leaves the buffer alone and means fewer bytes are buffered
    than the longest header and value; the only error is a declared length over
    the limit, reported from the header alone. *)
Theorem next_capsule_sound (d : CapsuleDecoder) :
  bytes_ok (buf d) → next_capsule_post d (next_capsule d).1 (next_capsule d).2.
Proof. apply next_capsule_spec. Qed.

Lemma next_capsule_sound_witness :
  bytes_ok [0; 0x80; 0x0f; 0x42; 0x40] ∧
  next_capsule (mkDecoder [0; 0x80; 0x0f; 0x42; 0x40] 16) =
    (Err (ValueTooLarge 0 1000000 16), mkDecoder [0; 0x80; 0x0f; 0x42; 0x40] 16) ∧
  next_capsule_post (mkDecoder [0; 0x80; 0x0f; 0x42; 0x40] 16)
    (Err (ValueTooLarge 0 1000000 16)) (mkDecoder [0; 0x80; 0x0f; 0x42; 0x40] 16).
Proof.
  assert (bytes_ok [0; 0x80; 0x0f; 0x42; 0x40]) by forall_list.
  split; [done|]. split; [done|].
  by apply (next_capsule_sound (mkDecoder [0; 0x80; 0x0f; 0x42; 0x40] 16)).
Defined.

(** The pump is total and its memory is bounded: whatever bytes arrive,
    [push] returns, and when it asks for more the decoder holds fewer bytes than
    the largest value plus two longest varints. *)
Theorem pump_push_bounded (p : CapsulePump) (chunk : list Z) :
  bytes_ok (buf (decoder p)) → bytes_ok chunk →
  ∃ flow p', pump_push p chunk = Some (flow, p') ∧ bytes_ok (buf (decoder p')) ∧
    max_value_len (decoder p') = max_value_len (decoder p) ∧
    (flow = Continue →
      Z.of_nat (buffered (decoder p')) < 16 + Z.max 0 (max_value_len (decoder p))).
Proof.
  intros ??. apply (push_loop_total _ (with_decoder p (push (decoder p) chunk)));
    [by apply Forall_app_2|simpl; lia].
Qed.

Lemma pump_push_bounded_witness :
  bytes_ok [0; 3; 112] ∧
  ∃ flow p', pump_push (new_pump (mkSink [] 4)) [0; 3; 112] = Some (flow, p') ∧
    bytes_ok (buf (decoder p')) ∧ max_value_len (decoder p') = DEFAULT_MAX_VALUE_LEN ∧
    (flow = Continue → Z.of_nat (buffered (decoder p')) < 16 + Z.max 0 DEFAULT_MAX_VALUE_LEN).
Proof.
  assert (bytes_ok [0; 3; 112]) by forall_list. split; [done|].
  apply (pump_push_bounded (new_pump (mkSink [] 4)) [0; 3; 112]); [constructor|done].
Defined.

(** Fail fast: as soon as a header declaring more than the limit has
    arrived, the decoder refuses, whatever part of the value follows it. *)
Theorem oversize_fails_fast (k : CapsuleType) (n : nat) (max : Z) (header rest : list Z) :
  0 ≤ k ≤ Varint.MAX → max < Z.of_nat n ≤ Varint.MAX → write_header k n [] = Some header →
  (next_capsule (push (with_max_value_len max) (header ++ rest))).1 =
    Err (ValueTooLarge k (Z.of_nat n) max).
Proof.
  intros Hk Hn Hw. destruct (write_header_encodes k n []) as (h1 & h2 & Hh & E1 & E2 & _); [done|lia|].
  rewrite Hw in Hh. injection Hh as ->. unfold push. simpl. rewrite <- app_assoc.
  rewrite (next_capsule_header k (Z.of_nat n)) by done.
  by rewrite (proj2 (Z.ltb_lt max (Z.of_nat n))) by lia.
Qed.

Lemma oversize_fails_fast_witness :
  write_header DATAGRAM 20 [] = Some [0; 20] ∧
  (next_capsule (push (with_max_value_len 16) ([0; 20] ++ [7; 7]))).1 =
    Err (ValueTooLarge DATAGRAM (Z.of_nat 20) 16).
Proof.
  split; [done|]. apply oversize_fails_fast; [by vm_compute|by vm_compute|done].
Defined.
