(* ===== verification/Datagram.v ===== *)
(** * HTTP Datagrams

    Model of [crates/skimasque-core/src/datagram.rs] (RFC 9297, Section 2 and
    the context ids of RFC 9298): the Quarter Stream ID in front of a QUIC
    DATAGRAM body, the context id in front of a proxying payload, and the
    allocator of context ids; and of [crates/skimasque-core/src/connect_udp.rs],
    the payload of a CONNECT-UDP datagram.  [None] is an [expect] panic. *)

From S2P Require Import Prelude RustStr Varint.

Definition MAX_QUARTER_STREAM_ID : Z := Z.shiftl 1 60 - 1.

Inductive Error : Type :=
  | NotARequestStream (stream_id : Z)
  | QuarterStreamIdTooLarge (quarter : Z)
  | Truncated (field : str)
  | ContextIdTooLarge (value : Z).

(** ** Quarter stream ids *)

(** [QuarterStreamId(u64)], private to its constructors. *)
Definition QuarterStreamId : Type := Z.

Definition from_stream_id (stream_id : Z) : result Error QuarterStreamId :=
  if negb (stream_id mod 4 =? 0) then Err (NotARequestStream stream_id)
  else Ok (stream_id / 4).

Definition from_quarter (quarter : Z) : result Error QuarterStreamId :=
  if MAX_QUARTER_STREAM_ID <? quarter then Err (QuarterStreamIdTooLarge quarter) else Ok quarter.

Definition stream_id (q : QuarterStreamId) : Z := wrap 64 (q * 4).

Definition encode_http3_datagram (stream : QuarterStreamId) (payload : list Z)
    : option (list Z) :=
  out ← result_ok (Varint.encode stream []); Some (out ++ payload).

Definition decode_http3_datagram (buf : list Z) : result Error (QuarterStreamId * list Z) :=
  let '(r, buf) := Varint.take_slice buf in
  quarter ← map_err (λ _, Truncated "quarter stream id") r;
  q ← from_quarter quarter;
  Ok (q, buf).

(** ** Context ids *)

Definition ContextId : Type := Z.
Definition DEFAULT : ContextId := 0.

Definition context_new (value : Z) : result Error ContextId :=
  if Varint.MAX <? value then Err (ContextIdTooLarge value) else Ok value.

Definition is_default (c : ContextId) : bool := c =? 0.

Inductive Allocator : Type := Client | Proxy.

Definition allocator (c : ContextId) : option Allocator :=
  if c =? 0 then None else if c mod 2 =? 0 then Some Client else Some Proxy.

Record ContextAllocator : Type := mkAllocator { next : Z }.

Definition new_allocator (a : Allocator) : ContextAllocator :=
  mkAllocator match a with Client => 2 | Proxy => 1 end.

Definition saturating_add64 (a b : Z) : Z := Z.min (a + b) u64_max.

Definition allocate (st : ContextAllocator) : option ContextId * ContextAllocator :=
  if Varint.MAX <? next st then (None, st)
  else (Some (next st), mkAllocator (saturating_add64 (next st) 2)).

(** [n] calls of [allocate], in order. *)
Fixpoint allocate_many (n : nat) (st : ContextAllocator) : list (option ContextId) :=
  match n with
  | O => []
  | S n => let '(id, st) := allocate st in id :: allocate_many n st
  end.

(** ** Proxying payloads *)

Record ProxyingPayload : Type := mkPayload { context : ContextId; payload : list Z }.

Definition default_context (payload : list Z) : ProxyingPayload := mkPayload DEFAULT payload.

Definition encode_into (p : ProxyingPayload) (out : list Z) : option (list Z) :=
  out ← result_ok (Varint.encode (context p) out); Some (out ++ payload p).
Definition encode (p : ProxyingPayload) : option (list Z) := encode_into p [].

Definition decode (buf : list Z) : result Error ProxyingPayload :=
  let '(r, buf) := Varint.take_slice buf in
  context ← map_err (λ _, Truncated "context id") r;
  c ← context_new context;
  Ok (mkPayload c buf).

(** ** CONNECT-UDP *)

Definition encode_payload (udp_payload : list Z) : option (list Z) :=
  encode (default_context udp_payload).

Inductive Incoming : Type :=
  | UdpPayload (payload : list Z)
  | UnknownContext (context : ContextId) (payload : list Z).

Definition decode_payload (bytes : list Z) : result Error Incoming :=
  p ← decode bytes;
  Ok (if is_default (context p) then UdpPayload (payload p)
      else UnknownContext (context p) (payload p)).

(** ** Lemmas *)

Lemma take_slice_encodes v wire rest :
  Varint.encodes v wire → Varint.take_slice (wire ++ rest) = (Ok v, rest).
Proof.
  intros H. unfold Varint.take_slice. rewrite (Varint.encodes_decode v wire rest H).
  by rewrite drop_app_length.
Qed.

Lemma encode_prefix v body :
  0 ≤ v ≤ Varint.MAX →
  ∃ wire, (out ← result_ok (Varint.encode v []); Some (out ++ body)) = Some (wire ++ body) ∧
    Varint.encodes v wire ∧ length wire = Varint.encoded_len v.
Proof.
  intros Hv. destruct (Varint.encode_encodes v []) as (wire & -> & ? & ?); [done|]. by exists wire.
Qed.

Lemma decode_encode p :
  0 ≤ context p ≤ Varint.MAX → ∃ wire, encode p = Some wire ∧ decode wire = Ok p ∧
    length wire = (Varint.encoded_len (context p) + length (payload p))%nat.
Proof.
  intros Hc. destruct (encode_prefix (context p) (payload p) Hc) as (wire & He & Hw & Hl).
  exists (wire ++ payload p). split; [done|]. unfold decode.
  rewrite (take_slice_encodes _ _ _ Hw), length_app. simpl. unfold context_new.
  destruct (Z.ltb_spec Varint.MAX (context p)); [lia|]. split; [by destruct p|lia].
Qed.

Lemma allocate_many_from n x :
  0 ≤ x ≤ Varint.MAX + 2 →
  allocate_many n (mkAllocator x) =
    map (λ i, if Varint.MAX <? x + 2 * Z.of_nat i then None else Some (x + 2 * Z.of_nat i)) (seq 0 n).
Proof.
  revert x. induction n as [|n IH]; intros x Hx; [done|]. cbn [allocate_many seq map].
  rewrite <- seq_shift, map_map. unfold allocate. cbn [next].
  rewrite Z.mul_0_r, Z.add_0_r. destruct (Z.ltb_spec Varint.MAX x) as [Hlt|Hle]; cbn iota beta.
  - f_equal. rewrite IH by done. apply map_ext. intros i.
    destruct (Z.ltb_spec Varint.MAX (x + 2 * Z.of_nat i)); [|lia].
    destruct (Z.ltb_spec Varint.MAX (x + 2 * Z.of_nat (S i))); [done|lia].
  - f_equal. unfold saturating_add64.
    assert (Varint.MAX < u64_max) by (by vm_compute).
    assert (Varint.MAX + 2 ≤ u64_max) by (by vm_compute).
    rewrite Z.min_l by lia. rewrite IH by lia. apply map_ext. intros i.
    by replace (x + 2 + 2 * Z.of_nat i) with (x + 2 * Z.of_nat (S i)) by lia.
Qed.

Lemma http3_datagram_frame sid body :
  0 ≤ sid ≤ Varint.MAX → sid mod 4 = 0 →
  from_stream_id sid = Ok (sid / 4) ∧ stream_id (sid / 4) = sid ∧
  ∃ wire, encode_http3_datagram (sid / 4) body = Some wire ∧
    decode_http3_datagram wire = Ok (sid / 4, body) ∧
    length wire = (Varint.encoded_len (sid / 4) + length body)%nat.
Proof.
  intros Hs Hm. unfold Varint.MAX in Hs. change (Z.shiftl 1 62) with (2 ^ 62) in Hs.
  unfold from_stream_id. rewrite Hm. split; [done|]. split; [unfold stream_id, wrap; dm_lia|].
  destruct (encode_prefix (sid / 4) body) as (wire & He & Hw & Hl);
    [unfold Varint.MAX; change (Z.shiftl 1 62) with (2 ^ 62); dm_lia|].
  exists (wire ++ body). split; [done|]. rewrite length_app, Hl. split; [|done]. unfold decode_http3_datagram.
  rewrite (take_slice_encodes _ _ _ Hw). simpl. unfold from_quarter, MAX_QUARTER_STREAM_ID.
  change (Z.shiftl 1 60) with (2 ^ 60). destruct (Z.ltb_spec (2 ^ 60 - 1) (sid / 4)); [dm_lia|done].
Qed.

(** ** Correctness *)

(** The outer frame: a datagram for any request stream of a QUIC
    connection (a stream id below [2^62] divisible by four) is delivered to that
    same stream with its payload intact; a stream id that is not a request
    stream is refused. *)
Theorem http3_datagram_roundtrip (sid : Z) (body : list Z) :
  0 ≤ sid ≤ Varint.MAX →
  match from_stream_id sid with
  | Ok q =>
      sid mod 4 = 0 ∧ stream_id q = sid ∧ ∃ wire, encode_http3_datagram q body = Some wire ∧
        decode_http3_datagram wire = Ok (q, body)
  | Err e => sid mod 4 ≠ 0 ∧ e = NotARequestStream sid
  end.
Proof.
  intros Hs. destruct (Z.eqb_spec (sid mod 4) 0) as [Hm|Hm].
  - destruct (http3_datagram_frame sid body Hs Hm) as (-> & ? & wire & ? & ? & _). eauto.
  - unfold from_stream_id. by rewrite (proj2 (Z.eqb_neq _ _) Hm).
Qed.

Lemma http3_datagram_roundtrip_witness :
  from_stream_id 8 = Ok 2 ∧ encode_http3_datagram 2 [9; 9] = Some [2; 9; 9] ∧
  8 mod 4 = 0 ∧ stream_id 2 = 8 ∧ ∃ wire, encode_http3_datagram 2 [9; 9] = Some wire ∧
    decode_http3_datagram wire = Ok (2, [9; 9]).
Proof.
  split; [done|]. split; [done|]. apply (http3_datagram_roundtrip 8 [9; 9]). by vm_compute.
Defined.

(** The inner frame of CONNECT-UDP: a UDP payload comes back as that UDP
    payload at the cost of one byte, and a payload in any other valid context
    comes back as unknown, with its context and bytes, never as an error. *)
Theorem udp_payload_roundtrip (c : ContextId) (body : list Z) :
  0 ≤ c ≤ Varint.MAX →
  (∃ wire, encode_payload body = Some wire ∧ length wire = S (length body) ∧
    decode_payload wire = Ok (UdpPayload body)) ∧
  ∃ wire, encode (mkPayload c body) = Some wire ∧
    decode_payload wire = Ok (if is_default c then UdpPayload body else UnknownContext c body).
Proof.
  intros Hc. split.
  - destruct (decode_encode (default_context body)) as (wire & He & Hd & Hl); [done|].
    exists wire. split_and!; [done|done|]. unfold decode_payload. by rewrite Hd.
  - destruct (decode_encode (mkPayload c body)) as (wire & He & Hd & Hl); [done|].
    exists wire. split; [done|]. unfold decode_payload. by rewrite Hd.
Qed.

Lemma udp_payload_roundtrip_witness :
  encode_payload [1; 2] = Some [0; 1; 2] ∧
  (∃ wire, encode_payload [1; 2] = Some wire ∧ length wire = 3%nat ∧
    decode_payload wire = Ok (UdpPayload [1; 2])) ∧
  ∃ wire, encode (mkPayload 4 [1; 2]) = Some wire ∧
    decode_payload wire = Ok (UnknownContext 4 [1; 2]).
Proof. split; [done|]. apply (udp_payload_roundtrip 4 [1; 2]). by vm_compute. Defined.

(** Context ids: the [i]-th id an endpoint allocates is [2 i] above its
    first one until the 62-bit space is exhausted and nothing afterwards, so ids
    are never reused, never the reserved context, and always in the allocating
    endpoint's half of the space. *)
Theorem context_ids_fresh (a : Allocator) (n : nat) :
  allocate_many n (new_allocator a) =
    map (λ i, let id := next (new_allocator a) + 2 * Z.of_nat i in
              if Varint.MAX <? id then None else Some id) (seq 0 n) ∧
  (∀ i id, allocate_many n (new_allocator a) !! i = Some (Some id) →
    allocator id = Some a ∧ is_default id = false ∧
    ∀ j, allocate_many n (new_allocator a) !! j = Some (Some id) → i = j).
Proof.
  assert (0 ≤ next (new_allocator a) ≤ Varint.MAX + 2) as Hx by (by destruct a; vm_compute).
  assert (mkAllocator (next (new_allocator a)) = new_allocator a) as Heta by by destruct a.
  pose proof (allocate_many_from n _ Hx) as Hall. rewrite Heta in Hall. split; [done|].
  assert (∀ i id, allocate_many n (new_allocator a) !! i = Some (Some id) →
    id = next (new_allocator a) + 2 * Z.of_nat i) as Hid.
  { intros i id Hi. rewrite Hall, list_lookup_fmap in Hi.
    apply fmap_Some in Hi as (k & Hk & Hi). apply lookup_seq in Hk as [-> _].
    rewrite Nat.add_0_l in Hi. case_match; [done|]. by injection Hi. }
  intros i id Hi. split_and!.
  - apply Hid in Hi. subst. unfold allocator. destruct a; simpl next; cmp_cases; try done; dm_lia.
  - apply Hid in Hi. subst. unfold is_default. destruct a; simpl next; cmp_cases; done.
  - intros j Hj. apply Hid in Hi, Hj. lia.
Qed.

(** Boundary: [from_stream_id] itself does not bound the quotient, so a [u64]
    that is no QUIC stream id gives a value whose datagram the peer refuses. *)
Lemma from_stream_id_unbounded :
  from_stream_id (2 ^ 62) = Ok (2 ^ 60) ∧
  (encode_http3_datagram (2 ^ 60) [] ≫= λ w, result_ok (decode_http3_datagram w)) = None.
Proof. by vm_compute. Qed.
