(* ===== verification/Template.v ===== *)
(** * URI Templates

    Model of [crates/skimasque-core/src/template.rs] (RFC 6570 profiled by
    RFC 9298 and RFC 9484): parsing a template, expanding it to a request path
    and running it backwards.  A [BTreeMap] is a [gmap]; the map that
    [match_parts] mutates while it backtracks is threaded through the calls.
    The characters a variable can span are all ASCII, so the byte positions the
    code walks over there are the character positions of the model. *)

From S2P Require Import Prelude RustStr.

Definition CONNECT_UDP_VARIABLES : list str := ["target_host" : str; "target_port" : str].
Definition CONNECT_TCP_VARIABLES : list str := ["target_host" : str; "target_port" : str].
Definition CONNECT_IP_VARIABLES : list str := ["target" : str; "ipproto" : str].

Inductive Error : Type :=
  | NotAbsolute
  | EmptyComponent (what : str)
  | PathMustStartWithSlash
  | IllegalCharacter (c : Z)
  | UnsupportedOperator (c : Z)
  | UnsupportedModifier (c : Z)
  | UnterminatedExpression
  | EmptyExpression
  | VariableOutsidePathOrQuery
  | DuplicateVariable (name : str)
  | QueryExpressionMustBeLast
  | MissingVariable (name : str)
  | UndefinedVariable (name : str)
  | EmptyValue (variable : str).

Inductive Part : Type :=
  | Literal (s : str)
  | Simple (name : str)
  | Query (names : list str)
  | QueryContinuation (names : list str).

Record UriTemplate : Type := mkTemplate {
  scheme : str;
  authority : str;
  parts : list Part;
  variables : list str;
  raw : str;
}.

Abbreviation values_map := (gmap (list Z) (list Z)).

(** ** Percent-coding *)

Definition is_unreserved (byte : Z) : bool :=
  is_ascii_alphanumeric byte || (byte =? 45) || (byte =? 46) || (byte =? 95) || (byte =? 126).
Definition is_expansion_safe (c : Z) : bool :=
  is_ascii_alphanumeric c || (c =? 45) || (c =? 46) || (c =? 95) || (c =? 126) || (c =? 37).

(** An upper-case hexadecimal digit, as [{:02X}] writes it. *)
Definition hex_upper (d : Z) : Z := if d <? 10 then 48 + d else 55 + d.

Definition pct_byte (byte : Z) : str :=
  if is_unreserved byte then [byte]
  else [37; hex_upper (byte / 16); hex_upper (byte mod 16)].

Definition pct_encode (value : str) : str := flat_map pct_byte (as_bytes value).

Fixpoint pct_decode_bytes (bytes : list Z) : option (list Z) :=
  match bytes with
  | [] => Some []
  | b :: rest =>
      if b =? 37 then
        match rest with
        | h1 :: h2 :: rest =>
            hex ← from_utf8 [h1; h2];
            x ← from_str_radix 16 u8_max hex;
            out ← pct_decode_bytes rest;
            Some (x :: out)
        | _ => None
        end
      else out ← pct_decode_bytes rest; Some (b :: out)
  end.

Definition pct_decode (value : str) : option str :=
  out ← pct_decode_bytes (as_bytes value); from_utf8 out.

(** ** Parsing *)

Definition find_modifier (name : str) : option Z :=
  List.find (λ c, (c =? 42) || (c =? 58)) name.

Definition parse_name (name : str) : result Error str :=
  match name with
  | [] => Err EmptyExpression
  | _ => match find_modifier name with
         | Some modifier => Err (UnsupportedModifier modifier)
         | None => Ok name
         end
  end.

Definition is_reserved_operator (c : Z) : bool := contains c "+#./;=,!@|".

Definition parse_expression (expression : str) : result Error Part :=
  match expression with
  | [] => Err EmptyExpression
  | first :: rest =>
      if is_reserved_operator first then Err (UnsupportedOperator first)
      else
        let is_op := (first =? 63) || (first =? 38) in
        names ← traverse parse_name (split 44 (if is_op then rest else expression));
        if first =? 63 then Ok (Query names)
        else if first =? 38 then Ok (QueryContinuation names)
        else match names with
             | [name] => Ok (Simple name)
             | _ => Err (UnsupportedOperator 44)
             end
  end.

Definition push_literal (parts : list Part) (literal : str) : list Part :=
  match literal with [] => parts | _ => parts ++ [Literal literal] end.

(** The loop of [parse_parts]: every turn consumes an opening brace. *)
Fixpoint parse_parts_loop (fuel : nat) (parts : list Part) (literal rest : str)
    : result Error (list Part * str) :=
  match fuel with
  | O => Ok (parts, literal ++ rest)
  | S fuel =>
      match split_once 123 rest with
      | None => Ok (parts, literal ++ rest)
      | Some (before, after) =>
          let literal := literal ++ before in
          match split_once 125 after with
          | None => Err UnterminatedExpression
          | Some (expression, rest) =>
              let parts := push_literal parts literal in
              part ← parse_expression expression;
              parse_parts_loop fuel (parts ++ [part]) [] rest
          end
      end
  end.

Definition is_query (p : Part) : bool :=
  match p with Query _ | QueryContinuation _ => true | _ => false end.

(** Index of the first element satisfying [f]: [iter().position(f)]. *)
Fixpoint position {A} (f : A → bool) (l : list A) : option nat :=
  match l with
  | [] => None
  | x :: l => if f x then Some 0%nat else S <$> position f l
  end.

Definition parse_parts (input : str) : result Error (list Part) :=
  '(parts, literal) ← parse_parts_loop (S (length input)) [] [] input;
  let parts := push_literal parts literal in
  match position is_query parts with
  | Some index =>
      if (S index =? length parts)%nat then Ok parts else Err QueryExpressionMustBeLast
  | None => Ok parts
  end.

Definition part_names (p : Part) : list str :=
  match p with
  | Literal _ => []
  | Simple name => [name]
  | Query names | QueryContinuation names => names
  end.

Fixpoint collect_variables (variables names : list str) : result Error (list str) :=
  match names with
  | [] => Ok variables
  | name :: names =>
      if existsb (str_eqb name) variables then Err (DuplicateVariable name)
      else collect_variables (variables ++ [name]) names
  end.

Definition parse (template : str) : result Error UriTemplate :=
  match List.find (λ ch, negb ((0x21 <=? ch) && (ch <=? 0x7e))) template with
  | Some ch => Err (IllegalCharacter ch)
  | None =>
      '(scheme, rest) ← ok_or (split_once_str "://" template) NotAbsolute;
      if bool_decide (scheme = []) then Err (EmptyComponent "scheme") else
      '(authority, path) ← ok_or (split_once 47 rest) (EmptyComponent "path");
      let path_and_query := 47 :: path in
      if bool_decide (authority = []) then Err (EmptyComponent "authority") else
      if contains 123 scheme || contains 123 authority then Err VariableOutsidePathOrQuery else
      if negb (starts_with "/" path_and_query) then Err PathMustStartWithSlash else
      parts ← parse_parts path_and_query;
      variables ← collect_variables [] (flat_map part_names parts);
      Ok (mkTemplate scheme authority parts variables template)
  end.

Definition default_connect_udp (proxy_authority : str) : result Error UriTemplate :=
  parse ("https://" ++ proxy_authority ++ "/.well-known/masque/udp/{target_host}/{target_port}/").
Definition default_connect_tcp (proxy_authority : str) : result Error UriTemplate :=
  parse ("https://" ++ proxy_authority ++ "/.well-known/masque/tcp/{target_host}/{target_port}/").
Definition default_connect_ip (proxy_authority : str) : result Error UriTemplate :=
  parse ("https://" ++ proxy_authority ++ "/.well-known/masque/ip/{target}/{ipproto}/").

Fixpoint require_variables (t : UriTemplate) (required : list str) : result Error unit :=
  match required with
  | [] => Ok tt
  | name :: required =>
      if existsb (str_eqb name) (variables t) then require_variables t required
      else Err (MissingVariable name)
  end.

(** ** Expansion *)

Definition lookup_value (values : values_map) (name : str) : result Error str :=
  value ← ok_or (values !! name) (UndefinedVariable name);
  if bool_decide (value = []) then Err (EmptyValue name) else Ok value.

Fixpoint expand_query (values : values_map) (names : list str) (separator : Z) (out : str)
    : result Error str :=
  match names with
  | [] => Ok out
  | name :: names =>
      v ← lookup_value values name;
      expand_query values names 38 (out ++ [separator] ++ name ++ [61] ++ pct_encode v)
  end.

Fixpoint expand_parts (values : values_map) (parts : list Part) (out : str) : result Error str :=
  match parts with
  | [] => Ok out
  | Literal l :: parts => expand_parts values parts (out ++ l)
  | Simple name :: parts =>
      v ← lookup_value values name; expand_parts values parts (out ++ pct_encode v)
  | Query names :: parts => out ← expand_query values names 63 out; expand_parts values parts out
  | QueryContinuation names :: parts =>
      out ← expand_query values names 38 out; expand_parts values parts out
  end.

Definition expand_path (t : UriTemplate) (values : values_map) : result Error str :=
  expand_parts values (parts t) [].

Definition expand_absolute (t : UriTemplate) (values : values_map) : result Error str :=
  path ← expand_path t values; Ok (scheme t ++ "://" ++ authority t ++ path).

(** ** Matching *)

(** The pairs of a query string; [None] is a malformed escape. *)
Fixpoint query_pairs (pairs : list str) (found : values_map) : option values_map :=
  match pairs with
  | [] => Some found
  | kv :: pairs =>
      match split_once 61 kv with
      | None => query_pairs pairs found
      | Some (key, value) =>
          match pct_decode key, pct_decode value with
          | Some key, Some value => query_pairs pairs (<[key := value]> found)
          | _, _ => None
          end
      end
  end.

Fixpoint take_names (found : values_map) (names : list str) (values : values_map)
    : bool * values_map :=
  match names with
  | [] => (true, values)
  | name :: names =>
      match found !! name with
      | Some value =>
          if bool_decide (value = []) then (false, values)
          else take_names found names (<[name := value]> values)
      | None => (false, values)
      end
  end.

Definition match_query (separator : Z) (names : list str) (last : bool) (input : str)
    (values : values_map) : bool * values_map :=
  match strip_prefix [separator] input with
  | None => (false, values)
  | Some query =>
      match query_pairs (split 38 query) ∅ with
      | None => (false, values)
      | Some found =>
          let '(ok, values) := take_names found names values in (ok && last, values)
      end
  end.

Definition is_nil {A} (l : list A) : bool := match l with [] => true | _ => false end.

Fixpoint match_parts (parts : list Part) (input : str) (values : values_map)
    : bool * values_map :=
  match parts with
  | [] => (is_nil input, values)
  | Literal literal :: tail =>
      match strip_prefix literal input with
      | Some rest => match_parts tail rest values
      | None => (false, values)
      end
  | Simple name :: tail =>
      (fix shrink (len : nat) (values : values_map) : bool * values_map :=
        match len with
        | O => (false, values)
        | S len' =>
            match pct_decode (take len input) with
            | None => shrink len' values
            | Some decoded =>
                let '(ok, values) :=
                  match_parts tail (drop len input) (<[name := decoded]> values) in
                if ok then (true, values) else shrink len' (delete name values)
            end
        end) (length (span is_expansion_safe input).1) values
  | Query names :: tail => match_query 63 names (is_nil tail) input values
  | QueryContinuation names :: tail => match_query 38 names (is_nil tail) input values
  end.

Definition match_path (t : UriTemplate) (path_and_query : str) : option values_map :=
  let '(ok, values) := match_parts (parts t) path_and_query ∅ in
  if ok then Some values else None.

(** ** Percent-coding is a round trip *)

(** One escaped byte, decided for all of them. *)
Definition pct_byte_ok (b : Z) : bool :=
  forallb (λ c, is_expansion_safe c && (0 <=? c) && (c <? 128)) (pct_byte b) &&
  bool_decide (pct_byte b ≠ []) &&
  match pct_byte b with
  | [c] => negb (c =? 37) && (c =? b)
  | [_; h1; h2] => bool_decide ((from_utf8 [h1; h2] ≫= from_str_radix 16 u8_max) = Some b)
  | _ => false
  end.

Lemma pct_byte_all b : is_byte b → pct_byte_ok b = true.
Proof.
  intros Hb. assert (forallb pct_byte_ok (seqZ 0 256) = true) as H by (by vm_compute).
  rewrite forallb_forall in H. apply H, list_elem_of_In, elem_of_seqZ. unfold is_byte in Hb. lia.
Qed.

Lemma pct_byte_chars b :
  is_byte b → Forall (λ c, is_expansion_safe c = true ∧ is_ascii c) (pct_byte b) ∧ pct_byte b ≠ [].
Proof.
  intros H%pct_byte_all. unfold pct_byte_ok in H.
  rewrite !andb_true_iff, bool_decide_eq_true, forallb_forall in H. destruct H as [[H ?] _].
  split; [|done]. apply Forall_forall. intros c Hc%list_elem_of_In%H.
  rewrite !andb_true_iff, Z.leb_le, Z.ltb_lt in Hc. unfold is_ascii. naive_solver.
Qed.

Lemma pct_decode_byte b rest :
  is_byte b → pct_decode_bytes (pct_byte b ++ rest) = cons b <$> pct_decode_bytes rest.
Proof.
  intros H%pct_byte_all. unfold pct_byte_ok in H. rewrite !andb_true_iff in H.
  destruct H as [_ H]. unfold pct_byte in *. destruct (is_unreserved b) eqn:Hu.
  - simpl. rewrite andb_true_iff, negb_true_iff in H. destruct H as [-> _].
    by destruct (pct_decode_bytes rest).
  - apply bool_decide_eq_true in H. apply bind_Some in H as (hex & Hh & Hx).
    cbn [app pct_decode_bytes Z.eqb Pos.eqb]. rewrite Hh. cbn [mbind option_bind]. rewrite Hx.
    by destruct (pct_decode_bytes rest).
Qed.

Lemma pct_encode_chars v :
  chars_ok v → Forall (λ c, is_expansion_safe c = true ∧ is_ascii c) (pct_encode v).
Proof.
  intros Hv%as_bytes_ok. unfold pct_encode. induction Hv; cbn [flat_map]; [constructor|].
  apply Forall_app_2; [by apply pct_byte_chars|done].
Qed.

Lemma pct_decode_encode v : chars_ok v → pct_decode (pct_encode v) = Some v.
Proof.
  intros Hv. unfold pct_decode. rewrite as_bytes_ascii
    by (eapply Forall_impl; [by apply pct_encode_chars|naive_solver]).
  assert (pct_decode_bytes (pct_encode v) = Some (as_bytes v)) as ->.
  { apply as_bytes_ok in Hv. unfold pct_encode.
    induction Hv; cbn [flat_map]; [done|]. rewrite pct_decode_byte by done. by rewrite IHHv. }
  by apply from_utf8_as_bytes.
Qed.

Lemma pct_encode_nonempty v : chars_ok v → v ≠ [] → pct_encode v ≠ [].
Proof.
  intros Hv%pct_decode_encode Hne Heq. rewrite Heq in Hv. unfold pct_decode in Hv. simpl in Hv.
  congruence.
Qed.

(** Text without a percent sign decodes to itself. *)
Lemma pct_decode_plain s : Forall is_ascii s → 37 ∉ s → pct_decode s = Some s.
Proof.
  intros Ha Hp. unfold pct_decode. rewrite as_bytes_ascii by done.
  assert (pct_decode_bytes s = Some s) as ->.
  { clear Ha. induction s as [|c s IH]; [done|]. apply not_elem_of_cons in Hp as [Hc Hp].
    cbn [pct_decode_bytes]. destruct (Z.eqb_spec c 37); [congruence|]. by rewrite IH. }
  simpl. rewrite <- (as_bytes_ascii s Ha) at 1. apply from_utf8_as_bytes.
  eapply Forall_impl; [exact Ha|]. unfold is_ascii, is_char. intros. lia.
Qed.

(** ** Expansion and matching *)

(** A map that gives every name of the template a usable value. *)
Definition values_ok (values : values_map) (names : list str) : Prop :=
  ∀ name, name ∈ names → ∃ v, values !! name = Some v ∧ v ≠ [] ∧ chars_ok v.

Lemma lookup_value_ok values names name :
  values_ok values names → name ∈ names →
  ∃ v, lookup_value values name = Ok v ∧ values !! name = Some v ∧ v ≠ [] ∧ chars_ok v.
Proof.
  intros Hv (v & Hl & Hne & ?)%Hv. exists v. unfold lookup_value. rewrite Hl. simpl.
  by rewrite bool_decide_eq_false_2.
Qed.

(** A name that survives a query string as it is. *)
Definition query_name_char (c : Z) : bool :=
  (0 <=? c) && (c <? 128) && negb (c =? 37) && negb (c =? 38) && negb (c =? 61).
Definition query_name_ok (name : str) : bool := forallb query_name_char name.

(** What follows a variable cannot be mistaken for more of its value. *)
Definition starts_unsafe (tail : list Part) : bool :=
  match tail with
  | [] => true
  | Literal (c :: _) :: _ => negb (is_expansion_safe c)
  | Query (_ :: _) :: _ | QueryContinuation (_ :: _) :: _ => true
  | _ => false
  end.

(** Every variable of the path is followed by the end, a query expression or a
    character that percent-encoding never emits, and query expressions are last. *)
Fixpoint delimited (parts : list Part) : bool :=
  match parts with
  | [] => true
  | Literal _ :: tail => delimited tail
  | Simple _ :: tail => starts_unsafe tail && delimited tail
  | Query names :: tail | QueryContinuation names :: tail =>
      is_nil tail && negb (is_nil names) && forallb query_name_ok names
  end.

(** [m] extends [acc] with the values of [names]. *)
Definition extends (m acc values : values_map) (names : list str) : Prop :=
  ∀ n, m !! n = if decide (n ∈ names) then values !! n else acc !! n.

Definition query_pair (values : values_map) (name : str) : str :=
  name ++ 61 :: pct_encode (default [] (values !! name)).
Fixpoint join_pairs (values : values_map) (names : list str) : str :=
  match names with
  | [] => []
  | [n] => query_pair values n
  | n :: names => query_pair values n ++ 38 :: join_pairs values names
  end.

Lemma expand_query_join values names n sep out :
  values_ok values (n :: names) →
  expand_query values (n :: names) sep out = Ok (out ++ sep :: join_pairs values (n :: names)).
Proof.
  revert n sep out. induction names as [|n' names IH]; intros n sep out Hv; cbn [expand_query];
    destruct (lookup_value_ok values _ n Hv) as (v & -> & Hl & _); try (left; done).
  - cbn [mbind result_mbind result_bind join_pairs]. unfold query_pair. rewrite Hl. done.
  - cbn [mbind result_mbind result_bind].
    change (expand_query values (n' :: names) 38 (out ++ [sep] ++ n ++ [61] ++ pct_encode v) =
      Ok (out ++ sep :: query_pair values n ++ 38 :: join_pairs values (n' :: names))).
    rewrite IH. 2:{ intros m Hm. apply Hv. by right. }
    unfold query_pair. rewrite Hl. by simplify_list_eq.
Qed.

Lemma query_name_plain name :
  query_name_ok name = true → 61 ∉ name ∧ 38 ∉ name ∧ pct_decode name = Some name.
Proof.
  unfold query_name_ok. rewrite forallb_forall. setoid_rewrite <- list_elem_of_In.
  unfold query_name_char. intros H.
  assert (∀ c, c ∈ name → is_ascii c ∧ c ≠ 37 ∧ c ≠ 38 ∧ c ≠ 61) as H'.
  { intros c Hc%H. rewrite !andb_true_iff, !negb_true_iff, !Z.eqb_neq, Z.leb_le, Z.ltb_lt in Hc.
    unfold is_ascii. naive_solver. }
  split_and!; [by intros (? & ? & ? & ?)%H'..|].
  apply pct_decode_plain; [|by intros (? & ? & ? & ?)%H'].
  apply Forall_forall. by intros c (? & ? & ? & ?)%H'.
Qed.

Lemma safe_not_in v c : chars_ok v → is_expansion_safe c = false → c ∉ pct_encode v.
Proof.
  intros Hv%pct_encode_chars Hc Hin. rewrite Forall_forall in Hv. apply Hv in Hin as [? _]. congruence.
Qed.

Lemma query_pairs_join values names n found :
  values_ok values (n :: names) → forallb query_name_ok (n :: names) = true →
  ∃ m, query_pairs (split 38 (join_pairs values (n :: names))) found = Some m ∧
    extends m found values (n :: names).
Proof.
  revert n found. induction names as [|n' names IH]; intros n found Hv Hn.
  all: destruct (lookup_value_ok values _ n Hv) as (v & _ & Hl & Hne & Hc); [left|].
  all: cbn [forallb] in Hn; apply andb_true_iff in Hn as [Hq Hn].
  all: apply query_name_plain in Hq as (H61 & H38 & Hd).
  all: assert (38 ∉ query_pair values n) as Hnot
    by (unfold query_pair; rewrite Hl, elem_of_app, elem_of_cons; simpl;
        intros [?|[?|Hin]]; [done|lia|by apply (safe_not_in v 38) in Hin]).
  all: assert (∀ ps, query_pairs (query_pair values n :: ps) found =
      query_pairs ps (<[n := v]> found)) as Hstep
    by (intros ps; cbn [query_pairs]; unfold query_pair; rewrite Hl;
        rewrite (proj2 (split_once_Some 61 _ n (pct_encode v))) by done;
        by rewrite Hd, pct_decode_encode).
  - cbn [join_pairs]. rewrite split_none by done. rewrite Hstep. eexists. split; [done|].
    intros m. destruct (decide (m = n)) as [->|Hm].
    + rewrite lookup_insert_eq, decide_True by (by left). done.
    + rewrite lookup_insert_ne by done. rewrite decide_False; [done|].
      rewrite list_elem_of_singleton. done.
  - change (join_pairs values (n :: n' :: names)) with
      (query_pair values n ++ 38 :: join_pairs values (n' :: names)).
    rewrite split_app by done. rewrite Hstep.
    destruct (IH n' (<[n := v]> found)) as (m & Hm & Hext); [|done|].
    { intros k Hk. apply Hv. by right. }
    exists m. split; [done|]. intros k. rewrite Hext.
    destruct (decide (k ∈ n' :: names)) as [Hk|Hk].
    + rewrite decide_True; [done|]. by right.
    + destruct (decide (k = n)) as [->|Hkn].
      * rewrite lookup_insert_eq, decide_True by (by left). done.
      * rewrite lookup_insert_ne by done. rewrite decide_False; [done|].
        rewrite elem_of_cons. naive_solver.
Qed.

Lemma take_names_ok values found names acc :
  values_ok values names → (∀ n, n ∈ names → found !! n = values !! n) →
  ∃ m, take_names found names acc = (true, m) ∧ extends m acc values names.
Proof.
  revert acc. induction names as [|n names IH]; intros acc Hv Hf; cbn [take_names].
  { exists acc. split; [done|]. intros n. rewrite decide_False; [done|]. apply not_elem_of_nil. }
  destruct (Hv n) as (v & Hl & Hne & _); [left|]. rewrite Hf, Hl by left.
  rewrite bool_decide_eq_false_2 by done.
  destruct (IH (<[n := v]> acc)) as (m & Hm & Hext).
  { intros k Hk. apply Hv. by right. } { intros k Hk. apply Hf. by right. }
  exists m. split; [done|]. intros k. rewrite Hext.
  destruct (decide (k ∈ names)) as [Hk|Hk]; [by rewrite decide_True by (by right)|].
  destruct (decide (k = n)) as [->|Hkn].
  - by rewrite lookup_insert_eq, decide_True by (by left).
  - rewrite lookup_insert_ne by done. rewrite decide_False; [done|]. rewrite elem_of_cons. naive_solver.
Qed.

Lemma match_query_join values names n sep acc :
  values_ok values (n :: names) → forallb query_name_ok (n :: names) = true →
  ∃ m, match_query sep (n :: names) true (sep :: join_pairs values (n :: names)) acc = (true, m) ∧
    extends m acc values (n :: names).
Proof.
  intros Hv Hn. unfold match_query. cbn [strip_prefix]. rewrite Z.eqb_refl.
  destruct (query_pairs_join values names n ∅ Hv Hn) as (found & -> & Hf).
  destruct (take_names_ok values found (n :: names) acc Hv) as (m & -> & Hm).
  { intros k Hk. by rewrite (Hf k), decide_True. }
  by exists m.
Qed.

Lemma extends_app m acc mid values a b :
  extends mid acc values a → extends m mid values b → extends m acc values (a ++ b).
Proof.
  intros H1 H2 n. rewrite H2, H1. destruct (decide (n ∈ b)) as [Hb|Hb].
  - rewrite decide_True; [done|]. apply elem_of_app. by right.
  - destruct (decide (n ∈ a)) as [Ha|Ha].
    + rewrite decide_True; [done|]. apply elem_of_app. by left.
    + rewrite decide_False; [done|]. rewrite elem_of_app. naive_solver.
Qed.

Lemma extends_insert acc values n v :
  values !! n = Some v → extends (<[n := v]> acc) acc values [n].
Proof.
  intros Hv k. destruct (decide (k = n)) as [->|Hk].
  - by rewrite lookup_insert_eq, decide_True by (by left).
  - rewrite lookup_insert_ne by done. rewrite decide_False; [done|]. by rewrite list_elem_of_singleton.
Qed.

(** The longest candidate for a variable is the one that was written. *)
Lemma match_simple name tail v path acc :
  chars_ok v → v ≠ [] →
  match path with [] => True | c :: _ => is_expansion_safe c = false end →
  (match_parts tail path (<[name := v]> acc)).1 = true →
  match_parts (Simple name :: tail) (pct_encode v ++ path) acc =
    match_parts tail path (<[name := v]> acc).
Proof.
  intros Hv Hne Hp Hm. cbn [match_parts].
  rewrite (span_app is_expansion_safe (pct_encode v) path); [|..|done].
  2:{ eapply Forall_impl; [by apply pct_encode_chars|naive_solver]. }
  cbn [fst]. destruct (length (pct_encode v)) as [|n] eqn:Hlen.
  { exfalso. by apply (pct_encode_nonempty v Hv Hne), nil_length_inv. }
  rewrite <- Hlen, take_app_length, drop_app_length, pct_decode_encode by done.
  destruct (match_parts tail path _) as [ok m]. simpl in Hm. by subst.
Qed.

Lemma match_expand values ps :
  values_ok values (flat_map part_names ps) → delimited ps = true →
  ∃ path, (∀ out, expand_parts values ps out = Ok (out ++ path)) ∧
    (starts_unsafe ps = true →
      match path with [] => True | c :: _ => is_expansion_safe c = false end) ∧
    ∀ acc, ∃ m, match_parts ps path acc = (true, m) ∧ extends m acc values (flat_map part_names ps).
Proof.
  induction ps as [|p ps IH]; intros Hv Hd.
  { exists []. split_and!; [intros out; simpl; by rewrite app_nil_r|done|].
    intros acc. exists acc. split; [done|]. intros n. rewrite decide_False; [done|].
    apply not_elem_of_nil. }
  assert (values_ok values (flat_map part_names ps)) as Hv'.
  { intros n Hn. apply Hv. cbn [flat_map]. apply elem_of_app. by right. }
  destruct p as [l|name|names|names]; cbn [delimited flat_map part_names] in *.
  - destruct (IH Hv' Hd) as (path & Hx & _ & Hm). exists (l ++ path). split_and!.
    + intros out. simpl. rewrite Hx. by rewrite <- app_assoc.
    + intros Hs. destruct l as [|c l]; [done|]. by apply negb_true_iff in Hs.
    + intros acc. simpl. by rewrite strip_prefix_app.
  - apply andb_true_iff in Hd as [Hs Hd]. destruct (IH Hv' Hd) as (path & Hx & Hu & Hm).
    destruct (lookup_value_ok values _ name Hv) as (v & Hlv & Hl & Hne & Hc); [left|].
    exists (pct_encode v ++ path). split_and!; [|done|].
    + intros out. cbn [expand_parts]. rewrite Hlv. simpl. rewrite Hx. by rewrite <- app_assoc.
    + intros acc. destruct (Hm (<[name := v]> acc)) as (m & Hmm & He). exists m.
      rewrite match_simple by (done || (by apply Hu) || by rewrite Hmm). split; [done|].
      by eapply (extends_app m acc _ values [name]); [apply extends_insert|].
  - rewrite !andb_true_iff in Hd. destruct Hd as [[Ht Hn] Hq]. destruct ps; [|done].
    destruct names as [|n names]; [done|]. cbn [flat_map] in Hv. rewrite app_nil_r in *.
    exists (63 :: join_pairs values (n :: names)). split_and!; [|done|].
    + intros out. cbn [expand_parts]. by rewrite expand_query_join.
    + intros acc. by apply match_query_join.
  - rewrite !andb_true_iff in Hd. destruct Hd as [[Ht Hn] Hq]. destruct ps; [|done].
    destruct names as [|n names]; [done|]. cbn [flat_map] in Hv. rewrite app_nil_r in *.
    exists (38 :: join_pairs values (n :: names)). split_and!; [|done|].
    + intros out. cbn [expand_parts]. by rewrite expand_query_join.
    + intros acc. by apply match_query_join.
Qed.

(** ** What a match yields *)

Lemma pct_decode_nonempty s v : s ≠ [] → pct_decode s = Some v → v ≠ [].
Proof.
  unfold pct_decode. intros Hne H. apply bind_Some in H as (out & Ho & Hu). intros ->.
  assert (as_bytes s ≠ []) as Hb.
  { destruct s; [done|]. unfold as_bytes. cbn [flat_map]. unfold utf8_char. by repeat case_match. }
  destruct (as_bytes s) as [|b bs]; [done|]. cbn [pct_decode_bytes] in Ho.
  assert (out ≠ []) as Hout.
  { destruct (b =? 37); [destruct bs as [|h1 [|h2 bs]]; [done|done|]|];
      repeat (apply bind_Some in Ho as (? & ? & Ho)); by simplify_eq. }
  destruct out as [|o out]; [done|]. cbn [from_utf8] in Hu.
  repeat (case_match || (apply fmap_Some in Hu as (? & ? & ?)) || done).
Qed.

(** The outcome of a match that started from [acc]: other names are untouched,
    and on success every name has a non-empty value. *)
Definition match_post (names : list str) (acc : values_map) (r : bool * values_map) : Prop :=
  (∀ n, n ∉ names → r.2 !! n = acc !! n) ∧
  (r.1 = true → ∀ n, n ∈ names → ∃ v, r.2 !! n = Some v ∧ v ≠ []).

Lemma take_names_post found names acc : match_post names acc (take_names found names acc).
Proof.
  revert acc. induction names as [|n names IH]; intros acc; cbn [take_names].
  { split; [done|]. intros _ n Hn. by apply elem_of_nil in Hn. }
  assert (match_post (n :: names) acc (false, acc)) as Hfail by done.
  destruct (found !! n) as [v|]; [|done]. case_bool_decide as Hv; [done|].
  destruct (IH (<[n := v]> acc)) as [H1 H2]. split.
  - intros k [Hk Hks]%not_elem_of_cons. rewrite H1 by done. by rewrite lookup_insert_ne.
  - intros Hr k Hk. destruct (decide (k ∈ names)) as [|Hks]; [by apply H2|].
    apply elem_of_cons in Hk as [->|]; [|done]. rewrite H1 by done. rewrite lookup_insert_eq. eauto.
Qed.

Lemma match_query_post sep names tail input acc :
  match_post (names ++ flat_map part_names tail) acc
    (match_query sep names (is_nil tail) input acc).
Proof.
  unfold match_query. destruct (strip_prefix _ _) as [q|]; [|done].
  destruct (query_pairs _ _) as [found|]; [|done].
  pose proof (take_names_post found names acc) as [H1 H2].
  destruct (take_names found names acc) as [ok m]. split; simpl in *.
  - intros n [Hn _]%not_elem_of_app. by apply H1.
  - intros [Hok Ht]%andb_true_iff. destruct tail; [|done]. rewrite app_nil_r. by apply H2.
Qed.

Lemma match_parts_post ps input acc :
  match_post (flat_map part_names ps) acc (match_parts ps input acc).
Proof.
  revert input acc. induction ps as [|p ps IH]; intros input acc.
  { split; [done|]. intros _ n Hn. by apply elem_of_nil in Hn. }
  destruct p as [l|name|names|names]; cbn [match_parts flat_map part_names app].
  - destruct (strip_prefix l input); [apply IH|done].
  - assert (length (span is_expansion_safe input).1 ≤ length input)%nat as Hlen.
    { destruct (span is_expansion_safe input) as [a b] eqn:Hs.
      apply span_spec in Hs as (-> & _). rewrite length_app. simpl. lia. }
    revert acc Hlen. generalize (length (span is_expansion_safe input).1) as len.
    induction len as [|len IHlen]; intros acc Hlen; [done|].
    destruct (pct_decode (take (S len) input)) as [v|] eqn:Hd; [|apply IHlen; lia].
    destruct (IH (drop (S len) input) (<[name := v]> acc)) as [H1 H2].
    destruct (match_parts ps (drop (S len) input) (<[name := v]> acc)) as [[] m]; simpl in H1, H2.
    + split; cbn [fst snd].
      * intros k [Hk Hks]%not_elem_of_cons. rewrite H1 by done. by rewrite lookup_insert_ne.
      * intros _ k Hk. destruct (decide (k ∈ flat_map part_names ps)) as [|Hks]; [by apply H2|].
        apply elem_of_cons in Hk as [->|]; [|done]. exists v. rewrite H1 by done.
        rewrite lookup_insert_eq. split; [done|]. eapply pct_decode_nonempty, Hd.
        intros Ht. apply (f_equal length) in Ht. rewrite length_take in Ht. cbn [length] in Ht. lia.
    + destruct (IHlen (delete name m)) as [H3 H4]; [lia|]. split; [|done].
      intros k [Hk Hks]%not_elem_of_cons. rewrite H3 by (by apply not_elem_of_cons).
      rewrite lookup_delete_ne by done. rewrite H1 by done. by rewrite lookup_insert_ne.
  - apply match_query_post.
  - apply match_query_post.
Qed.

(** ** What parsing guarantees *)

Lemma collect_variables_spec vs names vs' :
  NoDup vs → collect_variables vs names = Ok vs' → vs' = vs ++ names ∧ NoDup vs'.
Proof.
  revert vs. induction names as [|n names IH]; intros vs Hnd; cbn [collect_variables].
  { intros [= <-]. by rewrite app_nil_r. }
  destruct (existsb (str_eqb n) vs) eqn:He; [done|]. intros Hc.
  apply IH in Hc as [-> ?]; [rewrite <- app_assoc in *; done|].
  apply NoDup_app. split_and!; [done| |apply NoDup_singleton].
  intros x Hx ->%list_elem_of_singleton. apply not_true_iff_false in He. apply He, existsb_exists.
  exists n. split; [by apply list_elem_of_In|apply str_eqb_refl].
Qed.

Lemma parse_Ok s t :
  parse s = Ok t →
  raw t = s ∧ variables t = flat_map part_names (parts t) ∧ NoDup (variables t) ∧
  scheme t ≠ [] ∧ authority t ≠ [] ∧ 123 ∉ scheme t ∧ 123 ∉ authority t.
Proof.
  unfold parse. intros H. case_match; [done|]. apply bind_Ok in H as ([sc rest] & _ & H).
  case_bool_decide; [done|]. apply bind_Ok in H as ([au path] & _ & H).
  case_bool_decide; [done|].
  destruct (contains 123 sc || contains 123 au) eqn:Hc; [done|]. apply orb_false_iff in Hc as [? ?].
  case_match; [done|]. apply bind_Ok in H as (ps & _ & H). apply bind_Ok in H as (vs & Hvs & H).
  injection H as <-. apply collect_variables_spec in Hvs as [-> ?]; [|apply NoDup_nil_2].
  by split_and!; try apply contains_false.
Qed.

(** ** Correctness *)

(** Percent-coding is a round trip, and what it emits consists of the
    unreserved characters and percent signs alone. *)
Theorem pct_roundtrip (v : str) :
  chars_ok v → pct_decode (pct_encode v) = Some v ∧
    Forall (λ c, is_expansion_safe c = true) (pct_encode v).
Proof.
  intros Hv. split; [by apply pct_decode_encode|].
  eapply Forall_impl; [by apply pct_encode_chars|naive_solver].
Qed.

Lemma pct_roundtrip_witness :
  pct_encode "2001:db8::42" = of_string "2001%3Adb8%3A%3A42" ∧ chars_ok "2001:db8::42" ∧
  pct_decode (pct_encode "2001:db8::42") = Some (of_string "2001:db8::42").
Proof.
  assert (chars_ok "2001:db8::42") by by_decide.
  split; [done|]. split; [done|]. by apply pct_roundtrip.
Defined.

(** Running a template backwards: for any parsed template whose variables
    are delimited, and any values that are present and not empty, the expansion
    succeeds and matching the resulting path recovers exactly those values, one
    for each variable of the template. *)
Theorem template_roundtrip (s : str) (t : UriTemplate) (values : values_map) :
  parse s = Ok t → delimited (parts t) = true → values_ok values (variables t) →
  ∃ path m, expand_path t values = Ok path ∧ match_path t path = Some m ∧
    ∀ n, m !! n = if decide (n ∈ variables t) then values !! n else None.
Proof.
  intros (_ & Hvars & _)%parse_Ok Hd Hv. rewrite Hvars in *.
  destruct (match_expand values (parts t)) as (path & Hx & _ & Hm); [done..|].
  destruct (Hm ∅) as (m & Hmm & Hext). exists path, m. split_and!.
  - apply (Hx []).
  - unfold match_path. by rewrite Hmm.
  - intros n. by rewrite (Hext n), lookup_empty.
Qed.

Definition sample_values : values_map :=
  list_to_map [("target_host" : str, "2001:db8::42" : str); ("target_port" : str, "53" : str)].

Lemma template_roundtrip_witness :
  ∃ t path m, default_connect_udp "e.org" = Ok t ∧
    path = of_string "/.well-known/masque/udp/2001%3Adb8%3A%3A42/53/" ∧
    expand_path t sample_values = Ok path ∧ match_path t path = Some m ∧
    ∀ n, m !! n = if decide (n ∈ variables t) then sample_values !! n else None.
Proof.
  destruct (default_connect_udp "e.org") as [t|e] eqn:Ht; [|by vm_compute in Ht].
  destruct (template_roundtrip
    ("https://" ++ "e.org" ++ "/.well-known/masque/udp/{target_host}/{target_port}/") t sample_values)
    as (path & m & Hx & Hm & Hv).
  - exact Ht.
  - vm_compute in Ht. injection Ht as <-. by vm_compute.
  - vm_compute in Ht. injection Ht as <-. intros n Hn. cbn [variables] in Hn.
    apply elem_of_cons in Hn as [->|[->|[]%elem_of_nil]%elem_of_cons];
      (eexists; split; [by vm_compute|split; [done|by_decide]]).
  - exists t, path, m. split_and!; try done. vm_compute in Ht. injection Ht as <-.
    vm_compute in Hx. by injection Hx as <-.
Defined.

(** What a match means: the values recovered from a path are exactly for
    the variables of the template, whichever way the match backtracked, and
    none of them is empty. *)
Theorem match_path_variables (s : str) (t : UriTemplate) (path : str) (m : values_map) :
  parse s = Ok t → match_path t path = Some m →
  ∀ n, (n ∈ variables t ↔ is_Some (m !! n)) ∧ m !! n ≠ Some [].
Proof.
  intros (_ & Hvars & _)%parse_Ok Hm n. unfold match_path in Hm.
  destruct (match_parts_post (parts t) path ∅) as [H1 H2].
  destruct (match_parts (parts t) path ∅) as [[] m']; [|done]. injection Hm as ->.
  rewrite Hvars. simpl in *. specialize (H2 eq_refl).
  destruct (decide (n ∈ flat_map part_names (parts t))) as [Hn|Hn].
  - destruct (H2 n Hn) as (v & -> & Hv). split; [by eauto|congruence].
  - rewrite (H1 n Hn), lookup_empty. split; [|done]. split; [done|]. by intros [? ?].
Qed.

Lemma match_path_variables_witness :
  ∃ t m, default_connect_ip "e.org" = Ok t ∧
    match_path t "/.well-known/masque/ip/%2A/6/" = Some m ∧
    ∀ n, (n ∈ variables t ↔ is_Some (m !! n)) ∧ m !! n ≠ Some [].
Proof.
  destruct (default_connect_ip "e.org") as [t|e] eqn:Ht; [|by vm_compute in Ht].
  destruct (match_path t "/.well-known/masque/ip/%2A/6/") as [m|] eqn:Hm.
  - exists t, m. split; [done|]. split; [done|]. eapply match_path_variables; [exact Ht|exact Hm].
  - vm_compute in Ht. injection Ht as <-. by vm_compute in Hm.
Defined.

(** [u8::from_str_radix] accepts a leading plus sign, so a malformed escape is
    decoded instead of refused. *)
Lemma pct_decode_accepts_plus : pct_decode "%+5" = Some [5].
Proof. done. Qed.
