(* ===== verification/Target.v ===== *)
(** * The target of a proxying request

    Model of [crates/skimasque-core/src/target.rs]: a [host:port] pair, its
    textual form, and its passage through a URI Template; and of the protocol
    tokens of [crates/skimasque-core/src/lib.rs]. *)

From S2P Require Import Prelude RustStr RustNet Template.

Inductive Error : Type :=
  | EmptyHost
  | InvalidPort (port : str)
  | ZoneIdentifier (host : str)
  | IllegalHost (host : str)
  | PathDoesNotMatch (path : str)
  | TemplateError (e : Template.Error).

Inductive TargetHost : Type :=
  | Ip (ip : IpAddr)
  | Name (name : str).
#[global] Instance TargetHost_eq_dec : EqDecision TargetHost.
Proof. solve_decision. Defined.

(** Characters that cannot appear in a reg-name. *)
Definition illegal_host_char (c : Z) : bool :=
  is_whitespace c || is_control c || contains c "/?#[]@:".

Definition parse_host (host : str) : result Error TargetHost :=
  if bool_decide (host = []) then Err EmptyHost
  else if contains 37 host then Err (ZoneIdentifier host)
  else
    match parse_ip (unbracketed host) with
    | Some ip => Ok (Ip ip)
    | None =>
        if existsb illegal_host_char (unbracketed host) then Err (IllegalHost host)
        else Ok (Name (unbracketed host))
    end.

Definition to_variable (h : TargetHost) : str :=
  match h with Ip ip => display_ip ip | Name name => name end.

Definition display_host (h : TargetHost) : str :=
  match h with
  | Ip (V6 b) => "[" ++ display_v6 b ++ "]"
  | Ip (V4 b) => display_v4 b
  | Name name => name
  end.

Record Target : Type := mkTarget { host : TargetHost; port : Z }.
#[global] Instance Target_eq_dec : EqDecision Target.
Proof. solve_decision. Defined.

Definition new (host : TargetHost) (port : Z) : result Error Target :=
  if port =? 0 then Err (InvalidPort "0") else Ok (mkTarget host port).

Definition parse_port (port : str) : result Error Z :=
  ok_or (parse_u16 port) (InvalidPort port).

Definition parse (input : str) : result Error Target :=
  '(host, port) ←
    match rsplit_once 93 input with
    | Some (before, rest) =>
        port ← ok_or (strip_prefix ":" rest) (InvalidPort rest);
        Ok (before ++ [93], port)
    | None => ok_or (rsplit_once 58 input) (InvalidPort [])
    end;
  port ← parse_port port;
  host ← parse_host host;
  new host port.

Definition target_values (t : Target) : values_map :=
  <["target_port" : str := to_string (port t)]>
    (<["target_host" : str := to_variable (host t)]> ∅).

Definition expand_path (t : Target) (template : UriTemplate) : result Error str :=
  map_err TemplateError (Template.expand_path template (target_values t)).

Definition from_path (template : UriTemplate) (path : str) : result Error Target :=
  values ← ok_or (match_path template path) (PathDoesNotMatch path);
  host ← ok_or (values !! ("target_host" : str)) (PathDoesNotMatch path);
  port ← ok_or (values !! ("target_port" : str)) (PathDoesNotMatch path);
  port ← parse_port port;
  host ← parse_host host;
  new host port.

Definition display (t : Target) : str := display_host (host t) ++ ":" ++ to_string (port t).

(** ** Upgrade tokens *)

Inductive Protocol : Type := ConnectUdp | ConnectTcp | ConnectIp.

Definition upgrade_token (p : Protocol) : str :=
  match p with
  | ConnectUdp => "connect-udp"
  | ConnectTcp => "connect-tcp"
  | ConnectIp => "connect-ip"
  end.

Definition default_template (p : Protocol) (proxy_authority : str)
    : result Template.Error UriTemplate :=
  match p with
  | ConnectUdp => default_connect_udp proxy_authority
  | ConnectTcp => default_connect_tcp proxy_authority
  | ConnectIp => default_connect_ip proxy_authority
  end.

(** [FromStr]; the error carries the unknown token. *)
Definition protocol_from_str (token : str) : result str Protocol :=
  if str_eqb token "connect-udp" then Ok ConnectUdp
  else if str_eqb token "connect-tcp" then Ok ConnectTcp
  else if str_eqb token "connect-ip" then Ok ConnectIp
  else Err token.

Definition capsule_protocol_enabled (value : str) : bool := str_eqb (trim value) "?1".

(** ** Valid targets *)

(** A host as the parser produces it. *)
Definition host_ok (h : TargetHost) : Prop :=
  match h with
  | Ip ip => ip_ok ip
  | Name n => n ≠ [] ∧ 37 ∉ n ∧ parse_ip n = None ∧ existsb illegal_host_char n = false ∧ chars_ok n
  end.
Definition target_ok (t : Target) : Prop := host_ok (host t) ∧ 0 < port t ≤ u16_max.

Lemma illegal_not_in n c :
  existsb illegal_host_char n = false → illegal_host_char c = true → c ∉ n.
Proof.
  intros H Hc Hin. apply not_true_iff_false in H. apply H, existsb_exists.
  exists c. by rewrite <- list_elem_of_In.
Qed.

Lemma parse_host_variable h : host_ok h → parse_host (to_variable h) = Ok h.
Proof.
  intros Hh. unfold parse_host. destruct h as [ip|n]; cbn [to_variable host_ok] in *.
  - rewrite bool_decide_eq_false_2 by (by apply display_ip_nonempty).
    rewrite (proj2 (contains_false 37 _)) by (apply display_ip_not_in; lia).
    rewrite unbracketed_id by (apply display_ip_not_in; lia). by rewrite parse_display_ip.
  - destruct Hh as (? & H37%contains_false & Hip & Hill & _).
    rewrite bool_decide_eq_false_2 by done. rewrite H37.
    rewrite unbracketed_id by (by eapply illegal_not_in). by rewrite Hip, Hill.
Qed.

Lemma parse_host_display h : host_ok h → parse_host (display_host h) = Ok h.
Proof.
  intros Hh. destruct h as [[b|b]|n].
  - by apply (parse_host_variable (Ip (V4 b))).
  - cbn [display_host]. unfold parse_host. rewrite bool_decide_eq_false_2 by done.
    rewrite (proj2 (contains_false 37 _)), unbracketed_app.
    + change (display_v6 b) with (display_ip (V6 b)). by rewrite (parse_display_ip (V6 b) Hh).
    + rewrite !elem_of_app. intros [H|[H|H]]; [by apply list_elem_of_singleton in H| |
        by apply list_elem_of_singleton in H].
      revert H. apply (display_ip_not_in (V6 b)). lia.
  - by apply (parse_host_variable (Name n)).
Qed.

Lemma parse_port_to_string p : 0 ≤ p ≤ u16_max → parse_port (to_string p) = Ok p.
Proof.
  intros Hp. unfold parse_port, parse_u16. rewrite from_str_radix_to_string by lia.
  by rewrite decide_True by lia.
Qed.

Lemma split_unbracketed h p :
  93 ∉ h → 0 ≤ p → rsplit_once 93 (h ++ ":" ++ to_string p) = None ∧
    rsplit_once 58 (h ++ ":" ++ to_string p) = Some (h, to_string p).
Proof.
  intros Hh Hp. split.
  - apply rsplit_once_None. rewrite !elem_of_app.
    intros [?|[H|H]]; [done|by apply list_elem_of_singleton in H|by apply digit_not_in in H].
  - apply rsplit_once_Some. split; [done|]. by apply digit_not_in.
Qed.

Lemma split_bracketed h p :
  0 ≤ p → rsplit_once 93 (("[" ++ h ++ "]") ++ ":" ++ to_string p) =
    Some (("[" : str) ++ h, ":" ++ to_string p).
Proof.
  intros Hp. apply rsplit_once_Some. split; [by rewrite <- !app_assoc|].
  rewrite elem_of_app. intros [H|H]; [by apply list_elem_of_singleton in H|by apply digit_not_in in H].
Qed.

Lemma new_ok h p : 0 < p → new h p = Ok (mkTarget h p).
Proof. intros Hp. unfold new. by destruct (Z.eqb_spec p 0); [lia|]. Qed.

(** ** Correctness *)

(** The target survives the trip to the proxy: for every valid target and
    every delimited template over the two MASQUE variables, the client's path
    expands, and the proxy recovers exactly that target from it, be it a name,
    an IPv4 or an IPv6 literal. *)
Theorem target_path_roundtrip (s : str) (template : UriTemplate) (t : Target) :
  Template.parse s = Ok template → delimited (parts template) = true →
  (∀ n, n ∈ variables template ↔ n ∈ CONNECT_UDP_VARIABLES) → target_ok t →
  ∃ path, expand_path t template = Ok path ∧ from_path template path = Ok t.
Proof.
  intros Hp Hd Hvars [Hh Hport].
  assert (target_values t !! ("target_host" : str) = Some (to_variable (host t)) ∧
    target_values t !! ("target_port" : str) = Some (to_string (port t))) as [Hvh Hvp].
  { unfold target_values. rewrite lookup_insert_ne, !lookup_insert_eq by done. done. }
  apply Template.parse_Ok in Hp as (_ & Hv & _). rewrite Hv in Hvars.
  destruct (match_expand (target_values t) (parts template)) as (path & Hx & _ & Hm); [|done|].
  { intros n Hn%Hvars. apply elem_of_cons in Hn as [->|Hn].
    - rewrite Hvh. eexists. split; [done|]. destruct (host t) as [ip|n]; simpl in *.
      + split; [by apply display_ip_nonempty|apply chars_ok_display_ip].
      + naive_solver.
    - apply list_elem_of_singleton in Hn as ->. rewrite Hvp. eexists. split; [done|].
      split; [by apply to_string_no_plus; lia|]. apply chars_ok_to_string. lia. }
  exists path. unfold expand_path, Template.expand_path. rewrite Hx. split; [done|].
  destruct (Hm ∅) as (m & Hmm & Hext). unfold from_path, match_path. rewrite Hmm. bind_simpl.
  rewrite !Hext, !decide_True by (apply Hvars; repeat constructor). rewrite Hvh, Hvp. bind_simpl.
  rewrite parse_port_to_string by lia. bind_simpl. rewrite parse_host_variable by done. bind_simpl.
  rewrite new_ok by lia. by destruct t.
Qed.

Lemma target_path_roundtrip_witness :
  ∃ template path, default_connect_tcp "e.org" = Ok template ∧
    path = of_string "/.well-known/masque/tcp/%3A%3A1/443/" ∧
    expand_path (mkTarget (Ip (V6 1)) 443) template = Ok path ∧
    from_path template path = Ok (mkTarget (Ip (V6 1)) 443).
Proof.
  destruct (default_connect_tcp "e.org") as [t|e] eqn:Ht; [|by vm_compute in Ht].
  destruct (target_path_roundtrip _ t (mkTarget (Ip (V6 1)) 443) Ht) as (path & Hx & Hf).
  - vm_compute in Ht. injection Ht as <-. by vm_compute.
  - vm_compute in Ht. injection Ht as <-. intros n. cbn [variables].
    change CONNECT_UDP_VARIABLES with [("target_host" : str); ("target_port" : str)]. done.
  - split; simpl; unfold u16_max; lia.
  - exists t, path. split_and!; try done. vm_compute in Ht. injection Ht as <-.
    vm_compute in Hx. by injection Hx as <-.
Defined.

(** Text round trip: a valid target printed as [host:port] (IPv6 in
    brackets) parses back to the same target. *)
Theorem target_display_roundtrip (t : Target) : target_ok t → parse (display t) = Ok t.
Proof.
  intros [Hh Hp]. unfold parse, display. pose proof (parse_host_display _ Hh) as Hd.
  assert (93 ∉ display_host (host t) ∨ ∃ b, host t = Ip (V6 b)) as [Hn|[b Hb]].
  { destruct (host t) as [[b|b]|n]; simpl in *; [|by eauto|].
    - left. apply (display_ip_not_in (V4 b)). lia.
    - left. destruct Hh as (_ & _ & _ & Hi & _). by eapply illegal_not_in. }
  - destruct (split_unbracketed (display_host (host t)) (port t)) as [-> ->]; [done|lia|].
    simpl. rewrite parse_port_to_string by lia. simpl. rewrite Hd. simpl.
    rewrite new_ok by lia. by destruct t.
  - rewrite Hb in *. cbn [display_host] in *. rewrite split_bracketed by lia.
    rewrite strip_prefix_app. bind_simpl. rewrite <- app_assoc.
    rewrite parse_port_to_string by lia. bind_simpl. change (of_string "]") with [93] in Hd. rewrite Hd. bind_simpl.
    rewrite new_ok by lia. destruct t. simpl in *. by subst.
Qed.

Lemma target_display_roundtrip_witness :
  target_ok (mkTarget (Name "db.internal") 5432) ∧
  display (mkTarget (Name "db.internal") 5432) = of_string "db.internal:5432" ∧
  parse (display (mkTarget (Name "db.internal") 5432)) = Ok (mkTarget (Name "db.internal") 5432).
Proof.
  assert (target_ok (mkTarget (Name "db.internal") 5432)) as H.
  { split; [|simpl; unfold u16_max; lia]. split_and!; by_decide || done. }
  split; [exact H|]. split; [done|]. by apply target_display_roundtrip.
Defined.

Lemma parse_host_Ok h r :
  chars_ok h → parse_host h = Ok r → host_ok r ∨ r = Name [].
Proof.
  unfold parse_host. intros Hc H. case_bool_decide as Hne; [done|].
  destruct (contains 37 h) eqn:H37; [done|]. apply contains_false in H37.
  assert (∀ c, c ∈ unbracketed h → c ∈ h) as Hsub.
  { intros c. unfold unbracketed. destruct (strip_prefix "[" h) as [x|] eqn:Hx; bind_simpl; [|tauto].
    destruct (strip_suffix "]" x) as [y|] eqn:Hy; cbn [default from_option id]; [|tauto].
    apply strip_prefix_Some in Hx as ->. apply strip_suffix_Some in Hy as ->.
    rewrite !elem_of_app. tauto. }
  destruct (parse_ip (unbracketed h)) as [ip|] eqn:Hip.
  { injection H as <-. left. by apply parse_ip_ok in Hip. }
  case_match eqn:Hill; [done|]. injection H as <-.
  destruct (decide (unbracketed h = [])) as [->|Hu]; [by right|left].
  split_and!; [done|by intros ?%Hsub|done|done|].
  apply Forall_forall. rewrite Forall_forall in Hc. auto.
Qed.

(** What [Target::parse] accepts: the port is non-zero and the host is an
    address, or a name free of delimiters, white space, control characters and
    zone identifiers that is not itself an address; the one exception is the
    empty name, which only an empty pair of brackets produces. *)
Theorem target_parse_valid (input : str) (t : Target) :
  chars_ok input → parse input = Ok t →
  0 < port t ≤ u16_max ∧ (host_ok (host t) ∨ host t = Name []).
Proof.
  intros Hc H. unfold parse in H. apply bind_Ok in H as ([h p] & Hsplit & H).
  apply bind_Ok in H as (port & Hport & H). apply bind_Ok in H as (hh & Hhost & H).
  unfold new in H. destruct (Z.eqb_spec port 0) as [|Hp0]; [done|]. injection H as <-. simpl.
  apply ok_or_Ok, from_str_radix_bound in Hport; [|done..]. split; [lia|].
  apply (parse_host_Ok h); [|done].
  assert (∃ rest, input = h ++ rest) as [rest ->]; [|by apply Forall_app in Hc as [? _]].
  destruct (rsplit_once 93 input) as [[a b]|] eqn:Hr.
  - apply bind_Ok in Hsplit as (p' & _ & Heq). injection Heq as <- <-.
    apply rsplit_once_Some in Hr as [-> _]. exists b. by rewrite <- app_assoc.
  - apply ok_or_Ok, rsplit_once_Some in Hsplit as [-> _]. eauto.
Qed.

Lemma target_parse_valid_witness :
  parse "[2001:db8::1]:443" = Ok (mkTarget (Ip (V6 0x20010db8000000000000000000000001)) 443) ∧
  0 < 443 ≤ u16_max ∧ (host_ok (Ip (V6 0x20010db8000000000000000000000001)) ∨
    Ip (V6 0x20010db8000000000000000000000001) = Name []).
Proof.
  split; [by vm_compute|].
  apply (target_parse_valid "[2001:db8::1]:443"
    (mkTarget (Ip (V6 0x20010db8000000000000000000000001)) 443)); [by_decide|by vm_compute].
Defined.

(** An empty pair of brackets slips past the empty-host check. *)
Lemma target_parse_empty_brackets : parse "[]:80" = Ok (mkTarget (Name []) 80).
Proof. done. Qed.

Lemma protocol_token_roundtrip p : protocol_from_str (upgrade_token p) = Ok p.
Proof. by destruct p. Qed.
