(* ===== verification/DgramRouter.v ===== *)
(** * Routing datagrams to tunnels

    Model of [crates/skimasque/src/dgram.rs]: one QUIC connection carries the
    datagrams of every tunnel on it.  The router hands each to the queue of the
    tunnel that registered its stream, and holds a bounded number for streams
    that have not registered yet.

    A tunnel's queue is a bounded channel shared by the routing table, the route
    handle and the receiver, so the channels live in a store and the table holds
    references into it.  [taken] logs what the receiver has read. *)

From S2P Require Import Prelude RustStr Varint Datagram.

Definition MAX_PENDING_PER_STREAM : nat := 16.
Definition MAX_PENDING_STREAMS : nat := 64.
Definition INBOUND_CAPACITY : nat := 256.

Abbreviation bytes := (list Z).

(** ** Channels *)

Record Channel : Type := mkChannel {
  route_stream : Z;
  queue : list bytes;
  taken : list bytes;
  receiver_open : bool;
}.

Definition channel (stream : Z) : Channel := mkChannel stream [] [] true.

(** [Sender::try_send]: [None] when the queue is full or the receiver is gone. *)
Definition try_send (c : Channel) (p : bytes) : option Channel :=
  if receiver_open c && (length (queue c) <? INBOUND_CAPACITY)%nat
  then Some (mkChannel (route_stream c) (queue c ++ [p]) (taken c) true)
  else None.

(** [Receiver::recv], when something is queued. *)
Definition channel_recv (c : Channel) : option (bytes * Channel) :=
  match queue c with
  | [] => None
  | p :: q => Some (p, mkChannel (route_stream c) q (taken c ++ [p]) (receiver_open c))
  end.

Definition channel_close (c : Channel) : Channel :=
  mkChannel (route_stream c) (queue c) (taken c) false.

(** ** The router *)

Record Router : Type := mkRouter {
  active : gmap Z nat;
  pending : gmap Z (list bytes);
  channels : list Channel;
}.

Definition new_router : Router := mkRouter ∅ ∅ [].

(** Replace the channel [c], if the update succeeds. *)
Definition update_channel (r : Router) (c : nat) (f : Channel → option Channel) : Router :=
  match channels r !! c ≫= f with
  | Some ch => mkRouter (active r) (pending r) (<[c := ch]> (channels r))
  | None => r
  end.

Definition push_pending (q : list bytes) (p : bytes) : list bytes :=
  (if (length q =? MAX_PENDING_PER_STREAM)%nat then tail q else q) ++ [p].

Definition deliver (r : Router) (stream : QuarterStreamId) (payload : bytes) : Router :=
  let sid := stream_id stream in
  match active r !! sid with
  | Some c => update_channel r c (λ ch, try_send ch payload)
  | None =>
      if (MAX_PENDING_STREAMS <=? size (pending r))%nat && negb (bool_decide (is_Some (pending r !! sid)))
      then r
      else mkRouter (active r)
             (<[sid := push_pending (default [] (pending r !! sid)) payload]> (pending r))
             (channels r)
  end.

(** Hand over what was buffered, until the channel refuses. *)
Fixpoint claim (c : Channel) (buffered : list bytes) : Channel :=
  match buffered with
  | [] => c
  | p :: buffered => match try_send c p with Some c => claim c buffered | None => c end
  end.

Definition register (r : Router) (sid : Z) : Router :=
  mkRouter (<[sid := length (channels r)]> (active r)) (delete sid (pending r))
    (channels r ++ [claim (channel sid) (default [] (pending r !! sid))]).

Definition unregister (r : Router) (sid : Z) : Router :=
  mkRouter (delete sid (active r)) (pending r) (channels r).

(** One turn of [read_loop]; [None] closes the connection with
    [H3_DATAGRAM_ERROR]. *)
Definition read_one (r : Router) (raw : bytes) : option Router :=
  match decode_http3_datagram raw with
  | Ok (stream, payload) => Some (deliver r stream payload)
  | Err _ => None
  end.

(** ** Sending *)

(** What [send] hands to the connection; [None] is an [expect] panic. *)
Definition send_wire (sid : Z) (payload : bytes) : option bytes :=
  q ← result_ok (from_stream_id sid); encode_http3_datagram q payload.

Definition max_payload_size (max_datagram_size : option nat) (sid : Z) : option nat :=
  q ← result_ok (from_stream_id sid);
  let overhead := Varint.encoded_len q in
  limit ← max_datagram_size;
  if (limit <? overhead)%nat then None else Some (limit - overhead)%nat.

(** ** Everything that can happen to a router *)

Inductive event : Type :=
  | Deliver (stream : QuarterStreamId) (payload : bytes)
  | Register (sid : Z)
  | Unregister (sid : Z)
  | Inject (c : nat) (payload : bytes)
  | Recv (c : nat)
  | Close (c : nat).

Definition step (r : Router) (e : event) : Router :=
  match e with
  | Deliver stream payload => deliver r stream payload
  | Register sid => register r sid
  | Unregister sid => unregister r sid
  | Inject c p => update_channel r c (λ ch, try_send ch p)
  | Recv c => update_channel r c (λ ch, snd <$> channel_recv ch)
  | Close c => update_channel r c (λ ch, Some (channel_close ch))
  end.

Definition run (r : Router) (evs : list event) : Router := fold_left step evs r.

(** ** What reaches a tunnel *)

(** The payloads an event brings in for stream [sid]. *)
Definition delivers (sid : Z) (e : event) : list bytes :=
  match e with
  | Deliver q p => if stream_id q =? sid then [p] else []
  | _ => []
  end.

(** ... and for the tunnel of channel [c], which also takes capsules. *)
Definition concerns (sid : Z) (c : nat) (e : event) : list bytes :=
  match e with
  | Inject c' p => if (c' =? c)%nat then [p] else []
  | _ => delivers sid e
  end.

Definition deliveries (sid : Z) (evs : list event) : list bytes := flat_map (delivers sid) evs.
Definition arrivals (sid : Z) (c : nat) (evs : list event) : list bytes := flat_map (concerns sid c) evs.

(** Everything the channel ever accepted. *)
Definition log (ch : Channel) : list bytes := taken ch ++ queue ch.

Definition chan_ok (evs : list event) (c : nat) (ch : Channel) : Prop :=
  log ch `sublist_of` arrivals (route_stream ch) c evs ∧ (length (queue ch) ≤ INBOUND_CAPACITY)%nat.

Definition pending_ok (evs : list event) (sid : Z) (q : list bytes) : Prop :=
  q `sublist_of` deliveries sid evs ∧ (1 ≤ length q ≤ MAX_PENDING_PER_STREAM)%nat.

Definition router_inv (evs : list event) (r : Router) : Prop :=
  (∀ c ch, channels r !! c = Some ch → chan_ok evs c ch) ∧
  (∀ sid q, pending r !! sid = Some q → pending_ok evs sid q) ∧
  (size (pending r) ≤ MAX_PENDING_STREAMS)%nat ∧
  (∀ sid c, active r !! sid = Some c →
     pending r !! sid = None ∧ ∃ ch, channels r !! c = Some ch ∧ route_stream ch = sid).

Lemma arrivals_snoc sid c evs e : arrivals sid c (evs ++ [e]) = arrivals sid c evs ++ concerns sid c e.
Proof. unfold arrivals. rewrite flat_map_app. cbn. by rewrite app_nil_r. Qed.

Lemma deliveries_snoc sid evs e : deliveries sid (evs ++ [e]) = deliveries sid evs ++ delivers sid e.
Proof. unfold deliveries. rewrite flat_map_app. cbn. by rewrite app_nil_r. Qed.

Lemma chan_ok_snoc evs e c ch : chan_ok evs c ch → chan_ok (evs ++ [e]) c ch.
Proof.
  intros [Hs Hl]. split; [|done]. rewrite arrivals_snoc. by apply sublist_inserts_r.
Qed.

Lemma pending_ok_snoc evs e sid q : pending_ok evs sid q → pending_ok (evs ++ [e]) sid q.
Proof. intros [Hs Hl]. split; [|done]. rewrite deliveries_snoc. by apply sublist_inserts_r. Qed.

Lemma deliveries_arrivals sid c evs : deliveries sid evs `sublist_of` arrivals sid c evs.
Proof.
  unfold deliveries, arrivals. induction evs as [|e evs IH]; cbn [flat_map]; [done|].
  apply sublist_app; [|done]. destruct e; cbn; done || apply sublist_nil_l.
Qed.

Lemma try_send_ok evs e c ch ch' p :
  try_send ch p = Some ch' → chan_ok evs c ch → concerns (route_stream ch) c e = [p] →
  chan_ok (evs ++ [e]) c ch' ∧ route_stream ch' = route_stream ch.
Proof.
  unfold try_send. destruct (receiver_open ch); cbn [andb]; [|done].
  destruct (Nat.ltb_spec (length (queue ch)) INBOUND_CAPACITY) as [Hl|]; [|done].
  intros [= <-] [Hs _] Hc. split; [|done]. split; cbn [route_stream queue taken].
  - rewrite arrivals_snoc, Hc. unfold log. cbn [taken queue]. rewrite app_assoc. by apply sublist_app.
  - rewrite length_app. cbn. lia.
Qed.

(** An event that touches one channel only. *)
Lemma update_channel_inv evs e r c f :
  router_inv evs r →
  (∀ ch ch', channels r !! c = Some ch → chan_ok evs c ch → f ch = Some ch' →
     chan_ok (evs ++ [e]) c ch' ∧ route_stream ch' = route_stream ch) →
  router_inv (evs ++ [e]) (update_channel r c f).
Proof.
  intros (Hch & Hp & Hsz & Ha) Hf. unfold update_channel.
  assert (router_inv (evs ++ [e]) r) as Hsame.
  { split_and!; [|eauto using pending_ok_snoc|done|done]. eauto using chan_ok_snoc. }
  destruct (channels r !! c) as [ch|] eqn:Hc; [|done]. cbn [mbind option_bind].
  destruct (f ch) as [ch'|] eqn:Hf'; [|done].
  destruct (Hf ch ch' eq_refl (Hch _ _ Hc) Hf') as [Hok Hst].
  split_and!; cbn [channels pending active]; [|eauto using pending_ok_snoc|done|].
  - intros k x Hk. apply list_lookup_insert_Some in Hk as [(-> & -> & _)|[_ Hk]]; [done|].
    eauto using chan_ok_snoc.
  - intros sid k Hk. destruct (Ha sid k Hk) as (Hn & x & Hx & Hxs). split; [done|].
    destruct (decide (k = c)) as [->|Hne].
    + exists ch'. rewrite list_lookup_insert_eq by (by eapply lookup_lt_Some).
      split; [done|]. rewrite Hst. congruence.
    + exists x. by rewrite list_lookup_insert_ne.
Qed.

(** ** Each event keeps the invariant *)

Lemma push_pending_ok q p :
  (length q ≤ MAX_PENDING_PER_STREAM)%nat →
  push_pending q p `sublist_of` q ++ [p] ∧ (1 ≤ length (push_pending q p) ≤ MAX_PENDING_PER_STREAM)%nat.
Proof.
  intros Hl. unfold push_pending. destruct (Nat.eqb_spec (length q) MAX_PENDING_PER_STREAM) as [He|Hne].
  - split; [apply sublist_app; [by destruct q; [|apply sublist_cons]|done]|].
    rewrite length_app, length_tl. cbn. unfold MAX_PENDING_PER_STREAM in *. lia.
  - split; [done|]. rewrite length_app. cbn. lia.
Qed.

Lemma deliver_inv evs r q p :
  router_inv evs r → router_inv (evs ++ [Deliver q p]) (deliver r q p).
Proof.
  intros Hinv. pose proof Hinv as (Hch & Hp & Hsz & Ha). unfold deliver.
  destruct (active r !! stream_id q) as [c|] eqn:Hact.
  - apply update_channel_inv; [done|]. intros ch ch' Hc Hok Hs.
    eapply try_send_ok; [done..|]. destruct (Ha _ _ Hact) as (_ & x & Hx & Hxs).
    rewrite Hc in Hx. injection Hx as <-. cbn. rewrite Hxs. by rewrite Z.eqb_refl.
  - case_match eqn:Hfull.
    { split_and!; eauto using chan_ok_snoc, pending_ok_snoc. }
    set (old := default [] (pending r !! stream_id q)).
    assert (old `sublist_of` deliveries (stream_id q) evs ∧ (length old ≤ MAX_PENDING_PER_STREAM)%nat)
      as [Hold Hlen].
    { subst old. destruct (pending r !! stream_id q) as [l|] eqn:Hl; cbn.
      - destruct (Hp _ _ Hl) as [? ?]. split; [done|lia].
      - split; [apply sublist_nil_l|unfold MAX_PENDING_PER_STREAM; lia]. }
    destruct (push_pending_ok old p Hlen) as [Hsub Hl'].
    split_and!; cbn [channels pending active]; [eauto using chan_ok_snoc|..].
    + intros sid l Hl. apply lookup_insert_Some in Hl as [[<- <-]|[_ Hl]]; [|eauto using pending_ok_snoc].
      split; [|done]. rewrite deliveries_snoc. cbn. rewrite Z.eqb_refl.
      etrans; [exact Hsub|]. by apply sublist_app.
    + destruct (pending r !! stream_id q) as [l|] eqn:Hl.
      * rewrite map_size_insert_Some; eauto.
      * rewrite map_size_insert_None by done. rewrite bool_decide_eq_false_2 in Hfull by (by intros [? ?]).
        rewrite andb_true_r in Hfull. apply Nat.leb_gt in Hfull. lia.
    + intros sid c Hc. destruct (Ha sid c Hc) as [Hn Hx]. split; [|done].
      rewrite lookup_insert_ne; [done|]. intros <-. congruence.
Qed.

(** A fresh channel has room for everything a stream may have pending. *)
Lemma claim_all ch l :
  receiver_open ch = true → (length (queue ch) + length l ≤ INBOUND_CAPACITY)%nat →
  claim ch l = mkChannel (route_stream ch) (queue ch ++ l) (taken ch) true.
Proof.
  revert ch. induction l as [|p l IH]; intros ch Ho Hl; cbn [claim length] in *.
  - rewrite app_nil_r. destruct ch. cbn in *. by subst.
  - unfold try_send. rewrite Ho. cbn [andb].
    destruct (Nat.ltb_spec (length (queue ch)) INBOUND_CAPACITY); [|lia].
    rewrite IH; [|done|cbn [queue]; rewrite length_app; cbn; lia].
    cbn [route_stream queue taken]. by rewrite <- app_assoc.
Qed.

Lemma claim_channel sid l :
  (length l ≤ MAX_PENDING_PER_STREAM)%nat → claim (channel sid) l = mkChannel sid l [] true.
Proof.
  intros Hl. rewrite claim_all; [done|done|]. cbn. unfold MAX_PENDING_PER_STREAM, INBOUND_CAPACITY in *. lia.
Qed.

Lemma register_inv evs r sid :
  router_inv evs r → router_inv (evs ++ [Register sid]) (register r sid).
Proof.
  intros (Hch & Hp & Hsz & Ha). unfold register.
  assert (default [] (pending r !! sid) `sublist_of` deliveries sid evs ∧
    (length (default [] (pending r !! sid)) ≤ MAX_PENDING_PER_STREAM)%nat) as [Hsub Hlen].
  { destruct (pending r !! sid) as [l|] eqn:Hl; cbn; [destruct (Hp _ _ Hl) as [? ?]; split; [done|lia]|].
    split; [apply sublist_nil_l|unfold MAX_PENDING_PER_STREAM; lia]. }
  rewrite claim_channel by done. split_and!; cbn [channels pending active].
  - intros c ch Hc. apply lookup_snoc_Some in Hc as [[_ Hc]|[-> <-]]; [eauto using chan_ok_snoc|].
    apply chan_ok_snoc. split; cbn [route_stream queue].
    + unfold log. cbn [taken queue app]. etrans; [exact Hsub|apply deliveries_arrivals].
    + unfold MAX_PENDING_PER_STREAM, INBOUND_CAPACITY in *. lia.
  - intros s q Hq. apply lookup_delete_Some in Hq as [_ Hq]. eauto using pending_ok_snoc.
  - rewrite map_size_delete. etrans; [|exact Hsz]. destruct (pending r !! sid); cbn; lia.
  - intros s c Hc. apply lookup_insert_Some in Hc as [[<- <-]|[Hne Hc]].
    + rewrite lookup_delete_eq. split; [done|]. eexists. by rewrite (list_lookup_middle _ []).
    + destruct (Ha s c Hc) as (Hn & ch & Hx & Hs). rewrite lookup_delete_ne by done. split; [done|].
      exists ch. split; [|done]. by apply lookup_app_l_Some.
Qed.

Lemma step_inv evs r e : router_inv evs r → router_inv (evs ++ [e]) (step r e).
Proof.
  intros Hinv. pose proof Hinv as (Hch & Hp & Hsz & Ha).
  destruct e as [q p|sid|sid|c p|c|c]; cbn [step].
  - by apply deliver_inv.
  - by apply register_inv.
  - unfold unregister. split_and!; cbn [channels pending active]; eauto using chan_ok_snoc, pending_ok_snoc.
    intros s c Hc. apply lookup_delete_Some in Hc as [_ Hc]. auto.
  - apply update_channel_inv; [done|]. intros ch ch' _ Hok Hs. eapply try_send_ok; [done..|].
    cbn. by rewrite Nat.eqb_refl.
  - apply update_channel_inv; [done|]. intros ch ch' _ [Hs Hl] Hf. unfold channel_recv in Hf.
    destruct (queue ch) as [|x q] eqn:Hq; [done|]. injection Hf as <-. split; [|done].
    apply chan_ok_snoc. unfold chan_ok, log in *. rewrite Hq in *. cbn [taken queue route_stream length] in *.
    rewrite <- app_assoc. split; [done|lia].
  - apply update_channel_inv; [done|]. intros ch ch' _ Hok [= <-]. split; [|done].
    apply chan_ok_snoc. exact Hok.
Qed.

Lemma run_snoc r evs e : run r (evs ++ [e]) = step (run r evs) e.
Proof. unfold run. by rewrite fold_left_app. Qed.

Lemma run_inv evs : router_inv evs (run new_router evs).
Proof.
  induction evs as [|e evs IH] using rev_ind.
  - split_and!; cbn [run fold_left new_router channels pending active].
    + by intros c ch ?.
    + by intros s q ?.
    + rewrite map_size_empty. apply Nat.le_0_l.
    + by intros s c ?.
  - rewrite run_snoc. by apply step_inv.
Qed.

(** The streams a router is holding datagrams for. *)
Lemma deliver_pending_mono r q p sid :
  is_Some (pending r !! sid) → is_Some (pending (deliver r q p) !! sid).
Proof.
  intros Hs. unfold deliver. destruct (active r !! stream_id q) as [c|].
  - unfold update_channel. by destruct (_ ≫= _).
  - case_match; [done|]. cbn [pending]. destruct (decide (stream_id q = sid)) as [->|Hne].
    + rewrite lookup_insert_eq. eauto.
    + by rewrite lookup_insert_ne.
Qed.

(** Repeated deliveries to a stream nobody has claimed keep its last datagrams. *)
Definition last_n (n : nat) (l : list bytes) : list bytes := drop (length l - n) l.

Lemma push_pending_last l p :
  push_pending (last_n MAX_PENDING_PER_STREAM l) p = last_n MAX_PENDING_PER_STREAM (l ++ [p]).
Proof.
  unfold push_pending, last_n. rewrite length_drop, length_app. cbn [length].
  assert (0 < MAX_PENDING_PER_STREAM)%nat as Hpos by (unfold MAX_PENDING_PER_STREAM; lia).
  revert Hpos. generalize MAX_PENDING_PER_STREAM. intros n Hpos.
  destruct (Nat.eqb_spec (length l - (length l - n)) n) as [He|Hne].
  - replace (length l + 1 - n)%nat with (S (length l - n))%nat by lia.
    rewrite drop_app_le by lia. f_equal. rewrite <- Nat.add_1_r, <- drop_drop. by destruct (drop _ l).
  - replace (length l + 1 - n)%nat with 0%nat by lia.
    replace (length l - n)%nat with 0%nat by lia. done.
Qed.

Lemma deliver_unclaimed r q p :
  active r !! stream_id q = None →
  (size (pending r) < MAX_PENDING_STREAMS)%nat ∨ is_Some (pending r !! stream_id q) →
  deliver r q p = mkRouter (active r)
    (<[stream_id q := push_pending (default [] (pending r !! stream_id q)) p]> (pending r)) (channels r).
Proof.
  intros Ha Hp. unfold deliver. rewrite Ha. case_match eqn:Hf; [|done].
  apply andb_true_iff in Hf as [Hf%Nat.leb_le Hn%negb_true_iff%bool_decide_eq_false].
  destruct Hp; [lia|done].
Qed.

Lemma deliver_many r q ps :
  active r !! stream_id q = None → pending r !! stream_id q = None →
  (size (pending r) < MAX_PENDING_STREAMS)%nat → ps ≠ [] →
  run r (map (Deliver q) ps) =
    mkRouter (active r) (<[stream_id q := last_n MAX_PENDING_PER_STREAM ps]> (pending r)) (channels r).
Proof.
  intros Ha Hp Hsz. induction ps as [|p ps IH] using rev_ind; [done|]. intros _.
  rewrite map_app. cbn [map]. rewrite run_snoc. cbn [step].
  destruct (decide (ps = [])) as [->|Hne].
  - cbn [map run fold_left]. rewrite deliver_unclaimed, Hp by auto. done.
  - rewrite IH by done. rewrite deliver_unclaimed; cbn [active pending channels].
    + rewrite lookup_insert_eq, insert_insert_eq. cbn [default from_option id]. by rewrite push_pending_last.
    + done.
    + right. rewrite lookup_insert_eq. eauto.
Qed.

(** ** Correctness *)

(** C33.  Tunnels are isolated and ordered: whatever a router goes through, what a
    tunnel has read and still has queued is a subsequence, in order of arrival,
    of the datagrams addressed to its own stream and the capsules of its own
    request; nothing of another tunnel's ever reaches it. *)
Theorem router_isolates (evs : list event) (c : nat) (ch : Channel) :
  channels (run new_router evs) !! c = Some ch →
  taken ch ++ queue ch `sublist_of` arrivals (route_stream ch) c evs.
Proof. intros Hc. destruct (run_inv evs) as (Hch & _). by apply (Hch c ch Hc). Qed.

Definition sample_events : list event :=
  [Deliver 1 [7]; Deliver 2 [8]; Register 4; Deliver 1 [9]; Recv 0%nat; Inject 0%nat [5]].

Lemma router_isolates_witness :
  channels (run new_router sample_events) !! 0%nat = Some (mkChannel 4 [[9]; [5]] [[7]] true) ∧
  [[7]] ++ [[9]; [5]] `sublist_of` arrivals 4 0 sample_events.
Proof.
  split; [by vm_compute|].
  apply (router_isolates sample_events 0 (mkChannel 4 [[9]; [5]] [[7]] true)). by vm_compute.
Defined.

(** Memory is bounded: in every state a router can reach, at most 64 streams
    hold early datagrams, each at least one and at most 16 of them; no tunnel has
    more than 256 queued; and a stream is never both registered and pending. *)
Theorem router_bounded (evs : list event) :
  let r := run new_router evs in
  (size (pending r) ≤ MAX_PENDING_STREAMS)%nat ∧
  (∀ sid q, pending r !! sid = Some q → (1 ≤ length q ≤ MAX_PENDING_PER_STREAM)%nat) ∧
  (∀ c ch, channels r !! c = Some ch → (length (queue ch) ≤ INBOUND_CAPACITY)%nat) ∧
  (∀ sid, is_Some (active r !! sid) → pending r !! sid = None).
Proof.
  destruct (run_inv evs) as (Hch & Hp & Hsz & Ha). split_and!; [done|..].
  - intros sid q Hq. by apply (Hp sid q).
  - intros c ch Hc. by apply (Hch c ch).
  - intros sid [c Hc]. by apply (Ha sid c).
Qed.

(** Early datagrams are not lost: those that arrive for a stream before its
    tunnel registers, while the router has room, are handed over on registration
    in order, the most recent sixteen if there were more. *)
Theorem early_datagrams_claimed (r : Router) (q : QuarterStreamId) (ps : list bytes) :
  active r !! stream_id q = None → pending r !! stream_id q = None →
  (size (pending r) < MAX_PENDING_STREAMS)%nat → ps ≠ [] →
  let r' := register (run r (map (Deliver q) ps)) (stream_id q) in
  pending r' = pending r ∧ active r' !! stream_id q = Some (length (channels r)) ∧
  channels r' = channels r ++ [mkChannel (stream_id q) (last_n MAX_PENDING_PER_STREAM ps) [] true].
Proof.
  intros Ha Hp Hsz Hne r'. subst r'. rewrite deliver_many by done. unfold register.
  cbn [active pending channels]. rewrite !lookup_insert_eq. cbn [default from_option id].
  assert (length (last_n MAX_PENDING_PER_STREAM ps) ≤ MAX_PENDING_PER_STREAM)%nat as Hl
    by (unfold last_n; rewrite length_drop; lia).
  rewrite claim_channel by exact Hl.
  split_and!; [by rewrite delete_insert_id|done..].
Qed.

Lemma early_datagrams_claimed_witness :
  let r' := register (run new_router (map (Deliver 1) [[7]; [8]])) (stream_id 1) in
  pending r' = ∅ ∧ active r' !! 4 = Some 0%nat ∧ channels r' = [mkChannel 4 [[7]; [8]] [] true].
Proof.
  apply (early_datagrams_claimed new_router 1 [[7]; [8]]); [done|done|vm_compute; lia|done].
Defined.

(** What [max_payload_size] promises holds: on a request stream, a payload of
    at most that size is framed within the path's datagram limit, and the frame
    is delivered by the peer's router as that payload on that stream. *)
Theorem sized_payload_fits (limit size : nat) (sid : Z) (payload : bytes) (r : Router) :
  0 ≤ sid ≤ Varint.MAX → max_payload_size (Some limit) sid = Some size →
  (length payload ≤ size)%nat →
  ∃ wire, send_wire sid payload = Some wire ∧ (length wire ≤ limit)%nat ∧
    read_one r wire = Some (deliver r (sid / 4) payload) ∧ stream_id (sid / 4) = sid.
Proof.
  intros Hs Hm Hp. assert (sid mod 4 = 0) as H4.
  { unfold max_payload_size, from_stream_id in Hm. destruct (Z.eqb_spec (sid mod 4) 0); [done|by cbn in Hm]. }
  destruct (http3_datagram_frame sid payload Hs H4) as (Hq & Hsid & wire & He & Hd & Hl).
  exists wire. unfold send_wire, read_one. rewrite Hq, Hd. cbn [result_ok mbind option_bind].
  split_and!; [done| |done|done]. unfold max_payload_size in Hm. rewrite Hq in Hm.
  cbn [result_ok mbind option_bind] in Hm.
  destruct (Nat.ltb_spec limit (Varint.encoded_len (sid / 4))); [done|]. injection Hm as <-. lia.
Qed.

Lemma sized_payload_fits_witness :
  max_payload_size (Some 4%nat) 256 = Some 2%nat ∧
  ∃ wire, send_wire 256 [1; 2] = Some wire ∧ (length wire ≤ 4)%nat ∧
    read_one new_router wire = Some (deliver new_router 64 [1; 2]) ∧ stream_id 64 = 256.
Proof.
  split; [by vm_compute|]. apply (sized_payload_fits 4 2 256 [1; 2] new_router); [by vm_compute..|cbn; lia].
Defined.

(** Nothing but a registration ever frees a stream's slot: once 64 streams that
    never register hold early datagrams, those of every other unregistered
    stream are dropped for the life of the connection. *)
Lemma pending_slots_never_freed r q p sid :
  is_Some (pending r !! sid) → is_Some (pending (deliver r q p) !! sid).
Proof. apply deliver_pending_mono. Qed.

Lemma full_router_drops r q p :
  size (pending r) = MAX_PENDING_STREAMS → active r !! stream_id q = None →
  pending r !! stream_id q = None → deliver r q p = r.
Proof.
  intros Hsz Ha Hp. unfold deliver. rewrite Ha, Hp, Hsz. cbn [MAX_PENDING_STREAMS].
  by rewrite Nat.leb_refl, bool_decide_eq_false_2 by (by intros [? ?]).
Qed.
