(* ===== verification/ConnectIp.v ===== *)
(** * CONNECT-IP control capsules

    Model of [crates/skimasque-core/src/connect_ip.rs] (RFC 9484): IP prefixes,
    the three control capsules with their encoder and decoder, the ordering rule
    of route advertisements, the scope of a request, and the packet payload.

    A decoding helper takes [&mut &[u8]] in the code and returns the value with
    the advanced slice here; a slice is local to one [from_capsule] call, so its
    position after an error is never observed. *)

From S2P Require Import Prelude RustStr RustNet Varint Capsule Datagram Template.

Definition IPPROTO_ANY : Z := 0.
Definition WILDCARD : str := "*".

Inductive Error : Type :=
  | Malformed (why : str)
  | BadIpVersion (version : Z)
  | PrefixTooLong (prefix_len bits : Z)
  | PrefixHostBitsSet (addr : IpAddr) (prefix_len : Z)
  | RangeReversed (start end_ : IpAddr)
  | RangeFamilyMismatch
  | EmptyAddressRequest
  | ZeroRequestId
  | RoutesOutOfOrder
  | BadIpProtocol (raw : str)
  | TemplateError (e : Template.Error).

(** ** Prefixes *)

Definition address_bits (addr : IpAddr) : Z := match addr with V4 _ => 32 | V6 _ => 128 end.

(** [MAX << (w - prefix_len)] on a [w]-bit unsigned integer, 0 for a /0. *)
Definition mask (w prefix_len : Z) : Z :=
  if prefix_len =? 0 then 0 else wrap w (Z.shiftl (2 ^ w - 1) (w - prefix_len)).

Definition masked (addr : IpAddr) (prefix_len : Z) : IpAddr :=
  match addr with
  | V4 bits => V4 (Z.land bits (mask 32 prefix_len))
  | V6 bits => V6 (Z.land bits (mask 128 prefix_len))
  end.

Record IpPrefix : Type := mkPrefix { addr : IpAddr; prefix_len : Z }.
#[global] Instance IpPrefix_eq_dec : EqDecision IpPrefix.
Proof. solve_decision. Defined.

Definition new_prefix (a : IpAddr) (len : Z) : result Error IpPrefix :=
  let bits := address_bits a in
  if bits <? len then Err (PrefixTooLong len bits)
  else if bool_decide (masked a len = a) then Ok (mkPrefix a len)
  else Err (PrefixHostBitsSet a len).

Definition host_prefix (a : IpAddr) : IpPrefix := mkPrefix a (address_bits a).
Definition unspecified (v6 : bool) : IpPrefix := host_prefix (if v6 then V6 0 else V4 0).
Definition is_unspecified_host (p : IpPrefix) : bool :=
  (prefix_len p =? address_bits (addr p)) && is_unspecified (addr p).

Definition version_byte (a : IpAddr) : Z := match a with V4 _ => 4 | V6 _ => 6 end.
Definition put_address (out : list Z) (a : IpAddr) : list Z := out ++ octets a.

Definition encode_prefix_into (p : IpPrefix) (out : list Z) : list Z :=
  put_address (out ++ [version_byte (addr p)]) (addr p) ++ [prefix_len p].

Definition take_u8 (input : list Z) : result Error (Z * list Z) :=
  match input with
  | [] => Err (Malformed "capsule value ended early")
  | first :: rest => Ok (first, rest)
  end.

Definition take_varint (input : list Z) : result Error (Z * list Z) :=
  match Varint.take_slice input with
  | (Ok v, rest) => Ok (v, rest)
  | (Err _, _) => Err (Malformed "capsule value ended mid-varint")
  end.

Definition decode_address_of_version (input : list Z) (version : Z)
    : result Error (IpAddr * list Z) :=
  len ← (if version =? 4 then Ok 4%nat else if version =? 6 then Ok 16%nat
         else Err (BadIpVersion version));
  if (length input <? len)%nat then Err (Malformed "capsule value ended mid-address")
  else
    let bits := from_be_bytes (take len input) in
    Ok (if version =? 4 then V4 bits else V6 bits, drop len input).

Definition decode_versioned_address (input : list Z) : result Error (IpAddr * list Z) :=
  '(version, input) ← take_u8 input; decode_address_of_version input version.

Definition decode_prefix (input : list Z) : result Error (IpPrefix * list Z) :=
  '(a, input) ← decode_versioned_address input;
  '(len, input) ← take_u8 input;
  p ← new_prefix a len;
  Ok (p, input).

(** [Display]. *)
Definition display_prefix (p : IpPrefix) : str :=
  display_ip (addr p) ++ "/" ++ to_string (prefix_len p).

(** ** Capsules *)

(** [AssignedAddress] and [RequestedAddress] have the same two fields. *)
Record AddressEntry : Type := mkEntry { request_id : Z; prefix : IpPrefix }.

Record IpAddressRange : Type := mkRange { start : IpAddr; end_ : IpAddr; protocol : Z }.

Definition new_range (s e : IpAddr) (proto : Z) : result Error IpAddressRange :=
  match s, e with
  | V4 a, V4 b => if b <? a then Err (RangeReversed s e) else Ok (mkRange s e proto)
  | V6 a, V6 b => if b <? a then Err (RangeReversed s e) else Ok (mkRange s e proto)
  | _, _ => Err RangeFamilyMismatch
  end.

Definition version (r : IpAddressRange) : Z := if is_ipv4 (start r) then 4 else 6.

Inductive IpCapsule : Type :=
  | AddressAssign (addresses : list AddressEntry)
  | AddressRequest (addresses : list AddressEntry)
  | RouteAdvertisement (ranges : list IpAddressRange).

Definition capsule_type (c : IpCapsule) : CapsuleType :=
  match c with
  | AddressAssign _ => ADDRESS_ASSIGN
  | AddressRequest _ => ADDRESS_REQUEST
  | RouteAdvertisement _ => ROUTE_ADVERTISEMENT
  end.

(** [a] may come directly before [b]. *)
Definition ordered (a b : IpAddressRange) : bool :=
  match version a ?= version b with
  | Lt => true
  | Gt => false
  | Eq => match protocol a ?= protocol b with
          | Lt => true
          | Gt => false
          | Eq => ip_ltb (end_ a) (start b)
          end
  end.

Fixpoint check_route_ordering (ranges : list IpAddressRange) : result Error unit :=
  match ranges with
  | a :: ((b :: _) as rest) =>
      if ordered a b then check_route_ordering rest else Err RoutesOutOfOrder
  | _ => Ok tt
  end.

Definition encode_entry (e : AddressEntry) (value : list Z) : result Error (list Z) :=
  value ← map_err (λ _, Malformed "request id exceeds the varint maximum")
            (Varint.encode (request_id e) value);
  Ok (encode_prefix_into (prefix e) value).

Fixpoint encode_entries (check_zero : bool) (es : list AddressEntry) (value : list Z)
    : result Error (list Z) :=
  match es with
  | [] => Ok value
  | e :: es =>
      if check_zero && (request_id e =? 0) then Err ZeroRequestId
      else value ← encode_entry e value; encode_entries check_zero es value
  end.

Definition encode_range (value : list Z) (r : IpAddressRange) : list Z :=
  put_address (put_address (value ++ [version r]) (start r)) (end_ r) ++ [protocol r].

Definition to_capsule (c : IpCapsule) : result Error Capsule :=
  value ←
    match c with
    | AddressAssign es => encode_entries false es []
    | AddressRequest [] => Err EmptyAddressRequest
    | AddressRequest es => encode_entries true es []
    | RouteAdvertisement ranges =>
        _ ← check_route_ordering ranges;
        Ok (fold_left encode_range ranges [])
    end;
  Ok (Capsule.new (capsule_type c) value).

(** [while !input.is_empty()]: each turn consumes at least one byte. *)
Fixpoint decode_all {A} (item : list Z → result Error (A * list Z)) (fuel : nat) (input : list Z)
    : result Error (list A) :=
  match fuel, input with
  | _, [] => Ok []
  | O, _ => Err (Malformed "out of fuel")
  | S fuel, _ =>
      '(x, input) ← item input;
      xs ← decode_all item fuel input;
      Ok (x :: xs)
  end.

Definition decode_entry (check_zero : bool) (input : list Z)
    : result Error (AddressEntry * list Z) :=
  '(id, input) ← take_varint input;
  if check_zero && (id =? 0) then Err ZeroRequestId
  else '(p, input) ← decode_prefix input; Ok (mkEntry id p, input).

Definition decode_range (input : list Z) : result Error (IpAddressRange * list Z) :=
  '(version, input) ← take_u8 input;
  '(s, input) ← decode_address_of_version input version;
  '(e, input) ← decode_address_of_version input version;
  '(proto, input) ← take_u8 input;
  r ← new_range s e proto;
  Ok (r, input).

(** The loops leave nothing of the value unread, so the trailing-bytes check of
    the code never fires. *)
Definition from_capsule (c : Capsule) : result Error (option IpCapsule) :=
  let input := value c in
  let fuel := length input in
  if kind c =? ADDRESS_ASSIGN then
    es ← decode_all (decode_entry false) fuel input; Ok (Some (AddressAssign es))
  else if kind c =? ADDRESS_REQUEST then
    es ← decode_all (decode_entry true) fuel input;
    match es with
    | [] => Err EmptyAddressRequest
    | _ => Ok (Some (AddressRequest es))
    end
  else if kind c =? ROUTE_ADVERTISEMENT then
    ranges ← decode_all decode_range fuel input;
    _ ← check_route_ordering ranges;
    Ok (Some (RouteAdvertisement ranges))
  else Ok None.

(** ** Packets *)

Definition encode_packet (packet : list Z) : option (list Z) :=
  Datagram.encode (default_context packet).

Inductive Incoming : Type :=
  | Packet (packet : list Z)
  | UnknownContext (context : ContextId) (payload : list Z).

Definition decode_packet (payload : list Z) : result Datagram.Error Incoming :=
  p ← Datagram.decode payload;
  Ok (if is_default (context p) then Packet (Datagram.payload p)
      else UnknownContext (context p) (Datagram.payload p)).

(** ** Scope *)

Record IpScope : Type := mkScope { target : option str; scope_protocol : option Z }.

Definition any : IpScope := mkScope None None.

Definition scope_values (s : IpScope) (t : UriTemplate) : values_map :=
  let values : values_map :=
    if existsb (str_eqb "target") (variables t)
    then {[ "target" : str := default WILDCARD (target s) ]} else ∅ in
  if existsb (str_eqb "ipproto") (variables t)
  then <["ipproto" : str := match scope_protocol s with Some p => to_string p | None => WILDCARD end]> values
  else values.

Definition expand_path (s : IpScope) (t : UriTemplate) : result Error str :=
  map_err TemplateError (Template.expand_path t (scope_values s t)).

(** A variable that is absent or the wildcard asks for nothing in particular. *)
Definition unless_wildcard (v : option str) : option str :=
  match v with
  | None => None
  | Some v => if str_eqb v WILDCARD then None else Some v
  end.

Definition scope_from_path (t : UriTemplate) (path : str) : result Error IpScope :=
  values ← ok_or (match_path t path) (TemplateError (MissingVariable "target"));
  let target := unless_wildcard (values !! ("target" : str)) in
  proto ← match unless_wildcard (values !! ("ipproto" : str)) with
          | None => Ok None
          | Some raw => p ← ok_or (parse_u8 raw) (BadIpProtocol raw); Ok (Some p)
          end;
  Ok (mkScope target proto).

(** ** Prefix arithmetic *)

Lemma mask_shift w len :
  0 ≤ len ≤ w → mask w len = Z.shiftl (Z.ones len) (w - len).
Proof.
  intros H. unfold mask. destruct (Z.eqb_spec len 0) as [->|Hl]; [by rewrite Z.shiftl_0_l|].
  unfold wrap. rewrite !Z.shiftl_mul_pow2, Z.ones_equiv by lia.
  assert (2 ^ w = 2 ^ len * 2 ^ (w - len)) as Hw by (rewrite <- Z.pow_add_r by lia; f_equal; lia).
  assert (0 < 2 ^ len) by (apply Z.pow_pos_nonneg; lia).
  assert (0 < 2 ^ (w - len)) by (apply Z.pow_pos_nonneg; lia).
  symmetry. apply (Z.mod_unique_pos _ _ (2 ^ (w - len) - 1)); rewrite Hw; nia.
Qed.

Lemma land_mask w len b :
  0 ≤ len ≤ w → 0 ≤ b < 2 ^ w → Z.land b (mask w len) = b / 2 ^ (w - len) * 2 ^ (w - len).
Proof. intros Hl Hb. rewrite mask_shift by done. by apply land_high_bits. Qed.

Definition ip_bits (a : IpAddr) : Z := match a with V4 b | V6 b => b end.

Lemma ip_bits_bound a : ip_ok a ↔ 0 ≤ ip_bits a < 2 ^ address_bits a.
Proof. by destruct a. Qed.

Lemma masked_id a len :
  ip_ok a → 0 ≤ len ≤ address_bits a →
  masked a len = a ↔ ip_bits a mod 2 ^ (address_bits a - len) = 0.
Proof.
  intros Ha Hl.
  assert (∀ w b, 0 ≤ len ≤ w → 0 ≤ b < 2 ^ w →
    Z.land b (mask w len) = b ↔ b mod 2 ^ (w - len) = 0) as H.
  { intros w b Hw Hb. rewrite land_mask by done.
    assert (0 < 2 ^ (w - len)) by (apply Z.pow_pos_nonneg; lia).
    pose proof (Z.div_mod b (2 ^ (w - len)) ltac:(lia)). split; lia. }
  destruct a as [b|b]; cbn [masked ip_bits address_bits ip_ok] in *; rewrite <- H by done;
    split; congruence.
Qed.

Definition prefix_ok (p : IpPrefix) : Prop :=
  ip_ok (addr p) ∧ 0 ≤ prefix_len p ≤ address_bits (addr p) ∧
  ip_bits (addr p) mod 2 ^ (address_bits (addr p) - prefix_len p) = 0.

Lemma new_prefix_spec a len :
  ip_ok a → 0 ≤ len →
  match new_prefix a len with
  | Ok p => p = mkPrefix a len ∧ prefix_ok p
  | Err (PrefixTooLong l b) => l = len ∧ b = address_bits a ∧ address_bits a < len
  | Err (PrefixHostBitsSet a' l) =>
      a' = a ∧ l = len ∧ len ≤ address_bits a ∧ ip_bits a mod 2 ^ (address_bits a - len) ≠ 0
  | Err _ => False
  end.
Proof.
  intros Ha Hl. unfold new_prefix. destruct (Z.ltb_spec (address_bits a) len); [done|].
  case_bool_decide as Hm; rewrite masked_id in Hm by done; [|done].
  split; [done|]. done.
Qed.

Lemma new_prefix_ok p : prefix_ok p → new_prefix (addr p) (prefix_len p) = Ok p.
Proof.
  intros (Ha & Hl & Hm). unfold new_prefix.
  destruct (Z.ltb_spec (address_bits (addr p)) (prefix_len p)); [lia|].
  rewrite bool_decide_eq_true_2 by (by apply masked_id). by destruct p.
Qed.

(** ** Decoding what was encoded *)

Lemma address_bits_bound a : 32 ≤ address_bits a ≤ 128.
Proof. destruct a; simpl; lia. Qed.

Lemma octets_bytes_ok a : bytes_ok (octets a).
Proof. destruct a; apply be_bytes_ok. Qed.

Lemma decode_address_octets a rest :
  ip_ok a → decode_address_of_version (octets a ++ rest) (version_byte a) = Ok (a, rest).
Proof.
  intros Ha. unfold decode_address_of_version. destruct a as [b|b]; cbn [version_byte octets ip_ok] in *;
    cbn [Z.eqb Pos.eqb]; bind_simpl; rewrite length_app, length_be_bytes.
  - destruct (Nat.ltb_spec (4 + length rest) 4); [lia|].
    rewrite take_app_length', drop_app_length' by (by rewrite length_be_bytes).
    by rewrite from_be_be_bytes_small.
  - destruct (Nat.ltb_spec (16 + length rest) 16); [lia|].
    rewrite take_app_length', drop_app_length' by (by rewrite length_be_bytes).
    by rewrite from_be_be_bytes_small.
Qed.

Lemma encode_prefix_app p out : encode_prefix_into p out = out ++ encode_prefix_into p [].
Proof. unfold encode_prefix_into, put_address. by rewrite <- !app_assoc. Qed.

Lemma decode_prefix_encode p rest :
  prefix_ok p → decode_prefix (encode_prefix_into p [] ++ rest) = Ok (p, rest).
Proof.
  intros Hp. unfold decode_prefix, decode_versioned_address, encode_prefix_into, put_address.
  rewrite <- !app_assoc. cbn [app take_u8]. bind_simpl.
  rewrite decode_address_octets by apply Hp. bind_simpl. cbn [take_u8]. bind_simpl.
  by rewrite new_prefix_ok.
Qed.

Definition entry_ok (check_zero : bool) (e : AddressEntry) : Prop :=
  0 ≤ request_id e ≤ Varint.MAX ∧ prefix_ok (prefix e) ∧ (check_zero = true → request_id e ≠ 0).

(** A wire item: [item] reads it back and it is not empty. *)
Definition item_wire {A} (item : list Z → result Error (A * list Z)) (x : A) (w : list Z) : Prop :=
  w ≠ [] ∧ bytes_ok w ∧ ∀ rest, item (w ++ rest) = Ok (x, rest).

Lemma encode_entry_wire z e out :
  entry_ok z e → ∃ w, encode_entry e out = Ok (out ++ w) ∧ item_wire (decode_entry z) e w.
Proof.
  intros (Hid & Hp & Hz). unfold encode_entry.
  destruct (Varint.encode_encodes (request_id e) out) as (w & -> & _ & Hw); [done|]. bind_simpl.
  rewrite encode_prefix_app, <- app_assoc. eexists. split; [done|]. split_and!.
  - intros [-> _]%app_nil. by destruct Hw as (? & ? & ? & ? & _).
  - apply Forall_app_2; [by eapply Varint.encodes_bytes_ok|].
    unfold encode_prefix_into, put_address. repeat apply Forall_app_2.
    + constructor.
    + apply Forall_singleton. destruct (addr (prefix e)); unfold is_byte; simpl; lia.
    + apply octets_bytes_ok.
    + apply Forall_singleton. destruct Hp as (_ & Hl & _).
      pose proof (address_bits_bound (addr (prefix e))). unfold is_byte. lia.
  - intros rest. unfold decode_entry, take_varint. rewrite <- app_assoc.
    rewrite (take_slice_encodes _ _ _ Hw). bind_simpl.
    assert (z && (request_id e =? 0) = false) as ->.
    { destruct z; [|done]. simpl. apply Z.eqb_neq. auto. }
    rewrite decode_prefix_encode by done. bind_simpl. by destruct e.
Qed.

Definition range_ok (r : IpAddressRange) : Prop :=
  ip_ok (start r) ∧ ip_ok (end_ r) ∧ version_byte (start r) = version_byte (end_ r) ∧
  ip_bits (start r) ≤ ip_bits (end_ r) ∧ is_byte (protocol r).

Lemma encode_range_app value r : encode_range value r = value ++ encode_range [] r.
Proof. unfold encode_range, put_address. by rewrite <- !app_assoc. Qed.

Lemma new_range_ok r : range_ok r → new_range (start r) (end_ r) (protocol r) = Ok r.
Proof.
  destruct r as [[a|a] [b|b] p]; intros (_ & _ & Hv & Hle & _); simpl in *; try done;
    by destruct (Z.ltb_spec b a); [lia|].
Qed.

Lemma encode_range_wire r : range_ok r → item_wire decode_range r (encode_range [] r).
Proof.
  intros Hr. pose proof Hr as (Hs & He & Hv & _ & Hp).
  assert (version r = version_byte (start r)) as Hver by (by destruct r as [[] ? ?]).
  unfold encode_range, put_address. split_and!.
  - done.
  - repeat apply Forall_app_2; [constructor|..|apply octets_bytes_ok|apply octets_bytes_ok|
      by apply Forall_singleton].
    apply Forall_singleton. rewrite Hver. destruct (start r); unfold is_byte; simpl; lia.
  - intros rest. rewrite <- !app_assoc. unfold decode_range. cbn [app take_u8]. bind_simpl.
    rewrite Hver, decode_address_octets by done. bind_simpl. rewrite Hv.
    rewrite decode_address_octets by done. bind_simpl. cbn [take_u8]. bind_simpl.
    by rewrite new_range_ok.
Qed.

Lemma decode_all_wires {A} (item : list Z → result Error (A * list Z)) xs ws fuel :
  Forall2 (item_wire item) xs ws → (length (concat ws) ≤ fuel)%nat →
  decode_all item fuel (concat ws) = Ok xs.
Proof.
  intros H. revert fuel. induction H as [|x w xs ws (Hne & _ & Hw) Hws IH]; intros fuel Hf.
  { by destruct fuel. }
  cbn [concat] in *. rewrite length_app in Hf. destruct w as [|b w]; [done|].
  destruct fuel as [|fuel]; [simpl in Hf; lia|]. cbn [decode_all app length] in *.
  rewrite Hw. bind_simpl.
  by rewrite IH by lia.
Qed.

Lemma encode_entries_wires z es out :
  Forall (entry_ok z) es →
  ∃ ws, encode_entries z es out = Ok (out ++ concat ws) ∧ Forall2 (item_wire (decode_entry z)) es ws.
Proof.
  intros H. revert out. induction H as [|e es He Hes IH]; intros out.
  { exists []. rewrite app_nil_r. split; [done|constructor]. }
  destruct (encode_entry_wire z e out He) as (w & Hw & Hi). destruct (IH (out ++ w)) as (ws & Hws & HF).
  exists (w :: ws). cbn [encode_entries concat].
  assert (z && (request_id e =? 0) = false) as ->.
  { destruct z; [|done]. simpl. apply Z.eqb_neq. by apply He. }
  rewrite Hw. bind_simpl. rewrite Hws, <- app_assoc. split; [done|by constructor].
Qed.

Lemma encode_ranges_wires rs out :
  Forall range_ok rs →
  ∃ ws, fold_left encode_range rs out = out ++ concat ws ∧ Forall2 (item_wire decode_range) rs ws.
Proof.
  intros H. revert out. induction H as [|r rs Hr Hrs IH]; intros out.
  { exists []. rewrite app_nil_r. split; [done|constructor]. }
  destruct (IH (encode_range out r)) as (ws & Hws & HF). exists (encode_range [] r :: ws).
  cbn [fold_left concat]. rewrite Hws, (encode_range_app out), <- app_assoc.
  split; [done|]. constructor; [by apply encode_range_wire|done].
Qed.

(** ** What the decoder accepts *)

(** [item] on arbitrary bytes: it consumes something and yields a valid value. *)
Definition item_sound {A} (item : list Z → result Error (A * list Z)) (P : A → Prop) : Prop :=
  ∀ input x rest, bytes_ok input → item input = Ok (x, rest) →
    P x ∧ ∃ w, input = w ++ rest ∧ w ≠ [].

Lemma take_u8_sound : item_sound take_u8 is_byte.
Proof.
  intros input x rest Hok H. destruct input as [|b input]; [done|]. injection H as -> ->.
  apply Forall_cons in Hok as [? ?]. split; [done|]. by exists [x].
Qed.

Lemma take_varint_sound : item_sound take_varint (λ v, 0 ≤ v ≤ Varint.MAX).
Proof.
  intros input x rest Hok H. unfold take_varint, Varint.take_slice in H.
  destruct (Varint.decode_slice input) as [[v n]|e] eqn:Hd; [|done]. simpl in H.
  injection H as -> <-. apply Varint.decode_slice_encodes in Hd as (Hle & Hpos & He); [|done].
  split; [by eapply Varint.encodes_bound|]. exists (take n input). rewrite take_drop.
  split; [done|]. intros Ht. apply (f_equal length) in Ht. rewrite length_take in Ht.
  cbn [length] in Ht. lia.
Qed.

Lemma decode_address_sound input v a rest :
  bytes_ok input → decode_address_of_version input v = Ok (a, rest) →
  ip_ok a ∧ v = version_byte a ∧ ∃ w, input = w ++ rest ∧ w ≠ [].
Proof.
  intros Hok H. unfold decode_address_of_version in H.
  destruct (Z.eqb_spec v 4) as [->|]; [|destruct (Z.eqb_spec v 6) as [->|]; [|done]];
    cbn [mbind result_mbind result_bind] in H; case_match eqn:Hlt; try done;
    apply Nat.ltb_ge in Hlt; cbn [Z.eqb Pos.eqb] in H; injection H as <- <-;
    (split; [|split; [done|eexists; rewrite take_drop; split; [done|];
      intros Ht; apply (f_equal length) in Ht; rewrite length_take in Ht; cbn [length] in Ht; lia]]).
  - assert (length (take 4 input) = 4%nat) as Hl by (rewrite length_take; lia).
    pose proof (from_be_bytes_bound (take 4 input) (Forall_take _ _ _ Hok)) as Hb. by rewrite Hl in Hb.
  - assert (length (take 16 input) = 16%nat) as Hl by (rewrite length_take; lia).
    pose proof (from_be_bytes_bound (take 16 input) (Forall_take _ _ _ Hok)) as Hb. by rewrite Hl in Hb.
Qed.

Lemma decode_prefix_sound : item_sound decode_prefix prefix_ok.
Proof.
  intros input p rest Hok H. unfold decode_prefix, decode_versioned_address in H.
  apply bind_Ok in H as ([a r] & Ha & H). apply bind_Ok in Ha as ([v r0] & Hv & Ha).
  apply take_u8_sound in Hv as (_ & w & -> & Hw); [|done]. apply Forall_app in Hok as [_ Hok].
  apply decode_address_sound in Ha as (Hip & _ & w' & -> & _); [|done].
  apply Forall_app in Hok as [_ Hok]. apply bind_Ok in H as ([len r1] & Hl & H).
  apply take_u8_sound in Hl as (Hlen & w'' & -> & _); [|done].
  apply bind_Ok in H as (q & Hq & H). injection H as -> ->.
  pose proof (new_prefix_spec a len Hip) as Hs. rewrite Hq in Hs. split; [apply Hs, Hlen|].
  exists (w ++ w' ++ w''). rewrite <- !app_assoc. split; [done|]. by intros [-> _]%app_nil.
Qed.

Lemma decode_entry_sound z : item_sound (decode_entry z) (entry_ok z).
Proof.
  intros input e rest Hok H. unfold decode_entry in H. apply bind_Ok in H as ([id r] & Hid & H).
  apply take_varint_sound in Hid as (Hb & w & -> & Hw); [|done]. apply Forall_app in Hok as [_ Hok].
  destruct (z && (id =? 0)) eqn:Hz; [done|]. apply bind_Ok in H as ([p r'] & Hp & H).
  apply decode_prefix_sound in Hp as (Hpok & w' & -> & _); [|done]. injection H as <- ->.
  split; [|exists (w ++ w'); rewrite <- app_assoc; split; [done|]; by intros [-> _]%app_nil].
  split_and!; [apply Hb|apply Hb|done|]. simpl. intros ->. by apply Z.eqb_neq.
Qed.

Lemma decode_range_sound : item_sound decode_range range_ok.
Proof.
  intros input x rest Hok H. unfold decode_range in H.
  apply bind_Ok in H as ([v r0] & Hv & H). apply take_u8_sound in Hv as (_ & w & -> & Hw); [|done].
  apply Forall_app in Hok as [_ Hok]. apply bind_Ok in H as ([s r1] & Hs & H).
  apply decode_address_sound in Hs as (Hsip & Hsv & w1 & -> & _); [|done].
  apply Forall_app in Hok as [_ Hok]. apply bind_Ok in H as ([e r2] & He & H).
  apply decode_address_sound in He as (Heip & Hev & w2 & -> & _); [|done].
  apply Forall_app in Hok as [_ Hok]. apply bind_Ok in H as ([p r3] & Hp & H).
  apply take_u8_sound in Hp as (Hpb & w3 & -> & _); [|done].
  apply bind_Ok in H as (y & Hr & H). injection H as -> ->. split.
  - destruct s as [a|a], e as [b|b]; simpl in Hr; try done;
      destruct (Z.ltb_spec b a); try done; injection Hr as <-; by split_and!.
  - exists (w ++ w1 ++ w2 ++ w3). rewrite <- !app_assoc. split; [done|]. by intros [-> _]%app_nil.
Qed.

Lemma decode_all_sound {A} (item : list Z → result Error (A * list Z)) P fuel input xs :
  item_sound item P → bytes_ok input → decode_all item fuel input = Ok xs → Forall P xs.
Proof.
  intros Hitem. revert input xs. induction fuel as [|fuel IH]; intros input xs Hok H.
  { destruct input; [|done]. injection H as <-. constructor. }
  destruct input as [|b input]; [injection H as <-; constructor|]. cbn [decode_all] in H.
  apply bind_Ok in H as ([x rest] & Hx & H). apply bind_Ok in H as (ys & Hys & H). injection H as <-.
  apply Hitem in Hx as (? & w & Heq & _); [|done]. rewrite Heq in Hok.
  apply Forall_app in Hok as [_ Hok]. constructor; [done|]. by eapply IH.
Qed.

(** The fuel of a decoding loop is the length of its input, and that is enough:
    with more of it the loop does the same. *)
Lemma decode_all_fuel {A} (item : list Z → result Error (A * list Z)) P fuel more input :
  item_sound item P → bytes_ok input → (length input ≤ fuel)%nat →
  decode_all item fuel input = decode_all item (fuel + more) input.
Proof.
  intros Hitem. revert input. induction fuel as [|fuel IH]; intros input Hok Hle.
  { destruct input; [by destruct more|simpl in Hle; lia]. }
  destruct input as [|b input]; [done|]. cbn [decode_all Nat.add].
  destruct (item (b :: input)) as [[x rest]|e] eqn:Hx; [|done]. bind_simpl.
  apply Hitem in Hx as (_ & w & Heq & Hw); [|done]. rewrite Heq in Hok.
  apply Forall_app in Hok as [_ Hok]. rewrite (IH rest); [done|done|].
  apply (f_equal length) in Heq. rewrite length_app in Heq. destruct w; [done|]. simpl in *. lia.
Qed.

(** ** Route ordering *)

(** [a] is before [b]: by family, then protocol, then without overlap. *)
Definition before (a b : IpAddressRange) : Prop :=
  version a < version b ∨ (version a = version b ∧ (protocol a < protocol b ∨
    (protocol a = protocol b ∧ ip_bits (end_ a) < ip_bits (start b)))).

Lemma version_start r : version r = version_byte (start r).
Proof. by destruct r as [[] ? ?]. Qed.

Lemma ordered_before a b : range_ok a → range_ok b → ordered a b = true ↔ before a b.
Proof.
  intros (_ & _ & Ha & _) _. unfold ordered, before. rewrite (version_start a), (version_start b), Ha.
  destruct (Z.compare_spec (version_byte (end_ a)) (version_byte (start b))) as [Hv|Hv|Hv];
    [|split; [by left|done]|split; [done|lia]].
  destruct (Z.compare_spec (protocol a) (protocol b)) as [Hp|Hp|Hp];
    [|split; [by right; split; [|left]|done]|split; [done|lia]].
  destruct (end_ a) as [x|x], (start b) as [y|y]; simpl in Hv |- *; try done;
    rewrite Z.ltb_lt; split; [intros; lia|intros; lia|intros; lia|intros; lia].
Qed.

Lemma before_trans a b c : range_ok b → before a b → before b c → before a c.
Proof. intros (_ & _ & _ & Hle & _). unfold before. lia. Qed.

Lemma check_ordering_pairwise rs :
  Forall range_ok rs → check_route_ordering rs = Ok tt ↔
    ∀ i j a b, (i < j)%nat → rs !! i = Some a → rs !! j = Some b → before a b.
Proof.
  induction 1 as [|a rs Ha Hrs IH]; [split; [|done]; intros _ i j x y _ Hi; by rewrite lookup_nil in Hi|].
  destruct rs as [|b rs].
  { split; [|done]. intros _ [|i] [|j] x y Hlt Hi Hj; simpl in *; try lia; by rewrite ?lookup_nil in *. }
  apply Forall_cons in Hrs as Hb. destruct Hb as [Hb _].
  change (check_route_ordering (a :: b :: rs)) with
    (if ordered a b then check_route_ordering (b :: rs) else Err RoutesOutOfOrder). split.
  - destruct (ordered a b) eqn:Ho; [|done]. apply ordered_before in Ho; [|done..].
    intros Hc. rewrite IH in Hc. intros i j x y Hlt Hi Hj. destruct j as [|j]; [lia|]. cbn [lookup list_lookup] in Hj.
    destruct i as [|i]; cbn [lookup list_lookup] in Hi; [|by eapply (Hc i j); [lia|..]].
    injection Hi as <-. destruct j as [|j]; [by injection Hj as <-|].
    eapply before_trans; [exact Hb|done|]. by eapply (Hc 0%nat (S j)); [lia|..].
  - intros Hall. rewrite (proj2 (ordered_before a b Ha Hb)) by (by apply (Hall 0%nat 1%nat); [lia|..]).
    apply IH. intros i j x y Hlt Hi Hj. by apply (Hall (S i) (S j)); [lia|..].
Qed.

(** A well-formed control capsule. *)
Definition capsule_wf (c : IpCapsule) : Prop :=
  match c with
  | AddressAssign es => Forall (entry_ok false) es
  | AddressRequest es => es ≠ [] ∧ Forall (entry_ok true) es
  | RouteAdvertisement rs => Forall range_ok rs ∧ check_route_ordering rs = Ok tt
  end.

(** ** Correctness *)

(** Control capsules round trip: every well-formed capsule encodes, and
    decoding the result gives it back. *)
Theorem ip_capsule_roundtrip (c : IpCapsule) :
  capsule_wf c → ∃ cap, to_capsule c = Ok cap ∧ kind cap = capsule_type c ∧
    bytes_ok (value cap) ∧ from_capsule cap = Ok (Some c).
Proof.
  assert (∀ A (item : list Z → result Error (A * list Z)) xs ws,
    Forall2 (item_wire item) xs ws → bytes_ok (concat ws)) as Hok.
  { induction 1 as [|x w xs ws (_ & ? & _) ? ?]; simpl; [constructor|by apply Forall_app_2]. }
  intros Hwf. destruct c as [es|es|rs]; cbn [capsule_wf] in Hwf; unfold to_capsule.
  - destruct (encode_entries_wires false es [] Hwf) as (ws & -> & HF). bind_simpl.
    eexists. split; [done|]. split; [done|]. split; [by eapply Hok|].
    unfold from_capsule. cbn. by rewrite (decode_all_wires _ es ws).
  - destruct Hwf as [Hne Hwf]. destruct es as [|e es]; [done|].
    destruct (encode_entries_wires true (e :: es) [] Hwf) as (ws & -> & HF). bind_simpl.
    eexists. split; [done|]. split; [done|]. split; [by eapply Hok|].
    unfold from_capsule. cbn. by rewrite (decode_all_wires _ (e :: es) ws).
  - destruct Hwf as [Hwf Hord]. rewrite Hord. bind_simpl.
    destruct (encode_ranges_wires rs [] Hwf) as (ws & -> & HF). bind_simpl.
    eexists. split; [done|]. split; [done|]. split; [by eapply Hok|].
    unfold from_capsule. cbn. rewrite (decode_all_wires _ rs ws) by done. cbn. by rewrite Hord.
Qed.

Definition sample_routes : list IpAddressRange :=
  [mkRange (V4 0) (V4 9) 0; mkRange (V4 10) (V4 20) 0; mkRange (V6 0) (V6 u128_max) 6].

Lemma sample_routes_ok : Forall range_ok sample_routes.
Proof. repeat (apply Forall_cons_2; [vm_compute; split_and!; done|]). apply Forall_nil_2. Qed.

Lemma ip_capsule_roundtrip_witness :
  capsule_wf (RouteAdvertisement sample_routes) ∧
  ∃ cap, to_capsule (RouteAdvertisement sample_routes) = Ok cap ∧ kind cap = 3 ∧
    bytes_ok (value cap) ∧ from_capsule cap = Ok (Some (RouteAdvertisement sample_routes)).
Proof.
  assert (capsule_wf (RouteAdvertisement sample_routes)) as H by (split; [apply sample_routes_ok|done]).
  split; [exact H|]. apply (ip_capsule_roundtrip (RouteAdvertisement sample_routes) H).
Defined.

(** C40.  Only well-formed capsules are accepted: whatever bytes arrive, a
    decoded capsule has request ids within the varint range (non-zero and at
    least one in a request), prefixes with no host bits set, ranges of one
    family in the right direction, and routes in the required order. *)
Theorem from_capsule_wf (cap : Capsule) (c : IpCapsule) :
  bytes_ok (value cap) → from_capsule cap = Ok (Some c) →
  capsule_type c = kind cap ∧ capsule_wf c.
Proof.
  intros Hok H. unfold from_capsule in H.
  destruct (Z.eqb_spec (kind cap) ADDRESS_ASSIGN) as [->|_];
    [|destruct (Z.eqb_spec (kind cap) ADDRESS_REQUEST) as [->|_];
      [|destruct (Z.eqb_spec (kind cap) ROUTE_ADVERTISEMENT) as [->|_]; [|done]]];
    apply bind_Ok in H as (xs & Hxs & H).
  - injection H as <-. split; [done|]. by eapply decode_all_sound, Hxs; [apply decode_entry_sound|].
  - apply (decode_all_sound _ (entry_ok true)) in Hxs; [|apply decode_entry_sound|done].
    destruct xs; [done|]. injection H as <-. by split.
  - apply (decode_all_sound _ range_ok) in Hxs; [|apply decode_range_sound|done].
    apply bind_Ok in H as ([] & Hord & H). injection H as <-. by split.
Qed.

Lemma from_capsule_wf_witness :
  from_capsule (mkCapsule ADDRESS_REQUEST [1; 4; 0; 0; 0; 0; 32]) =
    Ok (Some (AddressRequest [mkEntry 1 (unspecified false)])) ∧
  capsule_type (AddressRequest [mkEntry 1 (unspecified false)]) = ADDRESS_REQUEST ∧
  capsule_wf (AddressRequest [mkEntry 1 (unspecified false)]).
Proof.
  split; [by vm_compute|].
  apply (from_capsule_wf (mkCapsule ADDRESS_REQUEST [1; 4; 0; 0; 0; 0; 32])); [|by vm_compute].
  by_decide.
Defined.

(** Advertised routes can be installed as they come: a list of valid
    ranges passes the pairwise check on neighbours exactly when every earlier
    range is before every later one, and then no two ranges of the same family
    and protocol share an address. *)
Theorem routes_ordered_disjoint (rs : list IpAddressRange) :
  Forall range_ok rs →
  (check_route_ordering rs = Ok tt ↔
    ∀ i j a b, (i < j)%nat → rs !! i = Some a → rs !! j = Some b → before a b) ∧
  (check_route_ordering rs = Ok tt → ∀ i j a b x, i ≠ j → rs !! i = Some a → rs !! j = Some b →
    version a = version b → protocol a = protocol b →
    ip_bits (start a) ≤ x ≤ ip_bits (end_ a) → ¬ ip_bits (start b) ≤ x ≤ ip_bits (end_ b)).
Proof.
  intros Hrs. pose proof (check_ordering_pairwise rs Hrs) as Hiff. split; [done|].
  intros Hc i j a b x Hij Hi Hj Hv Hp Ha Hb. rewrite Hiff in Hc.
  destruct (decide (i < j)%nat) as [Hlt|Hge].
  - specialize (Hc i j a b Hlt Hi Hj). unfold before in Hc. lia.
  - specialize (Hc j i b a ltac:(lia) Hj Hi). unfold before in Hc. lia.
Qed.

Lemma routes_ordered_disjoint_witness :
  check_route_ordering sample_routes = Ok tt ∧
  ¬ (ip_bits (V4 10) ≤ 5 ≤ ip_bits (V4 20)).
Proof.
  split; [done|].
  apply (proj2 (routes_ordered_disjoint sample_routes sample_routes_ok) eq_refl 0%nat 1%nat
    (mkRange (V4 0) (V4 9) 0) (mkRange (V4 10) (V4 20) 0) 5); try done.
Defined.

(** [IpPrefix::new] accepts exactly the prefixes whose length fits the
    address and whose host bits are zero, and says which rule was broken. *)
Theorem ip_prefix_new (a : IpAddr) (len : Z) :
  ip_ok a → 0 ≤ len →
  match new_prefix a len with
  | Ok p => p = mkPrefix a len ∧ prefix_ok p
  | Err (PrefixTooLong l b) => l = len ∧ b = address_bits a ∧ address_bits a < len
  | Err (PrefixHostBitsSet a' l) =>
      a' = a ∧ l = len ∧ len ≤ address_bits a ∧ ip_bits a mod 2 ^ (address_bits a - len) ≠ 0
  | Err _ => False
  end.
Proof. apply new_prefix_spec. Qed.

Lemma ip_prefix_new_witness :
  new_prefix (V4 0x0a000001) 8 = Err (PrefixHostBitsSet (V4 0x0a000001) 8) ∧
  0x0a000001 mod 2 ^ (32 - 8) ≠ 0.
Proof.
  split; [by vm_compute|]. pose proof (ip_prefix_new (V4 0x0a000001) 8 ltac:(simpl; lia) ltac:(lia)) as H.
  vm_compute in H. vm_compute. apply H.
Defined.

(** ** Scope *)

Definition scope_ok (s : IpScope) : Prop :=
  (∀ t, target s = Some t → t ≠ [] ∧ t ≠ WILDCARD ∧ chars_ok t) ∧
  (∀ p, scope_protocol s = Some p → is_byte p).

Lemma existsb_str_eqb n l : existsb (str_eqb n) l = bool_decide (n ∈ l).
Proof.
  apply eq_true_iff_eq. rewrite existsb_exists, bool_decide_eq_true. split.
  - intros (x & Hx & ->%str_eqb_eq). by apply list_elem_of_In.
  - intros H. exists n. by rewrite <- list_elem_of_In, str_eqb_refl.
Qed.

(** The values the client supplies, where the template asks for them. *)
Definition protocol_text (s : IpScope) : str :=
  match scope_protocol s with Some p => to_string p | None => WILDCARD end.

Lemma scope_values_lookup s t :
  ((("target" : str) ∈ variables t) →
    scope_values s t !! ("target" : str) = Some (default WILDCARD (target s))) ∧
  ((("ipproto" : str) ∈ variables t) →
    scope_values s t !! ("ipproto" : str) = Some (protocol_text s)).
Proof.
  unfold scope_values. rewrite !existsb_str_eqb. split; intros H.
  - rewrite (bool_decide_eq_true_2 _ H).
    case_bool_decide; [rewrite lookup_insert_ne by done|]; apply lookup_singleton_eq.
  - rewrite (bool_decide_eq_true_2 _ H). apply lookup_insert_eq.
Qed.

Lemma to_string_not_wildcard p : 0 ≤ p → to_string p ≠ WILDCARD.
Proof.
  intros [H _]%to_string_no_plus Heq. rewrite Heq in H. by apply Forall_cons in H as [? _].
Qed.

Lemma scope_values_ok s t :
  scope_ok s → (∀ n, n ∈ variables t → n ∈ CONNECT_IP_VARIABLES) →
  values_ok (scope_values s t) (variables t).
Proof.
  intros [Ht Hp] Hvars n Hn. destruct (scope_values_lookup s t) as [Hvt Hvp].
  assert (chars_ok WILDCARD) by by_decide.
  apply Hvars in Hn as Hn'. apply elem_of_cons in Hn' as [->|Hn'];
    [|apply list_elem_of_singleton in Hn' as ->].
  - rewrite Hvt by done. eexists. split; [done|]. destruct (target s) as [x|]; simpl; [|done].
    by destruct (Ht x) as (? & ? & ?).
  - rewrite Hvp by done. eexists. split; [done|]. unfold protocol_text.
    destruct (scope_protocol s) as [p|]; [|done]. destruct (Hp p eq_refl).
    split; [by apply to_string_no_plus|by apply chars_ok_to_string].
Qed.

(** The scope of a CONNECT-IP request survives the trip: for any delimited
    template over the optional [target] and [ipproto] variables, the proxy reads
    back what the client asked for in each variable the template has, and
    "anything" for the ones it has not. *)
Theorem scope_path_roundtrip (raw : str) (t : UriTemplate) (s : IpScope) :
  Template.parse raw = Ok t → delimited (parts t) = true →
  (∀ n, n ∈ variables t → n ∈ CONNECT_IP_VARIABLES) → scope_ok s →
  ∃ path, expand_path s t = Ok path ∧
    scope_from_path t path = Ok (mkScope
      (if decide (("target" : str) ∈ variables t) then target s else None)
      (if decide (("ipproto" : str) ∈ variables t) then scope_protocol s else None)).
Proof.
  intros Hparse Hd Hvars Hs. pose proof (scope_values_ok s t Hs Hvars) as Hok.
  destruct (scope_values_lookup s t) as [Hvt Hvp]. destruct Hs as [Ht Hp].
  apply Template.parse_Ok in Hparse as (_ & Hv & _). rewrite Hv in *.
  destruct (match_expand (scope_values s t) (parts t)) as (path & Hx & _ & Hm); [done..|].
  exists path. unfold expand_path, Template.expand_path. rewrite Hx. split; [done|].
  destruct (Hm ∅) as (m & Hmm & Hext). unfold scope_from_path, match_path. rewrite Hmm. bind_simpl.
  rewrite !Hext, !lookup_empty. f_equal.
  assert (unless_wildcard (if decide (("target" : str) ∈ flat_map part_names (parts t))
    then scope_values s t !! ("target" : str) else None) =
    if decide (("target" : str) ∈ flat_map part_names (parts t)) then target s else None) as ->.
  { destruct (decide _) as [Hin|]; [|done]. rewrite Hvt by done.
    destruct (target s) as [x|] eqn:Htx; [|done]. destruct (Ht x eq_refl) as (_ & Hne & _).
    unfold unless_wildcard. simpl. by rewrite (proj2 (str_eqb_neq x WILDCARD)). }
  destruct (decide (("ipproto" : str) ∈ _)) as [Hin|]; [|done]. rewrite Hvp by done.
  unfold protocol_text. destruct (scope_protocol s) as [p|] eqn:Hsp; [|done].
  destruct (Hp p eq_refl). unfold unless_wildcard.
  rewrite (proj2 (str_eqb_neq _ WILDCARD)) by (by apply to_string_not_wildcard).
  unfold parse_u8. rewrite from_str_radix_to_string by done.
  by rewrite (decide_True (P := p ≤ u8_max)) by (unfold u8_max; lia).
Qed.

Lemma scope_path_roundtrip_witness :
  ∃ t path, default_connect_ip "e.org" = Ok t ∧
    path = of_string "/.well-known/masque/ip/10.0.0.0%2F8/%2A/" ∧
    expand_path (mkScope (Some (of_string "10.0.0.0/8")) None) t = Ok path ∧
    scope_from_path t path = Ok (mkScope (Some (of_string "10.0.0.0/8")) None).
Proof.
  destruct (default_connect_ip "e.org") as [t|e] eqn:Ht; [|by vm_compute in Ht].
  destruct (scope_path_roundtrip _ t (mkScope (Some (of_string "10.0.0.0/8")) None) Ht)
    as (path & Hx & Hf).
  - vm_compute in Ht. injection Ht as <-. by vm_compute.
  - vm_compute in Ht. injection Ht as <-. intros n. cbn [variables].
    change CONNECT_IP_VARIABLES with [("target" : str); ("ipproto" : str)]. done.
  - split; simpl; [|done]. intros x [= <-]. split_and!; [done|done|by_decide].
  - exists t, path. vm_compute in Ht. injection Ht as <-. vm_compute in Hx. injection Hx as <-.
    split_and!; [done..|]. by vm_compute.
Defined.
