(* ===== verification/PolicyDest.v ===== *)
(** * Destinations and destination patterns

    Model of [crates/skimasque-policy/src/destination.rs]: where a workload
    wants to go ([Destination]) and the patterns a rule is written with
    ([DestinationSpec]), with their parsers and the match between them. *)

From S2P Require Import Prelude RustStr RustNet.

Inductive ParseDestinationError : Type :=
  | Empty (input : str)
  | MissingPort (input : str)
  | Malformed (value : str) (reason : str)
  | BadPort (port : str)
  | BadPrefix (len : Z) (family : str).

Inductive Host : Type :=
  | Name (name : str)
  | Ip (ip : IpAddr).
#[global] Instance Host_eq_dec : EqDecision Host.
Proof. solve_decision. Defined.

Record Destination : Type := mkDestination { host : Host; port : Z }.
#[global] Instance Destination_eq_dec : EqDecision Destination.
Proof. solve_decision. Defined.

Inductive HostPattern : Type :=
  | AnyHost
  | Exact (name : str)
  | Suffix (suffix : str)
  | IpPattern (ip : IpAddr)
  | Cidr (addr : IpAddr) (len : Z).
#[global] Instance HostPattern_eq_dec : EqDecision HostPattern.
Proof. solve_decision. Defined.

Inductive PortPattern : Type :=
  | AnyPort
  | ExactPort (p : Z)
  | Range (lo hi : Z).
#[global] Instance PortPattern_eq_dec : EqDecision PortPattern.
Proof. solve_decision. Defined.

Record DestinationSpec : Type := mkSpec {
  spec_host : HostPattern;
  spec_port : PortPattern;
  raw : str;
}.
#[global] Instance DestinationSpec_eq_dec : EqDecision DestinationSpec.
Proof. solve_decision. Defined.

(** ** Parsing *)

Definition split_host_port (text : str) : option (str * str) :=
  match strip_prefix "[" text with
  | Some rest =>
      '(addr, after) ← split_once 93 rest;
      port ← strip_prefix ":" after;
      Some (addr, port)
  | None =>
      '(host, port) ← rsplit_once 58 text;
      if contains 58 host then None else Some (host, port)
  end.

(** A non-zero decimal port. *)
Definition nonzero_port (text : str) : option Z :=
  p ← parse_u16 text; if p =? 0 then None else Some p.

Definition legal_host_char (c : Z) : bool :=
  is_ascii_alphanumeric c || (c =? 45) || (c =? 46) || (c =? 95).

Definition parse_host_literal (host : str) : result ParseDestinationError Host :=
  if bool_decide (host = []) then Err (Malformed host "the host is empty")
  else
    match parse_ip (unbracketed host) with
    | Some ip => Ok (Ip ip)
    | None =>
        if existsb (λ c, negb (legal_host_char c)) (unbracketed host)
        then Err (Malformed host "the host contains an illegal character")
        else Ok (Name (to_ascii_lowercase (unbracketed host)))
    end.

Definition parse_destination (input : str) : result ParseDestinationError Destination :=
  let text := trim input in
  if bool_decide (text = []) then Err (Empty input)
  else
    '(host_part, port_part) ← ok_or (split_host_port text) (MissingPort input);
    port ← ok_or (nonzero_port port_part) (BadPort port_part);
    host ← parse_host_literal host_part;
    Ok (mkDestination host port).

Definition display_destination (d : Destination) : str :=
  match host d with
  | Name name => name ++ ":" ++ to_string (port d)
  | Ip (V4 v4) => display_v4 v4 ++ ":" ++ to_string (port d)
  | Ip (V6 v6) => "[" ++ display_v6 v6 ++ "]:" ++ to_string (port d)
  end.

Definition parse_port_pattern (text : str) : result ParseDestinationError PortPattern :=
  if str_eqb text "*" then Ok AnyPort
  else
    match split_once 45 text with
    | Some (lo, hi) =>
        lo ← ok_or (parse_u16 lo) (BadPort text);
        hi ← ok_or (parse_u16 hi) (BadPort text);
        if (lo =? 0) || (hi =? 0) || (hi <? lo) then Err (BadPort text) else Ok (Range lo hi)
    | None => p ← ok_or (nonzero_port text) (BadPort text); Ok (ExactPort p)
    end.

Definition parse_host_pattern (input host_part : str) : result ParseDestinationError HostPattern :=
  if str_eqb host_part "*" then Ok AnyHost
  else
    match strip_prefix "*." host_part with
    | Some suffix =>
        if bool_decide (suffix = []) || contains 42 suffix
        then Err (Malformed input "a wildcard host must be *.<domain>")
        else Ok (Suffix ("." ++ to_ascii_lowercase suffix))
    | None =>
        match parse_ip host_part with
        | Some ip => Ok (IpPattern ip)
        | None =>
            h ← parse_host_literal host_part;
            Ok (match h with Name name => Exact name | Ip ip => IpPattern ip end)
        end
    end.

Definition parse_cidr (input addr len : str) : result ParseDestinationError HostPattern :=
  addr ← ok_or (parse_ip addr) (Malformed input "the part before / is not an IP address");
  len ← ok_or (parse_u16 len) (Malformed input "the prefix length is not a number");
  if (if is_ipv6 addr then 128 else 32) <? len
  then Err (BadPrefix len (if is_ipv6 addr then "IPv6" else "IPv4"))
  else Ok (Cidr addr (wrap 8 len)).

Definition parse_spec (input : str) : result ParseDestinationError DestinationSpec :=
  let text := trim input in
  if bool_decide (text = []) then Err (Empty input)
  else if str_eqb text "*" then Ok (mkSpec AnyHost AnyPort text)
  else
    match split_once 47 text with
    | Some (addr, len) => h ← parse_cidr input addr len; Ok (mkSpec h AnyPort text)
    | None =>
        '(host_part, port) ←
          match split_host_port text with
          | Some (host, port_str) => p ← parse_port_pattern port_str; Ok (host, p)
          | None => Ok (text, AnyPort)
          end;
        h ← parse_host_pattern input host_part;
        Ok (mkSpec h port text)
    end.

(** ** Matching *)

Definition port_matches (p : PortPattern) (port : Z) : bool :=
  match p with
  | AnyPort => true
  | ExactPort p => p =? port
  | Range lo hi => (lo <=? port) && (port <=? hi)
  end.

Definition bits_match (net got : list Z) (len : Z) : bool :=
  let whole := Z.to_nat (len / 8) in
  if negb (bool_decide (take whole net = take whole got)) then false
  else
    let remainder := len mod 8 in
    if remainder =? 0 then true
    else
      let mask := wrap 8 (Z.shiftl 0xff (8 - remainder)) in
      Z.land (nth whole net 0) mask =? Z.land (nth whole got 0) mask.

Definition cidr_contains (addr : IpAddr) (len : Z) (candidate : IpAddr) : bool :=
  match addr, candidate with
  | V4 _, V4 _ | V6 _, V6 _ => bits_match (octets addr) (octets candidate) len
  | _, _ => false
  end.

Definition host_matches (pattern : HostPattern) (h : Host) : bool :=
  match pattern, h with
  | AnyHost, _ => true
  | Exact want, Name got => str_eqb want got
  | Suffix suffix, Name got => ends_with suffix got
  | IpPattern want, Ip got => bool_decide (want = got)
  | Cidr addr len, Ip got => cidr_contains addr len got
  | _, _ => false
  end.

Definition spec_matches (s : DestinationSpec) (d : Destination) : bool :=
  port_matches (spec_port s) (port d) && host_matches (spec_host s) (host d).

(** ** CIDR arithmetic *)

Lemma take_be_bytes n k v :
  (k ≤ n)%nat → take k (be_bytes n v) = be_bytes k (v / 256 ^ Z.of_nat (n - k)).
Proof.
  revert k. induction n as [|n IH]; intros k Hk; [by replace k with 0%nat by lia|].
  destruct k as [|k]; [done|]. cbn [be_bytes take]. rewrite IH by lia. cbn [Nat.sub]. f_equal.
  rewrite Z.div_div by (try apply Z.pow_nonzero; try apply Z.pow_pos_nonneg; lia).
  rewrite <- Z.pow_add_r by lia. repeat f_equal; lia.
Qed.

Lemma nth_be_bytes n k v :
  (k < n)%nat → nth k (be_bytes n v) 0 = (v / 256 ^ Z.of_nat (n - k - 1)) mod 256.
Proof.
  revert k. induction n as [|n IH]; intros k Hk; [lia|]. cbn [be_bytes].
  destruct k as [|k]; cbn [nth].
  - by rewrite Nat.sub_0_r, Nat.sub_succ, Nat.sub_0_r.
  - rewrite IH by lia. repeat f_equal; lia.
Qed.

Lemma be_bytes_inj n x y :
  be_bytes n x = be_bytes n y ↔ x mod 256 ^ Z.of_nat n = y mod 256 ^ Z.of_nat n.
Proof.
  split; intros H; [by rewrite <- !from_be_be_bytes, H|].
  by rewrite <- (be_bytes_mod n n x), <- (be_bytes_mod n n y), H.
Qed.

(** The top [8 - r] bits of a byte, by masking and by division. *)
Lemma land_top_byte b r :
  0 < r < 8 → is_byte b → Z.land b (wrap 8 (Z.shiftl 0xff (8 - r))) = b / 2 ^ (8 - r) * 2 ^ (8 - r).
Proof.
  intros Hr Hb. assert (forallb (λ r, forallb (λ b,
    Z.land b (wrap 8 (Z.shiftl 0xff (8 - r))) =? b / 2 ^ (8 - r) * 2 ^ (8 - r)) (seqZ 0 256))
    (seqZ 1 7) = true) as H by (by vm_compute).
  rewrite forallb_forall in H. specialize (H r). rewrite forallb_forall in H.
  apply Z.eqb_eq, H; apply list_elem_of_In, elem_of_seqZ; unfold is_byte in *; lia.
Qed.

(** Dividing by a factor [p] of [256 = p * q] splits off the last byte. *)
Lemma div_last_byte p q u :
  0 < p → 0 < q → 256 = p * q →
  u / p = u / 256 * q + (u mod 256) / p ∧ 0 ≤ (u mod 256) / p < q.
Proof.
  intros Hp Hq H256. pose proof (Z.mod_pos_bound u 256 ltac:(lia)) as Hm. split.
  - rewrite (Z.div_mod u 256) at 1 by lia. rewrite H256 at 1.
    replace (p * q * (u / 256) + u mod 256) with (u / 256 * q * p + u mod 256) by lia.
    apply Z.div_add_l. lia.
  - split; [apply Z.div_pos; lia|]. apply Z.div_lt_upper_bound; lia.
Qed.

Lemma bits_match_spec n x y len :
  0 ≤ x < 256 ^ Z.of_nat n → 0 ≤ y < 256 ^ Z.of_nat n → 0 ≤ len ≤ 8 * Z.of_nat n →
  bits_match (be_bytes n x) (be_bytes n y) len = true ↔
    x / 2 ^ (8 * Z.of_nat n - len) = y / 2 ^ (8 * Z.of_nat n - len).
Proof.
  intros Hx Hy Hlen. unfold bits_match. set (k := Z.to_nat (len / 8)).
  assert (Z.of_nat k = len / 8) as Hk by (unfold k; dm_lia).
  assert (k ≤ n)%nat as Hkn by dm_lia.
  assert (∀ v, 0 ≤ v < 256 ^ Z.of_nat n → 0 ≤ v / 256 ^ Z.of_nat (n - k) < 256 ^ Z.of_nat k) as Hq.
  { intros v Hv. assert (0 < 256 ^ Z.of_nat (n - k)) by (apply Z.pow_pos_nonneg; lia).
    split; [apply Z.div_pos; lia|]. apply Z.div_lt_upper_bound; [lia|].
    rewrite <- Z.pow_add_r by lia.
    replace (Z.of_nat (n - k) + Z.of_nat k) with (Z.of_nat n) by lia. apply Hv. }
  assert (∀ j, 256 ^ Z.of_nat j = 2 ^ (8 * Z.of_nat j)) as H256
    by (intros j; rewrite Z.pow_mul_r by lia; done).
  assert (take k (be_bytes n x) = take k (be_bytes n y) ↔
    x / 256 ^ Z.of_nat (n - k) = y / 256 ^ Z.of_nat (n - k)) as Hwhole.
  { rewrite !take_be_bytes, be_bytes_inj by done. by rewrite !Z.mod_small by (by apply Hq). }
  destruct (Z.eqb_spec (len mod 8) 0) as [Hr|Hr].
  - assert (8 * Z.of_nat n - len = 8 * Z.of_nat (n - k)) as -> by dm_lia. rewrite <- H256, <- Hwhole.
    case_bool_decide; naive_solver.
  - assert (k < n)%nat as Hlt by dm_lia. set (r := len mod 8) in *. assert (0 < r < 8) by dm_lia.
    set (m := (n - k - 1)%nat). assert (8 * Z.of_nat n - len = 8 * Z.of_nat m + (8 - r)) as Hsum by dm_lia.
    rewrite Hsum, Z.pow_add_r, <- H256 by lia.
    assert (0 < 256 ^ Z.of_nat m) by (apply Z.pow_pos_nonneg; lia).
    assert (0 < 2 ^ (8 - r)) by (apply Z.pow_pos_nonneg; lia).
    rewrite <- !Z.div_div by lia. rewrite !nth_be_bytes by done. fold m.
    assert (Z.of_nat (n - k) = Z.of_nat m + 1) as Hm by lia.
    rewrite Hm, Z.pow_add_r, <- !Z.div_div in Hwhole by lia. change (256 ^ 1) with 256 in Hwhole.
    rewrite !land_top_byte by (try apply Z.mod_pos_bound; lia).
    revert Hwhole. generalize (x / 256 ^ Z.of_nat m) (y / 256 ^ Z.of_nat m). intros u w Hwhole.
    assert (256 = 2 ^ (8 - r) * 2 ^ r) as Hp by (rewrite <- Z.pow_add_r by lia; by replace (8 - r + r) with 8 by lia).
    assert (0 < 2 ^ r) by (apply Z.pow_pos_nonneg; lia).
    destruct (div_last_byte (2 ^ (8 - r)) (2 ^ r) u) as [-> ?]; [lia..|].
    destruct (div_last_byte (2 ^ (8 - r)) (2 ^ r) w) as [-> ?]; [lia..|].
    case_bool_decide as Ht; cbn [negb]; rewrite Hwhole in Ht.
    + rewrite Ht, Z.eqb_eq. split; nia.
    + split; [done|]. intros Heq. exfalso. apply Ht. nia.
Qed.

(** ** Well-formed destinations and patterns *)

Definition name_ok (n : str) : Prop :=
  forallb legal_host_char n = true ∧ to_ascii_lowercase n = n ∧ parse_ip n = None.
Definition host_ok (h : Host) : Prop :=
  match h with Name n => n ≠ [] ∧ name_ok n | Ip ip => ip_ok ip end.
Definition dest_ok (d : Destination) : Prop := host_ok (host d) ∧ 0 < port d ≤ u16_max.

(** The bits of an address and the width of its family. *)
Definition bits (ip : IpAddr) : Z := match ip with V4 b | V6 b => b end.
Definition width (ip : IpAddr) : Z := match ip with V4 _ => 32 | V6 _ => 128 end.

Lemma legal_host_char_spec c :
  legal_host_char c = true → 45 ≤ c < 127 ∧ c ≠ 47 ∧ c ≠ 58 ∧ c ≠ 91 ∧ c ≠ 93.
Proof.
  unfold legal_host_char, is_ascii_alphanumeric, is_ascii_alphabetic, is_ascii_lowercase,
    is_ascii_uppercase, is_ascii_digit.
  rewrite !orb_true_iff, !andb_true_iff, !Z.leb_le, !Z.eqb_eq. lia.
Qed.

Lemma name_not_in n c :
  name_ok n → ¬ (45 ≤ c < 127 ∧ c ≠ 47 ∧ c ≠ 58 ∧ c ≠ 91 ∧ c ≠ 93) → c ∉ n.
Proof.
  intros (Hl & _) Hc Hin. rewrite forallb_forall in Hl.
  by apply list_elem_of_In, Hl, legal_host_char_spec in Hin.
Qed.

(** The host as [split_host_port] hands it on: without brackets. *)
Definition host_text (h : Host) : str := match h with Name n => n | Ip ip => display_ip ip end.

Lemma host_text_not_in h c :
  host_ok h → ¬ (45 ≤ c < 127 ∧ c ≠ 47 ∧ c ≠ 91 ∧ c ≠ 93) → c ∉ host_text h.
Proof.
  intros Hh Hc. destruct h as [n|ip]; simpl in *.
  - apply name_not_in; [naive_solver|lia].
  - apply display_ip_not_in. lia.
Qed.

Lemma host_text_nonempty h : host_ok h → host_text h ≠ [].
Proof. destruct h; simpl; [naive_solver|apply display_ip_nonempty]. Qed.

Lemma parse_host_text h : host_ok h → parse_host_literal (host_text h) = Ok h.
Proof.
  intros Hh. unfold parse_host_literal.
  rewrite bool_decide_eq_false_2 by (by apply host_text_nonempty).
  rewrite unbracketed_id by (apply host_text_not_in; [done|lia]).
  destruct h as [n|ip]; simpl in *.
  - destruct Hh as (_ & Hl & Hlow & ->).
    assert (existsb (λ c, negb (legal_host_char c)) n = false) as ->; [|by rewrite Hlow].
    apply not_true_iff_false. rewrite existsb_exists. intros (c & Hc & Hn).
    rewrite forallb_forall in Hl. by rewrite (Hl c Hc) in Hn.
  - by rewrite parse_display_ip.
Qed.

Lemma display_v4_no_colon b : 58 ∉ display_v4 b.
Proof.
  unfold display_v4. change (of_string ".") with [46]. rewrite !elem_of_app.
  assert (∀ i, 58 ∉ to_string (octet (V4 b) i)) as H.
  { intros i Hin. apply to_string_digit in Hin; [lia|]. apply octet_byte. }
  intros [?|[?|[?|[?|[?|[?|?]]]]]]; try (by eapply H); by apply list_elem_of_singleton in H0.
Qed.

Lemma split_display d :
  dest_ok d →
  split_host_port (display_destination d) = Some (host_text (host d), to_string (port d)).
Proof.
  intros [Hh Hp]. unfold split_host_port, display_destination.
  assert (∀ h, 58 ∉ h → 91 ∉ h →
    (match strip_prefix "[" (h ++ ":" ++ to_string (port d)) with
     | Some rest => '(addr, after) ← split_once 93 rest; port ← strip_prefix ":" after; Some (addr, port)
     | None => '(host, port) ← rsplit_once 58 (h ++ ":" ++ to_string (port d));
               if contains 58 host then None else Some (host, port)
     end) = Some (h, to_string (port d))) as Hplain.
  { intros h H58 H91. destruct (strip_prefix "[" _) as [r|] eqn:Hs.
    - apply strip_prefix_Some in Hs. exfalso. destruct h as [|c h]; [done|].
      injection Hs as -> _. apply H91. left.
    - rewrite (proj2 (rsplit_once_Some 58 _ h (to_string (port d)))).
      + bind_simpl. by rewrite (proj2 (contains_false 58 h)).
      + split; [done|]. intros Hin%to_string_digit; lia. }
  destruct (host d) as [n|[b|b]] eqn:Hd; cbn [host_ok host_text] in *.
  - apply Hplain; apply name_not_in; (naive_solver || lia).
  - apply Hplain; [apply display_v4_no_colon|]. apply (display_ip_not_in (V4 b)). lia.
  - rewrite strip_prefix_app.
    rewrite (proj2 (split_once_Some 93 _ (display_v6 b) (":" ++ to_string (port d)))).
    + bind_simpl. by rewrite strip_prefix_app.
    + split; [done|]. apply (display_ip_not_in (V6 b)). lia.
Qed.

Lemma display_not_in d c :
  dest_ok d → ¬ (45 ≤ c < 127 ∧ c ≠ 47) → c ∉ display_destination d.
Proof.
  intros [Hh Hp] Hc. unfold display_destination. destruct (host d) as [n|[b|b]]; simpl in Hh.
  - change (of_string ":") with [58]. rewrite !elem_of_app. intros [H|[H|H]].
    + revert H. apply name_not_in; [naive_solver|lia].
    + apply list_elem_of_singleton in H. lia.
    + apply to_string_digit in H; lia.
  - change (of_string ":") with [58]. rewrite !elem_of_app. intros [H|[H|H]].
    + revert H. apply (display_ip_not_in (V4 b)). lia.
    + apply list_elem_of_singleton in H. lia.
    + apply to_string_digit in H; lia.
  - change (of_string "[") with [91]. change (of_string "]:") with [93; 58].
    rewrite !elem_of_app, !elem_of_cons. intros [[H|[]%elem_of_nil]|[H|[[H|[H|[]%elem_of_nil]]|H]]]; try lia.
    + revert H. apply (display_ip_not_in (V6 b)). lia.
    + apply to_string_digit in H; lia.
Qed.

Lemma trim_display d : dest_ok d → trim (display_destination d) = display_destination d.
Proof.
  intros Hd. apply trim_id, Forall_forall. intros c Hc. apply printable_not_whitespace.
  destruct (decide (45 ≤ c < 127)) as [|Hn]; [lia|]. exfalso. revert Hc. apply display_not_in; [done|lia].
Qed.

Lemma display_nonempty d : dest_ok d → display_destination d ≠ [].
Proof.
  intros Hd%split_display Hn. rewrite Hn in Hd. done.
Qed.

Lemma nonzero_port_to_string p : 0 < p ≤ u16_max → nonzero_port (to_string p) = Some p.
Proof.
  intros Hp. unfold nonzero_port, parse_u16. rewrite from_str_radix_to_string by lia.
  rewrite decide_True by lia. bind_simpl. by destruct (Z.eqb_spec p 0); [lia|].
Qed.

Lemma split_once_digits p : 0 ≤ p → split_once 45 (to_string p) = None.
Proof. intros Hp. apply split_once_None. intros H%to_string_digit; lia. Qed.

(** ** What a pattern denotes *)

Definition host_covers (p : HostPattern) (h : Host) : Prop :=
  match p, h with
  | AnyHost, _ => True
  | Exact want, Name got => got = want
  | Suffix suffix, Name got => ∃ labels, got = labels ++ suffix
  | IpPattern want, Ip got => got = want
  | Cidr addr len, Ip got =>
      is_ipv4 got = is_ipv4 addr ∧
      bits got / 2 ^ (width addr - len) = bits addr / 2 ^ (width addr - len)
  | _, _ => False
  end.

Definition port_covers (p : PortPattern) (port : Z) : Prop :=
  match p with
  | AnyPort => True
  | ExactPort x => port = x
  | Range lo hi => lo ≤ port ≤ hi
  end.

(** A pattern as the parser produces it. *)
Definition host_pattern_ok (p : HostPattern) : Prop :=
  match p with
  | AnyHost => True
  | Exact n => name_ok n
  | Suffix s => ∃ domain, s = 46 :: domain ∧ domain ≠ [] ∧ to_ascii_lowercase domain = domain
  | IpPattern ip => ip_ok ip
  | Cidr addr len => ip_ok addr ∧ 0 ≤ len ≤ width addr
  end.
Definition port_pattern_ok (p : PortPattern) : Prop :=
  match p with
  | AnyPort => True
  | ExactPort x => 0 < x ≤ u16_max
  | Range lo hi => 0 < lo ≤ hi ∧ hi ≤ u16_max
  end.
Definition spec_ok (s : DestinationSpec) : Prop :=
  host_pattern_ok (spec_host s) ∧ port_pattern_ok (spec_port s).

Lemma cidr_contains_spec addr len got :
  ip_ok addr → ip_ok got → 0 ≤ len ≤ width addr →
  cidr_contains addr len got = true ↔ host_covers (Cidr addr len) (Ip got).
Proof.
  intros Ha Hg Hl. destruct addr as [a|a], got as [g|g];
    cbn [cidr_contains octets ip_ok width host_covers is_ipv4 bits] in *; [|naive_solver..|].
  - rewrite (bits_match_spec 4) by done. change (8 * Z.of_nat 4) with 32. naive_solver.
  - rewrite (bits_match_spec 16) by done. change (8 * Z.of_nat 16) with 128. naive_solver.
Qed.

Lemma nonzero_port_Some text p : nonzero_port text = Some p → 0 < p ≤ u16_max.
Proof.
  unfold nonzero_port. intros (q & Hq & H)%bind_Some. destruct (Z.eqb_spec q 0); [done|].
  injection H as <-. apply from_str_radix_bound in Hq; [lia|done..].
Qed.

Lemma parse_port_pattern_ok text p : parse_port_pattern text = Ok p → port_pattern_ok p.
Proof.
  unfold parse_port_pattern. destruct (str_eqb text "*"); [by intros [= <-]|].
  destruct (split_once 45 text) as [[lo hi]|].
  - intros (l & Hl%ok_or_Ok & H)%bind_Ok. apply bind_Ok in H as (h & Hh%ok_or_Ok & H).
    apply from_str_radix_bound in Hl, Hh; [|done..].
    destruct (Z.eqb_spec l 0), (Z.eqb_spec h 0), (Z.ltb_spec h l); try done.
    injection H as <-. simpl. lia.
  - intros (q & Hq%ok_or_Ok%nonzero_port_Some & H)%bind_Ok. by injection H as <-.
Qed.

Lemma lower_legal c : legal_host_char (ascii_lower c) = legal_host_char c.
Proof.
  unfold ascii_lower. destruct (is_ascii_uppercase c) eqn:Hu; [|done].
  assert (forallb (λ c, Bool.eqb (legal_host_char (c + 32)) (legal_host_char c)) (seqZ 65 26) = true)
    as H by (by vm_compute).
  rewrite forallb_forall in H. apply Bool.eqb_prop, H, list_elem_of_In, elem_of_seqZ.
  unfold is_ascii_uppercase in Hu. apply andb_true_iff in Hu as [?%Z.leb_le ?%Z.leb_le]. lia.
Qed.

(** Lower-casing cannot turn a name into an address: an address without a colon
    has no letters. *)
Lemma lower_not_ip n :
  forallb legal_host_char n = true → parse_ip n = None → parse_ip (to_ascii_lowercase n) = None.
Proof.
  intros Hl Hip. destruct (parse_ip (to_ascii_lowercase n)) as [ip|] eqn:H; [|done].
  apply parse_ip_no_colon in H as H'.
  - destruct H' as [Hd _]. assert (to_ascii_lowercase n = n) as Heq; [|congruence].
    clear -Hd. unfold to_ascii_lowercase in *. induction n as [|c n IH]; [done|].
    apply Forall_cons in Hd as [Hc Hd]. cbn [map]. rewrite IH by done. f_equal.
    unfold ascii_lower in *. destruct (is_ascii_uppercase c) eqn:Hu; [|done]. exfalso.
    unfold dec_dot, is_ascii_digit, is_ascii_uppercase in *.
    rewrite orb_true_iff, !andb_true_iff, !Z.leb_le, Z.eqb_eq in *. lia.
  - intros Hin. unfold to_ascii_lowercase in Hin. apply list_elem_of_fmap in Hin as (c & Hc & Hcn).
    rewrite forallb_forall in Hl. apply list_elem_of_In, Hl in Hcn. rewrite <- lower_legal, <- Hc in Hcn.
    done.
Qed.

Lemma parse_host_literal_ok host h :
  parse_host_literal host = Ok h →
  match h with
  | Name n => name_ok n ∧ n = to_ascii_lowercase (unbracketed host)
  | Ip ip => ip_ok ip ∧ parse_ip (unbracketed host) = Some ip
  end.
Proof.
  unfold parse_host_literal. case_bool_decide; [done|].
  destruct (parse_ip (unbracketed host)) as [ip|] eqn:Hip.
  { intros [= <-]. split; [by apply parse_ip_ok in Hip|done]. }
  case_match eqn:Hex; [done|]. intros [= <-].
  assert (forallb legal_host_char (unbracketed host) = true) as Hl.
  { apply forallb_forall. intros c Hc. apply not_false_iff_true. intros Hf.
    apply not_true_iff_false in Hex. apply Hex, existsb_exists. exists c. by rewrite Hf. }
  split; [|done]. split_and!; [|apply to_ascii_lowercase_idem|by apply lower_not_ip].
  rewrite forallb_forall in Hl |- *. intros c Hc. unfold to_ascii_lowercase in Hc.
  apply in_map_iff in Hc as (x & <- & Hx). rewrite lower_legal. auto.
Qed.

Lemma parse_host_pattern_ok input host_part p :
  parse_host_pattern input host_part = Ok p → host_pattern_ok p.
Proof.
  unfold parse_host_pattern. destruct (str_eqb host_part "*"); [by intros [= <-]|].
  destruct (strip_prefix "*." host_part) as [suffix|].
  { case_bool_decide as Hs; [done|]. simpl. destruct (contains 42 suffix); [done|]. intros [= <-].
    exists (to_ascii_lowercase suffix). split_and!; [done| |apply to_ascii_lowercase_idem].
    unfold to_ascii_lowercase. by intros ?%map_eq_nil. }
  destruct (parse_ip host_part) as [ip|] eqn:Hip.
  { intros [= <-]. by apply parse_ip_ok in Hip. }
  intros (h & Hh%parse_host_literal_ok & H)%bind_Ok. injection H as <-.
  destruct h; [by destruct Hh as [? _]|by destruct Hh].
Qed.

Lemma parse_spec_ok input s :
  parse_spec input = Ok s → spec_ok s ∧ raw s = trim input.
Proof.
  unfold parse_spec. case_bool_decide as Hne; [done|]. destruct (str_eqb (trim input) "*"); [by intros [= <-]|].
  destruct (split_once 47 (trim input)) as [[addr len]|].
  - intros (h & Hh & H)%bind_Ok. injection H as <-. split; [|done]. split; [|done]. simpl.
    unfold parse_cidr in Hh. apply bind_Ok in Hh as (ip & Hip%ok_or_Ok & Hh).
    apply bind_Ok in Hh as (l & Hl%ok_or_Ok & Hh).
    apply parse_ip_ok in Hip. apply from_str_radix_bound in Hl; [|done..].
    destruct (Z.ltb_spec (if is_ipv6 ip then 128 else 32) l); [done|]. injection Hh as <-.
    simpl. split; [done|]. unfold wrap. rewrite Z.mod_small; destruct ip; simpl in *; lia.
  - intros ([hp p] & Hsplit & H)%bind_Ok. apply bind_Ok in H as (h & Hh%parse_host_pattern_ok & H).
    injection H as <-. split; [|done]. split; [done|]. simpl.
    destruct (split_host_port (trim input)) as [[a b]|].
    + apply bind_Ok in Hsplit as (q & Hq%parse_port_pattern_ok & H). by injection H as <- <-.
    + by injection Hsplit as <- <-.
Qed.

Lemma spec_matches_covers s d :
  spec_ok s → dest_ok d →
  spec_matches s d = true ↔ port_covers (spec_port s) (port d) ∧ host_covers (spec_host s) (host d).
Proof.
  intros [Hh Hp] [Hd Hdp]. unfold spec_matches. rewrite andb_true_iff.
  assert (port_matches (spec_port s) (port d) = true ↔ port_covers (spec_port s) (port d)) as ->.
  { destruct (spec_port s); simpl; [done|rewrite Z.eqb_eq; naive_solver|].
    by rewrite andb_true_iff, !Z.leb_le. }
  assert (host_matches (spec_host s) (host d) = true ↔ host_covers (spec_host s) (host d)) as ->; [|done].
  destruct (spec_host s), (host d); try done.
  - simpl. rewrite str_eqb_eq. naive_solver.
  - simpl. apply ends_with_true.
  - simpl. rewrite bool_decide_eq_true. naive_solver.
  - by apply cidr_contains_spec; [apply Hh| |apply Hh].
Qed.

Lemma spec_of_display d :
  dest_ok d →
  parse_spec (display_destination d) =
    Ok (mkSpec (match host d with Name n => Exact n | Ip ip => IpPattern ip end)
          (ExactPort (port d)) (display_destination d)).
Proof.
  intros Hd. pose proof Hd as [Hh Hp]. unfold parse_spec. rewrite trim_display by done.
  rewrite bool_decide_eq_false_2 by (by apply display_nonempty).
  assert (∀ c s, ¬ (45 ≤ c < 127 ∧ c ≠ 47) → c ∈ s → display_destination d ≠ s) as Hne.
  { intros c s Hc Hs <-. revert Hs. by apply display_not_in. }
  rewrite (proj2 (str_eqb_neq _ "*")) by (apply (Hne 42); [lia|left]).
  rewrite (proj2 (split_once_None 47 _)) by (apply display_not_in; [done|lia]).
  rewrite split_display by done. unfold parse_port_pattern.
  rewrite (proj2 (str_eqb_neq (to_string (port d)) "*")).
  2:{ intros Heq. assert (42 ∈ to_string (port d)) as H by (rewrite Heq; left).
      apply to_string_digit in H; lia. }
  rewrite split_once_digits, nonzero_port_to_string by lia. bind_simpl.
  unfold parse_host_pattern.
  assert (42 ∉ host_text (host d)) as H42 by (apply host_text_not_in; [done|lia]).
  rewrite (proj2 (str_eqb_neq _ "*")) by (intros Heq; apply H42; rewrite Heq; left).
  rewrite (proj2 (strip_prefix_None "*." _)) by (intros r Heq; apply H42; rewrite Heq; left).
  destruct (host d) as [n|ip] eqn:Hhd; cbn [host_text].
  - destruct Hh as (Hn & Hnok). rewrite (proj2 (proj2 Hnok)).
    pose proof (parse_host_text (Name n)) as Hpt. simpl in Hpt. rewrite Hpt by done. done.
  - by rewrite parse_display_ip.
Qed.

Lemma parse_display_destination d : dest_ok d → parse_destination (display_destination d) = Ok d.
Proof.
  intros Hd. pose proof Hd as [Hh Hp].
  unfold parse_destination. rewrite trim_display by done.
  rewrite bool_decide_eq_false_2 by (by apply display_nonempty). rewrite split_display by done.
  bind_simpl. rewrite nonzero_port_to_string by done. bind_simpl.
  rewrite parse_host_text by done. bind_simpl. by destruct d.
Qed.

Lemma display_as_pattern d :
  dest_ok d →
  ∃ s, parse_spec (display_destination d) = Ok s ∧ raw s = display_destination d ∧
    ∀ d', spec_matches s d' = true ↔ d' = d.
Proof.
  intros Hd. eexists. split; [by apply spec_of_display|]. split; [done|]. intros [h p]. destruct d as [hd pd].
  unfold spec_matches. simpl. rewrite andb_true_iff, Z.eqb_eq.
  destruct hd as [n|ip], h as [n'|ip']; simpl; rewrite ?str_eqb_eq, ?bool_decide_eq_true; naive_solver.
Qed.

(** A host that was split off a port is not an empty pair of brackets. *)
Lemma split_host_unbracketed text h p :
  split_host_port text = Some (h, p) → h ≠ [] → unbracketed h ≠ [].
Proof.
  intros Hs Hne Hu. unfold unbracketed in Hu.
  destruct (strip_prefix "[" h) as [r|] eqn:Hp; bind_simpl in Hu; [|done].
  apply strip_prefix_Some in Hp as ->.
  destruct (strip_suffix "]" r) as [x|] eqn:Hx; [|done]. simpl in Hu. subst x.
  apply strip_suffix_Some in Hx as ->. unfold split_host_port in Hs.
  destruct (strip_prefix "[" text) as [rest|] eqn:Ht.
  - apply bind_Some in Hs as ([a b] & Ha & Hs). apply bind_Some in Hs as (q & _ & Hs).
    injection Hs as -> _. apply split_once_Some in Ha as [_ Hn]. apply Hn. right. left.
  - apply bind_Some in Hs as ([a b] & Ha & Hs). case_match; [done|]. injection Hs as -> _.
    apply rsplit_once_Some in Ha as [-> _]. by apply strip_prefix_None with (r := "]" ++ 58 :: b) in Ht.
Qed.

Lemma parse_destination_valid input d : parse_destination input = Ok d → dest_ok d.
Proof.
  unfold parse_destination. case_bool_decide as Hne; [done|].
  intros ([h p] & Hs%ok_or_Ok & H)%bind_Ok. apply bind_Ok in H as (port & Hp%ok_or_Ok & H).
  apply bind_Ok in H as (host & Hh & H). injection H as <-.
  apply nonzero_port_Some in Hp. split; [|done]. simpl.
  apply parse_host_literal_ok in Hh as Hok. destruct host as [n|ip]; [|by destruct Hok].
  destruct Hok as [Hok Hn]. split; [|done]. rewrite Hn. unfold to_ascii_lowercase.
  intros Hnil%map_eq_nil. revert Hnil. eapply split_host_unbracketed; [exact Hs|].
  intros ->. done.
Qed.

(** ** Correctness *)

(** A pattern matches exactly what it denotes: an exact name or address, a
    name under a wildcard's domain, an address that agrees with a CIDR block on
    its leading bits, on a port within the pattern; a name never matches an
    address pattern nor an address a name pattern. *)
Theorem spec_matches_iff (input : str) (s : DestinationSpec) (d : Destination) :
  parse_spec input = Ok s → dest_ok d →
  spec_matches s d = true ↔ port_covers (spec_port s) (port d) ∧ host_covers (spec_host s) (host d).
Proof. intros [Hs _]%parse_spec_ok Hd. by apply spec_matches_covers. Qed.

Lemma spec_matches_iff_witness :
  parse_spec "10.0.0.0/9" = Ok (mkSpec (Cidr (V4 0x0a000000) 9) AnyPort "10.0.0.0/9") ∧
  (spec_matches (mkSpec (Cidr (V4 0x0a000000) 9) AnyPort "10.0.0.0/9")
    (mkDestination (Ip (V4 0x0a7fffff)) 22) = true ↔
   port_covers AnyPort 22 ∧ host_covers (Cidr (V4 0x0a000000) 9) (Ip (V4 0x0a7fffff))).
Proof.
  split; [by vm_compute|].
  apply (spec_matches_iff "10.0.0.0/9" (mkSpec (Cidr (V4 0x0a000000) 9) AnyPort "10.0.0.0/9")
    (mkDestination (Ip (V4 0x0a7fffff)) 22)); [by vm_compute|]. split; simpl; unfold u16_max; lia.
Defined.

(** Every parsed pattern is well formed, so matching never meets a
    malformed one: ports are non-zero and ranges ordered, names are lower case,
    legal and not addresses, a wildcard names a proper domain, and a prefix
    length fits its family.  A wildcard never matches its own apex. *)
Theorem parse_spec_wf (input : str) (s : DestinationSpec) :
  parse_spec input = Ok s →
  spec_ok s ∧ raw s = trim input ∧
  ∀ domain, spec_host s = Suffix (46 :: domain) → host_matches (spec_host s) (Name domain) = false.
Proof.
  intros [Hs Hr]%parse_spec_ok. split_and!; [done|done|]. intros domain ->. simpl.
  apply not_true_iff_false. rewrite ends_with_true. intros [r Hr'].
  apply (f_equal length) in Hr'. rewrite length_app in Hr'. simpl in Hr'. lia.
Qed.

Lemma parse_spec_wf_witness :
  parse_spec "  *.Example.com:8000-8100 " =
    Ok (mkSpec (Suffix ".example.com") (Range 8000 8100) "*.Example.com:8000-8100") ∧
  spec_ok (mkSpec (Suffix ".example.com") (Range 8000 8100) "*.Example.com:8000-8100") ∧
  host_matches (Suffix ".example.com") (Name "example.com") = false.
Proof.
  assert (parse_spec "  *.Example.com:8000-8100 " =
    Ok (mkSpec (Suffix ".example.com") (Range 8000 8100) "*.Example.com:8000-8100")) as H by by vm_compute.
  split; [exact H|]. destruct (parse_spec_wf _ _ H) as (Hs & _ & Ha).
  split; [exact Hs|]. exact (Ha "example.com" eq_refl).
Defined.

(** The text of a destination is a faithful rule: it parses back to the
    same destination, and as a pattern it matches that destination and no other. *)
Theorem destination_roundtrip (d : Destination) :
  dest_ok d →
  parse_destination (display_destination d) = Ok d ∧
  ∃ s, parse_spec (display_destination d) = Ok s ∧ raw s = display_destination d ∧
    ∀ d', spec_matches s d' = true ↔ d' = d.
Proof. intros Hd. split; [by apply parse_display_destination|by apply display_as_pattern]. Qed.

Lemma destination_roundtrip_witness :
  dest_ok (mkDestination (Name "api.example.com") 443) ∧
  parse_destination "api.example.com:443" = Ok (mkDestination (Name "api.example.com") 443) ∧
  ∃ s, parse_spec (display_destination (mkDestination (Name "api.example.com") 443)) = Ok s ∧
    raw s = of_string "api.example.com:443" ∧
    ∀ d', spec_matches s d' = true ↔ d' = mkDestination (Name "api.example.com") 443.
Proof.
  assert (dest_ok (mkDestination (Name "api.example.com") 443)) as H.
  { split; [|simpl; unfold u16_max; lia]. split; [done|]. by vm_compute. }
  split; [exact H|]. exact (destination_roundtrip _ H).
Defined.

