(* ===== verification/PolicyUnits.v ===== *)
(** * Quantities

    Model of [crates/skimasque-policy/src/units.rs]: durations, byte sizes, bit
    rates and connection rates as a policy writes them, and their rendering.

    A [Duration] is its length in nanoseconds.  A 64-bit float is the standard
    library's [spec_float] at precision 53 and maximal exponent 1024; a decimal
    literal is converted with a single correct rounding of its exact quotient,
    as [f64::from_str] does. *)

From Stdlib Require Import SpecFloat.
From S2P Require Import Prelude RustStr.

Inductive ParseUnitError : Type :=
  | Empty (input : str)
  | Malformed (kind value reason : str)
  | Overflow (input : str).

(** ** Durations *)

Definition Duration : Type := Z.
Definition ZERO : Duration := 0.
(** [Duration::MAX]: [u64::MAX] seconds and all but a nanosecond. *)
Definition duration_max : Duration := u64_max * 10 ^ 9 + 999999999.

Definition from_secs (s : Z) : Duration := s * 10 ^ 9.
Definition from_millis (ms : Z) : Duration := ms * 10 ^ 6.
Definition as_millis (d : Duration) : Z := d / 10 ^ 6.
Definition as_secs (d : Duration) : Z := d / 10 ^ 9.

(** [checked_mul] on [u64]. *)
Definition checked_mul64 (a b : Z) : option Z := if u64_max <? a * b then None else Some (a * b).
Definition checked_add_duration (a b : Duration) : option Duration :=
  if duration_max <? a + b then None else Some (a + b).

Definition duration_segment (input unit : str) (value : Z) : result ParseUnitError Duration :=
  if str_eqb unit "ms" then Ok (from_millis value)
  else if str_eqb unit "s" then Ok (from_secs value)
  else if str_eqb unit "m" then s ← ok_or (checked_mul64 value 60) (Overflow input); Ok (from_secs s)
  else if str_eqb unit "h" then s ← ok_or (checked_mul64 value 3600) (Overflow input); Ok (from_secs s)
  else if str_eqb unit "d" then s ← ok_or (checked_mul64 value 86400) (Overflow input); Ok (from_secs s)
  else if str_eqb unit [] then Err (Malformed "duration" input "a number with no unit")
  else Err (Malformed "duration" input "unknown unit").

(** The loop of [parse_duration]: every turn consumes at least a digit. *)
Fixpoint duration_loop (fuel : nat) (input : str) (total : Duration) (rest : str)
    : result ParseUnitError Duration :=
  match rest, fuel with
  | [], _ => Ok total
  | _, O => Ok total
  | _, S fuel =>
      let '(digits, after) := span is_ascii_digit rest in
      if bool_decide (after = []) then Err (Malformed "duration" input "a number with no unit")
      else if bool_decide (digits = []) then Err (Malformed "duration" input "expected a number")
      else
        value ← ok_or (parse_u64 digits) (Overflow input);
        let '(unit, rest) := span is_ascii_alphabetic after in
        segment ← duration_segment input unit value;
        total ← ok_or (checked_add_duration total segment) (Overflow input);
        duration_loop fuel input total rest
  end.

Definition parse_duration (input : str) : result ParseUnitError Duration :=
  let text := trim input in
  if bool_decide (text = []) then Err (Empty input)
  else duration_loop (length text) input ZERO text.

Fixpoint humanize_units (units : list (str * Z)) (ms : Z) (out : str) : Z * str :=
  match units with
  | [] => (ms, out)
  | (unit, size) :: units =>
      if size <=? ms then humanize_units units (ms mod size) (out ++ to_string (ms / size) ++ unit)
      else humanize_units units ms out
  end.

Definition duration_units : list (str * Z) :=
  [("d" : str, 86400000); ("h" : str, 3600000); ("m" : str, 60000); ("s" : str, 1000)].

Definition humanize_duration (duration : Duration) : str :=
  let ms := as_millis duration in
  if ms =? 0 then "0s"
  else
    let '(ms, out) := humanize_units duration_units ms [] in
    if 0 <? ms then out ++ to_string ms ++ "ms" else out.

(** ** Rates *)

Record Rate : Type := mkRate { count : Z; per : Duration }.

Definition rate_unit (unit : str) : option Duration :=
  if existsb (str_eqb unit) ["s" : str; "sec" : str; "second" : str] then Some (from_secs 1)
  else if existsb (str_eqb unit) ["m" : str; "min" : str; "minute" : str] then Some (from_secs 60)
  else if existsb (str_eqb unit) ["h" : str; "hour" : str] then Some (from_secs 3600)
  else None.

Definition parse_rate (input : str) : result ParseUnitError Rate :=
  let text := trim input in
  '(count, unit) ← ok_or (split_once 47 text)
    (Malformed "rate" input "expected <count>/<unit>, e.g. 10/s");
  count ← ok_or (parse_u64 (trim count)) (Malformed "rate" input "the count is not a number");
  per ← ok_or (rate_unit (trim unit)) (Malformed "rate" input "the unit must be s, m or h");
  Ok (mkRate count per).

(** ** 64-bit floats *)

Definition f64 : Type := spec_float.
Definition f64_of_Z (n : Z) : f64 := binary_normalize 53 1024 n 0 false.
Definition f64_mul : f64 → f64 → f64 := SFmul 53 1024.
Definition f64_div : f64 → f64 → f64 := SFdiv 53 1024.

(** The value [m / 10^k], rounded once to nearest even. *)
Definition f64_of_decimal (negative : bool) (m : Z) (k : nat) : f64 :=
  if m =? 0 then S754_zero negative
  else
    let '(q, e, loc) := SFdiv_core_binary 53 1024 m 0 (10 ^ Z.of_nat k) 0 in
    binary_round_aux 53 1024 negative q e loc.

Fixpoint decimal_value (ds : str) (acc : Z) : Z :=
  match ds with [] => acc | c :: ds => decimal_value ds (acc * 10 + (c - 48)) end.

(** [f64::from_str] on text without letters: an optional sign, digits, an
    optional point and more digits, at least one digit in all. *)
Definition parse_f64 (s : str) : option f64 :=
  let '(negative, s) :=
    match s with
    | c :: s' => if c =? 45 then (true, s') else if c =? 43 then (false, s') else (false, s)
    | [] => (false, [])
    end in
  let '(whole, rest) := span is_ascii_digit s in
  '(fraction, rest) ←
    match rest with
    | c :: rest' => if c =? 46 then Some (span is_ascii_digit rest') else None
    | [] => Some ([], [])
    end;
  if bool_decide (rest = []) && negb (bool_decide (whole ++ fraction = []))
  then Some (f64_of_decimal negative (decimal_value (whole ++ fraction) 0) (length fraction))
  else None.

Definition f64_is_finite (x : f64) : bool :=
  match x with S754_zero _ | S754_finite _ _ _ => true | _ => false end.

(** [x.round() as u64]: half away from zero, then saturating. *)
Definition f64_round_u64 (x : f64) : Z :=
  match x with
  | S754_finite false m e =>
      Z.min u64_max
        (if 0 <=? e then Z.pos m * 2 ^ e else (Z.pos m + 2 ^ (- e - 1)) / 2 ^ (- e))
  | S754_infinity false => u64_max
  | _ => 0
  end.

Definition split_scalar (input kind : str) : result ParseUnitError (f64 * str) :=
  let text := trim input in
  if bool_decide (text = []) then Err (Empty input)
  else
    let '(number, unit) := span (λ c, negb (is_ascii_alphabetic c)) text in
    let number := trim number in
    if bool_decide (number = []) then Err (Malformed kind input "expected a number")
    else
      value ← ok_or (parse_f64 number) (Malformed kind input "not a number");
      if SFltb value (S754_zero false) then Err (Malformed kind input "must not be negative")
      else Ok (value, trim unit).

(** The first entry whose unit is [unit]. *)
Fixpoint unit_lookup (table : list (str * Z)) (unit : str) : option f64 :=
  match table with
  | [] => None
  | (u, m) :: table => if str_eqb unit u then Some (f64_of_Z m) else unit_lookup table unit
  end.

Definition byte_units : list (str * Z) :=
  [([], 1); ("b" : str, 1); ("kb" : str, 10 ^ 3); ("mb" : str, 10 ^ 6); ("gb" : str, 10 ^ 9);
   ("tb" : str, 10 ^ 12); ("pb" : str, 10 ^ 15); ("kib" : str, 1024); ("mib" : str, 1024 ^ 2);
   ("gib" : str, 1024 ^ 3); ("tib" : str, 1024 ^ 4); ("pib" : str, 1024 ^ 5)].
Definition bitrate_units : list (str * Z) :=
  [([], 1); ("bps" : str, 1); ("kbps" : str, 10 ^ 3); ("mbps" : str, 10 ^ 6);
   ("gbps" : str, 10 ^ 9); ("tbps" : str, 10 ^ 12)].

(** The common tail of [parse_bytes] and [parse_bitrate]: scale, check, round. *)
Definition scale_to_u64 (input : str) (value multiplier : f64) : result ParseUnitError Z :=
  let scaled := f64_mul value multiplier in
  if negb (f64_is_finite scaled) || SFltb scaled (S754_zero false)
     || SFleb (f64_of_Z u64_max) scaled
  then Err (Overflow input)
  else Ok (f64_round_u64 scaled).

Definition parse_bytes (input : str) : result ParseUnitError Z :=
  '(value, unit) ← split_scalar input "byte size";
  multiplier ← ok_or (unit_lookup byte_units (to_ascii_lowercase unit))
                 (Malformed "byte size" input "unknown unit");
  scale_to_u64 input value multiplier.

Definition parse_bitrate (input : str) : result ParseUnitError Z :=
  '(value, unit) ← split_scalar input "bit rate";
  multiplier ← ok_or (unit_lookup bitrate_units (to_ascii_lowercase unit))
                 (Malformed "bit rate" input "unknown unit; expected e.g. Mbps");
  scale_to_u64 input value multiplier.

(** [Duration::as_secs_f64] and [Rate::per_second]. *)
Definition as_secs_f64 (d : Duration) : f64 :=
  SFadd 53 1024 (f64_of_Z (as_secs d)) (f64_div (f64_of_Z (d mod 10 ^ 9)) (f64_of_Z (10 ^ 9))).
Definition per_second (r : Rate) : f64 :=
  let window := as_secs_f64 (per r) in
  if SFeqb window (S754_zero false) then S754_infinity false
  else f64_div (f64_of_Z (count r)) window.

Definition decimal_prefixes : list (str * Z) :=
  [("T" : str, 10 ^ 12); ("G" : str, 10 ^ 9); ("M" : str, 10 ^ 6); ("k" : str, 10 ^ 3)].

Fixpoint humanize_prefixes (prefixes : list (str * Z)) (value : Z) (unit : str) : str :=
  match prefixes with
  | [] => to_string value ++ unit
  | (prefix, size) :: prefixes =>
      if (size <=? value) && (value mod size =? 0) then to_string (value / size) ++ prefix ++ unit
      else humanize_prefixes prefixes value unit
  end.
Definition humanize_decimal (value : Z) (unit : str) : str :=
  humanize_prefixes decimal_prefixes value unit.

(** ** Durations round trip *)

(** A unit word [u] standing for [size] milliseconds. *)
Definition unit_ok (input u : str) (size : Z) : Prop :=
  u ≠ [] ∧ Forall (λ c, is_ascii_alphabetic c = true) u ∧
  ∀ w, 0 ≤ w ≤ u64_max → w * size ≤ as_millis duration_max →
    duration_segment input u w = Ok (w * size * 10 ^ 6).

(** What may follow a segment: nothing, or the digits of the next one. *)
Definition segment_end (rest : str) : Prop :=
  match rest with [] => True | c :: _ => is_ascii_digit c = true end.

Lemma digit_not_alphabetic c : is_ascii_digit c = true → is_ascii_alphabetic c = false.
Proof.
  unfold is_ascii_digit, is_ascii_alphabetic, is_ascii_lowercase, is_ascii_uppercase.
  rewrite andb_true_iff, !Z.leb_le. intros H. cmp_cases; done.
Qed.
Lemma alphabetic_not_digit c : is_ascii_alphabetic c = true → is_ascii_digit c = false.
Proof.
  intros H. destruct (is_ascii_digit c) eqn:Hd; [|done]. apply digit_not_alphabetic in Hd. congruence.
Qed.

Lemma duration_loop_segment fuel input total w u rest :
  0 ≤ w ≤ u64_max → u ≠ [] → Forall (λ c, is_ascii_alphabetic c = true) u → segment_end rest →
  duration_loop (S fuel) input total (to_string w ++ u ++ rest) =
    (segment ← duration_segment input u w;
     total ← ok_or (checked_add_duration total segment) (Overflow input);
     duration_loop fuel input total rest).
Proof.
  intros Hw Hu Hua Hr. destruct (to_string_spec w) as (c & ds & Hts & Hd & _); [lia|].
  assert (duration_loop (S fuel) input total (to_string w ++ u ++ rest) =
    (let '(digits, after) := span is_ascii_digit (to_string w ++ u ++ rest) in
      if bool_decide (after = []) then Err (Malformed "duration" input "a number with no unit")
      else if bool_decide (digits = []) then Err (Malformed "duration" input "expected a number")
      else
        value ← ok_or (parse_u64 digits) (Overflow input);
        let '(unit, rest) := span is_ascii_alphabetic after in
        segment ← duration_segment input unit value;
        total ← ok_or (checked_add_duration total segment) (Overflow input);
        duration_loop fuel input total rest)) as ->
    by (by rewrite Hts).
  rewrite span_app; [|by rewrite Hts|].
  2:{ destruct u as [|x u]; [done|]. simpl. apply Forall_cons in Hua as [? _].
      by apply alphabetic_not_digit. }
  rewrite (bool_decide_eq_false_2 (u ++ rest = [])) by (by intros [? _]%app_nil).
  rewrite (bool_decide_eq_false_2 (to_string w = [])) by (by rewrite Hts).
  unfold parse_u64. rewrite from_str_radix_to_string, decide_True by lia. bind_simpl.
  rewrite span_app; [done|done|]. destruct rest as [|x rest]; [done|]. by apply digit_not_alphabetic.
Qed.

(** Segments written one after the other. *)
Definition render (segs : list (Z * str)) : str := flat_map (λ '(w, u), to_string w ++ u) segs.

Lemma render_end segs : Forall (λ s : Z * str, 0 ≤ s.1) segs → segment_end (render segs).
Proof.
  intros H. destruct H as [|[w u] segs Hw _]; [done|]. simpl in Hw |- *.
  destruct (to_string_spec w Hw) as (c & ds & -> & Hd & _). simpl. by apply Forall_cons in Hd as [? _].
Qed.

(** [segs] with the size of each unit, in milliseconds. *)
Definition segs_total (segs : list (Z * str * Z)) : Z := fold_right (λ s t, s.1.1 * s.2 + t) 0 segs.

Definition segs_ok (input : str) : list (Z * str * Z) → Prop :=
  Forall (λ s, 0 ≤ s.1.1 ≤ u64_max ∧ 0 < s.2 ∧ unit_ok input s.1.2 s.2).

Lemma segs_total_nonneg input segs : segs_ok input segs → 0 ≤ segs_total segs.
Proof. induction 1 as [|[[w u] size] segs (? & ? & _) _ IH]; simpl in *; [lia|nia]. Qed.

Lemma duration_loop_render input segs fuel total :
  segs_ok input segs → 0 ≤ total → total + segs_total segs * 10 ^ 6 ≤ duration_max →
  (length (render (fst <$> segs)) ≤ fuel)%nat →
  duration_loop fuel input total (render (fst <$> segs)) = Ok (total + segs_total segs * 10 ^ 6).
Proof.
  intros H. revert fuel total. induction H as [|[[w u] size] segs (Hw & Hs & Hu) Hsegs IH];
    intros fuel total Ht Hmax Hf; cbn [segs_total fold_right fst snd] in *.
  { rewrite Z.add_0_r. by destruct fuel. }
  fold (segs_total segs) in *.
  pose proof (segs_total_nonneg input segs Hsegs) as Hnn.
  assert (w * size ≤ as_millis duration_max) as Hle.
  { unfold as_millis. apply Z.div_le_lower_bound; [lia|]. nia. }
  destruct Hu as (Hne & Hal & Hseg). pose proof (Hseg w Hw Hle) as Hd.
  assert (render (fst <$> ((w, u, size) :: segs)) = to_string w ++ u ++ render (fst <$> segs)) as Hr
    by (unfold render; cbn [fmap list_fmap flat_map fst]; by rewrite <- app_assoc).
  rewrite Hr in Hf |- *. pose proof (to_string_nonempty w ltac:(lia)) as Hnt.
  destruct fuel as [|fuel]; [destruct (to_string w); [done|simpl in Hf; lia]|].
  rewrite duration_loop_segment; [|lia|done|done|].
  2:{ apply render_end, Forall_fmap. eapply Forall_impl; [exact Hsegs|]. naive_solver. }
  rewrite Hd. bind_simpl. unfold checked_add_duration.
  destruct (Z.ltb_spec duration_max (total + w * size * 10 ^ 6)); [nia|]. bind_simpl.
  rewrite IH; [f_equal; lia|nia|lia|].
  rewrite !length_app in Hf. destruct (to_string w); [done|]. simpl in Hf. lia.
Qed.

Lemma duration_max_millis : as_millis duration_max = u64_max * 1000 + 999.
Proof. done. Qed.

Lemma humanize_units_segs input units ms out :
  0 ≤ ms ≤ as_millis duration_max →
  Forall (λ us : str * Z, 1000 ≤ us.2 ∧ unit_ok input us.1 us.2) units →
  ∃ segs ms', humanize_units units ms out = (ms', out ++ render (fst <$> segs)) ∧
    segs_ok input segs ∧ segs_total segs + ms' = ms ∧ 0 ≤ ms' ∧
    (∀ u size, (u, size) ∈ units → ms' < size).
Proof.
  intros Hms H. revert ms out Hms. induction H as [|[u size] units [Hs Hu] Hunits IH]; intros ms out Hms.
  { exists [], ms. rewrite app_nil_r. split_and!; [done|apply Forall_nil_2|simpl; lia|lia|].
    intros u size []%elem_of_nil. }
  cbn [humanize_units fst snd] in *. destruct (Z.leb_spec size ms) as [Hle|Hlt].
  - destruct (IH (ms mod size) (out ++ to_string (ms / size) ++ u)) as (segs & ms' & Heq & HF & Hsum & Hp & Hlt).
    { pose proof (Z.mod_pos_bound ms size ltac:(lia)). lia. }
    exists ((ms / size, u, size) :: segs), ms'. split_and!.
    + rewrite Heq. unfold render. cbn [fmap list_fmap flat_map fst]. by rewrite <- !app_assoc.
    + constructor; [|done]. split_and!; [apply Z.div_pos; lia| |simpl; lia|done].
      apply Z.lt_succ_r, Z.div_lt_upper_bound; [lia|].
      rewrite duration_max_millis in Hms. unfold u64_max in *. nia.
    + cbn [segs_total fold_right fst snd]. fold (segs_total segs).
      pose proof (Z.div_mod ms size ltac:(lia)). lia.
    + done.
    + intros u' size' [Heq'|Hin]%elem_of_cons; [|by eapply Hlt].
      injection Heq' as -> ->. pose proof (segs_total_nonneg input segs HF).
      pose proof (Z.mod_pos_bound ms size ltac:(lia)). lia.
  - destruct (IH ms out) as (segs & ms' & Heq & HF & Hsum & Hp & Hlt'); [done|].
    exists segs, ms'. split_and!; [done..|]. intros u' size' [Heq'|Hin]%elem_of_cons; [|by eapply Hlt'].
    injection Heq' as -> ->. pose proof (segs_total_nonneg input segs HF). lia.
Qed.

Lemma checked_mul64_ok a b : a * b ≤ u64_max → checked_mul64 a b = Some (a * b).
Proof. intros H. unfold checked_mul64. by destruct (Z.ltb_spec u64_max (a * b)); [lia|]. Qed.

Lemma unit_ok_intro input u size :
  u ≠ [] → forallb is_ascii_alphabetic u = true →
  (∀ w, 0 ≤ w ≤ u64_max → w * size ≤ u64_max * 1000 + 999 →
    duration_segment input u w = Ok (w * size * 10 ^ 6)) → unit_ok input u size.
Proof.
  intros Hne Hal Hseg. split_and!; [done| |by rewrite duration_max_millis].
  apply Forall_forall. intros c Hc. rewrite forallb_forall in Hal. by apply Hal, list_elem_of_In.
Qed.

Lemma units_ok input :
  unit_ok input "ms" 1 ∧
  Forall (λ us : str * Z, 1000 ≤ us.2 ∧ unit_ok input us.1 us.2) duration_units.
Proof.
  split; [|repeat (apply Forall_cons_2; [split; [done|]|]); [..|apply Forall_nil_2]];
    (apply unit_ok_intro; [done|done|]); intros w Hw Hle; cbn [fst snd] in Hle |- *.
  - change (Ok (E := ParseUnitError) (from_millis w) = Ok (w * 1 * 10 ^ 6)).
    unfold from_millis. f_equal. lia.
  - change ((s ← ok_or (checked_mul64 w 86400) (Overflow input); Ok (from_secs s)) =
      Ok (w * 86400000 * 10 ^ 6)).
    rewrite checked_mul64_ok by lia. bind_simpl. unfold from_secs. f_equal. lia.
  - change ((s ← ok_or (checked_mul64 w 3600) (Overflow input); Ok (from_secs s)) =
      Ok (w * 3600000 * 10 ^ 6)).
    rewrite checked_mul64_ok by lia. bind_simpl. unfold from_secs. f_equal. lia.
  - change ((s ← ok_or (checked_mul64 w 60) (Overflow input); Ok (from_secs s)) =
      Ok (w * 60000 * 10 ^ 6)).
    rewrite checked_mul64_ok by lia. bind_simpl. unfold from_secs. f_equal. lia.
  - change (Ok (E := ParseUnitError) (from_secs w) = Ok (w * 1000 * 10 ^ 6)).
    unfold from_secs. f_equal. lia.
Qed.

Lemma render_chars segs :
  Forall (λ s : Z * str, 0 ≤ s.1 ∧ Forall (λ c, is_ascii_alphabetic c = true) s.2) segs →
  Forall (λ c, is_whitespace c = false) (render segs).
Proof.
  induction 1 as [|[w u] segs [Hw Hu] _ IH]; [constructor|]. unfold render. cbn [flat_map fst snd] in *.
  apply Forall_app_2; [apply Forall_app_2|done].
  - apply Forall_forall. intros c Hc%to_string_digit; [|done]. apply printable_not_whitespace. lia.
  - eapply Forall_impl; [exact Hu|]. intros c. simpl.
    unfold is_ascii_alphabetic, is_ascii_lowercase, is_ascii_uppercase.
    rewrite orb_true_iff, !andb_true_iff, !Z.leb_le. intros. apply printable_not_whitespace. lia.
Qed.

(** The text of a duration is a list of valid segments that add up to it. *)
Lemma humanize_duration_segs input d :
  0 ≤ d ≤ duration_max →
  ∃ segs, humanize_duration d = render (fst <$> segs) ∧ segs ≠ [] ∧ segs_ok input segs ∧
    segs_total segs = as_millis d.
Proof.
  intros Hd. destruct (units_ok input) as [Hms Hunits].
  assert (0 ≤ as_millis d ≤ as_millis duration_max) as Hm.
  { unfold as_millis. split; [apply Z.div_pos; lia|apply Z.div_le_mono; lia]. }
  unfold humanize_duration. destruct (Z.eqb_spec (as_millis d) 0) as [->|Hne].
  { exists [(0, "s" : str, 1000)]. split_and!; [done|done| |done].
    apply Forall_cons_2; [|apply Forall_nil_2]. split_and!; [done|done|done|].
    rewrite Forall_forall in Hunits. apply (Hunits ("s" : str, 1000)). unfold duration_units.
    do 3 right. left. }
  destruct (humanize_units_segs input duration_units (as_millis d) [] Hm Hunits)
    as (segs & ms' & -> & Hok & Hsum & Hpos & Hlt). cbn [app].
  assert (ms' < 1000) as H1000 by (eapply (Hlt ("s" : str)); do 3 right; left).
  destruct (Z.ltb_spec 0 ms').
  - exists (segs ++ [(ms', "ms" : str, 1)]). split_and!.
    + unfold render. rewrite fmap_app, flat_map_app. simpl. by rewrite app_nil_r.
    + by intros [_ ?]%app_nil.
    + apply Forall_app_2; [done|]. apply Forall_cons_2; [|apply Forall_nil_2].
      split_and!; [done|unfold u64_max; simpl; lia|done|done].
    + rewrite <- Hsum. clear. induction segs as [|[[w u] size] segs IH]; simpl in *; [lia|].
      fold (segs_total segs) in *. unfold segs_total in *. lia.
  - exists segs. split_and!; [done| |done|lia]. intros ->. simpl in Hsum. lia.
Qed.

(** ** Correctness *)

(** Durations round trip: the rendering of any duration, to the
    millisecond, parses back to it, without overflow up to the largest one. *)
Theorem duration_roundtrip (d : Duration) :
  0 ≤ d ≤ duration_max → parse_duration (humanize_duration d) = Ok (from_millis (as_millis d)).
Proof.
  intros Hd. destruct (humanize_duration_segs (humanize_duration d) d Hd) as (segs & Heq & Hne & Hok & Hsum).
  unfold parse_duration.
  assert (trim (humanize_duration d) = humanize_duration d) as Htrim.
  { apply trim_id. rewrite Heq. apply render_chars, Forall_fmap. eapply Forall_impl; [exact Hok|].
    intros [[w u] size] (? & _ & _ & ? & _). simpl in *. split; [lia|done]. }
  rewrite Htrim. rewrite bool_decide_eq_false_2.
  2:{ rewrite Heq. destruct Hok as [|[[w u] size] segs (Hw & _ & Hu & _) _]; [done|].
      unfold render. simpl in *. intros [[_ ?]%app_nil _]%app_nil. done. }
  pose proof (duration_loop_render (humanize_duration d) segs (length (humanize_duration d)) ZERO Hok)
    as Hloop. rewrite <- Heq, Hsum in Hloop. rewrite Hloop; [|done| |done].
  - done.
  - unfold ZERO, as_millis. pose proof (Z.mul_div_le d (10 ^ 6)). lia.
Qed.

Lemma duration_roundtrip_witness :
  humanize_duration (from_secs 5400) = of_string "1h30m" ∧
  parse_duration (humanize_duration (from_secs 5400)) =
    Ok (from_millis (as_millis (from_secs 5400))).
Proof. split; [done|]. apply duration_roundtrip. by vm_compute. Defined.
