(* ===== verification/Floats.v ===== *)
(** * 64-bit floats

    The operations on [f64] the gateway uses beyond those of [PolicyUnits], and the
    lemmas both share: whole numbers below 2^53 are exact, also when they are
    multiplied, read from decimal text or rounded back. *)

From S2P Require Import Prelude RustStr PolicyUnits.
From Stdlib Require Import SpecFloat.

(** ** More of [f64] *)

Definition f64_add : f64 → f64 → f64 := SFadd 53 1024.
Definition f64_sub : f64 → f64 → f64 := SFsub 53 1024.
Definition f64_is_nan (x : f64) : bool := match x with S754_nan => true | _ => false end.

(** [f64::min] and [f64::max]: a NaN is ignored when the other is a number. *)
Definition f64_min (x y : f64) : f64 :=
  if f64_is_nan x then y else if f64_is_nan y then x else if SFleb x y then x else y.
Definition f64_max (x y : f64) : f64 :=
  if f64_is_nan x then y else if f64_is_nan y then x else if SFleb y x then x else y.

(** ** Whole numbers below [2^53] are exact *)

Abbreviation doubled j p := (Nat.iter j xO p).

Lemma digits_doubled j p : Zpos (digits2_pos (doubled j p)) = Zpos (digits2_pos p) + Z.of_nat j.
Proof.
  induction j as [|j IH]; [simpl; lia|].
  change (doubled (S j) p) with (xO (doubled j p)). cbn [digits2_pos]. rewrite Pos2Z.inj_succ, IH. lia.
Qed.

Lemma doubled_Z j p : Zpos (doubled j p) = Zpos p * 2 ^ Z.of_nat j.
Proof.
  induction j as [|j IH]; simpl Nat.iter; [simpl; lia|].
  rewrite Pos2Z.inj_xO, IH, Nat2Z.inj_succ, Z.pow_succ_r by lia. lia.
Qed.

Lemma iter_pos_nat {A} (f : A → A) n x : iter_pos f n x = Nat.iter (Pos.to_nat n) f x.
Proof.
  revert x. induction n as [n IH|n IH|]; intros x; simpl iter_pos; [| |done].
  - rewrite !IH, <- Nat.iter_add, Pos2Nat.inj_xI. cbn [Nat.mul].
    rewrite Nat.add_0_r, Nat.iter_succ_r. done.
  - rewrite !IH, <- Nat.iter_add, Pos2Nat.inj_xO. f_equal. lia.
Qed.

(** Shifting out zeros is exact. *)
Lemma shr_doubled j k p :
  Nat.iter j shr_1 (Build_shr_record (Zpos (doubled (j + k) p)) false false) =
  Build_shr_record (Zpos (doubled k p)) false false.
Proof. induction j as [|j IH]; [done|]. rewrite Nat.iter_succ_r. apply IH. Qed.

Lemma shr_nat mrs e n : shr mrs e (Z.of_nat n) = (Nat.iter n shr_1 mrs, e + Z.of_nat n).
Proof.
  destruct n as [|n]; [by rewrite Z.add_0_r|].
  change (Z.of_nat (S n)) with (Zpos (Pos.of_succ_nat n)) at 1. unfold shr.
  by rewrite iter_pos_nat, SuccNat2Pos.id_succ.
Qed.

Lemma shr_fexp_doubled p k d :
  Pos.to_nat (digits2_pos p) = d → (d ≤ 53)%nat → (53 - d ≤ k)%nat →
  shr_fexp 53 1024 (Zpos (doubled k p)) (- Z.of_nat k) loc_Exact =
    (Build_shr_record (Zpos (doubled (53 - d) p)) false false, Z.of_nat d - 53).
Proof.
  intros Hd H53 Hk. unfold shr_fexp, fexp, emin. cbn [Zdigits2 shr_record_of_loc].
  rewrite digits_doubled. pose proof (Pos2Nat.is_pos (digits2_pos p)) as Hpos.
  replace (Z.max _ _ - - Z.of_nat k) with (Z.of_nat (d + k - 53)) by lia.
  rewrite shr_nat. replace (doubled k p) with (doubled ((d + k - 53) + (53 - d)) p) by (f_equal; lia).
  rewrite shr_doubled.
  apply (f_equal (pair _)). lia.
Qed.

(** The float of a whole number, however it is scaled. *)
Definition exact_float (p : positive) : f64 :=
  let d := Pos.to_nat (digits2_pos p) in S754_finite false (doubled (53 - d) p) (Z.of_nat d - 53).

Lemma round_aux_doubled p k :
  (Pos.to_nat (digits2_pos p) ≤ 53)%nat → (53 - Pos.to_nat (digits2_pos p) ≤ k)%nat →
  binary_round_aux 53 1024 false (Zpos (doubled k p)) (- Z.of_nat k) loc_Exact = exact_float p.
Proof.
  intros H53 Hj. set (d := Pos.to_nat (digits2_pos p)) in *. pose proof (Pos2Nat.is_pos (digits2_pos p)) as Hpos.
  unfold binary_round_aux. rewrite (shr_fexp_doubled p k d) by done. cbn [shr_m loc_of_shr_record round_nearest_even].
  replace (Z.of_nat d - 53) with (- Z.of_nat (53 - d)) by lia.
  rewrite (shr_fexp_doubled p (53 - d) d) by done. cbn [shr_m].
  rewrite (proj2 (Z.leb_le _ _)) by lia. done.
Qed.

Lemma round_doubled p k :
  (Pos.to_nat (digits2_pos p) ≤ 53)%nat →
  binary_round 53 1024 false (doubled k p) (- Z.of_nat k) = exact_float p.
Proof.
  intros H53. set (d := Pos.to_nat (digits2_pos p)) in *. pose proof (Pos2Nat.is_pos (digits2_pos p)) as Hpos.
  unfold binary_round, shl_align, fexp, emin. rewrite digits_doubled.
  replace (Z.max _ _ - - Z.of_nat k) with (Z.of_nat d + Z.of_nat k - 53) by lia.
  destruct (Z.of_nat d + Z.of_nat k - 53) as [|q|q] eqn:Hq; [apply round_aux_doubled; lia..|].
  rewrite Pos2Nat.inj_iter. change (nat_rect _ ?x _ ?n) with (doubled n x). rewrite <- Nat.iter_add.
  replace (Z.max _ _) with (- Z.of_nat (Pos.to_nat q + k)) by lia. apply round_aux_doubled; lia.
Qed.

Lemma digits_le p n : (Zpos p < 2 ^ Z.of_nat n) → (Pos.to_nat (digits2_pos p) ≤ n)%nat.
Proof.
  revert p. induction n as [|n IH]; intros p; [simpl; lia|].
  rewrite Nat2Z.inj_succ, Z.pow_succ_r by lia. intros Hp.
  destruct p as [p|p|]; simpl; [| |lia]; specialize (IH p); lia.
Qed.

Lemma f64_of_pos p : Zpos p < 2 ^ 53 → f64_of_Z (Zpos p) = exact_float p.
Proof. intros Hp. apply (round_doubled p 0), digits_le. done. Qed.

Lemma shl_align_nat m e n : shl_align m e (e - Z.of_nat n) = (doubled n m, e - Z.of_nat n).
Proof.
  unfold shl_align. replace (e - Z.of_nat n - e) with (- Z.of_nat n) by lia.
  destruct n as [|n]; [simpl; f_equal; lia|].
  change (- Z.of_nat (S n)) with (Zneg (Pos.of_succ_nat n)). cbv iota.
  rewrite Pos2Nat.inj_iter, SuccNat2Pos.id_succ. done.
Qed.

Lemma f64_sub_one p : Zpos p < 2 ^ 53 → f64_sub (f64_of_Z (Zpos p)) (f64_of_Z 1) = f64_of_Z (Zpos p - 1).
Proof.
  intros Hp. pose proof (digits_le p 53 Hp) as Hd. pose proof (Pos2Nat.is_pos (digits2_pos p)) as Hpos.
  rewrite !f64_of_pos by lia. unfold exact_float at 1 2. set (d := Pos.to_nat (digits2_pos p)) in *.
  unfold f64_sub, SFsub. cbn [digits2_pos cond_Zopp]. change (Z.of_nat (Pos.to_nat 1) - 53) with (-52).
  replace (Z.min _ _) with (-52) by lia.
  assert (shl_align (doubled (53 - d) p) (Z.of_nat d - 53) (-52) = (doubled 52 p, -52)) as ->.
  { replace (-52) with (Z.of_nat d - 53 - Z.of_nat (d - 1)) by lia.
    rewrite shl_align_nat, <- Nat.iter_add. do 2 f_equal. lia. }
  assert (shl_align (doubled (53 - Pos.to_nat 1) xH) (-52) (-52) = (doubled 52 xH, -52)) as -> by done. cbn [fst].
  rewrite !doubled_Z. destruct (Zpos p - 1) as [|q|q] eqn:Hq; [|change (-52) with (- Z.of_nat 52)|lia].
  - replace (Zpos p) with 1 by lia. done.
  - replace (Zpos p * _ - _) with (Zpos q * 2 ^ Z.of_nat 52) by lia. rewrite <- doubled_Z.
    cbn [binary_normalize]. rewrite round_doubled by (apply digits_le; lia). by rewrite f64_of_pos by lia.
Qed.

Lemma digits_lower p : 2 ^ (Zpos (digits2_pos p) - 1) ≤ Zpos p.
Proof.
  induction p as [p IH|p IH|]; cbn [digits2_pos]; [| |done];
  rewrite Pos2Z.inj_succ; replace (Z.succ _ - 1) with (Z.succ (Zpos (digits2_pos p) - 1)) by lia;
  rewrite Z.pow_succ_r; lia.
Qed.

Lemma digits_upper p : Zpos p < 2 ^ Zpos (digits2_pos p).
Proof.
  induction p as [p IH|p IH|]; cbn [digits2_pos]; [| |done];
  rewrite Pos2Z.inj_succ, Z.pow_succ_r; lia.
Qed.

Lemma exact_le p q : (p ≤ q)%positive → SFleb (exact_float p) (exact_float q) = true.
Proof.
  intros Hpq. unfold exact_float, SFleb, SFcompare.
  assert (Zpos (digits2_pos p) ≤ Zpos (digits2_pos q)) as Hd.
  { apply Z.nlt_ge. intros Hlt. pose proof (digits_lower p). pose proof (digits_upper q).
    assert (2 ^ Zpos (digits2_pos q) ≤ 2 ^ (Zpos (digits2_pos p) - 1)) by (apply Z.pow_le_mono_r; lia). lia. }
  destruct (Z.compare_spec (Z.of_nat (Pos.to_nat (digits2_pos p)) - 53)
    (Z.of_nat (Pos.to_nat (digits2_pos q)) - 53)) as [Heq| |]; [|done|lia].
  replace (Pos.to_nat (digits2_pos q)) with (Pos.to_nat (digits2_pos p)) by lia.
  set (j := (53 - _)%nat). fold (Pos.compare (doubled j p) (doubled j q)).
  assert (Zpos (doubled j p) ≤ Zpos (doubled j q)) as Hle by (rewrite !doubled_Z; nia).
  destruct (Pos.compare_spec (doubled j p) (doubled j q)); [done..|lia].
Qed.

Lemma f64_le_exact m n : 0 ≤ m ≤ n → n < 2 ^ 53 → SFleb (f64_of_Z m) (f64_of_Z n) = true.
Proof.
  intros Hm Hn. destruct n as [|q|q], m as [|p|p]; try lia; [done| |].
  - by rewrite (f64_of_pos q).
  - rewrite !f64_of_pos by lia. apply exact_le. lia.
Qed.

Lemma f64_of_Z_finite n : 0 ≤ n < 2 ^ 53 → f64_is_finite (f64_of_Z n) = true ∧ f64_is_nan (f64_of_Z n) = false.
Proof. intros Hn. destruct n as [|p|p]; [done| |lia]. by rewrite f64_of_pos by lia. Qed.

(** ** Products, decimals and rounding *)

Lemma exact_mul a b :
  Zpos a * Zpos b < 2 ^ 53 → f64_mul (f64_of_Z (Zpos a)) (f64_of_Z (Zpos b)) = f64_of_Z (Zpos a * Zpos b).
Proof.
  intros Hab. change (Zpos a * Zpos b) with (Zpos (a * b)) in *.
  assert (Zpos a < 2 ^ 53 ∧ Zpos b < 2 ^ 53) as [Ha Hb] by nia.
  pose proof (digits_le a 53 Ha). pose proof (digits_le b 53 Hb). pose proof (digits_le (a * b) 53 Hab) as Hd.
  pose proof (Pos2Nat.is_pos (digits2_pos a)). pose proof (Pos2Nat.is_pos (digits2_pos b)).
  rewrite !f64_of_pos by done. unfold exact_float at 1 2, f64_mul, SFmul. cbn [xorb].
  set (da := Pos.to_nat (digits2_pos a)) in *. set (db := Pos.to_nat (digits2_pos b)) in *.
  assert (Zpos (doubled (53 - da) a * doubled (53 - db) b) = Zpos (doubled (106 - da - db) (a * b)%positive)) as ->.
  { rewrite Pos2Z.inj_mul, !doubled_Z, Pos2Z.inj_mul.
    replace (Z.of_nat (106 - da - db)) with (Z.of_nat (53 - da) + Z.of_nat (53 - db)) by lia.
    rewrite Z.pow_add_r by lia. lia. }
  replace (Z.of_nat da - 53 + (Z.of_nat db - 53)) with (- Z.of_nat (106 - da - db)) by lia.
  apply round_aux_doubled; [done|].
  enough (da + db - 1 ≤ Pos.to_nat (digits2_pos (a * b)))%nat by lia.
  pose proof (digits_upper (a * b)) as Hu. pose proof (digits_lower a) as La. pose proof (digits_lower b) as Lb.
  assert (2 ^ (Z.of_nat (da + db) - 2) < 2 ^ Zpos (digits2_pos (a * b))) as Hlt.
  { eapply Z.le_lt_trans; [|exact Hu]. rewrite Pos2Z.inj_mul.
    replace (Z.of_nat (da + db) - 2) with ((Zpos (digits2_pos a) - 1) + (Zpos (digits2_pos b) - 1)) by lia.
    rewrite Z.pow_add_r by lia. apply Z.mul_le_mono_nonneg; [lia|done|lia|done]. }
  apply Z.pow_lt_mono_r_iff in Hlt; lia.
Qed.

Lemma f64_mul_exact a b :
  0 ≤ a → 0 < b → a * b < 2 ^ 53 → b < 2 ^ 53 → f64_mul (f64_of_Z a) (f64_of_Z b) = f64_of_Z (a * b).
Proof.
  intros Ha Hb Hab Hb'. destruct b as [|b|b]; [lia| |lia]. destruct a as [|a|a]; [| |lia]; [|by apply exact_mul].
  rewrite (f64_of_pos b) by done. done.
Qed.

Lemma f64_of_decimal_exact n : 0 ≤ n < 2 ^ 53 → f64_of_decimal false n 0 = f64_of_Z n.
Proof.
  intros Hn. destruct n as [|p|p]; [done| |lia]. rewrite f64_of_pos by lia.
  pose proof (digits_le p 53 ltac:(lia)) as Hd. pose proof (Pos2Nat.is_pos (digits2_pos p)).
  set (d := Pos.to_nat (digits2_pos p)) in *.
  unfold f64_of_decimal. cbn [Z.eqb]. unfold SFdiv_core_binary, fexp, emin. cbn [Zdigits2].
  change (Zdigits2 (10 ^ Z.of_nat 0)) with 1. change (10 ^ Z.of_nat 0) with 1.
  replace (Z.min _ _) with (- Z.of_nat (54 - d)) by lia.
  replace (0 - 0 - - Z.of_nat (54 - d)) with (Z.of_nat (54 - d)) by lia.
  assert (match Z.of_nat (54 - d) with 0 => Zpos p | Zpos _ => Z.shiftl (Zpos p) (Z.of_nat (54 - d)) | Zneg _ => 0 end
    = Zpos (doubled (54 - d) p)) as ->.
  { rewrite doubled_Z, <- Z.shiftl_mul_pow2 by lia. destruct (Z.of_nat (54 - d)) eqn:E; [lia|done|lia]. }
  assert (Z.div_eucl (Zpos (doubled (54 - d) p)) 1 = (Zpos (doubled (54 - d) p), 0)) as ->.
  { pose proof (Z.div_1_r (Zpos (doubled (54 - d) p))) as H1. pose proof (Z.mod_1_r (Zpos (doubled (54 - d) p))) as H2.
    unfold Z.div, Z.modulo in H1, H2. destruct (Z.div_eucl _ 1). by subst. }
  change (new_location 1 0) with loc_Exact. apply round_aux_doubled; [done|lia].
Qed.

Lemma f64_round_exact n : 0 ≤ n < 2 ^ 53 → f64_round_u64 (f64_of_Z n) = n.
Proof.
  intros Hn. destruct n as [|p|p]; [done| |lia]. rewrite f64_of_pos by lia.
  pose proof (digits_le p 53 ltac:(lia)) as Hd. pose proof (Pos2Nat.is_pos (digits2_pos p)).
  unfold exact_float. set (d := Pos.to_nat (digits2_pos p)) in *. cbn [f64_round_u64]. rewrite doubled_Z.
  assert (Zpos p < u64_max) by (unfold u64_max; lia).
  destruct (Z.leb_spec 0 (Z.of_nat d - 53)) as [Hz|Hz].
  - replace (Z.of_nat d - 53) with 0 by lia. replace (Z.of_nat (53 - d)) with 0 by lia. lia.
  - replace (- (Z.of_nat d - 53)) with (Z.of_nat (53 - d)) by lia. set (k := Z.of_nat (53 - d)) in *.
    assert (0 < 2 ^ k) by (apply Z.pow_pos_nonneg; lia).
    assert (0 < 2 ^ (k - 1) < 2 ^ k) by (split; [apply Z.pow_pos_nonneg; lia|apply Z.pow_lt_mono_r; lia]).
    rewrite Z.div_add_l by lia. rewrite Z.div_small by lia. lia.
Qed.

Lemma f64_below_u64 n : 0 ≤ n < 2 ^ 53 → SFleb (f64_of_Z u64_max) (f64_of_Z n) = false.
Proof.
  intros Hn. destruct n as [|p|p]; [done| |lia]. rewrite f64_of_pos by lia.
  pose proof (digits_le p 53 ltac:(lia)) as Hd. unfold exact_float.
  change (f64_of_Z u64_max) with (S754_finite false 4503599627370496 12). unfold SFleb, SFcompare.
  destruct (Z.compare_spec 12 (Z.of_nat (Pos.to_nat (digits2_pos p)) - 53)); [lia|lia|done].
Qed.
