(* ===== verification/PolicyModel.v ===== *)
(** * Identities and policies

    Model of [crates/skimasque-policy/src/identity.rs] and
    [crates/skimasque-policy/src/model.rs]: who is asking, what a parsed policy
    holds, when a policy's match accepts an identity, and how a set of policies
    chooses the one that governs it. *)

From S2P Require Import Prelude RustStr PolicyDest PolicyUnits.

(** ** Identity *)

Inductive WorkloadKind : Type := Developer | Ci | Agent.
#[global] Instance WorkloadKind_eq_dec : EqDecision WorkloadKind.
Proof. solve_decision. Defined.

Definition kind_as_str (k : WorkloadKind) : str :=
  match k with Developer => "developer" | Ci => "ci" | Agent => "agent" end.
Definition kind_parse (s : str) : option WorkloadKind :=
  if str_eqb s "developer" then Some Developer
  else if str_eqb s "ci" then Some Ci
  else if str_eqb s "agent" then Some Agent
  else None.

Record WorkloadIdentity : Type := mkIdentity {
  organization : option str;
  repository : option str;
  workflow : option str;
  git_ref : option str;
  environment : option str;
  actor : option str;
  kind : option WorkloadKind;
  run_id : option str;
  runtime : option str;
  sid : option str;
}.

Definition branch (i : WorkloadIdentity) : option str :=
  r ← git_ref i; strip_prefix "refs/heads/" r.

Definition repository_name (i : WorkloadIdentity) : option str :=
  (λ repo, match rsplit_once 47 repo with Some (_, name) => name | None => repo end) <$> repository i.

(** ** Match *)

Record MatchSpec : Type := mkMatch {
  m_organization : option str;
  m_repository : option str;
  m_workflow : option str;
  m_git_ref : option str;
  m_branch : option str;
  m_environment : option str;
  m_actor : option str;
  m_kind : option WorkloadKind;
}.
Definition default_match : MatchSpec := mkMatch None None None None None None None None.

(** [if let Some(want) = &self.field { if !test(want) { return false } }]. *)
Definition constraint {A} (want : option A) (test : A → bool) : bool :=
  match want with Some w => test w | None => true end.

Definition ci_eq (want : str) (got : option str) : bool :=
  match got with Some g => eq_ignore_ascii_case g want | None => false end.
Definition field_eq (want : str) (got : option str) : bool := bool_decide (got = Some want).

Definition matches (m : MatchSpec) (i : WorkloadIdentity) : bool :=
  constraint (m_organization m) (λ org, ci_eq org (organization i)) &&
  constraint (m_repository m) (λ repo, ci_eq repo (repository i) || ci_eq repo (repository_name i)) &&
  constraint (m_workflow m) (λ w, field_eq w (workflow i)) &&
  constraint (m_git_ref m) (λ r, field_eq r (git_ref i)) &&
  constraint (m_branch m) (λ b, field_eq b (branch i)) &&
  constraint (m_environment m) (λ e, field_eq e (environment i)) &&
  constraint (m_actor m) (λ a, field_eq a (actor i)) &&
  constraint (m_kind m) (λ k, bool_decide (kind i = Some k)).

Definition specificity (m : MatchSpec) : nat :=
  length (List.filter id
    [is_some (m_organization m); is_some (m_repository m); is_some (m_workflow m);
     is_some (m_git_ref m); is_some (m_branch m); is_some (m_environment m);
     is_some (m_actor m); is_some (m_kind m)]).

(** ** Policies *)

Record SessionSpec : Type := mkSession { max_duration : option Duration }.
Record EgressSpec : Type := mkEgress { region : option str; ip_pool : option str }.
Record Limits : Type := mkLimits {
  bandwidth_bits_per_sec : option Z;
  total_bytes : option Z;
  concurrent_connections : option Z;
  concurrent_destinations : option Z;
  connection_rate : option Rate;
  packets_per_sec : option Z;
}.
Definition default_session : SessionSpec := mkSession None.
Definition default_limits : Limits := mkLimits None None None None None None.

Inductive Transport : Type := Tcp | Udp.
#[global] Instance Transport_eq_dec : EqDecision Transport.
Proof. solve_decision. Defined.
Definition transport_as_str (t : Transport) : str := match t with Tcp => "tcp" | Udp => "udp" end.

Inductive TransportPattern : Type := AnyTransport | OnlyTcp | OnlyUdp.
#[global] Instance TransportPattern_eq_dec : EqDecision TransportPattern.
Proof. solve_decision. Defined.

Definition transport_matches (p : TransportPattern) (t : Transport) : bool :=
  match p, t with
  | AnyTransport, _ | OnlyTcp, Tcp | OnlyUdp, Udp => true
  | _, _ => false
  end.
Definition as_word (p : TransportPattern) : option str :=
  match p with
  | AnyTransport => None
  | OnlyTcp => Some ("tcp" : str)
  | OnlyUdp => Some ("udp" : str)
  end.
Definition pattern_from (t : option Transport) : TransportPattern :=
  match t with None => AnyTransport | Some Tcp => OnlyTcp | Some Udp => OnlyUdp end.

Inductive AppPattern : Type := AnyApp | AppName (name : str).
#[global] Instance AppPattern_eq_dec : EqDecision AppPattern.
Proof. solve_decision. Defined.
Definition app_matches (p : AppPattern) (application : str) : bool :=
  match p with AnyApp => true | AppName name => eq_ignore_ascii_case name application end.

Inductive Action : Type := Allow | Deny.
#[global] Instance Action_eq_dec : EqDecision Action.
Proof. solve_decision. Defined.
Definition action_as_str (a : Action) : str := match a with Allow => "allow" | Deny => "deny" end.

Record Rule : Type := mkRule {
  rule_id : option str;
  application : AppPattern;
  transport : TransportPattern;
  action : Action;
  destinations : list DestinationSpec;
}.

Definition covers (r : Rule) (app : str) (t : Transport) : bool :=
  app_matches (application r) app && transport_matches (transport r) t.

Record PolicyTest : Type := mkTest {
  t_application : str;
  t_destination : str;
  t_transport : option Transport;
  t_expect : Action;
  t_description : option str;
}.
Definition test_transport (t : PolicyTest) : Transport := default Tcp (t_transport t).

Record Policy : Type := mkPolicy {
  p_name : str;
  match_spec : MatchSpec;
  session : SessionSpec;
  egress : option EgressSpec;
  limits : Limits;
  rules : list Rule;
  tests : list PolicyTest;
  baseline : bool;
}.

Definition PolicySet : Type := list Policy.

Definition get (ps : PolicySet) (name : str) : option Policy :=
  List.find (λ p, str_eqb (p_name p) name) ps.

(** ** Selection *)

(** [(specificity, Reverse(index))], compared lexicographically. *)
Definition key_le (a b : nat * Policy) : bool :=
  let sa := specificity (match_spec a.2) in
  let sb := specificity (match_spec b.2) in
  (sa <? sb)%nat || ((sa =? sb)%nat && (b.1 <=? a.1)%nat).

Definition candidate (i : WorkloadIdentity) (p : Policy) : bool :=
  negb (baseline p) && matches (match_spec p) i.

Definition select (ps : PolicySet) (i : WorkloadIdentity) : option Policy :=
  snd <$> max_by key_le (enumerate (List.filter (candidate i) ps)).

(** ** Selection, declaratively *)

Lemma key_le_total a b : key_le a b = true ∨ key_le b a = true.
Proof. unfold key_le. cmp_cases; auto. Qed.

Lemma key_le_trans a b c : key_le a b = true → key_le b c = true → key_le a c = true.
Proof. unfold key_le. cmp_cases; intros; done || lia. Qed.

Lemma key_le_spec a b :
  key_le a b = true →
  (specificity (match_spec a.2) ≤ specificity (match_spec b.2))%nat ∧
  (specificity (match_spec a.2) = specificity (match_spec b.2) → (b.1 ≤ a.1)%nat).
Proof. unfold key_le. cmp_cases; intros; done || lia. Qed.

(** [p] is the policy of [ps] that governs [i]: a candidate, none more specific,
    and the first of those equally specific. *)
Definition governs (ps : PolicySet) (i : WorkloadIdentity) (p : Policy) : Prop :=
  ∃ n, ps !! n = Some p ∧ candidate i p = true ∧
    ∀ k q, ps !! k = Some q → candidate i q = true →
      (specificity (match_spec q) ≤ specificity (match_spec p))%nat ∧
      (specificity (match_spec q) = specificity (match_spec p) → (n ≤ k)%nat).

Lemma elem_of_enumerate {A} (l : list A) n x : (n, x) ∈ enumerate l ↔ l !! n = Some x.
Proof.
  unfold enumerate. rewrite list_elem_of_lookup. setoid_rewrite list_lookup_imap_Some. split.
  - intros (i & y & Hy & [= -> ->]). done.
  - intros H. by exists n, x.
Qed.

Lemma select_governs ps i :
  match select ps i with
  | Some p => governs ps i p
  | None => ∀ p, p ∈ ps → candidate i p = false
  end.
Proof.
  unfold select. pose proof (max_by_spec key_le (enumerate (List.filter (candidate i) ps))
    key_le_total key_le_trans) as H.
  destruct (max_by key_le _) as [[n p]|]; cbn [fmap option_fmap option_map snd].
  - destruct H as [Hin Hmax]. apply elem_of_enumerate in Hin.
    apply filter_lookup_order in Hin as (j & Hj & Hc & Hall). exists j. split_and!; [done|done|].
    intros k q Hk Hq. destruct (Hall k q Hk Hq) as (m & Hm & Hle).
    destruct (key_le_spec (m, q) (n, p)) as [H1 H2]; [by apply Hmax, elem_of_enumerate|].
    split; [done|]. intros Heq. apply Hle, H2. done.
  - intros p Hp. apply not_true_iff_false. intros Hc.
    assert (p ∈ List.filter (candidate i) ps) as Hin.
    { apply list_elem_of_In, filter_In. split; [by apply list_elem_of_In|done]. }
    unfold enumerate in H. destruct (List.filter (candidate i) ps); [by apply elem_of_nil in Hin|done].
Qed.

Lemma governs_unique ps i p q : governs ps i p → governs ps i q → p = q.
Proof.
  intros (n & Hn & Hcp & Hp) (m & Hm & Hcq & Hq).
  destruct (Hp m q Hm Hcq) as [H1 H2]. destruct (Hq n p Hn Hcp) as [H3 H4].
  assert (n = m) as -> by (apply Nat.le_antisymm; [apply H2|apply H4]; lia). congruence.
Qed.

Lemma select_Some ps i p : select ps i = Some p ↔ governs ps i p.
Proof.
  pose proof (select_governs ps i) as H. split; [by intros Hs; rewrite Hs in H|].
  intros Hg. destruct (select ps i) as [q|].
  - f_equal. by eapply governs_unique.
  - exfalso. destruct Hg as (n & Hn & Hc & _). apply list_elem_of_lookup_2 in Hn.
    apply H in Hn. congruence.
Qed.

(** [m] asks for everything [m'] asks for, and perhaps more. *)
Definition option_le {A} (a b : option A) : Prop := ∀ x, a = Some x → b = Some x.
Definition match_le (m m' : MatchSpec) : Prop :=
  option_le (m_organization m) (m_organization m') ∧ option_le (m_repository m) (m_repository m') ∧
  option_le (m_workflow m) (m_workflow m') ∧ option_le (m_git_ref m) (m_git_ref m') ∧
  option_le (m_branch m) (m_branch m') ∧ option_le (m_environment m) (m_environment m') ∧
  option_le (m_actor m) (m_actor m') ∧ option_le (m_kind m) (m_kind m').

Lemma constraint_le {A} (a b : option A) test :
  option_le a b → constraint b test = true → constraint a test = true.
Proof. intros H. destruct a as [x|]; [|done]. by rewrite (H x eq_refl). Qed.
Lemma matches_le m m' i : match_le m m' → matches m' i = true → matches m i = true.
Proof.
  intros (? & ? & ? & ? & ? & ? & ? & ?). unfold matches. rewrite !andb_true_iff.
  intros [[[[[[[]]]]]]]. split_and!; eapply constraint_le; eassumption.
Qed.

Lemma length_filter_id b l : length (List.filter id (b :: l)) = (Nat.b2n b + length (List.filter id l))%nat.
Proof. by destruct b. Qed.
Lemma b2n_is_some_le {A} (a b : option A) :
  option_le a b → (Nat.b2n (is_some a) ≤ Nat.b2n (is_some b))%nat.
Proof. intros H. destruct a as [x|]; [by rewrite (H x eq_refl)|simpl; lia]. Qed.

Lemma specificity_le m m' : match_le m m' → (specificity m ≤ specificity m')%nat.
Proof.
  intros (H1 & H2 & H3 & H4 & H5 & H6 & H7 & H8). unfold specificity. rewrite !length_filter_id.
  repeat (apply Nat.add_le_mono; [by apply b2n_is_some_le|]). done.
Qed.

(** ** Correctness *)

(** Selection: the policy that governs an identity is the candidate (not a
    baseline, and its match accepts the identity) that constrains the most
    fields, the earliest in file order among equals; there is none exactly when
    no policy is a candidate. *)
Theorem select_most_specific (ps : PolicySet) (i : WorkloadIdentity) :
  (∀ p, select ps i = Some p ↔ governs ps i p) ∧
  (select ps i = None ↔ ∀ p, p ∈ ps → candidate i p = false).
Proof.
  split; [intros p; apply select_Some|]. pose proof (select_governs ps i) as H. split.
  - intros Hn. by rewrite Hn in H.
  - intros Hall. destruct (select ps i) as [p|]; [|done]. destruct H as (n & Hn & Hc & _).
    apply list_elem_of_lookup_2, Hall in Hn. congruence.
Qed.

(** Constraints only narrow: a match that asks for everything another one
    asks for, and more, accepts no further identity and is at least as specific. *)
Theorem match_narrows (m m' : MatchSpec) (i : WorkloadIdentity) :
  match_le m m' →
  (specificity m ≤ specificity m')%nat ∧ (matches m' i = true → matches m i = true).
Proof. intros H. split; [by apply specificity_le|by apply matches_le]. Qed.

Definition sample_match : MatchSpec :=
  mkMatch None (Some (of_string "acme/widget")) None None (Some (of_string "main")) None None None.
Definition sample_identity : WorkloadIdentity :=
  mkIdentity None (Some (of_string "Acme/Widget")) None (Some (of_string "refs/heads/main")) None None
    (Some Ci) None None None.

Lemma match_narrows_witness :
  match_le default_match sample_match ∧ matches sample_match sample_identity = true ∧
  (specificity default_match ≤ specificity sample_match)%nat ∧
  matches default_match sample_identity = true.
Proof.
  assert (match_le default_match sample_match) as H by by split_and!.
  split; [exact H|]. split; [by vm_compute|].
  destruct (match_narrows default_match sample_match sample_identity H) as [H1 H2].
  split; [exact H1|]. apply H2. by vm_compute.
Defined.
