(* ===== verification/PolicyEval.v ===== *)
(** * Evaluating a request

    Model of [crates/skimasque-policy/src/eval.rs]: the verdict of one policy,
    the verdict of a set with its pin and its baselines, and the explanation a
    denial carries. *)

From S2P Require Import Prelude RustStr RustNet PolicyDest PolicyUnits PolicyModel.

Record RequestContext : Type := mkContext {
  workload : WorkloadIdentity;
  c_application : str;
  c_transport : Transport;
  destination : Destination;
  requested_policy : option str;
}.

Inductive DenyReason : Type :=
  | NoPolicyMatch
  | NoMatchingAllowRule
  | ExplicitDeny (rule : str)
  | PolicyMismatch (requested : str) (selected : option str)
  | Baseline (policy rule : str).

Record Allowed : Type := mkAllowed {
  a_policy : str;
  a_rule : str;
  a_egress : option EgressSpec;
  a_limits : Limits;
  a_session : SessionSpec;
}.

Record Denied : Type := mkDenied {
  d_policy : option str;
  reason : DenyReason;
  suggested : str;
  closest : list str;
}.

Inductive Decision : Type :=
  | Allows (a : Allowed)
  | Denies (d : Denied).

Definition is_allow (d : Decision) : bool := match d with Allows _ => true | Denies _ => false end.
Definition decision_action (d : Decision) : Action :=
  match d with Allows _ => Allow | Denies _ => Deny end.

Definition quoted (s : str) : str := 34 :: s ++ [34].

Definition summary (r : DenyReason) : str :=
  match r with
  | NoPolicyMatch => "No policy matches this workload identity."
  | NoMatchingAllowRule => "No matching allow rule."
  | ExplicitDeny rule => "Denied by rule " ++ rule ++ "."
  | PolicyMismatch requested (Some selected) =>
      "Policy " ++ quoted requested ++ " does not apply to this identity; " ++ quoted selected ++ " does."
  | PolicyMismatch requested None =>
      "Policy " ++ quoted requested ++ " does not apply to this identity; no policy does."
  | Baseline policy rule =>
      "Denied by baseline policy " ++ quoted policy ++ ", rule " ++ rule ++ "; no policy can allow this."
  end.

Definition rule_label (r : Rule) (index : nat) : str :=
  default ("rule #" ++ to_string (Z.of_nat index)) (rule_id r).

Definition suggested_rule (ctx : RequestContext) : str :=
  let app : str := if bool_decide (c_application ctx = []) then "<app>" else c_application ctx in
  match c_transport ctx with
  | Tcp => "allow " ++ app ++ " " ++ display_destination (destination ctx)
  | Udp => "allow " ++ app ++ " udp " ++ display_destination (destination ctx)
  end.

(** ** Closest destinations *)

(** [s.rsplit_once(':').unwrap_or((s, ""))]. *)
Definition host_and_port (s : str) : str * str := default (s, []) (rsplit_once 58 s).

Fixpoint shared_labels (a b : list str) : nat :=
  match a, b with
  | x :: a, y :: b => if eq_ignore_ascii_case x y then S (shared_labels a b) else 0
  | _, _ => 0
  end.

Definition proximity (spec : str) (d : Destination) : Z :=
  let '(spec_host, spec_port) := host_and_port spec in
  let '(want_host, want_port) := host_and_port (display_destination d) in
  (if negb (bool_decide (spec_port = [])) && str_eqb spec_port want_port then 3 else 0) +
  Z.of_nat (shared_labels (rev (split 46 spec_host)) (rev (split 46 want_host))) * 2.

(** Higher score first, then the text. *)
Definition scored_le (a b : Z * str) : bool :=
  match a.1 ?= b.1 with
  | Gt => true
  | Lt => false
  | Eq => str_le a.2 b.2
  end.

(** [dedup_by_key]: drop an element whose key is that of the one kept before it. *)
Fixpoint dedup_text (prev : option str) (l : list (Z * str)) : list (Z * str) :=
  match l with
  | [] => []
  | x :: l => if bool_decide (prev = Some x.2) then dedup_text prev l
              else x :: dedup_text (Some x.2) l
  end.

Definition closest_destinations (rs : list Rule) (ctx : RequestContext) : list str :=
  let specs := flat_map destinations
    (List.filter (λ r, bool_decide (action r = Allow) &&
                       covers r (c_application ctx) (c_transport ctx)) rs) in
  let scored := map (λ s, (proximity (raw s) (destination ctx), raw s)) specs in
  take 3 (map snd (dedup_text None (sort_by scored_le scored))).

(** ** One policy *)

Definition identity_matches (p : Policy) (i : WorkloadIdentity) : bool := matches (match_spec p) i.

Definition deny (p : Policy) (ctx : RequestContext) (why : DenyReason) : Denied :=
  mkDenied (Some (p_name p)) why (suggested_rule ctx) (closest_destinations (rules p) ctx).

(** The rule speaks to the application, the transport and the destination. *)
Definition applies (r : Rule) (ctx : RequestContext) : bool :=
  covers r (c_application ctx) (c_transport ctx) &&
  existsb (λ d, spec_matches d (destination ctx)) (destinations r).

Fixpoint evaluate_rules (p : Policy) (ctx : RequestContext) (index : nat) (rs : list Rule) : Decision :=
  match rs with
  | [] => Denies (deny p ctx NoMatchingAllowRule)
  | rule :: rs =>
      if negb (covers rule (c_application ctx) (c_transport ctx)) then evaluate_rules p ctx (S index) rs
      else if negb (existsb (λ d, spec_matches d (destination ctx)) (destinations rule))
      then evaluate_rules p ctx (S index) rs
      else
        let label := rule_label rule index in
        match action rule with
        | Allow => Allows (mkAllowed (p_name p) label (egress p) (limits p) (session p))
        | Deny => Denies (deny p ctx (ExplicitDeny label))
        end
  end.

Definition policy_evaluate (p : Policy) (ctx : RequestContext) : Decision :=
  evaluate_rules p ctx 0 (rules p).

(** ** A set of policies *)

(** The first deny rule of a baseline that applies, and its position. *)
Fixpoint baseline_rule (ctx : RequestContext) (index : nat) (rs : list Rule) : option (nat * Rule) :=
  match rs with
  | [] => None
  | rule :: rs =>
      if bool_decide (action rule = Deny) && covers rule (c_application ctx) (c_transport ctx) &&
         existsb (λ d, spec_matches d (destination ctx)) (destinations rule)
      then Some (index, rule)
      else baseline_rule ctx (S index) rs
  end.

Fixpoint baseline_denial (ps : PolicySet) (ctx : RequestContext) : option Denied :=
  match ps with
  | [] => None
  | b :: ps =>
      if baseline b && matches (match_spec b) (workload ctx) then
        match baseline_rule ctx 0 (rules b) with
        | Some (index, rule) =>
            Some (mkDenied (Some (p_name b)) (Baseline (p_name b) (rule_label rule index)) [] [])
        | None => baseline_denial ps ctx
        end
      else baseline_denial ps ctx
  end.

Definition with_baseline (ps : PolicySet) (d : Decision) (ctx : RequestContext) : Decision :=
  match d with
  | Denies _ => d
  | Allows _ => match baseline_denial ps ctx with Some b => Denies b | None => d end
  end.

Definition evaluate (ps : PolicySet) (ctx : RequestContext) : Decision :=
  let selected := select ps (workload ctx) in
  let selected_name := p_name <$> selected in
  let judge :=
    match selected with
    | Some p => with_baseline ps (policy_evaluate p ctx) ctx
    | None => Denies (mkDenied None NoPolicyMatch (suggested_rule ctx) [])
    end in
  match requested_policy ctx with
  | Some requested =>
      if bool_decide (selected_name = Some requested) then judge
      else Denies (mkDenied selected_name (PolicyMismatch requested selected_name)
                     (suggested_rule ctx) [])
  | None => judge
  end.

Definition evaluate_named (ps : PolicySet) (name : str) (ctx : RequestContext) : option Decision :=
  (λ p, with_baseline ps (policy_evaluate p ctx) ctx) <$> get ps name.

(** ** First match wins *)

Definition first_applicable (rs : list Rule) (ctx : RequestContext) (i : nat) (r : Rule) : Prop :=
  rs !! i = Some r ∧ applies r ctx = true ∧
  ∀ j r', (j < i)%nat → rs !! j = Some r' → applies r' ctx = false.

Definition rule_decision (p : Policy) (ctx : RequestContext) (index : nat) (r : Rule) : Decision :=
  match action r with
  | Allow => Allows (mkAllowed (p_name p) (rule_label r index) (egress p) (limits p) (session p))
  | Deny => Denies (deny p ctx (ExplicitDeny (rule_label r index)))
  end.

Lemma evaluate_rules_cons p ctx index r rs :
  evaluate_rules p ctx index (r :: rs) =
    if applies r ctx then rule_decision p ctx index r else evaluate_rules p ctx (S index) rs.
Proof.
  unfold applies, rule_decision. cbn [evaluate_rules].
  by destruct (covers r _ _); simpl; [destruct (existsb _ _)|].
Qed.

Lemma is_allow_cons p ctx index r rs :
  is_allow (evaluate_rules p ctx index (r :: rs)) =
    if applies r ctx then bool_decide (action r = Allow) else is_allow (evaluate_rules p ctx (S index) rs).
Proof.
  rewrite evaluate_rules_cons. destruct (applies r ctx); [|done]. unfold rule_decision. by destruct (action r).
Qed.

Lemma evaluate_rules_first p ctx index rs i r :
  first_applicable rs ctx i r → evaluate_rules p ctx index rs = rule_decision p ctx (index + i) r.
Proof.
  revert index i. induction rs as [|r0 rs IH]; intros index i (Hi & Ha & Hb); [by rewrite lookup_nil in Hi|].
  rewrite evaluate_rules_cons. destruct i as [|i]; cbn [lookup list_lookup] in Hi.
  - injection Hi as ->. by rewrite Ha, Nat.add_0_r.
  - rewrite (Hb 0%nat r0) by (lia || done). rewrite IH with (i := i); [f_equal; lia|].
    split_and!; [done|done|]. intros j r' Hj Hr'. apply (Hb (S j)); [lia|done].
Qed.

Lemma evaluate_rules_none p ctx index rs :
  Forall (λ r, applies r ctx = false) rs →
  evaluate_rules p ctx index rs = Denies (deny p ctx NoMatchingAllowRule).
Proof.
  intros H. revert index. induction H as [|r rs Hr _ IH]; intros index; [done|].
  by rewrite evaluate_rules_cons, Hr.
Qed.

Lemma first_applicable_dec rs ctx :
  (∃ i r, first_applicable rs ctx i r) ∨ Forall (λ r, applies r ctx = false) rs.
Proof.
  induction rs as [|r rs IH]; [right; constructor|]. destruct (applies r ctx) eqn:Ha.
  - left. exists 0%nat, r. split_and!; [done|done|lia].
  - destruct IH as [(i & r' & Hi & Ha' & Hb)|Hall]; [left|right; by constructor].
    exists (S i), r'. split_and!; [done|done|]. intros [|j] x Hj Hx; cbn [lookup list_lookup] in Hx.
    + by injection Hx as ->.
    + apply (Hb j); [lia|done].
Qed.

(** ** Baselines *)

(** A deny rule of some baseline that matches the workload applies. *)
Definition baseline_denies (ps : PolicySet) (ctx : RequestContext) : Prop :=
  ∃ b r, b ∈ ps ∧ baseline b = true ∧ matches (match_spec b) (workload ctx) = true ∧
    r ∈ rules b ∧ action r = Deny ∧ applies r ctx = true.

Lemma baseline_rule_None ctx index rs :
  baseline_rule ctx index rs = None ↔ ∀ r, r ∈ rs → action r = Deny → applies r ctx = false.
Proof.
  revert index. induction rs as [|r rs IH]; intros index; cbn [baseline_rule].
  { split; [|done]. intros _ r []%elem_of_nil. }
  rewrite <- andb_assoc. fold (applies r ctx). destruct (applies r ctx) eqn:Ha.
  - rewrite andb_true_r. case_bool_decide as Hd.
    + split; [done|]. intros H. rewrite (H r) in Ha; [done|left|done].
    + rewrite IH. split; intros H x.
      * intros [->|Hx]%elem_of_cons; [done|by apply H].
      * intros Hx. apply H. by right.
  - rewrite andb_false_r, IH. split; intros H x.
    + intros [->|Hx]%elem_of_cons; [done|by apply H].
    + intros Hx. apply H. by right.
Qed.

Lemma baseline_rule_Some ctx index rs i r :
  baseline_rule ctx index rs = Some (i, r) → r ∈ rs ∧ action r = Deny ∧ applies r ctx = true.
Proof.
  revert index. induction rs as [|x rs IH]; intros index; cbn [baseline_rule]; [done|].
  rewrite <- andb_assoc. fold (applies x ctx). case_match eqn:Hc.
  - intros [= -> ->]. apply andb_true_iff in Hc as [?%bool_decide_eq_true ?]. split_and!; [left|done..].
  - intros (? & ? & ?)%IH. split_and!; [by right|done..].
Qed.

Lemma baseline_denial_None ps ctx : baseline_denial ps ctx = None ↔ ¬ baseline_denies ps ctx.
Proof.
  induction ps as [|b ps IH]; cbn [baseline_denial].
  { split; [|done]. intros _ (b & r & []%elem_of_nil & _). }
  assert (¬ (baseline b = true ∧ matches (match_spec b) (workload ctx) = true ∧
    ∃ r, r ∈ rules b ∧ action r = Deny ∧ applies r ctx = true) →
    (¬ baseline_denies ps ctx ↔ ¬ baseline_denies (b :: ps) ctx)) as Hskip.
  { intros Hno. split; intros H Hd; apply H.
    - destruct Hd as (b' & r & [->|Hb]%elem_of_cons & ? & ? & ? & ? & ?); [exfalso; apply Hno; eauto 10|].
      by exists b', r.
    - destruct Hd as (b' & r & Hb & ? & ? & ? & ? & ?). exists b', r. split_and!; [by right|done..]. }
  destruct (baseline b && matches (match_spec b) (workload ctx)) eqn:Hb.
  - apply andb_true_iff in Hb as [Hb1 Hb2].
    destruct (baseline_rule ctx 0 (rules b)) as [[i r]|] eqn:Hr.
    + split; [done|]. intros Hno. exfalso. apply Hno.
      apply baseline_rule_Some in Hr as (? & ? & ?). exists b, r. split_and!; [left|done..].
    + rewrite IH. apply Hskip. rewrite baseline_rule_None in Hr.
      intros (_ & _ & r & Hin & Ha & Happ). rewrite (Hr r Hin Ha) in Happ. done.
  - rewrite IH. apply Hskip. intros (H1 & H2 & _). by rewrite H1, H2 in Hb.
Qed.

Lemma with_baseline_Allows ps d ctx a :
  with_baseline ps d ctx = Allows a ↔ d = Allows a ∧ ¬ baseline_denies ps ctx.
Proof.
  unfold with_baseline. rewrite <- baseline_denial_None. destruct d as [a'|d]; [|naive_solver].
  destruct (baseline_denial ps ctx); naive_solver.
Qed.

(** The pin, if any, names the policy [p]. *)
Definition pin_ok (ctx : RequestContext) (p : Policy) : Prop :=
  ∀ requested, requested_policy ctx = Some requested → p_name p = requested.

Lemma evaluate_Allows ps ctx a :
  evaluate ps ctx = Allows a ↔
  ∃ p, governs ps (workload ctx) p ∧ pin_ok ctx p ∧ policy_evaluate p ctx = Allows a ∧
    ¬ baseline_denies ps ctx.
Proof.
  setoid_rewrite <- select_Some. unfold evaluate, pin_ok.
  destruct (select ps (workload ctx)) as [p|] eqn:Hs; cbn [fmap option_fmap option_map].
  - transitivity ((∀ r, requested_policy ctx = Some r → p_name p = r) ∧
      with_baseline ps (policy_evaluate p ctx) ctx = Allows a).
    { destruct (requested_policy ctx) as [r|]; [|naive_solver].
      case_bool_decide as Hb; [naive_solver|]. split; [done|]. intros [H _].
      exfalso. apply Hb. by rewrite (H r). }
    rewrite with_baseline_Allows. naive_solver.
  - split; [|naive_solver]. destruct (requested_policy ctx); [|done]. by case_bool_decide.
Qed.

Lemma policy_evaluate_name p ctx a : policy_evaluate p ctx = Allows a → a_policy a = p_name p.
Proof.
  intros H. unfold policy_evaluate in H.
  destruct (first_applicable_dec (rules p) ctx) as [(i & r & Hf)|Hall].
  - rewrite (evaluate_rules_first _ _ _ _ _ _ Hf) in H. unfold rule_decision in H.
    destruct (action r); [|done]. by injection H as <-.
  - by rewrite evaluate_rules_none in H.
Qed.

(** ** The closest destinations *)

Lemma scored_le_total a b : scored_le a b = true ∨ scored_le b a = true.
Proof.
  unfold scored_le. rewrite (Z.compare_antisym a.1 b.1). destruct (a.1 ?= b.1); simpl; auto using str_le_total.
Qed.
Lemma scored_le_trans a b c : scored_le a b = true → scored_le b c = true → scored_le a c = true.
Proof.
  unfold scored_le. destruct (Z.compare_spec a.1 b.1), (Z.compare_spec b.1 c.1), (Z.compare_spec a.1 c.1);
    try done; try lia. apply str_le_trans.
Qed.
Lemma scored_le_antisym a b : scored_le a b = true → scored_le b a = true → a = b.
Proof.
  unfold scored_le. destruct a as [x s], b as [y t]. simpl. rewrite (Z.compare_antisym x y).
  destruct (Z.compare_spec x y); simpl; try done. subst. intros. f_equal. by apply str_le_antisym.
Qed.

Lemma dedup_text_elem prev l x : x ∈ dedup_text prev l → x ∈ l.
Proof.
  revert prev. induction l as [|y l IH]; intros prev; simpl; [done|]. case_bool_decide.
  - intros Hx. right. by eapply IH.
  - intros [->|Hx]%elem_of_cons; [left|right; by eapply IH].
Qed.

Lemma dedup_text_keeps prev l x :
  x ∈ l → prev = Some x.2 ∨ x.2 ∈ map snd (dedup_text prev l).
Proof.
  revert prev. induction l as [|y l IH]; intros prev; simpl; [by intros ?%elem_of_nil|].
  intros [->|Hx]%elem_of_cons; case_bool_decide as Hp; simpl; [by left|right; left| |].
  - by apply IH.
  - right. destruct (IH (Some y.2) Hx) as [[= Heq]|?]; [rewrite Heq; left|by right].
Qed.

Lemma dedup_text_sorted prev l :
  StronglySorted (λ x y, scored_le x y = true) l →
  StronglySorted (λ x y, scored_le x y = true) (dedup_text prev l).
Proof.
  intros H. revert prev. induction H as [|y l Hs IH Hall]; intros prev; simpl; [constructor|].
  case_bool_decide; [apply IH|]. constructor; [apply IH|]. apply Forall_forall.
  rewrite Forall_forall in Hall. intros x Hx%dedup_text_elem. auto.
Qed.

Lemma dedup_text_NoDup (f : str → Z) prev l :
  StronglySorted (λ x y, scored_le x y = true) l → Forall (λ x, x.1 = f x.2) l →
  (∀ t, prev = Some t → Forall (λ z, scored_le (f t, t) z = true) l) →
  NoDup (map snd (dedup_text prev l)) ∧ ∀ t, prev = Some t → t ∉ map snd (dedup_text prev l).
Proof.
  intros H. revert prev. induction H as [|y l Hs IH Hall]; intros prev Hf Hp; simpl.
  { split; [apply NoDup_nil_2|]. intros t _. apply not_elem_of_nil. }
  apply Forall_cons in Hf as [Hy Hf]. destruct y as [v s]. simpl in Hy. subst v.
  case_bool_decide as Heq; simpl in Heq; cbn [map snd].
  - apply IH; [done|]. intros t Ht. by apply Hp, Forall_cons in Ht as [_ ?].
  - destruct (IH (Some s) Hf) as [Hnd Hnot].
    { intros t [= <-]. done. }
    split; [constructor; [by apply Hnot|done]|].
    intros t Ht. apply not_elem_of_cons. split; [congruence|].
    intros (z & -> & Hz)%list_elem_of_fmap. apply dedup_text_elem in Hz.
    assert (z = (f z.2, z.2)) as Hz' by (rewrite Forall_forall in Hf; destruct z; simpl in *; f_equal; by apply Hf in Hz).
    pose proof (Hp _ Ht) as Hle. apply Forall_cons in Hle as [Hle _].
    rewrite Forall_forall in Hall. specialize (Hall z Hz). simpl in Hall. rewrite Hz' in Hall.
    pose proof (scored_le_antisym _ _ Hle Hall). congruence.
Qed.

(** The texts of the destinations that the allow rules of this application list. *)
Definition allow_texts (rs : list Rule) (ctx : RequestContext) (t : str) : Prop :=
  ∃ r s, r ∈ rs ∧ action r = Allow ∧ covers r (c_application ctx) (c_transport ctx) = true ∧
    s ∈ destinations r ∧ raw s = t.

(** [a] is at least as close as [b], ties by text. *)
Definition closer (ctx : RequestContext) (a b : str) : bool :=
  scored_le (proximity a (destination ctx), a) (proximity b (destination ctx), b).

Lemma sorted_take_drop {A} (R : A → A → Prop) n l x y :
  StronglySorted R l → x ∈ take n l → y ∈ drop n l → R x y.
Proof.
  intros H. revert n. induction H as [|z l Hs IH Hall]; intros n Hx Hy.
  - rewrite take_nil in Hx. by apply elem_of_nil in Hx.
  - destruct n as [|n]; [by apply elem_of_nil in Hx|]. cbn [take drop] in *.
    apply elem_of_cons in Hx as [->|Hx]; [|by eapply IH].
    rewrite Forall_forall in Hall. apply Hall. rewrite <- (take_drop n l). apply elem_of_app. by right.
Qed.

Lemma closest_spec rs ctx :
  ∃ all, closest_destinations rs ctx = take 3 all ∧ NoDup all ∧
    (∀ t, t ∈ all ↔ allow_texts rs ctx t) ∧ StronglySorted (λ a b, closer ctx a b = true) all.
Proof.
  unfold closest_destinations.
  set (specs := flat_map destinations _).
  set (f := λ t, proximity t (destination ctx)).
  set (scored := map (λ s, (f (raw s), raw s)) specs).
  assert (∀ x, x ∈ scored → x = (f x.2, x.2)) as Hsc.
  { intros x (s & -> & _)%list_elem_of_fmap. done. }
  pose proof (sort_by_sorted scored_le scored scored_le_total scored_le_trans) as Hsort.
  pose proof (sort_by_perm scored_le scored) as Hperm.
  assert (∀ x, x ∈ sort_by scored_le scored → x = (f x.2, x.2)) as Hso.
  { intros x Hx. apply Hsc. by rewrite <- Hperm. }
  exists (map snd (dedup_text None (sort_by scored_le scored))). split; [done|]. split_and!.
  - apply (dedup_text_NoDup f); [done| |done]. apply Forall_forall. intros x Hx%Hso. by rewrite Hx.
  - intros t.
    transitivity (∃ s, s ∈ specs ∧ raw s = t).
    + split.
      * intros (x & -> & Hx%dedup_text_elem)%list_elem_of_fmap. rewrite Hperm in Hx.
        apply list_elem_of_fmap in Hx as (s & -> & Hs). by exists s.
      * intros (s & Hs & <-). destruct (dedup_text_keeps None (sort_by scored_le scored)
          (f (raw s), raw s)) as [|?]; [|done|done].
        rewrite Hperm. apply list_elem_of_fmap. by exists s.
    + unfold allow_texts, specs. split.
      * intros (s & Hs & <-). apply list_elem_of_In, in_flat_map in Hs as (r & Hr & Hs).
        apply filter_In in Hr as [Hr [Ha%bool_decide_eq_true Hc]%andb_true_iff].
        exists r, s. rewrite !list_elem_of_In. done.
      * intros (r & s & Hr & Ha & Hc & Hs & Ht). exists s. split; [|done].
        apply list_elem_of_In, in_flat_map. exists r. split; [|by apply list_elem_of_In].
        apply filter_In. split; [by apply list_elem_of_In|].
        by rewrite andb_true_iff, bool_decide_eq_true.
  - assert (Forall (λ x, x = (f x.2, x.2)) (dedup_text None (sort_by scored_le scored))) as Hall.
    { apply Forall_forall. intros x Hx%dedup_text_elem. auto. }
    apply (dedup_text_sorted None) in Hsort. revert Hall. clear -Hsort.
    induction Hsort as [|x l Hs IH Hle]; intros Hall; simpl; [constructor|].
    apply Forall_cons in Hall as [Hx Hall]. constructor; [by apply IH|].
    apply Forall_fmap, Forall_forall. intros y Hy. rewrite Forall_forall in Hle, Hall.
    unfold closer. fold (f x.2) (f y.2). specialize (Hle y Hy). rewrite Hx, (Hall y Hy) in Hle. done.
Qed.

(** ** Adding the suggested rule *)

(** What [masque policy] would add for a denied request: its application, the
    transport only when it is UDP, and the destination as text. *)
Definition suggestion (ctx : RequestContext) (s : DestinationSpec) : Rule :=
  mkRule None (AppName (c_application ctx))
    (match c_transport ctx with Tcp => AnyTransport | Udp => OnlyUdp end) Allow [s].
Definition add_rule (p : Policy) (r : Rule) : Policy :=
  mkPolicy (p_name p) (match_spec p) (session p) (egress p) (limits p) (rules p ++ [r]) (tests p)
    (baseline p).

Lemma eq_ignore_refl s : eq_ignore_ascii_case s s = true.
Proof. apply str_eqb_refl. Qed.

Lemma evaluate_rules_app p q ctx index rs rs' :
  p_name p = p_name q → egress p = egress q → limits p = limits q → session p = session q →
  (∃ i r, first_applicable rs ctx i r) →
  is_allow (evaluate_rules p ctx index (rs ++ rs')) = is_allow (evaluate_rules q ctx index rs).
Proof.
  intros ???? (i & r & Hf). rewrite (evaluate_rules_first q ctx index rs i r Hf).
  rewrite (evaluate_rules_first p ctx index (rs ++ rs') i r).
  - unfold rule_decision. by destruct (action r).
  - destruct Hf as (Hi & Ha & Hb). split_and!; [by apply lookup_app_l_Some|done|].
    intros j r' Hj Hr'. apply (Hb j); [done|]. rewrite lookup_app_l in Hr'; [done|].
    apply lookup_lt_Some in Hi. lia.
Qed.

Lemma add_rule_evaluate p r ctx :
  is_allow (policy_evaluate (add_rule p r) ctx) =
    if decide (Forall (λ r, applies r ctx = false) (rules p))
    then applies r ctx && bool_decide (action r = Allow)
    else is_allow (policy_evaluate p ctx).
Proof.
  unfold policy_evaluate. cbn [add_rule rules].
  destruct (decide (Forall _ (rules p))) as [Hall|Hnot].
  - destruct (applies r ctx) eqn:Ha.
    + rewrite (evaluate_rules_first _ _ _ _ (length (rules p)) r).
      * unfold rule_decision. by destruct (action r).
      * split_and!; [by rewrite lookup_app_r, Nat.sub_diag by done|done|].
        intros j r' Hj Hr'. rewrite lookup_app_l in Hr' by done.
        rewrite Forall_forall in Hall. apply Hall. by eapply list_elem_of_lookup_2.
    + rewrite evaluate_rules_none; [done|]. apply Forall_app_2; [done|]. by apply Forall_singleton.
  - destruct (first_applicable_dec (rules p) ctx) as [Hf|]; [|done].
    by apply evaluate_rules_app.
Qed.

(** ** Correctness *)

(** First match wins and deny is the default: the verdict of a policy is
    that of the earliest rule that speaks to the application, the transport and
    the destination, with the terms of the policy; when no rule does, the
    request is denied. *)
Theorem policy_first_match (p : Policy) (ctx : RequestContext) :
  match policy_evaluate p ctx with
  | Allows a =>
      ∃ i r, first_applicable (rules p) ctx i r ∧ action r = Allow ∧
        a = mkAllowed (p_name p) (rule_label r i) (egress p) (limits p) (session p)
  | Denies d =>
      d_policy d = Some (p_name p) ∧
      ((∃ i r, first_applicable (rules p) ctx i r ∧ action r = Deny ∧
          reason d = ExplicitDeny (rule_label r i)) ∨
       ((∀ r, r ∈ rules p → applies r ctx = false) ∧ reason d = NoMatchingAllowRule))
  end.
Proof.
  unfold policy_evaluate. destruct (first_applicable_dec (rules p) ctx) as [(i & r & Hf)|Hall].
  - rewrite (evaluate_rules_first _ _ _ _ _ _ Hf). unfold rule_decision. cbn [Nat.add].
    destruct (action r) eqn:Ha; [by exists i, r|]. split; [done|]. left. by exists i, r.
  - rewrite evaluate_rules_none by done. split; [done|]. right. split; [|done].
    by rewrite Forall_forall in Hall.
Qed.

(** C3.  When a set of policies allows: exactly when the policy that governs
    the workload allows the request, the pin (if any) names that policy, and no
    deny rule of a baseline that matches the workload applies. *)
Theorem set_allows_iff (ps : PolicySet) (ctx : RequestContext) (a : Allowed) :
  evaluate ps ctx = Allows a ↔
  ∃ p, governs ps (workload ctx) p ∧ pin_ok ctx p ∧ policy_evaluate p ctx = Allows a ∧
    ¬ baseline_denies ps ctx.
Proof. apply evaluate_Allows. Qed.


(** A pin can only narrow: a request with a pin is allowed exactly when it
    is allowed without one by the very policy the pin names, on the same terms. *)
Theorem pin_only_narrows (ps : PolicySet) (i : WorkloadIdentity) (app : str) (t : Transport)
    (d : Destination) (pin : str) (a : Allowed) :
  evaluate ps (mkContext i app t d (Some pin)) = Allows a ↔
  evaluate ps (mkContext i app t d None) = Allows a ∧ a_policy a = pin.
Proof.
  assert (∀ p x y, policy_evaluate p (mkContext i app t d x) = Allows a →
    policy_evaluate p (mkContext i app t d y) = Allows a) as Hsame.
  { intros p x y. unfold policy_evaluate. generalize 0%nat as n. induction (rules p) as [|r rs IH]; intros n.
    - done.
    - rewrite !evaluate_rules_cons. change (applies r (mkContext i app t d y)) with
        (applies r (mkContext i app t d x)). destruct (applies r _); [|apply IH].
      unfold rule_decision. by destruct (action r). }
  rewrite !evaluate_Allows. unfold pin_ok. cbn [workload requested_policy]. split.
  - intros (p & Hg & Hpin & He & Hno). rewrite (policy_evaluate_name _ _ _ He).
    split; [|by apply Hpin]. exists p. split_and!; [done|done|by eapply Hsame|done].
  - intros [(p & Hg & _ & He & Hno) Hname]. rewrite (policy_evaluate_name _ _ _ He) in Hname.
    exists p. split_and!; [done|by intros ? [= <-]|by eapply Hsame|done].
Qed.

(** The suggested rule does what it says: for a request that no rule
    allows, its destination as text parses to a pattern, adding the rule
    suggested for it allows the request, and the decision for every other
    destination stays as it was. *)
Theorem suggested_rule_allows (p : Policy) (ctx : RequestContext) :
  dest_ok (destination ctx) → (∀ r, r ∈ rules p → applies r ctx = false) →
  ∃ s, parse_spec (display_destination (destination ctx)) = Ok s ∧
    is_allow (policy_evaluate (add_rule p (suggestion ctx s)) ctx) = true ∧
    ∀ ctx', destination ctx' ≠ destination ctx →
      is_allow (policy_evaluate (add_rule p (suggestion ctx s)) ctx') =
        is_allow (policy_evaluate p ctx').
Proof.
  intros Hd Hall. pose proof (spec_of_display _ Hd) as Hs. eexists. split; [exact Hs|].
  set (s := mkSpec _ _ _) in *. rewrite <- Forall_forall in Hall.
  assert (∀ d, spec_matches s d = true ↔ d = destination ctx) as Hm.
  { intros [h pt]. unfold spec_matches, s. simpl. rewrite andb_true_iff, Z.eqb_eq.
    destruct (destination ctx) as [[n|ip] q], h as [n'|ip']; simpl;
      rewrite ?str_eqb_eq, ?bool_decide_eq_true; naive_solver. }
  split.
  - rewrite add_rule_evaluate, decide_True by done. cbn [suggestion action].
    rewrite bool_decide_eq_true_2 by done. rewrite andb_true_r. unfold applies, suggestion, covers.
    cbn [application transport destinations app_matches existsb]. rewrite eq_ignore_refl, orb_false_r.
    rewrite (proj2 (Hm (destination ctx)) eq_refl). by destruct (c_transport ctx).
  - intros ctx' Hne. rewrite add_rule_evaluate. destruct (decide _) as [Hno|]; [|done].
    unfold policy_evaluate. rewrite evaluate_rules_none by done.
    unfold applies, suggestion. cbn [destinations existsb]. rewrite orb_false_r.
    assert (spec_matches s (destination ctx') = false) as ->; [|by rewrite andb_false_r].
    apply not_true_iff_false. by rewrite Hm.
Qed.

(** The closest rules of a denial: at most three distinct texts, each the
    destination of an allow rule for this application and transport, nearest
    first, and none left out is nearer than one shown. *)
Theorem closest_are_nearest (rs : list Rule) (ctx : RequestContext) :
  let shown := closest_destinations rs ctx in
  NoDup shown ∧ (length shown ≤ 3)%nat ∧ (∀ t, t ∈ shown → allow_texts rs ctx t) ∧
  StronglySorted (λ a b, closer ctx a b = true) shown ∧
  ∀ t, allow_texts rs ctx t → t ∉ shown →
    length shown = 3%nat ∧ ∀ u, u ∈ shown → closer ctx u t = true.
Proof.
  destruct (closest_spec rs ctx) as (all & -> & Hnd & Hin & Hsorted). cbv zeta.
  assert (NoDup (take 3 all) ∧ StronglySorted (λ a b, closer ctx a b = true) (take 3 all)) as [Hn Hs].
  { clear Hin. revert Hnd Hsorted. generalize 3%nat. induction all as [|x all IH]; intros n Hn Hs;
      [rewrite take_nil; split; constructor|]. destruct n as [|n]; [split; constructor|].
    apply NoDup_cons in Hn as [Hx Hn]. apply StronglySorted_inv in Hs as [Hs Hall].
    destruct (IH n Hn Hs) as [? ?]. cbn [take]. split.
    - constructor; [|done]. intros Hx'. apply Hx. rewrite <- (take_drop n all).
      apply elem_of_app. by left.
    - constructor; [done|]. by apply Forall_take. }
  split_and!; [done|rewrite length_take; lia| |done|].
  - intros t Ht. apply Hin. rewrite <- (take_drop 3 all). apply elem_of_app. by left.
  - intros t Ht%Hin Hnot. rewrite <- (take_drop 3 all) in Ht. apply elem_of_app in Ht as [?|Ht]; [done|].
    split.
    + rewrite length_take. assert (drop 3 all ≠ []) by (intros Hd; rewrite Hd in Ht; by apply elem_of_nil in Ht).
      apply Nat.min_l. apply Nat.lt_le_incl. apply Nat.nle_gt. intros Hle. apply H. by apply drop_ge.
    + intros u Hu. exact (sorted_take_drop (λ a b, closer ctx a b = true) 3 all u t Hsorted Hu Ht).
Qed.

(** A small set: a policy with one allow rule and a baseline over production. *)
Definition spec_of (text : str) : DestinationSpec :=
  match parse_spec text with Ok s => s | Err _ => mkSpec AnyHost AnyPort [] end.
Definition sample_policy : Policy :=
  mkPolicy "widget" sample_match default_session None default_limits
    [mkRule None (AppName "terraform") AnyTransport Allow
      [spec_of "*.example.com:443"; spec_of "registry.terraform.io:443"]] [] false.
Definition sample_baseline : Policy :=
  mkPolicy "floor" default_match default_session None default_limits
    [mkRule None AnyApp AnyTransport Deny [spec_of "db.prod.example.com"]] [] true.
Definition sample_context (host : str) : RequestContext :=
  mkContext sample_identity "Terraform" Tcp (mkDestination (Name host) 443) None.
Definition sample_allowed : Allowed :=
  mkAllowed "widget" "rule #0" None default_limits default_session.


Lemma suggested_rule_allows_witness :
  is_allow (policy_evaluate sample_policy (sample_context "pypi.org")) = false ∧
  ∃ s, parse_spec "pypi.org:443" = Ok s ∧
    is_allow (policy_evaluate (add_rule sample_policy (suggestion (sample_context "pypi.org") s))
      (sample_context "pypi.org")) = true ∧
    ∀ ctx', destination ctx' ≠ mkDestination (Name "pypi.org") 443 →
      is_allow (policy_evaluate (add_rule sample_policy (suggestion (sample_context "pypi.org") s)) ctx') =
        is_allow (policy_evaluate sample_policy ctx').
Proof.
  split; [by vm_compute|]. apply (suggested_rule_allows sample_policy (sample_context "pypi.org")).
  - split; [|simpl; unfold u16_max; lia]. split; [done|]. by vm_compute.
  - intros r Hr. apply list_elem_of_singleton in Hr as ->. by vm_compute.
Defined.
