(* ===== verification/PolicyParse.v ===== *)
(** * From a document to a validated policy

    Model of [crates/skimasque-policy/src/parse.rs]: the raw shapes that TOML and
    YAML documents deserialise to, the lowering of the YAML layout onto the TOML
    one, the validation both share, and the assembly of a set of policies from
    named documents.

    The deserialisers themselves ([toml::from_str], [serde_yaml::from_str]) are
    not part of the repository: they are parameters of the functions that call
    them, with error types of their own. *)

From S2P Require Import Prelude RustStr RustNet PolicyDest PolicyUnits PolicyModel PolicyEval.

(** ** Raw documents *)

Record RawMatch : Type := mkRawMatch {
  rm_organization : option str;
  rm_repository : option str;
  rm_workflow : option str;
  rm_git_ref : option str;
  rm_branch : option str;
  rm_environment : option str;
  rm_actor : option str;
  rm_kind : option str;
}.
Record RawSession : Type := mkRawSession { rs_max_duration : option str }.
Record RawEgress : Type := mkRawEgress { re_region : option str; re_ip_pool : option str }.
Record RawLimits : Type := mkRawLimits {
  rl_bandwidth : option str;
  rl_bytes : option str;
  rl_connections : option Z;
  rl_concurrent_destinations : option Z;
  rl_connection_rate : option str;
  rl_packets_per_second : option Z;
}.
Record RawRule : Type := mkRawRule {
  rr_id : option str;
  rr_application : str;
  rr_transport : option str;
  rr_action : str;
  rr_destinations : list str;
}.
Record RawTest : Type := mkRawTest {
  rt_application : str;
  rt_destination : str;
  rt_transport : option str;
  rt_expect : str;
  rt_description : option str;
}.
Record RawPolicy : Type := mkRawPolicy {
  rp_name : option str;
  rp_baseline : bool;
  rp_match : RawMatch;
  rp_session : RawSession;
  rp_egress : option RawEgress;
  rp_limits : RawLimits;
  rp_rules : list RawRule;
  rp_tests : list RawTest;
}.

Record YamlApplication : Type := mkYamlApplication { ya_name : str }.
Record YamlNetwork : Type := mkYamlNetwork {
  yn_transport : option str;
  yn_allow : list str;
  yn_deny : list str;
}.
Record YamlLimits : Type := mkYamlLimits {
  yl_duration : option str;
  yl_bandwidth : option str;
  yl_bytes : option str;
  yl_connections : option Z;
  yl_concurrent_destinations : option Z;
  yl_connection_rate : option str;
  yl_packets_per_second : option Z;
}.
Record YamlDoc : Type := mkYamlDoc {
  yd_name : option str;
  yd_baseline : bool;
  yd_identity : RawMatch;
  yd_application : option YamlApplication;
  yd_session : RawSession;
  yd_egress : option RawEgress;
  yd_network : YamlNetwork;
  yd_limits : YamlLimits;
  yd_tests : list RawTest;
}.

Section parse.
Context {TomlError YamlError : Type}.

Inductive ParseError : Type :=
  | TomlInvalid (e : TomlError)
  | YamlInvalid (e : YamlError)
  | DurationSetTwice
  | MissingName
  | BadDestination (rule : nat) (source : ParseDestinationError)
  | EmptyRule (rule : nat)
  | BadUnit (field : str) (source : ParseUnitError)
  | BadAction (field value : str)
  | BadTransport (field value : str)
  | BaselineAllows (rule : nat)
  | BadKind (value : str).

Inductive SetError : Type :=
  | SetParse (source_name : str) (source : ParseError)
  | DuplicateName (name first second : str).

(** ** Fields *)

Definition parse_action (field value : str) : result ParseError Action :=
  if str_eqb value "allow" then Ok Allow
  else if str_eqb value "deny" then Ok Deny
  else Err (BadAction field value).

Definition parse_transport_pattern (field : str) (value : option str)
    : result ParseError TransportPattern :=
  match value with
  | None => Ok AnyTransport
  | Some v =>
      if str_eqb v "any" then Ok AnyTransport
      else if str_eqb v "tcp" then Ok OnlyTcp
      else if str_eqb v "udp" then Ok OnlyUdp
      else Err (BadTransport field v)
  end.

Definition parse_field {A} (field : str) (value : option str)
    (parser : str → result ParseUnitError A) : result ParseError (option A) :=
  match value with
  | None => Ok None
  | Some v => x ← map_err (BadUnit field) (parser v); Ok (Some x)
  end.

Definition parse_kind (value : option str) : result ParseError (option WorkloadKind) :=
  match value with
  | None => Ok None
  | Some k => x ← ok_or (kind_parse k) (BadKind k); Ok (Some x)
  end.

(** ** Rules and tests *)

Definition app_pattern (application : str) : AppPattern :=
  if str_eqb application "*" then AnyApp else AppName application.

Definition into_rule (raw : RawRule) (index : nat) : result ParseError Rule :=
  let rule_field (suffix : str) : str := "rule " ++ to_string (Z.of_nat index) ++ suffix in
  match rr_destinations raw with
  | [] => Err (EmptyRule index)
  | _ =>
      act ← parse_action (rule_field " action") (rr_action raw);
      tr ← parse_transport_pattern (rule_field " transport") (rr_transport raw);
      dests ← map_err (BadDestination index) (traverse parse_spec (rr_destinations raw));
      Ok (mkRule (rr_id raw) (app_pattern (rr_application raw)) tr act dests)
  end.

Definition test_transport_of (word : option str) : result ParseError (option Transport) :=
  match word with
  | None => Ok None
  | Some w =>
      p ← parse_transport_pattern "test transport" (Some w);
      match p with
      | AnyTransport => Err (BadTransport "test transport" w)
      | OnlyTcp => Ok (Some Tcp)
      | OnlyUdp => Ok (Some Udp)
      end
  end.

Definition into_test (raw : RawTest) : result ParseError PolicyTest :=
  expect ← parse_action "test expect" (rt_expect raw);
  tr ← test_transport_of (rt_transport raw);
  Ok (mkTest (rt_application raw) (rt_destination raw) tr expect (rt_description raw)).

(** ** Policies *)

Fixpoint first_allow (index : nat) (rs : list Rule) : option nat :=
  match rs with
  | [] => None
  | r :: rs => if bool_decide (action r = Allow) then Some index else first_allow (S index) rs
  end.

Definition into_limits (l : RawLimits) : result ParseError Limits :=
  bandwidth ← parse_field "limits.bandwidth" (rl_bandwidth l) parse_bitrate;
  bytes ← parse_field "limits.bytes" (rl_bytes l) parse_bytes;
  rate ← parse_field "limits.connection_rate" (rl_connection_rate l) parse_rate;
  Ok (mkLimits bandwidth bytes (rl_connections l) (rl_concurrent_destinations l) rate
        (rl_packets_per_second l)).

Definition into_policy (raw : RawPolicy) : result ParseError Policy :=
  name ← match rp_name raw with
         | Some n => if bool_decide (n = []) then Err MissingName else Ok n
         | None => Err MissingName
         end;
  kind ← parse_kind (rm_kind (rp_match raw));
  let m := rp_match raw in
  let spec := mkMatch (rm_organization m) (rm_repository m) (rm_workflow m) (rm_git_ref m)
                (rm_branch m) (rm_environment m) (rm_actor m) kind in
  duration ← parse_field "session.max_duration" (rs_max_duration (rp_session raw)) parse_duration;
  let egress := (λ e, mkEgress (re_region e) (re_ip_pool e)) <$> rp_egress raw in
  limits ← into_limits (rp_limits raw);
  rules ← traverse (λ '(index, r), into_rule r index) (enumerate (rp_rules raw));
  tests ← traverse into_test (rp_tests raw);
  match (if rp_baseline raw then first_allow 0 rules else None) with
  | Some index => Err (BaselineAllows index)
  | None => Ok (mkPolicy name spec (mkSession duration) egress limits rules tests (rp_baseline raw))
  end.

Definition yaml_application (doc : YamlDoc) : str :=
  match yd_application doc with Some app => ya_name app | None => "*" end.

Definition yaml_rules (doc : YamlDoc) : list RawRule :=
  let app := yaml_application doc in
  let net := yd_network doc in
  (if bool_decide (yn_deny net = []) then []
   else [mkRawRule (Some (app ++ "-deny")) app (yn_transport net) "deny" (yn_deny net)]) ++
  (if bool_decide (yn_allow net = []) then []
   else [mkRawRule (Some (app ++ "-allow")) app (yn_transport net) "allow" (yn_allow net)]).

Definition into_raw (doc : YamlDoc) : result ParseError RawPolicy :=
  let l := yd_limits doc in
  max_duration ←
    match rs_max_duration (yd_session doc), yl_duration l with
    | Some _, Some _ => Err DurationSetTwice
    | Some a, None => Ok (Some a)
    | None, b => Ok b
    end;
  Ok (mkRawPolicy (yd_name doc) (yd_baseline doc) (yd_identity doc) (mkRawSession max_duration)
        (yd_egress doc)
        (mkRawLimits (yl_bandwidth l) (yl_bytes l) (yl_connections l)
           (yl_concurrent_destinations l) (yl_connection_rate l) (yl_packets_per_second l))
        (yaml_rules doc) (yd_tests doc)).

(** ** What a parsed policy satisfies *)

Definition rule_wf (r : Rule) : Prop := destinations r ≠ [] ∧ Forall spec_ok (destinations r).

Definition policy_wf (p : Policy) : Prop :=
  p_name p ≠ [] ∧ Forall rule_wf (rules p) ∧
  (baseline p = true → Forall (λ r, action r = Deny) (rules p)).

(** The destinations of a raw rule, read one by one. *)
Lemma into_rule_Ok raw index r :
  into_rule raw index = Ok r →
  rr_destinations raw ≠ [] ∧ Forall2 (λ t s, parse_spec t = Ok s) (rr_destinations raw) (destinations r) ∧
  rule_id r = rr_id raw ∧ application r = app_pattern (rr_application raw) ∧
  parse_action "action" (rr_action raw) = Ok (action r) ∧
  parse_transport_pattern "transport" (rr_transport raw) = Ok (transport r).
Proof.
  unfold into_rule. destruct (rr_destinations raw) as [|t ts] eqn:Hd; [done|]. rewrite <- Hd.
  intros H. inv_ok. apply traverse_Ok in H2. cbn [destinations rule_id application action transport].
  split_and!; [by rewrite Hd|done|done|done|..].
  - revert H0. unfold parse_action. repeat case_match; naive_solver.
  - revert H1. unfold parse_transport_pattern. repeat case_match; naive_solver.
Qed.

Lemma into_rule_wf raw index r : into_rule raw index = Ok r → rule_wf r.
Proof.
  intros (Hne & HF & _)%into_rule_Ok. split.
  - intros Hnil. rewrite Hnil in HF. apply Forall2_nil_inv_r in HF. done.
  - clear Hne. induction HF as [|t s ts ss Hs _ IH]; constructor; [by eapply parse_spec_ok|done].
Qed.

Lemma first_allow_None index rs : first_allow index rs = None ↔ Forall (λ r, action r = Deny) rs.
Proof.
  revert index. induction rs as [|r rs IH]; intros index; cbn [first_allow]; [by split|].
  rewrite Forall_cons, <- (IH (S index)). destruct (action r); simpl.
  - split; [done|]. by intros [? _].
  - split; [done|]. by intros [_ ?].
Qed.

Lemma into_policy_Ok raw p :
  into_policy raw = Ok p →
  Some (p_name p) = rp_name raw ∧ p_name p ≠ [] ∧ baseline p = rp_baseline raw ∧
  Forall2 (λ ir r, into_rule ir.2 ir.1 = Ok r) (enumerate (rp_rules raw)) (rules p) ∧
  Forall2 (λ t t', into_test t = Ok t') (rp_tests raw) (tests p) ∧
  (baseline p = true → Forall (λ r, action r = Deny) (rules p)).
Proof.
  unfold into_policy. intros H. inv_ok. apply traverse_Ok in H4, H5.
  destruct (if rp_baseline raw then first_allow 0 x3 else None) as [i|] eqn:Hb; inv_ok.
  cbn [p_name baseline rules tests]. split_and!.
  - destruct (rp_name raw) as [n|]; [|done]. case_bool_decide; naive_solver.
  - destruct (rp_name raw) as [n|]; [|done]. case_bool_decide; naive_solver.
  - done.
  - eapply Forall2_impl; [exact H4|]. by intros [i r] r' Hr.
  - done.
  - intros Hbase. rewrite Hbase in Hb. by apply first_allow_None in Hb.
Qed.

Lemma into_policy_wf raw p : into_policy raw = Ok p → policy_wf p.
Proof.
  intros (_ & Hne & _ & HF & _ & Hd)%into_policy_Ok. split_and!; [done| |done].
  clear Hne Hd. induction HF as [|ir r irs rs Hr _ IH]; constructor; [by eapply into_rule_wf|done].
Qed.

(** ** The YAML layout *)

(** The word of a document admits the transport: absent, [any], or its name. *)
Definition word_admits (word : option str) (t : Transport) : Prop :=
  word = None ∨ word = Some ("any" : str) ∨ word = Some (transport_as_str t).

Lemma parse_transport_admits field word tp t :
  parse_transport_pattern field word = Ok tp → transport_matches tp t = true ↔ word_admits word t.
Proof.
  unfold parse_transport_pattern, word_admits. destruct word as [w|]; [|intros [= <-]; naive_solver].
  unfold str_eqb. repeat case_bool_decide; intros [= <-]; subst; destruct t; cbn; naive_solver.
Qed.

(** A raw rule speaks to the request. *)
Definition raw_applies (raw : RawRule) (ctx : RequestContext) : Prop :=
  app_matches (app_pattern (rr_application raw)) (c_application ctx) = true ∧
  word_admits (rr_transport raw) (c_transport ctx) ∧
  ∃ t s, t ∈ rr_destinations raw ∧ parse_spec t = Ok s ∧ spec_matches s (destination ctx) = true.

Lemma into_rule_applies raw index r ctx :
  into_rule raw index = Ok r → applies r ctx = true ↔ raw_applies raw ctx.
Proof.
  intros (_ & HF & _ & Happ & _ & Htr)%into_rule_Ok. unfold applies, covers, raw_applies.
  rewrite !andb_true_iff, <- Happ, (parse_transport_admits _ _ _ _ Htr).
  assert (existsb (λ d, spec_matches d (destination ctx)) (destinations r) = true ↔
    ∃ t s, t ∈ rr_destinations raw ∧ parse_spec t = Ok s ∧ spec_matches s (destination ctx) = true) as ->;
    [|naive_solver].
  clear Happ Htr. induction HF as [|t s ts ss Hs _ IH]; cbn [existsb].
  - split; [done|]. intros (t & s & []%elem_of_nil & _).
  - rewrite orb_true_iff, IH. setoid_rewrite elem_of_cons. split; [naive_solver|].
    intros (t' & s' & [->|Ht] & Hp & Hm); [left; congruence|right; eauto].
Qed.

(** The request is one the lists of the YAML network section name. *)
Definition yaml_names (doc : YamlDoc) (texts : list str) (ctx : RequestContext) : Prop :=
  raw_applies (mkRawRule None (yaml_application doc) (yn_transport (yd_network doc)) [] texts) ctx.

Lemma yaml_names_nil doc ctx : ¬ yaml_names doc [] ctx.
Proof. intros (_ & _ & t & s & []%elem_of_nil & _). Qed.

Lemma into_raw_Ok doc raw :
  into_raw doc = Ok raw → rp_rules raw = yaml_rules doc.
Proof. unfold into_raw. intros H. inv_ok. done. Qed.

(** The lists of the document, read as the rules it is lowered to. *)
Lemma yaml_rule_applies doc id act texts index r ctx :
  into_rule (mkRawRule id (yaml_application doc) (yn_transport (yd_network doc)) act texts) index = Ok r →
  applies r ctx = true ↔ yaml_names doc texts ctx.
Proof. intros H. by rewrite (into_rule_applies _ _ _ _ H). Qed.

Lemma yaml_rule_action id app tr texts act index r :
  into_rule (mkRawRule id app tr (action_as_str act) texts) index = Ok r → action r = act.
Proof. intros (_ & _ & _ & _ & Ha & _)%into_rule_Ok. destruct act; by injection Ha as ->. Qed.

(** Evaluation meets the rule a list was lowered to. *)
Lemma yaml_rule_step doc id act texts index r p ctx n rs :
  into_rule (mkRawRule id (yaml_application doc) (yn_transport (yd_network doc)) (action_as_str act) texts)
    index = Ok r →
  is_allow (evaluate_rules p ctx n (r :: rs)) = true ↔
  (yaml_names doc texts ctx ∧ act = Allow) ∨
  (¬ yaml_names doc texts ctx ∧ is_allow (evaluate_rules p ctx (S n) rs) = true).
Proof.
  intros Hr. rewrite is_allow_cons, (yaml_rule_action _ _ _ _ _ _ _ Hr).
  pose proof (yaml_rule_applies _ _ _ _ _ _ ctx Hr) as Ha.
  destruct (applies r ctx); [rewrite bool_decide_eq_true|]; naive_solver.
Qed.

Lemma yaml_evaluate doc raw p ctx :
  into_raw doc = Ok raw → into_policy raw = Ok p →
  is_allow (policy_evaluate p ctx) = true ↔
  yaml_names doc (yn_allow (yd_network doc)) ctx ∧ ¬ yaml_names doc (yn_deny (yd_network doc)) ctx.
Proof.
  intros Hraw%into_raw_Ok (_ & _ & _ & HF & _ & _)%into_policy_Ok. unfold policy_evaluate.
  rewrite Hraw in HF. clear Hraw. unfold yaml_rules in HF.
  pose proof (yaml_names_nil doc ctx) as Hnil.
  case_bool_decide as Hdeny; case_bool_decide as Hallow; cbn [app] in HF; rewrite ?Hdeny, ?Hallow.
  - apply Forall2_nil_inv_l in HF as ->. cbn. naive_solver.
  - apply Forall2_cons_inv_l in HF as (ra & rs & Ha & HF & ->).
    apply Forall2_nil_inv_l in HF as ->. rewrite (yaml_rule_step _ _ Allow _ _ _ _ _ _ _ Ha). cbn. naive_solver.
  - apply Forall2_cons_inv_l in HF as (rd & rs & Hd & HF & ->).
    apply Forall2_nil_inv_l in HF as ->. rewrite (yaml_rule_step _ _ Deny _ _ _ _ _ _ _ Hd). cbn. naive_solver.
  - apply Forall2_cons_inv_l in HF as (rd & rs & Hd & HF & ->).
    apply Forall2_cons_inv_l in HF as (ra & rs' & Ha & HF & ->).
    apply Forall2_nil_inv_l in HF as ->. rewrite (yaml_rule_step _ _ Deny _ _ _ _ _ _ _ Hd).
    rewrite (yaml_rule_step _ _ Allow _ _ _ _ _ _ _ Ha). cbn. naive_solver.
Qed.
End parse.

(** ** Loading documents *)

Section load.
Context {TomlError YamlError : Type}.
Context (toml_from_str : str → result TomlError RawPolicy).
Context (yaml_from_str : str → result YamlError YamlDoc).
Abbreviation ParseError := (ParseError (TomlError := TomlError) (YamlError := YamlError)).
Abbreviation SetError := (SetError (TomlError := TomlError) (YamlError := YamlError)).

Definition from_toml (input : str) : result ParseError Policy :=
  raw ← map_err TomlInvalid (toml_from_str input); into_policy raw.

Definition from_yaml (input : str) : result ParseError Policy :=
  doc ← map_err YamlInvalid (yaml_from_str input);
  raw ← into_raw doc;
  into_policy raw.

Definition from_named_document (source_name input : str) : result ParseError Policy :=
  let lower := to_ascii_lowercase source_name in
  if ends_with ".yaml" lower || ends_with ".yml" lower then from_yaml input else from_toml input.

(** ** Sets *)

Fixpoint from_documents_loop (policies : list (str * Policy)) (documents : list (str * str))
    : result SetError PolicySet :=
  match documents with
  | [] => Ok (map snd policies)
  | (source_name, contents) :: documents =>
      policy ← map_err (SetParse source_name) (from_named_document source_name contents);
      match List.find (λ sp : str * Policy, str_eqb (p_name sp.2) (p_name policy)) policies with
      | Some (existing, _) => Err (DuplicateName (p_name policy) existing source_name)
      | None => from_documents_loop (policies ++ [(source_name, policy)]) documents
      end
  end.

Definition from_documents (documents : list (str * str)) : result SetError PolicySet :=
  from_documents_loop [] documents.

Lemma from_named_document_wf name input p : from_named_document name input = Ok p → policy_wf p.
Proof.
  unfold from_named_document, from_yaml, from_toml. case_match; intros H0; inv_ok; by eapply into_policy_wf.
Qed.

(** ** Loading a set *)

Lemma find_name_None (l : list (str * Policy)) (n : str) :
  List.find (λ sp : str * Policy, str_eqb (p_name sp.2) n) l = None ↔ n ∉ p_name <$> (snd <$> l).
Proof.
  induction l as [|[s p] l IH]; cbn [List.find fst snd fmap list_fmap].
  { split; [intros _ []%elem_of_nil|done]. }
  unfold str_eqb at 1. rewrite elem_of_cons. case_bool_decide as Hb; [naive_solver|].
  rewrite IH. naive_solver.
Qed.

Lemma snoc_names (acc : list (str * Policy)) s q qs :
  (snd <$> acc ++ [(s, q)]) ++ qs = (snd <$> acc) ++ q :: qs.
Proof. by rewrite fmap_app, <- app_assoc. Qed.

Lemma NoDup_snoc_name (acc : list (str * Policy)) s q :
  NoDup (p_name <$> (snd <$> acc)) → p_name q ∉ p_name <$> (snd <$> acc) →
  NoDup (p_name <$> (snd <$> acc ++ [(s, q)])).
Proof.
  intros Hnd Hn. rewrite !fmap_app. cbn [fmap list_fmap snd]. apply NoDup_app.
  split_and!; [done| |apply NoDup_singleton]. by intros n Hin ->%list_elem_of_singleton.
Qed.

(** The loop, from any prefix already loaded. *)
Lemma from_documents_loop_Ok acc docs ps :
  NoDup (p_name <$> (snd <$> acc)) →
  from_documents_loop acc docs = Ok ps ↔
  ∃ qs, ps = (snd <$> acc) ++ qs ∧
    Forall2 (λ d q, from_named_document d.1 d.2 = Ok q) docs qs ∧ NoDup (p_name <$> ps).
Proof.
  revert acc. induction docs as [|[source_name contents] docs IH]; intros acc Hacc; cbn [from_documents_loop].
  - split.
    + intros [= <-]. exists []. rewrite app_nil_r. by split_and!; [|constructor|].
    + intros (qs & -> & HF & _). apply Forall2_nil_inv_l in HF as ->. by rewrite app_nil_r.
  - split.
    + intros H. apply bind_Ok in H as (q & Hq & H). apply map_err_Ok in Hq.
      destruct (List.find _ acc) as [[e ?]|] eqn:Hf; [done|]. apply find_name_None in Hf.
      apply IH in H as (qs & -> & HF & Hnd).
      * exists (q :: qs). rewrite snoc_names in *. split_and!; [done|by constructor|done].
      * by apply NoDup_snoc_name.
    + intros (qs & -> & HF & Hnd). apply Forall2_cons_inv_l in HF as (q & qs' & Hq & HF & ->).
      cbn [fst snd] in Hq. rewrite Hq. bind_simpl.
      pose proof Hnd as Hnd'. rewrite fmap_app, fmap_cons in Hnd'. apply NoDup_app in Hnd' as (_ & Hd & _).
      destruct (List.find _ acc) as [[e ?]|] eqn:Hf.
      * exfalso. assert (¬ (p_name q ∉ p_name <$> (snd <$> acc))) as Hin
          by (by rewrite <- find_name_None, Hf). apply Hin. intros Hin'. apply (Hd _ Hin'). left.
      * apply find_name_None in Hf. apply IH; [by apply NoDup_snoc_name|].
        exists qs'. by rewrite snoc_names.
Qed.

Lemma from_documents_Ok docs ps :
  from_documents docs = Ok ps ↔
  Forall2 (λ d p, from_named_document d.1 d.2 = Ok p) docs ps ∧ NoDup (p_name <$> ps).
Proof.
  unfold from_documents. rewrite from_documents_loop_Ok by apply NoDup_nil_2. cbn [fmap list_fmap app].
  naive_solver.
Qed.

Lemma get_NoDup (ps : PolicySet) p : NoDup (p_name <$> ps) → p ∈ ps → get ps (p_name p) = Some p.
Proof.
  unfold get. induction ps as [|q ps IH]; intros Hnd Hp; [by apply elem_of_nil in Hp|].
  rewrite fmap_cons in Hnd. apply NoDup_cons in Hnd as [Hn Hnd]. cbn [List.find]. unfold str_eqb at 1.
  apply elem_of_cons in Hp as [->|Hp]; [by rewrite bool_decide_eq_true_2|].
  rewrite bool_decide_eq_false_2; [by apply IH|]. intros Heq. apply Hn. rewrite Heq.
  apply list_elem_of_fmap. eauto.
Qed.

(** ** Which document is at fault *)

(** The documents read so far, with what they parsed to. *)
Definition loaded (seen : list (str * str)) (acc : list (str * Policy)) : Prop :=
  Forall2 (λ d sp, d.1 = sp.1 ∧ from_named_document d.1 d.2 = Ok sp.2) seen acc ∧
  NoDup (p_name <$> (snd <$> acc)).

Lemma loaded_from_documents seen acc : loaded seen acc → from_documents seen = Ok (snd <$> acc).
Proof.
  intros [HF Hnd]. apply from_documents_Ok. split; [|done]. clear Hnd.
  induction HF as [|d sp seen acc [_ Hd] _ IH]; by constructor.
Qed.

(** [docs] stops at the document named [source_name], after [seen] loaded as [ps]. *)
Definition stops_at (docs seen : list (str * str)) (source_name : str) (ps : PolicySet)
    (outcome : result ParseError Policy) : Prop :=
  ∃ contents rest, docs = seen ++ (source_name, contents) :: rest ∧
    from_documents seen = Ok ps ∧ from_named_document source_name contents = outcome.

Definition blames (docs : list (str * str)) (e : SetError) : Prop :=
  match e with
  | SetParse source_name source => ∃ seen ps, stops_at docs seen source_name ps (Err source)
  | DuplicateName name first second =>
      ∃ seen ps p q i, stops_at docs seen second ps (Ok q) ∧ p_name q = name ∧
        fst <$> seen !! i = Some first ∧ ps !! i = Some p ∧ p_name p = name
  end.

Lemma find_name_Some (seen : list (str * str)) acc n existing p :
  loaded seen acc →
  List.find (λ sp : str * Policy, str_eqb (p_name sp.2) n) acc = Some (existing, p) →
  p_name p = n ∧ ∃ i, fst <$> seen !! i = Some existing ∧ (snd <$> acc) !! i = Some p.
Proof.
  intros [HF _]. induction HF as [|d sp seen acc [Hd _] _ IH]; cbn [List.find]; [done|].
  unfold str_eqb at 1. case_bool_decide as Hb.
  - intros [= ->]. split; [done|]. exists 0%nat. cbn. by rewrite Hd.
  - intros (Hn & i & H1 & H2)%IH. split; [done|]. by exists (S i).
Qed.

Lemma from_documents_loop_Err seen acc docs e :
  loaded seen acc → from_documents_loop acc docs = Err e → blames (seen ++ docs) e.
Proof.
  revert seen acc. induction docs as [|[s c] docs IH]; intros seen acc Hl; cbn [from_documents_loop]; [done|].
  pose proof (loaded_from_documents _ _ Hl) as Hok.
  destruct (from_named_document s c) as [q|err] eqn:Hq; bind_simpl.
  - destruct (List.find _ acc) as [[existing p]|] eqn:Hf.
    + intros [= <-]. destruct (find_name_Some _ _ _ _ _ Hl Hf) as (Hn & i & H1 & H2).
      exists seen, (snd <$> acc), p, q, i. split_and!; [|done..]. by exists c, docs.
    + intros He. replace (seen ++ (s, c) :: docs) with ((seen ++ [(s, c)]) ++ docs) by (by rewrite <- app_assoc).
      eapply IH; [|done]. apply find_name_None in Hf. destruct Hl as [HF Hnd].
      split; [apply Forall2_app; [done|by repeat constructor]|by apply NoDup_snoc_name].
  - intros [= <-]. exists seen, (snd <$> acc), c, docs. done.
Qed.

End load.

(** ** Correctness *)

(** Loading a set succeeds exactly when every document parses and no two
    policies share a name; the set is then the policies in document order. *)
Theorem documents_load_iff {TomlError YamlError} (toml : str → result TomlError RawPolicy)
    (yaml : str → result YamlError YamlDoc) (docs : list (str * str)) (ps : PolicySet) :
  from_documents toml yaml docs = Ok ps ↔
  Forall2 (λ d p, from_named_document toml yaml d.1 d.2 = Ok p) docs ps ∧ NoDup (p_name <$> ps).
Proof. apply from_documents_Ok. Qed.

(** Everything the engine relies on holds of a loaded set: every policy has a
    name and is found by it, every rule lists at least one well-formed
    destination, and a baseline only denies. *)
Theorem loaded_set_wf {TomlError YamlError} (toml : str → result TomlError RawPolicy)
    (yaml : str → result YamlError YamlDoc) (docs : list (str * str)) (ps : PolicySet) :
  from_documents toml yaml docs = Ok ps →
  Forall policy_wf ps ∧ ∀ p, p ∈ ps → get ps (p_name p) = Some p.
Proof.
  intros [HF Hnd]%from_documents_Ok. split; [|intros p Hp; by apply get_NoDup].
  clear Hnd. induction HF as [|d p docs ps Hp _ IH]; constructor; [|done].
  by eapply from_named_document_wf.
Qed.

(** C38.  A set that does not load names the culprit: everything before the document
    an error points at loads, and that document either fails to parse with
    exactly the reported cause or repeats the name of the earlier document the
    error mentions. *)
Theorem load_error_blames {TomlError YamlError} (toml : str → result TomlError RawPolicy)
    (yaml : str → result YamlError YamlDoc) (docs : list (str * str)) (e : SetError) :
  from_documents toml yaml docs = Err e → blames toml yaml docs e.
Proof.
  apply (from_documents_loop_Err toml yaml [] []). split; [constructor|apply NoDup_nil_2].
Qed.

(** A YAML policy means what its lists say: it allows a request exactly when
    the allow list names it (for the application and transport of the document)
    and the deny list does not. *)
Theorem yaml_policy_allows_iff {TomlError YamlError} (yaml : str → result YamlError YamlDoc)
    (input : str) (doc : YamlDoc) (p : Policy) (ctx : RequestContext) :
  yaml input = Ok doc → from_yaml (TomlError := TomlError) yaml input = Ok p →
  is_allow (policy_evaluate p ctx) = true ↔
  yaml_names doc (yn_allow (yd_network doc)) ctx ∧ ¬ yaml_names doc (yn_deny (yd_network doc)) ctx.
Proof.
  intros Hdoc H. unfold from_yaml in H. rewrite Hdoc in H. bind_simpl in H.
  apply bind_Ok in H as (raw & Hraw & Hp). by eapply yaml_evaluate.
Qed.

(** A document with a deny list and an allow list, and one with neither. *)
Definition sample_raw_match : RawMatch := mkRawMatch None None None None None None None None.
Definition sample_yaml_limits : YamlLimits := mkYamlLimits None None None None None None None.
Definition sample_doc : YamlDoc :=
  mkYamlDoc (Some ("web" : str)) false sample_raw_match (Some (mkYamlApplication "curl"))
    (mkRawSession (Some ("20m" : str))) None
    (mkYamlNetwork (Some ("tcp" : str)) ["*.example.com:443" : str] ["db.example.com:443" : str])
    sample_yaml_limits [].
Definition sample_yaml (input : str) : result unit YamlDoc :=
  if str_eqb input "web" then Ok sample_doc else Err tt.
Definition sample_raw : RawPolicy :=
  mkRawPolicy (Some ("guard" : str)) true sample_raw_match (mkRawSession None) None
    (mkRawLimits (Some ("1Mbps" : str)) None None None None None)
    [mkRawRule None "*" None "deny" ["10.0.0.0/8" : str]] [].
Definition sample_toml (input : str) : result unit RawPolicy :=
  if str_eqb input "guard" then Ok sample_raw else Err tt.
Definition sample_docs : list (str * str) :=
  [("web.YML" : str, "web" : str); ("guard.toml" : str, "guard" : str)].
Definition sample_set : PolicySet :=
  match from_documents sample_toml sample_yaml sample_docs with Ok ps => ps | Err _ => [] end.
Definition sample_request (host : str) : RequestContext :=
  mkContext sample_identity "curl" Tcp (mkDestination (Name host) 443) None.

Lemma loaded_set_wf_witness :
  from_documents sample_toml sample_yaml sample_docs = Ok sample_set ∧ length sample_set = 2%nat ∧
  Forall policy_wf sample_set ∧ ∀ p, p ∈ sample_set → get sample_set (p_name p) = Some p.
Proof.
  split; [by vm_compute|]. split; [by vm_compute|].
  apply (loaded_set_wf sample_toml sample_yaml sample_docs). by vm_compute.
Defined.

Lemma load_error_blames_witness :
  let docs := sample_docs ++ [("again.yaml" : str, "web" : str)] in
  from_documents sample_toml sample_yaml docs = Err (DuplicateName "web" "web.YML" "again.yaml") ∧
  blames sample_toml sample_yaml docs (DuplicateName "web" "web.YML" "again.yaml").
Proof. split; [by vm_compute|]. apply load_error_blames. by vm_compute. Defined.

Lemma yaml_policy_allows_iff_witness :
  (∃ p, from_yaml (TomlError := unit) sample_yaml "web" = Ok p ∧
    (is_allow (policy_evaluate p (sample_request "api.example.com")) = true ↔
     yaml_names sample_doc (yn_allow (yd_network sample_doc)) (sample_request "api.example.com") ∧
     ¬ yaml_names sample_doc (yn_deny (yd_network sample_doc)) (sample_request "api.example.com")) ∧
    is_allow (policy_evaluate p (sample_request "api.example.com")) = true ∧
    is_allow (policy_evaluate p (sample_request "db.example.com")) = false).
Proof.
  destruct (from_yaml (TomlError := unit) sample_yaml "web") as [p|e] eqn:Hp; [|by vm_compute in Hp].
  exists p. split; [done|]. split.
  - exact (yaml_policy_allows_iff sample_yaml "web" sample_doc p _ eq_refl Hp).
  - vm_compute in Hp. injection Hp as <-. by vm_compute.
Defined.
