(* ===== verification/PolicyRender.v ===== *)
(** * Rendering a policy

    Model of [crates/skimasque-policy/src/render.rs]: a policy written back as the
    TOML document a person would write.

    The TOML reader is third-party code and a parameter; what the rendering relies
    on is the law [TomlReader]: the reader understands documents of the shape
    printed here (tables, arrays of tables, strings, integers, booleans, arrays of
    strings) as the TOML specification says, provided strings hold no control
    character.  [read_document] is such a reader, so the law can be met. *)

From S2P Require Import Prelude RustStr RustNet PolicyDest PolicyUnits Floats PolicyModel PolicyEval PolicyParse.
From Stdlib Require Import SpecFloat.

(** ** The rendering *)

Definition replace_char (c : Z) (by_ : str) (s : str) : str := flat_map (λ x, if x =? c then by_ else [x]) s.

Definition quote (value : str) : str :=
  [34] ++ replace_char 34 [92; 34] (replace_char 92 [92; 92] value) ++ [34].

(** [writeln!]. *)
Definition line (s : str) : str := s ++ [10].
Definition key_line (key : str) (value : str) : str := line (key ++ " = " ++ value).
Definition opt_line {A} (key : str) (value : option A) (show : A → str) : str :=
  match value with Some v => key_line key (show v) | None => [] end.

Definition per_suffix (window : Duration) : str :=
  if as_secs window =? 3600 then "h" else if as_secs window =? 60 then "m" else "s".

Definition render_match (m : MatchSpec) : str :=
  if (0 <? specificity m)%nat then
    line ([10] ++ "[match]") ++
    flat_map (λ kv : str * option str, opt_line kv.1 kv.2 quote)
      [(of_string "organization", m_organization m); (of_string "repository", m_repository m);
       (of_string "workflow", m_workflow m); (of_string "ref", m_git_ref m); (of_string "branch", m_branch m);
       (of_string "environment", m_environment m); (of_string "actor", m_actor m)] ++
    opt_line "kind" (m_kind m) (λ k, quote (kind_as_str k))
  else [].

Definition render_session (s : SessionSpec) : str :=
  match max_duration s with
  | Some d => line ([10] ++ "[session]") ++ key_line "max_duration" (quote (humanize_duration d))
  | None => []
  end.

Definition render_egress (e : option EgressSpec) : str :=
  match e with
  | Some e => line ([10] ++ "[egress]") ++ opt_line "region" (region e) quote ++ opt_line "ip_pool" (ip_pool e) quote
  | None => []
  end.

(** [limits != &Default::default()]. *)
Definition limits_default (l : Limits) : bool :=
  negb (is_some (bandwidth_bits_per_sec l)) && negb (is_some (total_bytes l)) &&
  negb (is_some (concurrent_connections l)) && negb (is_some (concurrent_destinations l)) &&
  negb (is_some (connection_rate l)) && negb (is_some (packets_per_sec l)).

Definition render_rate (r : Rate) : str := to_string (count r) ++ "/" ++ per_suffix (per r).

Definition render_limits (l : Limits) : str :=
  if limits_default l then []
  else
    line ([10] ++ "[limits]") ++
    opt_line "bandwidth" (bandwidth_bits_per_sec l) (λ bits, quote (humanize_decimal bits "bps")) ++
    opt_line "bytes" (total_bytes l) (λ bytes, quote (humanize_decimal bytes "B")) ++
    opt_line "connections" (concurrent_connections l) to_string ++
    opt_line "concurrent_destinations" (concurrent_destinations l) to_string ++
    opt_line "connection_rate" (connection_rate l) (λ r, quote (render_rate r)) ++
    opt_line "packets_per_second" (packets_per_sec l) to_string.

Definition app_text (a : AppPattern) : str := match a with AnyApp => "*" | AppName name => name end.

Definition render_rule (r : Rule) : str :=
  line ([10] ++ "[[rules]]") ++
  opt_line "id" (rule_id r) quote ++
  key_line "application" (quote (app_text (application r))) ++
  opt_line "transport" (as_word (transport r)) quote ++
  key_line "action" (quote (action_as_str (action r))) ++
  line "destinations = [" ++ flat_map (λ d, line ("    " ++ quote (raw d) ++ ",")) (destinations r) ++ line "]".

Definition render_test (t : PolicyTest) : str :=
  line ([10] ++ "[[tests]]") ++
  key_line "application" (quote (t_application t)) ++
  opt_line "transport" (t_transport t) (λ x, quote (transport_as_str x)) ++
  key_line "destination" (quote (t_destination t)) ++
  key_line "expect" (quote (action_as_str (t_expect t))).

Definition to_toml (p : Policy) : str :=
  key_line "name" (quote (p_name p)) ++ (if baseline p then line "baseline = true" else []) ++
  render_match (match_spec p) ++ render_session (session p) ++ render_egress (egress p) ++
  render_limits (limits p) ++ flat_map render_rule (rules p) ++ flat_map render_test (tests p).

(** ** Quantities round trip *)

Lemma parse_f64_to_string n : 0 ≤ n < 2 ^ 53 → parse_f64 (to_string n) = Some (f64_of_Z n).
Proof.
  intros Hn. destruct (to_string_spec n) as (c & ds & Heq & Hd & Hv); [lia|]. rewrite Heq.
  assert (is_ascii_digit c = true) as Hc by by apply Forall_cons in Hd as [? _].
  unfold parse_f64.
  assert ((c =? 45) = false ∧ (c =? 43) = false) as [-> ->].
  { unfold is_ascii_digit in Hc. rewrite andb_true_iff, !Z.leb_le in Hc. lia. }
  assert (span is_ascii_digit (c :: ds) = (c :: ds, [])) as ->
    by (rewrite <- (app_nil_r (c :: ds)) at 1; by rewrite span_app).
  cbn [mbind option_bind]. rewrite bool_decide_eq_true_2, app_nil_r, bool_decide_eq_false_2 by done. cbn [andb negb length].
  f_equal. rewrite <- f64_of_decimal_exact by done. f_equal.
  transitivity (fold_left (λ v c, v * 10 + (c - 48)) (c :: ds) 0); [|by rewrite Hv].
  generalize 0. generalize (c :: ds). induction l as [|x l IH]; intros a; [done|]. cbn. apply IH.
Qed.

Lemma alphabetic_not_whitespace c : is_ascii_alphabetic c = true → is_whitespace c = false.
Proof.
  unfold is_ascii_alphabetic, is_ascii_lowercase, is_ascii_uppercase.
  rewrite orb_true_iff, !andb_true_iff, !Z.leb_le. intros. apply printable_not_whitespace. lia.
Qed.

Lemma to_string_plain n : 0 ≤ n → Forall (λ c, is_whitespace c = false) (to_string n).
Proof. intros Hn. apply Forall_forall. intros c Hc%to_string_digit; [|done]. apply printable_not_whitespace. lia. Qed.

Lemma split_scalar_text kind n u :
  0 ≤ n < 2 ^ 53 → u ≠ [] → Forall (λ c, is_ascii_alphabetic c = true) u →
  split_scalar (to_string n ++ u) kind = Ok (f64_of_Z n, u).
Proof.
  intros Hn Hu Hal.
  assert (Forall (λ c, is_whitespace c = false) u) as Huw.
  { eapply Forall_impl; [exact Hal|]. apply alphabetic_not_whitespace. }
  assert (trim (to_string n ++ u) = to_string n ++ u) as Ht.
  { apply trim_id, Forall_app_2; [apply to_string_plain; lia|done]. }
  unfold split_scalar. rewrite Ht, bool_decide_eq_false_2 by (by intros [_ ?]%app_nil).
  rewrite span_app; [|apply Forall_forall; intros c Hc%to_string_digit; [|lia]|].
  - rewrite trim_id by (apply to_string_plain; lia).
    rewrite bool_decide_eq_false_2 by (apply to_string_nonempty; lia).
    rewrite parse_f64_to_string by done. bind_simpl.
    assert (SFltb (f64_of_Z n) (S754_zero false) = false) as ->.
    { destruct n as [|p|p]; [done| |lia]. by rewrite f64_of_pos by lia. }
    by rewrite trim_id.
  - apply negb_true_iff, digit_not_alphabetic. unfold is_ascii_digit. apply andb_true_iff. rewrite !Z.leb_le. lia.
  - destruct u as [|x u]; [done|]. apply Forall_cons in Hal as [-> _]. done.
Qed.

Lemma scale_exact input n size :
  0 ≤ n → 0 < size < 2 ^ 53 → n * size < 2 ^ 53 →
  scale_to_u64 input (f64_of_Z n) (f64_of_Z size) = Ok (n * size).
Proof.
  intros Hn Hs Hp. unfold scale_to_u64. rewrite f64_mul_exact by lia.
  destruct (f64_of_Z_finite (n * size)) as [-> _]; [nia|].
  assert (SFltb (f64_of_Z (n * size)) (S754_zero false) = false) as ->.
  { destruct (n * size) as [|p|p] eqn:E; [done| |nia]. by rewrite f64_of_pos by lia. }
  rewrite f64_below_u64 by nia. cbn [negb orb]. by rewrite f64_round_exact by nia.
Qed.

Lemma scale_lookup table u e input n size :
  unit_lookup table u = Some (f64_of_Z size) → 0 ≤ n → 0 < size < 2 ^ 53 → n * size < 2 ^ 53 →
  (multiplier ← ok_or (unit_lookup table u) e; scale_to_u64 input (f64_of_Z n) multiplier) = Ok (n * size).
Proof. intros ->. apply scale_exact. Qed.

(** The text of a quantity: a whole number of the largest unit that divides it. *)
Lemma humanize_decimal_text v unit :
  0 ≤ v → ∃ n prefix size, humanize_decimal v unit = to_string n ++ prefix ++ unit ∧ v = n * size ∧ 0 ≤ n ∧
    (prefix, size) ∈ ([], 1) :: decimal_prefixes.
Proof.
  intros Hv. unfold humanize_decimal.
  assert (Forall (λ p : str * Z, 0 < p.2) decimal_prefixes) as Hpos by (repeat constructor).
  induction Hpos as [|[prefix size] table Hs _ (n & q & sz & IH & Hq & Hn & Hin)]; cbn [humanize_prefixes].
  - exists v, [], 1. split_and!; [done|lia|done|left].
  - cbn [snd] in Hs. destruct ((size <=? v) && (v mod size =? 0)) eqn:E.
    + apply andb_true_iff in E as [_ E%Z.eqb_eq]. exists (v / size), prefix, size. split_and!; [done| | |].
      * pose proof (Z.div_mod v size ltac:(lia)). lia.
      * apply Z.div_pos; lia.
      * right. left.
    + exists n, q, sz. split_and!; [done..|]. apply elem_of_cons in Hin as [->|?]; [left|by do 2 right].
Qed.

Lemma bytes_roundtrip v : 0 ≤ v < 2 ^ 53 → parse_bytes (humanize_decimal v "B") = Ok v.
Proof.
  intros Hv. destruct (humanize_decimal_text v "B") as (n & prefix & size & -> & -> & Hn & Hin); [lia|].
  unfold parse_bytes. unfold decimal_prefixes in Hin.
  repeat (apply elem_of_cons in Hin as [[= -> ->]|Hin]; [|]); [..|by apply elem_of_nil in Hin];
    (rewrite split_scalar_text; [|lia|done|by apply List.Forall_forall, forallb_forall]); bind_simpl;
    (apply scale_lookup; [reflexivity|lia..]).
Qed.

Lemma bitrate_roundtrip v : 0 ≤ v < 2 ^ 53 → parse_bitrate (humanize_decimal v "bps") = Ok v.
Proof.
  intros Hv. destruct (humanize_decimal_text v "bps") as (n & prefix & size & -> & -> & Hn & Hin); [lia|].
  unfold parse_bitrate. unfold decimal_prefixes in Hin.
  repeat (apply elem_of_cons in Hin as [[= -> ->]|Hin]; [|]); [..|by apply elem_of_nil in Hin];
    (rewrite split_scalar_text; [|lia|done|by apply List.Forall_forall, forallb_forall]); bind_simpl;
    (apply scale_lookup; [reflexivity|lia..]).
Qed.

(** A rate a policy can hold. *)
Definition rate_ok (r : Rate) : Prop :=
  0 ≤ count r ≤ u64_max ∧ per r ∈ [from_secs 1; from_secs 60; from_secs 3600].

Lemma rate_roundtrip r : rate_ok r → parse_rate (render_rate r) = Ok r.
Proof.
  destruct r as [n w]. intros [Hn Hw]. cbn [count per] in *. unfold parse_rate, render_rate. cbn [count per].
  assert (trim (to_string n ++ "/" ++ per_suffix w) = to_string n ++ "/" ++ per_suffix w) as ->.
  { apply trim_id, Forall_app_2; [apply to_string_plain; lia|]. unfold per_suffix.
    repeat case_match; (apply Forall_cons_2; [done|apply Forall_cons_2; [done|apply Forall_nil_2]]). }
  change (of_string "/" ++ ?x) with (47 :: x). 
  rewrite (proj2 (split_once_Some 47 _ (to_string n) (per_suffix w)))
    by (split; [done|intros H%to_string_digit; lia]). bind_simpl.
  rewrite (trim_id (to_string n)) by (apply to_string_plain; lia).
  unfold parse_u64. rewrite from_str_radix_to_string, decide_True by lia. bind_simpl.
  repeat (apply elem_of_cons in Hw as [->|Hw]; [done|]). by apply elem_of_nil in Hw.
Qed.

(** ** Documents *)

Inductive TomlValue : Type :=
  | TString (s : str)
  | TInteger (n : Z)
  | TBoolean (b : bool)
  | TArray (l : list str).
Definition Table : Type := list (str * TomlValue).
Record Document : Type := mkDocument {
  root : Table;
  tables : list (str * Table);
  arrays : list (str * Table);
}.

Definition print_value (v : TomlValue) : str :=
  match v with
  | TString s => quote s
  | TInteger n => to_string n
  | TBoolean b => if b then "true" else "false"
  | TArray l => [91; 10] ++ flat_map (λ d, line ("    " ++ quote d ++ ",")) l ++ [93]
  end.
Definition print_table (t : Table) : str := flat_map (λ e, key_line e.1 (print_value e.2)) t.
Definition print_document (d : Document) : str :=
  print_table (root d) ++
  flat_map (λ e, line ([10] ++ "[" ++ e.1 ++ "]") ++ print_table e.2) (tables d) ++
  flat_map (λ e, line ([10] ++ "[[" ++ e.1 ++ "]]") ++ print_table e.2) (arrays d).

(** What [Deserialize] makes of a document: fields by name, none unknown. *)
Definition get_value (t : Table) (key : str) : option TomlValue := snd <$> find (λ e, str_eqb e.1 key) t.
Definition known (keys : list str) {A} (t : list (str * A)) : bool := forallb (λ e, existsb (str_eqb e.1) keys) t.
Definition text_field (t : Table) (key : str) : option (option str) :=
  match get_value t key with None => Some None | Some (TString s) => Some (Some s) | Some _ => None end.
Definition text_required (t : Table) (key : str) : option str :=
  match get_value t key with Some (TString s) => Some s | _ => None end.
Definition int_field (max : Z) (t : Table) (key : str) : option (option Z) :=
  match get_value t key with
  | None => Some None
  | Some (TInteger n) => if (0 <=? n) && (n <=? max) then Some (Some n) else None
  | Some _ => None
  end.
Definition bool_field (t : Table) (key : str) : option bool :=
  match get_value t key with None => Some false | Some (TBoolean b) => Some b | Some _ => None end.
Definition texts_field (t : Table) (key : str) : option (list str) :=
  match get_value t key with None => Some [] | Some (TArray l) => Some l | Some _ => None end.
Definition sub_table (d : Document) (name : str) : option Table := snd <$> find (λ e, str_eqb e.1 name) (tables d).

Definition match_keys : list str :=
  [of_string "organization"; of_string "repository"; of_string "workflow"; of_string "ref"; of_string "branch";
   of_string "environment"; of_string "actor"; of_string "kind"].
Definition limit_keys : list str :=
  [of_string "bandwidth"; of_string "bytes"; of_string "connections"; of_string "concurrent_destinations";
   of_string "connection_rate"; of_string "packets_per_second"].
Definition rule_keys : list str :=
  [of_string "id"; of_string "application"; of_string "transport"; of_string "action"; of_string "destinations"].
Definition test_keys : list str :=
  [of_string "application"; of_string "destination"; of_string "transport"; of_string "expect"; of_string "description"].

Definition read_match (t : Table) : option RawMatch :=
  if known match_keys t then
    organization ← text_field t "organization"; repository ← text_field t "repository";
    workflow ← text_field t "workflow"; git_ref ← text_field t "ref"; branch ← text_field t "branch";
    environment ← text_field t "environment"; actor ← text_field t "actor"; kind ← text_field t "kind";
    Some (mkRawMatch organization repository workflow git_ref branch environment actor kind)
  else None.
Definition read_session (t : Table) : option RawSession :=
  if known [of_string "max_duration"] t then mkRawSession <$> text_field t "max_duration" else None.
Definition read_egress (t : Table) : option RawEgress :=
  if known [of_string "region"; of_string "ip_pool"] t then
    region ← text_field t "region"; pool ← text_field t "ip_pool"; Some (mkRawEgress region pool)
  else None.
Definition u32_max : Z := 2 ^ 32 - 1.
Definition read_limits (t : Table) : option RawLimits :=
  if known limit_keys t then
    bandwidth ← text_field t "bandwidth"; bytes ← text_field t "bytes";
    connections ← int_field u32_max t "connections"; destinations ← int_field u32_max t "concurrent_destinations";
    rate ← text_field t "connection_rate"; packets ← int_field u64_max t "packets_per_second";
    Some (mkRawLimits bandwidth bytes connections destinations rate packets)
  else None.
Definition read_rule (t : Table) : option RawRule :=
  if known rule_keys t then
    id ← text_field t "id"; application ← text_required t "application"; transport ← text_field t "transport";
    action ← text_required t "action"; destinations ← texts_field t "destinations";
    Some (mkRawRule id application transport action destinations)
  else None.
Definition read_test (t : Table) : option RawTest :=
  if known test_keys t then
    application ← text_required t "application"; destination ← text_required t "destination";
    transport ← text_field t "transport"; expect ← text_required t "expect";
    description ← text_field t "description";
    Some (mkRawTest application destination transport expect description)
  else None.

(** [#[serde(default)]] on a table. *)
Definition or_default {A} (default : A) (read : Table → option A) (t : option Table) : option A :=
  match t with Some t => read t | None => Some default end.
Definition named {A} (name : str) (l : list (str * A)) : list A := map snd (List.filter (λ e, str_eqb e.1 name) l).

Definition deserialize (d : Document) : option RawPolicy :=
  if known [of_string "name"; of_string "baseline"] (root d) &&
     known [of_string "match"; of_string "session"; of_string "egress"; of_string "limits"] (tables d) &&
     known [of_string "rules"; of_string "tests"] (arrays d) then
    name ← text_field (root d) "name"; baseline ← bool_field (root d) "baseline";
    m ← or_default (mkRawMatch None None None None None None None None) read_match (sub_table d "match");
    session ← or_default (mkRawSession None) read_session (sub_table d "session");
    egress ← or_default None (λ t, Some <$> read_egress t) (sub_table d "egress");
    limits ← or_default (mkRawLimits None None None None None None) read_limits (sub_table d "limits");
    rules ← mapM read_rule (named "rules" (arrays d)); tests ← mapM read_test (named "tests" (arrays d));
    Some (mkRawPolicy name baseline m session egress limits rules tests)
  else None.

(** Text TOML allows in a basic string once quote and backslash are escaped. *)
Definition clean_char (c : Z) : bool := (c =? 9) || ((32 <=? c) && negb (c =? 127)).
Definition clean (s : str) : Prop := Forall (λ c, clean_char c = true) s.
Definition bare_char (c : Z) : bool := is_ascii_alphanumeric c || contains c "-_".
Definition bare (s : str) : Prop := s ≠ [] ∧ Forall (λ c, bare_char c = true) s.

Definition value_ok (v : TomlValue) : Prop :=
  match v with
  | TString s => clean s
  | TInteger n => 0 ≤ n < 2 ^ 63
  | TBoolean _ => True
  | TArray l => Forall clean l
  end.
Definition table_ok (t : Table) : Prop := Forall (λ e, bare e.1 ∧ value_ok e.2) t ∧ NoDup (fst <$> t).
Definition document_ok (d : Document) : Prop :=
  table_ok (root d) ∧ Forall (λ e, bare e.1 ∧ table_ok e.2) (tables d ++ arrays d) ∧
  NoDup ((fst <$> root d) ++ (fst <$> tables d)) ∧
  (∀ n, n ∈ fst <$> arrays d → n ∉ (fst <$> root d) ++ (fst <$> tables d)).

Class TomlReader {E : Type} (toml_from_str : str → result E RawPolicy) : Prop :=
  toml_reads d raw : document_ok d → deserialize d = Some raw → toml_from_str (print_document d) = Ok raw.

(** ** The document of a policy *)

Definition opt_entry {A} (key : str) (value : option A) (mk : A → TomlValue) : Table :=
  match value with Some v => [(key, mk v)] | None => [] end.

Definition match_table (m : MatchSpec) : Table :=
  opt_entry "organization" (m_organization m) TString ++ opt_entry "repository" (m_repository m) TString ++
  opt_entry "workflow" (m_workflow m) TString ++ opt_entry "ref" (m_git_ref m) TString ++
  opt_entry "branch" (m_branch m) TString ++ opt_entry "environment" (m_environment m) TString ++
  opt_entry "actor" (m_actor m) TString ++ opt_entry "kind" (m_kind m) (λ k, TString (kind_as_str k)).
Definition egress_table (e : EgressSpec) : Table :=
  opt_entry "region" (region e) TString ++ opt_entry "ip_pool" (ip_pool e) TString.
Definition limits_table (l : Limits) : Table :=
  opt_entry "bandwidth" (bandwidth_bits_per_sec l) (λ bits, TString (humanize_decimal bits "bps")) ++
  opt_entry "bytes" (total_bytes l) (λ bytes, TString (humanize_decimal bytes "B")) ++
  opt_entry "connections" (concurrent_connections l) TInteger ++
  opt_entry "concurrent_destinations" (concurrent_destinations l) TInteger ++
  opt_entry "connection_rate" (connection_rate l) (λ r, TString (render_rate r)) ++
  opt_entry "packets_per_second" (packets_per_sec l) TInteger.
Definition rule_table (r : Rule) : Table :=
  opt_entry "id" (rule_id r) TString ++ [(of_string "application", TString (app_text (application r)))] ++
  opt_entry "transport" (as_word (transport r)) TString ++
  [(of_string "action", TString (action_as_str (action r)));
   (of_string "destinations", TArray (map raw (destinations r)))].
Definition test_table (t : PolicyTest) : Table :=
  [(of_string "application", TString (t_application t))] ++
  opt_entry "transport" (t_transport t) (λ x, TString (transport_as_str x)) ++
  [(of_string "destination", TString (t_destination t)); (of_string "expect", TString (action_as_str (t_expect t)))].

Definition policy_tables (p : Policy) : list (str * Table) :=
  (if (0 <? specificity (match_spec p))%nat then [(of_string "match", match_table (match_spec p))] else []) ++
  match max_duration (session p) with
  | Some d => [(of_string "session", [(of_string "max_duration", TString (humanize_duration d))])]
  | None => []
  end ++
  match egress p with Some e => [(of_string "egress", egress_table e)] | None => [] end ++
  (if limits_default (limits p) then [] else [(of_string "limits", limits_table (limits p))]).
Definition document_of (p : Policy) : Document :=
  mkDocument
    ((of_string "name", TString (p_name p)) :: (if baseline p then [(of_string "baseline", TBoolean true)] else []))
    (policy_tables p)
    (map (λ r, (of_string "rules", rule_table r)) (rules p) ++ map (λ t, (of_string "tests", test_table t)) (tests p)).

Lemma print_table_app a b : print_table (a ++ b) = print_table a ++ print_table b.
Proof. unfold print_table. by rewrite flat_map_app. Qed.
Lemma print_opt {A} key (v : option A) mk : print_table (opt_entry key v mk) = opt_line key v (λ x, print_value (mk x)).
Proof. destruct v; [|done]. cbn. by rewrite app_nil_r. Qed.
Lemma print_cons e t : print_table (e :: t) = key_line e.1 (print_value e.2) ++ print_table t.
Proof. done. Qed.

Lemma flat_map_ext_map {A B} (f : A → str) (g : B → str) (h : A → B) l :
  (∀ x, f x = g (h x)) → flat_map f l = flat_map g (map h l).
Proof. intros H. induction l as [|x l IH]; [done|]. cbn. by rewrite H, IH. Qed.

Lemma print_rule r : render_rule r = line ([10] ++ "[[" ++ "rules" ++ "]]") ++ print_table (rule_table r).
Proof.
  unfold render_rule, rule_table. rewrite !print_table_app, !print_opt, !print_cons. cbn [fst snd print_value].
  change (print_table []) with (@nil Z). rewrite !app_nil_r. f_equal. f_equal. f_equal. f_equal. f_equal.
  rewrite <- (flat_map_ext_map (λ d, line ("    " ++ quote (raw d) ++ ",")) _ raw) by done.
  unfold key_line, line. by rewrite <- !app_assoc.
Qed.
Lemma print_test t : render_test t = line ([10] ++ "[[" ++ "tests" ++ "]]") ++ print_table (test_table t).
Proof.
  unfold render_test, test_table. rewrite !print_table_app, !print_opt, !print_cons. cbn [fst snd print_value].
  change (print_table []) with (@nil Z). by rewrite !app_nil_r.
Qed.

(** The text is the print of the document. *)
Lemma to_toml_document p : to_toml p = print_document (document_of p).
Proof.
  unfold to_toml, print_document, document_of. cbn [root tables arrays].
  rewrite print_cons. cbn [fst snd print_value]. rewrite <- !app_assoc. f_equal. f_equal; [by destruct (baseline p)|].
  rewrite !flat_map_app. unfold policy_tables. rewrite !flat_map_app, <- !app_assoc.
  f_equal; [|f_equal; [|f_equal; [|f_equal; [|f_equal]]]].
  - unfold render_match. destruct (0 <? _)%nat; [|done]. cbn [flat_map fst snd]. rewrite app_nil_r.
    unfold match_table. rewrite !print_table_app, !print_opt. cbn [flat_map fst snd]. by rewrite app_nil_r, <- !app_assoc.
  - unfold render_session. destruct (max_duration (session p)); [|done]. cbn. by rewrite !app_nil_r.
  - unfold render_egress. destruct (egress p) as [e|]; [|done]. cbn [flat_map fst snd]. rewrite app_nil_r.
    unfold egress_table. by rewrite print_table_app, !print_opt.
  - unfold render_limits. destruct (limits_default _); [done|]. cbn [flat_map fst snd]. rewrite app_nil_r.
    unfold limits_table. by rewrite !print_table_app, !print_opt.
  - apply flat_map_ext_map. intros r. apply print_rule.
  - apply flat_map_ext_map. intros t. apply print_test.
Qed.

(** ** What the document deserialises to *)

Definition raw_match (m : MatchSpec) : RawMatch :=
  mkRawMatch (m_organization m) (m_repository m) (m_workflow m) (m_git_ref m) (m_branch m) (m_environment m)
    (m_actor m) (kind_as_str <$> m_kind m).
Definition raw_limits (l : Limits) : RawLimits :=
  mkRawLimits ((λ b, humanize_decimal b "bps") <$> bandwidth_bits_per_sec l) ((λ b, humanize_decimal b "B") <$> total_bytes l)
    (concurrent_connections l) (concurrent_destinations l) (render_rate <$> connection_rate l) (packets_per_sec l).
Definition raw_rule (r : Rule) : RawRule :=
  mkRawRule (rule_id r) (app_text (application r)) (as_word (transport r)) (action_as_str (action r)) (map raw (destinations r)).
Definition raw_test (t : PolicyTest) : RawTest :=
  mkRawTest (t_application t) (t_destination t) (transport_as_str <$> t_transport t) (action_as_str (t_expect t)) None.
Definition raw_of (p : Policy) : RawPolicy :=
  mkRawPolicy (Some (p_name p)) (baseline p) (raw_match (match_spec p))
    (mkRawSession (humanize_duration <$> max_duration (session p)))
    ((λ e, mkRawEgress (region e) (ip_pool e)) <$> egress p) (raw_limits (limits p))
    (map raw_rule (rules p)) (map raw_test (tests p)).

(** Counts a [u32] holds, and a packet rate TOML can write. *)
Definition counts_ok (l : Limits) : Prop :=
  (∀ n, concurrent_connections l = Some n → 0 ≤ n ≤ u32_max) ∧
  (∀ n, concurrent_destinations l = Some n → 0 ≤ n ≤ u32_max) ∧
  (∀ n, packets_per_sec l = Some n → 0 ≤ n < 2 ^ 63).

Lemma read_match_table m : read_match (match_table m) = Some (raw_match m).
Proof. destruct m as [[?|] [?|] [?|] [?|] [?|] [?|] [?|] [?|]]; reflexivity. Qed.

Lemma int_field_entry max t key n : get_value t key = Some (TInteger n) → 0 ≤ n ≤ max → int_field max t key = Some (Some n).
Proof.
  intros Hg Hn. unfold int_field. rewrite Hg.
  rewrite (proj2 (Z.leb_le 0 n)), (proj2 (Z.leb_le n max)) by lia. done.
Qed.

Lemma read_limits_table l : counts_ok l → read_limits (limits_table l) = Some (raw_limits l).
Proof.
  intros (H1 & H2 & H3). unfold read_limits. destruct l as [bw by_ cc cd rt pp].
  cbn [concurrent_connections concurrent_destinations packets_per_sec] in *.
  assert (∀ n, pp = Some n → 0 ≤ n ≤ u64_max) as H4 by (intros n Hn; apply H3 in Hn; unfold u64_max; lia).
  set (t := limits_table _).
  assert (known limit_keys t = true) as -> by (destruct bw, by_, cc, cd, rt, pp; reflexivity).
  assert (text_field t "bandwidth" = Some ((λ b, humanize_decimal b "bps") <$> bw)) as -> by (destruct bw; [reflexivity|destruct by_, cc, cd, rt, pp; reflexivity]).
  assert (text_field t "bytes" = Some ((λ b, humanize_decimal b "B") <$> by_)) as -> by (destruct bw, by_; try reflexivity; destruct cc, cd, rt, pp; reflexivity).
  assert (int_field u32_max t "connections" = Some cc) as ->.
  { destruct cc as [n|]; [|destruct bw, by_, cd, rt, pp; reflexivity].
    apply int_field_entry; [destruct bw, by_; reflexivity|by apply H1]. }
  assert (int_field u32_max t "concurrent_destinations" = Some cd) as ->.
  { destruct cd as [n|]; [|destruct bw, by_, cc, rt, pp; reflexivity].
    apply int_field_entry; [destruct bw, by_, cc; reflexivity|by apply H2]. }
  assert (text_field t "connection_rate" = Some (render_rate <$> rt)) as ->
    by (destruct bw, by_, cc, cd, rt; try reflexivity; destruct pp; reflexivity).
  assert (int_field u64_max t "packets_per_second" = Some pp) as ->; [|reflexivity].
  destruct pp as [n|]; [|destruct bw, by_, cc, cd, rt; reflexivity].
  apply int_field_entry; [destruct bw, by_, cc, cd, rt; reflexivity|by apply H4].
Qed.

Lemma read_rule_table r : read_rule (rule_table r) = Some (raw_rule r).
Proof. destruct r as [[?|] [|?] [] [] ?]; reflexivity. Qed.
Lemma read_test_table t : read_test (test_table t) = Some (raw_test t).
Proof. destruct t as [? ? [[]|] [] ?]; reflexivity. Qed.

Lemma specificity_zero m : (0 <? specificity m)%nat = false → m = default_match.
Proof. destruct m as [[?|] [?|] [?|] [?|] [?|] [?|] [?|] [?|]]; done. Qed.
Lemma limits_default_eq l : limits_default l = true → l = PolicyModel.default_limits.
Proof. destruct l as [[?|] [?|] [?|] [?|] [?|] [?|]]; done. Qed.

(** A table among the tables of a policy. *)
Lemma sub_tables p :
  sub_table (document_of p) "match" =
    (if (0 <? specificity (match_spec p))%nat then Some (match_table (match_spec p)) else None) ∧
  sub_table (document_of p) "session" =
    (λ d, [(of_string "max_duration", TString (humanize_duration d))]) <$> max_duration (session p) ∧
  sub_table (document_of p) "egress" = egress_table <$> egress p ∧
  sub_table (document_of p) "limits" = (if limits_default (limits p) then None else Some (limits_table (limits p))).
Proof.
  unfold sub_table, document_of, policy_tables. cbn [tables].
  destruct (0 <? _)%nat, (max_duration (session p)), (egress p), (limits_default (limits p)); split_and!; reflexivity.
Qed.

Lemma named_arrays p :
  named "rules" (arrays (document_of p)) = map rule_table (rules p) ∧
  named "tests" (arrays (document_of p)) = map test_table (tests p).
Proof.
  unfold named, document_of. cbn [arrays]. rewrite !List.filter_app, !map_app.
  assert (∀ A (f : A → Table) n m l, map snd (List.filter (λ e : str * Table, str_eqb e.1 m) (map (λ x, (n, f x)) l)) =
    if str_eqb n m then map f l else []) as H.
  { intros A f n m l. induction l as [|x l IH]; cbn; [by destruct (str_eqb n m)|].
    destruct (str_eqb n m) eqn:E; cbn; rewrite IH; done. }
  rewrite !H. cbn. by rewrite app_nil_r.
Qed.

Lemma known_app {A} keys (a b : list (str * A)) : known keys (a ++ b) = known keys a && known keys b.
Proof. apply forallb_app. Qed.

Lemma mapM_map {A B C} (f : B → option C) (g : A → B) (h : A → C) l :
  (∀ x, f (g x) = Some (h x)) → mapM f (map g l) = Some (map h l).
Proof. intros H. induction l as [|x l IH]; [done|]. cbn. by rewrite H, IH. Qed.

Lemma deserialize_document p : counts_ok (limits p) → deserialize (document_of p) = Some (raw_of p).
Proof.
  intros Hc. unfold deserialize. destruct (sub_tables p) as (-> & -> & -> & ->). destruct (named_arrays p) as [-> ->].
  assert (known [of_string "name"; of_string "baseline"] (root (document_of p)) = true) as ->
    by (unfold document_of; cbn [root]; destruct (baseline p); reflexivity).
  assert (known [of_string "match"; of_string "session"; of_string "egress"; of_string "limits"] (tables (document_of p)) = true) as ->.
  { unfold document_of, policy_tables. cbn [tables].
    destruct (0 <? _)%nat, (max_duration (session p)), (egress p), (limits_default (limits p)); reflexivity. }
  assert (known [of_string "rules"; of_string "tests"] (arrays (document_of p)) = true) as ->.
  { unfold document_of. cbn [arrays]. rewrite known_app. apply andb_true_iff. unfold known.
    split; apply forallb_forall; intros e (x & <- & _)%in_map_iff; reflexivity. }
  cbn [andb]. assert (text_field (root (document_of p)) "name" = Some (Some (p_name p))) as -> by reflexivity.
  assert (bool_field (root (document_of p)) "baseline" = Some (baseline p)) as ->
    by (unfold document_of; cbn [root]; destruct (baseline p); reflexivity).
  rewrite (mapM_map _ _ raw_rule) by apply read_rule_table. rewrite (mapM_map _ _ raw_test) by apply read_test_table.
  assert (or_default (mkRawMatch None None None None None None None None) read_match
    (if (0 <? specificity (match_spec p))%nat then Some (match_table (match_spec p)) else None) =
    Some (raw_match (match_spec p))) as ->.
  { destruct (0 <? _)%nat eqn:E; [apply read_match_table|]. by rewrite (specificity_zero _ E). }
  assert (or_default (mkRawLimits None None None None None None) read_limits
    (if limits_default (limits p) then None else Some (limits_table (limits p))) = Some (raw_limits (limits p))) as ->.
  { destruct (limits_default _) eqn:E; [by rewrite (limits_default_eq _ E)|by apply read_limits_table]. }
  unfold raw_of. destruct (max_duration (session p)), (egress p) as [[[?|] [?|]]|]; reflexivity.
Qed.

(** ** Loading the document again *)

(** What a policy must hold for its text to say all of it. *)
Definition limits_ok (l : Limits) : Prop :=
  counts_ok l ∧
  (∀ b, bandwidth_bits_per_sec l = Some b → 0 ≤ b < 2 ^ 53) ∧ (∀ b, total_bytes l = Some b → 0 ≤ b < 2 ^ 53) ∧
  (∀ r, connection_rate l = Some r → rate_ok r).
Definition rule_ok (r : Rule) : Prop :=
  destinations r ≠ [] ∧ Forall (λ d, parse_spec (raw d) = Ok d) (destinations r) ∧ application r ≠ AppName "*".
Definition texts_of_match (m : MatchSpec) : list str :=
  omap id [m_organization m; m_repository m; m_workflow m; m_git_ref m; m_branch m; m_environment m; m_actor m].
Definition texts_of (p : Policy) : list str :=
  p_name p :: texts_of_match (match_spec p) ++
  match egress p with Some e => omap id [region e; ip_pool e] | None => [] end ++
  flat_map (λ r, option_list (rule_id r) ++ [app_text (application r)] ++ map raw (destinations r)) (rules p) ++
  flat_map (λ t, [t_application t; t_destination t]) (tests p).
Definition renderable (p : Policy) : Prop :=
  p_name p ≠ [] ∧ Forall clean (texts_of p) ∧
  (∀ d, max_duration (session p) = Some d → 0 ≤ d ≤ duration_max ∧ d mod 10 ^ 6 = 0) ∧
  limits_ok (limits p) ∧ Forall rule_ok (rules p) ∧
  (baseline p = true → Forall (λ r, action r = Deny) (rules p)).

Definition without_description (t : PolicyTest) : PolicyTest :=
  mkTest (t_application t) (t_destination t) (t_transport t) (t_expect t) None.
Definition without_descriptions (p : Policy) : Policy :=
  mkPolicy (p_name p) (match_spec p) (session p) (egress p) (limits p) (rules p)
    (map without_description (tests p)) (baseline p).

Section reload.
Context {TomlError YamlError : Type}.
Abbreviation ParseError := (PolicyParse.ParseError (TomlError := TomlError) (YamlError := YamlError)).

Lemma into_limits_raw l : limits_ok l → into_limits (TomlError := TomlError) (YamlError := YamlError) (raw_limits l) = Ok l.
Proof.
  intros (_ & H1 & H2 & H3). unfold into_limits, raw_limits. destruct l as [bw by_ cc cd rt pp].
  cbn [bandwidth_bits_per_sec total_bytes connection_rate concurrent_connections concurrent_destinations packets_per_sec
    rl_bandwidth rl_bytes rl_connections rl_concurrent_destinations rl_connection_rate rl_packets_per_second] in *.
  assert (parse_field (TomlError := TomlError) (YamlError := YamlError) "limits.bandwidth"
    ((λ b, humanize_decimal b "bps") <$> bw) parse_bitrate = Ok bw) as ->.
  { destruct bw; [|done]. cbn [fmap option_fmap option_map parse_field]. by rewrite bitrate_roundtrip by auto. }
  assert (parse_field (TomlError := TomlError) (YamlError := YamlError) "limits.bytes"
    ((λ b, humanize_decimal b "B") <$> by_) parse_bytes = Ok by_) as ->.
  { destruct by_; [|done]. cbn [fmap option_fmap option_map parse_field]. by rewrite bytes_roundtrip by auto. }
  assert (parse_field (TomlError := TomlError) (YamlError := YamlError) "limits.connection_rate"
    (render_rate <$> rt) parse_rate = Ok rt) as ->; [|done].
  destruct rt; [|done]. cbn [fmap option_fmap option_map parse_field]. by rewrite rate_roundtrip by auto.
Qed.

Lemma into_rule_raw r i : rule_ok r → into_rule (TomlError := TomlError) (YamlError := YamlError) (raw_rule r) i = Ok r.
Proof.
  intros (Hne & Hd & Ha). destruct r as [id app tr ac ds]. unfold into_rule, raw_rule.
  cbn [rr_destinations rr_action rr_transport rr_id rr_application rule_id application transport action destinations] in *.
  assert (traverse parse_spec (map raw ds) = Ok ds) as Ht
    by (apply traverse_Ok; clear Hne; induction Hd; constructor; done).
  destruct (map raw ds) eqn:E; [destruct ds; done|].
  assert (parse_action (TomlError := TomlError) (YamlError := YamlError) (of_string "rule " ++ to_string (Z.of_nat i) ++ " action")
    (action_as_str ac) = Ok ac) as -> by by destruct ac.
  bind_simpl. rewrite Ht.
  assert (app_pattern (app_text app) = app) as ->.
  { unfold app_pattern. destruct app as [|n]; [done|]. cbn [app_text]. destruct (str_eqb_spec n "*"); [by subst|done]. }
  by destruct tr.
Qed.

Lemma into_test_raw t : into_test (TomlError := TomlError) (YamlError := YamlError) (raw_test t) = Ok (without_description t).
Proof. by destruct t as [? ? [[]|] [] ?]. Qed.

Lemma into_policy_raw p : renderable p → into_policy (TomlError := TomlError) (YamlError := YamlError) (raw_of p) = Ok (without_descriptions p).
Proof.
  intros (Hn & _ & Hd & Hl & Hr & Hb). unfold into_policy, raw_of.
  cbn [rp_name rp_match rp_session rp_egress rp_limits rp_rules rp_tests rp_baseline rm_kind raw_match rs_max_duration
    rm_organization rm_repository rm_workflow rm_git_ref rm_branch rm_environment rm_actor].
  rewrite bool_decide_eq_false_2 by done. bind_simpl.
  assert (parse_kind (TomlError := TomlError) (YamlError := YamlError) (kind_as_str <$> m_kind (match_spec p)) = Ok (m_kind (match_spec p))) as ->
    by by destruct (m_kind (match_spec p)) as [[]|].
  bind_simpl.
  assert (parse_field (TomlError := TomlError) (YamlError := YamlError) "session.max_duration"
    (humanize_duration <$> max_duration (session p)) parse_duration = Ok (max_duration (session p))) as ->.
  { destruct (max_duration (session p)) as [d|]; [|done]. cbn [fmap option_fmap option_map parse_field].
    destruct (Hd d eq_refl) as [Hb1 Hb2]. rewrite duration_roundtrip by done. bind_simpl. do 2 f_equal.
    unfold from_millis, as_millis. pose proof (Z.div_mod d (10 ^ 6) ltac:(lia)). lia. }
  bind_simpl. rewrite into_limits_raw by done. bind_simpl.
  assert (traverse (λ '(index, r), into_rule (TomlError := TomlError) (YamlError := YamlError) r index)
    (enumerate (map raw_rule (rules p))) = Ok (rules p)) as ->.
  { apply traverse_Ok. unfold enumerate.
    enough (∀ f : nat → nat, Forall2 (λ '(index, r) r', into_rule (TomlError := TomlError) (YamlError := YamlError) r index = Ok r')
      (imap (λ i r, (f i, r)) (map raw_rule (rules p))) (rules p)) as H.
    { eapply Forall2_impl; [exact (H id)|]. by intros [i r] r'. }
    clear -Hr. induction Hr as [|r rs Hr _ IH]; intros f; [constructor|]. cbn [map imap].
    constructor; [by apply into_rule_raw|apply (IH (f ∘ S))]. }
  bind_simpl.
  assert (traverse (into_test (TomlError := TomlError) (YamlError := YamlError)) (map raw_test (tests p)) =
    Ok (map without_description (tests p))) as ->.
  { apply traverse_Ok. induction (tests p); constructor; [apply into_test_raw|done]. }
  bind_simpl.
  assert ((if baseline p then first_allow 0 (rules p) else None) = None) as ->.
  { destruct (baseline p); [|done]. apply first_allow_None. by apply Hb. }
  unfold without_descriptions. destruct (match_spec p), (session p), (egress p) as [[]|]; done.
Qed.
End reload.

(** ** The document is one TOML can read *)

Lemma literal_bare s : s ≠ [] → forallb bare_char s = true → bare s.
Proof. intros Hne Hs. split; [done|]. apply List.Forall_forall. by apply forallb_forall. Qed.
Ltac bare_literal := apply literal_bare; [done|reflexivity].

Lemma forallb_clean s : forallb clean_char s = true → clean s.
Proof. intros Hs. apply List.Forall_forall. by apply forallb_forall. Qed.
Lemma to_string_clean n : 0 ≤ n → clean (to_string n).
Proof.
  intros Hn. apply Forall_forall. intros c Hc%to_string_digit; [|done]. unfold clean_char.
  rewrite (proj2 (Z.leb_le 32 c)) by lia. destruct (Z.eqb_spec c 127); [lia|]. by rewrite orb_true_r.
Qed.
Lemma humanize_decimal_clean v unit : 0 ≤ v → clean unit → clean (humanize_decimal v unit).
Proof.
  intros Hv Hu. destruct (humanize_decimal_text v unit Hv) as (n & prefix & size & -> & _ & Hn & Hin).
  apply Forall_app_2; [by apply to_string_clean|]. apply Forall_app_2; [|done]. unfold decimal_prefixes in Hin.
  repeat (apply elem_of_cons in Hin as [[= -> ->]|Hin]; [by apply forallb_clean|]). by apply elem_of_nil in Hin.
Qed.
Lemma humanize_duration_clean d : 0 ≤ d ≤ duration_max → clean (humanize_duration d).
Proof.
  intros Hd. destruct (humanize_duration_segs [] d Hd) as (segs & -> & _ & Hok & _). unfold render.
  induction Hok as [|[[w u] size] segs (Hw & _ & (_ & Hal & _)) _ IH]; [constructor|]. cbn [fmap list_fmap flat_map fst].
  apply Forall_app_2; [|exact IH]. apply Forall_app_2; [apply to_string_clean; cbn in *; lia|].
  eapply Forall_impl; [exact Hal|]. intros c Hc. unfold clean_char.
  unfold is_ascii_alphabetic, is_ascii_lowercase, is_ascii_uppercase in Hc.
  rewrite orb_true_iff, !andb_true_iff, !Z.leb_le in Hc.
  rewrite (proj2 (Z.leb_le 32 c)) by lia. destruct (Z.eqb_spec c 127); [lia|]. by rewrite orb_true_r.
Qed.
Lemma render_rate_clean r : rate_ok r → clean (render_rate r).
Proof.
  intros [Hn _]. apply Forall_app_2; [apply to_string_clean; lia|]. apply Forall_app_2; [by apply forallb_clean|].
  unfold per_suffix. repeat case_match; by apply forallb_clean.
Qed.

Lemma opt_entry_ok {A} (P : str * TomlValue → Prop) key (v : option A) mk :
  (∀ x, v = Some x → P (key, mk x)) → Forall P (opt_entry key v mk).
Proof. intros H. destruct v; [|constructor]. constructor; [by apply H|constructor]. Qed.
Lemma opt_entry_key {A} key (v : option A) mk : fst <$> opt_entry key v mk `sublist_of` [key].
Proof. destruct v; [done|apply sublist_nil_l]. Qed.
Lemma table_keys t keys : NoDup keys → Forall (λ e : str * TomlValue, bare e.1 ∧ value_ok e.2) t →
  fst <$> t `sublist_of` keys → table_ok t.
Proof. intros Hn Ht Hs. split; [done|]. by eapply sublist_NoDup. Qed.

Ltac split_table := repeat first [apply Forall_app_2 | apply opt_entry_ok; intros | apply Forall_cons_2 | apply Forall_nil_2].
Lemma keys_cons {A} key (v : option A) mk (l ks : list str) :
  l `sublist_of` ks → (fst <$> opt_entry key v mk) ++ l `sublist_of` key :: ks.
Proof. intros Hl. apply (sublist_app _ [key]); [apply opt_entry_key|done]. Qed.
Ltac keys_sublist := rewrite ?fmap_app; repeat first
  [ apply keys_cons | apply opt_entry_key | apply sublist_skip | apply sublist_nil_l].

Lemma clean_options l : Forall clean (omap id l) → Forall (λ o, ∀ s, o = Some s → clean s) l.
Proof.
  induction l as [|[s|] l IH]; cbn; intros H; [constructor|..].
  - apply Forall_cons in H as [Hs H]. constructor; [by intros ? [= <-]|by apply IH].
  - constructor; [done|by apply IH].
Qed.

Lemma match_table_ok m : Forall clean (texts_of_match m) → table_ok (match_table m).
Proof.
  intros Hc%clean_options. apply (table_keys _ match_keys); [by apply (bool_decide_unpack _)| |].
  - repeat (apply Forall_cons in Hc as [? Hc]).
    split_table; (split; [bare_literal|]); cbn [snd value_ok]; first [by eauto | destruct x; by apply forallb_clean].
  - unfold match_table, match_keys. keys_sublist.
Qed.
Lemma egress_table_ok e : Forall clean (omap id [region e; ip_pool e]) → table_ok (egress_table e).
Proof.
  intros Hc%clean_options. apply (table_keys _ [of_string "region"; of_string "ip_pool"]); [by apply (bool_decide_unpack _)| |].
  - repeat (apply Forall_cons in Hc as [? Hc]). split_table; (split; [bare_literal|]); cbn [snd value_ok]; eauto.
  - unfold egress_table. keys_sublist.
Qed.
Lemma limits_table_ok l : limits_ok l → table_ok (limits_table l).
Proof.
  intros ((H1 & H2 & H3) & H4 & H5 & H6). apply (table_keys _ limit_keys); [by apply (bool_decide_unpack _)| |].
  - split_table; (split; [bare_literal|]); cbn [snd value_ok].
    + apply humanize_decimal_clean; [apply H4 in H; lia|by apply forallb_clean].
    + apply humanize_decimal_clean; [apply H5 in H; lia|by apply forallb_clean].
    + apply H1 in H. unfold u32_max in *. lia.
    + apply H2 in H. unfold u32_max in *. lia.
    + apply render_rate_clean. auto.
    + apply H3 in H. lia.
  - unfold limits_table, limit_keys. keys_sublist.
Qed.
Lemma rule_table_ok r :
  Forall clean (option_list (rule_id r) ++ [app_text (application r)] ++ map raw (destinations r)) → table_ok (rule_table r).
Proof.
  intros (Hi & (Ha & Hd)%Forall_cons)%Forall_app. apply (table_keys _ rule_keys); [by apply (bool_decide_unpack _)| |].
  - split_table; (split; [bare_literal|]); cbn [snd value_ok]; try done.
    + rewrite H in Hi. by apply Forall_cons in Hi as [? _].
    + destruct (transport r); simplify_eq/=; by apply forallb_clean.
    + destruct (action r); by apply forallb_clean.
  - unfold rule_table, rule_keys. keys_sublist.
Qed.
Lemma test_table_ok t : Forall clean [t_application t; t_destination t] → table_ok (test_table t).
Proof.
  intros (Ha & (Hd & _)%Forall_cons)%Forall_cons.
  apply (table_keys _ [of_string "application"; of_string "transport"; of_string "destination"; of_string "expect"]);
    [by apply (bool_decide_unpack _)| |].
  - split_table; (split; [bare_literal|]); cbn [snd value_ok]; try done.
    + destruct x; by apply forallb_clean.
    + destruct (t_expect t); by apply forallb_clean.
  - unfold test_table. keys_sublist.
Qed.

Lemma document_of_ok p : renderable p → document_ok (document_of p).
Proof.
  intros (Hn & Hc & Hd & Hl & _). unfold texts_of in Hc. apply Forall_cons in Hc as [Hname Hc].
  apply Forall_app in Hc as [Hm Hc]. apply Forall_app in Hc as [He Hc]. apply Forall_app in Hc as [Hr Ht].
  split; [|split; [|split]].
  - apply (table_keys _ [of_string "name"; of_string "baseline"]); [by apply (bool_decide_unpack _)| |].
    + cbn [root document_of]. constructor; [split; [bare_literal|done]|].
      destruct (baseline p); [|constructor]. constructor; [split; [bare_literal|done]|constructor].
    + cbn [root document_of]. destruct (baseline p); [done|]. apply sublist_skip, sublist_nil_l.
  - cbn [tables arrays document_of]. unfold policy_tables. repeat apply Forall_app_2.
    + destruct (0 <? _)%nat; [|constructor]. constructor; [|constructor]. split; [bare_literal|by apply match_table_ok].
    + destruct (max_duration (session p)) as [d|] eqn:E; [|constructor]. constructor; [|constructor]. split; [bare_literal|].
      apply (table_keys _ [of_string "max_duration"]); [by apply (bool_decide_unpack _)| |done].
      constructor; [|constructor]. split; [bare_literal|]. apply humanize_duration_clean. by apply Hd.
    + destruct (egress p) as [e|]; [|constructor]. constructor; [|constructor]. split; [bare_literal|by apply egress_table_ok].
    + destruct (limits_default _); constructor; [|constructor]. split; [bare_literal|by apply limits_table_ok].
    + apply Forall_map. induction (rules p) as [|r rs IH]; [constructor|]. cbn [flat_map] in Hr.
      apply Forall_app in Hr as [Hr1 Hr]. constructor; [|by apply IH]. split; [bare_literal|by apply rule_table_ok].
    + apply Forall_map. induction (tests p) as [|t ts IH]; [constructor|]. cbn [flat_map] in Ht.
      apply Forall_app in Ht as [Ht1 Ht]. constructor; [|by apply IH]. split; [bare_literal|by apply test_table_ok].
  - cbn [root tables document_of]. unfold policy_tables.
    destruct (baseline p), (0 <? _)%nat, (max_duration (session p)), (egress p), (limits_default (limits p));
      by apply (bool_decide_unpack _).
  - cbn [root tables arrays document_of]. intros n Hin.
    assert (n = of_string "rules" ∨ n = of_string "tests") as Hcase.
    { rewrite fmap_app in Hin. apply elem_of_app in Hin as [Hin|Hin]; apply list_elem_of_fmap in Hin as (e & -> & Hin);
        apply list_elem_of_fmap in Hin as (x & -> & _); auto. }
    unfold policy_tables.
    destruct (baseline p), (0 <? _)%nat, (max_duration (session p)), (egress p), (limits_default (limits p)), Hcase as [-> | ->];
      by apply (bool_decide_unpack _).
Qed.

(** ** A reader of such documents *)

Definition esc (c : Z) : str := if c =? 34 then [92; 34] else if c =? 92 then [92; 92] else [c].

Lemma quote_esc s : quote s = [34] ++ flat_map esc s ++ [34].
Proof.
  unfold quote. do 2 f_equal. unfold replace_char. induction s as [|c s IH]; [done|]. cbn [flat_map].
  rewrite flat_map_app, IH. f_equal. unfold esc. destruct (Z.eqb_spec c 92) as [->|?]; [done|]. cbn [flat_map].
  destruct (Z.eqb_spec c 34); done.
Qed.

(** The text between the quotes, which end the line. *)
Fixpoint unescape (s : str) : option str :=
  match s with
  | [] => None
  | c :: s =>
      if c =? 34 then if bool_decide (s = []) then Some [] else None
      else if c =? 92 then match s with x :: s => cons x <$> unescape s | [] => None end
      else cons c <$> unescape s
  end.

Lemma unescape_esc s : unescape (flat_map esc s ++ [34]) = Some s.
Proof.
  induction s as [|c s IH]; [done|]. cbn [flat_map]. unfold esc at 1.
  destruct (Z.eqb_spec c 34) as [->|H34]; [cbn; by rewrite IH|].
  destruct (Z.eqb_spec c 92) as [->|H92]; [cbn; by rewrite IH|].
  cbn. rewrite (proj2 (Z.eqb_neq c 34) H34), (proj2 (Z.eqb_neq c 92) H92). by rewrite IH.
Qed.

Definition read_string (s : str) : option str := s ← strip_prefix [34] s; unescape s.
Lemma read_quote s : read_string (quote s) = Some s.
Proof. rewrite quote_esc. apply unescape_esc. Qed.

Inductive Item : Type := Header (array : bool) (name : str) | Entry (key : str) (value : TomlValue).

Definition read_value (s : str) : option TomlValue :=
  if str_eqb s "true" then Some (TBoolean true)
  else if str_eqb s "false" then Some (TBoolean false)
  else match read_string s with Some t => Some (TString t) | None => TInteger <$> parse_u64 s end.
Definition read_header (s : str) : option Item :=
  match (s ← strip_prefix [91; 91] s; strip_suffix [93; 93] s) with
  | Some name => Some (Header true name)
  | None => Header false <$> (s ← strip_prefix [91] s; strip_suffix [93] s)
  end.
Definition read_element (s : str) : option str :=
  s ← strip_prefix "    " s; s ← strip_suffix "," s; read_string s.

(** Line by line; [open] is the array being read, its elements in reverse. *)
Fixpoint read_lines (open : option (str * list str)) (ls : list str) : option (list Item) :=
  match ls with
  | [] => if is_some open then None else Some []
  | l :: ls =>
      match open with
      | Some (key, elements) =>
          if str_eqb l "]" then cons (Entry key (TArray (rev elements))) <$> read_lines None ls
          else d ← read_element l; read_lines (Some (key, d :: elements)) ls
      | None =>
          if bool_decide (l = []) || starts_with "#" l then read_lines None ls
          else if starts_with "[" l then h ← read_header l; cons h <$> read_lines None ls
          else
            '(key, v) ← split_once 32 l; v ← strip_prefix "= " v;
            if str_eqb v "[" then read_lines (Some (key, [])) ls
            else v ← read_value v; cons (Entry key v) <$> read_lines None ls
      end
  end.

(** The entries up to the next header, and the sections after it. *)
Fixpoint sections (items : list Item) : Table * list (bool * str * Table) :=
  match items with
  | [] => ([], [])
  | Entry k v :: items => let '(t, ss) := sections items in ((k, v) :: t, ss)
  | Header a n :: items => let '(t, ss) := sections items in ([], (a, n, t) :: ss)
  end.

Definition read_document (s : str) : option Document :=
  items ← read_lines None (split 10 s);
  let '(t, ss) := sections items in
  let pick (array : bool) := map (λ e, (e.1.2, e.2)) (List.filter (λ e, Bool.eqb e.1.1 array) ss) in
  Some (mkDocument t (pick false) (pick true)).

(** ** It reads what is printed *)

Definition item_lines (i : Item) : list str :=
  match i with
  | Header a n => [[]; if a then [91; 91] ++ n ++ [93; 93] else [91] ++ n ++ [93]]
  | Entry k (TArray l) => [k ++ " = ["] ++ map (λ d, of_string "    " ++ quote d ++ ",") l ++ [of_string "]"]
  | Entry k v => [k ++ " = " ++ print_value v]
  end.
Definition item_ok (i : Item) : Prop :=
  match i with Header _ n => bare n | Entry k v => bare k ∧ value_ok v end.

Definition entries (t : Table) : list Item := map (λ e, Entry e.1 e.2) t.
Definition items_of (d : Document) : list Item :=
  entries (root d) ++ flat_map (λ e, Header false e.1 :: entries e.2) (tables d) ++
  flat_map (λ e, Header true e.1 :: entries e.2) (arrays d).

Lemma bare_no c s : bare s → bare_char c = false → c ∉ s.
Proof. intros [_ Hs] Hc Hin. rewrite Forall_forall in Hs. by rewrite Hs in Hc. Qed.

Lemma clean_no_newline s : clean s → 10 ∉ quote s.
Proof.
  intros Hs. rewrite quote_esc. intros [H|[Hin|H]%elem_of_app]%elem_of_app; [set_solver| |set_solver].
  apply list_elem_of_In, in_flat_map in Hin as (c & Hc%list_elem_of_In & Hin).
  unfold clean in Hs. rewrite Forall_forall in Hs. apply Hs in Hc. unfold esc in Hin. repeat case_match; cbn in Hin; try lia.
  destruct Hin as [->|[]]. done.
Qed.

Lemma bare_first n : bare n → ∃ c n', n = c :: n' ∧ c ≠ 91 ∧ c ≠ 10 ∧ c ≠ 35.
Proof.
  intros [Hne Hb]. destruct n as [|c n]; [done|]. apply Forall_cons in Hb as [Hc _]. exists c, n.
  split; [done|]. split_and!; intros ->; done.
Qed.

Lemma read_header_line (a : bool) n :
  bare n → read_header (if a then [91; 91] ++ n ++ [93; 93] else [91] ++ n ++ [93]) = Some (Header a n).
Proof.
  intros Hn. destruct (bare_first n Hn) as (c & n' & -> & Hc & _). unfold read_header. destruct a.
  - rewrite strip_prefix_app. cbn [mbind option_bind]. by rewrite strip_suffix_app.
  - assert (strip_prefix [91; 91] ([91] ++ (c :: n') ++ [93]) = None) as ->.
    { apply strip_prefix_None. by intros r [= -> _]. }
    rewrite strip_prefix_app. cbn [mbind option_bind]. by rewrite strip_suffix_app.
Qed.

Definition plain (v : TomlValue) : Prop := match v with TArray _ => False | _ => True end.

Lemma value_first v : plain v → value_ok v →
  ∃ c s, print_value v = c :: s ∧ c ≠ 91 ∧ match v with TString _ => c = 34 | TInteger _ => is_ascii_digit c = true | _ => True end.
Proof.
  destruct v as [s|n|b|l]; cbn [plain value_ok print_value]; intros Hp Hv; [| | |done].
  - rewrite quote_esc. by eexists _, _.
  - destruct (to_string_spec n) as (c & ds & -> & [Hd _]%Forall_cons & _); [lia|]. exists c, ds.
    split; [done|]. split; [by intros ->|done].
  - destruct b; by eexists _, _.
Qed.

Lemma read_value_print v : plain v → value_ok v → read_value (print_value v) = Some v.
Proof.
  intros Hp Hv. destruct v as [s|n|b|l]; [| |by destruct b|done]; unfold read_value.
  - assert (∀ t, hd_error t ≠ Some 34 → str_eqb (print_value (TString s)) t = false) as H.
    { intros t Ht. apply str_eqb_neq. intros <-. apply Ht. cbn [print_value]. by rewrite quote_esc. }
    rewrite !H by done. cbn [print_value]. by rewrite read_quote.
  - destruct (value_first (TInteger n)) as (c & t & Heq & _ & Hc); [done|done|]. cbn [print_value value_ok] in *.
    assert (∀ u, match hd_error u with Some x => is_ascii_digit x = false | None => True end → str_eqb (to_string n) u = false) as H.
    { intros u Hu. apply str_eqb_neq. intros <-. rewrite Heq in Hu. cbn in Hu. congruence. }
    rewrite !H by done.
    assert (read_string (to_string n) = None) as ->.
    { rewrite Heq. unfold read_string. assert (strip_prefix [34] (c :: t) = None) as ->; [|done].
      apply strip_prefix_None. by intros r [= -> _]. }
    unfold parse_u64. rewrite from_str_radix_to_string, decide_True by (unfold u64_max; lia). done.
Qed.

Lemma read_elements key (l acc : list str) rest :
  read_lines (Some (key, acc)) (map (λ d, of_string "    " ++ quote d ++ ",") l ++ of_string "]" :: rest) =
  cons (Entry key (TArray (rev acc ++ l))) <$> read_lines None rest.
Proof.
  revert acc. induction l as [|d l IH]; intros acc.
  - cbn [map app read_lines]. rewrite str_eqb_refl. by rewrite app_nil_r.
  - cbn [map app]. cbn [read_lines].
    assert (str_eqb (of_string "    " ++ quote d ++ ",") "]" = false) as -> by (by apply str_eqb_neq).
    unfold read_element. rewrite strip_prefix_app. cbn [mbind option_bind]. rewrite strip_suffix_app.
    cbn [mbind option_bind]. rewrite read_quote. cbn [mbind option_bind]. rewrite IH. cbn [rev]. by rewrite <- app_assoc.
Qed.

Lemma read_entry_line key v : bare key →
  bool_decide (key ++ " = " ++ v = []) || starts_with "#" (key ++ " = " ++ v) = false ∧
  starts_with "[" (key ++ " = " ++ v) = false ∧
  split_once 32 (key ++ " = " ++ v) = Some (key, of_string "= " ++ v).
Proof.
  intros Hk. destruct (bare_first key Hk) as (c & k & -> & Hc & _ & H35). split; [|split].
  - apply orb_false_iff. split; [done|]. destruct (starts_with "#" _) eqn:E; [|done].
    apply starts_with_true in E as [r [= -> _]]. done.
  - destruct (starts_with "[" _) eqn:E; [|done]. apply starts_with_true in E as [r [= -> _]]. done.
  - apply split_once_Some. split; [done|]. by apply bare_no.
Qed.

Lemma read_plain key v rest : bare key → plain v → value_ok v →
  read_lines None (item_lines (Entry key v) ++ rest) = cons (Entry key v) <$> read_lines None rest.
Proof.
  intros Hk Hp Hv. assert (item_lines (Entry key v) = [key ++ " = " ++ print_value v]) as -> by by destruct v.
  cbn [app read_lines]. destruct (read_entry_line key (print_value v) Hk) as (H1 & H2 & H3).
  rewrite H1, H2, H3. cbn [mbind option_bind]. rewrite strip_prefix_app. cbn [mbind option_bind].
  destruct (value_first v Hp Hv) as (c & t & Heq & Hc & _).
  assert (str_eqb (print_value v) "[" = false) as -> by (apply str_eqb_neq; rewrite Heq; by intros [= -> _]).
  by rewrite (read_value_print v Hp Hv).
Qed.

Lemma read_items items rest more :
  Forall item_ok items → read_lines None rest = Some more →
  read_lines None (flat_map item_lines items ++ rest) = Some (items ++ more).
Proof.
  intros Hi Hrest. induction Hi as [|i items Hi _ IH]; [done|]. cbn [flat_map]. rewrite <- app_assoc.
  destruct i as [a n|key v]; cbn [item_ok] in Hi.
  - cbn [item_lines app read_lines]. cbn [bool_decide decide_rel].
    set (h := if a then _ else _). assert (read_header h = Some (Header a n)) as Hh by by apply read_header_line.
    assert (bool_decide (h = []) || starts_with "#" h = false) as -> by (by destruct a).
    assert (starts_with "[" h = true) as -> by (apply starts_with_true; destruct a; by eexists).
    rewrite Hh. cbn [mbind option_bind]. by rewrite IH.
  - destruct Hi as [Hk Hv]. destruct v as [s|n|b|l].
    4:{ cbn [item_lines]. rewrite <- !app_assoc. cbn [app read_lines].
        destruct (read_entry_line key [91] Hk) as (H1 & H2 & H3).
        change (key ++ of_string " = [") with (key ++ " = " ++ [91]). rewrite H1, H2, H3. cbn [mbind option_bind].
        rewrite strip_prefix_app. cbn [mbind option_bind]. change (str_eqb [91] "[") with true. cbv iota.
        rewrite read_elements. by rewrite IH. }
    all: by rewrite read_plain, IH.
Qed.

Lemma print_entries t : print_table t = flat_map line (flat_map item_lines (entries t)).
Proof.
  induction t as [|[key v] t IH]; [done|]. rewrite print_cons, IH. cbn [entries map flat_map fst snd].
  rewrite flat_map_app. f_equal. destruct v as [s|n|b|l]; cbn [item_lines flat_map]; rewrite ?app_nil_r; [done..|].
  rewrite !flat_map_app, <- (flat_map_ext_map (λ d, line ("    " ++ quote d ++ ",")) line) by done.
  cbn [flat_map print_value]. unfold key_line, line. rewrite <- !app_assoc. done.
Qed.

Lemma print_sections (a : bool) l :
  flat_map (λ e, line ([10] ++ (if a then [91; 91] ++ e.1 ++ [93; 93] else [91] ++ e.1 ++ [93])) ++ print_table e.2) l =
  flat_map line (flat_map item_lines (flat_map (λ e, Header a e.1 :: entries e.2) l)).
Proof.
  induction l as [|[n t] l IH]; [done|]. cbn [flat_map fst snd]. rewrite IH, print_entries, !flat_map_app.
  cbn [item_lines flat_map]. rewrite flat_map_app. unfold line. cbn [flat_map]. by rewrite <- !app_assoc.
Qed.

Lemma print_document_lines d : print_document d = flat_map line (flat_map item_lines (items_of d)).
Proof.
  unfold print_document, items_of. rewrite !flat_map_app, print_entries.
  rewrite <- (print_sections false (tables d)), <- (print_sections true (arrays d)). done.
Qed.

Lemma split_lines ls : Forall (λ l, 10 ∉ l) ls → split 10 (flat_map line ls) = ls ++ [[]].
Proof.
  induction 1 as [|l ls Hl _ IH]; [done|]. cbn [flat_map]. unfold line at 1.
  rewrite <- app_assoc. cbn [app]. by rewrite split_app, IH.
Qed.

Lemma item_lines_one i : item_ok i → Forall (λ l, 10 ∉ l) (item_lines i).
Proof.
  assert (∀ n, bare n → 10 ∉ n) as Hb by (intros n Hn; by apply bare_no).
  assert (∀ a b : str, 10 ∉ a → 10 ∉ b → 10 ∉ a ++ b) as Happ by (intros a b ? ?; rewrite elem_of_app; tauto).
  assert (∀ s, forallb (λ c, negb (c =? 10)) s = true → 10 ∉ s) as Hlit.
  { intros s Hs Hin%list_elem_of_In. by apply (proj1 (forallb_forall _ _) Hs) in Hin. }
  destruct i as [a n|key v]; cbn [item_ok item_lines].
  - intros Hn%Hb. repeat apply Forall_cons_2; [by apply Hlit| |constructor]. destruct a; repeat (apply Happ; [by apply Hlit|]);
      (apply Happ; [done|by apply Hlit]).
  - intros [Hk%Hb Hv]. destruct v as [s|n|b|l]; cbn [value_ok] in Hv.
    1-3: apply Forall_cons_2; [|constructor]; (apply Happ; [done|]); (apply Happ; [by apply Hlit|]); cbn [print_value].
    + by apply clean_no_newline.
    + intros Hin%to_string_digit; lia.
    + destruct b; by apply Hlit.
    + apply Forall_app_2; [|apply Forall_app_2].
      * apply Forall_cons_2; [|constructor]. apply Happ; [done|by apply Hlit].
      * apply Forall_map. eapply Forall_impl; [exact Hv|]. intros d Hd. cbv beta.
        apply Happ; [by apply Hlit|]. apply Happ; [by apply clean_no_newline|by apply Hlit].
      * apply Forall_cons_2; [by apply Hlit|constructor].
Qed.

Lemma items_ok d : document_ok d → Forall item_ok (items_of d).
Proof.
  intros ((Hr & _) & Hs & _).
  assert (∀ t, Forall (λ e : str * TomlValue, bare e.1 ∧ value_ok e.2) t → Forall item_ok (entries t)) as He.
  { intros t Ht. apply Forall_map. eapply Forall_impl; [exact Ht|]. by intros [k v]. }
  assert (∀ a l, Forall (λ e : str * Table, bare e.1 ∧ table_ok e.2) l →
    Forall item_ok (flat_map (λ e, Header a e.1 :: entries e.2) l)) as Hl.
  { intros a l. induction 1 as [|[n t] l [Hn [Ht _]] _ IH]; [constructor|]. cbn [flat_map fst snd].
    apply (Forall_app_2 _ (_ :: _)); [constructor; [done|by apply He]|done]. }
  apply Forall_app in Hs as [Ht Ha]. unfold items_of. repeat apply Forall_app_2; auto.
Qed.

Lemma sections_entries t rest : sections (entries t ++ rest) = (t ++ (sections rest).1, (sections rest).2).
Proof.
  induction t as [|[k v] t IH]; [cbn [entries map app]; by destruct (sections rest)|]. cbn [entries map app sections fst snd].
  fold (entries t). by rewrite IH.
Qed.
Lemma sections_headers a (l : list (str * Table)) rest : (sections rest).1 = [] →
  sections (flat_map (λ e, Header a e.1 :: entries e.2) l ++ rest) = ([], map (λ e, (a, e.1, e.2)) l ++ (sections rest).2).
Proof.
  intros Hrest. induction l as [|[n t] l IH].
  - cbn [flat_map map app]. destruct (sections rest) as [t ss]. cbn [fst snd] in *. by subst.
  - cbn [flat_map fst snd map]. rewrite <- app_assoc. cbn [app sections]. rewrite sections_entries, IH. cbn [fst snd].
    by rewrite app_nil_r.
Qed.

(** The reader undoes the printer on every document TOML allows. *)
Lemma read_print_document d : document_ok d → read_document (print_document d) = Some d.
Proof.
  intros Hd. unfold read_document. rewrite print_document_lines, split_lines.
  2:{ apply List.Forall_forall. intros l (i & Hi & Hl)%in_flat_map. pose proof (items_ok d Hd) as Hok.
      rewrite List.Forall_forall in Hok. apply Hok, item_lines_one in Hi. rewrite List.Forall_forall in Hi. by apply Hi. }
  rewrite (read_items (items_of d) [[]] []) by (try done; by apply items_ok). cbn [mbind option_bind]. rewrite app_nil_r.
  unfold items_of. rewrite sections_entries.
  assert (sections (flat_map (λ e, Header true e.1 :: entries e.2) (arrays d)) = ([], map (λ e, (true, e.1, e.2)) (arrays d))) as Ha.
  { rewrite <- (app_nil_r (flat_map _ _)), sections_headers by done. by rewrite app_nil_r. }
  rewrite sections_headers by by rewrite Ha. rewrite Ha. cbn [fst snd]. rewrite app_nil_r, !List.filter_app, !map_app.
  assert (∀ (a b : bool) (l : list (str * Table)), map (λ e : bool * str * Table, (e.1.2, e.2))
    (List.filter (λ e, Bool.eqb e.1.1 b) (map (λ e, (a, e.1, e.2)) l)) = if Bool.eqb a b then l else []) as Hf.
  { intros a b l. induction l as [|[n t] l IH]; [by destruct a, b|]. destruct a, b; cbn in *; by rewrite ?IH. }
  rewrite !Hf. cbn [Bool.eqb]. rewrite app_nil_r. by destruct d.
Qed.

Definition read_toml (s : str) : result unit RawPolicy :=
  match (d ← read_document s; deserialize d) with Some raw => Ok raw | None => Err tt end.
#[export] Instance read_toml_reader : TomlReader read_toml.
Proof. intros d raw Hd Hr. unfold read_toml. rewrite read_print_document by done. cbn [mbind option_bind]. by rewrite Hr. Qed.

(** ** Correctness *)

Lemma toml_reads_policy {TomlError : Type} (toml : str → result TomlError RawPolicy) (p : Policy) :
  TomlReader toml → renderable p → toml (to_toml p) = Ok (raw_of p).
Proof.
  intros Htoml Hp. rewrite to_toml_document. apply toml_reads; [by apply document_of_ok|].
  apply deserialize_document. by destruct Hp as (_ & _ & _ & (Hc & _) & _).
Qed.

(** C36.  Rendering is the inverse of loading.  For every reader that understands
    the documents printed here as TOML says, a policy whose texts hold no control
    character, whose quantities are below 2^53 and whose rules are as the loader
    builds them, rendered and loaded again, is the same policy, but for the
    descriptions of its tests, which are not written. *)
Theorem render_roundtrip {TomlError YamlError : Type} (toml : str → result TomlError RawPolicy) (p : Policy) :
  TomlReader toml → renderable p →
  from_toml (YamlError := YamlError) toml (to_toml p) = Ok (without_descriptions p).
Proof.
  intros Htoml Hp. unfold from_toml. rewrite toml_reads_policy by done. bind_simpl. by apply into_policy_raw.
Qed.

(** ** Loaded policies can be rendered *)

Lemma trim_start_idem s : trim_start (trim_start s) = trim_start s.
Proof. induction s as [|c s IH]; [done|]. cbn [trim_start]. destruct (is_whitespace c) eqn:E; [done|]. cbn. by rewrite E. Qed.
Lemma trim_start_end s : trim_start s = s → trim_start (trim_end s) = trim_end s.
Proof.
  intros Hs. unfold trim_end. destruct s as [|c s]; [done|]. cbn [trim_start] in Hs.
  destruct (is_whitespace c) eqn:E.
  { assert (length (trim_start s) ≤ length s)%nat as Hl
      by (clear; induction s as [|x s IH]; cbn; [lia|]; destruct (is_whitespace x); cbn; lia).
    rewrite Hs in Hl. cbn in Hl. lia. }
  cbn [rev]. assert (∃ r, trim_start (rev s ++ [c]) = r ++ [c]) as [r ->].
  { clear Hs. induction (rev s) as [|x l IH]; cbn [app trim_start]; [rewrite E; by exists []|].
    destruct (is_whitespace x); [done|]. by exists (x :: l). }
  rewrite rev_app_distr. cbn. by rewrite E.
Qed.
Lemma trim_idem s : trim (trim s) = trim s.
Proof.
  unfold trim at 1. assert (trim_start (trim s) = trim s) as -> by (unfold trim; apply trim_start_end, trim_start_idem).
  unfold trim, trim_end. by rewrite rev_involutive, trim_start_idem.
Qed.

Lemma parse_spec_raw input d : parse_spec input = Ok d → parse_spec (raw d) = Ok d.
Proof.
  assert (∀ i j a l h, parse_cidr i a l = Ok h → parse_cidr j a l = Ok h) as Hc.
  { intros i j a l h. unfold parse_cidr. destruct (parse_ip a); [|done]. cbn.
    destruct (parse_u16 l); [|done]. done. }
  assert (∀ i j s h, parse_host_pattern i s = Ok h → parse_host_pattern j s = Ok h) as Hh.
  { intros i j s h. unfold parse_host_pattern. destruct (str_eqb s "*"); [done|].
    destruct (strip_prefix "*." s) as [x|]; [|done]. destruct (_ || _); done. }
  intros H. assert (raw d = trim input) as Hraw.
  { unfold parse_spec in H. repeat case_match; inv_ok; try done; by simplify_eq/=. }
  rewrite Hraw. unfold parse_spec in *. rewrite trim_idem. destruct (bool_decide (trim input = [])); [done|].
  destruct (str_eqb (trim input) "*"); [done|]. destruct (split_once 47 (trim input)) as [[a l]|].
  - apply bind_Ok in H as (h & H1 & H2). by rewrite (Hc _ _ _ _ _ H1).
  - apply bind_Ok in H as ([host port] & H1 & H2). rewrite H1. bind_simpl.
    apply bind_Ok in H2 as (h & H2 & H3). by rewrite (Hh _ _ _ _ H2).
Qed.

Lemma duration_segment_ms input u v d : 0 ≤ v → duration_segment input u v = Ok d → 0 ≤ d ∧ d mod 10 ^ 6 = 0.
Proof.
  intros Hv. unfold duration_segment, from_millis, from_secs, checked_mul64.
  assert (∀ x, 0 ≤ x → 0 ≤ x * 10 ^ 9 ∧ (x * 10 ^ 9) mod 10 ^ 6 = 0) as Hs.
  { intros x Hx. split; [lia|]. replace (x * 10 ^ 9) with (x * 1000 * 10 ^ 6) by lia. apply Z.mod_mul. lia. }
  repeat (case_match; [intros H'; inv_ok; try (case_match; [done|]; simplify_eq/=; apply Hs; lia);
    first [apply Hs; lia | split; [lia|apply Z.mod_mul; lia]] |]); done.
Qed.

Lemma duration_loop_ms fuel input total rest d :
  0 ≤ total ≤ duration_max → total mod 10 ^ 6 = 0 → duration_loop fuel input total rest = Ok d →
  0 ≤ d ≤ duration_max ∧ d mod 10 ^ 6 = 0.
Proof.
  revert total rest. induction fuel as [|fuel IH]; intros total [|c rest] Ht Hm; cbn [duration_loop];
    try (by intros [= <-]).
  destruct (span is_ascii_digit (c :: rest)) as [digits after].
  destruct (bool_decide (after = [])); [done|]. destruct (bool_decide (digits = [])); [done|].
  intros (v & Hv & H)%bind_Ok. apply ok_or_Ok, from_str_radix_bound in Hv; [|lia|unfold u64_max; lia].
  destruct (span is_ascii_alphabetic after) as [unit rest']. apply bind_Ok in H as (seg & Hs & H).
  apply bind_Ok in H as (t & Hadd & H). apply duration_segment_ms in Hs as [Hs0 Hs1]; [|lia].
  apply ok_or_Ok in Hadd. unfold checked_add_duration in Hadd.
  destruct (Z.ltb_spec duration_max (total + seg)); [done|]. injection Hadd as <-.
  eapply IH; [| |exact H]; [lia|]. rewrite Z.add_mod, Hm, Hs1 by lia. done.
Qed.
Lemma parse_duration_ms s d : parse_duration s = Ok d → 0 ≤ d ≤ duration_max ∧ d mod 10 ^ 6 = 0.
Proof.
  unfold parse_duration. case_bool_decide; [done|]. apply duration_loop_ms; [|done]. vm_compute. by split.
Qed.
Lemma parse_rate_ok s r : parse_rate s = Ok r → rate_ok r.
Proof.
  unfold parse_rate. intros ([c u] & _ & H)%bind_Ok. apply bind_Ok in H as (n & Hn & H).
  apply bind_Ok in H as (w & Hw & [= <-]). apply ok_or_Ok, from_str_radix_bound in Hn; [|lia|unfold u64_max; lia].
  split; [done|]. cbn [per]. apply ok_or_Ok in Hw. unfold rate_unit in Hw.
  repeat case_match; simplify_eq/=; [left|right; left|do 2 right; left].
Qed.

Lemma parse_field_Some {T Y A} field v (parser : str → result ParseUnitError A) o x :
  parse_field (TomlError := T) (YamlError := Y) field v parser = Ok o → o = Some x → ∃ s, parser s = Ok x.
Proof.
  intros H ->. destruct v as [s|]; cbn [parse_field] in H; [|done].
  apply bind_Ok in H as (y & Hy & [= <-]). apply map_err_Ok in Hy. eauto.
Qed.

(** A loaded policy can be rendered, if its texts are clean, its quantities are
    below 2^53 and its counts are those of a document. *)
Lemma loaded_renderable {TomlError YamlError : Type} (raw_policy : RawPolicy) (p : Policy) :
  into_policy (TomlError := TomlError) (YamlError := YamlError) raw_policy = Ok p →
  Forall clean (texts_of p) → counts_ok (limits p) →
  (∀ b, bandwidth_bits_per_sec (limits p) = Some b → 0 ≤ b < 2 ^ 53) →
  (∀ b, total_bytes (limits p) = Some b → 0 ≤ b < 2 ^ 53) → renderable p.
Proof.
  intros Hp Hclean Hcounts Hbw Hby. pose proof (into_policy_Ok _ _ Hp) as (_ & Hn & _ & Hrules & _ & Hbase).
  split; [done|]. split; [done|]. unfold into_policy in Hp. apply bind_Ok in Hp as (name & _ & Hp).
  apply bind_Ok in Hp as (kind & _ & Hp). apply bind_Ok in Hp as (duration & Hd & Hp).
  apply bind_Ok in Hp as (l & Hl & Hp). apply bind_Ok in Hp as (rs & _ & Hp). apply bind_Ok in Hp as (ts & _ & Hp).
  destruct (if rp_baseline raw_policy then _ else _) as [i|]; [done|]. injection Hp as <-.
  cbn [session max_duration limits rules] in *. split; [|split; [|split; [|done]]].
  - intros d ->. eapply parse_field_Some in Hd as (s & Hs); [|done]. by eapply parse_duration_ms.
  - split; [done|]. split; [done|]. split; [done|]. unfold into_limits in Hl.
    apply bind_Ok in Hl as (bw & _ & Hl). apply bind_Ok in Hl as (by_ & _ & Hl).
    apply bind_Ok in Hl as (rate & Hr & [= <-]). cbn [connection_rate]. intros r ->.
    eapply parse_field_Some in Hr as (s & Hs); [|done]. by eapply parse_rate_ok.
  - clear -Hrules. induction Hrules as [|[i r] r' irs rs Hr _ IH]; [constructor|]. constructor; [|done].
    apply into_rule_Ok in Hr as (Hne & Hds & _ & Ha & _). split; [|split].
    + intros Hnil. rewrite Hnil in Hds. by apply Forall2_nil_inv_r in Hds.
    + clear -Hds. induction Hds as [|t s ts ss Hs _ IH]; constructor; [by eapply parse_spec_raw|done].
    + rewrite Ha. cbn [snd]. unfold app_pattern. destruct (str_eqb_spec (rr_application r) "*"); congruence.
Qed.

(** ** Examples *)

Definition quoting_policy : Policy :=
  mkPolicy (of_string "say " ++ [34] ++ "hi" ++ [92]) (mkMatch None (Some (of_string "acme/widget")) None None None None None (Some Ci))
    (mkSession (Some (from_secs 1200))) (Some (mkEgress (Some (of_string "us-west")) None))
    (mkLimits (Some 100000000) None (Some 50) None (Some (mkRate 10 (from_secs 1))) None)
    [mkRule (Some (of_string "tf")) (AppName "terraform") OnlyTcp Allow
       [mkSpec (Suffix ".example.com") (ExactPort 443) "*.example.com:443"; mkSpec AnyHost AnyPort "*"]]
    [mkTest "terraform" "api.example.com:443" (Some Tcp) Allow (Some (of_string "the API"))] false.

Lemma quoting_policy_renderable : renderable quoting_policy.
Proof.
  split; [done|]. split; [repeat (apply Forall_cons_2; [by apply forallb_clean|]); constructor|].
  split; [intros d [= <-]; vm_compute; by split|]. split; [|split; [|done]].
  - split; [split_and!; intros n [= <-]; by vm_compute|]. split; [intros b [= <-]; by vm_compute|].
    split; [done|]. intros r [= <-]. split; [by vm_compute|left].
  - constructor; [|constructor]. split; [done|]. split; [|done].
    repeat (apply Forall_cons_2; [reflexivity|]). constructor.
Qed.

Lemma render_roundtrip_witness :
  TomlReader read_toml ∧ renderable quoting_policy ∧
  from_toml (YamlError := unit) read_toml (to_toml quoting_policy) = Ok (without_descriptions quoting_policy).
Proof.
  split; [exact read_toml_reader|]. split; [exact quoting_policy_renderable|].
  apply (render_roundtrip read_toml quoting_policy read_toml_reader quoting_policy_renderable).
Defined.

(** A control character is written as it is, which TOML does not allow: the text
    of such a policy is not read back. *)
Lemma newline_not_read :
  read_toml (to_toml (mkPolicy (of_string "a" ++ [10] ++ "b") default_match default_session None PolicyModel.default_limits [] [] false)) = Err tt.
Proof. reflexivity. Qed.
