(* ===== verification/PolicyLearn.v ===== *)
(** * Learning mode

    Model of [crates/skimasque-policy/src/learn.rs]: the draft policy built from
    what a workload was observed doing.  The ordered maps and sets of the code
    ([BTreeMap], [BTreeSet]) are sorted lists with their insertion functions. *)

From S2P Require Import Prelude RustStr RustNet PolicyDest PolicyUnits PolicyModel PolicyEval.

Record Observation : Type := mkObservation {
  o_application : str;
  o_transport : option Transport;
  o_destination : str;
  o_count : Z;
}.

(** The reason of a skipped observation is kept as the error value; the code
    keeps its text. *)
Record Suggestion : Type := mkSuggestion {
  policy : Policy;
  skipped : list (Observation * ParseDestinationError);
}.

(** ** Ordered sets and maps *)

(** [BTreeSet::insert]. *)
Fixpoint set_insert (x : str) (l : list str) : list str :=
  match l with
  | [] => [x]
  | y :: l' =>
      match str_compare x y with
      | Lt => x :: l
      | Eq => l
      | Gt => y :: set_insert x l'
      end
  end.

Definition pattern_rank (p : TransportPattern) : nat :=
  match p with AnyTransport => 0 | OnlyTcp => 1 | OnlyUdp => 2 end.

Abbreviation key := (str * TransportPattern)%type.

Definition key_compare (a b : key) : comparison :=
  match str_compare a.1 b.1 with
  | Eq => Nat.compare (pattern_rank a.2) (pattern_rank b.2)
  | c => c
  end.

(** [map.entry(k).or_default().insert(d)]. *)
Fixpoint entry_insert (k : key) (d : str) (m : list (key * list str)) : list (key * list str) :=
  match m with
  | [] => [(k, [d])]
  | (k', ds) :: m' =>
      match key_compare k k' with
      | Lt => (k, [d]) :: m
      | Eq => (k', set_insert d ds) :: m'
      | Gt => (k', ds) :: entry_insert k d m'
      end
  end.

(** ** The draft *)

Definition observe (acc : list (Observation * ParseDestinationError) * list (key * list str))
    (o : Observation) : list (Observation * ParseDestinationError) * list (key * list str) :=
  let '(skipped, by_key) := acc in
  match parse_destination (o_destination o) with
  | Ok d => (skipped, entry_insert (o_application o, pattern_from (o_transport o))
                        (display_destination d) by_key)
  | Err e => (skipped ++ [(o, e)], by_key)
  end.

Definition draft_id (application : str) (tp : TransportPattern) : str :=
  let app_id : str := if bool_decide (application = []) then "any" else application in
  match as_word tp with
  | Some word => app_id ++ "-" ++ word ++ "-observed"
  | None => app_id ++ "-observed"
  end.

Definition draft_app (application : str) : AppPattern :=
  if bool_decide (application = []) || str_eqb application "*" then AnyApp else AppName application.

(** An error stands for the panic of the [expect]. *)
Definition draft_rule (e : key * list str) : result ParseDestinationError Rule :=
  let '((application, tp), texts) := e in
  ds ← traverse parse_spec texts;
  Ok (mkRule (Some (draft_id application tp)) (draft_app application) tp Allow ds).

Definition match_from_identity (i : WorkloadIdentity) : MatchSpec :=
  let '(b, r) := match branch i with Some b => (Some b, None) | None => (None, git_ref i) end in
  mkMatch (organization i) (repository i) (workflow i) r b (environment i) (actor i) (kind i).

Definition suggest_policy (name : str) (i : WorkloadIdentity) (observations : list Observation)
    : result ParseDestinationError Suggestion :=
  let '(skipped, by_key) := fold_left observe observations ([], []) in
  rs ← traverse draft_rule by_key;
  Ok (mkSuggestion
        (mkPolicy name (match_from_identity i) default_session None default_limits rs [] false)
        skipped).

(** ** The ordered map holds what was inserted *)

(** [d] is recorded under [k]. *)
Definition recorded (m : list (key * list str)) (k : key) (d : str) : Prop :=
  ∃ ds, (k, ds) ∈ m ∧ d ∈ ds.

Lemma set_insert_elem x y l : y ∈ set_insert x l ↔ y = x ∨ y ∈ l.
Proof.
  induction l as [|z l IH]; cbn [set_insert]; [by rewrite elem_of_cons|].
  destruct (str_compare x z) eqn:Hc; rewrite ?elem_of_cons.
  - apply str_compare_eq in Hc. naive_solver.
  - done.
  - rewrite IH. naive_solver.
Qed.

Lemma key_compare_eq a b : key_compare a b = Eq ↔ a = b.
Proof.
  destruct a as [a p], b as [b q]. unfold key_compare. cbn [fst snd].
  destruct (str_compare a b) eqn:Hc.
  - apply str_compare_eq in Hc as ->. rewrite Nat.compare_eq_iff.
    destruct p, q; cbn; naive_solver.
  - split; [done|]. intros [= -> ->]. by rewrite (proj2 (str_compare_eq b b)) in Hc.
  - split; [done|]. intros [= -> ->]. by rewrite (proj2 (str_compare_eq b b)) in Hc.
Qed.

Lemma recorded_nil k d : ¬ recorded [] k d.
Proof. intros (ds & []%elem_of_nil & _). Qed.

Lemma recorded_cons k0 ds m k d : recorded ((k0, ds) :: m) k d ↔ (k = k0 ∧ d ∈ ds) ∨ recorded m k d.
Proof.
  unfold recorded. setoid_rewrite elem_of_cons. split.
  - intros (x & [[= -> ->]|Hx] & Hd); eauto.
  - intros [[-> Hd]|(x & Hx & Hd)]; eauto.
Qed.

Lemma entry_insert_recorded k d m k' d' :
  recorded (entry_insert k d m) k' d' ↔ (k' = k ∧ d' = d) ∨ recorded m k' d'.
Proof.
  induction m as [|[k0 ds] m IH]; cbn [entry_insert].
  - rewrite recorded_cons, list_elem_of_singleton. tauto.
  - destruct (key_compare k k0) eqn:Hc.
    + apply key_compare_eq in Hc as ->. rewrite !recorded_cons, set_insert_elem. tauto.
    + rewrite !recorded_cons, list_elem_of_singleton. tauto.
    + rewrite !recorded_cons, IH. tauto.
Qed.

(** ** What the draft rules allow *)

(** A workload was observed making the request. *)
Definition observed (o : Observation) (ctx : RequestContext) : Prop :=
  parse_destination (o_destination o) = Ok (destination ctx) ∧
  (o_transport o = None ∨ o_transport o = Some (c_transport ctx)) ∧
  (o_application o = [] ∨ o_application o = "*" ∨
   eq_ignore_ascii_case (o_application o) (c_application ctx) = true).

Definition key_covers (k : key) (ctx : RequestContext) : Prop :=
  app_matches (draft_app k.1) (c_application ctx) = true ∧ transport_matches k.2 (c_transport ctx) = true.

Lemma draft_app_matches application app :
  app_matches (draft_app application) app = true ↔
  application = [] ∨ application = "*" ∨ eq_ignore_ascii_case application app = true.
Proof.
  unfold draft_app, str_eqb. case_bool_decide as H1; cbn [orb]; [cbn; tauto|].
  case_bool_decide as H2; cbn; tauto.
Qed.

Lemma pattern_from_matches o t :
  transport_matches (pattern_from o) t = true ↔ o = None ∨ o = Some t.
Proof. destruct o as [[]|], t; cbn; intuition congruence. Qed.

(** Every text recorded is the text of a destination, so the draft's rules build
    and match exactly the destinations recorded. *)
Definition texts_ok (m : list (key * list str)) : Prop :=
  ∀ k d, recorded m k d → ∃ dest, dest_ok dest ∧ d = display_destination dest.

Lemma display_inj d d' : dest_ok d → dest_ok d' → display_destination d = display_destination d' → d = d'.
Proof.
  intros Hd Hd' Heq. apply parse_display_destination in Hd, Hd'. rewrite Heq in Hd. congruence.
Qed.

Lemma draft_specs texts :
  (∀ t, t ∈ texts → ∃ dest, dest_ok dest ∧ t = display_destination dest) →
  ∃ ds, traverse parse_spec texts = Ok ds ∧
    ∀ d, existsb (λ s, spec_matches s d) ds = true ↔ dest_ok d ∧ display_destination d ∈ texts.
Proof.
  induction texts as [|t texts IH]; intros Ht; cbn [traverse].
  - exists []. split; [done|]. intros d. split; [done|]. by intros [_ []%elem_of_nil].
  - destruct (Ht t) as (dest & Hd & ->); [left|].
    destruct (display_as_pattern dest Hd) as (s & Hs & _ & Hm).
    destruct IH as (ds & Hds & Hall); [intros x Hx; apply Ht; by right|].
    exists (s :: ds). rewrite Hs, Hds. bind_simpl. split; [done|]. intros d. cbn [existsb].
    rewrite orb_true_iff, Hm, Hall, elem_of_cons. split.
    + intros [->|[? ?]]; auto.
    + intros [Hok [Heq|Hin]]; [left; by apply display_inj|auto].
Qed.

(** The rules of the draft allow a destination exactly when it is recorded under
    a key that covers the request. *)
Lemma draft_rules m :
  texts_ok m →
  ∃ rs, traverse draft_rule m = Ok rs ∧ Forall (λ r, action r = Allow) rs ∧
    ∀ ctx, Exists (λ r, applies r ctx = true) rs ↔
      dest_ok (destination ctx) ∧
      ∃ k, recorded m k (display_destination (destination ctx)) ∧ key_covers k ctx.
Proof.
  induction m as [|[[app tp] texts] m IH]; intros Hm; cbn [traverse].
  - exists []. split_and!; [done|constructor|]. intros ctx. rewrite Exists_nil. split; [done|].
    by intros (_ & k & []%recorded_nil & _).
  - destruct (draft_specs texts) as (ds & Hds & Hmatch).
    { intros t Ht. apply (Hm (app, tp)). apply recorded_cons. auto. }
    destruct IH as (rs & Hrs & Hact & Happ).
    { intros k d Hk. apply (Hm k). apply recorded_cons. auto. }
    rewrite Hrs. cbn [draft_rule]. rewrite Hds. bind_simpl. eexists. split; [done|].
    split; [by constructor|]. intros ctx. rewrite Exists_cons, Happ. setoid_rewrite recorded_cons.
    unfold applies at 1, covers, key_covers. cbn [application transport destinations].
    rewrite !andb_true_iff, Hmatch. split.
    + intros [[Hc [Hok Hin]]|(Hok & k & Hk & Hc)]; (split; [done|]); [|by exists k; auto].
      exists (app, tp). auto.
    + intros (Hok & k & [[-> Hin]|Hk] & Hc); [by left|]. right. eauto.
Qed.

Lemma all_allow_evaluate p ctx index rs :
  Forall (λ r, action r = Allow) rs →
  is_allow (evaluate_rules p ctx index rs) = true ↔ Exists (λ r, applies r ctx = true) rs.
Proof.
  intros H. revert index. induction H as [|r rs Hr _ IH]; intros index.
  - rewrite Exists_nil. by split.
  - rewrite is_allow_cons, Exists_cons, Hr, <- (IH (S index)).
    destruct (applies r ctx); [rewrite bool_decide_eq_true|]; intuition discriminate.
Qed.

(** ** What the observations record *)

Definition unusable (o : Observation) : option (Observation * ParseDestinationError) :=
  match parse_destination (o_destination o) with Ok _ => None | Err e => Some (o, e) end.

Definition records (o : Observation) (k : key) (d : str) : Prop :=
  ∃ dest, parse_destination (o_destination o) = Ok dest ∧
    k = (o_application o, pattern_from (o_transport o)) ∧ d = display_destination dest.

Lemma observe_fold obs sk m sk' m' :
  fold_left observe obs (sk, m) = (sk', m') →
  sk' = sk ++ omap unusable obs ∧
  ∀ k d, recorded m' k d ↔ recorded m k d ∨ Exists (λ o, records o k d) obs.
Proof.
  revert sk m. induction obs as [|o obs IH]; intros sk m; cbn [fold_left].
  - intros [= <- <-]. split; [by rewrite app_nil_r|]. intros k d. rewrite Exists_nil. tauto.
  - cbn [omap list_omap]. unfold unusable at 1, observe at 2.
    setoid_rewrite Exists_cons. unfold records at 1.
    destruct (parse_destination (o_destination o)) as [dest|e].
    + intros (Hs & Hm)%IH. split; [done|]. intros k d. rewrite Hm, entry_insert_recorded. split.
      * intros [[[-> ->]|Hr]|He]; [right; left; by exists dest|auto|auto].
      * intros [Hr|[(x & [= <-] & -> & ->)|He]]; auto.
    + intros (Hs & Hm)%IH. split; [by rewrite Hs, <- app_assoc|]. intros k d. rewrite Hm. split.
      * intros [Hr|He]; auto.
      * intros [Hr|[(x & [=] & _)|He]]; auto.
Qed.

Lemma records_texts_ok obs m :
  (∀ k d, recorded m k d ↔ Exists (λ o, records o k d) obs) → texts_ok m.
Proof.
  intros H k d (o & _ & dest & Hp & _ & ->)%H%Exists_exists. exists dest.
  split; [by eapply parse_destination_valid|done].
Qed.

Lemma match_from_identity_matches i : matches (match_from_identity i) i = true.
Proof.
  assert (∀ o, constraint o (λ w, ci_eq w o) = true) as Hci.
  { intros [s|]; cbn; [apply eq_ignore_refl|done]. }
  assert (∀ o, constraint o (λ w, field_eq w o) = true) as Hf.
  { intros [s|]; cbn; [by apply bool_decide_eq_true|done]. }
  unfold matches, match_from_identity.
  destruct (branch i) as [b|] eqn:Hb; cbn [m_organization m_repository m_workflow m_git_ref m_branch
    m_environment m_actor m_kind]; rewrite ?Hci, ?Hf; cbn [andb constraint];
    rewrite ?Hb, ?Hf; rewrite !andb_true_iff; split_and!; try done;
    try (destruct (repository i) as [r|] eqn:Hr; cbn [constraint ci_eq]; [by rewrite eq_ignore_refl|done]);
    try (destruct (kind i); cbn; [by apply bool_decide_eq_true|done]).
Qed.

(** ** Correctness *)

(** Learning mode is exact: building a draft never fails (no destination that
    parsed can fail to parse as a pattern); the draft matches the observed
    workload; it allows a request if and only if that request was observed, with
    an empty or [*] application standing for any and a missing transport for
    both; and exactly the observations whose destination does not parse are
    reported as skipped. *)
Theorem learned_policy_exact (name : str) (i : WorkloadIdentity) (obs : list Observation) :
  ∃ s, suggest_policy name i obs = Ok s ∧ matches (match_spec (policy s)) i = true ∧
    baseline (policy s) = false ∧ skipped s = omap unusable obs ∧
    ∀ ctx, is_allow (policy_evaluate (policy s) ctx) = true ↔ Exists (λ o, observed o ctx) obs.
Proof.
  unfold suggest_policy. destruct (fold_left observe obs ([], [])) as [sk m] eqn:Hf.
  apply observe_fold in Hf as [Hsk Hm].
  assert (∀ k d, recorded m k d ↔ Exists (λ o, records o k d) obs) as Hrec.
  { intros k d. rewrite Hm. pose proof (recorded_nil k d). tauto. }
  destruct (draft_rules m (records_texts_ok _ _ Hrec)) as (rs & Hrs & Hact & Happ).
  rewrite Hrs. bind_simpl. eexists. split; [done|]. cbn [policy skipped match_spec baseline].
  split_and!; [apply match_from_identity_matches|done|done|]. intros ctx.
  unfold policy_evaluate. cbn [rules]. rewrite (all_allow_evaluate _ _ _ _ Hact), Happ, !Exists_exists. split.
  - intros (Hok & k & (o & Ho & dest & Hp & -> & Hd)%Hrec%Exists_exists & Hc1 & Hc2). exists o. split; [done|].
    cbn [fst snd] in *. apply draft_app_matches in Hc1. apply pattern_from_matches in Hc2.
    assert (destination ctx = dest) as <-
      by (apply display_inj; [done|by eapply parse_destination_valid|done]). done.
  - intros (o & Ho & Hp & Ht & Ha). split; [by eapply parse_destination_valid|].
    exists (o_application o, pattern_from (o_transport o)). split.
    + apply Hrec, Exists_exists. exists o. split; [done|]. by exists (destination ctx).
    + split; cbn [fst snd]; [by apply draft_app_matches|by apply pattern_from_matches].
Qed.
