(* ===== verification/PolicyChecks.v ===== *)
(** * Policy tests, lints and the text of a decision

    Model of [crates/skimasque-policy/src/report.rs] and
    [crates/skimasque-policy/src/lint.rs]: the block a decision prints as, the
    tests a policy carries and the checks for matches that are too broad. *)

From S2P Require Import Prelude RustStr RustNet PolicyDest PolicyUnits PolicyModel PolicyEval.

(** ** The text of a decision *)

Definition nl : str := [10].

Definition humanize (d : Duration) : str :=
  let secs := as_secs d in
  if negb (secs =? 0) && (secs mod 3600 =? 0) then to_string (secs / 3600) ++ "h"
  else if negb (secs =? 0) && (secs mod 60 =? 0) then to_string (secs / 60) ++ "m"
  else to_string secs ++ "s".

Definition display_egress (e : EgressSpec) : str :=
  match region e with
  | Some region => nl ++ "Egress: " ++ region
  | None => match ip_pool e with Some pool => nl ++ "Egress: " ++ pool | None => [] end
  end.

Definition display_decision (d : Decision) : str :=
  match d with
  | Allows a =>
      "ALLOW" ++ nl ++ nl ++ "Policy: " ++ a_policy a ++ nl ++ "Rule: " ++ a_rule a ++
      match a_egress a with Some e => display_egress e | None => [] end ++
      match max_duration (a_session a) with
      | Some d => nl ++ "Max duration: " ++ humanize d
      | None => []
      end
  | Denies d =>
      "DENY" ++ nl ++ nl ++
      match d_policy d with Some p => "Policy: " ++ p ++ nl | None => [] end ++
      nl ++ "Reason:" ++ nl ++ summary (reason d) ++ nl ++
      (if bool_decide (closest d = []) then []
       else nl ++ "Closest rules:" ++ nl ++ flat_map (λ r, "  " ++ r ++ nl) (closest d)) ++
      nl ++ "Suggested rule:" ++ nl ++ nl ++ "  " ++ suggested d
  end.

(** ** The tests of a policy *)

(** The one-line explanation of a failure, before it is formatted. *)
Inductive TestDetail : Type :=
  | InvalidDestination (e : ParseDestinationError)
  | Unexpected (expected actual : Action).

Record TestOutcome : Type := mkOutcome {
  test : PolicyTest;
  actual : option Action;
  passed : bool;
  detail : option TestDetail;
}.

Definition representative_identity (p : Policy) : WorkloadIdentity :=
  let m := match_spec p in
  let r := match m_git_ref m with
           | Some r => Some r
           | None => (λ b, "refs/heads/" ++ b) <$> m_branch m
           end in
  mkIdentity (m_organization m) (m_repository m) (m_workflow m) r (m_environment m) (m_actor m)
    (m_kind m) None None None.

Definition run_one_test (p : Policy) (t : PolicyTest) (w : WorkloadIdentity) : TestOutcome :=
  match parse_destination (t_destination t) with
  | Err e => mkOutcome t None false (Some (InvalidDestination e))
  | Ok d =>
      let ctx := mkContext w (t_application t) (test_transport t) d None in
      let got := decision_action (policy_evaluate p ctx) in
      let ok := bool_decide (got = t_expect t) in
      mkOutcome t (Some got) ok (if ok then None else Some (Unexpected (t_expect t) got))
  end.

Definition run_tests (p : Policy) : list TestOutcome :=
  (λ t, run_one_test p t (representative_identity p)) <$> tests p.

(** ** Lints *)

Inductive LintCode : Type :=
  | MatchGovernsEveryWorkload
  | MatchLacksRepository
  | MatchLacksRef.
#[global] Instance LintCode_eq_dec : EqDecision LintCode.
Proof. solve_decision. Defined.

Definition lint_as_str (c : LintCode) : str :=
  match c with
  | MatchGovernsEveryWorkload => "match-governs-every-workload"
  | MatchLacksRepository => "match-lacks-repository"
  | MatchLacksRef => "match-lacks-ref"
  end.

Record Lint : Type := mkLint { l_policy : str; code : LintCode; message : str }.

(** [names.join(", ")]. *)
Fixpoint join_names (names : list str) : str :=
  match names with
  | [] => []
  | [n] => n
  | n :: names => n ++ ", " ++ join_names names
  end.

Definition constrained_field_names (p : Policy) : str :=
  let m := match_spec p in
  let named (present : bool) (name : str) : list str := if present then [name] else [] in
  join_names
    (named (is_some (m_organization m)) "organization" ++
     named (is_some (m_workflow m)) "workflow" ++
     named (is_some (m_git_ref m)) "git_ref" ++
     named (is_some (m_branch m)) "branch" ++
     named (is_some (m_environment m)) "environment" ++
     named (is_some (m_actor m)) "actor" ++
     named (is_some (m_kind m)) "kind").

Definition lints (p : Policy) : list Lint :=
  if negb (existsb (λ r, bool_decide (action r = Allow)) (rules p)) then []
  else
    let m := match_spec p in
    let make := mkLint (p_name p) in
    if (specificity m =? 0)%nat then
      [make MatchGovernsEveryWorkload
         ("the [match] block is empty, so every workload with a valid credential is " ++
          "granted this policy's allow rules; add repository (and a branch) unless this " ++
          "is a deliberate single-tenant catch-all")]
    else if negb (is_some (m_repository m)) then
      let named := constrained_field_names p in
      [make MatchLacksRepository
         ("[match] constrains " ++ named ++ " but not repository, so a workload from any " ++
          "repository that satisfies " ++ named ++ " is granted this policy's allow rules; " ++
          "pin repository as well")]
    else if negb (is_some (m_branch m)) && negb (is_some (m_git_ref m)) then
      [make MatchLacksRef
         ("[match] pins a repository but no branch or git_ref, so any ref matches -- " ++
          "including a pull-request branch from an outside contributor; add branch or " ++
          "git_ref to keep untrusted refs out")]
    else [].

Definition set_lints (ps : PolicySet) : list Lint := flat_map lints ps.

(** ** A policy judges the request, not who makes it *)

Lemma policy_evaluate_workload p w w' app t d pin pin' :
  policy_evaluate p (mkContext w app t d pin) = policy_evaluate p (mkContext w' app t d pin').
Proof.
  unfold policy_evaluate. generalize 0%nat, (rules p). intros index rs. revert index.
  induction rs as [|r rs IH]; intros index; [done|].
  rewrite !evaluate_rules_cons. unfold applies. cbn [c_application c_transport destination].
  by destruct (covers r app t && _); [|apply IH].
Qed.

(** ** The match of a policy *)

Lemma branch_Some i b : branch i = Some b ↔ git_ref i = Some ("refs/heads/" ++ b).
Proof.
  unfold branch. destruct (git_ref i) as [r|]; bind_simpl; [|done].
  rewrite strip_prefix_Some. split; [by intros ->|congruence].
Qed.

Lemma matches_spec m i :
  matches m i = true ↔
  (∀ x, m_organization m = Some x → ci_eq x (organization i) = true) ∧
  (∀ x, m_repository m = Some x → ci_eq x (repository i) = true ∨ ci_eq x (repository_name i) = true) ∧
  (∀ x, m_workflow m = Some x → workflow i = Some x) ∧
  (∀ x, m_git_ref m = Some x → git_ref i = Some x) ∧
  (∀ x, m_branch m = Some x → git_ref i = Some ("refs/heads/" ++ x)) ∧
  (∀ x, m_environment m = Some x → environment i = Some x) ∧
  (∀ x, m_actor m = Some x → actor i = Some x) ∧
  (∀ x, m_kind m = Some x → kind i = Some x).
Proof.
  assert (∀ A (o : option A) (f : A → bool) (P : A → Prop),
    (∀ x, f x = true ↔ P x) → constraint o f = true ↔ ∀ x, o = Some x → P x) as Hc.
  { intros A [x|] f P Hf; cbn; [rewrite Hf|]; split; [intros ? y [= <-]|..]; by auto. }
  assert (∀ w o, field_eq w o = true ↔ o = Some w) as Hf by (intros; apply bool_decide_eq_true).
  unfold matches. rewrite !andb_true_iff.
  rewrite (Hc _ _ _ _ (λ x, reflexivity (ci_eq x (organization i) = true))).
  rewrite (Hc _ _ _ _ (λ x, orb_true_iff (ci_eq x (repository i)) (ci_eq x (repository_name i)))).
  rewrite (Hc _ _ _ _ (λ x, Hf x (workflow i))), (Hc _ _ _ _ (λ x, Hf x (git_ref i))),
    (Hc _ _ _ _ (λ x, Hf x (environment i))), (Hc _ _ _ _ (λ x, Hf x (actor i))).
  rewrite (Hc _ _ _ (λ x, git_ref i = Some ("refs/heads/" ++ x)))
    by (intros x; rewrite Hf; apply branch_Some).
  rewrite (Hc _ _ _ (λ x, kind i = Some x)) by (intros x; apply bool_decide_eq_true).
  tauto.
Qed.

(** ** Correctness *)

(** The tests of a policy mean what they say: each produces one outcome, in
    order; it passes exactly when its destination parses and the rules give the
    expected verdict, whatever the workload and whatever policy it pinned; and a
    failure always comes with an explanation. *)
Theorem policy_tests_exact (p : Policy) (i : nat) (t : PolicyTest) :
  tests p !! i = Some t →
  ∃ o, run_tests p !! i = Some o ∧ test o = t ∧
    (passed o = true ↔ ∃ d, parse_destination (t_destination t) = Ok d ∧
       ∀ w pin, decision_action (policy_evaluate p
         (mkContext w (t_application t) (test_transport t) d pin)) = t_expect t) ∧
    (passed o = true ↔ detail o = None).
Proof.
  intros Ht. eexists. unfold run_tests. rewrite list_lookup_fmap, Ht. split; [done|].
  unfold run_one_test. destruct (parse_destination (t_destination t)) as [d|e]; cbn [test passed detail].
  - rewrite bool_decide_eq_true. split_and!; [done| |by case_bool_decide]. split.
    + intros He. exists d. split; [done|]. intros w pin. rewrite <- He. f_equal. apply policy_evaluate_workload.
    + intros (d' & [= <-] & Hall). apply Hall.
  - split_and!; [done| |done]. split; [done|]. by intros (d & ? & _).
Qed.

(** The identity a policy's tests run under is one its own match accepts,
    unless the match pins a ref and a branch that disagree. *)
Theorem representative_accepted_iff (p : Policy) :
  matches (match_spec p) (representative_identity p) = true ↔
  ∀ r b, m_git_ref (match_spec p) = Some r → m_branch (match_spec p) = Some b → r = "refs/heads/" ++ b.
Proof.
  rewrite matches_spec. unfold representative_identity.
  cbn [organization repository workflow git_ref environment actor kind].
  split.
  - intros (_ & _ & _ & _ & Hb & _) r b Hr Hbr. specialize (Hb b Hbr). rewrite Hr in Hb. congruence.
  - intros H. split_and!; try done.
    + intros x ->. apply eq_ignore_refl.
    + intros x ->. left. apply eq_ignore_refl.
    + intros x ->. done.
    + intros b Hb. destruct (m_git_ref (match_spec p)) as [r|]; [by rewrite (H r b)|by rewrite Hb].
Qed.

Definition sample_test_policy : Policy :=
  mkPolicy "ci" default_match default_session None default_limits
    [mkRule None (AppName "curl") AnyTransport Allow [spec_of "*.example.com:443"]]
    [mkTest "CURL" "api.example.com:443" None Allow None;
     mkTest "curl" "api.example.com" None Deny None] false.

Lemma policy_tests_exact_witness :
  ∃ t, tests sample_test_policy !! 0%nat = Some t ∧
    map passed (run_tests sample_test_policy) = [true; false] ∧
    ∃ o, run_tests sample_test_policy !! 0%nat = Some o ∧ test o = t ∧
    (passed o = true ↔ ∃ d, parse_destination (t_destination t) = Ok d ∧
       ∀ w pin, decision_action (policy_evaluate sample_test_policy
         (mkContext w (t_application t) (test_transport t) d pin)) = t_expect t) ∧
    (passed o = true ↔ detail o = None).
Proof.
  eexists. split; [reflexivity|]. split; [by vm_compute|]. by apply policy_tests_exact.
Defined.

Lemma lints_nil p :
  lints p = [] ↔
  (∀ r, r ∈ rules p → action r = Deny) ∨
  (is_Some (m_repository (match_spec p)) ∧
   (is_Some (m_branch (match_spec p)) ∨ is_Some (m_git_ref (match_spec p)))).
Proof.
  assert (∀ A (o : option A), is_some o = true ↔ is_Some o) as Hs
    by (intros A [x|]; cbn; split; [eauto|done|done|intros [? [=]]]).
  assert (existsb (λ r, bool_decide (action r = Allow)) (rules p) = false ↔
    ∀ r, r ∈ rules p → action r = Deny) as Hdeny.
  { rewrite <- not_true_iff_false, existsb_exists. split.
    - intros H r Hr. destruct (action r) eqn:Ha; [|done]. exfalso. apply H. exists r.
      split; [by apply list_elem_of_In|]. by apply bool_decide_eq_true.
    - intros H (r & Hr%list_elem_of_In & Ha%bool_decide_eq_true). by rewrite (H r Hr) in Ha. }
  unfold lints. rewrite <- Hdeny, <- !Hs.
  destruct (existsb _ (rules p)); cbn [negb]; [|tauto].
  destruct (Nat.eqb_spec (specificity (match_spec p)) 0) as [H0|H0].
  - assert (is_some (m_repository (match_spec p)) = false) as ->; [|intuition discriminate].
    revert H0. unfold specificity. by destruct (m_organization _), (m_repository _).
  - destruct (m_repository (match_spec p)), (m_branch (match_spec p)), (m_git_ref (match_spec p));
      cbn; intuition discriminate.
Qed.

(** A policy without lints that allows anything at all grants it to one ref
    of one repository: every identity its match accepts has the same ref, and
    its repository (or the name of it) is the one pinned, up to case. *)
Theorem lint_clean_pins (p : Policy) (rule : Rule) :
  lints p = [] → rule ∈ rules p → action rule = Allow →
  ∃ repo ref, ∀ i, matches (match_spec p) i = true →
    git_ref i = Some ref ∧ (ci_eq repo (repository i) = true ∨ ci_eq repo (repository_name i) = true).
Proof.
  intros [Hdeny|[[repo Hrepo] Href]]%lints_nil Hr Ha; [by rewrite (Hdeny _ Hr) in Ha|].
  setoid_rewrite matches_spec. destruct Href as [[b Hb]|[r Hb]].
  - exists repo, ("refs/heads/" ++ b). intros i (_ & H1 & _ & _ & H2 & _). auto.
  - exists repo, r. intros i (_ & H1 & _ & H2 & _). auto.
Qed.

Definition sample_pinned : Policy :=
  mkPolicy "deploy" sample_match default_session None default_limits (rules sample_test_policy) [] false.

Lemma lint_clean_pins_witness :
  lints sample_pinned = [] ∧ length (lints sample_test_policy) = 1%nat ∧
  ∃ repo ref, ∀ i, matches (match_spec sample_pinned) i = true →
    git_ref i = Some ref ∧ (ci_eq repo (repository i) = true ∨ ci_eq repo (repository_name i) = true).
Proof.
  split; [by vm_compute|]. split; [by vm_compute|].
  eapply lint_clean_pins; [by vm_compute|left|reflexivity].
Defined.
