(* ===== verification/Identity.v ===== *)
(** * Workload identity

    Model of [provider.rs], [verify.rs], [jwks.rs] and the OIDC verifier of
    [lib.rs] in [crates/skimasque-identity/src]: a signed token of a CI system,
    checked against the issuer's published keys, becomes the identity a policy
    is evaluated against.

    Signatures, the decoding of tokens and the key sets are third-party
    ([jsonwebtoken]): the class [Oidc].  The publication of keys is a function of
    the number of fetches made so far, so that a rotation is a change of its
    values.  Time stands still within one call. *)

From S2P Require Import Prelude RustStr PolicyDest PolicyUnits PolicyModel.

(** ** JSON *)

Inductive Number : Type := PosInt (n : Z) | NegInt (n : Z) | FloatNum.
Inductive Json : Type :=
  | JNull
  | JBool (b : bool)
  | JNumber (n : Number)
  | JString (s : str)
  | JArray (l : list Json)
  | JObject (l : list (str * Json)).

Abbreviation Claims := (gmap str Json).

Definition as_str (v : Json) : option str := match v with JString s => Some s | _ => None end.
Definition as_u64 (n : Number) : option Z := match n with PosInt n => Some n | _ => None end.

Definition claim (c : Claims) (key : str) : option str := v ← c !! key; as_str v.
Definition subject (c : Claims) : option str := claim c "sub".
Definition claims_issuer (c : Claims) : option str := claim c "iss".

Definition owner_id (c : Claims) : option Z :=
  v ← c !! of_string "repository_owner_id";
  match v with
  | JString s => parse_u64 s
  | JNumber n => as_u64 n
  | _ => None
  end.

(** ** Providers *)

Definition GITHUB_ACTIONS_ISSUER : str := "https://token.actions.githubusercontent.com".

Record ClaimNames : Type := mkClaimNames {
  cn_organization : option str;
  cn_repository : option str;
  cn_workflow : option str;
  cn_git_ref : option str;
  cn_environment : option str;
  cn_actor : option str;
}.

Inductive Provider : Type :=
  | GitHubActions
  | GitLab
  | Buildkite
  | Generic (names : ClaimNames).

Definition from_name (name : str) : option Provider :=
  let name := to_ascii_lowercase name in
  if str_eqb name "github" || str_eqb name "github-actions" then Some GitHubActions
  else if str_eqb name "gitlab" then Some GitLab
  else if str_eqb name "buildkite" then Some Buildkite
  else None.

Definition default_issuer (p : Provider) : option str :=
  match p with
  | GitHubActions => Some GITHUB_ACTIONS_ISSUER
  | GitLab => Some (of_string "https://gitlab.com")
  | Buildkite => Some (of_string "https://agent.buildkite.com")
  | Generic _ => None
  end.

(** [s.split(c).next()] and [s.rsplit(c).next()]: up to the first [c], and from
    the last one. *)
Definition first_piece (c : Z) (s : str) : str :=
  match split_once c s with Some (a, _) => a | None => s end.
Definition last_piece (c : Z) (s : str) : str :=
  match rsplit_once c s with Some (_, b) => b | None => s end.

Definition file_from_ref_uri (uri : option str) : option str :=
  uri ← uri;
  let path := first_piece 64 uri in
  match last_piece 47 path with
  | [] => None
  | file => Some file
  end.

(** A CI identity: the kind comes from the provider, never from a claim. *)
Definition ci_identity (organization repository workflow git_ref environment actor : option str)
    : WorkloadIdentity :=
  mkIdentity organization repository workflow git_ref environment actor (Some Ci) None None None.

Definition or_else {A} (a b : option A) : option A := match a with Some _ => a | None => b end.

Definition github (c : Claims) : WorkloadIdentity :=
  ci_identity (claim c "repository_owner") (claim c "repository")
    (or_else (file_from_ref_uri (claim c "workflow_ref")) (claim c "workflow"))
    (claim c "ref") (claim c "environment") (claim c "actor").

Definition gitlab_ref (c : Claims) : option str :=
  name ← claim c "ref";
  Some (match claim c "ref_type" with
        | Some t => if str_eqb t "tag" then "refs/tags/" ++ name else "refs/heads/" ++ name
        | None => "refs/heads/" ++ name
        end).

Definition gitlab (c : Claims) : WorkloadIdentity :=
  ci_identity (claim c "namespace_path") (claim c "project_path")
    (file_from_ref_uri (claim c "ci_config_ref_uri")) (gitlab_ref c)
    (claim c "environment") (claim c "user_login").

Definition buildkite (c : Claims) : WorkloadIdentity :=
  ci_identity (claim c "organization_slug") (claim c "pipeline_slug") None
    (or_else ((λ b, "refs/heads/" ++ b) <$> claim c "build_branch")
             ((λ t, "refs/tags/" ++ t) <$> claim c "build_tag"))
    None None.

Definition generic (names : ClaimNames) (c : Claims) : WorkloadIdentity :=
  let pick field := name ← field; claim c name in
  ci_identity (pick (cn_organization names)) (pick (cn_repository names)) (pick (cn_workflow names))
    (pick (cn_git_ref names)) (pick (cn_environment names)) (pick (cn_actor names)).

Definition identify (p : Provider) (c : Claims) : WorkloadIdentity :=
  match p with
  | GitHubActions => github c
  | GitLab => gitlab c
  | Buildkite => buildkite c
  | Generic names => generic names c
  end.

(** ** Verification *)

Inductive IdentityError : Type :=
  | Malformed (detail : str)
  | UnsupportedAlgorithm (alg : str)
  | UnknownKey
  | Verification (detail : str)
  | Discovery (detail : str)
  | JwksError (detail : str).

Inductive Algorithm : Type := HS256 | RS256 | EdDSA | OtherAlgorithm (name : str).
#[global] Instance Algorithm_eq_dec : EqDecision Algorithm.
Proof. solve_decision. Defined.
Definition debug_algorithm (a : Algorithm) : str :=
  match a with HS256 => "HS256" | RS256 => "RS256" | EdDSA => "EdDSA" | OtherAlgorithm n => n end.

(** [jsonwebtoken::Validation], the fields the code sets. *)
Record Validation : Type := mkValidation {
  v_algorithm : Algorithm;
  v_issuers : option (list str);
  v_leeway : Z;
  v_audiences : option (list str);
  validate_aud : bool;
  required_spec_claims : list str;
}.
Definition new_validation (a : Algorithm) : Validation :=
  mkValidation a None 60 None true [of_string "exp"].

Class Oidc : Type := {
  JwkSet : Type;
  Jwk : Type;
  DecodingKey : Type;
  decode_header : str → result str (Algorithm * option str);
  jwk_find : JwkSet → str → option Jwk;
  from_jwk : Jwk → result str DecodingKey;
  decode_raw : Validation → DecodingKey → Z → str → result str Claims;
}.

Record Verifier : Type := mkVerifier {
  issuer : str;
  audiences : list str;
  leeway_secs : Z;
}.
Definition new_verifier (issuer : str) (audiences : list str) : Verifier := mkVerifier issuer audiences 60.
Definition with_leeway_secs (v : Verifier) (secs : Z) : Verifier := mkVerifier (issuer v) (audiences v) secs.
Definition with_audience (v : Verifier) (audience : str) : Verifier :=
  mkVerifier (issuer v) [audience] (leeway_secs v).

Definition validation_of (v : Verifier) : Validation :=
  mkValidation RS256 (Some [issuer v]) (leeway_secs v)
    (match audiences v with [] => None | auds => Some auds end)
    (match audiences v with [] => false | _ => true end) [of_string "exp"].

Section verify.
Context `{Oidc}.

Definition verify (v : Verifier) (keys : JwkSet) (now : Z) (token : str) : result IdentityError Claims :=
  '(alg, kid) ← map_err Malformed (decode_header token);
  if negb (bool_decide (alg = RS256)) then Err (UnsupportedAlgorithm (debug_algorithm alg))
  else
    kid ← ok_or kid (Malformed "the token header carries no key id");
    jwk ← ok_or (jwk_find keys kid) UnknownKey;
    key ← map_err (λ e, Verification ("unusable signing key: " ++ e)) (from_jwk jwk);
    map_err Verification (decode_raw (validation_of v) key now token).

(** ** The key cache *)

(** [published n] is what the [n]th fetch answers. *)
Record Jwks : Type := mkJwks {
  cached : option (JwkSet * Z);
  fetches : nat;
}.

Variable published : nat → result IdentityError JwkSet.
Variable ttl : Z.

Definition refresh (now : Z) (c : Jwks) : result IdentityError JwkSet * Jwks :=
  match published (fetches c) with
  | Ok keys => (Ok keys, mkJwks (Some (keys, now)) (S (fetches c)))
  | Err e => (Err e, mkJwks (cached c) (S (fetches c)))
  end.

Definition current_keys (now : Z) (c : Jwks) : result IdentityError JwkSet * Jwks :=
  match cached c with
  | Some (keys, fetched) => if Z.max (now - fetched) 0 <? ttl then (Ok keys, c) else refresh now c
  | None => refresh now c
  end.

Definition verify_claims (v : Verifier) (now : Z) (token : str) (c : Jwks)
    : result IdentityError Claims * Jwks :=
  let '(keys, c) := current_keys now c in
  match keys with
  | Err e => (Err e, c)
  | Ok keys =>
      match verify v keys now token with
      | Err UnknownKey =>
          let '(keys, c) := refresh now c in
          (keys ← keys; verify v keys now token, c)
      | other => (other, c)
      end
  end.

Definition verify_claims_for_audience (v : Verifier) (audience : str) (now : Z) (token : str) (c : Jwks)
    : result IdentityError Claims * Jwks :=
  verify_claims (with_audience v audience) now token c.

Definition verify_identity (v : Verifier) (p : Provider) (now : Z) (token : str) (c : Jwks)
    : result IdentityError WorkloadIdentity * Jwks :=
  let '(r, c) := verify_claims v now token c in (identify p <$> r, c).
End verify.

(** ** What a token can and cannot say *)

(** A token cannot choose what it is: whatever its claims, and whichever
    provider maps them (a generic one included), the identity is of kind [ci] and
    carries no run, runtime or session; its organisation, repository, environment
    and actor are, where present, verbatim string claims of the token. *)
Theorem identity_from_claims (p : Provider) (c : Claims) :
  let i := identify p c in
  kind i = Some Ci ∧ run_id i = None ∧ runtime i = None ∧ sid i = None ∧
  ∀ x, Some x ∈ [organization i; repository i; environment i; actor i] → ∃ key, claim c key = Some x.
Proof.
  split; [by destruct p|]. split; [by destruct p|]. split; [by destruct p|]. split; [by destruct p|].
  intros x Hx.
  assert (∀ field : option str, Some x = (name ← field; claim c name) → ∃ key, claim c key = Some x) as Hpick
    by (intros [name|] Hf; [eauto|done]).
  destruct p; cbn [identify] in Hx; unfold github, gitlab, buildkite, generic, ci_identity in Hx;
    cbn [organization repository environment actor] in Hx;
    rewrite !elem_of_cons in Hx; destruct Hx as [Hx|[Hx|[Hx|[Hx|Hx]]]];
    first [by apply elem_of_nil in Hx | done | eexists; symmetry; exact Hx | by apply Hpick in Hx].
Qed.

(** The workflow of a GitHub or GitLab job is the file its reference names. *)
Lemma file_from_ref_uri_spec dir file ref :
  64 ∉ dir → 64 ∉ file → 47 ∉ file → file ≠ [] →
  file_from_ref_uri (Some (dir ++ "/" ++ file ++ "@" ++ ref)) = Some file.
Proof.
  intros Hd Hf Hs Hne. unfold file_from_ref_uri, first_piece, last_piece. bind_simpl.
  rewrite (proj2 (split_once_Some 64 _ (dir ++ "/" ++ file) ref)).
  - rewrite (proj2 (rsplit_once_Some 47 _ dir file)) by done. by destruct file.
  - split; [by rewrite <- !app_assoc|]. rewrite !not_elem_of_app. split_and!; [done|by_decide|done].
Qed.

(** A GitLab branch is the branch a policy matches, and a tag is none. *)
Lemma gitlab_branch c name :
  claim c "ref" = Some name →
  branch (identify GitLab c) = (if decide (claim c "ref_type" = Some (of_string "tag")) then None else Some name).
Proof.
  intros Hr. unfold branch. cbn [identify gitlab ci_identity git_ref]. unfold gitlab_ref. rewrite Hr. bind_simpl.
  destruct (claim c "ref_type") as [t|].
  - destruct (str_eqb t "tag") eqn:Ht.
    + apply bool_decide_eq_true in Ht. subst. rewrite decide_True by done. apply strip_prefix_None.
      intros r. by intros [=].
    + apply bool_decide_eq_false in Ht. rewrite decide_False by congruence. apply strip_prefix_app.
  - rewrite decide_False by done. apply strip_prefix_app.
Qed.

(** ** The verifier *)

Section correctness.
Context `{Oidc}.
Variable published : nat → result IdentityError JwkSet.
Variable ttl : Z.

(** The keys of a set check a token: its header names one of them, by key id and
    RS256, and that key decodes it under the verifier's own requirements. *)
Definition checks (v : Verifier) (keys : JwkSet) (now : Z) (token : str) (c : Claims) : Prop :=
  ∃ kid jwk key, decode_header token = Ok (RS256, Some kid) ∧ jwk_find keys kid = Some jwk ∧
    from_jwk jwk = Ok key ∧ decode_raw (validation_of v) key now token = Ok c.

Lemma verify_Ok v keys now token c : verify v keys now token = Ok c ↔ checks v keys now token c.
Proof.
  unfold verify, checks. split.
  - intros H'. apply bind_Ok in H' as ([alg kid] & Hh & H'). apply map_err_Ok in Hh.
    case_bool_decide as Ha; [subst; cbn [negb] in H'|done].
    apply bind_Ok in H' as (k & Hk & H'). apply ok_or_Ok in Hk as ->.
    apply bind_Ok in H' as (jwk & Hj & H'). apply ok_or_Ok in Hj.
    apply bind_Ok in H' as (key & Hf & H'). apply map_err_Ok in Hf, H'. eauto 10.
  - intros (kid & jwk & key & -> & Hj & Hk & Hd). bind_simpl. rewrite bool_decide_eq_true_2 by done. cbn [negb].
    bind_simpl. rewrite Hj. bind_simpl. rewrite Hk. bind_simpl. by rewrite Hd.
Qed.

(** The token names a key the set does not have. *)
Lemma verify_UnknownKey v keys now token :
  verify v keys now token = Err UnknownKey ↔
  ∃ kid, decode_header token = Ok (RS256, Some kid) ∧ jwk_find keys kid = None.
Proof.
  unfold verify. split.
  - destruct (decode_header token) as [[alg kid]|]; bind_simpl; [|done].
    case_bool_decide; cbn [negb]; [subst|done]. destruct kid as [kid|]; bind_simpl; [|done].
    destruct (jwk_find keys kid) as [jwk|] eqn:Hj; bind_simpl; [|eauto].
    destruct (from_jwk jwk) as [key|]; bind_simpl; [|done]. by destruct (decode_raw _ key now token).
  - intros (kid & -> & Hj). bind_simpl. rewrite bool_decide_eq_true_2 by done. cbn [negb]. bind_simpl. by rewrite Hj.
Qed.

(** Where the keys used by a call came from. *)
Definition trusted (now : Z) (c c' : Jwks) (keys : JwkSet) : Prop :=
  (∃ fetched, cached c = Some (keys, fetched) ∧ Z.max (now - fetched) 0 < ttl) ∨
  (∃ n, (fetches c ≤ n < fetches c')%nat ∧ published n = Ok keys).

Lemma refresh_spec now c r c' :
  refresh published now c = (r, c') → fetches c' = S (fetches c) ∧ r = published (fetches c).
Proof. unfold refresh. destruct (published (fetches c)) eqn:Hp; by intros [= <- <-]. Qed.

Lemma current_keys_spec now c r c' :
  current_keys published ttl now c = (r, c') →
  (fetches c ≤ fetches c' ≤ S (fetches c))%nat ∧ ∀ keys, r = Ok keys → trusted now c c' keys.
Proof.
  unfold current_keys, trusted.
  assert (refresh published now c = (r, c') →
    (fetches c ≤ fetches c' ≤ S (fetches c))%nat ∧ ∀ keys, r = Ok keys →
    (∃ fetched, cached c = Some (keys, fetched) ∧ Z.max (now - fetched) 0 < ttl) ∨
    (∃ n, (fetches c ≤ n < fetches c')%nat ∧ published n = Ok keys)) as Hr.
  { intros [Hf ->]%refresh_spec. split; [lia|]. intros keys Hk. right. exists (fetches c). split; [lia|done]. }
  destruct (cached c) as [[keys fetched]|]; [|done].
  destruct (Z.ltb_spec (Z.max (now - fetched) 0) ttl); [|done]. intros [= <- <-]. split; [lia|].
  intros ? [= <-]. eauto.
Qed.

Lemma verify_claims_Ok (v : Verifier) (now : Z) (token : str) (c c' : Jwks) (claims : Claims) :
  verify_claims published ttl v now token c = (Ok claims, c') →
  (∃ keys, trusted now c c' keys ∧ checks v keys now token claims) ∧
  (fetches c' ≤ fetches c + 2)%nat.
Proof.
  unfold verify_claims. destruct (current_keys published ttl now c) as [keys c1] eqn:Hc.
  apply current_keys_spec in Hc as [Hf Hk]. destruct keys as [keys|]; [|done].
  destruct (verify v keys now token) as [claims0|e] eqn:Hv.
  - intros [= <- <-]. split; [|lia]. exists keys. split; [by apply Hk|by apply verify_Ok].
  - destruct e; try done. destruct (refresh published now c1) as [keys2 c2] eqn:Hr.
    apply refresh_spec in Hr as [Hf2 ->]. intros [= Hb <-]. apply bind_Ok in Hb as (keys2 & Hp & Hv2).
    split; [|lia]. exists keys2. split; [|by apply verify_Ok]. right. exists (fetches c1). split; [lia|done].
Qed.


(** A key rotation costs at most one refetch: if the issuer now publishes a
    set under which a token checks, the token is accepted, whether the cache is
    empty, stale, or still holds an older set that lacks the token's key. *)
Theorem oidc_rotation (v : Verifier) (now : Z) (token : str) (c : Jwks) (keys : JwkSet) (claims : Claims) :
  (∀ n, (fetches c ≤ n)%nat → published n = Ok keys) →
  checks v keys now token claims →
  (∀ old fetched kid, cached c = Some (old, fetched) → Z.max (now - fetched) 0 < ttl →
     decode_header token = Ok (RS256, Some kid) → jwk_find old kid = None) →
  (verify_claims published ttl v now token c).1 = Ok claims.
Proof.
  intros Hp Hck Hold. pose proof (proj2 (verify_Ok _ _ _ _ _) Hck) as Hv.
  destruct Hck as (kid & jwk & key & Hh & _).
  assert (refresh published now c = (Ok keys, mkJwks (Some (keys, now)) (S (fetches c)))) as Hr
    by (unfold refresh; by rewrite Hp by lia).
  unfold verify_claims, current_keys. destruct (cached c) as [[old fetched]|] eqn:Hc.
  - destruct (Z.ltb_spec (Z.max (now - fetched) 0) ttl) as [Hfresh|].
    + rewrite (proj2 (verify_UnknownKey v old now token)) by eauto. rewrite Hr. cbn. by rewrite Hv.
    + rewrite Hr. by rewrite Hv.
  - rewrite Hr. by rewrite Hv.
Qed.
End correctness.

(** ** An issuer that rotates its key *)

Definition sample_claims : Claims := {[ of_string "repository_owner" := JString "Acme" ]}.

(** Tokens and keys are names; key [k] decodes a token that names it. *)
#[local] Instance sample_oidc : Oidc := {|
  JwkSet := list str;
  Jwk := str;
  DecodingKey := str;
  decode_header := λ token, Ok (RS256, Some token);
  jwk_find := λ keys kid, if bool_decide (kid ∈ keys) then Some kid else None;
  from_jwk := λ k, Ok k;
  decode_raw := λ v key now token,
    if str_eqb key token then Ok sample_claims
    else Err (of_string "InvalidSignature");
|}.
Definition sample_verifier : Verifier := new_verifier GITHUB_ACTIONS_ISSUER [of_string "https://masque.example"].
Definition old_keys : @JwkSet sample_oidc := [of_string "old"].
Definition new_keys : @JwkSet sample_oidc := [of_string "new"].
Definition sample_published (n : nat) : result IdentityError (@JwkSet sample_oidc) := Ok new_keys.
Definition sample_cache : Jwks := mkJwks (Some (old_keys, 0)) 0.


Lemma oidc_rotation_witness :
  (verify_claims sample_published 3600 sample_verifier 10 "old" (mkJwks None 0)).1 = Err UnknownKey ∧
  (verify_claims sample_published 3600 sample_verifier 10 "new" sample_cache).1 = Ok sample_claims.
Proof.
  split; [reflexivity|]. apply (oidc_rotation sample_published 3600 _ _ _ _ new_keys).
  - done.
  - exists (of_string "new"), (of_string "new"), (of_string "new"). split_and!; reflexivity.
  - intros old fetched kid [= <- <-] _ [= <-]. reflexivity.
Defined.
