(* ===== verification/Credential.v ===== *)
(** * Platform credentials

    Model of [crates/skimasque-identity/src/credential.rs]: the short-lived
    tokens a gateway or a control plane issues for a verified identity, and their
    verification, with an organisation's own keys in the multi-tenant case.

    The token library is third-party ([jsonwebtoken], base64 and JSON): the class
    [Jwt], with what the code relies on as the laws [JwtLaws].  A token has three
    parts separated by dots; the claims are the second. *)

From S2P Require Import Prelude RustStr PolicyDest PolicyUnits PolicyModel Identity.

(** ** Claims and keys *)

Definition CREDENTIAL_ISSUER : str := "urn:skimasque:gateway".

Record CredentialClaims : Type := mkCredentialClaims {
  iss : str;
  iat : Z;
  exp : Z;
  sub : option str;
  org_id : option str;
  cred_identity : WorkloadIdentity;
}.

Class Jwt : Type := {
  EncodingKey : Type;
  VerifyKey : Type;
  jwt_encode : Algorithm → EncodingKey → CredentialClaims → result str str;
  jwt_decode : Validation → VerifyKey → Z → str → result str CredentialClaims;
  ed_public : list Z → VerifyKey;
  base64_url : str → option (list Z);
  json_claims : list Z → option CredentialClaims;
  json_org : list Z → option (option str);
}.

(** [secs as i64] and 64-bit addition. *)
Definition to_i64 (n : Z) : Z := (n + 2 ^ 63) mod 2 ^ 64 - 2 ^ 63.

Record Issued : Type := mkIssued { token : str; expires_in : Z }.

Section credentials.
Context `{Jwt}.
(** [{:?}] of a string. *)
Variable debug_str : str → str.

Definition encode (a : Algorithm) (key : EncodingKey) (ttl : Z) (i : WorkloadIdentity)
    (subject org : option str) (now : Z) : result IdentityError Issued :=
  let claims := mkCredentialClaims CREDENTIAL_ISSUER now (to_i64 (now + to_i64 ttl)) subject org i in
  t ← map_err (λ e, Verification ("issuing a credential: " ++ e)) (jwt_encode a key claims);
  Ok (mkIssued t ttl).

Definition credential_validation (a : Algorithm) : Validation :=
  mkValidation a (Some [CREDENTIAL_ISSUER]) 30 None true [of_string "exp"; of_string "iss"].

Definition decode_claims (a : Algorithm) (key : VerifyKey) (now : Z) (t : str)
    : result IdentityError CredentialClaims :=
  map_err Verification (jwt_decode (credential_validation a) key now t).

Definition decode (a : Algorithm) (key : VerifyKey) (now : Z) (t : str)
    : result IdentityError WorkloadIdentity :=
  cred_identity <$> decode_claims a key now t.

(** ** Symmetric issuance *)

Record CredentialIssuer : Type := mkIssuer {
  ci_encoding : EncodingKey;
  ci_decoding : VerifyKey;
  ci_ttl : Z;
}.

Definition issue_for (s : CredentialIssuer) (i : WorkloadIdentity) (subject : option str) (ttl now : Z)
    : result IdentityError Issued :=
  encode HS256 (ci_encoding s) ttl i subject None now.
Definition issue (s : CredentialIssuer) (i : WorkloadIdentity) (subject : option str) (now : Z)
    : result IdentityError Issued :=
  issue_for s i subject (ci_ttl s) now.
Definition issuer_verify (s : CredentialIssuer) (now : Z) (t : str) : result IdentityError WorkloadIdentity :=
  decode HS256 (ci_decoding s) now t.

(** ** Asymmetric issuance *)

Record CredentialSigner : Type := mkSigner { cs_encoding : EncodingKey; cs_ttl : Z }.

Definition signer_issue (s : CredentialSigner) (i : WorkloadIdentity) (subject : option str) (now : Z)
    : result IdentityError Issued :=
  encode EdDSA (cs_encoding s) (cs_ttl s) i subject None now.

Definition issue_for_org (s : CredentialSigner) (i : WorkloadIdentity) (subject : option str) (org : str)
    (now : Z) : result IdentityError Issued :=
  match trim org with
  | [] => Err (Verification "issuing an org-scoped credential needs an org id")
  | org => encode EdDSA (cs_encoding s) (cs_ttl s) i subject (Some org) now
  end.

(** ** Verification *)

Record CredentialVerifier : Type := mkCredentialVerifier { cv_decoding : list VerifyKey }.
Definition from_ed_public_keys (keys : list (list Z)) : CredentialVerifier :=
  mkCredentialVerifier (map ed_public keys).

Record VerifiedCredential : Type := mkVerified {
  vc_identity : WorkloadIdentity;
  vc_org_id : option str;
}.

(** The loop over the keys: the first that decodes wins, else the last error. *)
Fixpoint try_keys {A} (try : VerifyKey → result IdentityError A) (last : IdentityError)
    (keys : list VerifyKey) : result IdentityError A :=
  match keys with
  | [] => Err last
  | k :: keys =>
      match try k with
      | Ok a => Ok a
      | Err e => try_keys try e keys
      end
  end.
Definition no_key : IdentityError := Verification "no signing key configured".

Definition credential_verify (v : CredentialVerifier) (now : Z) (t : str)
    : result IdentityError WorkloadIdentity :=
  try_keys (λ k, decode EdDSA k now t) no_key (cv_decoding v).

Definition credential_claims (v : CredentialVerifier) (now : Z) (t : str)
    : result IdentityError VerifiedCredential :=
  try_keys (λ k, (λ c, mkVerified (cred_identity c) (org_id c)) <$> decode_claims EdDSA k now t)
    no_key (cv_decoding v).

Definition verify_for_org (v : CredentialVerifier) (now : Z) (t expected_org : str)
    : result IdentityError WorkloadIdentity :=
  verified ← credential_claims v now t;
  match vc_org_id verified with
  | Some org =>
      if str_eqb org expected_org then Ok (vc_identity verified)
      else Err (Verification ("credential is scoped to " ++ debug_str org ++ ", not " ++ debug_str expected_org))
  | None => Err (Verification "credential is not scoped to an organisation")
  end.

(** ** Reading without verifying *)

Definition payload_bytes (t : str) : option (list Z) := part ← split 46 t !! 1%nat; base64_url part.

Definition peek_org_id (t : str) : option str :=
  bytes ← payload_bytes t; org ← json_org bytes; org.

Definition peek_identity (t : str) : option WorkloadIdentity :=
  bytes ← payload_bytes t; cred_identity <$> json_claims bytes.
End credentials.

(** ** What the code relies on *)

(** [validates v now c]: the registered claims pass a validation (they are all
    present in [c]).  [signed a k t]: the signature of [t] checks under [k]. *)
Definition validates (v : Validation) (now : Z) (c : CredentialClaims) : Prop :=
  match v_issuers v with Some issuers => iss c ∈ issuers | None => True end ∧ now - v_leeway v ≤ exp c.

#[global] Instance validates_dec v now c : Decision (validates v now c).
Proof. unfold validates. destruct (v_issuers v); apply _. Defined.

Class JwtLaws `{Jwt} : Type := {
  paired : Algorithm → EncodingKey → VerifyKey → Prop;
  signed : Algorithm → VerifyKey → str → Prop;
  decode_law v k now t c :
    jwt_decode v k now t = Ok c ↔
    signed (v_algorithm v) k t ∧ payload_bytes t ≫= json_claims = Some c ∧ validates v now c;
  encode_signs a ek k c t : jwt_encode a ek c = Ok t → signed a k t ↔ paired a ek k;
  encode_payload a ek c t : jwt_encode a ek c = Ok t → payload_bytes t ≫= json_claims = Some c;
  json_org_law bytes c : json_claims bytes = Some c → json_org bytes = Some (org_id c);
}.

(** ** Correctness *)

Section correctness.
Context `{HJ : Jwt} {HL : JwtLaws}.
Variable debug_str : str → str.

(** The claims of a token, as anyone can read them. *)
Definition claims_of (t : str) : option CredentialClaims := payload_bytes t ≫= json_claims.

(** A credential of the gateway's own issuer, not past its expiry. *)
Definition valid_at (now : Z) (c : CredentialClaims) : Prop := iss c = CREDENTIAL_ISSUER ∧ now - 30 ≤ exp c.

Lemma decode_claims_Ok a k now t c :
  decode_claims a k now t = Ok c ↔ signed a k t ∧ claims_of t = Some c ∧ valid_at now c.
Proof.
  unfold decode_claims. rewrite map_err_Ok, decode_law. unfold validates, valid_at. cbn.
  rewrite list_elem_of_singleton. done.
Qed.

Lemma try_keys_Ok {A} (try : VerifyKey → result IdentityError A) last keys a :
  (∀ k k' a a', try k = Ok a → try k' = Ok a' → a = a') →
  try_keys try last keys = Ok a ↔ ∃ k, k ∈ keys ∧ try k = Ok a.
Proof.
  intros Hdet. revert last. induction keys as [|k keys IH]; intros last; cbn [try_keys].
  - split; [done|]. by intros (? & ?%elem_of_nil & _).
  - destruct (try k) as [a'|e] eqn:Hk.
    + split; [intros [= <-]; exists k; split; [left|done]|]. intros (k' & _ & Hk'). f_equal. by eapply Hdet.
    + rewrite IH. split.
      * intros (k' & Hin & Hk'). exists k'. split; [by right|done].
      * intros (k' & [->|Hin]%elem_of_cons & Hk'); [congruence|eauto].
Qed.

Lemma credential_claims_Ok v now t vc :
  credential_claims v now t = Ok vc ↔
  ∃ k c, k ∈ cv_decoding v ∧ signed EdDSA k t ∧ claims_of t = Some c ∧ valid_at now c ∧
    vc = mkVerified (cred_identity c) (org_id c).
Proof.
  unfold credential_claims. rewrite try_keys_Ok.
  - setoid_rewrite fmap_Ok. setoid_rewrite decode_claims_Ok. split.
    + intros (k & Hin & c & -> & Hs & Hc & Hv). eauto 10.
    + intros (k & c & Hin & Hs & Hc & Hv & ->). eauto 10.
  - intros k k' a a' (c & -> & Hc)%fmap_Ok (c' & -> & Hc')%fmap_Ok.
    apply decode_claims_Ok in Hc as (_ & Hc & _), Hc' as (_ & Hc' & _). congruence.
Qed.

Lemma verify_for_org_Ok v now t org i :
  verify_for_org debug_str v now t org = Ok i ↔
  ∃ k c, k ∈ cv_decoding v ∧ signed EdDSA k t ∧ claims_of t = Some c ∧
    org_id c = Some org ∧ iss c = CREDENTIAL_ISSUER ∧ now - 30 ≤ exp c ∧ cred_identity c = i.
Proof.
  unfold verify_for_org. rewrite bind_Ok. setoid_rewrite credential_claims_Ok. split.
  - intros (vc & (k & c & Hin & Hs & Hc & [Hi He] & ->) & Hv). cbn in Hv.
    destruct (org_id c) as [o|] eqn:Ho; [|done]. destruct (str_eqb o org) eqn:Hoo; [|done].
    apply bool_decide_eq_true in Hoo. subst. injection Hv as <-. eauto 15.
  - intros (k & c & Hin & Hs & Hc & Ho & Hi & He & <-). exists (mkVerified (cred_identity c) (org_id c)).
    split; [exists k, c; split_and!; done|]. cbn. rewrite Ho. unfold str_eqb. by rewrite bool_decide_eq_true_2.
Qed.
(** A credential opens one organisation only: it verifies for an organisation
    exactly when one of the verifier's own keys signed it, its claims name that
    organisation, the platform issued it, and it is within half a minute of its
    lifetime; the identity is the one it carries. *)
Theorem verify_for_org_iff (v : CredentialVerifier) (now : Z) (t org : str) (i : WorkloadIdentity) :
  verify_for_org debug_str v now t org = Ok i ↔
  ∃ k c, k ∈ cv_decoding v ∧ signed EdDSA k t ∧ claims_of t = Some c ∧
    org_id c = Some org ∧ iss c = CREDENTIAL_ISSUER ∧ now - 30 ≤ exp c ∧ cred_identity c = i.
Proof. apply verify_for_org_Ok. Qed.
End correctness.

Section roundtrip.
Context `{HJ : Jwt} {HL : JwtLaws}.
Variable debug_str : str → str.

Lemma to_i64_small n : - 2 ^ 63 ≤ n < 2 ^ 63 → to_i64 n = n.
Proof. intros Hn. unfold to_i64. rewrite Z.mod_small; lia. Qed.

(** What the credential of an organisation says. *)
Lemma issue_for_org_Ok s i subject org now r :
  issue_for_org s i subject org now = Ok r ↔
  trim org ≠ [] ∧ expires_in r = cs_ttl s ∧
  jwt_encode EdDSA (cs_encoding s) (mkCredentialClaims CREDENTIAL_ISSUER now
    (to_i64 (now + to_i64 (cs_ttl s))) subject (Some (trim org)) i) = Ok (token r).
Proof.
  unfold issue_for_org, encode. destruct (trim org) as [|x l]; [by split; [|intros (? & _)]|].
  rewrite bind_Ok. setoid_rewrite map_err_Ok. split.
  - intros (t & Ht & [= <-]). done.
  - intros (_ & He & Ht). exists (token r). split; [done|]. destruct r. cbn in *. by subst.
Qed.

(** C14.  Issue, then verify: a credential issued for an organisation is accepted
    for that organisation, with the identity it was issued for, by every verifier
    that holds the signer's key, until half a minute after its lifetime and not
    later; never for another organisation, and never by a verifier that holds only
    other keys.  Reading its organisation without verifying gives the same one. *)
Theorem credential_roundtrip (s : CredentialSigner) (i : WorkloadIdentity) (subject : option str) (org : str)
    (issued_at : Z) (r : Issued) :
  issue_for_org s i subject org issued_at = Ok r →
  0 ≤ issued_at → 0 ≤ cs_ttl s → issued_at + cs_ttl s < 2 ^ 63 →
  peek_org_id (token r) = Some (trim org) ∧
  ∀ v now org' i',
    verify_for_org debug_str v now (token r) org' = Ok i' ↔
    org' = trim org ∧ i' = i ∧ now ≤ issued_at + cs_ttl s + 30 ∧
    ∃ k, k ∈ cv_decoding v ∧ paired EdDSA (cs_encoding s) k.
Proof.
  intros (Hne & _ & He)%issue_for_org_Ok Hi Ht Hsum.
  rewrite !to_i64_small in He by (rewrite ?to_i64_small by lia; lia).
  pose proof (encode_payload _ _ _ _ He) as Hp. split.
  - unfold peek_org_id. destruct (payload_bytes (token r)) as [bytes|]; [|done]. cbn in Hp |- *.
    by rewrite (json_org_law _ _ Hp).
  - intros v now org' i'. rewrite verify_for_org_Ok. unfold claims_of. rewrite Hp. split.
    + intros (k & c & Hin & Hs & [= <-] & Ho & _ & Hexp & <-). cbn in *. injection Ho as <-.
      split_and!; [done..|lia|]. exists k. split; [done|]. by apply (encode_signs _ _ _ _ _ He).
    + intros (-> & -> & Hnow & k & Hin & Hpair). eexists k, _. split_and!; [done| |done..|cbn; lia|done].
      by apply (encode_signs _ _ _ _ _ He).
Qed.
End roundtrip.

(** ** A signer *)

#[local] Instance kind_countable : Countable WorkloadKind.
Proof.
  refine (inj_countable' (λ k, match k with Developer => 0 | Ci => 1 | Agent => 2 end)
            (λ n, if n =? 0 then Developer else if n =? 1 then Ci else Agent) _). by intros [].
Defined.
#[local] Instance identity_eq_dec : EqDecision WorkloadIdentity.
Proof. solve_decision. Defined.
#[local] Instance identity_countable : Countable WorkloadIdentity.
Proof.
  refine (inj_countable'
    (λ i, (organization i, repository i, workflow i, git_ref i, environment i, actor i, kind i, run_id i, runtime i, sid i))
    (λ '(o, r, w, g, e, a, k, ri, ru, s), mkIdentity o r w g e a k ri ru s) _). by intros [].
Defined.
#[local] Instance claims_eq_dec : EqDecision CredentialClaims.
Proof. solve_decision. Defined.
#[local] Instance claims_countable : Countable CredentialClaims.
Proof.
  refine (inj_countable' (λ c, (iss c, iat c, exp c, sub c, org_id c, cred_identity c))
    (λ '(i, a, e, s, o, d), mkCredentialClaims i a e s o d) _). by intros [].
Defined.

(** Tokens whose payload is one character, the number of the claims, and whose
    signature is one character, the number of the key. *)
Definition sample_token (key : nat) (c : CredentialClaims) : str :=
  "h" ++ 46 :: [1000 + Z.pos (countable.encode c)] ++ 46 :: [1000 + Z.of_nat key].
Definition sample_json (bytes : list Z) : option CredentialClaims :=
  match bytes with [x] => countable.decode (Z.to_pos (x - 1000)) | _ => None end.
Definition sample_signed (key : nat) (t : str) : bool :=
  bool_decide (split 46 t !! 2%nat = Some [1000 + Z.of_nat key]).

#[local] Instance sample_jwt : Jwt := {|
  EncodingKey := nat;
  VerifyKey := nat;
  jwt_encode := λ _ key c, Ok (sample_token key c);
  jwt_decode := λ v key now t,
    match (part ← split 46 t !! 1%nat; sample_json part) with
    | Some c =>
        if sample_signed key t && bool_decide (validates v now c) then Ok c else Err (of_string "InvalidToken")
    | None => Err (of_string "InvalidToken")
    end;
  ed_public := length;
  base64_url := λ part, Some part;
  json_claims := sample_json;
  json_org := λ bytes, org_id <$> sample_json bytes;
|}.

Lemma sample_token_split key c :
  split 46 (sample_token key c) =
    [of_string "h"; [1000 + Z.pos (countable.encode c)]; [1000 + Z.of_nat key]].
Proof.
  unfold sample_token. rewrite split_app by by_decide. f_equal.
  rewrite split_app by (rewrite list_elem_of_singleton; lia). f_equal. apply split_none.
  rewrite list_elem_of_singleton. lia.
Qed.

#[local] Instance sample_laws : @JwtLaws sample_jwt.
Proof.
  refine (@Build_JwtLaws sample_jwt (λ _ (ek k : nat), ek = k) (λ _ (k : nat) t, sample_signed k t = true) _ _ _ _).
  - intros v k now t c. unfold payload_bytes. cbn.
    destruct (split 46 t !! 1%nat) as [part|]; cbn; [|by split; [|intros (_ & ? & _)]].
    destruct (sample_json part) as [c'|]; [|by split; [|intros (_ & ? & _)]].
    destruct (sample_signed k t); cbn [andb].
    + case_bool_decide as Hv; split.
      * by intros [= <-].
      * by intros (_ & [= <-] & _).
      * done.
      * by intros (_ & [= <-] & ?).
    + split; [done|]. by intros (? & _).
  - intros a ek k c t [= <-]. unfold sample_signed. rewrite bool_decide_eq_true, sample_token_split. cbn.
    split; [intros [= ?]; lia|]. by intros ->.
  - intros a ek c t [= <-]. unfold payload_bytes. rewrite sample_token_split. cbn.
    replace (1000 + Z.pos (countable.encode c) - 1000) with (Z.pos (countable.encode c)) by lia.
    apply decode_encode.
  - intros bytes c Hc. cbn in Hc |- *. by rewrite Hc.
Defined.

Definition sample_signer : CredentialSigner := @mkSigner sample_jwt 7%nat 600.
Definition sample_keys : @CredentialVerifier sample_jwt := @mkCredentialVerifier sample_jwt [3%nat; 7%nat].
Definition sample_identity : WorkloadIdentity :=
  mkIdentity (Some (of_string "acme")) None None None None None (Some Ci) None None None.

Lemma credential_roundtrip_witness :
  let r := mkIssued (sample_token 7 (mkCredentialClaims CREDENTIAL_ISSUER 1000 1600 None
             (Some (of_string "org_a")) sample_identity)) 600 in
  verify_for_org id sample_keys 1630 (token r) "org_a" = Ok sample_identity ∧
  verify_for_org id sample_keys 1630 (token r) "org_b" ≠ Ok sample_identity.
Proof.
  intros r.
  destruct (credential_roundtrip id sample_signer sample_identity None "org_a" 1000 r eq_refl) as [_ Hv];
    [lia|cbn; lia|cbn; lia|].
  split.
  - apply Hv. split; [reflexivity|]. split; [reflexivity|]. split; [cbn; lia|].
    exists 7%nat. split; [right; left|reflexivity].
  - intros Hb. apply Hv in Hb as (Hb & _). discriminate Hb.
Defined.
