(* ===== verification/Tenant.v ===== *)
(** * Tenants

    Model of [crates/skimasque/src/tenant.rs]: the table of organisations a
    multi-tenant gateway serves, who owns what, and the per-organisation usage
    meters (with the counters of [TunnelMeter] in
    [crates/skimasque/src/service.rs]).

    [str::to_lowercase] is the full Unicode mapping; it is a parameter here and
    nothing is assumed of it. *)

From S2P Require Import Prelude RustStr PolicyModel.

(** ** Tenants and snapshots *)

Abbreviation TenantId := str (only parsing).

(** [owner_ids] is a [BTreeMap]: its entries in key order. *)
Record TenantSpec : Type := mkTenantSpec {
  s_org_id : str;
  s_slug : str;
  s_owners : list str;
  s_owner_ids : list (str * Z);
  s_policy : PolicySet;
}.

Record Tenant : Type := mkTenant {
  tenant_id : TenantId;
  slug : str;
  owners : list str;
  owner_ids : gmap str Z;
  tenant_policy : PolicySet;
}.

Record TenantSnapshot : Type := mkSnapshot {
  snapshot_version : Z;
  by_org : gmap str Tenant;
  by_slug : gmap str Tenant;
}.

Section tenants.
Context (to_lowercase : str → str).

(** Collecting into a map: a later entry replaces an earlier one. *)
Definition collect_ids (ids : list (str * Z)) : gmap str Z :=
  fold_left (λ m '(login, id), <[to_lowercase login := id]> m) ids ∅.

Definition new_tenant (spec : TenantSpec) : Tenant :=
  mkTenant (s_org_id spec) (s_slug spec) (map to_lowercase (s_owners spec))
    (collect_ids (s_owner_ids spec)) (s_policy spec).

Definition owns (t : Tenant) (owner : str) (owner_id : option Z) : bool :=
  let login := to_lowercase owner in
  if negb (existsb (str_eqb login) (owners t)) then false
  else
    match owner_ids t !! login with
    | Some recorded => bool_decide (owner_id = Some recorded)
    | None => true
    end.

(** ** The table *)

Definition default_snapshot : TenantSnapshot := mkSnapshot 0 ∅ ∅.

Definition store_one (acc : gmap str Tenant * gmap str Tenant) (spec : TenantSpec)
    : gmap str Tenant * gmap str Tenant :=
  let '(orgs, slugs) := acc in
  if bool_decide (is_Some (orgs !! s_org_id spec)) then acc
  else if bool_decide (is_Some (slugs !! s_slug spec)) then acc
  else
    let t := new_tenant spec in
    (<[tenant_id t := t]> orgs, <[slug t := t]> slugs).

Definition store (version : Z) (tenants : list TenantSpec) : TenantSnapshot :=
  let '(orgs, slugs) := fold_left store_one tenants (∅, ∅) in
  mkSnapshot version orgs slugs.

Definition resolve_org (s : TenantSnapshot) (org_id : str) : option Tenant := by_org s !! org_id.
Definition resolve_slug (s : TenantSnapshot) (name : str) : option Tenant := by_slug s !! name.

(** ** What the table promises *)

(** The two indexes hold the same tenants, each under its own keys. *)
Definition indexes_agree (orgs slugs : gmap str Tenant) : Prop :=
  (∀ o t, orgs !! o = Some t → tenant_id t = o ∧ slugs !! slug t = Some t) ∧
  (∀ s t, slugs !! s = Some t → slug t = s ∧ orgs !! tenant_id t = Some t).

Lemma store_one_agree acc spec :
  indexes_agree acc.1 acc.2 → indexes_agree (store_one acc spec).1 (store_one acc spec).2.
Proof.
  destruct acc as [orgs slugs]. unfold store_one. cbn [fst snd]. intros [Ho Hs].
  case_bool_decide as H1; [done|]. case_bool_decide as H2; [done|]. cbn [fst snd new_tenant tenant_id slug].
  apply eq_None_not_Some in H1, H2. split.
  - intros o t Ht. apply lookup_insert_Some in Ht as [[<- <-]|[Hne Ht]].
    + cbn. by rewrite lookup_insert_eq.
    + destruct (Ho o t Ht) as [? Hsl]. split; [done|]. rewrite lookup_insert_ne; [done|].
      intros Heq. rewrite <- Heq, H2 in Hsl. done.
  - intros s t Ht. apply lookup_insert_Some in Ht as [[<- <-]|[Hne Ht]].
    + cbn. by rewrite lookup_insert_eq.
    + destruct (Hs s t Ht) as [? Hor]. split; [done|]. rewrite lookup_insert_ne; [done|].
      intros Heq. rewrite <- Heq, H1 in Hor. done.
Qed.

Lemma store_agree version specs :
  indexes_agree (by_org (store version specs)) (by_slug (store version specs)).
Proof.
  unfold store. assert (∀ acc, indexes_agree acc.1 acc.2 →
    indexes_agree (fold_left store_one specs acc).1 (fold_left store_one specs acc).2) as H.
  { induction specs as [|s specs IH]; intros acc Hacc; [done|]. cbn [fold_left]. by apply IH, store_one_agree. }
  specialize (H (∅, ∅)). destruct (fold_left store_one specs (∅, ∅)). apply H. by split.
Qed.

(** Entries are added, never replaced. *)
Lemma store_one_mono acc spec o t :
  (acc.1 !! o = Some t → (store_one acc spec).1 !! o = Some t) ∧
  (acc.2 !! o = Some t → (store_one acc spec).2 !! o = Some t).
Proof.
  destruct acc as [orgs slugs]. unfold store_one. cbn [fst snd].
  case_bool_decide as H1; [done|]. case_bool_decide as H2; [done|].
  apply eq_None_not_Some in H1, H2. cbn [fst snd new_tenant tenant_id slug].
  split; intros Ht; (rewrite lookup_insert_ne; [done|]); congruence.
Qed.

Lemma store_fold_mono specs acc o t :
  (acc.1 !! o = Some t → (fold_left store_one specs acc).1 !! o = Some t) ∧
  (acc.2 !! o = Some t → (fold_left store_one specs acc).2 !! o = Some t).
Proof.
  revert acc. induction specs as [|s specs IH]; intros acc; [done|]. cbn [fold_left].
  split; intros H; apply IH, store_one_mono, H.
Qed.

(** Every entry comes from a listed specification. *)
Lemma store_fold_origin specs acc o t :
  (fold_left store_one specs acc).1 !! o = Some t →
  acc.1 !! o = Some t ∨ ∃ spec, spec ∈ specs ∧ t = new_tenant spec ∧ s_org_id spec = o.
Proof.
  revert acc. induction specs as [|s specs IH]; intros acc; cbn [fold_left]; [auto|].
  intros [H|(spec & Hin & -> & Ho)]%IH; [|right; exists spec; split; [by right|done]].
  destruct acc as [orgs slugs]. unfold store_one in H. cbn [fst snd] in *.
  case_bool_decide as H1; [auto|]. case_bool_decide as H2; [auto|].
  cbn [fst snd new_tenant tenant_id slug] in H.
  apply lookup_insert_Some in H as [[<- <-]|[_ H]]; [|auto]. right. exists s. split; [left|done].
Qed.

(** A specification whose organisation and slug are both new is served. *)
Lemma store_first version pre spec post :
  (∀ s, s ∈ pre → s_org_id s ≠ s_org_id spec ∧ s_slug s ≠ s_slug spec) →
  resolve_org (store version (pre ++ spec :: post)) (s_org_id spec) = Some (new_tenant spec) ∧
  resolve_slug (store version (pre ++ spec :: post)) (s_slug spec) = Some (new_tenant spec).
Proof.
  intros Hpre. unfold resolve_org, resolve_slug, store. rewrite fold_left_app. cbn [fold_left].
  set (acc := fold_left store_one pre (∅, ∅)).
  pose proof (store_agree version pre) as Hag. unfold store in Hag. fold acc in Hag.
  assert (acc.1 !! s_org_id spec = None) as H1.
  { destruct (acc.1 !! s_org_id spec) as [t|] eqn:He; [|done].
    apply store_fold_origin in He as [He|(s & Hs & _ & Ho)]; [done|]. by destruct (Hpre s Hs). }
  assert (acc.2 !! s_slug spec = None) as H2.
  { destruct (acc.2 !! s_slug spec) as [t|] eqn:He; [|done].
    destruct acc as [orgs slugs] eqn:Hacc. cbn [by_org by_slug] in Hag. destruct Hag as [_ Hs].
    destruct (Hs _ _ He) as [Hsl Hor]. replace orgs with (fold_left store_one pre (∅, ∅)).1 in Hor
      by (change (fold_left store_one pre (∅, ∅)) with acc; by rewrite Hacc).
    apply store_fold_origin in Hor as [Hor|(s & Hin & -> & Ho)]; [done|]. by destruct (Hpre s Hin). }
  assert (store_one acc spec =
    (<[s_org_id spec := new_tenant spec]> acc.1, <[s_slug spec := new_tenant spec]> acc.2)) as Heq.
  { destruct acc as [orgs slugs]. unfold store_one. cbn [fst snd] in *.
    by rewrite H1, H2, !bool_decide_eq_false_2 by (by intros [? ?]). }
  rewrite Heq. pose proof (store_fold_mono post
    (<[s_org_id spec := new_tenant spec]> acc.1, <[s_slug spec := new_tenant spec]> acc.2)) as Hm.
  destruct (fold_left store_one post _) as [orgs slugs]. cbn [fst snd by_org by_slug] in *. split.
  - apply (Hm (s_org_id spec) (new_tenant spec)). apply lookup_insert_eq.
  - apply (Hm (s_slug spec) (new_tenant spec)). apply lookup_insert_eq.
Qed.

(** The id recorded last for a login, if any. *)
Definition recorded_id (ids : list (str * Z)) (login : str) : option Z :=
  fold_left (λ found '(l, id), if bool_decide (to_lowercase l = login) then Some id else found) ids None.

Lemma collect_ids_lookup ids login : collect_ids ids !! login = recorded_id ids login.
Proof.
  unfold collect_ids, recorded_id.
  assert (∀ (m : gmap str Z) found, m !! login = found →
    fold_left (λ (m : gmap str Z) '(l, id), <[to_lowercase l := id]> m) ids m !! login =
    fold_left (λ found '(l, id), if bool_decide (to_lowercase l = login) then Some id else found) ids found)
    as H; [|by apply H].
  induction ids as [|[l id] ids IH]; intros m found Hm; cbn [fold_left]; [done|]. apply IH.
  case_bool_decide as Hl; [by rewrite Hl, lookup_insert_eq|by rewrite lookup_insert_ne].
Qed.

Lemma owns_spec spec owner owner_id :
  owns (new_tenant spec) owner owner_id = true ↔
  to_lowercase owner ∈ to_lowercase <$> s_owners spec ∧
  ∀ id, recorded_id (s_owner_ids spec) (to_lowercase owner) = Some id → owner_id = Some id.
Proof.
  unfold owns. cbn [new_tenant owners owner_ids]. rewrite collect_ids_lookup.
  assert (existsb (str_eqb (to_lowercase owner)) (map to_lowercase (s_owners spec)) = true ↔
    to_lowercase owner ∈ to_lowercase <$> s_owners spec) as <-.
  { rewrite existsb_exists. setoid_rewrite str_eqb_eq. setoid_rewrite <- list_elem_of_In.
    change (map to_lowercase (s_owners spec)) with (to_lowercase <$> s_owners spec). split.
    - by intros (x & Hx & ->).
    - intros Hx. eauto. }
  destruct (existsb _ _); cbn [negb]; [|naive_solver].
  destruct (recorded_id _ _) as [id|]; [rewrite bool_decide_eq_true|]; naive_solver.
Qed.
End tenants.

(** ** Usage *)

Record UsageSnapshot : Type := mkUsage {
  tunnels_opened : Z;
  bytes_to_target : Z;
  bytes_to_client : Z;
}.
Definition default_meter : UsageSnapshot := mkUsage 0 0 0.

(** The meter of an organisation is shared by reference: the reference is the key. *)
Abbreviation TenantUsage := (gmap str UsageSnapshot).

Definition meter_for (u : TenantUsage) (id : TenantId) : TenantUsage :=
  match u !! id with Some _ => u | None => <[id := default_meter]> u end.

(** [AtomicU64::fetch_add] wraps. *)
Definition tunnel_opened (m : UsageSnapshot) : UsageSnapshot :=
  mkUsage (wrap 64 (tunnels_opened m + 1)) (bytes_to_target m) (bytes_to_client m).
Definition add_to_target (bytes : Z) (m : UsageSnapshot) : UsageSnapshot :=
  mkUsage (tunnels_opened m) (wrap 64 (bytes_to_target m + bytes)) (bytes_to_client m).
Definition add_to_client (bytes : Z) (m : UsageSnapshot) : UsageSnapshot :=
  mkUsage (tunnels_opened m) (bytes_to_target m) (wrap 64 (bytes_to_client m + bytes)).

Definition usage_snapshot (u : TenantUsage) : list (str * UsageSnapshot) :=
  sort_by (λ a b, str_le a.1 b.1) (map_to_list u).

(** What the relays report, in any order, each through the meter it was given. *)
Inductive usage_event : Type :=
  | Opened (org : str)
  | ToTarget (org : str) (bytes : Z)
  | ToClient (org : str) (bytes : Z).

Definition event_org (e : usage_event) : str :=
  match e with Opened o | ToTarget o _ | ToClient o _ => o end.
Definition event_count (e : usage_event) (m : UsageSnapshot) : UsageSnapshot :=
  match e with
  | Opened _ => tunnel_opened m
  | ToTarget _ b => add_to_target b m
  | ToClient _ b => add_to_client b m
  end.
Definition usage_step (u : TenantUsage) (e : usage_event) : TenantUsage :=
  alter (event_count e) (event_org e) (meter_for u (event_org e)).

(** The events of one organisation, and what they add up to. *)
Definition org_events (evs : list usage_event) (org : str) : list usage_event :=
  List.filter (λ e, str_eqb (event_org e) org) evs.

Definition event_total (f : usage_event → Z) (evs : list usage_event) : Z :=
  fold_right (λ e t, f e + t) 0 evs.

Definition totals (evs : list usage_event) : UsageSnapshot :=
  mkUsage (wrap 64 (event_total (λ e, match e with Opened _ => 1 | _ => 0 end) evs))
    (wrap 64 (event_total (λ e, match e with ToTarget _ b => b | _ => 0 end) evs))
    (wrap 64 (event_total (λ e, match e with ToClient _ b => b | _ => 0 end) evs)).

Lemma event_total_snoc f evs e : event_total f (evs ++ [e]) = event_total f evs + f e.
Proof. unfold event_total. induction evs as [|x evs IH]; cbn [fold_right app]; lia. Qed.

Lemma totals_snoc evs e : totals (evs ++ [e]) = event_count e (totals evs).
Proof.
  unfold totals, wrap. rewrite !event_total_snoc.
  destruct e; cbn [event_count]; unfold tunnel_opened, add_to_target, add_to_client, wrap;
    cbn [tunnels_opened bytes_to_target bytes_to_client]; rewrite ?Zplus_mod_idemp_l, !Z.add_0_r; done.
Qed.

Lemma usage_lookup evs org :
  fold_left usage_step evs (∅ : TenantUsage) !! org =
    if bool_decide (org_events evs org = []) then None else Some (totals (org_events evs org)).
Proof.
  induction evs as [|e evs IH] using rev_ind; [done|].
  rewrite fold_left_app. cbn [fold_left]. set (u := fold_left usage_step evs ∅) in *.
  unfold org_events in *. rewrite List.filter_app. cbn [List.filter]. unfold usage_step, meter_for.
  destruct (str_eqb (event_org e) org) eqn:He.
  - apply str_eqb_eq in He. rewrite He. rewrite bool_decide_eq_false_2
      by (intros [_ H]%app_eq_nil; done). rewrite lookup_alter_eq, totals_snoc.
    case_bool_decide as Hn; rewrite IH; cbn [fmap option_fmap option_map].
    + by rewrite lookup_insert_eq, Hn.
    + by rewrite IH.
  - apply str_eqb_neq in He. rewrite app_nil_r, <- IH, lookup_alter_ne by done.
    destruct (u !! event_org e); [done|]. by rewrite lookup_insert_ne.
Qed.

(** ** Correctness *)

(** No two organisations are ever confused: in any stored table a slug
    resolves to the tenant that carries it, the same tenant its organisation id
    resolves to, and conversely; every resolved tenant was listed; and a listed
    tenant whose organisation and slug were not listed before is served under
    both (a later repetition of either is dropped). *)
Theorem tenant_table_resolves (to_lowercase : str → str) (version : Z) (specs : list TenantSpec) :
  let snap := store to_lowercase version specs in
  (∀ s t, resolve_slug snap s = Some t → slug t = s ∧ resolve_org snap (tenant_id t) = Some t) ∧
  (∀ o t, resolve_org snap o = Some t → tenant_id t = o ∧ resolve_slug snap (slug t) = Some t ∧
     ∃ spec, spec ∈ specs ∧ t = new_tenant to_lowercase spec) ∧
  (∀ pre spec post, specs = pre ++ spec :: post →
     (∀ s, s ∈ pre → s_org_id s ≠ s_org_id spec ∧ s_slug s ≠ s_slug spec) →
     resolve_org snap (s_org_id spec) = Some (new_tenant to_lowercase spec) ∧
     resolve_slug snap (s_slug spec) = Some (new_tenant to_lowercase spec)).
Proof.
  destruct (store_agree to_lowercase version specs) as [Ho Hs]. split_and!.
  - intros s t Ht. by apply Hs.
  - intros o t Ht. destruct (Ho o t Ht) as [Hid Hsl]. split_and!; [done|done|].
    unfold resolve_org, store in Ht. pose proof (store_fold_origin to_lowercase specs (∅, ∅) o t) as Hor.
    destruct (fold_left _ specs (∅, ∅)) as [orgs slugs]. destruct (Hor Ht) as [?|(spec & ? & ? & _)]; [done|eauto].
  - intros pre spec post -> Hpre. by apply store_first.
Qed.

(** Ownership is exact: a tenant owns a login when one of its listed owners
    has the same lowercase form and, if the control plane recorded a numeric id
    for that login in any capitalisation, the presented id is that one. *)
Theorem tenant_owns_iff (to_lowercase : str → str) (spec : TenantSpec) (owner : str) (owner_id : option Z) :
  owns to_lowercase (new_tenant to_lowercase spec) owner owner_id = true ↔
  to_lowercase owner ∈ to_lowercase <$> s_owners spec ∧
  ∀ id, recorded_id to_lowercase (s_owner_ids spec) (to_lowercase owner) = Some id → owner_id = Some id.
Proof. apply owns_spec. Qed.

(** Usage is accounted per organisation: after any interleaving of what the
    relays count, the report lists every organisation with activity and no
    other, in order of its id, with the totals of its own events (modulo the
    64-bit counters). *)
Theorem usage_report_exact (evs : list usage_event) :
  let report := usage_snapshot (fold_left usage_step evs ∅) in
  StronglySorted (λ a b, str_le a.1 b.1 = true) report ∧ NoDup (fst <$> report) ∧
  ∀ org m, (org, m) ∈ report ↔ org_events evs org ≠ [] ∧ m = totals (org_events evs org).
Proof.
  intros report. subst report. unfold usage_snapshot. split_and!.
  - apply sort_by_sorted; intros; [apply str_le_total|by eapply str_le_trans].
  - rewrite sort_by_perm. apply NoDup_fst_map_to_list.
  - intros org m. rewrite sort_by_perm, elem_of_map_to_list, usage_lookup. case_bool_decide; naive_solver.
Qed.
