(* ===== verification/Platform.v ===== *)
(** * The multi-tenant platform

    Model of the tenant side of [crates/skimasque-cli/src/platform.rs] with the
    shapes and slugs of [crates/skimasque-protocol/src/platform.rs]: a list of
    tenants pulled from the control plane becomes a table and a map of keys, a
    credential is verified with the keys of the one organisation it names, and a
    CI token is exchanged for a credential of the one tenant its audience names.

    The control plane itself is a parameter, as are the readers of policy
    documents and of JSON. *)

From S2P Require Import Prelude RustStr RustNet PolicyDest PolicyUnits PolicyModel PolicyEval PolicyParse.
From S2P Require Import Identity Credential Tenant.

(** ** Slugs and audiences *)

Definition SLUG_MAX_LEN : nat := 39.

Definition slug_char (c : Z) : bool := is_ascii_lowercase c || is_ascii_digit c || (c =? 45).

Definition is_valid_slug (s : str) : bool :=
  negb (bool_decide (s = [])) && (length (as_bytes s) <=? SLUG_MAX_LEN)%nat &&
  negb (starts_with "-" s) && negb (ends_with "-" s) && forallb slug_char (as_bytes s).

(** [s.trim_end_matches(c)]. *)
Fixpoint trim_start_matches (c : Z) (s : str) : str :=
  match s with
  | x :: s' => if x =? c then trim_start_matches c s' else s
  | [] => []
  end.
Definition trim_end_matches (c : Z) (s : str) : str := rev (trim_start_matches c (rev s)).

Definition tenant_audience (base_url slug : str) : str := trim_end_matches 47 base_url ++ "/o/" ++ slug.

Definition slug_from_audience (base_url audience : str) : option str :=
  rest ← strip_prefix (trim_end_matches 47 base_url ++ "/o/") audience;
  let rest := default rest (strip_suffix "/" rest) in
  if is_valid_slug rest then Some rest else None.

Definition normalize_owner (owner : str) : str := to_ascii_lowercase (trim owner).

(** ** The tenant list *)

Record SigningKey : Type := mkSigningKey {
  algorithm : str;
  public_key_b64 : str;
  previous_public_key_b64 : option str;
}.

Record PlatformTenant : Type := mkPlatformTenant {
  pt_org_id : str;
  pt_slug : str;
  pt_owners : list str;
  pt_owner_ids : list (str * Z);
  pt_policy : option (list (str * str));
  pt_signing_key : SigningKey;
}.

Record TenantList : Type := mkTenantList { list_version : Z; list_tenants : list PlatformTenant }.

(** Which entries survive: the organisations and slugs seen so far. *)
Fixpoint dedup_loop (orgs slugs : gset str) (tenants : list PlatformTenant) : list PlatformTenant :=
  match tenants with
  | [] => []
  | t :: tenants =>
      if bool_decide (trim (pt_org_id t) = []) then dedup_loop orgs slugs tenants
      else if bool_decide (pt_org_id t ∈ orgs) then dedup_loop orgs slugs tenants
      else if bool_decide (pt_slug t ∈ slugs) then dedup_loop orgs slugs tenants
      else t :: dedup_loop ({[ pt_org_id t ]} ∪ orgs) ({[ pt_slug t ]} ∪ slugs) tenants
  end.
Definition dedup (tenants : list PlatformTenant) : list PlatformTenant := dedup_loop ∅ ∅ tenants.

Section platform.
Context `{HJ : Jwt}.
Context {TomlError YamlError : Type}.
Context (toml_from_str : str → result TomlError RawPolicy).
Context (yaml_from_str : str → result YamlError YamlDoc).
Context (base64_standard : str → option (list Z)).
Context (to_lowercase : str → str).
Context (debug_str : str → str).

(** [SigningKey::all_public_key_bytes]. *)
Definition all_public_key_bytes (k : SigningKey) : option (list (list Z)) :=
  current ← base64_standard (public_key_b64 k);
  match previous_public_key_b64 k with
  | None => Some [current]
  | Some previous => previous ← base64_standard previous; Some [current; previous]
  end.

Definition verifier_for (t : PlatformTenant) : CredentialVerifier :=
  let key := pt_signing_key t in
  if negb (eq_ignore_ascii_case (algorithm key) "ed25519") then from_ed_public_keys []
  else
    match all_public_key_bytes key with
    | Some keys => from_ed_public_keys keys
    | None => from_ed_public_keys []
    end.

Definition policy_for (t : PlatformTenant) : PolicySet :=
  match pt_policy t with
  | None => []
  | Some documents =>
      match from_documents toml_from_str yaml_from_str documents with
      | Ok set => set
      | Err _ => []
      end
  end.

Definition spec_for (t : PlatformTenant) : TenantSpec :=
  mkTenantSpec (pt_org_id t) (pt_slug t) (map normalize_owner (pt_owners t)) (pt_owner_ids t) (policy_for t).

(** ** The live state *)

Record PlatformTenants : Type := mkPlatformTenants {
  platform_table : TenantSnapshot;
  platform_keys : gmap str CredentialVerifier;
}.
Definition no_tenants : PlatformTenants := mkPlatformTenants default_snapshot ∅.

Definition keys_of (l : TenantList) : gmap str CredentialVerifier :=
  fold_left (λ m t, <[pt_org_id t := verifier_for t]> m) (dedup (list_tenants l)) ∅.
Definition table_of (l : TenantList) : TenantSnapshot :=
  store to_lowercase (list_version l) (map spec_for (dedup (list_tenants l))).

(** [apply]: the keys are swapped first, then the table; a reader may come in
    between. *)
Definition apply_keys (s : PlatformTenants) (l : TenantList) : PlatformTenants :=
  mkPlatformTenants (platform_table s) (keys_of l).
Definition apply_table (s : PlatformTenants) (l : TenantList) : PlatformTenants :=
  mkPlatformTenants (table_of l) (platform_keys s).
Definition apply_list (s : PlatformTenants) (l : TenantList) : PlatformTenants :=
  apply_table (apply_keys s l) l.

(** ** The tunnel-side verifier *)

Definition platform_verify_now (table : TenantSnapshot) (keys : gmap str CredentialVerifier) (now : Z)
    (token : str) : result str (TenantId * WorkloadIdentity) :=
  org ← ok_or (peek_org_id token) (of_string "credential is not scoped to an organisation");
  tenant ← ok_or (resolve_org table org) (of_string "unknown organisation");
  verifier ← ok_or (keys !! tenant_id tenant) (of_string "credential did not verify");
  identity ← map_err (λ _, of_string "credential did not verify")
               (verify_for_org debug_str verifier now token (tenant_id tenant));
  Ok (tenant_id tenant, identity).

(** ** Minting *)

Inductive MintError : Type :=
  | Unauthorized (detail : str)
  | Unavailable (detail : str)
  | Refused (code message : str).

Definition UNKNOWN_ORG : str := "unknown_org".
Definition OWNER_NOT_VERIFIED : str := "owner_not_verified".
Definition UNAVAILABLE : str := "SkiMasque control plane unreachable; try again shortly.".
Definition OIDC_KEYS_UNAVAILABLE : str := "GitHub OIDC keys unavailable; try again shortly.".

Record PlatformMintRequest : Type := mkMintRequest {
  mr_org_id : str;
  mr_identity : WorkloadIdentity;
  mr_subject : option str;
  mr_owner_id : option Z;
  mr_ttl_seconds : Z;
}.

Inductive PlatformMintError : Type :=
  | MintRefused (code message : str)
  | MintUnavailable.

(** [serde_json::Value::get], and the audiences of a token, unverified. *)
Definition json_get (v : Json) (key : str) : option Json :=
  match v with
  | JObject l => snd <$> List.find (λ kv, str_eqb kv.1 key) l
  | _ => None
  end.

Context (json_value : list Z → option Json).

Definition peek_audiences (token : str) : list str :=
  match (bytes ← payload_bytes token; v ← json_value bytes; json_get v "aud") with
  | Some (JString s) => [s]
  | Some (JArray l) => omap as_str l
  | _ => []
  end.

Definition ambiguous_org : MintError :=
  Refused UNKNOWN_ORG
    "The token names more than one SkiMasque organisation. Check the `audience` in your workflow.".
Definition unknown_audience (base_url : str) : MintError :=
  Refused UNKNOWN_ORG
    ("Unknown SkiMasque organisation. Check the `audience` in your workflow. It must be `" ++
     tenant_audience base_url "<your-org-slug>" ++ "`.").

Fixpoint slug_loop (base_url : str) (found : option (str * str)) (auds : list str)
    : result MintError (option (str * str)) :=
  match auds with
  | [] => Ok found
  | aud :: auds =>
      match slug_from_audience base_url aud with
      | None => slug_loop base_url found auds
      | Some slug =>
          match found with
          | None => slug_loop base_url (Some (slug, aud)) auds
          | Some (seen, _) =>
              if str_eqb seen slug then slug_loop base_url found auds else Err ambiguous_org
          end
      end
  end.
Definition slug_of (base_url token : str) : result MintError (str * str) :=
  found ← slug_loop base_url None (peek_audiences token);
  ok_or found (unknown_audience base_url).

Context `{HO : Oidc}.
Context (published : nat → result IdentityError JwkSet) (jwks_ttl : Z).
(** [{}] of an identity error. *)
Context (display_error : IdentityError → str).

Record PlatformMinter : Type := mkMinter {
  oidc : Verifier;
  provider : Provider;
  base_url : str;
  platform_mint : PlatformMintRequest → result PlatformMintError (str * Z);
  mint_ttl : Z;
  owner_settings_url : str;
}.

Definition oidc_error (e : IdentityError) : MintError :=
  match e with
  | Discovery _ | JwksError _ => Unavailable OIDC_KEYS_UNAVAILABLE
  | other => Unauthorized (display_error other)
  end.

Definition owner_refusal (m : PlatformMinter) (owner slug : str) : MintError :=
  Refused OWNER_NOT_VERIFIED
    (match owner with
     | [] => "The job's token names no repository owner, so it cannot be verified for `" ++ slug ++ "`."
     | _ => "`" ++ owner ++ "` is not verified for `" ++ slug ++ "`. Verify it at " ++
            owner_settings_url m ++ "."
     end).

(** What is asked of the control plane for a token, or why nothing is. *)
Definition mint_request (m : PlatformMinter) (table : TenantSnapshot) (now : Z) (token : str) (c : Jwks)
    : result MintError PlatformMintRequest * Jwks :=
  match slug_of (base_url m) token with
  | Err e => (Err e, c)
  | Ok (slug, audience) =>
      match resolve_slug table slug with
      | None =>
          (Err (Refused UNKNOWN_ORG ("Unknown SkiMasque organisation `" ++ slug ++
                  "`. Check the `audience` in your workflow.")), c)
      | Some tenant =>
          let '(claims, c) := verify_claims_for_audience published jwks_ttl (oidc m) audience now token c in
          (claims ← map_err oidc_error claims;
           let workload := identify (provider m) claims in
           let owner := default [] (normalize_owner <$> organization workload) in
           if bool_decide (owner = []) || negb (owns to_lowercase tenant owner (owner_id claims)) then
             Err (owner_refusal m owner slug)
           else
             Ok (mkMintRequest (tenant_id tenant) workload (subject claims) (owner_id claims) (mint_ttl m)), c)
      end
  end.

Definition mint (m : PlatformMinter) (table : TenantSnapshot) (now : Z) (token : str) (c : Jwks)
    : result MintError (str * Z) * Jwks :=
  let '(request, c) := mint_request m table now token c in
  (request ← request;
   match platform_mint m request with
   | Ok minted => Ok minted
   | Err (MintRefused code message) => Err (Refused code message)
   | Err MintUnavailable => Err (Unavailable UNAVAILABLE)
   end, c).
End platform.

(** ** Slugs *)

Lemma trim_start_matches_no c s : c ∉ s → trim_start_matches c s = s.
Proof.
  destruct s as [|x s]; [done|]. intros [Hx _]%not_elem_of_cons. cbn. by destruct (Z.eqb_spec x c); [congruence|].
Qed.

Lemma valid_slug_chars slug : is_valid_slug slug = true → 47 ∉ slug.
Proof.
  unfold is_valid_slug. intros H Hin. apply andb_true_iff in H as [_ H].
  rewrite forallb_forall in H. specialize (H 47).
  assert (slug_char 47 = true) as Hc; [|done]. apply H. unfold as_bytes. apply in_flat_map. exists 47.
  split; [by apply list_elem_of_In|]. cbn. auto.
Qed.

(** An audience names one organisation at most: it does exactly when it is the
    gateway's origin, [/o/] and a valid slug, with one trailing slash at most; the
    audience built for a slug names that slug. *)
Theorem audience_names_slug (base_url audience slug : str) :
  slug_from_audience base_url audience = Some slug ↔
  is_valid_slug slug = true ∧
  (audience = tenant_audience base_url slug ∨ audience = tenant_audience base_url slug ++ "/").
Proof.
  unfold slug_from_audience, tenant_audience. rewrite !app_assoc. set (prefix := trim_end_matches 47 base_url ++ "/o/").
  split.
  - intros (rest & Hp & H)%bind_Some. apply strip_prefix_Some in Hp as ->.
    destruct (strip_suffix "/" rest) as [r|] eqn:Hs; cbn in H.
    + apply strip_suffix_Some in Hs as ->. destruct (is_valid_slug r) eqn:Hv; [injection H as <-|done].
      split; [done|]. right. by rewrite app_assoc.
    + destruct (is_valid_slug rest) eqn:Hv; [injection H as <-|done]. auto.
  - intros [Hv [-> | ->]].
    + rewrite strip_prefix_app. bind_simpl.
      destruct (strip_suffix "/" slug) as [r|] eqn:Hs; cbn; [|by rewrite Hv].
      apply strip_suffix_Some in Hs as ->. exfalso. apply (valid_slug_chars _ Hv).
      apply elem_of_app. right. left.
    + rewrite <- app_assoc, strip_prefix_app. bind_simpl. rewrite strip_suffix_app. cbn. by rewrite Hv.
Qed.

(** ** De-duplication *)

Lemma dedup_loop_spec orgs slugs tenants t :
  t ∈ dedup_loop orgs slugs tenants →
  t ∈ tenants ∧ trim (pt_org_id t) ≠ [] ∧ pt_org_id t ∉ orgs ∧ pt_slug t ∉ slugs.
Proof.
  revert orgs slugs. induction tenants as [|x l IH]; intros orgs slugs; cbn [dedup_loop];
    [by intros ?%elem_of_nil|].
  case_bool_decide as H1; [intros (?&?&?&?)%IH; split_and!; [by right|done..]|].
  case_bool_decide as H2; [intros (?&?&?&?)%IH; split_and!; [by right|done..]|].
  case_bool_decide as H3; [intros (?&?&?&?)%IH; split_and!; [by right|done..]|].
  intros [->|(Hin & Hne & Ho & Hs)%IH]%elem_of_cons; [split_and!; [left|done..]|].
  split_and!; [by right|done|set_solver..].
Qed.

Lemma dedup_loop_NoDup orgs slugs tenants :
  NoDup (pt_org_id <$> dedup_loop orgs slugs tenants) ∧ NoDup (pt_slug <$> dedup_loop orgs slugs tenants).
Proof.
  revert orgs slugs. induction tenants as [|x l IH]; intros orgs slugs; cbn [dedup_loop]; [by split; constructor|].
  repeat (case_bool_decide; [apply IH|]). destruct (IH ({[ pt_org_id x ]} ∪ orgs) ({[ pt_slug x ]} ∪ slugs)) as [Ho Hs].
  cbn [fmap list_fmap]. split; constructor; try done.
  - intros (t & Heq & Ht)%list_elem_of_fmap. apply dedup_loop_spec in Ht as (_ & _ & Hn & _). set_solver.
  - intros (t & Heq & Ht)%list_elem_of_fmap. apply dedup_loop_spec in Ht as (_ & _ & _ & Hn). set_solver.
Qed.

Lemma dedup_org_inj tenants t u :
  t ∈ dedup tenants → u ∈ dedup tenants → pt_org_id t = pt_org_id u → t = u.
Proof.
  intros [n Hn]%list_elem_of_lookup [m Hm]%list_elem_of_lookup Heq.
  destruct (dedup_loop_NoDup ∅ ∅ tenants) as [Hnd _]. fold (dedup tenants) in Hnd.
  assert (n = m) as ->; [|congruence]. eapply NoDup_lookup; [done|by rewrite list_lookup_fmap, Hn|].
  rewrite list_lookup_fmap, Hm. cbn. congruence.
Qed.

(** Entries inserted one after the other, under different keys. *)
Lemma fold_insert_lookup {A V} (key : A → str) (val : A → V) (l : list A) (m : gmap str V) k v :
  NoDup (key <$> l) → (∀ x, x ∈ l → m !! key x = None) →
  fold_left (λ m x, <[key x := val x]> m) l m !! k = Some v ↔
  m !! k = Some v ∨ ∃ x, x ∈ l ∧ key x = k ∧ val x = v.
Proof.
  revert m. induction l as [|x l IH]; intros m Hnd Hm; cbn [fold_left].
  - split; [auto|]. intros [H|(? & ?%elem_of_nil & _)]; done.
  - cbn [fmap list_fmap] in Hnd. apply NoDup_cons in Hnd as [Hx Hnd]. rewrite IH; [|done|].
    + split.
      * intros [[[<- <-]|[Hne Hk]]%lookup_insert_Some|(y & Hy & Hk & Hv)]; [right|by left|right].
        -- exists x. split_and!; [left|done..].
        -- exists y. split_and!; [by right|done..].
      * intros [Hk|(y & [->|Hy]%elem_of_cons & <- & <-)].
        -- left. apply lookup_insert_Some. right. split; [|done]. intros Heq.
           rewrite <- Heq, Hm in Hk by left. done.
        -- left. apply lookup_insert_eq.
        -- right. eauto.
    + intros y Hy. rewrite lookup_insert_ne; [by apply Hm; right|]. intros Heq. apply Hx.
      rewrite Heq. apply list_elem_of_fmap. eauto.
Qed.

(** ** Table and keys *)

Section state.
Context `{HJ : Jwt}.
Context {TomlError YamlError : Type}.
Context (toml_from_str : str → result TomlError RawPolicy).
Context (yaml_from_str : str → result YamlError YamlDoc).
Context (base64_standard : str → option (list Z)).
Context (to_lowercase : str → str).
Context (debug_str : str → str).

Abbreviation live_keys := (keys_of base64_standard).
Abbreviation live_table := (table_of toml_from_str yaml_from_str to_lowercase).
Abbreviation live_spec := (spec_for toml_from_str yaml_from_str).

Lemma keys_of_lookup l org v :
  live_keys l !! org = Some v ↔
  ∃ t, t ∈ dedup (list_tenants l) ∧ pt_org_id t = org ∧ verifier_for base64_standard t = v.
Proof.
  unfold keys_of. rewrite fold_insert_lookup; [|apply dedup_loop_NoDup|done].
  rewrite lookup_empty. split; [intros [?|?]; done|auto].
Qed.

Lemma table_of_lookup l org tenant :
  resolve_org (live_table l) org = Some tenant ↔
  ∃ t, t ∈ dedup (list_tenants l) ∧ pt_org_id t = org ∧ new_tenant to_lowercase (live_spec t) = tenant.
Proof.
  unfold table_of. split.
  - unfold resolve_org, store. destruct (fold_left _ _ _) as [orgs slugs] eqn:Hf. cbn [by_org]. intros Ho.
    assert ((fold_left (store_one to_lowercase) (map live_spec (dedup (list_tenants l))) (∅, ∅)).1 !! org
      = Some tenant) as Ho' by by rewrite Hf.
    apply store_fold_origin in Ho' as [?|(spec & Hin & -> & Hs)]; [done|].
    apply list_elem_of_fmap in Hin as (t & -> & Ht). eauto.
  - intros (t & Ht & <- & <-). apply list_elem_of_split in Ht as (pre & post & Hl).
    rewrite Hl, map_app. cbn [map].
    refine (proj1 (store_first to_lowercase _ (map live_spec pre) (live_spec t) (map live_spec post) _)).
    intros s (u & -> & Hu)%list_elem_of_fmap. cbn.
    destruct (dedup_loop_NoDup ∅ ∅ (list_tenants l)) as [Ho Hs]. fold (dedup (list_tenants l)) in Ho, Hs.
    rewrite Hl, fmap_app in Ho, Hs. cbn [fmap list_fmap] in Ho, Hs.
    apply NoDup_app in Ho as (_ & Ho & _), Hs as (_ & Hs & _). split.
    + intros Heq. apply (Ho (pt_org_id u)); [apply list_elem_of_fmap; eauto|]. rewrite Heq. left.
    + intros Heq. apply (Hs (pt_slug u)); [apply list_elem_of_fmap; eauto|]. rewrite Heq. left.
Qed.

(** Table and keys describe the same tenants: after a list was applied, an
    organisation is served exactly when it has keys; every served one is an entry
    of the list with a non-blank id, serving that entry's own policy and owners,
    and holding that entry's own keys; no two share an id or a slug. *)
Theorem platform_agrees (s : PlatformTenants) (l : TenantList) :
  let s' := apply_list toml_from_str yaml_from_str base64_standard to_lowercase s l in
  ∀ org,
    (is_Some (resolve_org (platform_table s') org) ↔ is_Some (platform_keys s' !! org)) ∧
    (∀ tenant v, resolve_org (platform_table s') org = Some tenant → platform_keys s' !! org = Some v →
       ∃ t, t ∈ list_tenants l ∧ pt_org_id t = org ∧ trim org ≠ [] ∧
         tenant = new_tenant to_lowercase (live_spec t) ∧ v = verifier_for base64_standard t ∧
         resolve_slug (platform_table s') (pt_slug t) = Some tenant).
Proof.
  intros s' org. cbn [s' apply_list apply_table apply_keys platform_table platform_keys]. split.
  - unfold is_Some. setoid_rewrite table_of_lookup. setoid_rewrite keys_of_lookup. naive_solver.
  - intros tenant v Ht Hk. pose proof Ht as Ht'. apply table_of_lookup in Ht as (t & Hin & Ho & Htn).
    apply keys_of_lookup in Hk as (u & Hu & Ho' & Hv).
    assert (u = t) as -> by (eapply dedup_org_inj; [done..|congruence]).
    exists t. pose proof (dedup_loop_spec _ _ _ _ Hin) as (Hl & Hne & _).
    split_and!; [done..|congruence|done|done|].
    unfold table_of in *. pose proof (store_agree to_lowercase (list_version l)
      (map live_spec (dedup (list_tenants l)))) as [Hagree _].
    apply Hagree in Ht' as [_ Hs]. subst tenant. exact Hs.
Qed.

(** ** Verifying a credential *)

Context {HL : JwtLaws}.

(** A tenant's own key signed the token, and its claims name that tenant. *)
Definition own_credential (t : PlatformTenant) (now : Z) (token : str) (i : WorkloadIdentity) : Prop :=
  ∃ k c, k ∈ cv_decoding (verifier_for base64_standard t) ∧ signed EdDSA k token ∧ claims_of token = Some c ∧
    org_id c = Some (pt_org_id t) ∧ iss c = CREDENTIAL_ISSUER ∧ now - 30 ≤ exp c ∧ cred_identity c = i.

Lemma peek_claims token c : claims_of token = Some c → peek_org_id token = org_id c.
Proof.
  unfold claims_of, peek_org_id. destruct (payload_bytes token) as [bytes|]; [|done]. cbn.
  intros Hc. by rewrite (json_org_law _ _ Hc).
Qed.

Lemma platform_verify_Ok table l now token org i :
  (∀ o tenant, resolve_org table o = Some tenant → tenant_id tenant = o) →
  platform_verify_now debug_str table (live_keys l) now token = Ok (org, i) ↔
  is_Some (resolve_org table org) ∧
  ∃ t, t ∈ dedup (list_tenants l) ∧ pt_org_id t = org ∧ own_credential t now token i.
Proof.
  intros Htab. unfold platform_verify_now, own_credential. split.
  - intros Hv. apply bind_Ok in Hv as (o & Hp & Hv). apply ok_or_Ok in Hp.
    apply bind_Ok in Hv as (tenant & Hr & Hv). apply ok_or_Ok in Hr.
    apply bind_Ok in Hv as (v & Hk & Hv). apply ok_or_Ok in Hk.
    apply bind_Ok in Hv as (i' & Hi & [= <- <-]). apply map_err_Ok in Hi.
    pose proof (Htab _ _ Hr) as Hid. rewrite Hid in *. split; [eauto|].
    apply keys_of_lookup in Hk as (t & Ht & Ho & <-). apply verify_for_org_Ok in Hi. subst o.
    exists t. done.
  - intros ([tenant Hr] & t & Ht & Ho & k & c & Hk & Hs & Hc & Hoc & Hiss & Hexp & Hi).
    rewrite (peek_claims _ _ Hc), Hoc, Ho. bind_simpl. rewrite Hr. bind_simpl. rewrite (Htab _ _ Hr).
    rewrite (proj2 (keys_of_lookup l org (verifier_for base64_standard t))) by eauto. bind_simpl.
    rewrite (proj2 (verify_for_org_Ok debug_str _ now token org i)); [done|]. rewrite <- Ho. eauto 15.
Qed.

(** States the gateway passes through, with the list its keys come from: lists
    are applied one at a time, each in two steps. *)
Inductive serving : PlatformTenants → TenantList → Prop :=
  | serving_none : serving no_tenants (mkTenantList 0 [])
  | serving_keys s l l' : serving s l → serving (apply_keys base64_standard s l') l'
  | serving_table s l : serving s l →
      serving (apply_table toml_from_str yaml_from_str to_lowercase s l) l.

Lemma serving_state s l :
  serving s l → platform_keys s = live_keys l ∧
  ∀ o tenant, resolve_org (platform_table s) o = Some tenant → tenant_id tenant = o.
Proof.
  induction 1 as [|s l l' _ [_ IH]|s l _ [IH _]]; cbn [platform_keys platform_table apply_keys apply_table].
  - split; [done|]. intros o tenant Hr. unfold resolve_org in Hr. cbn in Hr. by rewrite lookup_empty in Hr.
  - split; [done|exact IH].
  - split; [done|]. intros o tenant (t & _ & <- & <-)%table_of_lookup. done.
Qed.

(** No tenant can use another's credential: whenever a tunnel's token is
    verified (the table read at one moment, the keys at the same or a later one,
    while lists are being applied), it is accepted for an organisation exactly
    when that organisation is in the table and is an entry of the list whose keys
    are in force, one of that entry's own keys signed the token, and the token's
    claims name it and have not run out. *)
Theorem platform_credential_own (s s2 : PlatformTenants) (l l2 : TenantList) (now : Z) (token org : str)
    (i : WorkloadIdentity) :
  serving s l → serving s2 l2 →
  platform_verify_now debug_str (platform_table s) (platform_keys s2) now token = Ok (org, i) ↔
  is_Some (resolve_org (platform_table s) org) ∧
  ∃ t, t ∈ dedup (list_tenants l2) ∧ pt_org_id t = org ∧ own_credential t now token i.
Proof.
  intros Hs Hs2. destruct (serving_state _ _ Hs) as [_ Htab], (serving_state _ _ Hs2) as [-> _].
  by apply platform_verify_Ok.
Qed.
End state.

(** ** Minting *)

Section minting.
Context `{HJ : Jwt} `{HO : Oidc}.
Context (to_lowercase : str → str) (json_value : list Z → option Json).
Context (published : nat → result IdentityError JwkSet) (jwks_ttl : Z).
Context (display_error : IdentityError → str).

Lemma slug_loop_Ok base found auds r :
  slug_loop base found auds = Ok r →
  (∀ p, found = Some p → r = Some p) ∧
  (∀ slug aud, r = Some (slug, aud) →
     (found = Some (slug, aud) ∨ aud ∈ auds ∧ slug_from_audience base aud = Some slug) ∧
     ∀ aud', aud' ∈ auds → ∀ slug', slug_from_audience base aud' = Some slug' → slug' = slug).
Proof.
  revert found. induction auds as [|a auds IH]; intros found; cbn [slug_loop].
  { intros [= <-]. split; [done|]. intros slug aud ->. split; [auto|]. by intros ? ?%elem_of_nil. }
  destruct (slug_from_audience base a) as [slug|] eqn:Ha.
  - destruct found as [[seen aud0]|].
    + destruct (str_eqb seen slug) eqn:Hsl; [|done]. apply bool_decide_eq_true in Hsl. subst.
      intros [Hf Hr]%IH. specialize (Hf _ eq_refl) as ->. split; [done|].
      intros slug' aud [= <- <-]. split; [auto|].
      intros aud' [->|Hin]%elem_of_cons slug' Hs'; [congruence|]. by eapply Hr.
    + intros [Hf Hr]%IH. specialize (Hf _ eq_refl) as ->. split; [done|].
      intros slug' aud [= <- <-]. split; [right; split; [left|done]|].
      intros aud' [->|Hin]%elem_of_cons slug' Hs'; [congruence|]. by eapply Hr.
  - intros [Hf Hr]%IH. split; [done|]. intros slug aud Heq. destruct (Hr _ _ Heq) as [Hwhere Hall].
    split; [destruct Hwhere as [?|[? ?]]; [auto|right; split; [by right|done]]|].
    intros aud' [->|Hin]%elem_of_cons slug' Hs'; [congruence|]. by eapply Hall.
Qed.

Lemma slug_of_Ok base token slug aud :
  slug_of json_value base token = Ok (slug, aud) →
  aud ∈ peek_audiences json_value token ∧ slug_from_audience base aud = Some slug ∧
  ∀ aud' slug', aud' ∈ peek_audiences json_value token → slug_from_audience base aud' = Some slug' → slug' = slug.
Proof.
  unfold slug_of. intros (found & Hl & Hf)%bind_Ok. apply ok_or_Ok in Hf as ->.
  apply slug_loop_Ok in Hl as [_ Hl]. destruct (Hl _ _ eq_refl) as [[?|[Hin Hs]] Hall]; [done|].
  split_and!; [done..|]. eauto.
Qed.

(** C12.  A credential is only ever asked for on behalf of the tenant a job belongs
    to: when the exchange of a token reaches the control plane, the token's
    audiences name one slug and no other, the token verified for an audience that
    names it, the tenant is the one served under that slug, and the job's owner,
    as verified, is one of that tenant's (with the recorded numeric id, where one
    is recorded); the request carries that organisation and the verified identity
    alone. *)
Theorem mint_request_sound (m : PlatformMinter) (table : TenantSnapshot) (now : Z) (token : str)
    (c c' : Jwks) (r : PlatformMintRequest) :
  mint_request to_lowercase json_value published jwks_ttl display_error m table now token c = (Ok r, c') →
  ∃ slug aud tenant claims owner,
    aud ∈ peek_audiences json_value token ∧ slug_from_audience (base_url m) aud = Some slug ∧
    (∀ aud' slug', aud' ∈ peek_audiences json_value token →
       slug_from_audience (base_url m) aud' = Some slug' → slug' = slug) ∧
    resolve_slug table slug = Some tenant ∧
    verify_claims_for_audience published jwks_ttl (oidc m) aud now token c = (Ok claims, c') ∧
    mr_identity r = identify (provider m) claims ∧ mr_org_id r = tenant_id tenant ∧
    normalize_owner <$> organization (mr_identity r) = Some owner ∧ owner ≠ [] ∧
    owns to_lowercase tenant owner (owner_id claims) = true ∧ mr_owner_id r = owner_id claims.
Proof.
  unfold mint_request. destruct (slug_of json_value (base_url m) token) as [[slug aud]|] eqn:Hs; [|done].
  apply slug_of_Ok in Hs as (Hin & Hsl & Hall). destruct (resolve_slug table slug) as [tenant|] eqn:Ht; [|done].
  destruct (verify_claims_for_audience _ _ _ _ _ _ _) as [claims c1] eqn:Hv. intros [= Hr <-].
  apply bind_Ok in Hr as (cl & Hcl & Hr). apply map_err_Ok in Hcl as ->.
  destruct (organization (identify (provider m) cl)) as [o|] eqn:Ho; cbn in Hr; [|done].
  case_bool_decide as Hne; cbn [orb] in Hr; [done|].
  destruct (owns to_lowercase tenant (normalize_owner o) (owner_id cl)) eqn:Hown; cbn [negb] in Hr; [|done].
  injection Hr as <-. exists slug, aud, tenant, cl, (normalize_owner o).
  split_and!; try done. cbn. by rewrite Ho.
Qed.
End minting.

(** ** A platform with one tenant *)

#[local] Existing Instance sample_jwt.
#[local] Existing Instance sample_laws.
#[local] Existing Instance sample_oidc.

Definition acme : PlatformTenant :=
  mkPlatformTenant "org_a" "acme" [of_string "Acme"] [] None (mkSigningKey "Ed25519" "0123456" None).
Definition acme_list : TenantList := mkTenantList 1 [acme].
Definition no_toml (_ : str) : result unit RawPolicy := Err tt.
Definition no_yaml (_ : str) : result unit YamlDoc := Err tt.
Definition acme_serving : @PlatformTenants sample_jwt :=
  apply_list no_toml no_yaml Some to_ascii_lowercase no_tenants acme_list.
Definition acme_claims : CredentialClaims :=
  mkCredentialClaims CREDENTIAL_ISSUER 1000 1600 None (Some (of_string "org_a")) sample_identity.

Lemma platform_credential_own_witness :
  platform_verify_now id (platform_table acme_serving) (platform_keys acme_serving) 1500
    (sample_token 7 acme_claims) = Ok (of_string "org_a", sample_identity).
Proof.
  assert (serving no_toml no_yaml Some to_ascii_lowercase acme_serving acme_list) as Hs
    by (apply serving_table, (serving_keys _ _ _ _ _ _ _ (serving_none _ _ _ _))).
  apply (platform_credential_own no_toml no_yaml Some to_ascii_lowercase id acme_serving acme_serving
    acme_list acme_list 1500 (sample_token 7 acme_claims) "org_a" sample_identity Hs Hs).
  split.
  - eexists. apply table_of_lookup. exists acme. split_and!; [left|reflexivity..].
  - exists acme. split; [left|]. split; [reflexivity|].
    exists 7%nat, acme_claims. split; [left|]. split_and!.
    + exact (proj2 (@encode_signs sample_jwt sample_laws EdDSA 7%nat 7%nat acme_claims _ eq_refl) eq_refl).
    + exact (@encode_payload sample_jwt sample_laws EdDSA 7%nat acme_claims _ eq_refl).
    + reflexivity.
    + reflexivity.
    + cbn. lia.
    + reflexivity.
Defined.

Definition acme_json (_ : list Z) : option Json :=
  Some (JObject [(of_string "aud", JString "https://g.example/o/acme")]).
Definition acme_minter : PlatformMinter :=
  mkMinter sample_verifier GitHubActions "https://g.example/" (λ r, Ok (mr_org_id r, 60)) 600 "settings".
Definition acme_published (_ : nat) : result IdentityError (@JwkSet sample_oidc) := Ok [of_string "h.p.s"].
Definition acme_request : PlatformMintRequest :=
  mkMintRequest "org_a" (mkIdentity (Some (of_string "Acme")) None None None None None (Some Ci) None None None)
    None None 600.

Lemma mint_request_sound_witness :
  let table := table_of no_toml no_yaml to_ascii_lowercase acme_list in
  let m := acme_minter in
  (mint to_ascii_lowercase acme_json acme_published 3600 (λ _, []) m table 10 "h.p.s" (mkJwks None 0)).1
    = Ok (of_string "org_a", 60) ∧
  ∃ slug aud tenant claims owner,
    aud ∈ peek_audiences acme_json "h.p.s" ∧ slug_from_audience (base_url m) aud = Some slug ∧
    (∀ aud' slug', aud' ∈ peek_audiences acme_json "h.p.s" →
       slug_from_audience (base_url m) aud' = Some slug' → slug' = slug) ∧
    resolve_slug table slug = Some tenant ∧
    verify_claims_for_audience acme_published 3600 (oidc m) aud 10 "h.p.s" (mkJwks None 0) =
      (Ok claims, mkJwks (Some ([of_string "h.p.s"] : @JwkSet sample_oidc, 10)) 1) ∧
    mr_identity acme_request = identify (provider m) claims ∧ mr_org_id acme_request = tenant_id tenant ∧
    normalize_owner <$> organization (mr_identity acme_request) = Some owner ∧ owner ≠ [] ∧
    owns to_ascii_lowercase tenant owner (owner_id claims) = true ∧ mr_owner_id acme_request = owner_id claims.
Proof.
  intros table m. split; [reflexivity|].
  apply (mint_request_sound to_ascii_lowercase acme_json acme_published 3600 (λ _, []) m table 10 "h.p.s"
    (mkJwks None 0)). reflexivity.
Defined.
