(* ===== verification/AuditLog.v ===== *)
(** * Audit events

    Model of [crates/skimasque/src/audit.rs]: the record of a policy decision and
    the timestamp it carries.  The sinks write events out and are not modelled;
    a log is the list of events recorded. *)

From S2P Require Import Prelude RustStr RustNet PolicyDest PolicyUnits PolicyModel PolicyEval.

(** ** Timestamps *)

(** [{n:0width}]. *)
Definition padded (width : nat) (n : Z) : str :=
  let digits := to_string n in repeat 48 (width - length digits) ++ digits.

(** Year, month and day of a day counted from the epoch.  The quotients are those
    of Rust, truncated; every operand here is non-negative except possibly [z]. *)
Definition civil (days : Z) : Z * Z * Z :=
  let z := days + 719468 in
  let era := Z.quot (if 0 <=? z then z else z - 146096) 146097 in
  let doe := z - era * 146097 in
  let yoe := Z.quot (doe - Z.quot doe 1460 + Z.quot doe 36524 - Z.quot doe 146096) 365 in
  let doy := doe - (365 * yoe + Z.quot yoe 4 - Z.quot yoe 100) in
  let mp := Z.quot (5 * doy + 2) 153 in
  let day := doy - Z.quot (153 * mp + 2) 5 + 1 in
  let month := if mp <? 10 then mp + 3 else mp - 9 in
  let year := yoe + era * 400 + (if month <=? 2 then 1 else 0) in
  (year, month, day).

(** A [SystemTime], in nanoseconds since the epoch. *)
Definition rfc3339 (time : Z) : str :=
  let since_epoch := Z.max time 0 in
  let secs := since_epoch / 10 ^ 9 in
  let millis := since_epoch mod 10 ^ 9 / 10 ^ 6 in
  let day_secs := secs mod 86400 in
  let '(year, month, day) := civil (secs / 86400) in
  padded 4 year ++ "-" ++ padded 2 month ++ "-" ++ padded 2 day ++ "T" ++
  padded 2 (day_secs / 3600) ++ ":" ++ padded 2 (day_secs mod 3600 / 60) ++ ":" ++
  padded 2 (day_secs mod 60) ++ "." ++ padded 3 millis ++ "Z".

(** ** Events *)

Record AuditEvent : Type := mkEvent {
  timestamp : str;
  e_decision : str;
  e_protocol : str;
  e_application : str;
  e_destination : str;
  e_client : str;
  e_identity : WorkloadIdentity;
  e_policy : option str;
  e_rule : option str;
  e_reason : option str;
  e_suggested_rule : option str;
  e_requested_policy : option str;
  e_org_id : option str;
}.

Definition from_decision (now : Z) (d : Decision) (protocol app dest client : str)
    (i : WorkloadIdentity) : AuditEvent :=
  match d with
  | Allows a =>
      mkEvent (rfc3339 now) "allow" protocol app dest client i (Some (a_policy a)) (Some (a_rule a))
        None None None None
  | Denies d =>
      mkEvent (rfc3339 now) "deny" protocol app dest client i (d_policy d) None
        (Some (summary (reason d))) (Some (suggested d)) None None
  end.

(** ** The proleptic Gregorian calendar *)

Definition leap (y : Z) : bool := (y mod 4 =? 0) && (negb (y mod 100 =? 0) || (y mod 400 =? 0)).
Definition month_days (leap_year : bool) (m : Z) : Z :=
  nth (Z.to_nat (m - 1)) [31; if leap_year then 29 else 28; 31; 30; 31; 30; 31; 31; 30; 31; 30; 31] 0.
(** Days of the year before month [m]. *)
Definition days_before (leap_year : bool) (m : Z) : Z :=
  fold_right Z.add 0 (map (month_days leap_year) (map Z.of_nat (seq 1 (Z.to_nat (m - 1))))).

(** Days from the epoch to the first of January of year [y]. *)
Definition year_start (y : Z) : Z :=
  365 * (y - 1970) + ((y - 1) / 4 - (y - 1) / 100 + (y - 1) / 400) - 477.

Definition is_date (days y m d : Z) : bool :=
  (1 <=? m) && (m <=? 12) && (1 <=? d) && (d <=? month_days (leap y) m) &&
  (year_start y + days_before (leap y) m + d - 1 =? days).

(** The specification counts the days of a year and starts at the epoch. *)
Lemma year_start_next y : year_start (y + 1) = year_start y + (if leap y then 366 else 365).
Proof.
  unfold year_start, leap. replace (y + 1 - 1) with y by lia.
  destruct (Z.eqb_spec (y mod 4) 0), (Z.eqb_spec (y mod 100) 0), (Z.eqb_spec (y mod 400) 0); cbn; dm_lia.
Qed.

Lemma year_start_epoch : year_start 1970 = 0.
Proof. reflexivity. Qed.

(** The first of March, where the algorithm starts its years. *)
Definition march_start (y : Z) : Z := 365 * y + y / 4 - y / 100 + y / 400 - 719468.

Lemma march_start_year y : march_start y = year_start y + (if leap y then 60 else 59).
Proof.
  unfold march_start, year_start, leap.
  destruct (Z.eqb_spec (y mod 4) 0), (Z.eqb_spec (y mod 100) 0), (Z.eqb_spec (y mod 400) 0); cbn; dm_lia.
Qed.

Lemma march_start_next y : year_start (y + 1) = march_start y + 306.
Proof. rewrite march_start_year, year_start_next. destruct (leap y); lia. Qed.

(** The year of an era a day falls in. *)
Lemma year_of_era doe :
  0 ≤ doe < 146097 →
  let yoe := (doe - doe / 1460 + doe / 36524 - doe / 146096) / 365 in
  0 ≤ yoe < 400 ∧ 365 * yoe + yoe / 4 - yoe / 100 ≤ doe ≤ 365 * yoe + yoe / 4 - yoe / 100 + 365 ∧
  (doe = 365 * yoe + yoe / 4 - yoe / 100 + 365 → leap (yoe + 1) = true).
Proof.
  intros Hd yoe. unfold leap. rewrite andb_true_iff, orb_true_iff, negb_true_iff, !Z.eqb_eq, Z.eqb_neq.
  assert (0 ≤ doe / 146096 ≤ 1) as Hc by dm_lia.
  assert (doe / 36524 = 0 ∨ doe / 36524 = 1 ∨ doe / 36524 = 2 ∨ doe / 36524 = 3 ∨ doe / 36524 = 4)
    as Hcase by dm_lia.
  subst yoe. destruct Hcase as [H|[H|[H|[H|H]]]]; rewrite H in *; dm_lia.
Qed.

Lemma leap_era y k : leap (y + k * 400) = leap y.
Proof.
  unfold leap. replace (y + k * 400) with (y + (k * 100) * 4) at 1 by lia. rewrite Z_mod_plus_full.
  replace (y + k * 400) with (y + (k * 4) * 100) at 1 by lia. by rewrite !Z_mod_plus_full.
Qed.

Lemma march_start_era y k : 0 ≤ y < 400 →
  march_start (y + k * 400) = 365 * y + y / 4 - y / 100 + k * 146097 - 719468.
Proof.
  intros Hy. unfold march_start.
  replace (y + k * 400) with (y + (k * 100) * 4) at 2 by lia.
  replace (y + k * 400) with (y + (k * 4) * 100) at 2 by lia.
  rewrite !Z_div_plus_full by lia. rewrite (Z.div_small y 400) by lia. lia.
Qed.

(** The month and day of a day counted from the first of March. *)
Lemma month_of_year y doy :
  0 ≤ doy ≤ 365 → (doy = 365 → leap (y + 1) = true) →
  let mp := (5 * doy + 2) / 153 in
  let m := if mp <? 10 then mp + 3 else mp - 9 in
  is_date (march_start y + doy) (y + (if m <=? 2 then 1 else 0)) m (doy - (153 * mp + 2) / 5 + 1) = true.
Proof.
  intros Hd Hl mp m. assert (0 ≤ mp ≤ 11) as Hmp by (subst mp; dm_lia).
  assert (153 * mp ≤ 5 * doy + 2 < 153 * mp + 153) as Hr by (subst mp; dm_lia). clearbody mp. subst m.
  unfold is_date. rewrite !andb_true_iff, !Z.leb_le, Z.eqb_eq.
  assert (mp = 0 ∨ mp = 1 ∨ mp = 2 ∨ mp = 3 ∨ mp = 4 ∨ mp = 5 ∨ mp = 6 ∨ mp = 7 ∨ mp = 8 ∨ mp = 9 ∨
    mp = 10 ∨ mp = 11) as Hcase by lia.
  repeat destruct Hcase as [->|Hcase]; try subst mp;
    match goal with |- context [if ?k <? 10 then ?a else ?b] =>
      let v := eval vm_compute in (if k <? 10 then a else b) in
      change (if k <? 10 then a else b) with v end;
    match goal with |- context [if ?k <=? 2 then 1 else 0] =>
      let v := eval vm_compute in (if k <=? 2 then 1 else 0) in
      change (if k <=? 2 then 1 else 0) with v end;
    match goal with |- context [(153 * ?k + 2) / 5] =>
      let v := eval vm_compute in ((153 * k + 2) / 5) in change ((153 * k + 2) / 5) with v end;
    rewrite ?Z.add_0_r, ?march_start_next; try rewrite (march_start_year y);
    match goal with |- context [month_days (leap ?x) _] => destruct (leap x) eqn:? end;
    repeat match goal with
    | |- context [month_days ?b ?m] =>
        let v := eval vm_compute in (month_days b m) in change (month_days b m) with v
    | |- context [days_before ?b ?m] =>
        let v := eval vm_compute in (days_before b m) in change (days_before b m) with v
    end; lia.
Qed.

(** ** Correctness *)

(** The hand-rolled calendar is right: for every day from the epoch on (and
    back to the year zero), the year, month and day of an audit timestamp are a
    valid proleptic Gregorian date, and the date that many days from 1 January
    1970. *)
Theorem civil_correct (days : Z) :
  -719468 ≤ days → let '(y, m, d) := civil days in is_date days y m d = true.
Proof.
  intros Hd. unfold civil. rewrite (proj2 (Z.leb_le 0 _)) by lia.
  rewrite (Z.quot_div_nonneg (days + 719468)) by lia.
  set (era := (days + 719468) / 146097). set (doe := days + 719468 - era * 146097).
  assert (0 ≤ doe < 146097) as Hdoe by (subst doe era; dm_lia).
  rewrite !(Z.quot_div_nonneg doe) by lia.
  destruct (year_of_era doe Hdoe) as (Hy & Hr & Hleap). cbv zeta in *.
  rewrite (Z.quot_div_nonneg (doe - doe / 1460 + doe / 36524 - doe / 146096)) by dm_lia.
  set (yoe := (doe - doe / 1460 + doe / 36524 - doe / 146096) / 365) in *.
  rewrite !(Z.quot_div_nonneg yoe) by lia.
  set (doy := doe - (365 * yoe + yoe / 4 - yoe / 100)) in *.
  assert (0 ≤ doy ≤ 365) as Hdoy by (subst doy; lia).
  rewrite (Z.quot_div_nonneg (5 * doy + 2)) by lia.
  rewrite (Z.quot_div_nonneg (153 * ((5 * doy + 2) / 153) + 2)) by dm_lia.
  pose proof (month_of_year (yoe + era * 400) doy Hdoy) as Hm. cbv zeta in Hm.
  rewrite march_start_era in Hm by done.
  replace (365 * yoe + yoe / 4 - yoe / 100 + era * 146097 - 719468 + doy) with days in Hm
    by (subst doy doe; lia).
  apply Hm. intros H365. replace (yoe + era * 400 + 1) with (yoe + 1 + era * 400) by lia.
  rewrite leap_era. apply Hleap. subst doy. lia.
Qed.

Lemma civil_correct_witness : civil 20703 = (2026, 9, 7) ∧ is_date 20703 2026 9 7 = true.
Proof. split; [by vm_compute|]. apply (civil_correct 20703). lia. Defined.
