(* ===== verification/AuditChain.v ===== *)
(** * The audit chain

    Model of the audit shipping of [crates/skimasque-cli/src/audit_ship.rs] and
    [platform.rs] with the chain of [crates/skimasque-protocol/src/lib.rs].  Every
    decision is recorded locally and queued; a task numbers the queued events,
    links each to the one before by a hash, and posts them in batches.

    SHA-256 is a parameter, and so are the printing of an event as JSON and the
    control plane: of that only what the protocol document says is used, that it
    recomputes the links, stores a batch that continues its chain and refuses one
    that does not, and tells the tail of its chain when asked. *)

From S2P Require Import Prelude RustStr RustNet PolicyModel AuditLog.

(** ** Links *)

Definition AUDIT_GENESIS : str := repeat 48 64.

Record AuditHead : Type := mkHead { head_seq : Z; head_hash : str }.
Definition genesis : AuditHead := mkHead 0 AUDIT_GENESIS.

Record ChainedAuditEvent : Type := mkChained {
  ch_seq : Z;
  ch_prev_hash : str;
  event_json : str;
}.
Record PlatformAuditEvent : Type := mkPlatformEvent {
  pe_org_id : str;
  pe_seq : Z;
  pe_prev_hash : str;
  pe_event_json : str;
}.
(** The link inside a platform event. *)
Definition pe_link (e : PlatformAuditEvent) : ChainedAuditEvent :=
  mkChained (pe_seq e) (pe_prev_hash e) (pe_event_json e).

Definition hex_byte (b : Z) : str := [hex_digit (Z.shiftr b 4); hex_digit (Z.land b 0x0f)].

Section chain.
Context (sha256 : list Z → list Z).
Context (to_json : AuditEvent → str).

Definition audit_hash (seq : Z) (prev_hash event_json : str) : str :=
  flat_map hex_byte (sha256 (be_bytes 8 seq ++ as_bytes prev_hash ++ as_bytes event_json)).

(** [chain_with]: an event [make] declines takes no number and no link. *)
Fixpoint chain_with {T} (make : AuditEvent → Z → str → str → option T) (events : list AuditEvent) (seq : Z)
    (hash : str) : list T * str :=
  match events with
  | [] => ([], hash)
  | event :: events =>
      let json := to_json event in
      match make event seq hash json with
      | Some item =>
          let '(batch, tail) := chain_with make events (seq + 1) (audit_hash seq hash json) in
          (item :: batch, tail)
      | None => chain_with make events seq hash
      end
  end.

Definition chain_batch : list AuditEvent → Z → str → list ChainedAuditEvent * str :=
  chain_with (λ _ seq prev_hash json, Some (mkChained seq prev_hash json)).

Definition chain_platform_batch : list AuditEvent → Z → str → list PlatformAuditEvent * str :=
  chain_with (λ event seq prev_hash json, org ← e_org_id event; Some (mkPlatformEvent org seq prev_hash json)).

Definition BATCH_MAX : nat := 256.
Definition MAX_PENDING : nat := Z.to_nat 10000.
Definition AUDIT_BUFFER : nat := 4096.

Record PlatformBatch : Type := mkPlatformBatch {
  pb_events : list PlatformAuditEvent;
  tail_hash : str;
  pb_next_seq : Z;
  taken : nat;
}.
Definition platform_batch (pending : list AuditEvent) (next_seq : Z) (prev_hash : str) : PlatformBatch :=
  let taken := Nat.min (length pending) BATCH_MAX in
  let '(events, tail_hash) := chain_platform_batch (take taken pending) next_seq prev_hash in
  mkPlatformBatch events tail_hash (next_seq + Z.of_nat (length events)) taken.

Definition admit_platform_event (pending : list AuditEvent) (event : AuditEvent) : bool * list AuditEvent :=
  match e_org_id event with
  | None => (false, pending)
  | Some _ => (true, pending ++ [event])
  end.

(** What the control plane does with a chain: recompute it from a head. *)
Fixpoint recompute (head : AuditHead) (batch : list ChainedAuditEvent) : option AuditHead :=
  match batch with
  | [] => Some head
  | e :: batch =>
      if (ch_seq e =? head_seq head + 1) && str_eqb (ch_prev_hash e) (head_hash head)
      then recompute (mkHead (ch_seq e) (audit_hash (ch_seq e) (ch_prev_hash e) (event_json e))) batch
      else None
  end.

(** ** The shipping loop

    Both tasks run the same loop.  [admits] is which events they ship: all of
    them on a single organisation's gateway, those that name an organisation on a
    shared one ([admit_platform_event]). *)

Context (admits : AuditEvent → bool).

(** Filling a batch, waiting for the answer to one, or draining the queue after a
    failure. *)
Inductive Phase : Type := Filling | Posted | Backlog.

(** [queue] is the bounded channel, [local] what the local sink holds, [persisted]
    the file at [chain_path].  [queued] and [acked] are history: the events the
    channel took, and those of the batches that were acknowledged. *)
Record Shipper : Type := mkShipper {
  phase : Phase;
  next_seq : Z;
  prev_hash : str;
  pending : list AuditEvent;
  queue : list AuditEvent;
  local : list AuditEvent;
  queued : list AuditEvent;
  acked : list AuditEvent;
  persisted : option AuditHead;
}.

Definition resume_from (fetched file : option AuditHead) : AuditHead :=
  match fetched, file with
  | Some head, _ => head
  | None, Some head => head
  | None, None => genesis
  end.
Definition start_shipper (head : AuditHead) (file : option AuditHead) : Shipper :=
  mkShipper Filling (head_seq head + 1) (head_hash head) [] [] [] [] [] file.

(** [ControlPlaneAuditSink::record]. *)
Definition record (e : AuditEvent) (s : Shipper) : Shipper :=
  let room := (length (queue s) <? AUDIT_BUFFER)%nat in
  mkShipper (phase s) (next_seq s) (prev_hash s) (pending s) (if room then queue s ++ [e] else queue s)
    (local s ++ [e]) (if room then queued s ++ [e] else queued s) (acked s) (persisted s).

Definition pull (s : Shipper) (e : AuditEvent) (q : list AuditEvent) : Shipper :=
  mkShipper (phase s) (next_seq s) (prev_hash s) (if admits e then pending s ++ [e] else pending s) q (local s) (queued s) (acked s) (persisted s).
Definition set_phase (p : Phase) (s : Shipper) : Shipper :=
  mkShipper p (next_seq s) (prev_hash s) (pending s) (queue s) (local s) (queued s) (acked s) (persisted s).

Definition batch_len (s : Shipper) : nat := Nat.min (length (pending s)) BATCH_MAX.
Definition batch_of (s : Shipper) : list ChainedAuditEvent * str :=
  chain_batch (take (batch_len s) (pending s)) (next_seq s) (prev_hash s).

Definition shipped (s : Shipper) : Shipper :=
  let next := next_seq s + Z.of_nat (batch_len s) in
  let tail := (batch_of s).2 in
  mkShipper Filling next tail (drop (batch_len s) (pending s)) (queue s) (local s) (queued s)
    (acked s ++ take (batch_len s) (pending s)) (Some (mkHead (next - 1) tail)).
Definition rebase (head : AuditHead) (s : Shipper) : Shipper :=
  mkShipper Filling (head_seq head + 1) (head_hash head) (pending s) (queue s) (local s) (queued s) (acked s)
    (persisted s).
(** The end of the backlog branch: the oldest beyond [MAX_PENDING] would go. *)
Definition trim_backlog (s : Shipper) : Shipper :=
  mkShipper Filling (next_seq s) (prev_hash s) (drop (length (pending s) - MAX_PENDING) (pending s)) (queue s)
    (local s) (queued s) (acked s) (persisted s).

(** The system: the shipper and the chain the control plane holds.  A post is
    stored only if it continues the chain; the answer to a stored post may be
    lost, a post may fail without being stored, and a refusal is followed by the
    tail of the stored chain. *)
Definition stored_head (stored : list ChainedAuditEvent) : option AuditHead := recompute genesis stored.

Inductive ship_step : Shipper * list ChainedAuditEvent → Shipper * list ChainedAuditEvent → Prop :=
  | step_record e s c : ship_step (s, c) (record e s, c)
  | step_fill e q s c :
      phase s = Filling → (length (pending s) < BATCH_MAX)%nat → queue s = e :: q →
      ship_step (s, c) (pull s e q, c)
  | step_post s c :
      phase s = Filling → pending s ≠ [] → ship_step (s, c) (set_phase Posted s, c)
  | step_acked s c head :
      phase s = Posted → stored_head c = Some head → is_Some (recompute head (batch_of s).1) →
      ship_step (s, c) (shipped s, c ++ (batch_of s).1)
  | step_lost s c head :
      phase s = Posted → stored_head c = Some head → is_Some (recompute head (batch_of s).1) →
      ship_step (s, c) (set_phase Backlog s, c ++ (batch_of s).1)
  | step_failed s c : phase s = Posted → ship_step (s, c) (set_phase Backlog s, c)
  | step_conflict s c head :
      phase s = Posted → stored_head c = Some head → ship_step (s, c) (rebase head s, c)
  | step_backlog e q s c :
      phase s = Backlog → (length (pending s) < MAX_PENDING)%nat → queue s = e :: q →
      ship_step (s, c) (pull s e q, c)
  | step_retry s c : phase s = Backlog → ship_step (s, c) (trim_backlog s, c).

(** ** A batch continues its chain *)

Lemma chain_batch_cons e evs seq h :
  chain_batch (e :: evs) seq h =
    let '(b, tail) := chain_batch evs (seq + 1) (audit_hash seq h (to_json e)) in
    (mkChained seq h (to_json e) :: b, tail).
Proof. done. Qed.

Lemma chain_batch_recompute evs seq h :
  recompute (mkHead (seq - 1) h) (chain_batch evs seq h).1 =
    Some (mkHead (seq - 1 + Z.of_nat (length evs)) (chain_batch evs seq h).2).
Proof.
  revert seq h. induction evs as [|e evs IH]; intros seq h; [cbn; by rewrite Z.add_0_r|].
  rewrite chain_batch_cons. specialize (IH (seq + 1) (audit_hash seq h (to_json e))).
  destruct (chain_batch evs _ _) as [b tail]. cbn [fst snd] in *. cbn [recompute ch_seq ch_prev_hash head_seq head_hash event_json].
  rewrite Z.sub_add, Z.eqb_refl. unfold str_eqb. rewrite bool_decide_eq_true_2 by done. cbn [andb].
  rewrite Z.add_simpl_r in IH. rewrite IH. do 2 f_equal. cbn [length]. lia.
Qed.

Lemma chain_batch_json evs seq h : map event_json (chain_batch evs seq h).1 = map to_json evs.
Proof.
  revert seq h. induction evs as [|e evs IH]; intros seq h; [done|]. rewrite chain_batch_cons.
  specialize (IH (seq + 1) (audit_hash seq h (to_json e))). destruct (chain_batch evs _ _) as [b tail].
  cbn in *. by rewrite IH.
Qed.

Lemma chain_batch_seqs evs seq h : map ch_seq (chain_batch evs seq h).1 = seqZ seq (Z.of_nat (length evs)).
Proof.
  revert seq h. induction evs as [|e evs IH]; intros seq h; [done|]. rewrite chain_batch_cons.
  specialize (IH (seq + 1) (audit_hash seq h (to_json e))). destruct (chain_batch evs _ _) as [b tail].
  cbn [fst map ch_seq length] in *. rewrite IH, Nat2Z.inj_succ, (seqZ_cons seq) by lia.
  by rewrite Z.pred_succ, Z.add_1_r.
Qed.

Lemma recompute_app head b b' :
  recompute head (b ++ b') = head' ← recompute head b; recompute head' b'.
Proof.
  revert head. induction b as [|e b IH]; intros head; [done|]. cbn [recompute app].
  destruct (_ && _); [apply IH|done].
Qed.

(** A batch that is not empty continues one head only. *)
Lemma recompute_head head evs seq h :
  evs ≠ [] → is_Some (recompute head (chain_batch evs seq h).1) → head = mkHead (seq - 1) h.
Proof.
  destruct evs as [|e evs]; [done|]. intros _ [head' H]. rewrite chain_batch_cons in H.
  destruct (chain_batch evs _ _) as [b tail]. cbn in H. destruct (Z.eqb_spec seq (head_seq head + 1)); [|done].
  unfold str_eqb in H. case_bool_decide; [|done]. destruct head as [hs hh]. cbn in *. subst. f_equal. lia.
Qed.

(** ** The shipping invariant *)

Definition ship_inv (st : Shipper * list ChainedAuditEvent) : Prop :=
  let '(s, c) := st in
  List.filter admits (queued s) = acked s ++ pending s ++ List.filter admits (queue s) ∧
  sublist (queued s) (local s) ∧
  (length (pending s) ≤ MAX_PENDING)%nat ∧ (length (queue s) ≤ AUDIT_BUFFER)%nat ∧
  (phase s ≠ Filling → pending s ≠ []) ∧ is_Some (stored_head c) ∧
  (∃ pre post, c = pre ++ post ∧ stored_head pre = Some (mkHead (next_seq s - 1) (prev_hash s))) ∧
  sublist (map to_json (acked s)) (map event_json c).

Lemma BATCH_MAX_le : (0 < BATCH_MAX ≤ MAX_PENDING)%nat.
Proof. unfold BATCH_MAX, MAX_PENDING. lia. Qed.

Lemma batch_json s : map event_json (batch_of s).1 = map to_json (take (batch_len s) (pending s)).
Proof. apply chain_batch_json. Qed.

Lemma batch_nonempty s : pending s ≠ [] → take (batch_len s) (pending s) ≠ [].
Proof.
  intros Hp. pose proof BATCH_MAX_le. unfold batch_len. destruct (pending s) as [|e l]; [done|].
  cbn [length]. destruct (Nat.min _ _) eqn:Hm; [lia|done].
Qed.

(** A stored batch moves the tail of the chain to the batch's own tail. *)
Lemma stored_batch s c head :
  pending s ≠ [] → stored_head c = Some head → is_Some (recompute head (batch_of s).1) →
  head = mkHead (next_seq s - 1) (prev_hash s) ∧
  stored_head (c ++ (batch_of s).1) = Some (mkHead (next_seq s + Z.of_nat (batch_len s) - 1) (batch_of s).2).
Proof.
  intros Hp Hc Hr. assert (head = mkHead (next_seq s - 1) (prev_hash s)) as ->
    by (eapply recompute_head; [by apply batch_nonempty|done]).
  split; [done|]. unfold stored_head in *. rewrite recompute_app, Hc. bind_simpl. unfold batch_of.
  rewrite chain_batch_recompute, length_take_le by (unfold batch_len; lia). do 2 f_equal. lia.
Qed.

(** The fields of a shipper that was just built. *)
Ltac ship_fields := cbn [phase next_seq prev_hash pending queue local queued acked persisted set_phase].

(** What each turn does to the invariant. *)
Lemma record_inv e s c : ship_inv (s, c) → ship_inv (record e s, c).
Proof.
  intros (Hq & Hl & Hp & Hb & Hph & Hc & Hbel & Ha). unfold record.
  destruct (Nat.ltb_spec (length (queue s)) AUDIT_BUFFER); unfold ship_inv; ship_fields.
  - rewrite length_app, !List.filter_app, Hq, <- !app_assoc. split_and!; try done; [by apply sublist_app|cbn; lia].
  - split_and!; try done. by apply sublist_inserts_r.
Qed.

Lemma pull_inv e q s c :
  queue s = e :: q → (length (pending s) < MAX_PENDING)%nat → ship_inv (s, c) → ship_inv (pull s e q, c).
Proof.
  intros Hqq Hlt (Hq & Hl & Hp & Hb & Hph & Hc & Hbel & Ha). unfold pull, ship_inv. ship_fields. rewrite Hqq in Hq, Hb.
  cbn [length List.filter] in Hq, Hb. destruct (admits e); split_and!; try done; try lia.
  - by rewrite Hq, <- !app_assoc.
  - rewrite length_app. cbn. lia.
  - intros _. by destruct (pending s).
Qed.

Lemma shipped_inv s c head :
  pending s ≠ [] → stored_head c = Some head → is_Some (recompute head (batch_of s).1) →
  ship_inv (s, c) → ship_inv (shipped s, c ++ (batch_of s).1).
Proof.
  intros Hne Hh Hr (Hq & Hl & Hp & Hb & Hph & Hc & Hbel & Ha).
  destruct (stored_batch s c head Hne Hh Hr) as [_ Hst]. unfold shipped, ship_inv. ship_fields.
  split_and!; try done.
  - by rewrite Hq, <- !app_assoc, (app_assoc (take _ _)), take_drop.
  - rewrite length_drop. lia.
  - exists (c ++ (batch_of s).1), []. by rewrite app_nil_r.
  - rewrite !map_app, batch_json. by apply sublist_app.
Qed.

Lemma lost_inv s c head :
  pending s ≠ [] → stored_head c = Some head → is_Some (recompute head (batch_of s).1) →
  ship_inv (s, c) → ship_inv (set_phase Backlog s, c ++ (batch_of s).1).
Proof.
  intros Hne Hh Hr (Hq & Hl & Hp & Hb & Hph & Hc & (pre & post & -> & Hpre) & Ha).
  destruct (stored_batch _ _ _ Hne Hh Hr) as [_ Hst]. unfold ship_inv. ship_fields.
  split_and!; try done.
  - exists pre, (post ++ (batch_of s).1). by rewrite app_assoc.
  - rewrite map_app. by apply sublist_inserts_r.
Qed.

Lemma ship_step_inv st st' : ship_step st st' → ship_inv st → ship_inv st'.
Proof.
  intros Hst Hi. destruct Hst as [e s c|e q s c Hf Hlt Hq|s c Hf Hne|s c head Hf Hh Hr|s c head Hf Hh Hr|s c Hf|s c head Hf Hh|e q s c Hf Hlt Hq|s c Hf].
  - by apply record_inv.
  - pose proof BATCH_MAX_le. apply pull_inv; [done|lia|done].
  - destruct Hi as (?&?&?&?&?&?&?&?). by repeat split.
  - eapply shipped_inv; [|done..]. apply Hi. by rewrite Hf.
  - eapply lost_inv; [|done..]. apply Hi. by rewrite Hf.
  - destruct Hi as (?&?&?&?&Hph&?&?&?). split_and!; try done. intros _. apply Hph. by rewrite Hf.
  - destruct Hi as (?&?&?&?&?&?&?&?). unfold rebase, ship_inv. ship_fields. split_and!; try done.
    exists c, []. rewrite app_nil_r, Hh. split; [done|]. destruct head. cbn. do 2 f_equal. lia.
  - by apply pull_inv.
  - destruct Hi as (Hq&?&Hp&?&Hph&?&?&?). unfold trim_backlog, ship_inv. ship_fields.
    replace (length (pending s) - MAX_PENDING)%nat with 0%nat by lia. by split_and!.
Qed.

Lemma ship_run_inv st st' : rtc ship_step st st' → ship_inv st → ship_inv st'.
Proof. induction 1 as [|? ? ? Hs _ IH]; [done|]. eauto using ship_step_inv. Qed.

Lemma start_inv c pre post head file :
  c = pre ++ post → stored_head pre = Some head → is_Some (stored_head c) → ship_inv (start_shipper head file, c).
Proof.
  intros -> Hpre Hc. unfold ship_inv, start_shipper. ship_fields.
  split_and!; try done; try (cbn; lia); [|apply sublist_nil_l].
  exists pre, post. split; [done|]. rewrite Hpre. destruct head. cbn. do 2 f_equal. lia.
Qed.

(** Nothing the channel took is lost or reordered on its way to the control
    plane.  Wherever the task resumes on the stored chain, and whatever posts
    fail, are answered or are refused meanwhile, the events the channel took and
    the task ships are, in order, those acknowledged, those pending and those
    still queued; all of them are in the local sink; the acknowledged ones stand in the stored chain in
    that order; the chain recomputes from its first event; and the pending list
    stays within its bound without ever dropping an event. *)
Theorem audit_shipping_complete (pre post : list ChainedAuditEvent) (head : AuditHead) (file : option AuditHead)
    (s : Shipper) (c : list ChainedAuditEvent) :
  stored_head pre = Some head → is_Some (stored_head (pre ++ post)) →
  rtc ship_step (start_shipper head file, pre ++ post) (s, c) →
  List.filter admits (queued s) = acked s ++ pending s ++ List.filter admits (queue s) ∧
  sublist (queued s) (local s) ∧
  sublist (map to_json (acked s)) (map event_json c) ∧ is_Some (stored_head c) ∧
  (length (pending s) ≤ MAX_PENDING)%nat ∧ pending (trim_backlog s) = pending s.
Proof.
  intros Hh Hc Hrun. apply ship_run_inv in Hrun as (Hq & Hl & Hp & _ & _ & Hs & _ & Ha); [|by eapply start_inv].
  split_and!; try done. unfold trim_backlog. ship_fields.
  by replace (length (pending s) - MAX_PENDING)%nat with 0%nat by lia.
Qed.

(** A task that has just learnt the tail of the chain posts a batch that
    continues it. *)
Lemma rebased_ships s c head :
  phase s = Filling → pending s ≠ [] → stored_head c = Some head →
  next_seq s = head_seq head + 1 → prev_hash s = head_hash head →
  rtc ship_step (s, c) (shipped (set_phase Posted s), c ++ (batch_of s).1).
Proof.
  intros Hf Hne Hh Hseq Hhash. eapply rtc_l; [by apply step_post|].
  apply rtc_once, (step_acked (set_phase Posted s) c head); [done|done|]. unfold batch_of. ship_fields. rewrite Hseq, Hhash.
  replace head with (mkHead (head_seq head + 1 - 1) (head_hash head)) at 1 by (destruct head; cbn; f_equal; lia).
  by rewrite chain_batch_recompute.
Qed.

Lemma rebase_ships s c head :
  phase s = Filling → pending s ≠ [] → stored_head c = Some head →
  ∃ s' c', rtc ship_step (s, c) (s', c') ∧ acked s' = acked s ++ take (batch_len s) (pending s).
Proof.
  intros Hf Hne Hh. set (s1 := rebase head (set_phase Posted s)).
  exists (shipped (set_phase Posted s1)), (c ++ (batch_of s1).1). split; [|done].
  eapply rtc_l; [by apply step_post|]. eapply rtc_l; [by apply step_conflict|].
  by apply (rebased_ships s1 c head).
Qed.

(** Shipping always recovers: from every state the task can reach, whatever
    was lost before and however wrong its idea of the chain, there is a way on in
    which the control plane takes the batch at the front of the pending list;
    a refusal tells the task the tail it needs, and it never gets stuck. *)
Theorem audit_shipping_recovers (pre post : list ChainedAuditEvent) (head : AuditHead) (file : option AuditHead)
    (s : Shipper) (c : list ChainedAuditEvent) :
  stored_head pre = Some head → is_Some (stored_head (pre ++ post)) →
  rtc ship_step (start_shipper head file, pre ++ post) (s, c) → pending s ≠ [] →
  ∃ s' c', rtc ship_step (s, c) (s', c') ∧ acked s' = acked s ++ take (batch_len s) (pending s).
Proof.
  intros Hh Hc Hrun Hne. apply ship_run_inv in Hrun as (_ & _ & Hp & _ & _ & [h Hs] & _ & _); [|by eapply start_inv].
  destruct (phase s) eqn:Hf; [by eapply rebase_ships| |].
  - destruct (rebase_ships (rebase h s) c h) as (s' & c' & Hr & Ha); [done..|].
    exists s', c'. split; [|done]. eapply rtc_l; [by apply step_conflict|done].
  - assert (pending (trim_backlog s) = pending s) as Htrim.
    { unfold trim_backlog. ship_fields. by replace (length (pending s) - MAX_PENDING)%nat with 0%nat by lia. }
    destruct (rebase_ships (trim_backlog s) c h) as (s' & c' & Hr & Ha); [done|by rewrite Htrim|done|].
    exists s', c'. split; [eapply rtc_l; [by apply step_retry|done]|].
    rewrite Ha. unfold batch_len. by rewrite Htrim.
Qed.

(** ** Platform batches *)

Definition has_org (e : AuditEvent) : bool := is_some (e_org_id e).

Lemma admit_platform_spec pending e :
  admit_platform_event pending e = (has_org e, if has_org e then pending ++ [e] else pending).
Proof. unfold admit_platform_event, has_org. by destruct (e_org_id e). Qed.

Lemma chain_platform_cons e evs seq h :
  chain_platform_batch (e :: evs) seq h =
    match e_org_id e with
    | Some org =>
        let '(b, tail) := chain_platform_batch evs (seq + 1) (audit_hash seq h (to_json e)) in
        (mkPlatformEvent org seq h (to_json e) :: b, tail)
    | None => chain_platform_batch evs seq h
    end.
Proof. unfold chain_platform_batch. cbn [chain_with]. by destruct (e_org_id e). Qed.

(** The links of a platform batch are those of the events it ships. *)
Lemma platform_links evs seq h :
  map pe_link (chain_platform_batch evs seq h).1 = (chain_batch (List.filter has_org evs) seq h).1 ∧
  (chain_platform_batch evs seq h).2 = (chain_batch (List.filter has_org evs) seq h).2 ∧
  map (λ p, (pe_org_id p, pe_event_json p)) (chain_platform_batch evs seq h).1 =
    omap (λ e, org ← e_org_id e; Some (org, to_json e)) evs.
Proof.
  revert seq h. induction evs as [|e evs IH]; intros seq h; [done|].
  rewrite chain_platform_cons. cbn [List.filter omap list_omap]. replace (has_org e) with (is_some (e_org_id e)) by done.
  destruct (e_org_id e) as [org|]; [|apply IH]. cbn [is_some]. rewrite chain_batch_cons.
  destruct (IH (seq + 1) (audit_hash seq h (to_json e))) as (H1 & H2 & H3).
  destruct (chain_platform_batch evs _ _) as [b tail], (chain_batch (List.filter has_org evs) _ _) as [b' tail'].
  cbn in *. by rewrite H1, H2, H3.
Qed.

(** A shared gateway's audit trail is one unbroken chain in which every event
    is filed under its own organisation: a batch holds, in order, exactly the
    events among those it takes that name an organisation, each with that
    organisation; the numbers run on without a gap whatever was skipped, and the
    batch continues the chain from the head it was built on to its own tail. *)
Theorem platform_batch_tagged (events : list AuditEvent) (seq : Z) (h : str) :
  let b := platform_batch events seq h in
  map (λ p, (pe_org_id p, pe_event_json p)) (pb_events b) =
    omap (λ e, org ← e_org_id e; Some (org, to_json e)) (take (taken b) events) ∧
  map pe_seq (pb_events b) = seqZ seq (Z.of_nat (length (pb_events b))) ∧
  recompute (mkHead (seq - 1) h) (map pe_link (pb_events b)) = Some (mkHead (pb_next_seq b - 1) (tail_hash b)).
Proof.
  unfold platform_batch. set (n := Nat.min _ _).
  destruct (platform_links (take n events) seq h) as (H1 & H2 & H3).
  destruct (chain_platform_batch (take n events) seq h) as [b tail] eqn:Hb. cbn [fst snd] in *.
  cbn [pb_events taken pb_next_seq tail_hash]. split; [done|].
  assert (length b = length (List.filter has_org (take n events))) as Hlen.
  { rewrite <- (length_map pe_link), H1, <- (length_map event_json), chain_batch_json. by rewrite length_map. }
  split.
  - replace (map pe_seq b) with (map ch_seq (map pe_link b)) by (by rewrite map_map). rewrite H1, Hlen. apply chain_batch_seqs.
  - rewrite H1, chain_batch_recompute, <- H2, Hlen. do 2 f_equal. lia.
Qed.

(** ** Tampering shows *)

Lemma recompute_snoc head c e head' :
  recompute head (c ++ [e]) = Some head' ↔
  ∃ h, recompute head c = Some h ∧ ch_seq e = head_seq h + 1 ∧ ch_prev_hash e = head_hash h ∧
    head' = mkHead (ch_seq e) (audit_hash (ch_seq e) (ch_prev_hash e) (event_json e)).
Proof.
  rewrite recompute_app. destruct (recompute head c) as [h|]; cbn.
  - destruct (Z.eqb_spec (ch_seq e) (head_seq h + 1)); cbn.
    + unfold str_eqb. case_bool_decide.
      * split; [intros [= <-]; eauto|]. by intros (h' & [= <-] & _ & _ & ->).
      * split; [done|]. by intros (h' & [= <-] & _ & ? & _).
    + split; [done|]. by intros (h' & [= <-] & ? & _).
  - split; [done|]. by intros (h' & ? & _).
Qed.

Lemma recompute_seq head c head' :
  recompute head c = Some head' → head_seq head' = head_seq head + Z.of_nat (length c).
Proof.
  revert head'. induction c as [|e c IH] using rev_ind; intros head' H; [cbn in *; injection H as <-; lia|].
  apply recompute_snoc in H as (h & Hh & Hs & _ & ->). cbn. rewrite length_app, Hs, (IH _ Hh). cbn. lia.
Qed.

Context (sha_bytes : ∀ x, bytes_ok (sha256 x)) (sha_len : ∀ x, length (sha256 x) = 32%nat).

Definition hash_like (h : str) : Prop := Forall is_ascii h ∧ length h = 64%nat.

Lemma hash_like_genesis : hash_like AUDIT_GENESIS.
Proof. split; [|done]. unfold AUDIT_GENESIS. apply Forall_forall. intros c ->%list_elem_of_In%repeat_spec. done. Qed.

Lemma hex_digit_ascii d : 0 ≤ d < 16 → 0 ≤ hex_digit d < 128.
Proof. intros Hd. unfold hex_digit. cmp_cases. Qed.

Lemma byte_nibbles b : is_byte b → 0 ≤ Z.shiftr b 4 < 16 ∧ 0 ≤ Z.land b 0x0f < 16 ∧ b = Z.shiftr b 4 * 16 + Z.land b 0x0f.
Proof.
  intros Hb. rewrite Z.shiftr_div_pow2 by lia. change 0x0f with (Z.ones 4). rewrite Z.land_ones by lia.
  unfold is_byte in Hb. change (2 ^ 4) with 16. dm_lia.
Qed.

Lemma hex_digit_inj d d' : 0 ≤ d < 16 → 0 ≤ d' < 16 → hex_digit d = hex_digit d' → d = d'.
Proof. intros Hd Hd'. unfold hex_digit. cmp_cases. Qed.

Lemma hex_bytes_inj bs bs' :
  bytes_ok bs → bytes_ok bs' → flat_map hex_byte bs = flat_map hex_byte bs' → bs = bs'.
Proof.
  intros Hbs. revert bs'. induction Hbs as [|b bs Hb Hbs IH]; intros [|b' bs'] Hbs' H; try done.
  apply Forall_cons in Hbs' as [Hb' Hbs']. cbn [flat_map hex_byte app] in H. injection H as H1 H2 H.
  apply byte_nibbles in Hb as (? & ? & Hb), Hb' as (? & ? & Hb'). f_equal; [|by apply IH].
  apply hex_digit_inj in H1, H2; [|done..]. rewrite Hb, Hb', H1, H2. done.
Qed.

Lemma hash_like_audit_hash seq prev json : hash_like (audit_hash seq prev json).
Proof.
  unfold audit_hash. generalize (be_bytes 8 seq ++ as_bytes prev ++ as_bytes json) as x. intros x.
  split.
  - specialize (sha_bytes x). induction sha_bytes as [|b bs Hb _ IH]; [constructor|]. cbn.
    apply byte_nibbles in Hb as (? & ? & _). repeat constructor; try done; by apply hex_digit_ascii.
  - rewrite <- (Nat.mul_1_r 64), <- (Nat.mul_1_l 1). specialize (sha_len x). revert sha_len. generalize (sha256 x) as l.
    intros l Hl. assert (length (flat_map hex_byte l) = 2 * length l)%nat as -> by (clear; induction l; cbn; lia).
    by rewrite Hl.
Qed.

Lemma recompute_hash_like head c head' :
  hash_like (head_hash head) → recompute head c = Some head' → hash_like (head_hash head').
Proof.
  intros Hh. destruct c as [|e c _] using rev_ind; [by intros [= <-]|].
  intros (h & _ & _ & _ & ->)%recompute_snoc. apply hash_like_audit_hash.
Qed.


(** Equal links come from equal events, or exhibit a collision. *)
Definition collision : Prop := ∃ x y, x ≠ y ∧ sha256 x = sha256 y.

Lemma app_eq_length {A} (a b a' b' : list A) : length a = length a' → a ++ b = a' ++ b' → a = a' ∧ b = b'.
Proof. intros Hl H. by apply app_inj_1. Qed.

Lemma audit_hash_inj seq prev json seq' prev' json' :
  0 ≤ seq < 2 ^ 64 → 0 ≤ seq' < 2 ^ 64 → hash_like prev → hash_like prev' → chars_ok json → chars_ok json' →
  audit_hash seq prev json = audit_hash seq' prev' json' →
  (seq = seq' ∧ prev = prev' ∧ json = json') ∨ collision.
Proof.
  intros Hs Hs' [Hp Hl] [Hp' Hl'] Hj Hj' H. unfold audit_hash in H. apply hex_bytes_inj in H; [|apply sha_bytes..].
  destruct (decide (be_bytes 8 seq ++ as_bytes prev ++ as_bytes json =
                    be_bytes 8 seq' ++ as_bytes prev' ++ as_bytes json')) as [He|Hne]; [left|right; by eexists _, _].
  apply app_eq_length in He as [Hse He]; [|by rewrite !length_be_bytes].
  rewrite !(as_bytes_ascii prev), !(as_bytes_ascii prev') in He by done.
  apply app_eq_length in He as [Hpe He]; [|by rewrite Hl, Hl'].
  split_and!; [|done|by apply as_bytes_inj].
  apply (f_equal from_be_bytes) in Hse. rewrite !from_be_be_bytes_small in Hse by done. done.
Qed.

(** The stored chain cannot be rewritten unnoticed: two histories that
    recompute to the same head (its number and its hash) are the same events with
    the same numbers and links, in the same order, or they exhibit two inputs on
    which SHA-256 collides. *)
Theorem audit_tamper_evident (c c' : list ChainedAuditEvent) (head : AuditHead) :
  stored_head c = Some head → stored_head c' = Some head →
  Forall (λ e, chars_ok (event_json e)) c → Forall (λ e, chars_ok (event_json e)) c' →
  Z.of_nat (length c) < 2 ^ 64 → c = c' ∨ collision.
Proof.
  unfold stored_head. revert c' head. induction c as [|e c IH] using rev_ind; intros c' head H H' Hj Hj' Hn.
  - apply recompute_seq in H, H'. cbn in H, H'. left. destruct c'; [done|cbn in *; lia].
  - pose proof (recompute_seq _ _ _ H) as Hlen. pose proof (recompute_seq _ _ _ H') as Hlen'.
    destruct c' as [|e' c' _] using rev_ind; [rewrite length_app in Hlen; cbn in *; lia|].
    apply Forall_app in Hj as [Hj [Hje _]%Forall_cons], Hj' as [Hj' [Hje' _]%Forall_cons].
    apply recompute_snoc in H as (h & Hh & Hs & Hp & ->), H' as (h' & Hh' & Hs' & Hp' & Hhead).
    injection Hhead as Hseq Hhash. rewrite !length_app in *. cbn in Hlen, Hlen', Hn.
    pose proof (recompute_hash_like genesis _ _ hash_like_genesis Hh) as Hlk.
    pose proof (recompute_hash_like genesis _ _ hash_like_genesis Hh') as Hlk'. rewrite <- Hp in Hlk. rewrite <- Hp' in Hlk'.
    destruct (audit_hash_inj (ch_seq e) (ch_prev_hash e) (event_json e) (ch_seq e') (ch_prev_hash e') (event_json e'))
      as [(_ & Hpe & Hje2)|?]; [lia|lia|done|done|done|done|done| |by right].
    assert (e = e') as -> by (destruct e, e'; cbn in *; congruence).
    assert (h' = h) as -> by (destruct h, h'; cbn in *; f_equal; [lia|congruence]).
    destruct (IH c' h Hh Hh' Hj Hj') as [->|?]; [lia|by left|by right].
Qed.
End chain.

(** ** Shipping at work *)

(** A stand-in digest: the first 32 bytes of its input. *)
Definition sample_sha (x : list Z) : list Z := take 32 (map (λ b, b mod 256) x ++ repeat 0 32).
Lemma sample_sha_bytes x : bytes_ok (sample_sha x).
Proof.
  apply Forall_take, Forall_app. split.
  - apply Forall_forall. intros b Hb. apply list_elem_of_In, in_map_iff in Hb as (y & <- & _). by apply Z.mod_pos_bound.
  - by_decide.
Qed.
Lemma sample_sha_len x : length (sample_sha x) = 32%nat.
Proof. unfold sample_sha. apply length_take_le. rewrite length_app, repeat_length. lia. Qed.

Definition sample_event (org : option str) (app : str) : AuditEvent :=
  mkEvent [] "allow" "connect-tcp" app "db:5432" "10.0.0.1:5000"
    (mkIdentity None None None None None None None None None None) None None None None None org.
Definition sample_json (e : AuditEvent) : str := e_application e.

Abbreviation sample_step := (ship_step sample_sha sample_json (λ _, true)).
Abbreviation sample_start := (start_shipper genesis None).

(** An answer is lost after its batch was stored: the batch is posted again and
    the chain holds its event twice. *)
Definition lost_once : Shipper * list ChainedAuditEvent :=
  let s := set_phase Posted (pull (λ _, true) (record (sample_event None "a") sample_start) (sample_event None "a") []) in
  let c := (batch_of sample_sha sample_json s).1 in
  let s := set_phase Posted (rebase (default genesis (stored_head sample_sha c))
             (set_phase Posted (trim_backlog (set_phase Backlog s)))) in
  (shipped sample_sha sample_json s, c ++ (batch_of sample_sha sample_json s).1).

Lemma lost_once_run : rtc sample_step (sample_start, []) lost_once.
Proof.
  eapply rtc_l; [apply step_record|].
  eapply rtc_l; [apply (step_fill _ _ _ (sample_event None "a") []); [done|cbn; unfold BATCH_MAX; lia|done]|].
  eapply rtc_l; [by apply step_post|].
  eapply rtc_l; [apply (step_lost _ _ _ _ _ genesis); [done|done|by vm_compute; eexists]|].
  eapply rtc_l; [by apply step_retry|].
  eapply rtc_l; [by apply step_post|].
  eapply rtc_l; [eapply step_conflict; [done|by vm_compute]|].
  eapply rtc_l; [by apply step_post|].
  apply rtc_once. eapply step_acked; [done|by vm_compute|by vm_compute; eexists].
Qed.

Lemma lost_answer_duplicates :
  rtc sample_step (sample_start, []) lost_once ∧
  acked lost_once.1 = [sample_event None "a"] ∧ map event_json lost_once.2 = [of_string "a"; of_string "a"].
Proof. split; [apply lost_once_run|]. by vm_compute. Qed.

Lemma audit_shipping_complete_witness :
  rtc sample_step (sample_start, []) lost_once ∧
  sublist (map sample_json (acked lost_once.1)) (map event_json lost_once.2) ∧
  is_Some (stored_head sample_sha lost_once.2).
Proof.
  split; [exact lost_once_run|].
  destruct (audit_shipping_complete sample_sha sample_json (λ _, true) [] [] genesis None lost_once.1 lost_once.2
    eq_refl ltac:(eexists; reflexivity) lost_once_run) as (_ & _ & Hs & Hc & _).
  split; [exact Hs|exact Hc].
Defined.

Definition one_waiting : Shipper :=
  pull (λ _, true) (record (sample_event None "a") sample_start) (sample_event None "a") [].
Lemma one_waiting_run : rtc sample_step (sample_start, []) (one_waiting, []).
Proof.
  eapply rtc_l; [apply step_record|].
  apply rtc_once, (step_fill _ _ _ (sample_event None "a") []); [done|cbn; unfold BATCH_MAX; lia|done].
Qed.

Lemma audit_shipping_recovers_witness :
  ∃ s' c', rtc sample_step (one_waiting, []) (s', c') ∧ acked s' = [sample_event None "a"].
Proof.
  destruct (audit_shipping_recovers sample_sha sample_json (λ _, true) [] [] genesis None one_waiting []
    eq_refl ltac:(eexists; reflexivity) one_waiting_run ltac:(discriminate)) as (s' & c' & Hr & Ha).
  exists s', c'. split; [exact Hr|]. exact Ha.
Defined.

Lemma audit_tamper_evident_witness :
  let c := [mkChained 1 AUDIT_GENESIS "a"] in
  is_Some (stored_head sample_sha c) ∧ (c = c ∨ collision sample_sha).
Proof.
  intros c. split; [eexists; reflexivity|].
  apply (audit_tamper_evident sample_sha sample_sha_bytes sample_sha_len c c
    (mkHead 1 (audit_hash sample_sha 1 AUDIT_GENESIS "a"))); [reflexivity|reflexivity| | |cbn; lia].
  - constructor; [by_decide|constructor].
  - constructor; [by_decide|constructor].
Defined.

Example platform_batch_skips :
  let b := platform_batch sample_sha sample_json
             [sample_event (Some (of_string "x")) "a"; sample_event None "b"; sample_event (Some (of_string "y")) "c"] 5 AUDIT_GENESIS in
  map pe_seq (pb_events b) = [5; 6] ∧ map pe_org_id (pb_events b) = [of_string "x"; of_string "y"] ∧
  pb_next_seq b = 7 ∧ taken b = 3%nat.
Proof. by vm_compute. Qed.
