(* ===== verification/AddressPolicy.v ===== *)
(** * Which resolved addresses a proxy reaches

    Model of [crates/skimasque/src/policy.rs]: the check every resolved
    destination address passes before a tunnel is opened to it.  The networks
    of the allow-list come from the [ipnet] crate: their type and their
    membership test are parameters. *)

From S2P Require Import Prelude RustStr RustNet.

(** RFC 6598 shared address space, [100.64.0.0/10]. *)
Definition is_shared_v4 (b : Z) : bool :=
  (octet (V4 b) 0 =? 100) && (64 <=? octet (V4 b) 1) && (octet (V4 b) 1 <? 128).
Definition is_link_local_v6 (b : Z) : bool := Z.land (segment b 7) 0xffc0 =? 0xfe80.
Definition is_unique_local_v6 (b : Z) : bool := Z.land (segment b 7) 0xfe00 =? 0xfc00.

Section policy.
Context {IpNet : Type}.

Record AddressPolicy : Type := mkAddressPolicy {
  allow_loopback : bool;
  allow_private : bool;
  allow_link_local : bool;
  allow_multicast : bool;
  allow_unspecified : bool;
  allowed_ports : option (gset Z);
  denied_ports : gset Z;
  allowed_cidrs : list IpNet;
}.

Definition default_policy : AddressPolicy :=
  mkAddressPolicy false false false false false None ∅ [].
Definition permissive : AddressPolicy :=
  mkAddressPolicy true true true true true None ∅ [].

Definition with_allowed_ports (p : AddressPolicy) (ports : list Z) : AddressPolicy :=
  mkAddressPolicy (allow_loopback p) (allow_private p) (allow_link_local p) (allow_multicast p)
    (allow_unspecified p) (Some (list_to_set ports)) (denied_ports p) (allowed_cidrs p).
Definition with_allowed_cidrs (p : AddressPolicy) (cidrs : list IpNet) : AddressPolicy :=
  mkAddressPolicy (allow_loopback p) (allow_private p) (allow_link_local p) (allow_multicast p)
    (allow_unspecified p) (allowed_ports p) (denied_ports p) cidrs.

(** [if bad && !allowed { return Err(why) }] and then the rest. *)
Definition refuse_unless (bad allowed : bool) (why : str) (rest : result str unit) : result str unit :=
  if bad && negb allowed then Err why else rest.

Definition permits_v4 (p : AddressPolicy) (b : Z) : result str unit :=
  refuse_unless (is_unspecified (V4 b)) (allow_unspecified p) "destination is the unspecified address" (
  refuse_unless (is_loopback (V4 b)) (allow_loopback p) "destination is a loopback address" (
  refuse_unless (is_link_local b) (allow_link_local p) "destination is a link-local address" (
  refuse_unless (is_multicast (V4 b) || is_broadcast b) (allow_multicast p)
    "destination is a multicast or broadcast address" (
  refuse_unless (is_private b || is_shared_v4 b) (allow_private p) "destination is a private address" (
  Ok tt))))).

Definition permits_v6 (p : AddressPolicy) (b : Z) : result str unit :=
  refuse_unless (is_unspecified (V6 b)) (allow_unspecified p) "destination is the unspecified address" (
  refuse_unless (is_loopback (V6 b)) (allow_loopback p) "destination is a loopback address" (
  refuse_unless (is_link_local_v6 b) (allow_link_local p) "destination is a link-local address" (
  refuse_unless (is_multicast (V6 b)) (allow_multicast p) "destination is a multicast address" (
  refuse_unless (is_unique_local_v6 b) (allow_private p) "destination is a unique-local address" (
  Ok tt))))).

(** The address a packet would reach: an IPv4-mapped address is its IPv4 one. *)
Definition effective_ip (ip : IpAddr) : IpAddr :=
  match ip with
  | V6 b => match to_ipv4_mapped b with Some v4 => V4 v4 | None => V6 b end
  | V4 b => V4 b
  end.

Variable contains : IpNet → IpAddr → bool.

Definition permits (p : AddressPolicy) (addr : SocketAddr) : result str unit :=
  if match allowed_ports p with
     | Some allowed => negb (bool_decide (sa_port addr ∈ allowed))
     | None => false
     end
  then Err (of_string "destination port is not in the allowed set")
  else if bool_decide (sa_port addr ∈ denied_ports p) then Err (of_string "destination port is denied")
  else
    let ip := effective_ip (sa_ip addr) in
    if existsb (λ net, contains net ip) (allowed_cidrs p) then Ok tt
    else match ip with
         | V4 v4 => permits_v4 p v4
         | V6 v6 => permits_v6 p v6
         end.

(** ** The blocks behind the categories *)

(** [b] is in the [w]-bit block that starts at [base] and fixes [len] bits. *)
Definition in_block (w base len b : Z) : Prop := b / 2 ^ (w - len) = base / 2 ^ (w - len).

Definition private_v4 (b : Z) : Prop :=
  in_block 32 0x0a000000 8 b ∨ in_block 32 0xac100000 12 b ∨ in_block 32 0xc0a80000 16 b ∨
  in_block 32 0x64400000 10 b.
Definition private_v6 (b : Z) : Prop := in_block 128 (0xfc * 2 ^ 120) 7 b.

Definition refused_v4 (p : AddressPolicy) (b : Z) : Prop :=
  (b = 0 ∧ allow_unspecified p = false) ∨
  (in_block 32 0x7f000000 8 b ∧ allow_loopback p = false) ∨
  (in_block 32 0xa9fe0000 16 b ∧ allow_link_local p = false) ∨
  ((in_block 32 0xe0000000 4 b ∨ b = 0xffffffff) ∧ allow_multicast p = false) ∨
  (private_v4 b ∧ allow_private p = false).
Definition refused_v6 (p : AddressPolicy) (b : Z) : Prop :=
  (b = 0 ∧ allow_unspecified p = false) ∨
  (b = 1 ∧ allow_loopback p = false) ∨
  (in_block 128 (0xfe80 * 2 ^ 112) 10 b ∧ allow_link_local p = false) ∨
  (in_block 128 (0xff * 2 ^ 120) 8 b ∧ allow_multicast p = false) ∨
  (private_v6 b ∧ allow_private p = false).
Definition refused (p : AddressPolicy) (ip : IpAddr) : Prop :=
  match ip with V4 b => refused_v4 p b | V6 b => refused_v6 p b end.

Lemma refuse_unless_Ok bad allowed why rest :
  refuse_unless bad allowed why rest = Ok tt ↔ ¬ (bad = true ∧ allowed = false) ∧ rest = Ok tt.
Proof. unfold refuse_unless. destruct bad, allowed; naive_solver. Qed.

Lemma octet_v4_0 b : 0 ≤ b < 2 ^ 32 → octet (V4 b) 0 = b / 2 ^ 24.
Proof.
  intros Hb. change (octet (V4 b) 0) with ((b / 256 ^ 3) mod 256). change (256 ^ 3) with (2 ^ 24). dm_lia.
Qed.
Lemma octet_v4_1 b : octet (V4 b) 1 = (b / 2 ^ 16) mod 256.
Proof. done. Qed.
Lemma octet_v6_0 b : 0 ≤ b < 2 ^ 128 → octet (V6 b) 0 = b / 2 ^ 120.
Proof.
  intros Hb. change (octet (V6 b) 0) with ((b / 256 ^ 15) mod 256). change (256 ^ 15) with (2 ^ 120). dm_lia.
Qed.

(** The top bits of the first 16-bit group. *)
Lemma segment_block b base len m v :
  0 ≤ b < 2 ^ 128 → 0 ≤ len ≤ 16 → m = Z.shiftl (Z.ones len) (16 - len) →
  v = base * 2 ^ (16 - len) → 0 ≤ base →
  Z.land (segment b 7) m = v ↔ in_block 128 (base * 2 ^ (128 - len)) len b.
Proof.
  intros Hb Hl -> -> Hbase. unfold in_block, segment. change (16 * 7) with 112.
  assert (0 < 2 ^ (16 - len)) by (apply Z.pow_pos_nonneg; lia).
  assert (0 < 2 ^ (128 - len)) by (apply Z.pow_pos_nonneg; lia).
  rewrite land_high_bits by (done || (split; [apply Z.mod_pos_bound; lia|apply Z.mod_pos_bound; lia])).
  rewrite Z.div_mul by lia. replace (128 - len) with (112 + (16 - len)) by lia.
  rewrite Z.pow_add_r, <- Z.div_div by lia.
  assert ((b / 2 ^ 112) mod 2 ^ 16 = b / 2 ^ 112) as -> by dm_lia.
  generalize (b / 2 ^ 112 / 2 ^ (16 - len)). intros q. nia.
Qed.
End policy.
Arguments AddressPolicy : clear implicits.

Section correctness.
Context {IpNet : Type} (contains : IpNet → IpAddr → bool).
Implicit Types p : AddressPolicy IpNet.

Lemma permits_v4_iff p b : 0 ≤ b < 2 ^ 32 → permits_v4 p b = Ok tt ↔ ¬ refused_v4 p b.
Proof.
  intros Hb. unfold permits_v4. rewrite !refuse_unless_Ok. unfold refused_v4, private_v4, in_block.
  assert (is_unspecified (V4 b) = true ↔ b = 0) as -> by apply Z.eqb_eq.
  assert (is_loopback (V4 b) = true ↔ b / 2 ^ (32 - 8) = 0x7f000000 / 2 ^ (32 - 8)) as ->.
  { unfold is_loopback. rewrite octet_v4_0, Z.eqb_eq by done. done. }
  assert (is_link_local b = true ↔ b / 2 ^ (32 - 16) = 0xa9fe0000 / 2 ^ (32 - 16)) as ->.
  { unfold is_link_local. rewrite octet_v4_0, octet_v4_1, andb_true_iff, !Z.eqb_eq by done.
    change (32 - 16) with 16. change (0xa9fe0000 / 2 ^ 16) with 0xa9fe. dm_lia. }
  assert (is_multicast (V4 b) || is_broadcast b = true ↔
    b / 2 ^ (32 - 4) = 0xe0000000 / 2 ^ (32 - 4) ∨ b = 0xffffffff) as ->.
  { unfold is_multicast, is_broadcast. rewrite octet_v4_0 by done.
    rewrite orb_true_iff, andb_true_iff, !Z.leb_le, Z.eqb_eq. change u32_max with 0xffffffff.
    change (32 - 4) with 28. change (0xe0000000 / 2 ^ 28) with 14. dm_lia. }
  assert (is_private b || is_shared_v4 b = true ↔
    b / 2 ^ (32 - 8) = 0x0a000000 / 2 ^ (32 - 8) ∨ b / 2 ^ (32 - 12) = 0xac100000 / 2 ^ (32 - 12) ∨
    b / 2 ^ (32 - 16) = 0xc0a80000 / 2 ^ (32 - 16) ∨ b / 2 ^ (32 - 10) = 0x64400000 / 2 ^ (32 - 10)) as ->.
  { unfold is_private, is_shared_v4. cbv zeta. rewrite octet_v4_0, octet_v4_1 by done.
    rewrite !orb_true_iff, !andb_true_iff, !Z.leb_le, !Z.eqb_eq, Z.ltb_lt.
    change (32 - 8) with 24. change (32 - 12) with 20. change (32 - 16) with 16. change (32 - 10) with 22.
    change (0x0a000000 / 2 ^ 24) with 10. change (0xac100000 / 2 ^ 20) with 0xac1.
    change (0xc0a80000 / 2 ^ 16) with 0xc0a8. change (0x64400000 / 2 ^ 22) with 0x191.
    dm_lia. }
  split; [intros (? & ? & ? & ? & ? & _); tauto|]. intros H. split_and!; tauto.
Qed.

Lemma permits_v6_iff p b : 0 ≤ b < 2 ^ 128 → permits_v6 p b = Ok tt ↔ ¬ refused_v6 p b.
Proof.
  intros Hb. unfold permits_v6. rewrite !refuse_unless_Ok. unfold refused_v6, private_v6.
  assert (is_unspecified (V6 b) = true ↔ b = 0) as -> by apply Z.eqb_eq.
  assert (is_loopback (V6 b) = true ↔ b = 1) as -> by apply Z.eqb_eq.
  assert (is_link_local_v6 b = true ↔ in_block 128 (0xfe80 * 2 ^ 112) 10 b) as ->.
  { unfold is_link_local_v6. rewrite Z.eqb_eq. by apply (segment_block b 0x3fa 10). }
  assert (is_multicast (V6 b) = true ↔ in_block 128 (0xff * 2 ^ 120) 8 b) as ->.
  { unfold is_multicast, in_block. rewrite octet_v6_0, Z.eqb_eq by done. done. }
  assert (is_unique_local_v6 b = true ↔ in_block 128 (0xfc * 2 ^ 120) 7 b) as ->.
  { unfold is_unique_local_v6. rewrite Z.eqb_eq. by apply (segment_block b 0x7e 7). }
  split; [intros (? & ? & ? & ? & ? & _); tauto|]. intros H. split_and!; tauto.
Qed.

Lemma effective_ip_ok ip : ip_ok ip → ip_ok (effective_ip ip).
Proof.
  destruct ip as [b|b]; [done|]. cbn [effective_ip]. unfold to_ipv4_mapped.
  destruct (b / 2 ^ 32 =? 0xffff); [|done]. intros _. cbn [ip_ok]. apply Z.mod_pos_bound. lia.
Qed.

(** The ports the policy admits. *)
Definition port_ok (p : AddressPolicy IpNet) (port : Z) : Prop :=
  (∀ allowed, allowed_ports p = Some allowed → port ∈ allowed) ∧ port ∉ denied_ports p.

(** The floor: an address is permitted exactly when its port is admitted
    and either the operator listed a network that contains it or it lies in none
    of the refused blocks (unspecified, loopback, link-local, multicast and
    broadcast, private and shared space) whose flag is off.  Both tests judge an
    IPv4-mapped IPv6 address as the IPv4 address it wraps. *)
Theorem permits_iff p (addr : SocketAddr) :
  ip_ok (sa_ip addr) →
  permits contains p addr = Ok tt ↔
    port_ok p (sa_port addr) ∧
    ((∃ net, net ∈ allowed_cidrs p ∧ contains net (effective_ip (sa_ip addr)) = true) ∨
     ¬ refused p (effective_ip (sa_ip addr))).
Proof.
  intros Hip. apply effective_ip_ok in Hip. unfold permits, port_ok.
  assert (existsb (λ net, contains net (effective_ip (sa_ip addr))) (allowed_cidrs p) = true ↔
    ∃ net, net ∈ allowed_cidrs p ∧ contains net (effective_ip (sa_ip addr)) = true) as Hnet.
  { rewrite existsb_exists. by setoid_rewrite <- list_elem_of_In. }
  assert (match effective_ip (sa_ip addr) with V4 v4 => permits_v4 p v4 | V6 v6 => permits_v6 p v6 end = Ok tt
    ↔ ¬ refused p (effective_ip (sa_ip addr))) as Hrest.
  { destruct (effective_ip (sa_ip addr)); [by apply permits_v4_iff|by apply permits_v6_iff]. }
  destruct (match allowed_ports p with Some _ => _ | None => _ end) eqn:Hports.
  { split; [done|]. intros [[Ha _] _]. destruct (allowed_ports p) as [s|]; [|done].
    apply negb_true_iff, bool_decide_eq_false in Hports. exfalso. by apply Hports, Ha. }
  assert (∀ allowed, allowed_ports p = Some allowed → sa_port addr ∈ allowed) as Hok.
  { intros s Hs. rewrite Hs in Hports. by apply negb_false_iff, bool_decide_eq_true in Hports. }
  case_bool_decide as Hd; [naive_solver|]. cbv zeta.
  destruct (existsb _ (allowed_cidrs p)); [naive_solver|].
  rewrite Hrest. rewrite <- Hnet. naive_solver.
Qed.

(** No detour through IPv6: the IPv4-mapped form of an address gets the
    very verdict, and the very reason, of the address itself. *)
Theorem permits_mapped p (b port : Z) :
  0 ≤ b < 2 ^ 32 →
  permits contains p {| sa_ip := V6 (0xffff * 2 ^ 32 + b); sa_port := port |} =
  permits contains p {| sa_ip := V4 b; sa_port := port |}.
Proof.
  intros Hb. unfold permits. cbn [sa_ip sa_port].
  assert (effective_ip (V6 (0xffff * 2 ^ 32 + b)) = effective_ip (V4 b)) as ->; [|done].
  cbn [effective_ip]. unfold to_ipv4_mapped.
  destruct (Z.eqb_spec ((0xffff * 2 ^ 32 + b) / 2 ^ 32) 0xffff); [f_equal; dm_lia|dm_lia].
Qed.
End correctness.

(** An allow-list of whole addresses, as an instance of the parameter. *)
Definition same_ip (net ip : IpAddr) : bool := bool_decide (net = ip).

Lemma permits_iff_witness :
  permits same_ip (with_allowed_cidrs default_policy [V4 0x0a000005])
    {| sa_ip := V6 (0xffff * 2 ^ 32 + 0x0a000005); sa_port := 5432 |} = Ok tt ∧
  (permits same_ip default_policy {| sa_ip := V4 0xa9fea9fe; sa_port := 80 |} = Ok tt ↔
    port_ok (IpNet := IpAddr) default_policy 80 ∧
    ((∃ net, net ∈ @nil IpAddr ∧ same_ip net (V4 0xa9fea9fe) = true) ∨
     ¬ refused (IpNet := IpAddr) default_policy (V4 0xa9fea9fe))).
Proof.
  split; [by vm_compute|].
  apply (permits_iff same_ip default_policy {| sa_ip := V4 0xa9fea9fe; sa_port := 80 |}).
  simpl. lia.
Defined.

Lemma permits_mapped_witness :
  permits same_ip default_policy {| sa_ip := V6 (0xffff * 2 ^ 32 + 0x7f000001); sa_port := 80 |} =
    Err (of_string "destination is a loopback address") ∧
  permits same_ip default_policy {| sa_ip := V6 (0xffff * 2 ^ 32 + 0x7f000001); sa_port := 80 |} =
    permits same_ip default_policy {| sa_ip := V4 0x7f000001; sa_port := 80 |}.
Proof. split; [by vm_compute|]. apply permits_mapped. lia. Defined.
