(* ===== verification/Rates.v ===== *)
(** * Rates: how fast connections and payload may arrive

    Model of the rate limits of [crates/skimasque/src/server.rs] (the token
    bucket of the accept loop, one bucket per source address, the accept loop
    itself) and of [RateLimiter] of [crates/skimasque/src/service.rs].  The clock
    is read into nanoseconds; 64-bit floats are those of [PolicyUnits]. *)

From S2P Require Import Prelude RustNet PolicyUnits Floats.
From Stdlib Require Import SpecFloat.

#[global] Instance IpAddr_countable : Countable IpAddr.
Proof.
  apply (inj_countable' (λ ip, match ip with V4 b => inl b | V6 b => inr b end)
    (λ s, match s with inl b => V4 b | inr b => V6 b end)). by intros [].
Defined.

(** [now.saturating_duration_since(last).as_secs_f64()]. *)
Definition elapsed_secs (now last : Z) : f64 := as_secs_f64 (Z.max 0 (now - last)).

(** ** The token bucket *)

Record ConnectionRate : Type := mkConnectionRate { cr_per_second : Z; cr_burst : Z }.

Record TokenBucket : Type := mkBucket {
  tokens : f64;
  capacity : f64;
  refill_per_sec : f64;
  last : Z;
}.

Definition new_bucket (rate : ConnectionRate) (now : Z) : TokenBucket :=
  let capacity := f64_of_Z (Z.max (cr_burst rate) 1) in
  mkBucket capacity capacity (f64_max (f64_of_Z (cr_per_second rate)) (f64_of_Z 0)) now.

Definition bucket_take (now : Z) (b : TokenBucket) : bool * TokenBucket :=
  let elapsed := elapsed_secs now (last b) in
  let tokens := f64_min (f64_add (tokens b) (f64_mul elapsed (refill_per_sec b))) (capacity b) in
  if SFleb (f64_of_Z 1) tokens
  then (true, mkBucket (f64_sub tokens (f64_of_Z 1)) (capacity b) (refill_per_sec b) now)
  else (false, mkBucket tokens (capacity b) (refill_per_sec b) now).

Definition is_full (now : Z) (b : TokenBucket) : bool :=
  SFleb (capacity b) (f64_add (tokens b) (f64_mul (elapsed_secs now (last b)) (refill_per_sec b))).

(** ** One bucket per source *)

Definition MAX_SOURCES : nat := 4096.

Record PerSourceRate : Type := mkPerSource {
  rate : ConnectionRate;
  buckets : gmap IpAddr TokenBucket;
}.
Definition new_per_source (rate : ConnectionRate) : PerSourceRate := mkPerSource rate ∅.

(** [min_by_key]: the first entry with the least key. *)
Fixpoint oldest_of (best : IpAddr * TokenBucket) (l : list (IpAddr * TokenBucket)) : IpAddr :=
  match l with
  | [] => best.1
  | x :: l => oldest_of (if last x.2 <? last best.2 then x else best) l
  end.
Definition oldest (m : gmap IpAddr TokenBucket) : option IpAddr :=
  match map_to_list m with [] => None | x :: l => Some (oldest_of x l) end.

Definition make_room (now : Z) (m : gmap IpAddr TokenBucket) : gmap IpAddr TokenBucket :=
  let kept := filter (λ x, is_full now x.2 = false) m in
  if bool_decide (size kept < MAX_SOURCES)%nat then kept
  else match oldest kept with Some ip => delete ip kept | None => kept end.

Definition source_take (now : Z) (ip : IpAddr) (s : PerSourceRate) : bool * PerSourceRate :=
  let m :=
    if bool_decide (buckets s !! ip = None ∧ (MAX_SOURCES ≤ size (buckets s))%nat)
    then make_room now (buckets s) else buckets s in
  let '(taken, b) := bucket_take now (default (new_bucket (rate s) now) (m !! ip)) in
  (taken, mkPerSource (rate s) (<[ip := b]> m)).

(** ** The accept loop *)

Record ResourceLimits : Type := mkResourceLimits {
  max_connections : option nat;
  connection_rate : option ConnectionRate;
  per_source_rate : option ConnectionRate;
  exchange_rate : option ConnectionRate;
  max_tunnels_per_connection : option nat;
  tunnel_idle_timeout : option Z;
}.
Definition default_limits : ResourceLimits :=
  mkResourceLimits (Some 1024%nat) (Some (mkConnectionRate 50 200)) (Some (mkConnectionRate 20 60))
    (Some (mkConnectionRate 10 30)) (Some 256%nat) (Some (120 * 10 ^ 9)).
Definition unlimited : ResourceLimits := mkResourceLimits None None None None None None.

(** The connection tasks of the join set, and the two limiters. *)
Record Accepting : Type := mkAccepting {
  connections : nat;
  sources : option PerSourceRate;
  global : option TokenBucket;
}.
Definition start_accepting (l : ResourceLimits) (now : Z) : Accepting :=
  mkAccepting 0 (new_per_source <$> per_source_rate l) ((λ r, new_bucket r now) <$> connection_rate l).

Inductive Admission : Type := Accept | OverConnections | OverSourceRate | OverRate.

Definition over (max : option nat) (n : nat) : bool :=
  match max with Some max => (max <=? n)%nat | None => false end.

Definition take_source (now : Z) (ip : IpAddr) (s : option PerSourceRate) : bool * option PerSourceRate :=
  match s with
  | None => (true, None)
  | Some s => let '(taken, s) := source_take now ip s in (taken, Some s)
  end.
Definition take_global (now : Z) (b : option TokenBucket) : bool * option TokenBucket :=
  match b with
  | None => (true, None)
  | Some b => let '(taken, b) := bucket_take now b in (taken, Some b)
  end.

(** An incoming connection, once the finished tasks are reaped. *)
Definition accept_connection (l : ResourceLimits) (now : Z) (ip : IpAddr) (a : Accepting) : Admission * Accepting :=
  if over (max_connections l) (connections a) then (OverConnections, a)
  else
    let '(ok, sources) := take_source now ip (sources a) in
    if negb ok then (OverSourceRate, mkAccepting (connections a) sources (global a))
    else
      let '(ok, global) := take_global now (global a) in
      if negb ok then (OverRate, mkAccepting (connections a) sources global)
      else (Accept, mkAccepting (S (connections a)) sources global).

Inductive accept_step (l : ResourceLimits) : Accepting → Accepting → Prop :=
  | accept_incoming now ip n a :
      (n ≤ connections a)%nat →
      accept_step l a (accept_connection l now ip (mkAccepting n (sources a) (global a))).2
  | accept_joined n a :
      connections a = S n → accept_step l a (mkAccepting n (sources a) (global a)).

(** ** The limiter of a policy *)

Record RateLimiter : Type := mkLimiter {
  units_per_sec : f64;
  lim_capacity : f64;
  lim_tokens : f64;
  lim_last : Z;
}.
Definition new_limiter (units min_capacity : f64) (now : Z) : RateLimiter :=
  let capacity := f64_max units min_capacity in mkLimiter units capacity capacity now.
Definition bandwidth (bits_per_sec now : Z) : RateLimiter :=
  new_limiter (f64_max (f64_div (f64_of_Z bits_per_sec) (f64_of_Z 8)) (f64_of_Z 1)) (f64_of_Z (64 * 1024)) now.
Definition packets (packets_per_sec now : Z) : RateLimiter :=
  new_limiter (f64_max (f64_of_Z packets_per_sec) (f64_of_Z 1)) (f64_of_Z 64) now.

(** One turn of the loop of [consume]: spent, or the seconds still to wait. *)
Definition try_consume (units now : Z) (r : RateLimiter) : option f64 * RateLimiter :=
  let need := f64_min (f64_of_Z units) (lim_capacity r) in
  let tokens := f64_min (f64_add (lim_tokens r) (f64_mul (elapsed_secs now (lim_last r)) (units_per_sec r)))
                  (lim_capacity r) in
  if SFleb need tokens
  then (None, mkLimiter (units_per_sec r) (lim_capacity r) (f64_sub tokens need) now)
  else (Some (f64_div (f64_sub need tokens) (units_per_sec r)),
        mkLimiter (units_per_sec r) (lim_capacity r) tokens now).

(** ** A burst at one instant *)

Fixpoint take_many (n : nat) (now : Z) (b : TokenBucket) : nat * TokenBucket :=
  match n with
  | O => (0%nat, b)
  | S n =>
      let '(ok, b) := bucket_take now b in
      let '(k, b) := take_many n now b in ((if ok then S k else k), b)
  end.

(** A bucket that holds [k] whole tokens of [c] and was last seen at [now]. *)
Definition holds (k c now : Z) (b : TokenBucket) : Prop :=
  tokens b = f64_of_Z k ∧ capacity b = f64_of_Z c ∧ last b = now ∧ f64_is_finite (refill_per_sec b) = true.

Lemma elapsed_none now : elapsed_secs now now = S754_zero false.
Proof. unfold elapsed_secs. by rewrite Z.sub_diag. Qed.

Lemma refill_none x r : f64_is_finite x = true → f64_is_finite r = true → x ≠ S754_zero true →
  f64_add x (f64_mul (S754_zero false) r) = x.
Proof.
  intros Hx Hr Hz. destruct x as [[]| | |], r as [[]| | |]; try discriminate; try congruence;
  try destruct s; reflexivity.
Qed.

Lemma f64_of_Z_not_neg_zero n : 0 ≤ n < 2 ^ 53 → f64_of_Z n ≠ S754_zero true.
Proof. intros Hn. destruct n as [|p|p]; [done| |lia]. by rewrite f64_of_pos by lia. Qed.

Lemma holds_take k c now b :
  holds k c now b → 0 ≤ k ≤ c → c < 2 ^ 53 →
  (bucket_take now b).1 = (1 <=? k) ∧ holds (if 1 <=? k then k - 1 else k) c now (bucket_take now b).2.
Proof.
  intros (Ht & Hc & Hl & Hr) Hk Hc53. unfold bucket_take. rewrite Hl, elapsed_none, Ht, Hc.
  destruct (f64_of_Z_finite k) as [Hf Hn]; [lia|].
  rewrite refill_none by (done || (apply f64_of_Z_not_neg_zero; lia)).
  assert (f64_min (f64_of_Z k) (f64_of_Z c) = f64_of_Z k) as ->.
  { unfold f64_min. rewrite Hn, f64_le_exact by lia. destruct (f64_of_Z_finite c) as [_ ->]; [lia|done]. }
  destruct (Z.leb_spec 1 k).
  - rewrite f64_le_exact by lia. destruct k as [|p|p]; [lia| |lia]. rewrite f64_sub_one by lia. done.
  - replace k with 0 by lia. done.
Qed.

Lemma holds_take_many n k c now b :
  holds k c now b → 0 ≤ k ≤ c → c < 2 ^ 53 → Z.of_nat (take_many n now b).1 = Z.min (Z.of_nat n) k.
Proof.
  revert k b. induction n as [|n IH]; intros k b Hb Hk Hc; [simpl; lia|].
  destruct (holds_take k c now b Hb Hk Hc) as [Hok Hb']. cbn [take_many].
  destruct (bucket_take now b) as [ok b'] eqn:Hbt. cbn in Hok, Hb'. subst ok.
  specialize (IH _ _ Hb'). destruct (take_many n now b') as [j b''] eqn:Hj. cbn in *.
  destruct (Z.leb_spec 1 k); cbn; rewrite ?Nat2Z.inj_succ; lia.
Qed.

Lemma new_bucket_holds r now :
  0 ≤ cr_per_second r < 2 ^ 32 → 0 ≤ cr_burst r < 2 ^ 32 →
  holds (Z.max (cr_burst r) 1) (Z.max (cr_burst r) 1) now (new_bucket r now).
Proof.
  intros Hp Hb. repeat split. cbn. unfold f64_max.
  destruct (f64_of_Z_finite (cr_per_second r)) as [Hf Hn]; [lia|]. rewrite Hn.
  change (f64_is_nan (f64_of_Z 0)) with false. cbv iota. by destruct (SFleb _ _).
Qed.

(** The burst of a connection rate is exact: of any number of connections
    that arrive at the instant a bucket is created, precisely [burst] are let
    through (one, for a burst of zero), for every 32-bit rate and burst; the
    binary floating-point arithmetic loses or invents no token. *)
Theorem burst_exact (r : ConnectionRate) (n : nat) (now : Z) :
  0 ≤ cr_per_second r < 2 ^ 32 → 0 ≤ cr_burst r < 2 ^ 32 →
  Z.of_nat (take_many n now (new_bucket r now)).1 = Z.min (Z.of_nat n) (Z.max (cr_burst r) 1).
Proof.
  intros Hp Hb. apply (holds_take_many n _ (Z.max (cr_burst r) 1)); [by apply new_bucket_holds|lia..].
Qed.

Lemma burst_exact_witness : Z.of_nat (take_many 500 7 (new_bucket (mkConnectionRate 50 200) 7)).1 = 200.
Proof. rewrite (burst_exact (mkConnectionRate 50 200) 500 7); [reflexivity|cbn; lia..]. Defined.

(** ** The table of sources *)

Lemma oldest_of_min best l :
  ∃ x, x ∈ best :: l ∧ oldest_of best l = x.1 ∧ ∀ y, y ∈ best :: l → last x.2 ≤ last y.2.
Proof.
  revert best. induction l as [|z l IH]; intros best; cbn [oldest_of].
  - exists best. split; [left|]. split; [done|]. intros y ->%list_elem_of_singleton. done.
  - destruct (IH (if last z.2 <? last best.2 then z else best)) as (x & Hx & -> & Hmin).
    exists x. destruct (Z.ltb_spec (last z.2) (last best.2)); rewrite elem_of_cons in Hx.
    all: split; [rewrite !elem_of_cons; tauto|]; split; [done|].
    all: intros y [->|[->|Hy]%elem_of_cons]%elem_of_cons.
    all: try (etrans; [apply Hmin; left|lia]).
    all: apply Hmin; by right.
Qed.

Lemma oldest_spec m ip :
  oldest m = Some ip → ∃ b, m !! ip = Some b ∧ ∀ ip' b', m !! ip' = Some b' → last b ≤ last b'.
Proof.
  unfold oldest. destruct (map_to_list m) as [|x l] eqn:Hl; [done|]. intros [= <-].
  destruct (oldest_of_min x l) as ([k b] & Hin & -> & Hmin). rewrite <- Hl in Hin, Hmin.
  exists b. split; [by apply elem_of_map_to_list|].
  intros k' b' Hk'%elem_of_map_to_list. apply (Hmin (k', b')). done.
Qed.

Lemma oldest_None m : oldest m = None → m = ∅.
Proof.
  unfold oldest. destruct (map_to_list m) eqn:Hl; [|done]. intros _. by apply map_to_list_empty_iff.
Qed.

Lemma size_filter_le (m : gmap IpAddr TokenBucket) (P : IpAddr * TokenBucket → Prop) `{∀ x, Decision (P x)} :
  (size (filter P m) ≤ size m)%nat.
Proof. rewrite <- !size_dom. apply subseteq_size, subseteq_dom, map_filter_subseteq. Qed.

Lemma MAX_SOURCES_pos : (0 < MAX_SOURCES)%nat.
Proof. apply Nat.lt_0_succ. Qed.

Lemma make_room_size now m : (size m ≤ MAX_SOURCES)%nat → (size (make_room now m) < MAX_SOURCES)%nat.
Proof.
  intros Hm. pose proof MAX_SOURCES_pos as Hpos. unfold make_room. case_bool_decide as Hs; [done|].
  pose proof (size_filter_le m (λ x, is_full now x.2 = false)) as Hle.
  destruct (oldest _) as [ip|] eqn:Ho.
  - apply oldest_spec in Ho as (b & Hb & _). rewrite map_size_delete_Some by eauto. lia.
  - apply oldest_None in Ho. rewrite Ho, map_size_empty in Hs. lia.
Qed.

Lemma source_take_size now ip s :
  (size (buckets s) ≤ MAX_SOURCES)%nat → (size (buckets (source_take now ip s).2) ≤ MAX_SOURCES)%nat.
Proof.
  intros Hs. unfold source_take. case_bool_decide as Hb.
  - pose proof (make_room_size now (buckets s) Hs) as Hr. destruct (bucket_take _ _) as [t b]. cbn [snd buckets].
    destruct (make_room now (buckets s) !! ip) eqn:Hl.
    + rewrite map_size_insert_Some by eauto. lia.
    + rewrite map_size_insert_None by done. lia.
  - destruct (bucket_take _ _) as [t b]. cbn [snd buckets]. destruct (buckets s !! ip) eqn:Hl.
    + rewrite map_size_insert_Some by eauto. lia.
    + rewrite map_size_insert_None by done. destruct (decide (MAX_SOURCES ≤ size (buckets s))%nat); [|lia].
      destruct Hb. done.
Qed.

(** What a source's connection does to the others: every other source keeps
    its bucket as it was, unless the table is full; then the buckets that have
    refilled go, and, only if every one of them is still short of its burst, the
    one that was least recently seen. *)
Theorem source_take_others (now : Z) (ip ip' : IpAddr) (s : PerSourceRate) (b : TokenBucket) :
  ip ≠ ip' → buckets s !! ip' = Some b →
  buckets (source_take now ip s).2 !! ip' = Some b ∨
  buckets (source_take now ip s).2 !! ip' = None ∧ buckets s !! ip = None ∧
    (MAX_SOURCES ≤ size (buckets s))%nat ∧
    (is_full now b = true ∨ ∀ k c, buckets s !! k = Some c → is_full now c = false → last b ≤ last c).
Proof.
  intros Hne Hb. unfold source_take.
  assert (∀ m (p : bool * TokenBucket), buckets (let '(t, b) := p in (t, mkPerSource (rate s) (<[ip := b]> m))).2 !! ip' = m !! ip')
    as Hins by (intros m [t c]; by apply lookup_insert_ne).
  rewrite Hins. case_bool_decide as Hfull; [|by left]. destruct Hfull as [Hnone Hsize].
  unfold make_room. set (kept := filter _ _).
  destruct (is_full now b) eqn:Hf.
  - right. split; [|by auto].
    assert (kept !! ip' = None) as Hk.
    { apply map_lookup_filter_None. right. intros c Hc. rewrite Hb in Hc. injection Hc as <-. cbn. by rewrite Hf. }
    case_bool_decide; [done|]. destruct (oldest kept) as [o|] eqn:Ho; [|done].
    apply lookup_delete_None. by right.
  - assert (kept !! ip' = Some b) as Hk by (by apply map_lookup_filter_Some).
    case_bool_decide; [by left|]. destruct (oldest kept) as [o|] eqn:Ho; [|by left].
    destruct (decide (o = ip')) as [->|Hoe]; [|left; by rewrite lookup_delete_ne].
    right. rewrite lookup_delete_eq. split_and!; [done..|]. right. intros k c Hkc Hfc.
    apply oldest_spec in Ho as (b' & Hb' & Hmin). rewrite Hk in Hb'. injection Hb' as <-.
    apply (Hmin k). by apply map_lookup_filter_Some.
Qed.

Definition two_sources : PerSourceRate :=
  (source_take 0 (V4 1) (new_per_source (mkConnectionRate 1 2))).2.

Lemma source_take_others_witness :
  ∃ b, buckets two_sources !! V4 1 = Some b ∧ buckets (source_take 5 (V4 2) two_sources).2 !! V4 1 = Some b.
Proof.
  eexists. split; [reflexivity|].
  destruct (source_take_others 5 (V4 2) (V4 1) two_sources _ ltac:(discriminate) eq_refl)
    as [H|(_ & _ & Hs & _)]; [exact H|].
  assert (size (buckets two_sources) = 1)%nat as Hone by reflexivity.
  rewrite Hone in Hs. unfold MAX_SOURCES in Hs. lia.
Defined.

(** ** The accept loop *)

Definition within (l : ResourceLimits) (a : Accepting) : Prop :=
  (∀ max, max_connections l = Some max → (connections a ≤ max)%nat) ∧
  (∀ s, sources a = Some s → (size (buckets s) ≤ MAX_SOURCES)%nat).

Lemma take_source_size now ip o :
  (∀ s, o = Some s → (size (buckets s) ≤ MAX_SOURCES)%nat) →
  ∀ s, (take_source now ip o).2 = Some s → (size (buckets s) ≤ MAX_SOURCES)%nat.
Proof.
  intros H s. destruct o as [o|]; [|done]. cbn. pose proof (source_take_size now ip o (H _ eq_refl)) as Hs.
  destruct (source_take now ip o) as [t o']. by intros [= <-].
Qed.

Lemma accept_connection_within l now ip a : within l a → within l (accept_connection l now ip a).2.
Proof.
  intros [Hc Hs]. unfold accept_connection. destruct (over _ _) eqn:Hover; [done|].
  pose proof (take_source_size now ip (sources a) Hs) as Ht. destruct (take_source _ _ _) as [ok so].
  destruct ok; [|done]. cbn [negb]. destruct (take_global _ _) as [ok gl]. destruct ok; [|done].
  split; [|done]. cbn. intros max Hmax. rewrite Hmax in Hover. cbn in Hover.
  apply Nat.leb_gt in Hover. lia.
Qed.

Lemma accept_step_within l a a' : accept_step l a a' → within l a → within l a'.
Proof.
  intros [now ip n b Hn|n b Hn] [Hc Hs].
  - apply accept_connection_within. split; [|done]. intros max Hmax. specialize (Hc _ Hmax). cbn. lia.
  - split; [|done]. intros max Hmax. specialize (Hc _ Hmax). cbn. lia.
Qed.

(** C29.  The accept loop stays within its bounds: however connections arrive and
    end, at whatever times and from whatever addresses, the proxy never holds
    more connections than [max_connections] and never tracks more than
    [MAX_SOURCES] source addresses. *)
Theorem accept_loop_bounded (l : ResourceLimits) (now : Z) (a : Accepting) :
  rtc (accept_step l) (start_accepting l now) a → within l a.
Proof.
  assert (within l (start_accepting l now)) as H0.
  { split; [intros; cbn; lia|]. intros s Hs. cbn in Hs. destruct (per_source_rate l); [|done].
    injection Hs as <-. cbn. rewrite map_size_empty. apply Nat.lt_le_incl, MAX_SOURCES_pos. }
  intros H. revert H0. induction H as [|? ? ? Hstep _ IH]; [done|].
  intros Hw. apply IH. by eapply accept_step_within.
Qed.

Definition small_limits : ResourceLimits :=
  mkResourceLimits (Some 1%nat) (Some (mkConnectionRate 50 200)) (Some (mkConnectionRate 20 60)) None None None.
Definition one_connection : Accepting := (accept_connection small_limits 3 (V4 9) (start_accepting small_limits 0)).2.

Lemma accept_loop_bounded_witness :
  rtc (accept_step small_limits) (start_accepting small_limits 0) one_connection ∧
  connections one_connection = 1%nat ∧ within small_limits one_connection ∧
  (accept_connection small_limits 4 (V4 9) one_connection).1 = OverConnections.
Proof.
  assert (rtc (accept_step small_limits) (start_accepting small_limits 0) one_connection) as Hr.
  { eapply rtc_l; [|apply rtc_refl].
    apply (accept_incoming small_limits 3 (V4 9) 0 (start_accepting small_limits 0)). apply Nat.le_refl. }
  split; [exact Hr|]. split; [reflexivity|]. split; [|reflexivity].
  apply (accept_loop_bounded small_limits 0). exact Hr.
Defined.

(** A source over its own rate costs the others nothing: its connection is
    refused, the budget all sources share is not touched, and neither is the
    bucket of any other source. *)
Theorem flood_isolated (l : ResourceLimits) (now : Z) (ip : IpAddr) (a : Accepting) (s : PerSourceRate)
    (b : TokenBucket) :
  over (max_connections l) (connections a) = false → sources a = Some s → buckets s !! ip = Some b →
  (bucket_take now b).1 = false →
  ∃ s', accept_connection l now ip a = (OverSourceRate, mkAccepting (connections a) (Some s') (global a)) ∧
    ∀ ip', ip' ≠ ip → buckets s' !! ip' = buckets s !! ip'.
Proof.
  intros Ho Hs Hb Ht. unfold accept_connection, take_source, source_take. rewrite Ho, Hs.
  rewrite bool_decide_eq_false_2 by (rewrite Hb; naive_solver). rewrite Hb. cbn [default from_option id]. unfold id.
  destruct (bucket_take now b) as [t b'] eqn:Hbt. cbn in Ht. subst t.
  eexists. split; [reflexivity|]. intros ip' Hne. cbn. by rewrite lookup_insert_ne.
Qed.

Definition drained : Accepting :=
  mkAccepting 3 (Some (mkPerSource (mkConnectionRate 0 1)
    {[ V4 9 := mkBucket (f64_of_Z 0) (f64_of_Z 1) (f64_of_Z 0) 5 ]})) (Some (new_bucket (mkConnectionRate 50 200) 0)).

Lemma flood_isolated_witness :
  (accept_connection small_limits 5 (V4 9) (mkAccepting 0 (sources drained) (global drained))).1 = OverSourceRate ∧
  global (accept_connection small_limits 5 (V4 9) (mkAccepting 0 (sources drained) (global drained))).2 = global drained.
Proof.
  destruct (flood_isolated small_limits 5 (V4 9) (mkAccepting 0 (sources drained) (global drained)) _ _
    eq_refl eq_refl eq_refl eq_refl) as (s' & -> & _). split; reflexivity.
Defined.
