(* ===== verification/Service.v ===== *)
(** * The tunnel service

    Model of the types and the innermost services of
    [crates/skimasque/src/service.rs].  A gateway is a stack of services: each
    takes a tunnel request and answers with an accepted tunnel or a rejection,
    most by passing the request on to the service below.  The trait they share,
    [tower::Service], is the class [Service]; a layer is a record that holds its
    inner service and an instance that calls it.

    Services share state with the rest of the gateway (the policy set and the
    tenant table in force, the revoked sessions, the quota tables, the usage
    meters, the audit log, the clock): that state is [World], and a call maps it
    to a new one.  What the network does (name resolution, opening sockets, the
    networks of an allow-list) is the class [Network]. *)

From S2P Require Import Prelude RustStr RustNet Target ConnectIp AddressPolicy Tenant AuditLog.
From S2P Require Import PolicyModel PolicyEval.

(** ** Requests *)

Inductive Destination : Type :=
  | UdpDest (target : Target)
  | TcpDest (target : Target)
  | IpDest (scope : IpScope).

Definition as_udp (d : Destination) : option Target :=
  match d with UdpDest t => Some t | TcpDest _ | IpDest _ => None end.
Definition as_tcp (d : Destination) : option Target :=
  match d with TcpDest t => Some t | UdpDest _ | IpDest _ => None end.
Definition as_target (d : Destination) : option Target :=
  match d with UdpDest t | TcpDest t => Some t | IpDest _ => None end.
Definition as_ip (d : Destination) : option IpScope :=
  match d with IpDest s => Some s | UdpDest _ | TcpDest _ => None end.

Record AuthorizedDestination : Type := mkAuthorized {
  auth_target : Target;
  auth_decision : option Allowed;
}.
Definition trusting (t : Target) : AuthorizedDestination := mkAuthorized t None.
Definition authorized_by (t : Target) (a : Allowed) : AuthorizedDestination := mkAuthorized t (Some a).

(** [req_header name] is the first value of a header, when it is visible text.  Of
    the request extensions only the two types the layers exchange matter. *)
Record TunnelRequest : Type := mkRequest {
  req_protocol : Protocol;
  req_destination : Destination;
  req_client : SocketAddr;
  req_header : str → option str;
  ext_tenant : option TenantId;
  ext_identity : option WorkloadIdentity;
  authorized : option AuthorizedDestination;
}.

Definition with_authorized (r : TunnelRequest) (a : AuthorizedDestination) : TunnelRequest :=
  mkRequest (req_protocol r) (req_destination r) (req_client r) (req_header r) (ext_tenant r)
    (ext_identity r) (Some a).
Definition with_identity (r : TunnelRequest) (i : WorkloadIdentity) : TunnelRequest :=
  mkRequest (req_protocol r) (req_destination r) (req_client r) (req_header r) (ext_tenant r)
    (Some i) (authorized r).
Definition with_tenant (r : TunnelRequest) (t : TenantId) : TunnelRequest :=
  mkRequest (req_protocol r) (req_destination r) (req_client r) (req_header r) (Some t)
    (ext_identity r) (authorized r).

(** ** Answers *)

Record Rejection : Type := mkRejection {
  status : Z;
  proxy_error : option str;
  rej_detail : str;
  rej_headers : list (str * str);
}.

Definition new_rejection (status : Z) (detail : str) : Rejection := mkRejection status None detail [].
Definition with_proxy_error (r : Rejection) (e : str) : Rejection :=
  mkRejection (status r) (Some e) (rej_detail r) (rej_headers r).
Definition with_header (r : Rejection) (name value : str) : Rejection :=
  mkRejection (status r) (proxy_error r) (rej_detail r)
    (List.filter (λ h, negb (str_eqb h.1 name)) (rej_headers r) ++ [(name, value)]).

Definition forbidden (detail : str) : Rejection :=
  with_proxy_error (new_rejection 403 detail) "destination_ip_prohibited".
Definition dns_error (detail : str) : Rejection :=
  with_proxy_error (new_rejection 502 detail) "dns_error".
Definition unavailable (detail : str) : Rejection :=
  with_proxy_error (new_rejection 502 detail) "proxy_internal_error".
Definition proxy_auth_required (scheme : str) : Rejection :=
  with_header (with_proxy_error (new_rejection 407 "proxy authentication required") "http_request_denied")
    "proxy-authenticate" scheme.

(** A signal that ends a tunnel: the session it follows and its deadline. *)
Record TunnelEnd : Type := mkEnd { end_sid : str; end_deadline : option Z }.

(** The limiters and the meter are shared by reference: the key names them. *)
Record TunnelLimits : Type := mkTunnelLimits {
  tl_bandwidth : option str;
  tl_packet_rate : option str;
  tl_total_bytes : option Z;
  tl_end : option TunnelEnd;
}.
Definition no_limits : TunnelLimits := mkTunnelLimits None None None None.
Definition limits_empty (l : TunnelLimits) : bool :=
  negb (is_some (tl_bandwidth l)) && negb (is_some (tl_packet_rate l)) &&
  negb (is_some (tl_total_bytes l)) && negb (is_some (tl_end l)).

Inductive AcceptedKind : Type :=
  | UdpTunnel (peer : SocketAddr)
  | TcpTunnel (peer : SocketAddr).

(** A guard is a permit of the semaphore with its key. *)
Record Accepted : Type := mkAccepted {
  acc_kind : AcceptedKind;
  acc_guards : list str;
  acc_limits : TunnelLimits;
  acc_meter : option str;
}.

Definition accepted_udp (peer : SocketAddr) : Accepted := mkAccepted (UdpTunnel peer) [] no_limits None.
Definition accepted_tcp (peer : SocketAddr) : Accepted := mkAccepted (TcpTunnel peer) [] no_limits None.
Definition hold (a : Accepted) (permit : str) : Accepted :=
  mkAccepted (acc_kind a) (acc_guards a ++ [permit]) (acc_limits a) (acc_meter a).
Definition with_limits (a : Accepted) (l : TunnelLimits) : Accepted :=
  mkAccepted (acc_kind a) (acc_guards a) l (acc_meter a).
Definition with_end (a : Accepted) (e : TunnelEnd) : Accepted :=
  let l := acc_limits a in
  mkAccepted (acc_kind a) (acc_guards a)
    (mkTunnelLimits (tl_bandwidth l) (tl_packet_rate l) (tl_total_bytes l) (Some e)) (acc_meter a).
Definition with_meter (a : Accepted) (org : str) : Accepted :=
  mkAccepted (acc_kind a) (acc_guards a) (acc_limits a) (Some org).
Definition peer (a : Accepted) : SocketAddr :=
  match acc_kind a with UdpTunnel p | TcpTunnel p => p end.

(** ** The world and the trait *)

Record World : Type := mkWorld {
  policy_handle : PolicySet;
  tenant_table : TenantSnapshot;
  revoked : gset str;
  permits_free : gmap str nat;
  bandwidth_buckets : gmap str Z;
  packet_buckets : gmap str Z;
  usage : TenantUsage;
  audit_log : list AuditEvent;
  now : Z;
}.

Abbreviation answer := (result Rejection Accepted).

Class Service (S : Type) : Type := call : S → TunnelRequest → World → answer * World.
Arguments call {S _} s req w : rename.

(** ** The network *)

Inductive ErrorKind : Type := ConnectionRefused | TimedOut | OtherError.

Class Network : Type := {
  IpNet : Type;
  net_contains : IpNet → IpAddr → bool;
  lookup_host : str → Z → result str (list SocketAddr);
  connect_udp : SocketAddr → result str unit;
  connect_tcp : SocketAddr → result (ErrorKind * str) unit;
}.

Definition display_socket (a : SocketAddr) : str :=
  match sa_ip a with
  | V4 b => display_v4 b ++ ":" ++ to_string (sa_port a)
  | V6 b => "[" ++ display_v6 b ++ "]:" ++ to_string (sa_port a)
  end.

Section proxies.
Context `{Network}.

Definition resolve (t : Target) : result Rejection (list SocketAddr) :=
  match Target.host t with
  | Target.Ip ip => Ok [{| sa_ip := ip; sa_port := Target.port t |}]
  | Target.Name name =>
      addrs ← map_err (λ e, dns_error ("resolving " ++ name ++ ": " ++ e)) (lookup_host name (Target.port t));
      match addrs with
      | [] => Err (dns_error (name ++ " resolved to nothing"))
      | _ => Ok addrs
      end
  end.

Definition udp_connect_rejection (addr : SocketAddr) (error : str) : Rejection :=
  unavailable ("could not open a socket to " ++ display_socket addr ++ ": " ++ error).

Definition tcp_connect_rejection (addr : SocketAddr) (error : ErrorKind * str) : Rejection :=
  let '(kind, text) := error in
  let proxy_error : str :=
    match kind with
    | ConnectionRefused => "connection_refused"
    | TimedOut => "connection_timeout"
    | OtherError => "proxy_internal_error"
    end in
  with_proxy_error (new_rejection 502 ("could not connect to " ++ display_socket addr ++ ": " ++ text))
    proxy_error.

(** The loop both proxies run over the resolved addresses. *)
Fixpoint try_candidates (floor : AddressPolicy IpNet) (connect : SocketAddr → result Rejection Accepted)
    (last_error : option Rejection) (candidates : list SocketAddr) : result (option Rejection) Accepted :=
  match candidates with
  | [] => Err last_error
  | addr :: candidates =>
      match permits net_contains floor addr with
      | Err reason => try_candidates floor connect (Some (forbidden reason)) candidates
      | Ok _ =>
          match connect addr with
          | Ok accepted => Ok accepted
          | Err rejection => try_candidates floor connect (Some rejection) candidates
          end
      end
  end.

Definition open_to (floor : AddressPolicy IpNet) (connect : SocketAddr → result Rejection Accepted)
    (req : TunnelRequest) (raw_target : Target) : answer :=
  let target := auth_target (default (trusting raw_target) (authorized req)) in
  candidates ← resolve target;
  map_err (default (dns_error (Target.display target ++ " resolved to nothing")))
    (try_candidates floor connect None candidates).

Record UdpProxy : Type := mkUdpProxy { udp_floor : AddressPolicy IpNet }.
Record TcpProxy : Type := mkTcpProxy { tcp_floor : AddressPolicy IpNet }.

Definition udp_open (addr : SocketAddr) : result Rejection Accepted :=
  match connect_udp addr with
  | Ok _ => Ok (accepted_udp addr)
  | Err e => Err (udp_connect_rejection addr e)
  end.
Definition tcp_open (addr : SocketAddr) : result Rejection Accepted :=
  match connect_tcp addr with
  | Ok _ => Ok (accepted_tcp addr)
  | Err e => Err (tcp_connect_rejection addr e)
  end.

Definition open_tunnel (floor : AddressPolicy IpNet) (req : TunnelRequest) : answer :=
  match as_udp (req_destination req) with
  | None => Err (new_rejection 501 "UdpProxy only serves connect-udp")
  | Some raw_target => open_to floor udp_open req raw_target
  end.
Definition open_tcp_tunnel (floor : AddressPolicy IpNet) (req : TunnelRequest) : answer :=
  match as_tcp (req_destination req) with
  | None => Err (new_rejection 501 "TcpProxy only serves connect-tcp")
  | Some raw_target => open_to floor tcp_open req raw_target
  end.

#[global] Instance udp_proxy_service : Service UdpProxy :=
  λ s req w, (open_tunnel (udp_floor s) req, w).
#[global] Instance tcp_proxy_service : Service TcpProxy :=
  λ s req w, (open_tcp_tunnel (tcp_floor s) req, w).

Record Dispatch : Type := mkDispatch { d_udp : option UdpProxy; d_tcp : option TcpProxy }.

#[global] Instance dispatch_service : Service Dispatch :=
  λ s req w,
    match req_protocol req with
    | ConnectUdp =>
        match d_udp s with
        | Some proxy => call proxy req w
        | None => (Err (new_rejection 501 "this proxy does not serve connect-udp"), w)
        end
    | ConnectTcp =>
        match d_tcp s with
        | Some proxy => call proxy req w
        | None => (Err (new_rejection 501 "this proxy does not serve connect-tcp"), w)
        end
    | Target.ConnectIp => (Err (new_rejection 501 "this proxy does not serve connect-ip"), w)
    end.
End proxies.

(** ** The floor holds *)

Section floor.
Context `{Network}.

Lemma try_candidates_Ok floor connect last candidates a :
  try_candidates floor connect last candidates = Ok a ↔
  ∃ pre addr post, candidates = pre ++ addr :: post ∧ permits net_contains floor addr = Ok tt ∧
    connect addr = Ok a ∧
    Forall (λ x, permits net_contains floor x ≠ Ok tt ∨ ∃ e, connect x = Err e) pre.
Proof.
  revert last. induction candidates as [|x l IH]; intros last; cbn [try_candidates].
  { split; [done|]. by intros ([] & ? & ? & ? & _). }
  assert (permits net_contains floor x = Ok tt ∨ permits net_contains floor x ≠ Ok tt) as [Hp|Hp]
    by (destruct (permits net_contains floor x) as [[]|]; [by left|by right]).
  - rewrite Hp. destruct (connect x) as [b|e] eqn:Hc.
    + split.
      * intros [= <-]. exists [], x, l. split_and!; [done..|constructor].
      * intros ([|y pre] & addr & post & Heq & Ha & Ho & Hpre).
        -- injection Heq as <- <-. congruence.
        -- injection Heq as <- ->. apply Forall_cons in Hpre as [[?|[e He]] _]; [done|congruence].
    + rewrite IH. split.
      * intros (pre & addr & post & -> & Ha & Ho & Hpre). exists (x :: pre), addr, post.
        split_and!; [done..|]. constructor; [|done]. right. eauto.
      * intros ([|y pre] & addr & post & Heq & Ha & Ho & Hpre).
        -- injection Heq as <- <-. congruence.
        -- injection Heq as <- ->. apply Forall_cons in Hpre as [_ Hpre]. eauto 10.
  - destruct (permits net_contains floor x) as [[]|reason] eqn:Hx; [done|]. rewrite IH. split.
    + intros (pre & addr & post & -> & Ha & Ho & Hpre). exists (x :: pre), addr, post.
      split_and!; [done..|]. constructor; [|done]. left. by rewrite Hx.
    + intros ([|y pre] & addr & post & Heq & Ha & Ho & Hpre).
      * injection Heq as <- <-. congruence.
      * injection Heq as <- ->. apply Forall_cons in Hpre as [_ Hpre]. eauto 10.
Qed.

(** Which proxy serves a request, and where it was asked to go. *)
Definition serves (s : Dispatch) (req : TunnelRequest)
    : option (AddressPolicy IpNet * (SocketAddr → result Rejection Accepted) * Target) :=
  match req_protocol req, req_destination req with
  | ConnectUdp, UdpDest t => (λ p, (udp_floor p, udp_open, t)) <$> d_udp s
  | ConnectTcp, TcpDest t => (λ p, (tcp_floor p, tcp_open, t)) <$> d_tcp s
  | _, _ => None
  end.

Lemma dispatch_call s req w :
  match serves s req with
  | Some (floor, open, raw) => call s req w = (open_to floor open req raw, w)
  | None => ∃ e, call s req w = (Err e, w) ∧ status e = 501
  end.
Proof.
  unfold serves, call, dispatch_service, call, udp_proxy_service, tcp_proxy_service, open_tunnel,
    open_tcp_tunnel.
  destruct (req_protocol req), (req_destination req), (d_udp s), (d_tcp s);
    cbn [fmap option_fmap option_map as_udp as_tcp udp_floor tcp_floor]; eauto.
Qed.

(** The tunnel goes to the first address that the floor permits and that opens. *)
Definition opens (floor : AddressPolicy IpNet) (open : SocketAddr → result Rejection Accepted)
    (t : Target) (a : Accepted) : Prop :=
  ∃ candidates pre addr post, resolve t = Ok candidates ∧ candidates = pre ++ addr :: post ∧
    permits net_contains floor addr = Ok tt ∧ open addr = Ok a ∧
    Forall (λ x, permits net_contains floor x ≠ Ok tt ∨ ∃ e, open x = Err e) pre.

Lemma open_to_Ok floor open req raw a :
  open_to floor open req raw = Ok a ↔ opens floor open (auth_target (default (trusting raw) (authorized req))) a.
Proof.
  unfold open_to, opens. rewrite bind_Ok. setoid_rewrite map_err_Ok. setoid_rewrite try_candidates_Ok.
  naive_solver.
Qed.

(** The peer of an opened tunnel is the address that was connected. *)
Lemma open_peer addr a : udp_open addr = Ok a ∨ tcp_open addr = Ok a → peer a = addr.
Proof.
  unfold udp_open, tcp_open. destruct (connect_udp addr), (connect_tcp addr); naive_solver.
Qed.

Lemma serves_open s req floor open raw :
  serves s req = Some (floor, open, raw) → open = udp_open ∨ open = tcp_open.
Proof.
  unfold serves. destruct (req_protocol req), (req_destination req), (d_udp s), (d_tcp s); naive_solver.
Qed.

Lemma dispatch_Ok s req w w' a :
  call s req w = (Ok a, w') ↔
  w' = w ∧ ∃ floor open raw, serves s req = Some (floor, open, raw) ∧
    opens floor open (auth_target (default (trusting raw) (authorized req))) a.
Proof.
  pose proof (dispatch_call s req w) as Hd. destruct (serves s req) as [[[floor open] raw]|].
  - rewrite Hd. split.
    + intros [= Ho <-]. split; [done|]. exists floor, open, raw. split; [done|]. by apply open_to_Ok.
    + intros (-> & f & o & r & [= <- <- <-] & Ho). f_equal. by apply open_to_Ok.
  - destruct Hd as (e & -> & _). split; [done|]. by intros (_ & f & o & r & ? & _).
Qed.
End floor.

(** ** Correctness *)

(** The floor cannot be bypassed: a request is accepted exactly when a proxy
    for its protocol is enabled, the authorised destination (or, with none, the
    one requested) resolves, and one of its addresses is permitted by the address
    policy and opens; the tunnel then goes to the first such address.  Nothing
    else of the gateway's state changes. *)
Theorem dispatch_accepts_iff `{Network} (s : Dispatch) (req : TunnelRequest) (w w' : World) (a : Accepted) :
  call s req w = (Ok a, w') ↔
  w' = w ∧ ∃ floor open raw, serves s req = Some (floor, open, raw) ∧
    opens floor open (auth_target (default (trusting raw) (authorized req))) a.
Proof. apply dispatch_Ok. Qed.

(** A network where one name resolves to a private and a public address. *)
#[local] Instance sample_network : Network := {|
  IpNet := IpAddr;
  net_contains := same_ip;
  lookup_host := λ name port,
    if str_eqb name "mixed.example" then
      Ok [{| sa_ip := V4 0x0a000001; sa_port := port |}; {| sa_ip := V4 0x5db8d822; sa_port := port |}]
    else Err (of_string "no such host");
  connect_udp := λ _, Ok tt;
  connect_tcp := λ _, Err (ConnectionRefused, of_string "refused");
|}.
Definition sample_dispatch : Dispatch := mkDispatch (Some (mkUdpProxy default_policy)) None.
Definition sample_world : World := mkWorld [] default_snapshot ∅ ∅ ∅ ∅ ∅ [] 0.
Definition udp_to (host : str) : TunnelRequest :=
  mkRequest ConnectUdp (UdpDest (mkTarget (Name host) 443)) {| sa_ip := V4 0; sa_port := 9 |}
    (λ _, None) None None None.

Example dispatch_skips_private :
  call sample_dispatch (udp_to "mixed.example") sample_world =
    (Ok (accepted_udp {| sa_ip := V4 0x5db8d822; sa_port := 443 |}), sample_world).
Proof. by vm_compute. Qed.
