(* ===== verification/Auth.v ===== *)
(** * Authentication

    Model of the authentication layers of [crates/skimasque/src/service.rs]: the
    shared bearer token ([Authorize]), the verified workload identity
    ([Identify]) and its multi-tenant form ([TenantIdentify]).  A verifier is a
    trait object: a function of the token it is given. *)

From S2P Require Import Prelude RustStr RustNet PolicyModel PolicyEval Tenant Service.

(** ** Layers *)

(** The bearer token of a request, as each layer reads it. *)
Definition bearer_token (req : TunnelRequest) : option str :=
  value ← req_header req "proxy-authorization"; strip_prefix "Bearer " value.

(** Compare without stopping at the first mismatch. *)
Fixpoint xor_bytes (diff : Z) (a b : list Z) : Z :=
  match a, b with
  | x :: a, y :: b => xor_bytes (Z.lor diff (Z.lxor x y)) a b
  | _, _ => diff
  end.
Definition constant_time_eq (a b : list Z) : bool :=
  if negb (length a =? length b)%nat then false else xor_bytes 0 a b =? 0.

Record Authorize (S : Type) : Type := mkAuthorize { az_inner : S; expected : str }.
Arguments mkAuthorize {S} az_inner expected.
Arguments az_inner {S} a : rename.
Arguments expected {S} a : rename.

#[global] Instance authorize_service {S : Type} `{Service S} : Service (Authorize S) :=
  λ s req w,
    match bearer_token req with
    | Some token =>
        if constant_time_eq (as_bytes token) (as_bytes (expected s)) then call (az_inner s) req w
        else (Err (proxy_auth_required "Bearer"), w)
    | None => (Err (proxy_auth_required "Bearer"), w)
    end.

Record Identify (S : Type) : Type := mkIdentify {
  id_inner : S;
  verifier : str → result str WorkloadIdentity;
}.
Arguments mkIdentify {S} id_inner verifier.
Arguments id_inner {S} i : rename.
Arguments verifier {S} i : rename.

#[global] Instance identify_service {S : Type} `{Service S} : Service (Identify S) :=
  λ s req w,
    match bearer_token req with
    | None => (Err (proxy_auth_required "Bearer"), w)
    | Some token =>
        match verifier s token with
        | Ok identity => call (id_inner s) (with_identity req identity) w
        | Err reason =>
            (Err (with_proxy_error
                    (new_rejection 403 ("workload identity token rejected: " ++ reason))
                    "http_request_denied"), w)
        end
    end.

Record TenantIdentify (S : Type) : Type := mkTenantIdentify {
  ti_inner : S;
  tenant_verifier : str → result str (TenantId * WorkloadIdentity);
}.
Arguments mkTenantIdentify {S} ti_inner tenant_verifier.
Arguments ti_inner {S} t : rename.
Arguments tenant_verifier {S} t : rename.

#[global] Instance tenant_identify_service {S : Type} `{Service S} : Service (TenantIdentify S) :=
  λ s req w,
    match bearer_token req with
    | None => (Err (proxy_auth_required "Bearer"), w)
    | Some token =>
        match tenant_verifier s token with
        | Ok (tenant, identity) => call (ti_inner s) (with_identity (with_tenant req tenant) identity) w
        | Err reason =>
            (Err (with_proxy_error (new_rejection 403 ("credential rejected: " ++ reason))
                    "http_request_denied"), w)
        end
    end.

(** ** Comparing tokens *)

Lemma xor_bytes_zero d a b :
  length a = length b → xor_bytes d a b = 0 ↔ d = 0 ∧ a = b.
Proof.
  revert d b. induction a as [|x a IH]; intros d [|y b] Hl; cbn [xor_bytes length] in *; try lia.
  - naive_solver.
  - rewrite IH by lia. rewrite Z.lor_eq_0_iff, Z.lxor_eq_0_iff. naive_solver.
Qed.

Lemma constant_time_eq_spec a b : constant_time_eq a b = true ↔ a = b.
Proof.
  unfold constant_time_eq. destruct (Nat.eqb_spec (length a) (length b)) as [Hl|Hl]; cbn [negb].
  - rewrite Z.eqb_eq, xor_bytes_zero by done. naive_solver.
  - split; [done|]. by intros ->.
Qed.

Lemma bearer_token_Some req token :
  bearer_token req = Some token ↔ req_header req "proxy-authorization" = Some ("Bearer " ++ token).
Proof.
  unfold bearer_token. destruct (req_header req "proxy-authorization") as [v|]; bind_simpl; [|done].
  rewrite strip_prefix_Some. split; [by intros ->|congruence].
Qed.

Section correctness.
Context {S : Type} `{Service S}.

Lemma authorize_Ok (s : Authorize S) req w a w' :
  call s req w = (Ok a, w') ↔
  (∃ token, bearer_token req = Some token ∧ as_bytes token = as_bytes (expected s)) ∧
    call (az_inner s) req w = (Ok a, w').
Proof.
  change (call s req w) with (authorize_service s req w). unfold authorize_service.
  destruct (bearer_token req) as [token|]; [|split; [done|by intros [(? & ? & _) _]]].
  destruct (constant_time_eq _ _) eqn:Hc.
  - apply constant_time_eq_spec in Hc. split; [eauto|by intros [_ ?]].
  - split; [done|]. intros [(? & [= <-] & Hb) _]. apply constant_time_eq_spec in Hb. congruence.
Qed.

Lemma identify_Ok (s : Identify S) req w a w' :
  call s req w = (Ok a, w') ↔
  ∃ token identity, bearer_token req = Some token ∧ verifier s token = Ok identity ∧
    call (id_inner s) (with_identity req identity) w = (Ok a, w').
Proof.
  change (call s req w) with (identify_service s req w). unfold identify_service.
  destruct (bearer_token req) as [token|]; [|split; [done|by intros (? & ? & ? & _)]].
  destruct (verifier s token) as [identity|reason] eqn:Hv.
  - split; [eauto 10|]. intros (? & ? & [= <-] & Hv' & Hc). congruence.
  - split; [done|]. intros (? & ? & [= <-] & ? & _). congruence.
Qed.

Lemma tenant_identify_Ok (s : TenantIdentify S) req w a w' :
  call s req w = (Ok a, w') ↔
  ∃ token tenant identity, bearer_token req = Some token ∧ tenant_verifier s token = Ok (tenant, identity) ∧
    call (ti_inner s) (with_identity (with_tenant req tenant) identity) w = (Ok a, w').
Proof.
  change (call s req w) with (tenant_identify_service s req w). unfold tenant_identify_service.
  destruct (bearer_token req) as [token|]; [|split; [done|by intros (? & ? & ? & ? & _)]].
  destruct (tenant_verifier s token) as [[tenant identity]|reason] eqn:Hv.
  - split; [eauto 10|]. intros (? & ? & ? & [= <-] & Hv' & Hc). congruence.
  - split; [done|]. intros (? & ? & ? & [= <-] & ? & _). congruence.
Qed.

(** The bearer layer admits one token only: with the header
    [Bearer <expected>] the request goes to the inner service unchanged, and with
    any other header or none it is answered 407 and nothing happens. *)
Theorem authorize_exact (s : Authorize S) (req : TunnelRequest) (w : World) :
  chars_ok (expected s) →
  (∀ token, bearer_token req = Some token → chars_ok token) →
  (req_header req "proxy-authorization" = Some ("Bearer " ++ expected s) ∧
     call s req w = call (az_inner s) req w) ∨
  (req_header req "proxy-authorization" ≠ Some ("Bearer " ++ expected s) ∧
     call s req w = (Err (proxy_auth_required "Bearer"), w)).
Proof.
  intros He Hreq. setoid_rewrite <- bearer_token_Some. unfold call at 1 3, authorize_service.
  destruct (bearer_token req) as [token|]; [|by right].
  destruct (constant_time_eq (as_bytes token) (as_bytes (expected s))) eqn:Hc.
  - left. apply constant_time_eq_spec, as_bytes_inj in Hc as ->; auto.
  - right. split; [|done]. intros [= ->]. apply not_true_iff_false in Hc. apply Hc. by apply constant_time_eq_spec.
Qed.

(** Identity is fail-closed: the inner service sees a request only with an
    identity the verifier vouched for, on the token of that very request; no
    token is answered 407, a token that does not verify 403, and neither reaches
    it. *)
Theorem identify_fail_closed (s : Identify S) (req : TunnelRequest) (w : World) :
  (∃ token identity, bearer_token req = Some token ∧ verifier s token = Ok identity ∧
     call s req w = call (id_inner s) (with_identity req identity) w) ∨
  ∃ e, call s req w = (Err e, w) ∧
    ((bearer_token req = None ∧ status e = 407) ∨
     (∃ token reason, bearer_token req = Some token ∧ verifier s token = Err reason ∧ status e = 403)).
Proof.
  unfold call at 1 3, identify_service. destruct (bearer_token req) as [token|].
  - destruct (verifier s token) as [identity|reason] eqn:Hv; [left; eauto 10|].
    right. eexists. split; [done|]. right. exists token, reason. done.
  - right. eexists. split; [done|]. by left.
Qed.
End correctness.

#[local] Existing Instance sample_network.

Definition with_bearer (req : TunnelRequest) (token : str) : TunnelRequest :=
  mkRequest (req_protocol req) (req_destination req) (req_client req)
    (λ name, if str_eqb name "proxy-authorization" then Some ("Bearer " ++ token) else req_header req name)
    (ext_tenant req) (ext_identity req) (authorized req).

Lemma authorize_exact_witness :
  let s := mkAuthorize sample_dispatch "s3cret" in
  let req := with_bearer (udp_to "mixed.example") "s3cret" in
  is_ok (call s req sample_world).1 = true ∧
  ((req_header req "proxy-authorization" = Some ("Bearer " ++ expected s) ∧
      call s req sample_world = call (az_inner s) req sample_world) ∨
   (req_header req "proxy-authorization" ≠ Some ("Bearer " ++ expected s) ∧
      call s req sample_world = (Err (proxy_auth_required "Bearer"), sample_world))).
Proof.
  split; [by vm_compute|]. apply authorize_exact.
  - by_decide.
  - intros token [= <-]. by_decide.
Defined.
