(* ===== verification/PolicyLayer.v ===== *)
(** * The policy layer

    Model of [PolicyLayer] and its service [Enforce] in
    [crates/skimasque/src/service.rs]: the layer that asks the policy engine
    about every request, attaches the decision to the requests it lets through,
    and records what it decided. *)

From S2P Require Import Prelude RustStr RustNet Target Tenant AuditLog Service.
From S2P Require Import PolicyDest PolicyModel PolicyEval.

(** ** The question put to the engine *)

Definition APPLICATION_HEADER : str := "x-masque-application".
Definition POLICY_HEADER : str := "x-masque-policy".

Definition policy_transport (p : Protocol) : Transport :=
  match p with ConnectUdp => Udp | _ => Tcp end.

Definition policy_destination (t : Target) : PolicyDest.Destination :=
  mkDestination
    (match Target.host t with
     | Target.Name name => Name (to_ascii_lowercase name)
     | Target.Ip ip => Ip ip
     end) (Target.port t).

Definition empty_identity : WorkloadIdentity :=
  mkIdentity None None None None None None None None None None.

Definition request_context (req : TunnelRequest) (t : Target) : RequestContext :=
  mkContext (default empty_identity (ext_identity req))
    (default [] (req_header req APPLICATION_HEADER))
    (policy_transport (req_protocol req))
    (policy_destination t)
    (match req_header req POLICY_HEADER with
     | Some [] | None => None
     | Some name => Some name
     end).

(** ** Refusals *)

Definition denial_rejection (d : Denied) : Rejection :=
  let detail : str :=
    match reason d, d_policy d with
    | (PolicyMismatch _ _ | Baseline _ _), _ => summary (reason d)
    | _, Some policy =>
        "policy " ++ quoted policy ++ ": " ++ summary (reason d) ++ " suggested rule: " ++ suggested d
    | _, None => summary (reason d) ++ " suggested rule: " ++ suggested d
    end in
  with_proxy_error (new_rejection 403 detail) "destination_prohibited".

Definition tenant_rejection (detail : str) : Rejection :=
  with_proxy_error (new_rejection 403 detail) "http_request_denied".

(** ** The layer *)

Inductive Mode : Type := EnforceMode | ObserveMode.
#[global] Instance Mode_eq_dec : EqDecision Mode.
Proof. solve_decision. Defined.

Inductive PolicySource : Type := Single | Tenants.

Record Enforce (S : Type) : Type := mkEnforce {
  en_inner : S;
  policies : PolicySource;
  mode : Mode;
  audit : bool;
}.
Arguments mkEnforce {S} en_inner policies mode audit.
Arguments en_inner {S} e : rename.
Arguments policies {S} e : rename.
Arguments mode {S} e : rename.
Arguments audit {S} e : rename.

(** The one set a request may be evaluated against, read once, and the
    organisation it belongs to. *)
Definition policies_for (source : PolicySource) (req : TunnelRequest) (w : World)
    : result Rejection (PolicySet * option str) :=
  match source with
  | Single => Ok (policy_handle w, None)
  | Tenants =>
      id ← ok_or (ext_tenant req) (tenant_rejection "no organisation resolved for this request");
      t ← ok_or (resolve_org (tenant_table w) id)
            (tenant_rejection "organisation is not served by this gateway");
      Ok (tenant_policy t, Some id)
  end.

Definition record_event (w : World) (e : AuditEvent) : World :=
  mkWorld (policy_handle w) (tenant_table w) (revoked w) (permits_free w) (bandwidth_buckets w)
    (packet_buckets w) (usage w) (audit_log w ++ [e]) (now w).

Definition decision_event (w : World) (req : TunnelRequest) (t : Target) (ctx : RequestContext)
    (d : Decision) (org_id : option str) : AuditEvent :=
  let e := from_decision (now w) d (upgrade_token (req_protocol req)) (c_application ctx)
             (Target.display t) (display_socket (req_client req)) (workload ctx) in
  mkEvent (timestamp e) (e_decision e) (e_protocol e) (e_application e) (e_destination e) (e_client e)
    (e_identity e) (e_policy e) (e_rule e) (e_reason e) (e_suggested_rule e)
    (requested_policy ctx) org_id.

#[global] Instance enforce_service {S : Type} `{Service S} : Service (Enforce S) :=
  λ s req w,
    match as_target (req_destination req) with
    | None =>
        (Err (new_rejection 501 "policy enforcement covers connect-udp and connect-tcp only"), w)
    | Some target =>
        match policies_for (policies s) req w with
        | Err rejection => (Err rejection, w)
        | Ok (set, org_id) =>
            let ctx := request_context req target in
            let decision := evaluate set ctx in
            if bool_decide (mode s = ObserveMode) then
              call (en_inner s) (with_authorized req (trusting target)) w
            else
              let w := if audit s then record_event w (decision_event w req target ctx decision org_id) else w in
              match decision with
              | Allows allowed => call (en_inner s) (with_authorized req (authorized_by target allowed)) w
              | Denies denied => (Err (denial_rejection denied), w)
              end
        end
    end.

(** ** What the layer guarantees its inner service *)

Section layer.
Context {S : Type} `{Service S}.

(** The decision about a request, and the set and organisation behind it. *)
Definition decided (s : Enforce S) (req : TunnelRequest) (w : World) (t : Target)
    (org : option str) (d : Decision) : Prop :=
  as_target (req_destination req) = Some t ∧
  ∃ set, policies_for (policies s) req w = Ok (set, org) ∧ evaluate set (request_context req t) = d.

(** The world after the decision was recorded. *)
Definition audited (s : Enforce S) (req : TunnelRequest) (w : World) (t : Target)
    (org : option str) (d : Decision) : World :=
  if audit s then record_event w (decision_event w req t (request_context req t) d org) else w.

Lemma enforce_call s req w :
  mode s = EnforceMode →
  (∃ t org a, decided s req w t org (Allows a) ∧
     call s req w = call (en_inner s) (with_authorized req (authorized_by t a))
                      (audited s req w t org (Allows a))) ∨
  (∃ t org d, decided s req w t org (Denies d) ∧
     call s req w = (Err (denial_rejection d), audited s req w t org (Denies d))) ∨
  (∃ e, call s req w = (Err e, w) ∧
     ((as_target (req_destination req) = None ∧ status e = 501) ∨
      (policies_for (policies s) req w = Err e ∧ status e = 403))).
Proof.
  intros Hm. unfold call at 1 3 4, enforce_service. rewrite Hm. cbn [bool_decide].
  destruct (as_target (req_destination req)) as [t|] eqn:Ht; [|right; right; eauto 10].
  destruct (policies_for (policies s) req w) as [[set org]|e] eqn:Hp.
  - cbn iota. destruct (evaluate set (request_context req t)) as [a|d] eqn:Hd.
    + left. exists t, org, a. split; [|done]. split; [done|]. eauto.
    + right; left. exists t, org, d. split; [|done]. split; [done|]. eauto.
  - right; right. exists e. split; [done|]. right. split; [done|].
    revert Hp. unfold policies_for. destruct (policies s); [done|].
    destruct (ext_tenant req); bind_simpl; [|by intros [= <-]].
    destruct (resolve_org _ _); bind_simpl; [done|by intros [= <-]].
Qed.

Lemma enforce_Ok s req w a w' :
  mode s = EnforceMode →
  call s req w = (Ok a, w') ↔
  ∃ t org al, decided s req w t org (Allows al) ∧
    call (en_inner s) (with_authorized req (authorized_by t al)) (audited s req w t org (Allows al)) = (Ok a, w').
Proof.
  intros Hm. destruct (enforce_call s req w Hm) as [(t & org & al & Hd & Hc)|[(t & org & d & Hd & Hc)|(e & Hc & He)]].
  - rewrite Hc. split; [eauto 10|]. intros (t' & org' & al' & Hd' & Hc').
    destruct Hd as (Ht & set & Hp & Hv), Hd' as (Ht' & set' & Hp' & Hv'). congruence.
  - rewrite Hc. split; [done|]. intros (t' & org' & al' & Hd' & _).
    destruct Hd as (Ht & set & Hp & Hv), Hd' as (Ht' & set' & Hp' & Hv'). congruence.
  - rewrite Hc. split; [done|]. intros (t' & org' & al' & (Ht & set & Hp & _) & _).
    destruct He as [[He _]|[He _]]; congruence.
Qed.

(** The policy layer is fail-closed: in enforce mode the inner service is
    called only for a request the policy set in force allows, with an
    authorization that carries that decision and exactly the target the engine
    judged; a denial is answered 403; a request that is no policy question (no
    single target, no tenant, a tenant no longer served) is refused without being
    evaluated.  With an audit sink, every decision and nothing else is recorded,
    before it is acted on. *)
Theorem enforce_fail_closed (s : Enforce S) (req : TunnelRequest) (w : World) :
  mode s = EnforceMode →
  (∃ t org a, decided s req w t org (Allows a) ∧
     call s req w = call (en_inner s) (with_authorized req (authorized_by t a))
                      (audited s req w t org (Allows a))) ∨
  (∃ t org d, decided s req w t org (Denies d) ∧
     call s req w = (Err (denial_rejection d), audited s req w t org (Denies d)) ∧
     status (denial_rejection d) = 403) ∨
  (∃ e, call s req w = (Err e, w) ∧
     ((as_target (req_destination req) = None ∧ status e = 501) ∨
      (policies_for (policies s) req w = Err e ∧ status e = 403))).
Proof.
  intros Hm. destruct (enforce_call s req w Hm) as [Ha|[(t & org & d & Hd & Hc)|He]]; [by left| |by right; right].
  right; left. exists t, org, d. done.
Qed.

(** Tenants are judged by their own policy: in tenant mode a decision is that
    of the set of the tenant the credential resolved to, as served right now, and
    is recorded under its organisation; a request without a tenant, or whose
    tenant is gone, gets no decision at all. *)
Theorem tenant_policy_only (s : Enforce S) (req : TunnelRequest) (w : World) (t : Target)
    (org : option str) (d : Decision) :
  policies s = Tenants →
  decided s req w t org d ↔
  as_target (req_destination req) = Some t ∧
  ∃ id tenant, ext_tenant req = Some id ∧ resolve_org (tenant_table w) id = Some tenant ∧
    org = Some id ∧ d = evaluate (tenant_policy tenant) (request_context req t).
Proof.
  intros Hs. unfold decided, policies_for. rewrite Hs. split.
  - intros (Ht & set & Hp & Hd). split; [done|]. inv_ok. eauto 10.
  - intros (Ht & id & tenant & He & Hr & -> & ->). split; [done|]. rewrite He. bind_simpl. rewrite Hr. bind_simpl.
    eauto.
Qed.
End layer.

#[local] Existing Instance sample_network.

Definition sample_rule : Rule :=
  mkRule None AnyApp AnyTransport Allow [spec_of "mixed.example:443"].
Definition sample_grant : Policy :=
  mkPolicy "grant" default_match default_session None default_limits [sample_rule] [] false.
Definition grant_world : World := mkWorld [sample_grant] default_snapshot ∅ ∅ ∅ ∅ ∅ [] 0.
Definition sample_enforce : Enforce Dispatch := mkEnforce sample_dispatch Single EnforceMode true.

Lemma enforce_fail_closed_witness :
  is_ok (call sample_enforce (udp_to "other.example") grant_world).1 = false ∧
  is_ok (call sample_enforce (udp_to "mixed.example") grant_world).1 = true ∧
  length (audit_log (call sample_enforce (udp_to "other.example") grant_world).2) = 1%nat ∧
  let req := udp_to "mixed.example" in
  ((∃ t org a, decided sample_enforce req grant_world t org (Allows a) ∧
     call sample_enforce req grant_world =
       call sample_dispatch (with_authorized req (authorized_by t a))
         (audited sample_enforce req grant_world t org (Allows a))) ∨
  (∃ t org d, decided sample_enforce req grant_world t org (Denies d) ∧
     call sample_enforce req grant_world =
       (Err (denial_rejection d), audited sample_enforce req grant_world t org (Denies d)) ∧
     status (denial_rejection d) = 403) ∨
  (∃ e, call sample_enforce req grant_world = (Err e, grant_world) ∧
     ((as_target (req_destination req) = None ∧ status e = 501) ∨
      (policies_for Single req grant_world = Err e ∧ status e = 403)))).
Proof.
  split; [by vm_compute|]. split; [by vm_compute|]. split; [by vm_compute|].
  exact (enforce_fail_closed sample_enforce (udp_to "mixed.example") grant_world eq_refl).
Defined.

Definition sample_tenant : TenantSpec := mkTenantSpec "org_a" "acme" [] [] [sample_grant].
Definition tenant_world : World :=
  mkWorld [] (store to_ascii_lowercase 1 [sample_tenant]) ∅ ∅ ∅ ∅ ∅ [] 0.

Lemma tenant_policy_only_witness :
  let s := mkEnforce sample_dispatch Tenants EnforceMode true in
  let req := with_tenant (udp_to "mixed.example") "org_a" in
  let t := mkTarget (Target.Name "mixed.example") 443 in
  let d := evaluate [sample_grant] (request_context req t) in
  is_allow d = true ∧
  (decided s req tenant_world t (Some (of_string "org_a")) d ↔
    as_target (req_destination req) = Some t ∧
    ∃ id tenant, ext_tenant req = Some id ∧ resolve_org (tenant_table tenant_world) id = Some tenant ∧
      Some (of_string "org_a") = Some id ∧ d = evaluate (tenant_policy tenant) (request_context req t)).
Proof.
  split; [by vm_compute|].
  exact (tenant_policy_only (mkEnforce sample_dispatch Tenants EnforceMode true) _ _ _ _ _ eq_refl).
Defined.
