(* ===== verification/Revocation.v ===== *)
(** * Revoked and expired sessions

    Model of [crates/skimasque/src/revocation.rs]: the set of revoked sessions,
    the layer that refuses their tunnels, and the signal that ends a tunnel
    already open.

    The base64 and JSON decoding of a token's claims are third-party code, the
    class [TokenCodec].  The clock of [World] counts nanoseconds since the epoch.
    [UNIX_EPOCH + Duration] panics from 2^63 seconds
    on; a panic unwinds through the layers above, so it is the error [panicked],
    which no layer makes into an answer of its own. *)

From S2P Require Import Prelude RustStr RustNet PolicyModel PolicyEval Target Tenant AuditLog Service Auth.

Class TokenCodec : Type := {
  base64_decode : str → option (list Z);
  exp_claim : list Z → option Z;
}.

(** ** The revoked sessions *)

Definition set_revoked (w : World) (r : gset str) : World :=
  mkWorld (policy_handle w) (tenant_table w) r (permits_free w) (bandwidth_buckets w) (packet_buckets w)
    (usage w) (audit_log w) (now w).

Definition replace_revoked (w : World) (sids : list str) : World :=
  let next : gset str := list_to_set sids in
  if bool_decide (revoked w = next) then w else set_revoked w next.
Definition is_revoked (w : World) (sid : str) : bool := bool_decide (sid ∈ revoked w).

Lemma is_revoked_replace (w : World) (sids : list str) (sid : str) :
  is_revoked (replace_revoked w sids) sid = true ↔ sid ∈ sids.
Proof.
  unfold is_revoked. rewrite bool_decide_eq_true. unfold replace_revoked.
  case_bool_decide as Hd; [rewrite Hd|cbn]; apply elem_of_list_to_set.
Qed.

Definition track (sid : str) (deadline : option Z) : TunnelEnd := mkEnd sid deadline.

(** ** The end of a tunnel *)

Inductive EndReason : Type := RevokedEnd | ExpiredEnd.

(** [TunnelEnd::ended] waits for the set to hold its session and for its deadline
    at once: what it may resolve to when it is polled in a given world. *)
Inductive ended (e : TunnelEnd) (w : World) : EndReason → Prop :=
  | ended_revoked : is_revoked w (end_sid e) = true → ended e w RevokedEnd
  | ended_expired deadline : end_deadline e = Some deadline → deadline ≤ now w → ended e w ExpiredEnd.

Definition pending (e : TunnelEnd) (w : World) : bool :=
  negb (is_revoked w (end_sid e)) &&
  match end_deadline e with Some deadline => now w <? deadline | None => true end.

Lemma pending_spec e w : pending e w = false ↔ ∃ r, ended e w r.
Proof.
  unfold pending. rewrite andb_false_iff, negb_false_iff. split.
  - intros [Hr|Hd]; [eexists; by apply ended_revoked|].
    destruct (end_deadline e) as [d|] eqn:He; [|done]. apply Z.ltb_ge in Hd.
    eexists. by eapply ended_expired.
  - intros [r [Hr|d Hd Hn]]; [by left|]. right. rewrite Hd. by apply Z.ltb_ge.
Qed.

(** ** The layer *)

Section layer.
Context `{TokenCodec}.

Definition token_exp (req : TunnelRequest) : option Z :=
  token ← bearer_token req;
  payload ← split 46 token !! 1%nat;
  bytes ← base64_decode payload;
  exp_claim bytes.

Definition panicked : Rejection := new_rejection 0 "overflow when adding duration to instant".

(** [UNIX_EPOCH + Duration::from_secs(exp)]. *)
Definition from_secs (exp : Z) : Z := exp * 10 ^ 9.

Definition credential_expiry (req : TunnelRequest) : result Rejection (option Z) :=
  match token_exp req with
  | None => Ok None
  | Some exp => if exp <? 2 ^ 63 then Ok (Some (from_secs exp)) else Err panicked
  end.

Definition session_ended : Rejection :=
  with_proxy_error (new_rejection 403 "this session has ended; start a new one") "session_ended".
Definition session_expired : Rejection :=
  with_proxy_error (new_rejection 403 "this session has expired; start a new one") "session_expired".

Record Revoked (S : Type) : Type := mkRevoked { rv_inner : S }.

Definition session_of (req : TunnelRequest) : option str := identity ← ext_identity req; sid identity.

#[global] Instance revoked_service {S : Type} `{Service S} : Service (Revoked S) :=
  λ s req w,
    match session_of req with
    | None => call (rv_inner S s) req w
    | Some sid =>
        if is_revoked w sid then (Err session_ended, w)
        else
          match credential_expiry req with
          | Err panic => (Err panic, w)
          | Ok None =>
              let '(r, w) := call (rv_inner S s) req w in
              ((λ a, with_end a (track sid None)) <$> r, w)
          | Ok (Some expiry) =>
              if 0 <? expiry - now w then
                let '(r, w) := call (rv_inner S s) req w in
                ((λ a, with_end a (track sid (Some expiry))) <$> r, w)
              else (Err session_expired, w)
          end
    end.
End layer.
Arguments mkRevoked {S} rv_inner.
Arguments rv_inner {S} r : rename.

(** ** Correctness *)

Section correctness.
Context `{TokenCodec} {S : Type} `{Service S}.

(** The signal the layer gives a tunnel of a session. *)
Definition end_of (req : TunnelRequest) (sid : str) : TunnelEnd := track sid (from_secs <$> token_exp req).

Definition representable (req : TunnelRequest) : bool :=
  match token_exp req with Some exp => exp <? 2 ^ 63 | None => true end.

Lemma revoked_call (s : Revoked S) req w :
  match session_of req with
  | None => call s req w = call (rv_inner s) req w
  | Some sid =>
      if is_revoked w sid then call s req w = (Err session_ended, w)
      else if negb (representable req) then call s req w = (Err panicked, w)
      else if pending (end_of req sid) w then
        call s req w = let '(r, w) := call (rv_inner s) req w in ((λ a, with_end a (end_of req sid)) <$> r, w)
      else call s req w = (Err session_expired, w)
  end.
Proof.
  change (call s req w) with (revoked_service s req w). unfold revoked_service.
  destruct (session_of req) as [sid|]; [|done].
  unfold pending, end_of, track, representable, credential_expiry. cbn [end_sid end_deadline].
  destruct (is_revoked w sid); [done|]. cbn [negb andb].
  destruct (token_exp req) as [exp|]; [|done]. destruct (Z.ltb_spec exp (2 ^ 63)); [|done].
  cbn [negb].
  cbn [fmap option_fmap option_map].
  destruct (Z.ltb_spec (now w) (from_secs exp)), (Z.ltb_spec 0 (from_secs exp - now w)); try lia; done.
Qed.

Lemma revoked_Ok (s : Revoked S) req w a w' :
  call s req w = (Ok a, w') ↔
  match session_of req with
  | None => call (rv_inner s) req w = (Ok a, w')
  | Some sid => pending (end_of req sid) w = true ∧ representable req = true ∧
      ∃ a0, call (rv_inner s) req w = (Ok a0, w') ∧ a = with_end a0 (end_of req sid)
  end.
Proof.
  pose proof (revoked_call s req w) as Hc. destruct (session_of req) as [sid|]; [|by rewrite Hc].
  assert (is_revoked w sid = true → pending (end_of req sid) w = false) as Hr
    by (unfold pending; cbn; by intros ->).
  destruct (is_revoked w sid); [rewrite Hc, Hr by done; by split; [|intros (? & _)]|].
  destruct (representable req); cbn [negb] in Hc; [|rewrite Hc; by split; [|intros (_ & ? & _)]].
  destruct (pending (end_of req sid) w); [|rewrite Hc; by split; [|intros (? & _)]].
  rewrite Hc. destruct (call (rv_inner s) req w) as [[a0|e] w0]; cbn; split.
  - intros [= <- <-]. eauto 10.
  - by intros (_ & _ & a1 & [= -> ->] & ->).
  - done.
  - by intros (_ & _ & a1 & ? & _).
Qed.

(** A live session whose claim is beyond the clock gets no answer at all. *)
Lemma far_expiry_panics (s : Revoked S) req w sid exp :
  session_of req = Some sid → sid ∉ revoked w → token_exp req = Some exp → 2 ^ 63 ≤ exp →
  call s req w = (Err panicked, w).
Proof.
  intros Hsid Hr He Hexp. pose proof (revoked_call s req w) as Hc. rewrite Hsid in Hc.
  assert (is_revoked w sid = false) as Hf by by apply bool_decide_eq_false.
  assert (representable req = false) as Hrep by (unfold representable; rewrite He; by apply Z.ltb_ge).
  by rewrite Hf, Hrep in Hc.
Qed.

(** C19.  Sessions end when they should.  A tunnel whose credential names a session
    is opened only while that session is live, and then carries a signal that is
    pending, and fires in exactly the worlds where the session is revoked or the
    credential's own expiry has come.  A session that is over is refused 403 (once
    its expiry is a time the clock can represent) with nothing changed; a live one
    goes where the inner service says.  A request without a session is passed
    through untouched. *)
Theorem sessions_end (s : Revoked S) (req : TunnelRequest) (w : World) :
  match session_of req with
  | None => call s req w = call (rv_inner s) req w
  | Some sid =>
      (∀ a w', call s req w = (Ok a, w') →
         ∃ e, tl_end (acc_limits a) = Some e ∧ pending e w = true ∧
           ∀ w2, (∃ r, ended e w2 r) ↔
             sid ∈ revoked w2 ∨ ∃ exp, token_exp req = Some exp ∧ from_secs exp ≤ now w2) ∧
      (representable req = true →
         (pending (end_of req sid) w = false →
            ∃ e, call s req w = (Err e, w) ∧ status e = 403) ∧
         (pending (end_of req sid) w = true → ∀ a w',
            call (rv_inner s) req w = (Ok a, w') → ∃ a', call s req w = (Ok a', w') ∧ peer a' = peer a))
  end.
Proof.
  pose proof (revoked_call s req w) as Hc. pose proof (λ a w', revoked_Ok s req w a w') as Ho.
  destruct (session_of req) as [sid|]; [|done]. split.
  - intros a w' (Hp & _ & a0 & _ & ->)%Ho. exists (end_of req sid). split; [done|]. split; [done|].
    intros w2. split.
    + intros [r [Hr|d Hd Hn]]; [left; by apply bool_decide_eq_true in Hr|right].
      apply fmap_Some in Hd as (exp & He & ->). eauto.
    + intros [Hr|(exp & He & Hn)]; eexists; [apply ended_revoked; by apply bool_decide_eq_true|].
      eapply ended_expired; [|done]. apply fmap_Some. eauto.
  - intros Hrep. rewrite Hrep in Hc. cbn [negb] in Hc. split.
    + intros Hp. rewrite Hp in Hc. destruct (is_revoked w sid); eauto.
    + intros Hp a w' Ha. exists (with_end a (end_of req sid)). split; [|done]. apply Ho. eauto.
Qed.

(** Replacing the revoked set takes the whole list as it stands: afterwards a
    session is revoked exactly when the list names it, whatever was revoked
    before, and a pending signal fires exactly if its session is newly listed. *)
Theorem revocation_snapshot (w : World) (sids : list str) (e : TunnelEnd) :
  (∀ sid, is_revoked (replace_revoked w sids) sid = true ↔ sid ∈ sids) ∧
  (pending e w = true → pending e (replace_revoked w sids) = false ↔ end_sid e ∈ sids).
Proof.
  pose proof (is_revoked_replace w sids) as Hr.
  assert (now (replace_revoked w sids) = now w) as Hn by (unfold replace_revoked; by case_bool_decide).
  split; [done|]. unfold pending. rewrite <- Hr, Hn. intros [_ Hd]%andb_true_iff. rewrite Hd, andb_true_r.
  by rewrite negb_false_iff.
Qed.
End correctness.
