(* ===== verification/Quota.v ===== *)
(** * Quotas and metering

    Model of [QuotaLayer] (its service [Meter]) and [TenantMeterLayer] (its
    service [TenantMetered]) in [crates/skimasque/src/service.rs]: the limits a
    policy decision carries, applied per policy and organisation.

    A semaphore is the number of its free permits; a permit held by a tunnel is
    the key of its semaphore, returned when the tunnel (or a call that failed)
    drops it.  Semaphores and rate limiters are created by the first decision
    that needs them and keep the size they were created with. *)

From S2P Require Import Prelude RustStr RustNet Target Tenant AuditLog Service.
From S2P Require Import PolicyDest PolicyModel PolicyEval.

(** ** The shared tables *)

Definition set_permits (w : World) (p : gmap str nat) : World :=
  mkWorld (policy_handle w) (tenant_table w) (revoked w) p (bandwidth_buckets w) (packet_buckets w)
    (usage w) (audit_log w) (now w).
Definition set_bandwidth (w : World) (b : gmap str Z) : World :=
  mkWorld (policy_handle w) (tenant_table w) (revoked w) (permits_free w) b (packet_buckets w)
    (usage w) (audit_log w) (now w).
Definition set_packets (w : World) (b : gmap str Z) : World :=
  mkWorld (policy_handle w) (tenant_table w) (revoked w) (permits_free w) (bandwidth_buckets w) b
    (usage w) (audit_log w) (now w).
Definition set_usage (w : World) (u : TenantUsage) : World :=
  mkWorld (policy_handle w) (tenant_table w) (revoked w) (permits_free w) (bandwidth_buckets w)
    (packet_buckets w) u (audit_log w) (now w).

(** [entry(key).or_insert_with(..)]. *)
Definition or_insert {A} (m : gmap str A) (key : str) (v : A) : gmap str A :=
  match m !! key with Some _ => m | None => <[key := v]> m end.

Definition semaphore_for (w : World) (key : str) (size : nat) : World :=
  set_permits w (or_insert (permits_free w) key size).
Definition bandwidth_for (w : World) (key : str) (bits_per_sec : Z) : World :=
  set_bandwidth w (or_insert (bandwidth_buckets w) key bits_per_sec).
Definition packets_for (w : World) (key : str) (packets_per_sec : Z) : World :=
  set_packets w (or_insert (packet_buckets w) key packets_per_sec).

(** [Semaphore::try_acquire_owned], and the permit dropped. *)
Definition try_acquire (w : World) (key : str) : option World :=
  match permits_free w !! key with
  | Some (S free) => Some (set_permits w (<[key := free]> (permits_free w)))
  | _ => None
  end.
Definition release_permit (w : World) (key : str) : World :=
  set_permits w (alter S key (permits_free w)).

(** ** The layers *)

(** Policy names are unique within one organisation only. *)
Definition quota_key (scope : option str) (policy : str) : str :=
  match scope with Some scope => scope ++ "/" ++ policy | None => policy end.

Definition decision_of (req : TunnelRequest) : option Allowed := authorized req ≫= auth_decision.

(** The limiters a decision needs, created if they are new. *)
Definition tunnel_limits (w : World) (key : str → str) (d : option Allowed) : TunnelLimits * World :=
  match d with
  | None => (no_limits, w)
  | Some allowed =>
      let k := key (a_policy allowed) in
      let l := a_limits allowed in
      let '(bw, w) := match bandwidth_bits_per_sec l with
                      | Some bits => (Some k, bandwidth_for w k bits)
                      | None => (None, w)
                      end in
      let '(pr, w) := match packets_per_sec l with
                      | Some pps => (Some k, packets_for w k pps)
                      | None => (None, w)
                      end in
      (mkTunnelLimits bw pr (total_bytes l) None, w)
  end.

Definition limit_reached : Rejection :=
  with_proxy_error
    (new_rejection 503 "the concurrent tunnel limit for this policy is reached")
    "connection_limit_reached".

Definition finish (permit : option str) (limits : TunnelLimits) (a : Accepted) : Accepted :=
  let a := match permit with Some k => hold a k | None => a end in
  if limits_empty limits then a else with_limits a limits.

(** The part of a call that runs before the inner service is awaited: the
    limiters are looked up and the permit is taken. *)
Record Reserved : Type := mkReserved {
  rv_request : TunnelRequest;
  rv_permit : option str;
  rv_limits : TunnelLimits;
}.

(** The semaphore a request needs a permit of, and the size it is created with. *)
Definition wanted (req : TunnelRequest) : option (str * nat) :=
  allowed ← decision_of req;
  max ← concurrent_connections (a_limits allowed);
  Some (quota_key (ext_tenant req) (a_policy allowed), Z.to_nat max).

Definition reserve (req : TunnelRequest) (w : World) : result Rejection Reserved * World :=
  let '(limits, w) := tunnel_limits w (quota_key (ext_tenant req)) (decision_of req) in
  match wanted req with
  | None => (Ok (mkReserved req None limits), w)
  | Some (k, max) =>
      let w := semaphore_for w k max in
      match try_acquire w k with
      | None => (Err limit_reached, w)
      | Some w => (Ok (mkReserved req (Some k) limits), w)
      end
  end.

Record Meter (S : Type) : Type := mkMeter { me_inner : S }.
Arguments mkMeter {S} me_inner.
Arguments me_inner {S} m : rename.

(** What is left of the call: a permit the tunnel does not take along is dropped. *)
Definition release_all (w : World) (permits : list str) : World := fold_left release_permit permits w.

Definition settle {S : Type} `{Service S} (s : Meter S) (rv : Reserved) (w : World) : answer * World :=
  let '(r, w) := call (me_inner s) (rv_request rv) w in
  match r with
  | Ok a => (Ok (finish (rv_permit rv) (rv_limits rv) a), w)
  | Err e => (Err e, release_all w (option_list (rv_permit rv)))
  end.

#[global] Instance meter_service {S : Type} `{Service S} : Service (Meter S) :=
  λ s req w,
    let '(r, w) := reserve req w in
    match r with
    | Ok rv => settle s rv w
    | Err e => (Err e, w)
    end.

Record TenantMetered (S : Type) : Type := mkTenantMetered { tm_inner : S }.
Arguments mkTenantMetered {S} tm_inner.
Arguments tm_inner {S} m : rename.

#[global] Instance tenant_metered_service {S : Type} `{Service S} : Service (TenantMetered S) :=
  λ s req w,
    match ext_tenant req with
    | Some org =>
        let '(r, w) := call (tm_inner s) req (set_usage w (meter_for (usage w) org)) in
        ((λ a, with_meter a org) <$> r, w)
    | None => call (tm_inner s) req w
    end.

(** ** Tunnels come and go *)

(** What the quota layer asks of the service below it: it leaves the permits
    alone and reserves none of its own. *)
Class LeavesPermits (T : Type) `{Service T} : Prop := leaves_permits :
  ∀ (s : T) req w, permits_free (call s req w).2 = permits_free w ∧
    ∀ a, (call s req w).1 = Ok a → acc_guards a = [].

#[global] Instance dispatch_leaves_permits `{Network} : LeavesPermits Dispatch.
Proof.
  intros s req w. pose proof (dispatch_call s req w) as Hd.
  destruct (serves s req) as [[[floor open] raw]|] eqn:Hs.
  - rewrite Hd. cbn [fst snd]. split; [done|]. intros a (c & pre & addr & post & _ & _ & _ & Ho & _)%open_to_Ok.
    apply serves_open in Hs as [->| ->]; unfold udp_open, tcp_open in Ho.
    + destruct (connect_udp addr); [by injection Ho as <-|done].
    + destruct (connect_tcp addr); [by injection Ho as <-|done].
  - destruct Hd as (e & -> & _). done.
Qed.

(** ** The pool *)

(** The gateway as the quota layer sees it: calls under way and tunnels open. *)
Record Pool : Type := mkPool {
  pool_world : World;
  opening : list Reserved;
  live : list Accepted;
}.

Section pool.
Context {T : Type} {HS : Service T} {HL : LeavesPermits T}.
Variable s : Meter T.

(** Calls interleave.  A call first reserves ([begins], [refused]), later its inner
    service answers ([opened], [failed]) unless the client is gone by then
    ([dropped]); an open tunnel drops its guards when it ends ([closed]); and
    anything else may happen that leaves the permits alone ([elsewhere]). *)
Inductive pool_step : Pool → list TunnelRequest → Pool → Prop :=
  | begins w w' os ls req rv :
      reserve req w = (Ok rv, w') →
      pool_step (mkPool w os ls) [req] (mkPool w' (rv :: os) ls)
  | refused w w' os ls req e :
      reserve req w = (Err e, w') →
      pool_step (mkPool w os ls) [req] (mkPool w' os ls)
  | opened w w' pre rv post ls a :
      settle s rv w = (Ok a, w') →
      pool_step (mkPool w (pre ++ rv :: post) ls) [] (mkPool w' (pre ++ post) (a :: ls))
  | failed w w' pre rv post ls e :
      settle s rv w = (Err e, w') →
      pool_step (mkPool w (pre ++ rv :: post) ls) [] (mkPool w' (pre ++ post) ls)
  | dropped w pre rv post ls :
      pool_step (mkPool w (pre ++ rv :: post) ls) []
        (mkPool (release_all w (option_list (rv_permit rv))) (pre ++ post) ls)
  | closed w os pre a post :
      pool_step (mkPool w os (pre ++ a :: post)) []
        (mkPool (release_all w (acc_guards a)) os (pre ++ post))
  | elsewhere w w' os ls :
      permits_free w' = permits_free w →
      pool_step (mkPool w os ls) [] (mkPool w' os ls).

(** Pools reachable from an empty one, with the requests that came in so far. *)
Inductive pool_reaches : list TunnelRequest → Pool → Prop :=
  | pool_empty w : permits_free w = ∅ → pool_reaches [] (mkPool w [] [])
  | pool_later history p reqs p' :
      pool_reaches history p → pool_step p reqs p' → pool_reaches (history ++ reqs) p'.

(** How many permits of a semaphore are out, and the size it was created with. *)
Definition copies (k : str) (l : list str) : nat := length (filter (λ x, x = k) l).
Definition held (k : str) (p : Pool) : nat :=
  copies k (omap rv_permit (opening p) ++ (live p ≫= acc_guards)).
Definition first_limit (history : list TunnelRequest) (k : str) : option nat :=
  snd <$> head (filter (λ kn, kn.1 = k) (omap wanted history)).

Definition balanced (k : str) (history : list TunnelRequest) (p : Pool) : Prop :=
  match permits_free (pool_world p) !! k with
  | Some free => first_limit history k = Some (free + held k p)%nat
  | None => first_limit history k = None ∧ held k p = 0%nat
  end.

Lemma copies_app k l l' : copies k (l ++ l') = (copies k l + copies k l')%nat.
Proof. unfold copies. by rewrite filter_app, length_app. Qed.
Lemma copies_cons k x l : copies k (x :: l) = ((if decide (x = k) then 1 else 0) + copies k l)%nat.
Proof. unfold copies. rewrite filter_cons. by case_decide. Qed.
Lemma copies_permit k rv l :
  copies k (omap rv_permit (rv :: l)) = (copies k (option_list (rv_permit rv)) + copies k (omap rv_permit l))%nat.
Proof. unfold copies. simpl. destruct (rv_permit rv); simpl; [|done]. rewrite !filter_cons. by case_decide. Qed.

Lemma held_opening k w w' pre rv post ls :
  held k (mkPool w (pre ++ rv :: post) ls) =
    (copies k (option_list (rv_permit rv)) + held k (mkPool w' (pre ++ post) ls))%nat.
Proof.
  unfold held. cbn [opening live]. rewrite !omap_app, !copies_app, copies_permit. lia.
Qed.
Lemma held_live k w w' os pre a post :
  held k (mkPool w os (pre ++ a :: post)) = (copies k (acc_guards a) + held k (mkPool w' os (pre ++ post)))%nat.
Proof.
  unfold held. cbn [opening live]. rewrite !bind_app, bind_cons, !copies_app. lia.
Qed.

Lemma release_all_permits k l w :
  permits_free (release_all w l) !! k = (λ n, n + copies k l)%nat <$> permits_free w !! k.
Proof.
  revert w. induction l as [|x l IH]; intros w; cbn [release_all fold_left].
  - change (copies k []) with 0%nat. destruct (permits_free w !! k); [|done]. cbn. f_equal. lia.
  - fold (release_all (release_permit w x) l). rewrite IH, copies_cons. unfold release_permit, set_permits.
    cbn [permits_free]. case_decide as Hx.
    + subst. rewrite lookup_alter_eq. destruct (permits_free w !! k); [|done]. cbn. f_equal. lia.
    + rewrite lookup_alter_ne by done. destruct (permits_free w !! k); [|done]. cbn. f_equal.
Qed.

Lemma tunnel_limits_permits w key d : permits_free (tunnel_limits w key d).2 = permits_free w.
Proof.
  destruct d as [a|]; [|done]. unfold tunnel_limits.
  destruct (bandwidth_bits_per_sec (a_limits a)), (packets_per_sec (a_limits a)); done.
Qed.

Lemma reserve_spec req w :
  match wanted req with
  | None => ∃ rv w', reserve req w = (Ok rv, w') ∧ rv_permit rv = None ∧ permits_free w' = permits_free w
  | Some (k, max) =>
      match default max (permits_free w !! k) with
      | 0%nat => ∃ w', reserve req w = (Err limit_reached, w') ∧
          permits_free w' = or_insert (permits_free w) k max
      | S free => ∃ rv w', reserve req w = (Ok rv, w') ∧ rv_permit rv = Some k ∧
          rv_request rv = req ∧ permits_free w' = <[k := free]> (permits_free w)
      end
  end.
Proof.
  unfold reserve. pose proof (tunnel_limits_permits w (quota_key (ext_tenant req)) (decision_of req)) as Hp.
  destruct (tunnel_limits _ _ _) as [limits w1]. cbn in Hp.
  destruct (wanted req) as [[k max]|]; [|eauto].
  unfold try_acquire, semaphore_for, set_permits, or_insert. cbn [permits_free]. rewrite Hp.
  destruct (permits_free w !! k) as [n|] eqn:Hk; cbn [default].
  - rewrite Hk. destruct n as [|free]; eexists; [|eexists]; eauto.
  - rewrite lookup_insert_eq. destruct max as [|free]; eexists; [|eexists]; eauto.
    split_and!; [done..|]. cbn. by rewrite insert_insert_eq.
Qed.

Lemma first_limit_snoc history req k :
  first_limit (history ++ [req]) k =
  match first_limit history k with
  | Some n => Some n
  | None => '(k', n) ← wanted req; if decide (k' = k) then Some n else None
  end.
Proof.
  unfold first_limit. rewrite omap_app, filter_app.
  destruct (filter _ (omap wanted history)) as [|x l]; [|done]. cbn.
  destruct (wanted req) as [[k' n]|]; [|done]. cbn. by case_decide.
Qed.

Lemma finish_guards permit limits a : acc_guards (finish permit limits a) = acc_guards a ++ option_list permit.
Proof. unfold finish. destruct permit, (limits_empty limits); cbn; by rewrite ?app_nil_r. Qed.

(** What the rest of a call does to the permits. *)
Lemma settle_permits rv w r w' :
  settle s rv w = (r, w') →
  match r with
  | Ok a => permits_free w' = permits_free w ∧ acc_guards a = option_list (rv_permit rv)
  | Err _ => ∀ k, permits_free w' !! k =
      (λ n, n + copies k (option_list (rv_permit rv)))%nat <$> permits_free w !! k
  end.
Proof.
  unfold settle. destruct (leaves_permits (me_inner s) (rv_request rv) w) as [Hw Ha].
  destruct (call (me_inner s) (rv_request rv) w) as [[a|e] w1]; cbn in *; intros [= <- <-].
  - split; [done|]. by rewrite finish_guards, (Ha a).
  - intros k. by rewrite release_all_permits, Hw.
Qed.

(** Giving back permits keeps the books balanced. *)
Lemma balanced_release k history p p' l :
  balanced k history p → held k p = (copies k l + held k p')%nat →
  permits_free (pool_world p') !! k = (λ n, n + copies k l)%nat <$> permits_free (pool_world p) !! k →
  balanced k history p'.
Proof.
  unfold balanced. intros Hb Hh Hp. rewrite Hp. destruct (permits_free (pool_world p) !! k); cbn.
  - rewrite Hb. f_equal. lia.
  - destruct Hb. split; [done|lia].
Qed.

(** What reserving does to each semaphore: it is created at need, and a permit
    taken is gone from it. *)
Definition created (req : TunnelRequest) (k : str) : option nat :=
  '(k', n) ← wanted req; if decide (k' = k) then Some n else None.
Definition taken (r : result Rejection Reserved) : list str :=
  match r with Ok rv => option_list (rv_permit rv) | Err _ => [] end.

Lemma reserve_effect req w r w' k :
  reserve req w = (r, w') →
  match (match permits_free w !! k with Some n => Some n | None => created req k end) with
  | Some n => ∃ free, permits_free w' !! k = Some free ∧ n = (free + copies k (taken r))%nat
  | None => permits_free w' !! k = None ∧ copies k (taken r) = 0%nat
  end.
Proof.
  intros Hr. pose proof (reserve_spec req w) as Hs. unfold created.
  destruct (wanted req) as [[k' max]|]; cbn [mbind option_bind].
  2: { destruct Hs as (rv & w1 & Hs & Hv & Hp). rewrite Hs in Hr. injection Hr as <- <-. cbn [taken].
       rewrite Hp, Hv. change (copies k (option_list None)) with 0%nat.
       destruct (permits_free w !! k); eauto. }
  assert (∀ rv, rv_permit rv = Some k' → copies k (taken (Ok rv)) = if decide (k' = k) then 1%nat else 0%nat)
    as Hc by (intros rv Hv; cbn [taken]; rewrite Hv; change (option_list (Some k')) with [k']; rewrite copies_cons; by case_decide).
  destruct (default max (permits_free w !! k')) as [|free] eqn:Hd.
  - destruct Hs as (w1 & Hs & Hp). rewrite Hs in Hr. injection Hr as <- <-. rewrite Hp. unfold or_insert.
    change (copies k (taken (Err limit_reached))) with 0%nat. case_decide as He.
    + subst. destruct (permits_free w !! k) eqn:Hk; cbn in *; subst; [eauto|]. rewrite lookup_insert_eq. eauto.
    + destruct (permits_free w !! k') eqn:Hk'; rewrite ?lookup_insert_ne by done;
        destruct (permits_free w !! k) eqn:Hk; eauto.
  - destruct Hs as (rv & w1 & Hs & Hv & _ & Hp). rewrite Hs in Hr. injection Hr as <- <-.
    rewrite Hp, (Hc rv Hv). case_decide as He.
    + subst. rewrite lookup_insert_eq. destruct (permits_free w !! k) eqn:Hk; cbn in *; subst; exists free; split; auto; lia.
    + rewrite lookup_insert_ne by done. destruct (permits_free w !! k); eauto.
Qed.

Lemma balanced_reserve k history w os ls req r w' os' :
  balanced k history (mkPool w os ls) → reserve req w = (r, w') →
  held k (mkPool w' os' ls) = (copies k (taken r) + held k (mkPool w os ls))%nat →
  balanced k (history ++ [req]) (mkPool w' os' ls).
Proof.
  unfold balanced. cbn [pool_world]. intros Hb Hr Hh. pose proof (reserve_effect req w r w' k Hr) as He.
  rewrite first_limit_snoc, Hh. fold (created req k).
  destruct (permits_free w !! k) as [n|]; cbn in He.
  - destruct He as (free & -> & ->). rewrite Hb. f_equal. lia.
  - destruct Hb as [-> H0]. rewrite H0.
    destruct (created req k); [destruct He as (free & -> & ->); f_equal; lia|].
    destruct He as [-> ->]. done.
Qed.

Lemma pool_balanced history p k : pool_reaches history p → balanced k history p.
Proof.
  induction 1 as [w Hw|history p reqs p' _ IH Hstep].
  { unfold balanced. cbn [pool_world]. by rewrite Hw, lookup_empty. }
  destruct Hstep as [w w' os ls req rv Hr|w w' os ls req e Hr|w w' pre rv post ls a Hs|w w' pre rv post ls e Hs
    |w pre rv post ls|w os pre a post|w w' os ls Hp]; rewrite ?app_nil_r.
  - eapply balanced_reserve; [done..|]. exact (held_opening k w' w [] rv os ls).
  - by eapply balanced_reserve.
  - apply settle_permits in Hs as [Hw Hg]. eapply (balanced_release _ _ _ _ [] IH); cbn [pool_world].
    + change (copies k []) with 0%nat. rewrite (held_opening k w w'), (held_live k w' w' _ [] a ls), Hg. done.
    + rewrite Hw. change (copies k []) with 0%nat. destruct (permits_free w !! k); [|done]. cbn. f_equal. lia.
  - apply settle_permits in Hs. eapply (balanced_release _ _ _ _ _ IH); [apply held_opening|]. done.
  - eapply (balanced_release _ _ _ _ _ IH); [apply held_opening|]. apply release_all_permits.
  - eapply (balanced_release _ _ _ _ _ IH); [apply held_live|]. apply release_all_permits.
  - unfold balanced in *. cbn [pool_world] in *. by rewrite Hp.
Qed.

(** C6.  The concurrent-tunnel limit holds however calls interleave: the permits
    out for a policy, over tunnels open and calls under way, never exceed the
    limit it was first seen with, and no permit is ever lost, so that a request is
    refused with [limit_reached] exactly when all of that limit is out.  A request
    whose decision carries no limit is never refused. *)
Theorem quota_exact (history : list TunnelRequest) (p : Pool) :
  pool_reaches history p →
  (∀ k n, first_limit history k = Some n → (held k p ≤ n)%nat) ∧
  ∀ req, (reserve req (pool_world p)).1 = Err limit_reached ↔
    ∃ k max, wanted req = Some (k, max) ∧ held k p = default max (first_limit history k).
Proof.
  intros Hreach. split.
  - intros k n Hn. pose proof (pool_balanced _ _ k Hreach) as Hb. unfold balanced in Hb.
    destruct (permits_free (pool_world p) !! k); [rewrite Hn in Hb; injection Hb as ->; lia|].
    destruct Hb. congruence.
  - intros req. pose proof (reserve_spec req (pool_world p)) as Hs.
    destruct (wanted req) as [[k max]|].
    + pose proof (pool_balanced _ _ k Hreach) as Hb. unfold balanced in Hb. split.
      * intros Hr. exists k, max. split; [done|].
        destruct (permits_free (pool_world p) !! k) as [n|]; cbn in Hs.
        -- rewrite Hb. destruct n; [done|]. destruct Hs as (rv & w' & Hs & _). by rewrite Hs in Hr.
        -- destruct Hb as [-> ->]. destruct max; [done|]. destruct Hs as (rv & w' & Hs & _). by rewrite Hs in Hr.
      * intros (? & ? & [= <- <-] & Hh).
        destruct (permits_free (pool_world p) !! k) as [n|]; cbn in Hs.
        -- rewrite Hb in Hh. cbn in Hh. destruct n; [|lia]. destruct Hs as (w' & -> & _). done.
        -- destruct Hb as [Hf H0]. rewrite Hf, H0 in Hh. cbn in Hh. subst. destruct Hs as (w' & -> & _). done.
    + destruct Hs as (rv & w' & -> & _). split; [done|]. by intros (? & ? & ? & _).
Qed.
End pool.

(** ** The layer's answer *)

Lemma reserve_request req w rv w' : reserve req w = (Ok rv, w') → rv_request rv = req.
Proof.
  unfold reserve. destruct (tunnel_limits _ _ _) as [limits w1], (wanted req) as [[k max]|];
    [|by intros [= <- _]].
  destruct (try_acquire _ k); [by intros [= <- _]|done].
Qed.

Lemma meter_Ok {T : Type} `{Service T} (s : Meter T) req w a w' :
  call s req w = (Ok a, w') ↔
  ∃ rv w1 a0, reserve req w = (Ok rv, w1) ∧ call (me_inner s) req w1 = (Ok a0, w') ∧
    a = finish (rv_permit rv) (rv_limits rv) a0.
Proof.
  change (call s req w) with (meter_service s req w). unfold meter_service, settle.
  destruct (reserve req w) as [[rv|e] w1] eqn:Hr; [|split; [done|by intros (? & ? & ? & ? & _)]].
  rewrite (reserve_request _ _ _ _ Hr). split.
  - destruct (call (me_inner s) req w1) as [[a0|e] w2] eqn:Hc; [|done]. intros [= <- <-]. eauto 10.
  - by intros (? & ? & a0 & [= <- <-] & -> & ->).
Qed.

Lemma tenant_metered_Ok {T : Type} `{Service T} (s : TenantMetered T) req w a w' :
  call s req w = (Ok a, w') ↔
  match ext_tenant req with
  | None => call (tm_inner s) req w = (Ok a, w')
  | Some org => ∃ a0, call (tm_inner s) req (set_usage w (meter_for (usage w) org)) = (Ok a0, w') ∧
      a = with_meter a0 org
  end.
Proof.
  change (call s req w) with (tenant_metered_service s req w). unfold tenant_metered_service.
  destruct (ext_tenant req) as [org|]; [|done].
  destruct (call (tm_inner s) req _) as [[a0|e] w0]; cbn; split.
  - intros [= <- <-]. eauto.
  - by intros (a1 & [= -> ->] & ->).
  - done.
  - by intros (? & ? & _).
Qed.

(** ** Tenants do not share *)

(** Keys are apart for different organisations and policies as long as no
    organisation id holds a slash. *)
Lemma quota_key_inj org org' p p' :
  47 ∉ org → 47 ∉ org' → quota_key (Some org) p = quota_key (Some org') p' → org = org' ∧ p = p'.
Proof.
  cbn [quota_key]. intros Ho Ho' Heq.
  assert (split_once 47 (org ++ "/" ++ p) = Some (org, p)) as Hs by by apply split_once_Some.
  rewrite Heq in Hs.
  assert (split_once 47 (org' ++ "/" ++ p') = Some (org', p')) as Hs' by by apply split_once_Some.
  rewrite Hs in Hs'. by injection Hs' as -> ->.
Qed.

(** With a slash in an id they need not be. *)
Lemma quota_key_collides :
  quota_key (Some (of_string "a")) "b/c" = quota_key (Some (of_string "a/b")) "c".
Proof. reflexivity. Qed.

(** ** One permit, two requests *)

#[local] Existing Instance sample_network.

Definition one_tunnel : Allowed :=
  mkAllowed "grant" "rule 0" None (mkLimits None None (Some 1) None None None) default_session.
Definition limited_request : TunnelRequest :=
  with_authorized (udp_to "mixed.example")
    (authorized_by (mkTarget (Target.Name "mixed.example") 443) one_tunnel).
Definition sample_meter : Meter Dispatch := mkMeter sample_dispatch.

Lemma quota_exact_witness :
  let w := (reserve limited_request sample_world).2 in
  let p := mkPool w [mkReserved limited_request (Some (of_string "grant")) no_limits] [] in
  pool_reaches sample_meter [limited_request] p ∧
  (reserve limited_request sample_world).1 ≠ Err limit_reached ∧
  (reserve limited_request w).1 = Err limit_reached.
Proof.
  intros w p.
  assert (pool_reaches sample_meter [limited_request] p) as Hp.
  { apply (pool_later _ [] (mkPool sample_world [] []) [limited_request]); [by apply pool_empty|].
    apply begins. reflexivity. }
  split; [exact Hp|]. split; [by vm_compute|].
  apply (proj2 (quota_exact sample_meter [limited_request] p Hp)).
  exists (of_string "grant"), 1%nat. split; reflexivity.
Defined.
