(* ===== verification/IpPool.v ===== *)
(** * The address pool of a CONNECT-IP proxy

    Model of the pool of [crates/skimasque/src/connect_ip.rs]: the leasable
    range of a prefix, leasing with a rotating cursor, and releasing.  The
    mutex makes every operation atomic, so the pool is a state and the
    operations are functions on it.  [u128] arithmetic wraps, as it does in a
    release build; a [HashSet] is a [gset]. *)

From S2P Require Import Prelude RustStr RustNet ConnectIp.

Definition to_integer (a : IpAddr) : Z := match a with V4 b | V6 b => b end.
Definition from_integer (value : Z) (v6 : bool) : IpAddr :=
  if v6 then V6 value else V4 (wrap 32 value).

Definition saturating_add128 (a b : Z) : Z := Z.min (a + b) u128_max.
(** [1u128.checked_shl(n).unwrap_or(0)]. *)
Definition shl_or_zero (n : Z) : Z := if n <? 128 then wrap 128 (Z.shiftl 1 n) else 0.

Definition usable_bounds (p : IpPrefix) : Z * Z :=
  let v6 := is_ipv6 (addr p) in
  let bits := if v6 then 128 else 32 in
  let base := to_integer (addr p) in
  let host_bits := bits - prefix_len p in
  let size := shl_or_zero host_bits in
  let last := wrap 128 (wrap 128 (base + size) - 1) in
  if (host_bits =? 0) || (host_bits =? 1) then (base, last)
  else if v6 then (wrap 128 (base + 1), last)
  else (wrap 128 (base + 1), wrap 128 (last - 1)).

Record PoolState : Type := mkPool {
  pool_prefix : IpPrefix;
  first_lease : Z;
  last_lease : Z;
  cursor : Z;
  leased : gset Z;
}.

Definition new_pool (p : IpPrefix) : PoolState :=
  let '(first_usable, last_usable) := usable_bounds p in
  let first := saturating_add128 first_usable 1 in
  mkPool p first last_usable first ∅.

(** [IpAddressPool::parse]; the error text is left out. *)
Definition parse_pool (input : str) : option PoolState :=
  '(a, len) ← split_once 47 input;
  a ← parse_ip a;
  len ← parse_u8 len;
  p ← result_ok (new_prefix a len);
  Some (new_pool p).

Definition proxy_address (st : PoolState) : IpAddr :=
  from_integer (usable_bounds (pool_prefix st)).1 (is_ipv6 (addr (pool_prefix st))).

Definition capacity (st : PoolState) : Z :=
  if last_lease st <? first_lease st then 0 else wrap 128 (last_lease st - first_lease st + 1).

Definition leased_count (st : PoolState) : nat := size (leased st).

Record IpLease : Type := mkLease { key : Z; lease_prefix : IpPrefix }.
Definition lease_address (l : IpLease) : IpAddr := addr (lease_prefix l).

(** ** The search loop *)

Inductive search : Type :=
  | Searching (candidate : Z)
  | Found (candidate : Z).

Definition search_step (st : PoolState) (s : search) : search :=
  match s with
  | Found c => Found c
  | Searching c =>
      let c := if last_lease st <? c then first_lease st else c in
      if bool_decide (c ∈ leased st) then Searching (saturating_add128 c 1) else Found c
  end.

(** [for _ in 0..n]: up to [n] turns, leaving as soon as one succeeds. *)
Fixpoint search_loop (st : PoolState) (n : positive) (s : search) : search :=
  match s with
  | Found c => Found c
  | Searching _ =>
      match n with
      | xH => search_step st s
      | xO n => search_loop st n (search_loop st n s)
      | xI n => search_step st (search_loop st n (search_loop st n s))
      end
  end.

Definition lease (st : PoolState) : option IpLease * PoolState :=
  if last_lease st <? first_lease st then (None, st)
  else
    let span := wrap 128 (last_lease st - first_lease st + 1) in
    match (match span with Z.pos n => search_loop st n (Searching (cursor st))
                         | _ => Searching (cursor st) end) with
    | Found c =>
        (Some (mkLease c (host_prefix (from_integer c (is_ipv6 (addr (pool_prefix st)))))),
         mkPool (pool_prefix st) (first_lease st) (last_lease st) (saturating_add128 c 1)
           ({[ c ]} ∪ leased st))
    | Searching _ => (None, st)
    end.

(** [release], run when an [IpLease] is dropped. *)
Definition release (st : PoolState) (k : Z) : PoolState :=
  mkPool (pool_prefix st) (first_lease st) (last_lease st) (cursor st) (leased st ∖ {[ k ]}).

(** ** The loop is the iteration of its body *)

Lemma search_step_found st c : search_step st (Found c) = Found c.
Proof. done. Qed.

Lemma iter_found st n c : Nat.iter n (search_step st) (Found c) = Found c.
Proof. induction n as [|n IH]; [done|]. simpl. by rewrite IH. Qed.

Lemma search_loop_iter st n s : search_loop st n s = Nat.iter (Pos.to_nat n) (search_step st) s.
Proof.
  revert s. induction n as [n IH|n IH|]; intros s;
    (destruct s as [c|c]; [|rewrite iter_found; done]).
  - cbn [search_loop]. rewrite !IH.
    replace (Pos.to_nat n~1) with (S (Pos.to_nat n + Pos.to_nat n)) by lia.
    by rewrite <- Nat.iter_add.
  - cbn [search_loop]. rewrite !IH.
    replace (Pos.to_nat n~0) with (Pos.to_nat n + Pos.to_nat n)%nat by lia.
    by rewrite Nat.iter_add.
  - done.
Qed.

(** ** The leasable range *)

Definition host_bits (p : IpPrefix) : Z := address_bits (addr p) - prefix_len p.

Lemma prefix_end p :
  prefix_ok p → 0 ≤ host_bits p ≤ address_bits (addr p) ∧ 0 ≤ to_integer (addr p) ∧
    to_integer (addr p) + 2 ^ host_bits p ≤ 2 ^ address_bits (addr p).
Proof.
  intros (Hip & Hl & Hm). unfold host_bits. apply ip_bits_bound in Hip as Hb.
  change (ip_bits (addr p)) with (to_integer (addr p)) in *. split; [lia|]. split; [lia|].
  set (w := address_bits (addr p)) in *. set (b := to_integer (addr p)) in *.
  assert (0 < 2 ^ (w - prefix_len p)) by (apply Z.pow_pos_nonneg; lia).
  assert (0 < 2 ^ prefix_len p) by (apply Z.pow_pos_nonneg; lia).
  assert (2 ^ w = 2 ^ prefix_len p * 2 ^ (w - prefix_len p)) as Hw
    by (rewrite <- Z.pow_add_r by lia; f_equal; lia).
  pose proof (Z.div_mod b (2 ^ (w - prefix_len p)) ltac:(lia)) as Hd. rewrite Hm in Hd.
  assert (b / 2 ^ (w - prefix_len p) < 2 ^ prefix_len p) by (apply Z.div_lt_upper_bound; lia). nia.
Qed.

Lemma usable_bounds_spec p :
  prefix_ok p →
  let base := to_integer (addr p) in
  let last := base + 2 ^ host_bits p - 1 in
  usable_bounds p =
    if host_bits p <=? 1 then (base, last)
    else if is_ipv6 (addr p) then (base + 1, last) else (base + 1, last - 1).
Proof.
  intros Hp. destruct (prefix_end p Hp) as (Hh & Hb & He). cbv zeta. unfold usable_bounds.
  assert ((if is_ipv6 (addr p) then 128 else 32) - prefix_len p = host_bits p) as ->
    by (unfold host_bits; by destruct (addr p)).
  set (h := host_bits p) in *. set (b := to_integer (addr p)) in *.
  assert (2 ^ address_bits (addr p) ≤ 2 ^ 128) as H128
    by (pose proof (address_bits_bound (addr p)); apply Z.pow_le_mono_r; lia).
  assert (0 < 2 ^ h) as Hpos by (apply Z.pow_pos_nonneg; lia).
  assert (wrap 128 (wrap 128 (b + shl_or_zero h) - 1) = b + 2 ^ h - 1) as ->.
  { assert (wrap 128 (b + shl_or_zero h) = (b + 2 ^ h) mod 2 ^ 128) as ->.
    { unfold wrap, shl_or_zero. destruct (Z.ltb_spec h 128) as [Hlt|Hge].
      - rewrite Z.shiftl_1_l. unfold wrap. rewrite (Z.mod_small (2 ^ h)); [done|].
        split; [lia|]. apply Z.pow_lt_mono_r; lia.
      - pose proof (address_bits_bound (addr p)). assert (h = 128) as -> by lia.
        rewrite Z.add_0_r. rewrite <- (Z.mod_add b 1 (2 ^ 128)) by lia. f_equal; lia. }
    unfold wrap. rewrite Zminus_mod_idemp_l. apply Z.mod_small. lia. }
  destruct (Z.leb_spec h 1) as [H1|H1].
  - assert ((h =? 0) || (h =? 1) = true) as ->; [|done].
    destruct (Z.eqb_spec h 0), (Z.eqb_spec h 1); simpl; done || lia.
  - assert ((h =? 0) || (h =? 1) = false) as ->
      by (destruct (Z.eqb_spec h 0), (Z.eqb_spec h 1); simpl; done || lia).
    assert (2 ^ 2 ≤ 2 ^ h) by (apply Z.pow_le_mono_r; lia).
    unfold wrap. rewrite !Z.mod_small by lia. by destruct (is_ipv6 (addr p)).
Qed.

(** ** Invariant *)

Definition pool_ok (st : PoolState) : Prop :=
  0 ≤ first_lease st ≤ cursor st ∧ cursor st ≤ u128_max ∧ 0 ≤ last_lease st ≤ u128_max ∧
  ∀ k, k ∈ leased st → first_lease st ≤ k ≤ last_lease st.

Definition same_range (st st' : PoolState) : Prop :=
  pool_prefix st' = pool_prefix st ∧ first_lease st' = first_lease st ∧
  last_lease st' = last_lease st.

Definition search_ok (st : PoolState) (s : search) : Prop :=
  match s with
  | Searching c => first_lease st ≤ c
  | Found c => first_lease st ≤ c ≤ last_lease st ∧ c ∉ leased st
  end.

Lemma search_step_ok st s :
  pool_ok st → first_lease st ≤ last_lease st → search_ok st s → search_ok st (search_step st s).
Proof.
  intros (Hf & _ & Hl & _) Hfl. destruct s as [c|c]; [|done]. simpl. intros Hc.
  destruct (Z.ltb_spec (last_lease st) c); case_bool_decide; simpl;
    unfold saturating_add128, u128_max in *; try split; done || lia.
Qed.

Lemma search_iter_ok st n s :
  pool_ok st → first_lease st ≤ last_lease st → search_ok st s →
  search_ok st (Nat.iter n (search_step st) s).
Proof. intros Hp Hfl Hs. induction n as [|n IH]; [done|]. by apply search_step_ok. Qed.

(** The number of turns of the loop, as a natural number. *)
Definition turns (st : PoolState) : nat := Z.to_nat (wrap 128 (last_lease st - first_lease st + 1)).

Lemma lease_iter st :
  lease st =
    if last_lease st <? first_lease st then (None, st)
    else
      match Nat.iter (turns st) (search_step st) (Searching (cursor st)) with
      | Found c =>
          (Some (mkLease c (host_prefix (from_integer c (is_ipv6 (addr (pool_prefix st)))))),
           mkPool (pool_prefix st) (first_lease st) (last_lease st) (saturating_add128 c 1)
             ({[ c ]} ∪ leased st))
      | Searching _ => (None, st)
      end.
Proof.
  unfold lease, turns. destruct (last_lease st <? first_lease st); [done|].
  destruct (wrap 128 _) as [|n|n] eqn:Hs; [done|by rewrite search_loop_iter|].
  unfold wrap in Hs. pose proof (Z.mod_pos_bound (last_lease st - first_lease st + 1) (2 ^ 128)). lia.
Qed.

(** A successful lease takes a free address of the range, and nothing else changes. *)
Lemma lease_Some st l st' :
  pool_ok st → lease st = (Some l, st') →
  first_lease st ≤ key l ≤ last_lease st ∧ key l ∉ leased st ∧
  lease_prefix l = host_prefix (from_integer (key l) (is_ipv6 (addr (pool_prefix st)))) ∧
  leased st' = {[ key l ]} ∪ leased st ∧ same_range st st' ∧ pool_ok st'.
Proof.
  intros Hp. rewrite lease_iter. destruct (Z.ltb_spec (last_lease st) (first_lease st)); [done|].
  assert (search_ok st (Nat.iter (turns st) (search_step st) (Searching (cursor st)))) as Hs
    by (apply search_iter_ok; [done|done|]; destruct Hp as ([_ ?] & _); done).
  destruct (Nat.iter _ _ _) as [c|c]; [done|]. intros [= <- <-]. destruct Hs as [Hr Hn].
  destruct Hp as (Hf & Hc & Hl & Hin). destruct Hr. split_and!; try done.
  unfold pool_ok. cbn [first_lease last_lease cursor leased]. unfold saturating_add128.
  split; [lia|]. split; [lia|]. split; [lia|]. intros k [->%elem_of_singleton|Hk]%elem_of_union; [done|by apply Hin].
Qed.

Lemma lease_None st st' : lease st = (None, st') → st' = st.
Proof.
  rewrite lease_iter. destruct (last_lease st <? first_lease st); [naive_solver|].
  destruct (Nat.iter _ _ _); naive_solver.
Qed.

Lemma release_ok st k : pool_ok st → pool_ok (release st k) ∧ same_range st (release st k).
Proof.
  intros (Hf & Hc & Hl & Hin). split; [|done]. unfold pool_ok, release. cbn [first_lease last_lease cursor leased].
  split; [lia|]. split; [lia|]. split; [lia|]. intros x [Hx _]%elem_of_difference. by apply Hin.
Qed.

(** ** The search visits the whole range *)

Lemma search_visits st n c0 :
  pool_ok st → first_lease st ≤ last_lease st < u128_max → first_lease st ≤ c0 ≤ last_lease st + 1 →
  let span := last_lease st - first_lease st + 1 in
  let start := (if last_lease st <? c0 then first_lease st else c0) - first_lease st in
  match Nat.iter n (search_step st) (Searching c0) with
  | Found _ => True
  | Searching c =>
      first_lease st ≤ c ≤ last_lease st + 1 ∧
      (if last_lease st <? c then first_lease st else c) =
        first_lease st + (start + Z.of_nat n) mod span ∧
      ∀ j, 0 ≤ j < Z.of_nat n → first_lease st + (start + j) mod span ∈ leased st
  end.
Proof.
  intros Hp Hfl Hc0 span start. induction n as [|n IH].
  { simpl. split; [done|]. split; [|lia]. unfold start. rewrite Z.add_0_r.
    destruct (Z.ltb_spec (last_lease st) c0); rewrite Z.mod_small; unfold span; lia. }
  change (Nat.iter (S n) (search_step st) (Searching c0)) with
    (search_step st (Nat.iter n (search_step st) (Searching c0))).
  destruct (Nat.iter n (search_step st) (Searching c0)) as [c|c]; [|done].
  destruct IH as (Hc & Heq & Hall). cbn [search_step]. rewrite Heq.
  pose proof (Z.mod_pos_bound (start + Z.of_nat n) span ltac:(unfold span; lia)) as Hb.
  case_bool_decide as Hin; [|done].
  assert (saturating_add128 (first_lease st + (start + Z.of_nat n) mod span) 1 =
    first_lease st + (start + Z.of_nat n) mod span + 1) as ->
    by (unfold saturating_add128; unfold span in *; lia).
  split; [unfold span in *; lia|]. split.
  - rewrite Nat2Z.inj_succ. replace (start + Z.succ (Z.of_nat n)) with (start + Z.of_nat n + 1) by lia.
    rewrite <- (Zplus_mod_idemp_l (start + Z.of_nat n) 1). set (r := (start + Z.of_nat n) mod span) in *.
    destruct (Z.ltb_spec (last_lease st) (first_lease st + r + 1)).
    + assert (r + 1 = span) as -> by (unfold span in *; lia). rewrite Z.mod_same by (unfold span; lia). lia.
    + rewrite Z.mod_small; unfold span in *; lia.
  - intros j Hj. destruct (decide (j < Z.of_nat n)) as [|Hge]; [apply Hall; lia|].
    by replace j with (Z.of_nat n) by lia.
Qed.

Lemma lease_None_full st :
  pool_ok st → last_lease st < u128_max → cursor st ≤ last_lease st + 1 →
  (lease st).1 = None ↔ ∀ k, first_lease st ≤ k ≤ last_lease st → k ∈ leased st.
Proof.
  intros Hp Hl Hc. split.
  - rewrite lease_iter. destruct (Z.ltb_spec (last_lease st) (first_lease st)) as [|Hfl]; [intros; lia|].
    pose proof Hp as (Hf & _ & _ & _).
    pose proof (search_visits st (turns st) (cursor st) Hp ltac:(lia) ltac:(lia)) as Hv. cbv zeta in Hv.
    destruct (Nat.iter _ _ _) as [c|c]; [|done]. intros _ k Hk. destruct Hv as (_ & _ & Hall).
    set (span := last_lease st - first_lease st + 1) in *.
    set (start := (if last_lease st <? cursor st then _ else _) - first_lease st) in *.
    assert (Z.of_nat (turns st) = span) as Ht.
    { unfold turns, wrap. fold span. assert (0 ≤ span < 2 ^ 128) as Hs
        by (subst span; unfold u128_max in Hl; lia).
      rewrite Z.mod_small by done. apply Z2Nat.id, Hs. }
    specialize (Hall ((k - first_lease st - start) mod span)).
    rewrite Ht in Hall. rewrite Zplus_mod_idemp_r in Hall.
    replace (start + (k - first_lease st - start)) with (k - first_lease st) in Hall by lia.
    rewrite (Z.mod_small (k - first_lease st)) in Hall by (unfold span; lia).
    replace (first_lease st + (k - first_lease st)) with k in Hall by lia.
    apply Hall, Z.mod_pos_bound. unfold span. lia.
  - intros Hall. destruct (lease st) as [[l|] st'] eqn:Hlease; [|done].
    apply lease_Some in Hlease as (Hr & Hn & _); [|done]. by apply Hall in Hr.
Qed.

(** ** Tunnels leasing and dropping *)

(** A pool together with the leases that are alive, in any order of events. *)
Inductive pool_step : PoolState * list IpLease → PoolState * list IpLease → Prop :=
  | step_lease st live l st' :
      lease st = (Some l, st') → pool_step (st, live) (st', l :: live)
  | step_exhausted st live st' :
      lease st = (None, st') → pool_step (st, live) (st', live)
  | step_drop st l1 l l2 :
      pool_step (st, l1 ++ l :: l2) (release st (key l), l1 ++ l2).

Definition pool_inv (st0 : PoolState) (s : PoolState * list IpLease) : Prop :=
  pool_ok s.1 ∧ same_range st0 s.1 ∧ cursor s.1 ≤ Z.max (first_lease st0) (last_lease st0 + 1) ∧
  NoDup (key <$> s.2) ∧ (∀ k, k ∈ leased s.1 ↔ k ∈ key <$> s.2) ∧
  ∀ l, l ∈ s.2 → lease_prefix l = host_prefix (from_integer (key l) (is_ipv6 (addr (pool_prefix st0)))).

Lemma pool_inv_step st0 s s' : pool_inv st0 s → pool_step s s' → pool_inv st0 s'.
Proof.
  intros (Hok & Hr & Hcur & Hnd & Hset & Hpre) Hstep. destruct Hstep as [st live l st' Hl|st live st' Hl|st l1 l l2];
    cbn [fst snd] in *.
  - pose proof Hl as Hl'. apply lease_Some in Hl as (Hk & Hn & Hp & Hs & Hr' & Hok'); [|done].
    destruct Hr as (E1 & E2 & E3), Hr' as (F1 & F2 & F3).
    split_and!; cbn [fst snd]; [done|split_and!; congruence|..].
    + rewrite lease_iter in Hl'. destruct (last_lease st <? first_lease st); [done|].
      destruct (Nat.iter _ _ _) as [c|c]; [done|]. injection Hl' as <- <-. simpl in *.
      unfold saturating_add128. lia.
    + rewrite fmap_cons. constructor; [|done]. by rewrite <- Hset.
    + intros k. rewrite Hs, elem_of_union, elem_of_singleton, fmap_cons, elem_of_cons, Hset. done.
    + intros x [->|Hx]%elem_of_cons; [by rewrite Hp, E1|by apply Hpre].
  - apply lease_None in Hl as ->. by split_and!.
  - destruct (release_ok st (key l) Hok) as [Hok' Hr'].
    rewrite fmap_app, fmap_cons in *. apply NoDup_app in Hnd as (Hn1 & Hd & Hn2).
    apply NoDup_cons in Hn2 as [Hnl Hn2].
    split_and!; cbn [fst snd]; [done|destruct Hr as (? & ? & ?); by split_and!|done|..].
    + rewrite fmap_app. apply NoDup_app. split_and!; [done| |done]. intros x Hx Hx'. apply (Hd x Hx). by right.
    + intros k. cbn [release leased]. rewrite elem_of_difference, elem_of_singleton, Hset, !elem_of_app, elem_of_cons.
      rewrite fmap_app, elem_of_app. split; [naive_solver|]. intros Hk. split; [naive_solver|]. intros ->.
      destruct Hk as [Hk|Hk]; [|done]. apply (Hd _ Hk). left.
    + intros x Hx. apply Hpre. apply elem_of_app in Hx as [Hx|Hx]; apply elem_of_app; [by left|right; by right].
Qed.

Lemma pool_inv_reachable st0 s s' :
  pool_inv st0 s → rtc pool_step s s' → pool_inv st0 s'.
Proof. intros Hi H. induction H; [done|]. eauto using pool_inv_step. Qed.

(** The range of a new pool: after the proxy's address, up to the last usable one. *)
Lemma new_pool_range p :
  prefix_ok p →
  let st := new_pool p in
  pool_prefix st = p ∧ leased st = ∅ ∧ cursor st = first_lease st ∧
  last_lease st = (usable_bounds p).2 ∧
  first_lease st = Z.min ((usable_bounds p).1 + 1) u128_max ∧
  to_integer (addr p) ≤ (usable_bounds p).1 ∧
  (usable_bounds p).2 < to_integer (addr p) + 2 ^ host_bits p ∧
  0 ≤ last_lease st < 2 ^ address_bits (addr p) ∧ (usable_bounds p).1 < 2 ^ 128.
Proof.
  intros Hp. destruct (prefix_end p Hp) as (Hh & Hb & He). unfold new_pool.
  assert (0 < 2 ^ host_bits p) by (apply Z.pow_pos_nonneg; lia).
  assert (2 ^ address_bits (addr p) ≤ 2 ^ 128) as H128
    by (pose proof (address_bits_bound (addr p)); apply Z.pow_le_mono_r; lia).
  rewrite (usable_bounds_spec p Hp). destruct (Z.leb_spec (host_bits p) 1) as [H1|H1].
  - cbn [fst snd pool_prefix leased cursor last_lease first_lease]. unfold saturating_add128. split_and!; done || lia.
  - assert (2 ^ 2 ≤ 2 ^ host_bits p) by (apply Z.pow_le_mono_r; lia).
    destruct (is_ipv6 (addr p)); cbn [fst snd pool_prefix leased cursor last_lease first_lease];
      unfold saturating_add128; split_and!; done || lia.
Qed.

Lemma new_pool_inv p : prefix_ok p → pool_inv (new_pool p) (new_pool p, []).
Proof.
  intros Hp. destruct (new_pool_range p Hp) as (E1 & E2 & E3 & E4 & E5 & Hb1 & Hb2 & Hl & Hlt).
  assert (2 ^ address_bits (addr p) ≤ 2 ^ 128) as H128
    by (pose proof (address_bits_bound (addr p)); apply Z.pow_le_mono_r; lia).
  destruct (prefix_end p Hp) as (_ & Hb & _).
  split_and!; cbn [fst snd]; [|done|rewrite E3; lia|apply NoDup_nil_2| |intros l []%elem_of_nil].
  - unfold pool_ok. rewrite E2, E3, E5. unfold u128_max in *. split_and!; try lia. set_solver.
  - intros k. rewrite E2. set_solver.
Qed.

(** Within the range, an integer is the address it stands for. *)
Lemma from_integer_in p k :
  prefix_ok p → to_integer (addr p) ≤ k < to_integer (addr p) + 2 ^ host_bits p →
  to_integer (from_integer k (is_ipv6 (addr p))) = k ∧
  is_ipv6 (from_integer k (is_ipv6 (addr p))) = is_ipv6 (addr p).
Proof.
  intros Hp Hk. destruct (prefix_end p Hp) as (_ & Hb & He). unfold from_integer.
  destruct (addr p) as [b|b]; cbn [is_ipv6 to_integer address_bits] in *; [|done].
  split; [|done]. unfold wrap. apply Z.mod_small. lia.
Qed.

(** The address lies in the prefix: same family, same leading bits. *)
Definition in_prefix (p : IpPrefix) (a : IpAddr) : Prop :=
  is_ipv6 a = is_ipv6 (addr p) ∧
  to_integer a / 2 ^ host_bits p = to_integer (addr p) / 2 ^ host_bits p.

Lemma in_prefix_range p k :
  prefix_ok p → to_integer (addr p) ≤ k < to_integer (addr p) + 2 ^ host_bits p →
  in_prefix p (from_integer k (is_ipv6 (addr p))).
Proof.
  intros Hp Hk. destruct (from_integer_in p k Hp Hk) as [H1 H2]. split; [done|]. rewrite H1.
  destruct Hp as (_ & Hl & Hm). change (address_bits (addr p) - prefix_len p) with (host_bits p) in Hm.
  change (ip_bits (addr p)) with (to_integer (addr p)) in Hm.
  assert (0 < 2 ^ host_bits p) by (apply Z.pow_pos_nonneg; unfold host_bits; lia).
  pose proof (Z.div_mod (to_integer (addr p)) (2 ^ host_bits p) ltac:(lia)) as Hd.
  symmetry. apply (Z.div_unique _ _ _ (k - to_integer (addr p))); lia.
Qed.

(** ** Correctness *)

(** The addresses of leases that satisfy the invariant. *)
Lemma pool_inv_addresses p st live :
  prefix_ok p → pool_inv (new_pool p) (st, live) →
  NoDup (lease_address <$> live) ∧
  (∀ l, l ∈ live → in_prefix p (lease_address l)) ∧
  (to_integer (addr p) + 1 < u128_max → ∀ l, l ∈ live → lease_address l ≠ proxy_address st).
Proof.
  intros Hp (Hok & (E1 & E2 & E3) & _ & Hnd & Hset & Hpre). cbn [fst snd] in *.
  destruct (new_pool_range p Hp) as (P1 & _ & _ & P4 & P5 & Hb1 & Hb2 & Hl & Hlt). rewrite P1 in *.
  destruct (prefix_end p Hp) as (Hh & Hb & He).
  assert (2 ^ address_bits (addr p) ≤ 2 ^ 128) as H128
    by (pose proof (address_bits_bound (addr p)); apply Z.pow_le_mono_r; lia).
  assert (∀ l, l ∈ live → to_integer (addr p) ≤ key l < to_integer (addr p) + 2 ^ host_bits p ∧
    first_lease st ≤ key l ∧ lease_address l = from_integer (key l) (is_ipv6 (addr p))) as Hlive.
  { intros l Hin. destruct Hok as (_ & _ & _ & Hrange).
    assert (key l ∈ leased st) as Hk%Hrange by (apply Hset, list_elem_of_fmap; eauto).
    unfold u128_max in *. split_and!; [lia|lia|lia|]. unfold lease_address. by rewrite Hpre. }
  split_and!.
  - clear Hset. induction live as [|l live IH]; [apply NoDup_nil_2|].
    rewrite fmap_cons in *. apply NoDup_cons in Hnd as [Hn Hnd]. constructor.
    + intros (l' & Heq & Hin)%list_elem_of_fmap. apply Hn, list_elem_of_fmap. exists l'. split; [|done].
      destruct (Hlive l) as (R & _ & A); [left|]. destruct (Hlive l') as (R' & _ & A'); [by right|].
      rewrite A, A' in Heq. destruct (from_integer_in p _ Hp R) as [I _].
      destruct (from_integer_in p _ Hp R') as [I' _]. congruence.
    + apply IH; [done|intros x Hx; apply Hpre; by right|intros x Hx; apply Hlive; by right].
  - intros l Hin. destruct (Hlive l Hin) as (R & _ & ->). by apply in_prefix_range.
  - intros Hlast l Hin. destruct (Hlive l Hin) as (R & Hf & ->). unfold proxy_address. rewrite E1.
    intros Heq. rewrite E2, P5 in Hf.
    assert ((usable_bounds p).1 < to_integer (addr p) + 2 ^ host_bits p ∧
      (usable_bounds p).1 ≤ to_integer (addr p) + 1) as [Hu1 Hu2].
    { rewrite (usable_bounds_spec p Hp). assert (0 < 2 ^ host_bits p) by (apply Z.pow_pos_nonneg; lia).
      destruct (Z.leb_spec (host_bits p) 1) as [?|H2]; [simpl; lia|].
      assert (2 ^ 2 ≤ 2 ^ host_bits p) by (apply Z.pow_le_mono_r; lia).
      destruct (is_ipv6 (addr p)); simpl; lia. }
    destruct (from_integer_in p _ Hp R) as [I _].
    destruct (from_integer_in p (usable_bounds p).1 Hp ltac:(lia)) as [I' _].
    rewrite <- Heq in I'. rewrite I in I'. lia.
Qed.

(** Addresses are never shared: whatever sequence of leases and drops a
    pool goes through, the leases alive at any moment hold pairwise distinct
    addresses, each inside the prefix of the pool, and (below the very last
    IPv6 address) none of them is the proxy's own. *)
Theorem pool_addresses_distinct (p : IpPrefix) (st : PoolState) (live : list IpLease) :
  prefix_ok p → rtc pool_step (new_pool p, []) (st, live) →
  NoDup (lease_address <$> live) ∧
  (∀ l, l ∈ live → in_prefix p (lease_address l)) ∧
  (to_integer (addr p) + 1 < u128_max → ∀ l, l ∈ live → lease_address l ≠ proxy_address st).
Proof. intros Hp Hr. apply pool_inv_addresses; [done|]. eauto using pool_inv_reachable, new_pool_inv. Qed.

Definition sample_prefix : IpPrefix := mkPrefix (V4 0x0a000000) 29.
Definition sample_pool : PoolState := (lease (new_pool sample_prefix)).2.
Definition sample_lease : IpLease := mkLease 0x0a000002 (host_prefix (V4 0x0a000002)).

Lemma pool_addresses_distinct_witness :
  prefix_ok sample_prefix ∧ rtc pool_step (new_pool sample_prefix, []) (sample_pool, [sample_lease]) ∧
  NoDup (lease_address <$> [sample_lease]) ∧
  (∀ l, l ∈ [sample_lease] → in_prefix sample_prefix (lease_address l)) ∧
  (to_integer (addr sample_prefix) + 1 < u128_max →
    ∀ l, l ∈ [sample_lease] → lease_address l ≠ proxy_address sample_pool).
Proof.
  assert (prefix_ok sample_prefix) as Hp by (by vm_compute).
  assert (rtc pool_step (new_pool sample_prefix, []) (sample_pool, [sample_lease])) as Hr.
  { eapply rtc_l; [|apply rtc_refl]. apply step_lease. by vm_compute. }
  split; [exact Hp|]. split; [exact Hr|]. exact (pool_addresses_distinct _ _ _ Hp Hr).
Defined.

(** Nothing is withheld: in any reachable state of a pool that does not end
    at the very last IPv6 address, a lease is refused exactly when every
    leasable address is taken. *)
Theorem pool_exhausted_iff_full (p : IpPrefix) (st : PoolState) (live : list IpLease) :
  prefix_ok p → rtc pool_step (new_pool p, []) (st, live) →
  last_lease (new_pool p) < u128_max → first_lease (new_pool p) ≤ last_lease (new_pool p) →
  (lease st).1 = None ↔ ∀ k, first_lease st ≤ k ≤ last_lease st → k ∈ key <$> live.
Proof.
  intros Hp Hr Hlast Hfl. pose proof (pool_inv_reachable _ _ _ (new_pool_inv p Hp) Hr)
    as (Hok & (E1 & E2 & E3) & Hcur & _ & Hset & _). cbn [fst snd] in *.
  rewrite lease_None_full; [|done|congruence|rewrite E3; lia].
  split; intros H k Hk; apply Hset; auto.
Qed.

Lemma pool_exhausted_iff_full_witness :
  last_lease (new_pool sample_prefix) < u128_max ∧
  ((lease sample_pool).1 = None ↔
    ∀ k, first_lease sample_pool ≤ k ≤ last_lease sample_pool → k ∈ key <$> [sample_lease]).
Proof.
  split; [by vm_compute|]. apply (pool_exhausted_iff_full sample_prefix sample_pool [sample_lease]).
  - by vm_compute.
  - eapply rtc_l; [|apply rtc_refl]. apply step_lease. by vm_compute.
  - by vm_compute.
  - by vm_compute.
Defined.

(** At the very last IPv6 address the saturating arithmetic shows: a pool of that
    single address leases the proxy's own, and a small pool that ends there
    reports exhaustion while an address is free. *)
Lemma last_address_pool_leases_proxy :
  let st := new_pool (host_prefix (V6 u128_max)) in
  (lease_address <$> (lease st).1) = Some (proxy_address st).
Proof. by vm_compute. Qed.

Lemma last_address_pool_stuck :
  let st := new_pool (mkPrefix (V6 (u128_max - 3)) 126) in
  let '(l1, st) := lease st in
  let '(l2, st) := lease st in
  let st := release st (u128_max - 1) in
  (key <$> l1, key <$> l2) = (Some (u128_max - 1), Some u128_max) ∧
  first_lease st = u128_max - 1 ∧ bool_decide (u128_max - 1 ∈ leased st) = false ∧ (lease st).1 = None.
Proof. by vm_compute. Qed.
