(* ===== verification/IpSession.v ===== *)
(** * IP tunnels

    Model of [crates/skimasque/src/connect_ip.rs] but for the address pool
    ([IpPool]): the two ends of a CONNECT-IP tunnel, the answer to an address
    request, and the proxy that leases an address to each session.

    [IpTunnel::recv] is a loop around a biased [select!].  One turn of it is
    [recv_turn]; what arrives between two turns is part of the schedule a run is
    given, so the theorems hold for every interleaving of arrivals and turns.  The
    application's end of a session and the request stream's write side are the
    environment: a session is held until the application drops it, a write
    succeeds or fails. *)

From S2P Require Import Prelude RustStr RustNet Varint Capsule Datagram Target ConnectIp IpPool Service.

(** ** A tunnel *)

Inductive IpEvent : Type :=
  | IpPacket (packet : list Z)
  | AddressesAssigned (addresses : list AddressEntry)
  | AddressesRequested (requests : list AddressEntry)
  | RoutesAdvertised (routes : list IpAddressRange).

(** The receiving half of a channel: what waits in it, and whether every sender
    is gone. *)
Record Queue (A : Type) : Type := mkQueue { waiting : list A; closed : bool }.
Arguments mkQueue {A} _ _.
Arguments waiting {A} _.
Arguments closed {A} _.

(** [reader] is [None] once its end was observed, else whether it has ended;
    [written] is what the writer has put on the request stream. *)
Record IpTunnel : Type := mkIpTunnel {
  t_scope : IpScope;
  t_datagrams : Queue (list Z);
  t_capsules : Queue Capsule;
  written : list Z;
  reader : option bool;
  assigned : list AddressEntry;
  peer_routes : list IpAddressRange;
  next_request_id : Z;
}.

Definition new_tunnel (scope : IpScope) : IpTunnel :=
  mkIpTunnel scope (mkQueue [] false) (mkQueue [] false) [] (Some false) [] [] 1.

Definition set_queues (t : IpTunnel) (ds : Queue (list Z)) (cs : Queue Capsule) : IpTunnel :=
  mkIpTunnel (t_scope t) ds cs (written t) (reader t) (assigned t) (peer_routes t) (next_request_id t).
Definition set_reader (t : IpTunnel) (r : option bool) : IpTunnel :=
  mkIpTunnel (t_scope t) (t_datagrams t) (t_capsules t) (written t) r (assigned t) (peer_routes t)
    (next_request_id t).
Definition set_learned (t : IpTunnel) (a : list AddressEntry) (r : list IpAddressRange) : IpTunnel :=
  mkIpTunnel (t_scope t) (t_datagrams t) (t_capsules t) (written t) (reader t) a r (next_request_id t).

(** ** Sending *)

Inductive TunnelError : Type :=
  | InvalidCapsule (e : ConnectIp.Error)
  | TooLarge
  | WriteFailed.

(** [send_packet]: the datagram handed to the route. *)
Definition send_packet (packet : list Z) : option (list Z) := encode_packet packet.

(** [TooLarge] is the panic of [Capsule::encode] on a value of 2^62 bytes. *)
Definition send_capsule (write_ok : bool) (c : IpCapsule) (t : IpTunnel) : result TunnelError unit * IpTunnel :=
  match to_capsule c with
  | Err e => (Err (InvalidCapsule e), t)
  | Ok capsule =>
      match Capsule.encode capsule with
      | None => (Err TooLarge, t)
      | Some wire =>
          if write_ok then
            (Ok tt, mkIpTunnel (t_scope t) (t_datagrams t) (t_capsules t) (written t ++ wire) (reader t)
                      (assigned t) (peer_routes t) (next_request_id t))
          else (Err WriteFailed, t)
      end
  end.

(** The ids are taken before the capsule is sent, and stay taken if it is not. *)
Fixpoint allocate (prefixes : list IpPrefix) (next : Z) : list AddressEntry * Z :=
  match prefixes with
  | [] => ([], next)
  | p :: prefixes => let '(es, n) := allocate prefixes (next + 1) in (mkEntry next p :: es, n)
  end.
Definition request_addresses (write_ok : bool) (prefixes : list IpPrefix) (t : IpTunnel)
    : result TunnelError (list Z) * IpTunnel :=
  let '(requests, next) := allocate prefixes (next_request_id t) in
  let t := mkIpTunnel (t_scope t) (t_datagrams t) (t_capsules t) (written t) (reader t) (assigned t)
             (peer_routes t) next in
  let '(r, t) := send_capsule write_ok (AddressRequest requests) t in
  (_ ← r; Ok (map request_id requests), t).

Definition assign_addresses (write_ok : bool) (addresses : list AddressEntry) : IpTunnel → result TunnelError unit * IpTunnel :=
  send_capsule write_ok (AddressAssign addresses).
Definition advertise_routes (write_ok : bool) (routes : list IpAddressRange) : IpTunnel → result TunnelError unit * IpTunnel :=
  send_capsule write_ok (RouteAdvertisement routes).

(** ** Receiving *)

(** What a turn of the loop does: return an event, return [None], go round
    again, or wait. *)
Inductive Turn : Type := Got (e : IpEvent) | Ended | Again | Waiting.

Definition on_capsule (c : Capsule) (t : IpTunnel) : Turn * IpTunnel :=
  match from_capsule c with
  | Ok (Some (AddressAssign addresses)) =>
      (Got (AddressesAssigned addresses), set_learned t addresses (peer_routes t))
  | Ok (Some (RouteAdvertisement routes)) => (Got (RoutesAdvertised routes), set_learned t (assigned t) routes)
  | Ok (Some (AddressRequest requests)) => (Got (AddressesRequested requests), t)
  | Ok None => (Again, t)
  | Err _ => (Ended, t)
  end.

Definition on_datagram (payload : list Z) : Turn :=
  match decode_packet payload with
  | Ok (Packet packet) => Got (IpPacket packet)
  | Ok (UnknownContext _ _) => Again
  | Err _ => Again
  end.

Definition recv_turn (t : IpTunnel) : Turn * IpTunnel :=
  match reader t with
  | None => (Ended, t)
  | Some done =>
      match waiting (t_capsules t), closed (t_capsules t) with
      | c :: cs, cl => on_capsule c (set_queues t (t_datagrams t) (mkQueue cs cl))
      | [], true => (Ended, t)
      | [], false =>
          match waiting (t_datagrams t), closed (t_datagrams t) with
          | d :: ds, cl => (on_datagram d, set_queues t (mkQueue ds cl) (t_capsules t))
          | [], true => (Ended, t)
          | [], false => if done then (Ended, set_reader t None) else (Waiting, t)
          end
      end
  end.

Inductive Action : Type :=
  | CapsuleArrives (c : Capsule)
  | DatagramArrives (payload : list Z)
  | ReaderEnds
  | Poll.

Definition push_back {A} (q : Queue A) (x : A) : Queue A := mkQueue (waiting q ++ [x]) (closed q).

(** The reader owns the sender of the capsules: they end together. *)
Definition act (s : IpTunnel * list IpEvent) (a : Action) : IpTunnel * list IpEvent :=
  let '(t, evs) := s in
  match a with
  | CapsuleArrives c => (set_queues t (t_datagrams t) (push_back (t_capsules t) c), evs)
  | DatagramArrives d => (set_queues t (push_back (t_datagrams t) d) (t_capsules t), evs)
  | ReaderEnds =>
      (set_reader (set_queues t (t_datagrams t) (mkQueue (waiting (t_capsules t)) true))
         (match reader t with Some _ => Some true | None => None end), evs)
  | Poll => let '(turn, t) := recv_turn t in (t, match turn with Got e => evs ++ [e] | _ => evs end)
  end.
Definition run_tunnel (schedule : list Action) (t : IpTunnel) : IpTunnel * list IpEvent :=
  fold_left act schedule (t, []).

(** ** Answering an address request *)

Definition answer_for (assigned : list IpPrefix) (request : AddressEntry) : AddressEntry :=
  let wanted_v6 := is_ipv6 (addr (prefix request)) in
  mkEntry (request_id request)
    (default (unspecified wanted_v6) (find (λ p, Bool.eqb (is_ipv6 (addr p)) wanted_v6) assigned)).
Definition answer_address_request (requests : list AddressEntry) (assigned : list IpPrefix) : list AddressEntry :=
  map (answer_for assigned) requests.

(** ** The application's end *)

Definition DEFAULT_LINK_CAPACITY : nat := 1024.
Record IpEndpoint : Type := mkEndpoint { e_assigned : list AddressEntry; e_routes : list IpAddressRange }.

Inductive LinkError : Type := Congested | LinkClosed.
(** [IpLink::send] on the queue to the client, with its capacity. *)
Definition link_send (capacity : nat) (q : Queue (list Z)) (packet : list Z) : result LinkError (Queue (list Z)) :=
  if closed q then Err LinkClosed
  else if (capacity <=? length (waiting q))%nat then Err Congested
  else Ok (push_back q packet).

(** ** The proxy *)

Definition SESSIONS_CAPACITY : nat := 64.
Record IpSession : Type := mkSession {
  s_client : SocketAddr;
  s_scope : IpScope;
  s_assigned : IpPrefix;
  s_lease : IpLease;
}.

(** The calls that wait for room in the channel, what the channel holds, and what
    the application has taken from it; [attached] while it keeps the receiver. *)
Record IpProxy : Type := mkIpProxy {
  pool : PoolState;
  sending : list IpSession;
  sessions : list IpSession;
  held : list IpSession;
  attached : bool;
}.
Definition new_proxy (p : PoolState) : IpProxy := mkIpProxy p [] [] [] true.

Definition not_connect_ip : Rejection := new_rejection 501 "IpProxy only serves connect-ip".
Definition no_scope : Rejection := new_rejection 400 "request carried no IP scope".
Definition pool_exhausted : Rejection :=
  with_proxy_error (new_rejection 503 "the proxy's address pool is exhausted") "proxy_internal_error".
Definition no_network : Rejection :=
  with_proxy_error (new_rejection 503 "the proxy has no network attached") "proxy_internal_error".

(** [IpProxy::call] up to the send. *)
Definition open_session (req : TunnelRequest) (st : PoolState) : result Rejection IpSession * PoolState :=
  match req_protocol req with
  | ConnectIp =>
      match as_ip (req_destination req) with
      | None => (Err no_scope, st)
      | Some scope =>
          match lease st with
          | (None, st) => (Err pool_exhausted, st)
          | (Some l, st) => (Ok (mkSession (req_client req) scope (lease_prefix l) l), st)
          end
      end
  | _ => (Err not_connect_ip, st)
  end.
(** What the tunnel is told once its session is sent. *)
Definition endpoint_of (routes : list IpAddressRange) (s : IpSession) : IpEndpoint :=
  mkEndpoint [mkEntry 0 (s_assigned s)] routes.

(** Dropping a session drops its lease. *)
Definition drop_session (st : PoolState) (s : IpSession) : PoolState := release st (key (s_lease s)).

Definition set_pool (p : IpProxy) (st : PoolState) : IpProxy :=
  mkIpProxy st (sending p) (sessions p) (held p) (attached p).

Inductive proxy_step : IpProxy → IpProxy → Prop :=
  | call_refused req p r st : open_session req (pool p) = (Err r, st) → proxy_step p (set_pool p st)
  | call_leased req p s st :
      open_session req (pool p) = (Ok s, st) →
      proxy_step p (mkIpProxy st (s :: sending p) (sessions p) (held p) (attached p))
  | call_sent st l1 s l2 q h :
      (length q < SESSIONS_CAPACITY)%nat →
      proxy_step (mkIpProxy st (l1 ++ s :: l2) q h true) (mkIpProxy st (l1 ++ l2) (q ++ [s]) h true)
  | call_unattached st l1 s l2 q h :
      proxy_step (mkIpProxy st (l1 ++ s :: l2) q h false) (mkIpProxy (drop_session st s) (l1 ++ l2) q h false)
  | call_cancelled st l1 s l2 q h a :
      proxy_step (mkIpProxy st (l1 ++ s :: l2) q h a) (mkIpProxy (drop_session st s) (l1 ++ l2) q h a)
  | session_taken st l s q h a :
      proxy_step (mkIpProxy st l (s :: q) h a) (mkIpProxy st l q (s :: h) a)
  | session_dropped st l q h1 s h2 a :
      proxy_step (mkIpProxy st l q (h1 ++ s :: h2) a) (mkIpProxy (drop_session st s) l q (h1 ++ h2) a)
  | receiver_dropped st l q h :
      proxy_step (mkIpProxy st l q h true) (mkIpProxy (fold_left drop_session q st) l [] h false).

(** ** Lemmas: receiving *)

Definition capsules_of (schedule : list Action) : list Capsule :=
  omap (λ a, match a with CapsuleArrives c => Some c | _ => None end) schedule.
Definition datagrams_of (schedule : list Action) : list (list Z) :=
  omap (λ a, match a with DatagramArrives d => Some d | _ => None end) schedule.

Definition event_of (c : IpCapsule) : IpEvent :=
  match c with
  | AddressAssign es => AddressesAssigned es
  | AddressRequest es => AddressesRequested es
  | RouteAdvertisement rs => RoutesAdvertised rs
  end.
Definition control_event (c : Capsule) : option IpEvent :=
  match from_capsule c with Ok (Some ic) => Some (event_of ic) | _ => None end.
Definition packet_event (payload : list Z) : option IpEvent :=
  match decode_packet payload with Ok (Packet p) => Some (IpPacket p) | _ => None end.
Definition is_packet (e : IpEvent) : bool := match e with IpPacket _ => true | _ => false end.
Definition controls (evs : list IpEvent) : list IpEvent := List.filter (λ e, negb (is_packet e)) evs.
Definition packets (evs : list IpEvent) : list IpEvent := List.filter is_packet evs.

(** The latest set of each kind, empty before the first. *)
Definition last_assigned (evs : list IpEvent) : list AddressEntry :=
  fold_left (λ a e, match e with AddressesAssigned es => es | _ => a end) evs [].
Definition last_routes (evs : list IpEvent) : list IpAddressRange :=
  fold_left (λ a e, match e with RoutesAdvertised rs => rs | _ => a end) evs [].

Definition tunnel_inv (caps : list Capsule) (dgs : list (list Z)) (s : IpTunnel * list IpEvent) : Prop :=
  let '(t, evs) := s in
  ∃ took_c took_d, caps = took_c ++ waiting (t_capsules t) ∧ dgs = took_d ++ waiting (t_datagrams t) ∧
    controls evs = omap control_event took_c ∧ packets evs = omap packet_event took_d ∧
    assigned t = last_assigned evs ∧ peer_routes t = last_routes evs.

Lemma controls_snoc evs e : controls (evs ++ [e]) = controls evs ++ (if is_packet e then [] else [e]).
Proof. unfold controls. rewrite List.filter_app. cbn. by destruct (is_packet e). Qed.
Lemma packets_snoc evs e : packets (evs ++ [e]) = packets evs ++ (if is_packet e then [e] else []).
Proof. unfold packets. rewrite List.filter_app. cbn. by destruct (is_packet e). Qed.
Lemma omap_one {A B} (f : A → option B) l x : omap f (l ++ [x]) = omap f l ++ option_list (f x).
Proof. rewrite omap_app. cbn. by destruct (f x). Qed.

Lemma capsule_turn_inv c t cs cl evs caps dgs took took_d :
  caps = took ++ c :: cs → dgs = took_d ++ waiting (t_datagrams t) →
  controls evs = omap control_event took → packets evs = omap packet_event took_d →
  assigned t = last_assigned evs → peer_routes t = last_routes evs →
  let '(turn, t') := on_capsule c (set_queues t (t_datagrams t) (mkQueue cs cl)) in
  tunnel_inv caps dgs (t', match turn with Got e => evs ++ [e] | _ => evs end).
Proof.
  intros -> -> Hc Hp Ha Hr. unfold on_capsule.
  assert (took ++ c :: cs = (took ++ [c]) ++ cs) as -> by by rewrite <- app_assoc.
  assert (∀ ic e, from_capsule c = Ok (Some ic) → event_of ic = e →
    omap control_event (took ++ [c]) = controls evs ++ [e]) as Hone.
  { intros ic e Hf <-. rewrite omap_one. unfold control_event at 2. by rewrite Hf, Hc. }
  assert (∀ r, from_capsule c = r → match r with Ok (Some _) => False | _ => True end →
    omap control_event (took ++ [c]) = controls evs) as Hnone.
  { intros r Hf Hn. rewrite omap_one. unfold control_event at 2. rewrite Hf, Hc.
    destruct r as [[?|]|?]; [done|by rewrite app_nil_r..]. }
  destruct (from_capsule c) as [[[es|es|rs]|]|e] eqn:Hf; exists (took ++ [c]), took_d;
    cbn [t_capsules t_datagrams waiting set_queues set_learned assigned peer_routes];
    rewrite ?controls_snoc, ?packets_snoc; cbn [is_packet]; rewrite ?app_nil_r;
    unfold last_assigned, last_routes in *; rewrite ?fold_left_app; cbn [fold_left];
    split_and!; try done; symmetry;
    first [by eapply Hone | exact (Hnone _ eq_refl I)].
Qed.

Lemma datagram_turn_inv d t ds cl evs caps dgs took_c took :
  caps = took_c ++ waiting (t_capsules t) → dgs = took ++ d :: ds →
  controls evs = omap control_event took_c → packets evs = omap packet_event took →
  assigned t = last_assigned evs → peer_routes t = last_routes evs →
  tunnel_inv caps dgs (set_queues t (mkQueue ds cl) (t_capsules t),
    match on_datagram d with Got e => evs ++ [e] | _ => evs end).
Proof.
  intros -> -> Hc Hp Ha Hr. exists took_c, (took ++ [d]).
  cbn [t_capsules t_datagrams waiting set_queues assigned peer_routes].
  assert (on_datagram d = match packet_event d with Some e => Got e | None => Again end ∧
    (∀ e, packet_event d = Some e → ∃ p, e = IpPacket p)) as [-> Hpk].
  { unfold on_datagram, packet_event. destruct (decode_packet d) as [[p|ctx p]|e]; split; try done.
    intros e [= <-]. by exists p. }
  rewrite omap_one, <- Hp. destruct (packet_event d) as [e|]; cbn [option_list].
  - destruct (Hpk e eq_refl) as [p ->]. rewrite controls_snoc, packets_snoc. cbn [is_packet]. rewrite app_nil_r.
    unfold last_assigned, last_routes in *. rewrite !fold_left_app. cbn [fold_left].
    split_and!; [done|by rewrite <- app_assoc|done..].
  - rewrite app_nil_r. split_and!; [done|by rewrite <- app_assoc|done..].
Qed.

Lemma act_inv caps dgs s a :
  tunnel_inv caps dgs s → tunnel_inv (caps ++ capsules_of [a]) (dgs ++ datagrams_of [a]) (act s a).
Proof.
  destruct s as [t evs]. intros (tc & td & -> & -> & Hc & Hp & Ha & Hr).
  destruct a as [c|d| |]; cbn [capsules_of datagrams_of omap list_omap]; rewrite ?app_nil_r; cbn [act].
  - exists tc, td. cbn. by rewrite app_assoc.
  - exists tc, td. cbn. by rewrite app_assoc.
  - exists tc, td. by cbn.
  - unfold recv_turn. destruct (reader t) as [done|]; [|by exists tc, td].
    destruct (waiting (t_capsules t)) as [|c cs] eqn:Hw.
    + assert (tunnel_inv (tc ++ []) (td ++ waiting (t_datagrams t)) (t, evs)) as Hsame
        by (exists tc, td; by rewrite Hw).
      destruct (closed (t_capsules t)); [done|].
      destruct (waiting (t_datagrams t)) as [|d ds] eqn:Hd.
      * destruct (closed (t_datagrams t)); [done|]. destruct done; [|done].
        exists tc, td. cbn. by rewrite Hw, Hd.
      * eapply datagram_turn_inv; [by rewrite Hw|done..].
    + pose proof (capsule_turn_inv c t cs (closed (t_capsules t)) evs (tc ++ c :: cs)
        (td ++ waiting (t_datagrams t)) tc td eq_refl eq_refl Hc Hp Ha Hr) as H.
      by destruct (on_capsule _ _) as [turn t'].
Qed.

Lemma run_tunnel_inv schedule t :
  waiting (t_capsules t) = [] → waiting (t_datagrams t) = [] → assigned t = [] → peer_routes t = [] →
  tunnel_inv (capsules_of schedule) (datagrams_of schedule) (run_tunnel schedule t).
Proof.
  intros H1 H2 H3 H4. unfold run_tunnel. induction schedule as [|a schedule IH] using rev_ind.
  - exists [], []. cbn. by rewrite H1, H2.
  - rewrite fold_left_app. unfold capsules_of, datagrams_of. rewrite !omap_app. by apply act_inv.
Qed.

(** What a tunnel reports is what arrived.  However capsules, datagrams and
    the loop interleave, the control events reported are those of the capsules
    taken from the stream, in order, the packets those of the datagrams taken, in
    order; what was not taken is still waiting; and the addresses and routes the
    tunnel holds are the latest ones reported. *)
Theorem tunnel_reports_exact (schedule : list Action) (scope : IpScope) :
  let '(t, evs) := run_tunnel schedule (new_tunnel scope) in
  ∃ took_c took_d,
    capsules_of schedule = took_c ++ waiting (t_capsules t) ∧
    datagrams_of schedule = took_d ++ waiting (t_datagrams t) ∧
    controls evs = omap control_event took_c ∧ packets evs = omap packet_event took_d ∧
    assigned t = last_assigned evs ∧ peer_routes t = last_routes evs.
Proof. exact (run_tunnel_inv schedule (new_tunnel scope) eq_refl eq_refl eq_refl eq_refl). Qed.

(** ** From one end to the other *)

Fixpoint send_all (cs : list IpCapsule) (t : IpTunnel) : option IpTunnel :=
  match cs with
  | [] => Some t
  | c :: cs => match send_capsule true c t with (Ok _, t) => send_all cs t | (Err _, _) => None end
  end.

(** The peer's decoder takes the capsule. *)
Definition fits (c : IpCapsule) : Prop :=
  ∀ cap, to_capsule c = Ok cap → Z.of_nat (length (value cap)) ≤ DEFAULT_MAX_VALUE_LEN.

Definition carries (c : IpCapsule) (cap : Capsule) : Prop :=
  to_capsule c = Ok cap ∧ control_event cap = Some (event_of c) ∧ capsule_ok DEFAULT_MAX_VALUE_LEN cap ∧
  (Capsule.kind cap =? DATAGRAM) = false.

Lemma encode_into_app c out : Capsule.encode_into c out = (λ w, out ++ w) <$> Capsule.encode c.
Proof.
  unfold Capsule.encode, Capsule.encode_into, write_header, Varint.encode.
  destruct (Varint.MAX <? Capsule.kind c); [done|]. cbn [result_ok mbind option_bind].
  destruct (Varint.MAX <? _); [done|]. cbn. by rewrite <- !app_assoc.
Qed.

Lemma wf_carries c : capsule_wf c → fits c → ∃ cap, carries c cap.
Proof.
  intros Hwf Hf. destruct (ip_capsule_roundtrip c Hwf) as (cap & Ht & Hk & Hb & Hr).
  exists cap. split; [done|]. split; [unfold control_event; by rewrite Hr|]. rewrite Hk. split.
  - split; [rewrite Hk; by destruct c|]. split; [|done]. by apply Hf in Ht.
  - by destruct c.
Qed.

Lemma send_all_wire cs t :
  Forall capsule_wf cs → Forall fits cs →
  ∃ caps t', Forall2 carries cs caps ∧ send_all cs t = Some t' ∧ encode_all caps (written t) = Some (written t').
Proof.
  intros Hwf. revert t. induction Hwf as [|c cs Hc _ IH]; intros t Hf.
  { exists [], t. by split_and!. }
  apply Forall_cons in Hf as [Hfc Hf]. destruct (wf_carries c Hc Hfc) as (cap & Hcar).
  pose proof Hcar as (Ht & _ & Hok & _). destruct (encode_into_wire _ cap [] Hok) as (wire & He & _).
  cbn [send_all]. unfold send_capsule. rewrite Ht. change (Capsule.encode cap) with (Capsule.encode_into cap []).
  rewrite He. cbn [app].
  match goal with |- context [send_all cs ?t2] => destruct (IH t2 Hf) as (caps & t' & Hcs & Hs & Hw) end.
  exists (cap :: caps), t'. split; [by constructor|]. split; [done|]. cbn [encode_all].
  rewrite encode_into_app. change (Capsule.encode cap) with (Capsule.encode_into cap []). by rewrite He.
Qed.

Lemma carries_controls cs caps :
  Forall2 carries cs caps → control_capsules caps = caps ∧ omap control_event caps = map event_of cs ∧
    Forall (capsule_ok DEFAULT_MAX_VALUE_LEN) caps ∧ length caps = length cs.
Proof.
  induction 1 as [|c cap cs caps (_ & He & Hok & Hk) _ (IH1 & IH2 & IH3 & IH4)]; [by split_and!|].
  unfold control_capsules in *. cbn [List.filter omap list_omap map length]. rewrite Hk, He. cbn [negb].
  split_and!; [congruence|cbn; congruence|by constructor|congruence].
Qed.

Lemma reader_stays t evs a : is_Some (reader t) → closed (t_capsules t) = true ∨ reader t = Some false →
  let '(t', _) := act (t, evs) a in
  is_Some (reader t') ∧ (closed (t_capsules t') = true ∨ reader t' = Some false).
Proof.
  intros Hs Hc. destruct a; cbn [act]; [by split..|by destruct (reader t), Hs; cbn; eauto|].
  unfold recv_turn. destruct (reader t) as [done|] eqn:Hr; [|by destruct Hs].
  destruct (waiting (t_capsules t)) as [|c cs].
  - destruct (closed (t_capsules t)) eqn:Hcl; [by rewrite Hr, Hcl; eauto|].
    destruct Hc as [|[= ->]]; [done|].
    destruct (waiting (t_datagrams t)); [destruct (closed (t_datagrams t))|]; cbn; rewrite ?Hr; eauto.
  - unfold on_capsule. destruct (from_capsule c) as [[[]|]|]; cbn; rewrite Hr; eauto.
Qed.

Lemma reader_stays_run schedule s : is_Some (reader s.1) → closed (t_capsules s.1) = true ∨ reader s.1 = Some false →
  is_Some (reader (fold_left act schedule s).1).
Proof.
  revert s. induction schedule as [|a schedule IH]; intros [t evs] H1 H2; [done|]. cbn [fold_left].
  pose proof (reader_stays t evs a H1 H2) as H. destruct (act (t, evs) a) as [t' evs']. apply IH; apply H.
Qed.

(** A poll takes the first waiting capsule. *)
Lemma poll_takes s : is_Some (reader s.1) →
  waiting (t_capsules (act s Poll).1) = tail (waiting (t_capsules s.1)) ∧
  (is_Some (reader (act s Poll).1) ∨ waiting (t_capsules s.1) = []).
Proof.
  destruct s as [t evs]. intros [done Hr]. cbn [fst] in Hr. cbn [fst act]. unfold recv_turn. rewrite Hr.
  destruct (waiting (t_capsules t)) as [|c cs] eqn:Hw.
  - split; [|by right]. destruct (closed (t_capsules t)); [by cbn; rewrite Hw|].
    destruct (waiting (t_datagrams t)); [destruct (closed (t_datagrams t)); [by cbn; rewrite Hw|]|by cbn; rewrite Hw].
    destruct done; cbn; by rewrite Hw.
  - unfold on_capsule. destruct (from_capsule c) as [[[]|]|]; cbn; rewrite Hr; eauto.
Qed.

Lemma polls_drain n s : is_Some (reader s.1) →
  (length (waiting (t_capsules s.1)) ≤ n)%nat → waiting (t_capsules (fold_left act (repeat Poll n) s).1) = [].
Proof.
  revert s. induction n as [|n IH]; intros s Hr Hl; cbn [repeat fold_left].
  - destruct (waiting (t_capsules s.1)); [done|cbn in *; lia].
  - destruct (poll_takes s Hr) as [Ht [Hr'|Hn]].
    + apply IH; [done|]. rewrite Ht. destruct (waiting (t_capsules s.1)); cbn in *; lia.
    + assert (∀ m s', waiting (t_capsules s'.1) = [] → waiting (t_capsules (fold_left act (repeat Poll m) s').1) = [])
        as Hempty.
      { clear. induction m as [|m IHm]; intros [t evs] Hw; [done|]. cbn [repeat fold_left]. apply IHm. cbn [fst] in Hw.
        cbn [act]. unfold recv_turn. rewrite Hw. destruct (reader t) as [[]|], (closed (t_capsules t)),
          (waiting (t_datagrams t)), (closed (t_datagrams t)); done. }
      apply Hempty. by rewrite Ht, Hn.
Qed.

Lemma last_of_controls evs :
  last_assigned (controls evs) = last_assigned evs ∧ last_routes (controls evs) = last_routes evs.
Proof.
  unfold last_assigned, last_routes. induction evs as [|e evs [IH1 IH2]] using rev_ind; [done|].
  rewrite controls_snoc, !fold_left_app. destruct e; cbn [is_packet fold_left app]; by rewrite ?IH1, ?IH2, ?app_nil_r.
Qed.

(** C39.  What one end of an IP tunnel says, the other hears.  Well-formed capsules
    of a size the peer accepts, sent one after the other, cross a request stream
    cut into any chunks, and the peer, whatever packets arrive meanwhile and
    however often it polls, ends up having reported exactly them, in order, and
    holding the last addresses and the last routes it was sent. *)
Theorem ip_control_end_to_end (sender : IpTunnel) (cs : list IpCapsule) (chunks : list (list Z)) (n : nat) :
  written sender = [] → Forall capsule_wf cs → Forall fits cs → (length cs ≤ n)%nat →
  ∃ sent, send_all cs sender = Some sent ∧
    (concat chunks = written sent →
     ∃ q arrived, pump_all (with_control (mkSink [] n) (mkSink [] n)) chunks = Some (Continue, q) ∧
       delivered <$> control q = Some arrived ∧
       ∀ schedule scope, capsules_of schedule = arrived →
         let '(t, evs) := run_tunnel (schedule ++ repeat Poll (length cs)) (new_tunnel scope) in
         controls evs = map event_of cs ∧ assigned t = last_assigned (map event_of cs) ∧
         peer_routes t = last_routes (map event_of cs)).
Proof.
  intros Hw Hwf Hf Hn. destruct (send_all_wire cs sender Hwf Hf) as (caps & sent & Hcs & Hs & Henc).
  rewrite Hw in Henc. exists sent. split; [done|]. intros Hch.
  destruct (carries_controls _ _ Hcs) as (Hctl & Hev & Hok & Hlen).
  destruct (pump_reassembles (with_control (mkSink [] n) (mkSink [] n)) caps (written sent) chunks)
    as (q & Hq & _ & _ & Hc); [done|done|split; cbn; lia|done|done|].
  exists q, caps. split; [done|]. split; [rewrite Hc; cbn; by rewrite Hctl|]. intros schedule scope Harr.
  pose proof (run_tunnel_inv (schedule ++ repeat Poll (length cs)) (new_tunnel scope) eq_refl eq_refl eq_refl eq_refl)
    as Hinv.
  pose proof (run_tunnel_inv schedule (new_tunnel scope) eq_refl eq_refl eq_refl eq_refl) as Hinv0.
  assert (waiting (t_capsules (run_tunnel (schedule ++ repeat Poll (length cs)) (new_tunnel scope)).1) = []) as Hdr.
  { unfold run_tunnel in *. rewrite fold_left_app. apply polls_drain; [apply reader_stays_run; cbn; eauto|].
    destruct (fold_left act schedule _) as [t0 evs0]. destruct Hinv0 as (tc & td & H1 & _). cbn [fst].
    rewrite Harr in H1. rewrite <- Hlen, H1, length_app. lia. }
  destruct (run_tunnel (schedule ++ _) _) as [t evs]. cbn [fst] in Hdr.
  destruct Hinv as (tc & td & H1 & _ & H3 & _ & H5 & H6). rewrite Hdr, app_nil_r in H1.
  unfold capsules_of in H1, Harr. rewrite omap_app, Harr in H1.
  assert (∀ m, omap (λ a, match a with CapsuleArrives c => Some c | _ => None end) (repeat Poll m) = []) as Hnil
    by (induction m; [done|cbn; done]).
  rewrite Hnil, app_nil_r in H1. subst tc. rewrite Hev in H3. split; [done|].
  rewrite H5, H6, <- H3. destruct (last_of_controls evs) as [-> ->]. done.
Qed.

(** ** Requests and answers *)

Lemma allocate_spec prefixes next :
  let '(es, n) := allocate prefixes next in
  map prefix es = prefixes ∧ map request_id es = seqZ next (Z.of_nat (length prefixes)) ∧
  n = next + Z.of_nat (length prefixes).
Proof.
  revert next. induction prefixes as [|p prefixes IH]; intros next; cbn [allocate]; [cbn; split_and!; [done..|lia]|].
  specialize (IH (next + 1)). destruct (allocate prefixes (next + 1)) as [es n].
  destruct IH as (IH1 & IH2 & IH3). cbn [map prefix request_id length].
  rewrite IH1, IH2, Nat2Z.inj_succ, (seqZ_cons next) by lia. rewrite Z.pred_succ, IH3. split_and!; [done..|lia].
Qed.

Lemma answer_entry assigned request :
  let answer := answer_for assigned request in
  request_id answer = request_id request ∧
  (prefix answer ∈ assigned ∧ is_ipv6 (addr (prefix answer)) = is_ipv6 (addr (prefix request)) ∨
   prefix answer = unspecified (is_ipv6 (addr (prefix request))) ∧
   ∀ p, p ∈ assigned → is_ipv6 (addr p) ≠ is_ipv6 (addr (prefix request))).
Proof.
  cbv zeta. split; [done|]. unfold answer_for. cbn [prefix].
  destruct (find _ assigned) as [p|] eqn:Hf; cbn [default from_option id]; [left|right].
  - apply find_some in Hf as [Hin Heq]. apply list_elem_of_In in Hin. by apply eqb_prop in Heq.
  - split; [done|]. intros p Hp%list_elem_of_In Heq. eapply find_none in Hf; [|done].
    cbn in Hf. rewrite Heq, eqb_reflx in Hf. done.
Qed.

(** Every requested address is answered.  The ids a client takes are
    consecutive, not zero and never taken before, whether or not the request
    could be sent; what it puts on the stream is the request for those prefixes
    under those ids; and the proxy's answer has one entry per request, in order,
    with the same id: a prefix it has assigned of the family asked for, or, if it
    has none, the all-zero address of that family at full length.  The answer is
    a capsule the client accepts. *)
Theorem address_requests_answered (t : IpTunnel) (prefixes : list IpPrefix) (leased : list IpPrefix) :
  0 < next_request_id t → next_request_id t + Z.of_nat (length prefixes) ≤ Varint.MAX →
  prefixes ≠ [] → Forall prefix_ok prefixes → Forall prefix_ok leased →
  ∃ requests cap, to_capsule (AddressRequest requests) = Ok cap ∧
    from_capsule cap = Ok (Some (AddressRequest requests)) ∧
    map prefix requests = prefixes ∧
    map request_id requests = seqZ (next_request_id t) (Z.of_nat (length prefixes)) ∧
    (∀ ok, next_request_id (request_addresses ok prefixes t).2 = next_request_id t + Z.of_nat (length prefixes)) ∧
    ((request_addresses true prefixes t).1 = Ok (map request_id requests) ∨ Capsule.encode cap = None) ∧
    capsule_wf (AddressAssign (answer_address_request requests leased)) ∧
    Forall2 (λ r a, request_id a = request_id r ∧
      (prefix a ∈ leased ∧ is_ipv6 (addr (prefix a)) = is_ipv6 (addr (prefix r)) ∨
       prefix a = unspecified (is_ipv6 (addr (prefix r))) ∧
       ∀ p, p ∈ leased → is_ipv6 (addr p) ≠ is_ipv6 (addr (prefix r))))
      requests (answer_address_request requests leased).
Proof.
  intros Hpos Hmax Hne Hpre Hleased. pose proof (allocate_spec prefixes (next_request_id t)) as Ha.
  destruct (allocate prefixes (next_request_id t)) as [requests next] eqn:Hal. destruct Ha as (H1 & H2 & H3).
  assert (Forall (entry_ok true) requests) as Hok.
  { apply Forall_forall. intros e He.
    assert (request_id e ∈ map request_id requests) as Hid by by apply list_elem_of_fmap_2.
    rewrite H2 in Hid. apply elem_of_seqZ in Hid.
    split; [lia|]. split; [|lia]. rewrite Forall_forall in Hpre. apply Hpre. rewrite <- H1. by apply list_elem_of_fmap_2. }
  assert (requests ≠ []) as Hr by (intros ->; cbn in H1; congruence).
  destruct (ip_capsule_roundtrip (AddressRequest requests)) as (cap & Ht & _ & _ & Hf); [by split|].
  exists requests, cap. unfold request_addresses. rewrite Hal. unfold send_capsule. rewrite Ht. split_and!; try done.
  - intros ok. destruct (Capsule.encode cap), ok; done.
  - destruct (Capsule.encode cap); [by left|by right].
  - cbn. apply Forall_map, Forall_forall. intros e He. rewrite Forall_forall in Hok.
    destruct (Hok e He) as (Hid & _). destruct (answer_entry leased e) as (E & Hcase).
    split; [by rewrite E|]. split; [|done]. destruct Hcase as [[Hin _]|[-> _]].
    + rewrite Forall_forall in Hleased. by apply Hleased.
    + by destruct (is_ipv6 _); vm_compute; split_and!.
  - unfold answer_address_request. rewrite <- (map_id requests) at 1. apply Forall2_fmap, Forall_Forall2_diag, Forall_forall.
    intros e _. apply answer_entry.
Qed.

(** A malformed capsule makes [recv] return [None], but the tunnel is not closed:
    the next call goes on with the capsule after it. *)
Lemma malformed_not_closed :
  let bad := mkCapsule ADDRESS_ASSIGN [0] in
  let good := mkCapsule ADDRESS_ASSIGN [] in
  (run_tunnel [CapsuleArrives bad; CapsuleArrives good; Poll; Poll] (new_tunnel any)).2 = [AddressesAssigned []].
Proof. done. Qed.

(** ** Leases of sessions *)

Definition leases (p : IpProxy) : list IpLease := s_lease <$> sending p ++ sessions p ++ held p.

Definition proxy_inv (st0 : PoolState) (p : IpProxy) : Prop :=
  pool_inv st0 (pool p, leases p) ∧ (length (sessions p) ≤ SESSIONS_CAPACITY)%nat ∧
  (∀ s, s ∈ sending p ++ sessions p ++ held p → s_assigned s = lease_prefix (s_lease s)).

Lemma pool_inv_perm st0 st l l' : l ≡ₚ l' → pool_inv st0 (st, l) → pool_inv st0 (st, l').
Proof.
  intros Hp (H1 & H2 & H3 & H4 & H5 & H6). cbn [fst snd] in *. split_and!; cbn [fst snd]; try done.
  - by rewrite <- Hp.
  - intros k. rewrite H5. by rewrite Hp.
  - intros x Hx. apply H6. by rewrite Hp.
Qed.

Lemma pool_inv_release st0 st l ls : pool_inv st0 (st, l :: ls) → pool_inv st0 (release st (key l), ls).
Proof. intros H. eapply pool_inv_step; [exact H|]. apply (step_drop st [] l ls). Qed.

Lemma pool_inv_drop_all st0 q st ls :
  pool_inv st0 (st, (s_lease <$> q) ++ ls) → pool_inv st0 (fold_left drop_session q st, ls).
Proof.
  revert st. induction q as [|s q IH]; intros st H; cbn [fold_left]; [done|]. apply IH.
  by apply pool_inv_release in H.
Qed.

Lemma open_session_inv st0 req st r st' ls :
  open_session req st = (r, st') → pool_inv st0 (st, ls) →
  match r with
  | Ok s => pool_inv st0 (st', s_lease s :: ls) ∧ s_assigned s = lease_prefix (s_lease s)
  | Err _ => pool_inv st0 (st', ls)
  end.
Proof.
  unfold open_session. intros H Hi.
  destruct (req_protocol req); try by injection H as <- <-.
  destruct (as_ip (req_destination req)) as [scope|]; [|by injection H as <- <-].
  destruct (lease st) as [[l|] st2] eqn:Hl; injection H as <- <-; cbn [s_lease s_assigned].
  - split; [|done]. eapply pool_inv_step; [exact Hi|]. by apply step_lease.
  - eapply pool_inv_step; [exact Hi|]. by apply step_exhausted.
Qed.

Lemma proxy_step_inv st0 p p' : proxy_step p p' → proxy_inv st0 p → proxy_inv st0 p'.
Proof.
  assert (∀ (l1 l2 : list IpSession) s rest, l1 ++ s :: l2 ++ rest ≡ₚ s :: l1 ++ l2 ++ rest) as Hmid
    by (intros; by rewrite <- Permutation_middle).
  intros Hstep (Hpool & Hlen & Has). destruct Hstep; unfold leases in *;
    cbn [pool sending sessions held attached set_pool] in *.
  - by pose proof (open_session_inv _ _ _ _ _ _ H Hpool).
  - destruct (open_session_inv _ _ _ _ _ _ H Hpool) as [Hi Heq]. split; [exact Hi|]. split; [done|].
    intros x [->|Hx]%elem_of_cons; auto.
  - assert (l1 ++ s :: l2 ++ q ++ h ≡ₚ (l1 ++ l2) ++ (q ++ [s]) ++ h) as Hperm.
    { rewrite Hmid, <- !app_assoc. cbn [app]. rewrite !app_assoc. apply Permutation_middle. }
    rewrite <- app_assoc in Hpool, Has. cbn [app] in Hpool, Has. split.
    + eapply pool_inv_perm; [|exact Hpool]. cbn. by rewrite Hperm.
    + split; [cbn; rewrite length_app; cbn; unfold SESSIONS_CAPACITY in *; lia|]. intros x Hx. apply Has.
      by rewrite Hperm.
  - rewrite <- app_assoc in Hpool, Has. cbn [app] in Hpool, Has.  split; [|split; [done|]].
    + apply pool_inv_release. eapply pool_inv_perm; [|exact Hpool]. cbn. by rewrite Hmid, <- app_assoc.
    + intros x Hx. apply Has. rewrite Hmid. right. by rewrite app_assoc.
  - rewrite <- app_assoc in Hpool, Has. cbn [app] in Hpool, Has.  split; [|split; [done|]].
    + apply pool_inv_release. eapply pool_inv_perm; [|exact Hpool]. cbn. by rewrite Hmid, <- app_assoc.
    + intros x Hx. apply Has. rewrite Hmid. right. by rewrite app_assoc.
  - assert (l ++ (s :: q) ++ h ≡ₚ l ++ q ++ s :: h) as Hperm by (cbn [app]; by rewrite (Permutation_middle q h s)).
    split; [eapply pool_inv_perm; [|exact Hpool]; cbn; by rewrite Hperm|]. split; [cbn in *; lia|].
    intros x Hx. apply Has. by rewrite Hperm.
  - assert (l ++ q ++ h1 ++ s :: h2 ≡ₚ s :: l ++ q ++ h1 ++ h2) as Hperm
      by (rewrite !app_assoc; symmetry; apply Permutation_middle).
    split; [|split; [done|]].
    + apply pool_inv_release. eapply pool_inv_perm; [|exact Hpool]. cbn. by rewrite Hperm.
    + intros x Hx. apply Has. rewrite Hperm. by right.
  - assert (l ++ q ++ h ≡ₚ q ++ l ++ h) as Hperm by (rewrite !app_assoc; by rewrite (Permutation_app_comm l q)).
    split; [|split; [cbn; lia|]].
    + apply pool_inv_drop_all. eapply pool_inv_perm; [|exact Hpool]. cbn. by rewrite Hperm, fmap_app.
    + intros x Hx. apply Has. rewrite Hperm. apply elem_of_app. by right.
Qed.

(** An address belongs to one session at a time, and none is lost.  Whatever
    calls, cancellations and drops a proxy sees, the sessions it knows (waiting to
    be sent, queued, or held by the application) have pairwise distinct addresses
    of the pool's prefix, none of them (below the very last IPv6 address) the
    proxy's own; each is told the address it was leased; the addresses the pool
    counts as leased are exactly theirs, so a refused or abandoned call leaves
    nothing behind; and the queue stays within its bound. *)
Theorem ip_sessions_exclusive (pre : IpPrefix) (p : IpProxy) :
  prefix_ok pre → rtc proxy_step (new_proxy (new_pool pre)) p →
  let live := sending p ++ sessions p ++ held p in
  NoDup ((λ s, addr (s_assigned s)) <$> live) ∧
  (∀ s, s ∈ live → in_prefix pre (addr (s_assigned s)) ∧
     (to_integer (addr pre) + 1 < u128_max → addr (s_assigned s) ≠ proxy_address (pool p))) ∧
  (∀ k, k ∈ leased (pool p) ↔ k ∈ (λ s, key (s_lease s)) <$> live) ∧
  (length (sessions p) ≤ SESSIONS_CAPACITY)%nat.
Proof.
  intros Hpre Hrun.
  assert (proxy_inv (new_pool pre) p) as (Hpool & Hlen & Has).
  { assert (proxy_inv (new_pool pre) (new_proxy (new_pool pre))) as H0.
    { split; [by apply new_pool_inv|]. split; [cbn; lia|]. intros s []%elem_of_nil. }
    induction Hrun; eauto using proxy_step_inv. }
  cbv zeta. destruct (pool_inv_addresses _ _ _ Hpre Hpool) as (Hnd & Hin & Hpx). unfold leases in *.
  set (live := sending p ++ sessions p ++ held p) in *.
  assert ((λ s, addr (s_assigned s)) <$> live = lease_address <$> (s_lease <$> live)) as ->.
  { rewrite <- list_fmap_compose. apply list_fmap_ext. intros i s Hs. cbn. unfold lease_address.
    rewrite Has; [done|]. by eapply list_elem_of_lookup_2. }
  split; [done|]. split; [|split; [|done]].
  - intros s Hs. rewrite (Has s Hs). change (addr (lease_prefix (s_lease s))) with (lease_address (s_lease s)).
    split; [apply Hin|intros Hl; apply Hpx; [done|]]; by apply list_elem_of_fmap_2.
  - destruct Hpool as (_ & _ & _ & _ & Hset & _). cbn [fst snd] in Hset. intros k. rewrite Hset.
    by rewrite <- list_fmap_compose.
Qed.

(** ** Examples *)

Definition said : list IpCapsule := [AddressAssign [mkEntry 0 sample_prefix]; RouteAdvertisement sample_routes; AddressAssign []].
Definition said_wire : list Z := match send_all said (new_tunnel any) with Some t => written t | None => [] end.
Definition said_chunks : list (list Z) := [take 5 said_wire; drop 5 said_wire].

Lemma sample_prefix_ok : prefix_ok sample_prefix.
Proof. vm_compute. by split_and!. Qed.

Lemma ip_control_end_to_end_witness :
  ∃ sent, send_all said (new_tunnel any) = Some sent ∧ concat said_chunks = written sent ∧
    ∃ q arrived, pump_all (with_control (mkSink [] 4) (mkSink [] 4)) said_chunks = Some (Continue, q) ∧
      delivered <$> control q = Some arrived ∧ length arrived = 3%nat ∧
      let '(t, evs) := run_tunnel (map CapsuleArrives arrived ++ repeat Poll 3) (new_tunnel any) in
      controls evs = map event_of said ∧ assigned t = [] ∧ peer_routes t = sample_routes.
Proof.
  destruct (ip_control_end_to_end (new_tunnel any) said said_chunks 4) as (sent & Hs & H).
  - reflexivity.
  - apply Forall_cons_2; [|apply Forall_cons_2; [|apply Forall_cons_2; [apply Forall_nil_2|apply Forall_nil_2]]].
    + apply Forall_cons_2; [|apply Forall_nil_2]. split; [by vm_compute|]. split; [apply sample_prefix_ok|done].
    + split; [apply sample_routes_ok|reflexivity].
  - repeat (apply Forall_cons_2; [intros cap [= <-]; by vm_compute|]). apply Forall_nil_2.
  - cbn; lia.
  - exists sent. split; [exact Hs|].
    assert (concat said_chunks = written sent) as Hw by (vm_compute in Hs; injection Hs as <-; reflexivity).
    split; [exact Hw|]. destruct (H Hw) as (q & arrived & Hq & Ha & Hrun). exists q, arrived.
    split; [exact Hq|]. split; [exact Ha|].
    assert (length arrived = 3%nat) as Hl by (vm_compute in Hq; injection Hq as <-; injection Ha as <-; reflexivity).
    split; [exact Hl|].
    assert (capsules_of (map CapsuleArrives arrived) = arrived) as Hc
      by (clear; induction arrived as [|a l IH]; [done|change (a :: capsules_of (map CapsuleArrives l) = a :: l); by rewrite IH]).
    exact (Hrun (map CapsuleArrives arrived) any Hc).
Defined.

Lemma address_requests_answered_witness :
  ∃ requests cap, to_capsule (AddressRequest requests) = Ok cap ∧
    map request_id requests = [1; 2] ∧
    map prefix (answer_address_request requests [host_prefix (V4 7)]) = [host_prefix (V4 7); unspecified true].
Proof.
  destruct (address_requests_answered (new_tunnel any) [unspecified false; unspecified true] [host_prefix (V4 7)])
    as (requests & cap & Ht & _ & Hp & Hi & _).
  - reflexivity.
  - by vm_compute.
  - done.
  - repeat (apply Forall_cons_2; [vm_compute; by split_and!|]). apply Forall_nil_2.
  - repeat (apply Forall_cons_2; [vm_compute; by split_and!|]). apply Forall_nil_2.
  - exists requests, cap. split; [exact Ht|]. split; [exact Hi|].
    destruct requests as [|[i1 p1] [|[i2 p2] [|]]]; try discriminate. injection Hp as -> ->. reflexivity.
Defined.

Definition one_session : IpSession := mkSession {| sa_ip := V4 9; sa_port := 1 |} any (lease_prefix sample_lease) sample_lease.
Lemma ip_sessions_exclusive_witness :
  let p := mkIpProxy sample_pool [] [one_session] [] true in
  rtc proxy_step (new_proxy (new_pool sample_prefix)) p ∧
  in_prefix sample_prefix (addr (s_assigned one_session)) ∧ (∀ k, k ∈ leased (pool p) ↔ k ∈ [key sample_lease]).
Proof.
  intros p.
  assert (rtc proxy_step (new_proxy (new_pool sample_prefix)) p) as Hrun.
  { eapply rtc_l; [apply (call_leased (mkRequest ConnectIp (IpDest any) {| sa_ip := V4 9; sa_port := 1 |} (λ _, None) None None None)
      _ one_session sample_pool); reflexivity|].
    eapply rtc_l; [apply (call_sent sample_pool [] one_session [] [] []); unfold SESSIONS_CAPACITY; cbn; lia|]. apply rtc_refl. }
  destruct (ip_sessions_exclusive sample_prefix p sample_prefix_ok Hrun) as (_ & Hin & Hk & _).
  split; [exact Hrun|]. split; [apply Hin; left|exact Hk].
Defined.
