(* ===== verification/Gateway.v ===== *)
(** * The gateway

    Model of [build_dispatch] and [build_service] in
    [crates/skimasque-cli/src/bin/skimasque-server.rs] and of [platform_service]
    in [crates/skimasque-cli/src/platform.rs]: the order in which the layers are
    stacked, and what an accepted tunnel therefore satisfies.

    The cap on concurrent requests ([tower]'s [GlobalConcurrencyLimitLayer]) only
    makes a call wait, so it is not a layer here.  Loading the policy files is a
    parameter: what matters to the stack is whether there is a policy, and the set
    itself is the world's. *)

From S2P Require Import Prelude RustStr RustNet Target ConnectIp AddressPolicy Tenant AuditLog Service.
From S2P Require Import PolicyModel PolicyEval Auth PolicyLayer Revocation Quota.

(** ** Optional layers *)

(** [tower]'s [Either]: a layer that may be absent. *)
#[global] Instance either_service {A B : Type} `{Service A} `{Service B} : Service (A + B) :=
  λ s req w, match s with inl a => call a req w | inr b => call b req w end.

Definition option_layer {L A S : Type} (layer : L → S → A) (l : option L) (inner : S) : A + S :=
  match l with Some l => inl (layer l inner) | None => inr inner end.

(** ** The stack *)

Abbreviation verifier_fn := (str → result str WorkloadIdentity).

Section stack.
Context `{Network} `{TokenCodec}.

Record Args : Type := mkArgs {
  allow_private : bool;
  allow_ports : list Z;
  allow_cidrs : list IpNet;
  no_connect_tcp : bool;
  auth_token : option str;
  policy_observe : bool;
}.

Definition floor_of (args : Args) : AddressPolicy IpNet :=
  let policy := if allow_private args then permissive else default_policy in
  let policy := match allow_ports args with
                | [] => policy
                | ports => with_allowed_ports policy ports
                end in
  match allow_cidrs args with
  | [] => policy
  | cidrs => with_allowed_cidrs policy cidrs
  end.

Definition build_dispatch (args : Args) : Dispatch :=
  mkDispatch (Some (mkUdpProxy (floor_of args)))
    (if no_connect_tcp args then None else Some (mkTcpProxy (floor_of args))).

(** [load_policy_layer], once the policy files were read (if there are any). *)
Definition load_policy_layer (args : Args) (loaded : bool) : option (Mode * bool) :=
  if negb loaded then None
  else if policy_observe args then Some (ObserveMode, false)
  else Some (EnforceMode, true).

Definition build_service (args : Args) (oidc : option verifier_fn) (loaded : bool) :=
  let policy_layer := load_policy_layer args loaded in
  let quota := if policy_observe args then None else policy_layer in
  option_layer (λ v s, mkIdentify s v) oidc
    (option_layer (λ token s, mkAuthorize s token) (auth_token args)
      (mkRevoked
        (option_layer (λ l s, mkEnforce s Single l.1 l.2) policy_layer
          (option_layer (λ _ s, mkMeter s) quota (build_dispatch args))))).

Definition platform_service (dispatch : Dispatch)
    (verify : str → result str (TenantId * WorkloadIdentity)) :=
  mkTenantIdentify
    (mkRevoked (mkEnforce (mkMeter (mkTenantMetered dispatch)) Tenants EnforceMode true)) verify.
End stack.

(** ** What an accepted tunnel satisfies *)

Section admission.
Context `{Network} `{TokenCodec}.

(** The request as the layers below the identity layer see it. *)
Definition identified (oidc : option verifier_fn) (req req' : TunnelRequest) : Prop :=
  match oidc with
  | None => req' = req
  | Some verify => ∃ token identity,
      bearer_token req = Some token ∧ verify token = Ok identity ∧ req' = with_identity req identity
  end.

Definition authenticated (args : Args) (req : TunnelRequest) : Prop :=
  match auth_token args with
  | None => True
  | Some expected => ∃ token, bearer_token req = Some token ∧ as_bytes token = as_bytes expected
  end.

Definition session_live (req : TunnelRequest) (w : World) : Prop :=
  match session_of req with
  | None => True
  | Some sid => pending (end_of req sid) w = true ∧ representable req = true
  end.

(** The signal the tunnel of a session carries. *)
Definition with_session (req : TunnelRequest) (a : Accepted) : Accepted :=
  match session_of req with
  | None => a
  | Some sid => with_end a (end_of req sid)
  end.

Lemma either_Ok {L A S : Type} `{Service A} `{Service S} (layer : L → S → A) (l : option L) (inner : S) req w a w' :
  call (option_layer layer l inner) req w = (Ok a, w') ↔
  match l with
  | Some l => call (layer l inner) req w = (Ok a, w')
  | None => call inner req w = (Ok a, w')
  end.
Proof. by destruct l. Qed.

Lemma session_Ok {S : Type} `{Service S} (s : Revoked S) req w a w' :
  call s req w = (Ok a, w') ↔
  session_live req w ∧ ∃ a0, call (rv_inner s) req w = (Ok a0, w') ∧ a = with_session req a0.
Proof.
  rewrite revoked_Ok. unfold session_live, with_session. destruct (session_of req) as [sid|].
  - tauto.
  - split; [eauto|]. by intros (_ & a0 & ? & ->).
Qed.

(** Identity and bearer token leave the rest of the request alone. *)
Lemma identified_same oidc req req' :
  identified oidc req req' →
  req_destination req' = req_destination req ∧ req_protocol req' = req_protocol req ∧
  bearer_token req' = bearer_token req ∧ token_exp req' = token_exp req.
Proof. destruct oidc; cbn; [intros (token & identity & _ & _ & ->)|intros ->]; done. Qed.

Lemma front_Ok {S : Type} `{Service S} (args : Args) (oidc : option verifier_fn) (inner : S) req w a w' :
  call (option_layer (λ v s, mkIdentify s v) oidc
         (option_layer (λ token s, mkAuthorize s token) (auth_token args) (mkRevoked inner))) req w = (Ok a, w') ↔
  ∃ req1 a0, identified oidc req req1 ∧ authenticated args req ∧ session_live req1 w ∧
    call inner req1 w = (Ok a0, w') ∧ a = with_session req1 a0.
Proof.
  assert (∀ req1, call (option_layer (λ token s, mkAuthorize s token) (auth_token args) (mkRevoked inner)) req1 w
            = (Ok a, w') ↔ authenticated args req1 ∧ session_live req1 w ∧
              ∃ a0, call inner req1 w = (Ok a0, w') ∧ a = with_session req1 a0) as Hrest.
  { intros req1. rewrite either_Ok. unfold authenticated. destruct (auth_token args) as [t|].
    - rewrite authorize_Ok. cbn [az_inner expected]. rewrite session_Ok. cbn [rv_inner]. tauto.
    - rewrite session_Ok. cbn [rv_inner]. tauto. }
  rewrite either_Ok. destruct oidc as [v|]; cbn [identified].
  - rewrite identify_Ok. cbn [id_inner verifier]. setoid_rewrite Hrest. split.
    + intros (token & identity & Hb & Hv & Ha & Hl & a0 & Hc & ->). exists (with_identity req identity), a0.
      split_and!; eauto.
    + intros (req1 & a0 & (token & identity & Hb & Hv & ->) & Ha & Hl & Hc & ->).
      exists token, identity. split_and!; eauto.
  - rewrite Hrest. split.
    + intros (Ha & Hl & a0 & Hc & ->). eauto 10.
    + intros (? & a0 & -> & Ha & Hl & Hc & ->). eauto 10.
Qed.

(** What stands between an admitted request and its tunnel: the policy allows the
    target, the decision is recorded, a permit is taken if it is limited, and an
    address of the target passes the floor and opens. *)
Definition granted (source : PolicySource) (d : Dispatch) (req : TunnelRequest) (w w' : World)
    (a : Accepted) : Prop :=
  ∃ set org t allowed rv floor open raw c,
    as_target (req_destination req) = Some t ∧
    policies_for source req w = Ok (set, org) ∧
    evaluate set (request_context req t) = Allows allowed ∧
    reserve (with_authorized req (authorized_by t allowed))
      (record_event w (decision_event w req t (request_context req t) (Allows allowed) org)) = (Ok rv, w') ∧
    serves d req = Some (floor, open, raw) ∧ opens floor open t c ∧
    a = finish (rv_permit rv) (rv_limits rv) c.

Lemma serves_authorized d req x : serves d (with_authorized req x) = serves d req.
Proof. done. Qed.

Lemma core_Ok (d : Dispatch) (source : PolicySource) req w a w' :
  call (mkEnforce (mkMeter d) source EnforceMode true) req w = (Ok a, w') ↔ granted source d req w w' a.
Proof.
  rewrite enforce_Ok by done. cbn [en_inner]. setoid_rewrite meter_Ok. cbn [me_inner].
  setoid_rewrite dispatch_Ok. setoid_rewrite serves_authorized.
  unfold decided, audited. cbn [audit policies]. split.
  - intros (t & org & al & (Ht & set & Hp & Hv) & rv & w1 & a0 & Hr & (-> & floor & open & raw & Hs & Ho) & ->).
    by exists set, org, t, al, rv, floor, open, raw, a0.
  - intros (set & org & t & al & rv & floor & open & raw & c & Ht & Hp & Hv & Hr & Hs & Ho & ->).
    exists t, org, al. split; [eauto|]. exists rv, w', c. split; [done|]. split; [|done]. eauto 10.
Qed.

(** C1.  The whole enforcing gateway: a request is accepted exactly when its
    credential verifies (and the shared token is right, where they are
    configured), its session is neither revoked nor expired, the policy set in
    force allows the target for that identity, the policy has a permit left, and
    an address of that target passes the address floor and opens.  The answer is
    then the tunnel to that address, with the limits of the decision, its permit
    and the end signal of its session, and the decision has been recorded. *)
Theorem gateway_accepts_iff (args : Args) (oidc : option verifier_fn) (req : TunnelRequest) (w w' : World)
    (a : Accepted) :
  policy_observe args = false →
  call (build_service args oidc true) req w = (Ok a, w') ↔
  ∃ req1 a0, identified oidc req req1 ∧ authenticated args req ∧ session_live req1 w ∧
    granted Single (build_dispatch args) req1 w w' a0 ∧ a = with_session req1 a0.
Proof.
  intros Hob. unfold build_service, load_policy_layer. rewrite Hob. cbn [negb]. rewrite front_Ok.
  by setoid_rewrite <- core_Ok.
Qed.

Lemma platform_Ok (d : Dispatch) (verify : str → result str (TenantId * WorkloadIdentity))
    (req : TunnelRequest) (w w' : World) (a : Accepted) :
  call (platform_service d verify) req w = (Ok a, w') ↔
  ∃ token org identity tenant t allowed rv w1 floor open raw c,
    bearer_token req = Some token ∧ verify token = Ok (org, identity) ∧
    let req1 := with_identity (with_tenant req org) identity in
    session_live req1 w ∧ as_target (req_destination req) = Some t ∧
    resolve_org (tenant_table w) org = Some tenant ∧
    evaluate (tenant_policy tenant) (request_context req1 t) = Allows allowed ∧
    reserve (with_authorized req1 (authorized_by t allowed))
      (record_event w (decision_event w req1 t (request_context req1 t) (Allows allowed) (Some org)))
      = (Ok rv, w1) ∧
    w' = set_usage w1 (meter_for (usage w1) org) ∧
    serves d req = Some (floor, open, raw) ∧ opens floor open t c ∧
    a = with_session req1 (finish (rv_permit rv) (rv_limits rv) (with_meter c org)).
Proof.
  unfold platform_service. rewrite tenant_identify_Ok. cbn [ti_inner tenant_verifier].
  setoid_rewrite session_Ok. cbn [rv_inner]. split.
  - intros (token & org & identity & Hb & Hv & Hl & a0 & Hc & ->).
    apply enforce_Ok in Hc as (t & o & al & (Ht & set & Hp & He) & Hc); [|done].
    apply bind_Ok in Hp as (id & Hid & Hp). apply ok_or_Ok in Hid. injection Hid as <-.
    apply bind_Ok in Hp as (tenant & Hres & Hp). apply ok_or_Ok in Hres. injection Hp as <- <-.
    apply meter_Ok in Hc as (rv & w1 & a1 & Hr & Hc & ->).
    cbn [me_inner en_inner] in Hc. rewrite tenant_metered_Ok in Hc.
    destruct Hc as (a2 & Hc & ->). apply dispatch_Ok in Hc as (-> & floor & open & raw & Hs & Ho).
    by exists token, org, identity, tenant, t, al, rv, w1, floor, open, raw, a2.
  - intros (token & org & identity & tenant & t & al & rv & w1 & floor & open & raw & c & Hb & Hv & Hl & Ht & Hres & He & Hr & -> & Hs & Ho & ->).
    exists token, org, identity. split_and!; [done..|]. eexists. split; [|done].
    apply enforce_Ok; [done|]. exists t, (Some org), al. split.
    { split; [done|]. exists (tenant_policy tenant). split; [|done]. cbn. rewrite Hres. done. }
    apply meter_Ok. exists rv, w1, (with_meter c org). split_and!; [done| |done].
    cbn [me_inner en_inner]. apply tenant_metered_Ok. cbn. exists c. split; [|done].
    apply dispatch_Ok. split; [done|]. eauto 10.
Qed.

(** Multi-tenant gateways keep tenants apart: a tunnel is accepted exactly
    when the tenant verifier ties its credential to an organisation, the session is
    live, and that organisation's own policy, as served at that moment, grants it;
    the tunnel's traffic is then counted on that organisation's meter. *)
Theorem platform_accepts_iff (d : Dispatch) (verify : str → result str (TenantId * WorkloadIdentity))
    (req : TunnelRequest) (w w' : World) (a : Accepted) :
  call (platform_service d verify) req w = (Ok a, w') ↔
  ∃ token org identity tenant t allowed rv w1 floor open raw c,
    bearer_token req = Some token ∧ verify token = Ok (org, identity) ∧
    let req1 := with_identity (with_tenant req org) identity in
    session_live req1 w ∧ as_target (req_destination req) = Some t ∧
    resolve_org (tenant_table w) org = Some tenant ∧
    evaluate (tenant_policy tenant) (request_context req1 t) = Allows allowed ∧
    reserve (with_authorized req1 (authorized_by t allowed))
      (record_event w (decision_event w req1 t (request_context req1 t) (Allows allowed) (Some org)))
      = (Ok rv, w1) ∧
    w' = set_usage w1 (meter_for (usage w1) org) ∧
    serves d req = Some (floor, open, raw) ∧ opens floor open t c ∧
    a = with_session req1 (finish (rv_permit rv) (rv_limits rv) (with_meter c org)).
Proof. apply platform_Ok. Qed.
End admission.

(** ** The floor, in every configuration *)

Section floor.
Context `{Network} `{TokenCodec}.

(** Every tunnel a service opens goes where the address policy lets it. *)
Definition floored {S : Type} `{Service S} (floor : AddressPolicy IpNet) (s : S) : Prop :=
  ∀ req w a w', call s req w = (Ok a, w') → permits net_contains floor (peer a) = Ok tt.

Lemma opens_peer floor open t a :
  open = udp_open ∨ open = tcp_open → opens floor open t a →
  permits net_contains floor (peer a) = Ok tt ∧ ∃ candidates, resolve t = Ok candidates ∧ peer a ∈ candidates.
Proof.
  intros Hopen (cs & pre & addr & post & Hr & -> & Hp & Ho & _).
  rewrite (open_peer addr a) by (destruct Hopen; subst; auto). split; [done|].
  eexists. split; [done|]. apply elem_of_app. right. left.
Qed.

Lemma finish_peer permit limits a : peer (finish permit limits a) = peer a.
Proof. unfold finish. by destruct permit, (limits_empty limits). Qed.
Lemma finish_meter permit limits a : acc_meter (finish permit limits a) = acc_meter a.
Proof. unfold finish. by destruct permit, (limits_empty limits). Qed.
Lemma with_session_peer req a : peer (with_session req a) = peer a.
Proof. unfold with_session. by destruct (session_of req). Qed.

Lemma serves_floor args req floor open raw :
  serves (build_dispatch args) req = Some (floor, open, raw) → floor = floor_of args.
Proof.
  unfold serves, build_dispatch. destruct (req_protocol req), (req_destination req), (no_connect_tcp args);
    cbn; congruence.
Qed.

Lemma dispatch_floored args : floored (floor_of args) (build_dispatch args).
Proof.
  intros req w a w' (_ & floor & open & raw & Hs & Ho)%dispatch_Ok.
  pose proof (serves_floor _ _ _ _ _ Hs) as ->. apply serves_open in Hs. by eapply opens_peer.
Qed.

Lemma meter_floored {S : Type} `{Service S} floor (s : Meter S) : floored floor (me_inner s) → floored floor s.
Proof. intros Hs req w a w' (rv & w1 & a0 & _ & Hc & ->)%meter_Ok. rewrite finish_peer. eauto. Qed.

Lemma enforce_floored {S : Type} `{Service S} floor (s : Enforce S) :
  floored floor (en_inner s) → floored floor s.
Proof.
  intros Hs req w a w'. change (call s req w) with (enforce_service s req w). unfold enforce_service.
  destruct (as_target (req_destination req)); [|done].
  destruct (policies_for (policies s) req w) as [[set org]|]; [|done]. cbn zeta iota.
  case_bool_decide; [apply Hs|]. destruct (evaluate set _); [apply Hs|done].
Qed.

Lemma option_layer_floored {L A S : Type} `{Service A} `{Service S} floor (layer : L → S → A) l (inner : S) :
  (∀ x, floored floor (layer x inner)) → floored floor inner → floored floor (option_layer layer l inner).
Proof. intros Ha Hs req w a w' Hc%either_Ok. destruct l; [by eapply Ha|by eapply Hs]. Qed.

(** C7.  The address floor is never bypassed: whatever is configured (with or
    without identity, token and policy, enforcing or only observing), a tunnel the
    gateway opens goes to an address that the floor built from the command line
    permits. *)
Theorem gateway_floor (args : Args) (oidc : option verifier_fn) (loaded : bool) (req : TunnelRequest)
    (w w' : World) (a : Accepted) :
  call (build_service args oidc loaded) req w = (Ok a, w') →
  permits net_contains (floor_of args) (peer a) = Ok tt.
Proof.
  intros (req1 & a0 & _ & _ & _ & Hc & ->)%front_Ok. rewrite with_session_peer. revert Hc.
  apply option_layer_floored.
  - intros l. apply enforce_floored. cbn [en_inner]. apply option_layer_floored; [|apply dispatch_floored].
    intros _. apply meter_floored, dispatch_floored.
  - apply option_layer_floored; [|apply dispatch_floored]. intros _. apply meter_floored, dispatch_floored.
Qed.
End floor.

(** ** What a tunnel carries *)

Section trail.
Context `{Network} `{TokenCodec}.

Lemma reserve_audit req w r w' : reserve req w = (r, w') → audit_log w' = audit_log w.
Proof.
  unfold reserve. intros Hr.
  assert (audit_log (tunnel_limits w (quota_key (ext_tenant req)) (decision_of req)).2 = audit_log w) as Ht.
  { unfold tunnel_limits. destruct (decision_of req) as [al|]; [|done].
    destruct (bandwidth_bits_per_sec _), (packets_per_sec _); done. }
  destruct (tunnel_limits _ _ _) as [limits w1]. cbn in Ht.
  destruct (wanted req) as [[k max]|]; [|congruence].
  unfold try_acquire in Hr. destruct (permits_free _ !! k) as [[|free]|]; injection Hr as <- <-; done.
Qed.

Lemma reserve_permit req w rv w' : reserve req w = (Ok rv, w') → rv_permit rv = fst <$> wanted req.
Proof.
  unfold reserve. destruct (tunnel_limits _ _ _) as [limits w1], (wanted req) as [[k max]|];
    [|by intros [= <- _]].
  destruct (try_acquire _ k); [by intros [= <- _]|done].
Qed.

(** A tunnel the proxies open holds nothing yet. *)
Lemma opens_fresh floor open t a :
  open = udp_open ∨ open = tcp_open → opens floor open t a → acc_guards a = [].
Proof.
  intros Hopen (cs & pre & addr & post & _ & _ & _ & Ho & _).
  destruct Hopen; subst; unfold udp_open, tcp_open in Ho;
    [destruct (connect_udp addr)|destruct (connect_tcp addr)]; try done; by injection Ho as <-.
Qed.

(** C8.  What an enforcing gateway's tunnel carries: it leads to an address its
    judged target resolved to, exactly one decision was recorded and it says
    allow, the permit of a limited policy is held by the tunnel (and nothing
    else), and a session's end signal is still on it after the quota layer
    replaced the tunnel's limits. *)
Theorem gateway_tunnel_carries (args : Args) (oidc : option verifier_fn) (req : TunnelRequest)
    (w w' : World) (a : Accepted) :
  policy_observe args = false →
  call (build_service args oidc true) req w = (Ok a, w') →
  ∃ req1 t allowed candidates event,
    identified oidc req req1 ∧ as_target (req_destination req) = Some t ∧
    evaluate (policy_handle w) (request_context req1 t) = Allows allowed ∧
    resolve t = Ok candidates ∧ peer a ∈ candidates ∧
    audit_log w' = audit_log w ++ [event] ∧ e_decision event = "allow" ∧
    acc_guards a = option_list ((λ _, quota_key (ext_tenant req1) (a_policy allowed)) <$>
      concurrent_connections (a_limits allowed)) ∧
    (∀ sid, session_of req1 = Some sid → tl_end (acc_limits a) = Some (end_of req1 sid)).
Proof.
  intros Hob. unfold build_service, load_policy_layer. rewrite Hob. cbn [negb].
  intros (req1 & a0 & Hid & _ & _ & Hc & ->)%front_Ok. apply core_Ok in Hc as
    (set & org & t & al & rv & floor & open & raw & c & Ht & Hp & Hv & Hr & Hs & Ho & ->).
  cbn in Hp. injection Hp as <- <-.
  apply serves_open in Hs. destruct (opens_peer _ _ _ _ Hs Ho) as (_ & cs & Hres & Hin).
  destruct (identified_same _ _ _ Hid) as (Hdest & _).
  exists req1, t, al, cs. eexists. split_and!; [done|congruence|done..| | | | |].
  - by rewrite with_session_peer, finish_peer.
  - apply reserve_audit in Hr. by rewrite Hr.
  - done.
  - transitivity (acc_guards (finish (rv_permit rv) (rv_limits rv) c)).
    { unfold with_session. by destruct (session_of req1). }
    rewrite finish_guards, (opens_fresh _ _ _ _ Hs Ho), (reserve_permit _ _ _ _ Hr).
    unfold wanted. cbn. by destruct (concurrent_connections (a_limits al)).
  - intros sid Hsid. unfold with_session. by rewrite Hsid.
Qed.
End trail.

(** ** A gateway at work *)

#[local] Existing Instance sample_network.

(** A codec whose payload is a number of seconds. *)
#[local] Instance sample_codec : TokenCodec := {|
  base64_decode := λ s, Some s;
  exp_claim := λ bytes, from_str_radix 10 (2 ^ 64 - 1) bytes;
|}.

Definition sample_args : Args := mkArgs false [] [] true None false.
Definition sample_verify : verifier_fn := λ token,
  if starts_with "good." token then
    Ok (mkIdentity None None None None None None None None None (Some (of_string "s1")))
  else Err (of_string "bad token").
Definition limited_grant : Policy :=
  mkPolicy "grant" default_match default_session None
    (mkLimits (Some 1000) None (Some 1) None None None) [sample_rule] [] false.
Definition limited_world (at_time : Z) (sids : gset str) : World :=
  mkWorld [limited_grant] default_snapshot sids ∅ ∅ ∅ ∅ [] (from_secs at_time).
Definition sample_gateway := build_service sample_args (Some sample_verify) true.
Definition sample_request : TunnelRequest := with_bearer (udp_to "mixed.example") "good.100.sig".

(** Accepted while the session is live; refused once it has expired, once it is
    revoked, with another token, and for another host. *)
Example gateway_decides :
  is_ok (call sample_gateway sample_request (limited_world 99 ∅)).1 = true ∧
  (call sample_gateway sample_request (limited_world 100 ∅)).1 = Err session_expired ∧
  (call sample_gateway sample_request (limited_world 99 {[ of_string "s1" ]})).1 = Err session_ended ∧
  is_ok (call sample_gateway (with_bearer (udp_to "mixed.example") "bad.100.sig") (limited_world 99 ∅)).1 = false ∧
  is_ok (call sample_gateway (with_bearer (udp_to "other.example") "good.100.sig") (limited_world 99 ∅)).1 = false.
Proof. split_and!; by vm_compute. Qed.

Definition sample_tunnel : Accepted :=
  mkAccepted (UdpTunnel {| sa_ip := V4 0x5db8d822; sa_port := 443 |}) [of_string "grant"]
    (mkTunnelLimits (Some (of_string "grant")) None None (Some (mkEnd (of_string "s1") (Some (from_secs 100))))) None.
Definition sample_after : World := (call sample_gateway sample_request (limited_world 99 ∅)).2.

Lemma sample_gateway_call :
  call sample_gateway sample_request (limited_world 99 ∅) = (Ok sample_tunnel, sample_after).
Proof. by vm_compute. Qed.

Lemma gateway_accepts_iff_witness :
  let w := limited_world 99 ∅ in
  policy_observe sample_args = false ∧
  ∃ req1 a0, identified (Some sample_verify) sample_request req1 ∧ authenticated sample_args sample_request ∧
    session_live req1 w ∧ granted Single (build_dispatch sample_args) req1 w sample_after a0 ∧
    sample_tunnel = with_session req1 a0.
Proof.
  split; [reflexivity|].
  apply (gateway_accepts_iff sample_args (Some sample_verify) sample_request); [reflexivity|].
  apply sample_gateway_call.
Defined.

Lemma gateway_floor_witness :
  is_ok (call sample_gateway sample_request (limited_world 99 ∅)).1 = true ∧
  permits net_contains (floor_of sample_args) (peer sample_tunnel) = Ok tt.
Proof.
  split; [by vm_compute|].
  apply (gateway_floor sample_args (Some sample_verify) true sample_request (limited_world 99 ∅) sample_after).
  apply sample_gateway_call.
Defined.

Lemma gateway_tunnel_carries_witness :
  ∃ event, audit_log sample_after = [event] ∧ e_decision event = "allow" ∧
    acc_guards sample_tunnel = [of_string "grant"] ∧
    tl_end (acc_limits sample_tunnel) = Some (mkEnd (of_string "s1") (Some (from_secs 100))).
Proof.
  destruct (gateway_tunnel_carries sample_args (Some sample_verify) sample_request (limited_world 99 ∅)
    sample_after sample_tunnel eq_refl sample_gateway_call)
    as (req1 & t & al & cs & event & _ & _ & _ & _ & _ & Hlog & Hdec & _).
  exists event. split; [exact Hlog|]. split; [exact Hdec|]. split; reflexivity.
Defined.
