(* ===== verification/Relay.v ===== *)
(** * The relays of an open tunnel

    Model of the data plane of [crates/skimasque/src/server.rs]: [relay] moves
    UDP payloads between the target's socket and the tunnel, [relay_tcp] moves
    bytes, both under the limits of the policy that let the tunnel open, and
    [until_ended] stops them with their session.

    A relay is a loop around [select!]: each turn takes one of the events that
    are ready.  A run is the sequence of events the loop took, each with its time
    and with what the socket calls it led to returned; every order is a run. *)

From S2P Require Import Prelude RustStr Datagram Tenant PolicyModel Service Revocation Rates.

Abbreviation bytes := (list Z).
Abbreviation len b := (Z.of_nat (length b)).

Definition MAX_UDP_PAYLOAD : Z := 65535.

Inductive Direction : Type := ToTargetDir | ToClientDir.
#[global] Instance Direction_eq_dec : EqDecision Direction.
Proof. solve_decision. Defined.

Definition count_relayed (d : Direction) (n : Z) (meter : option str) : list usage_event :=
  match meter with
  | Some org => [match d with ToTargetDir => ToTarget org n | ToClientDir => ToClient org n end]
  | None => []
  end.

(** [moved] saturates; the second result says whether the ceiling is reached. *)
Definition transfer_exceeded (moved n : Z) (cap : option Z) : Z * bool :=
  let moved := Z.min u64_max (moved + n) in
  (moved, match cap with Some limit => limit <=? moved | None => false end).

(** ** Running a loop *)

Section run.
Context {E S : Type} (step : E → S → bool * S).

(** [step] answers [true] to go on; the events taken, whether the loop is still
    running, and its state. *)
Fixpoint run (evs : list E) (s : S) : list E * bool * S :=
  match evs with
  | [] => ([], true, s)
  | e :: evs =>
      match step e s with
      | (true, s) => let '(used, go, s) := run evs s in (e :: used, go, s)
      | (false, s) => ([e], false, s)
      end
  end.

Lemma run_ind (P : list E → bool → S → Prop) s0 :
  P [] true s0 →
  (∀ used e s go s', P used true s → step e s = (go, s') → P (used ++ [e]) go s') →
  ∀ evs, let '(used, go, s) := run evs s0 in P used go s.
Proof.
  intros H0 Hstep evs.
  enough (∀ pre s, P pre true s → let '(used, go, s') := run evs s in P (pre ++ used) go s') as H
    by (specialize (H [] s0 H0); by destruct (run evs s0) as [[used go] s']).
  clear H0 s0. induction evs as [|e evs IH]; intros pre s Hp; cbn [run]; [by rewrite app_nil_r|].
  destruct (step e s) as [[] s'] eqn:He.
  - specialize (IH (pre ++ [e]) s' (Hstep _ _ _ _ _ Hp He)). destruct (run evs s') as [[used go] s''].
    by rewrite <- app_assoc in IH.
  - by apply (Hstep _ _ _ _ _ Hp He).
Qed.

Lemma run_prefix evs s : let '(used, go, _) := run evs s in
  ∃ rest, evs = used ++ rest ∧ (go = true → rest = []).
Proof.
  revert s. induction evs as [|e evs IH]; intros s; cbn [run]; [by exists []|].
  destruct (step e s) as [[] s'].
  - specialize (IH s'). destruct (run evs s') as [[used go] s'']. destruct IH as (rest & -> & Hr). by exists rest.
  - by exists evs.
Qed.
End run.

(** ** UDP *)

(** What one turn takes: a payload of the tunnel (none when the queue closed) and
    whether the socket sent it on; a datagram of the target and whether the route
    took the reply; an error of the socket; the end of the request stream; the
    idle timer. *)
Inductive UdpEvent : Type :=
  | Inbound (payload : option bytes) (sent : bool)
  | TargetData (data : bytes) (sent : bool)
  | TargetError
  | ReaderDone
  | IdleElapsed.

Record UdpRelay : Type := mkUdpRelay {
  moved : Z;
  idle_at : Z;
  to_target : list bytes;
  to_client : list bytes;
  reports : list usage_event;
  bandwidth_spent : Z;
  packets_spent : Z;
}.

Section udp.
Context (idle : option Z) (lim : TunnelLimits) (meter : option str).

Definition idle_step : Z := default (3600 * 10 ^ 9) idle.
Definition start_udp (now : Z) : UdpRelay := mkUdpRelay 0 (now + idle_step) [] [] [] 0 0.

(** The timer branch is only polled with a timeout set, and fires at the deadline. *)
Definition idle_ready (now : Z) (s : UdpRelay) : bool := is_some idle && (idle_at s <=? now).

(** [consume], once the wait is over. *)
Definition spend {K} (key : option K) (n spent : Z) : Z := match key with Some _ => spent + n | None => spent end.

(** One datagram either way: it is charged to the limiters, then handed on. *)
Definition forward (d : Direction) (now : Z) (payload : bytes) (sent : bool) (s : UdpRelay) : bool * UdpRelay :=
  let spent := spend (tl_bandwidth lim) (len payload) (bandwidth_spent s) in
  let packets := spend (tl_packet_rate lim) 1 (packets_spent s) in
  let '(moved', full) := transfer_exceeded (moved s) (len payload) (tl_total_bytes lim) in
  let reports := reports s ++ if sent then count_relayed d (len payload) meter else [] in
  match d with
  | ToTargetDir =>
      if sent then
        (negb full, mkUdpRelay moved' (now + idle_step) (to_target s ++ [payload]) (to_client s) reports spent packets)
      else (false, mkUdpRelay (moved s) (now + idle_step) (to_target s) (to_client s) reports spent packets)
  | ToClientDir =>
      (negb full, mkUdpRelay moved' (now + idle_step) (to_target s)
         (to_client s ++ if sent then [payload] else []) reports spent packets)
  end.

Definition touch (now : Z) (s : UdpRelay) : UdpRelay :=
  mkUdpRelay (moved s) (now + idle_step) (to_target s) (to_client s) (reports s) (bandwidth_spent s) (packets_spent s).

Definition relay_step (e : Z * UdpEvent) (s : UdpRelay) : bool * UdpRelay :=
  let '(now, e) := e in
  match e with
  | Inbound None _ => (false, s)
  | Inbound (Some payload) sent =>
      match decode_payload payload with
      | Ok (UdpPayload payload) => forward ToTargetDir now payload sent s
      | Ok (UnknownContext _ _) | Err _ => (true, touch now s)
      end
  | TargetData data sent => forward ToClientDir now data sent s
  | TargetError | ReaderDone => (false, s)
  | IdleElapsed => (negb (idle_ready now s), s)
  end.

Definition relay (evs : list (Z * UdpEvent)) (now : Z) : list (Z * UdpEvent) * bool * UdpRelay :=
  run relay_step evs (start_udp now).
End udp.

(** ** TCP *)

Inductive TcpEvent : Type :=
  | ClientData (data : bytes) (written : bool)
  | ClientEof
  | ClientError
  | TargetBytes (data : bytes) (sent : bool)
  | TargetEof
  | TcpTargetError
  | TcpIdle.

Record TcpRelay : Type := mkTcpRelay {
  client_done : bool;
  target_done : bool;
  tcp_moved : Z;
  tcp_idle_at : Z;
  written : bytes;
  sent_back : bytes;
  shut_down : bool;
  finished : bool;
  tcp_reports : list usage_event;
  tcp_spent : Z;
}.

Section tcp.
Context (idle : option Z) (lim : TunnelLimits) (meter : option str).

Definition start_tcp (now : Z) : TcpRelay :=
  mkTcpRelay false false 0 (now + idle_step idle) [] [] false false [] 0.

(** A branch is polled only while its side is open. *)
Definition tcp_ready (now : Z) (e : TcpEvent) (s : TcpRelay) : bool :=
  match e with
  | ClientData _ _ | ClientEof | ClientError => negb (client_done s)
  | TargetBytes data _ => negb (target_done s) && negb (bool_decide (data = []))
  | TargetEof | TcpTargetError => negb (target_done s)
  | TcpIdle => is_some idle && (tcp_idle_at s <=? now)
  end.

Definition tcp_open (s : TcpRelay) : bool := negb (client_done s && target_done s).

(** One chunk either way; an error of the far side ends the relay at once. *)
Definition tcp_forward (d : Direction) (now : Z) (data : bytes) (ok : bool) (s : TcpRelay) : bool * TcpRelay :=
  let spent := spend (tl_bandwidth lim) (len data) (tcp_spent s) in
  if ok then
    let '(moved', full) := transfer_exceeded (tcp_moved s) (len data) (tl_total_bytes lim) in
    (negb full,
     mkTcpRelay (client_done s) (target_done s) moved' (now + idle_step idle)
       (written s ++ match d with ToTargetDir => data | ToClientDir => [] end)
       (sent_back s ++ match d with ToTargetDir => [] | ToClientDir => data end)
       (shut_down s) (finished s) (tcp_reports s ++ count_relayed d (len data) meter) spent)
  else
    (false, mkTcpRelay (client_done s) (target_done s) (tcp_moved s) (now + idle_step idle)
       (written s) (sent_back s) (shut_down s) (finished s) (tcp_reports s) spent).

Definition tcp_step (e : Z * TcpEvent) (s : TcpRelay) : bool * TcpRelay :=
  let '(now, e) := e in
  if negb (tcp_ready now e s) then (true, s)
  else
    match e with
    | ClientData data ok => tcp_forward ToTargetDir now data ok s
    | ClientEof =>
        let s := mkTcpRelay true (target_done s) (tcp_moved s) (tcp_idle_at s) (written s) (sent_back s)
                   true (finished s) (tcp_reports s) (tcp_spent s) in
        (tcp_open s, s)
    | TargetBytes data ok => tcp_forward ToClientDir now data ok s
    | TargetEof =>
        let s := mkTcpRelay (client_done s) true (tcp_moved s) (tcp_idle_at s) (written s) (sent_back s)
                   (shut_down s) true (tcp_reports s) (tcp_spent s) in
        (tcp_open s, s)
    | ClientError | TcpTargetError | TcpIdle => (false, s)
    end.

Definition relay_tcp (evs : list (Z * TcpEvent)) (now : Z) : list (Z * TcpEvent) * bool * TcpRelay :=
  run tcp_step evs (start_tcp now).
End tcp.

(** ** Ending with the session *)

(** [select!] polls the relay and [ended] in either order, in the world of the
    moment; a poll of the relay takes the batch of events that are ready.  Once
    [ended] resolves the relay is dropped. *)
Inductive until_ended {E : Type} (e : TunnelEnd) : list (list E * World) → list E → Prop :=
  | until_nil : until_ended e [] []
  | until_turn batch w rest used :
      pending e w = true → until_ended e rest used → until_ended e ((batch, w) :: rest) (batch ++ used)
  | until_ended_first batch w rest : pending e w = false → until_ended e ((batch, w) :: rest) []
  | until_relay_first batch w rest : pending e w = false → until_ended e ((batch, w) :: rest) batch.

(** ** What a UDP relay hands on *)

Definition volume (l : list bytes) : Z := fold_right (λ b t, len b + t) 0 l.

Lemma volume_app l l' : volume (l ++ l') = volume l + volume l'.
Proof. unfold volume. induction l as [|b l IH]; cbn [fold_right app]; lia. Qed.

Lemma volume_one b : volume [b] = len b.
Proof. cbn. lia. Qed.

Lemma volume_nonneg l : 0 ≤ volume l.
Proof. unfold volume. induction l as [|b l IH]; cbn [fold_right]; lia. Qed.

(** The payload an event delivers to the target, and to the client. *)
Definition forwarded (e : Z * UdpEvent) : option bytes :=
  match e.2 with
  | Inbound (Some p) true => match decode_payload p with Ok (UdpPayload b) => Some b | _ => None end
  | _ => None
  end.
Definition replied (e : Z * UdpEvent) : option bytes :=
  match e.2 with TargetData b true => Some b | _ => None end.

(** The payload an event carries, delivered or not, and whether it has bytes. *)
Definition carried (e : Z * UdpEvent) : option bytes :=
  match e.2 with
  | Inbound (Some p) true => match decode_payload p with Ok (UdpPayload b) => Some b | _ => None end
  | TargetData b _ => Some b
  | _ => None
  end.
Definition carries (e : Z * UdpEvent) : bool := match carried e with Some (_ :: _) => true | _ => false end.

(** The bytes of an organisation's reports in one direction. *)
Definition reported (d : Direction) (org : str) (l : list usage_event) : Z :=
  event_total (λ e, match d, e with
                    | ToTargetDir, ToTarget o n | ToClientDir, ToClient o n => if str_eqb o org then n else 0
                    | _, _ => 0
                    end) l.

Lemma reported_app d org l l' : reported d org (l ++ l') = reported d org l + reported d org l'.
Proof. unfold reported, event_total. induction l as [|e l IH]; cbn [fold_right app]; lia. Qed.

Lemma reported_same d org n : reported d org (count_relayed d n (Some org)) = n.
Proof.
  unfold reported, event_total, str_eqb. cbn [count_relayed fold_right].
  destruct d; rewrite bool_decide_eq_true_2 by done; lia.
Qed.

Lemma reported_other d d' org n meter : d ≠ d' → reported d org (count_relayed d' n meter) = 0.
Proof. intros Hd. destruct meter; [|done]. by destruct d, d'. Qed.

Section udp_theorems.
Context (idle : option Z) (lim : TunnelLimits) (meter : option str).
Abbreviation relay := (relay idle lim meter).
Abbreviation relay_step := (relay_step idle lim meter).

(** A turn either takes a datagram one way, or changes nothing but the timer. *)
Lemma relay_step_cases e s go s' :
  relay_step e s = (go, s') →
  (∃ d b sent, forward idle lim meter d e.1 b sent s = (go, s') ∧
     match d with
     | ToTargetDir => ∃ p, e.2 = Inbound (Some p) sent ∧ decode_payload p = Ok (UdpPayload b)
     | ToClientDir => e.2 = TargetData b sent
     end) ∨
  (s' = s ∨ s' = touch idle e.1 s) ∧ forwarded e = None ∧ replied e = None ∧ carried e = None.
Proof.
  destruct e as [now e]. unfold Relay.relay_step, forwarded, replied, carried. destruct e as [[p|] sent|b sent| | |]; cbn [fst snd].
  - destruct (decode_payload p) as [[b|c b]|err] eqn:Hd.
    + intros H. left. exists ToTargetDir, b, sent. eauto.
    + intros [= <- <-]. right. by destruct sent; auto.
    + intros [= <- <-]. right. by destruct sent; auto.
  - intros [= <- <-]. right. by destruct sent; auto.
  - intros H. left. by exists ToClientDir, b, sent.
  - intros [= <- <-]. auto.
  - intros [= <- <-]. auto.
  - intros [= <- <-]. auto.
Qed.

(** What holds of a relay after the events it took. *)
Definition udp_account (used : list (Z * UdpEvent)) (s : UdpRelay) : Prop :=
  to_target s = omap forwarded used ∧ to_client s = omap replied used ∧
  (∀ org, meter = Some org → reported ToTargetDir org (reports s) = volume (to_target s) ∧
     reported ToClientDir org (reports s) = volume (to_client s)) ∧
  (meter = None → reports s = []) ∧
  (is_some (tl_bandwidth lim) = true → volume (to_target s) + volume (to_client s) ≤ bandwidth_spent s) ∧
  (is_some (tl_packet_rate lim) = true →
     Z.of_nat (length (to_target s)) + Z.of_nat (length (to_client s)) ≤ packets_spent s).

Lemma omap_snoc {A B} (f : A → option B) l x : omap f (l ++ [x]) = omap f l ++ option_list (f x).
Proof. rewrite omap_app. cbn. by destruct (f x). Qed.

Lemma spend_le {K} (key : option K) n spent v :
  0 ≤ n → (is_some key = true → v ≤ spent) → is_some key = true → v + n ≤ spend key n spent.
Proof. intros Hn Hv Hk. specialize (Hv Hk). destruct key; [cbn; lia|done]. Qed.

Lemma forward_fields d now b sent s go s' :
  forward idle lim meter d now b sent s = (go, s') →
  let out := if sent then [b] else [] in
  to_target s' = to_target s ++ (if d then out else []) ∧
  to_client s' = to_client s ++ (if d then [] else out) ∧
  reports s' = reports s ++ (if sent then count_relayed d (len b) meter else []) ∧
  bandwidth_spent s' = spend (tl_bandwidth lim) (len b) (bandwidth_spent s) ∧
  packets_spent s' = spend (tl_packet_rate lim) 1 (packets_spent s).
Proof.
  unfold forward. destruct (transfer_exceeded _ _ _) as [m full].
  destruct d, sent; intros [= <- <-]; cbn; by rewrite ?app_nil_r.
Qed.

Lemma forward_account used d e b sent s go s' :
  forward idle lim meter d e.1 b sent s = (go, s') →
  match d with
  | ToTargetDir => ∃ p, e.2 = Inbound (Some p) sent ∧ decode_payload p = Ok (UdpPayload b)
  | ToClientDir => e.2 = TargetData b sent
  end →
  udp_account used s → udp_account (used ++ [e]) s'.
Proof.
  intros (Ht' & Hc' & Hr' & Hb' & Hp')%forward_fields He (Ht & Hc & Hr & Hn & Hb & Hp).
  assert (option_list (forwarded e) = (if d then if sent then [b] else [] else []) ∧
          option_list (replied e) = (if d then [] else if sent then [b] else [])) as [Hfe Hre].
  { unfold forwarded, replied. destruct d; [destruct He as (p & -> & Hd)|rewrite He]; destruct sent; rewrite ?Hd; done. }
  unfold udp_account. rewrite !omap_snoc, Hfe, Hre, Ht', Hc', Hr', Hb', Hp', !volume_app, !length_app.
  split_and!; [by rewrite <- Ht|by rewrite <- Hc|..].
  - intros org Hm. destruct (Hr org Hm) as [H1 H2]. rewrite !reported_app, H1, H2, Hm.
    destruct sent, d; rewrite ?reported_same, ?reported_other by done; cbn; lia.
  - intros Hm. rewrite Hn, Hm by done. by destruct sent.
  - intros H. pose proof (spend_le _ (len b) _ _ ltac:(lia) Hb H). destruct d, sent; cbn in *; lia.
  - intros H. pose proof (spend_le _ 1 _ _ ltac:(lia) Hp H). destruct d, sent; cbn in *; lia.
Qed.

Lemma relay_account evs now : let '(used, _, s) := relay evs now in udp_account used s.
Proof.
  apply (run_ind relay_step (λ used _ s, udp_account used s)).
  - split_and!; try done; intros; cbn; lia.
  - intros used e s go s' Hs [(d & b & sent & Hf & He)|(Hs' & Hfe & Hre & _)]%relay_step_cases.
    + by eapply forward_account.
    + unfold udp_account. rewrite !omap_snoc, Hfe, Hre. cbn [option_list]. rewrite !app_nil_r.
      by destruct Hs' as [->| ->].
Qed.

(** A UDP tunnel hands on exactly what it was given.  Whatever events its loop
    took, in whatever order, the target received the payloads of the tunnel's
    default context, in order, and no datagram of another context or that does
    not decode; the client received the target's datagrams, less those the route
    could not carry.  The tenant is billed for precisely the bytes that were
    handed on, each way; and no more bytes or datagrams were handed on than had
    been charged to the policy's limiters. *)
Theorem udp_relay_exact (evs : list (Z * UdpEvent)) (now : Z) :
  let '(used, go, s) := relay evs now in
  (∃ rest, evs = used ++ rest ∧ (go = true → rest = [])) ∧
  to_target s = omap forwarded used ∧ to_client s = omap replied used ∧
  (∀ org, meter = Some org → reported ToTargetDir org (reports s) = volume (to_target s) ∧
     reported ToClientDir org (reports s) = volume (to_client s)) ∧
  (is_some (tl_bandwidth lim) = true → volume (to_target s) + volume (to_client s) ≤ bandwidth_spent s) ∧
  (is_some (tl_packet_rate lim) = true →
     Z.of_nat (length (to_target s)) + Z.of_nat (length (to_client s)) ≤ packets_spent s).
Proof.
  pose proof (relay_account evs now) as Ha. pose proof (run_prefix relay_step evs (start_udp idle now)) as Hp.
  unfold relay in *. destruct (run _ _ _) as [[used go] s]. split; [exact Hp|].
  destruct Ha as (? & ? & ? & _ & ? & ?). auto.
Qed.

(** ** The ceiling of a tunnel *)

Definition carrying (evs : list (Z * UdpEvent)) : Z := Z.of_nat (length (List.filter carries evs)).

Lemma carrying_snoc evs e : carrying (evs ++ [e]) = carrying evs + if carries e then 1 else 0.
Proof.
  unfold carrying. rewrite List.filter_app, length_app, Nat2Z.inj_add. cbn [List.filter]. by destruct (carries e).
Qed.

Definition total (s : UdpRelay) : Z := volume (to_target s) + volume (to_client s).

(** While the loop runs under a ceiling nothing has saturated. *)
Definition under (cap big : Z) (used : list (Z * UdpEvent)) (go : bool) (s : UdpRelay) : Prop :=
  (Forall (λ e, ∀ b, carried e = Some b → len b ≤ big) used → total s ≤ cap + big) ∧
  carrying used ≤ Z.max 1 cap ∧
  (go = true → 0 ≤ total s ≤ moved s ∧ carrying used ≤ moved s ∧ moved s < Z.max 1 cap).

Lemma transfer_exceeded_open m n cap :
  0 ≤ m < Z.max 1 cap → cap ≤ u64_max → 0 ≤ n →
  transfer_exceeded m n (Some cap) = (Z.min u64_max (m + n), negb (m + n <? cap)).
Proof. intros. unfold transfer_exceeded. f_equal. cbv zeta. rewrite <- Z.leb_antisym. unfold u64_max in *. cmp_cases. Qed.

Lemma forward_under cap big used d e b sent s go s' :
  tl_total_bytes lim = Some cap → 0 ≤ cap ≤ u64_max → 0 ≤ big →
  forward idle lim meter d e.1 b sent s = (go, s') →
  match d with
  | ToTargetDir => ∃ p, e.2 = Inbound (Some p) sent ∧ decode_payload p = Ok (UdpPayload b)
  | ToClientDir => e.2 = TargetData b sent
  end →
  under cap big used true s → under cap big (used ++ [e]) go s'.
Proof.
  intros Hcap Hc Hbig Hf He (Ht & Hk & Hm). destruct (Hm eq_refl) as (Hm1 & Hm2 & Hm3).
  unfold under. rewrite carrying_snoc, Forall_app, Forall_singleton.
  pose proof (forward_fields _ _ _ _ _ _ _ Hf) as (Ht' & Hc' & _).
  assert (total s' = total s + if sent then len b else 0) as Htot.
  { unfold total. rewrite Ht', Hc', !volume_app. destruct d, sent; cbn; lia. }
  assert (carried e = if d then if sent then Some b else None else Some b) as Hce.
  { unfold carried. destruct d; [destruct He as (p & -> & Hd)|by rewrite He]. rewrite Hd. by destruct sent. }
  unfold carries. rewrite Hce. unfold forward in Hf.
  rewrite Hcap, transfer_exceeded_open in Hf by lia.
  assert (0 ≤ len b ∧ (if b is [] then len b = 0 else 1 ≤ len b)) as [Hl0 Hl1] by (destruct b; cbn; lia).
  destruct d, sent; injection Hf as <- <-; cbn [moved] in *; rewrite Htot;
    (split; [intros [Hall He']; specialize (Ht Hall); try specialize (He' b eq_refl)|]);
    destruct b as [|x b]; cbn [negb] in *; rewrite ?negb_involutive, ?Z.ltb_lt; lia.
Qed.

Lemma relay_under cap big evs now :
  tl_total_bytes lim = Some cap → 0 ≤ cap ≤ u64_max → 0 ≤ big →
  let '(used, go, s) := relay evs now in under cap big used go s.
Proof.
  intros Hcap Hc Hbig. apply (run_ind relay_step (under cap big)).
  - unfold under, total, carrying. cbn. lia.
  - intros used e s go s' Hs Hst. destruct (relay_step_cases _ _ _ _ Hst) as [(d & b & sent & Hf & He)|(Hs' & _ & _ & Hce)].
    + by eapply forward_under.
    + unfold under in *. rewrite carrying_snoc, Forall_app. unfold carries. rewrite Hce, Z.add_0_r.
      destruct Hs as (Ht & Hk & Hm). destruct Hs' as [->| ->]; split_and!; naive_solver.
Qed.

(** C28.  The transfer ceiling of a policy holds for each tunnel: one that may
    carry [cap] bytes hands on fewer than that while it stays open, and in all at
    most [cap] and the one datagram that reached the ceiling; it is closed by
    that datagram. *)
Theorem transfer_capped (cap big : Z) (evs : list (Z * UdpEvent)) (now : Z) :
  tl_total_bytes lim = Some cap → 0 ≤ cap ≤ u64_max → 0 ≤ big →
  Forall (λ e, ∀ b, carried e = Some b → len b ≤ big) evs →
  let '(used, go, s) := relay evs now in
  total s ≤ cap + big ∧ (go = true → total s < Z.max 1 cap).
Proof.
  intros Hcap Hc Hbig Hall. pose proof (relay_under cap big evs now Hcap Hc Hbig) as Hu.
  pose proof (run_prefix relay_step evs (start_udp idle now)) as Hp. unfold relay in *.
  destruct (run _ _ _) as [[used go] s]. destruct Hp as (rest & -> & _), Hu as (Ht & _ & Hm).
  apply Forall_app in Hall as [Hall _]. split; [auto|]. intros H. destruct (Hm H). lia.
Qed.

(** C27.  A capped tunnel cannot be kept open by traffic: whatever else happens, its
    loop has stopped once as many datagrams with payload came as it may carry
    bytes (one, for a ceiling of zero). *)
Theorem relay_terminates (cap : Z) (evs : list (Z * UdpEvent)) (now : Z) :
  tl_total_bytes lim = Some cap → 0 ≤ cap ≤ u64_max → Z.max 1 cap ≤ carrying evs → (relay evs now).1.2 = false.
Proof.
  intros Hcap Hc Hn. pose proof (relay_under cap 0 evs now Hcap Hc (Z.le_refl 0)) as Hu.
  pose proof (run_prefix relay_step evs (start_udp idle now)) as Hp. unfold relay in *.
  destruct (run _ _ _) as [[used []] s]; [|done]. destruct Hp as (rest & -> & Hr), Hu as (_ & _ & Hm).
  rewrite Hr, app_nil_r in Hn by done. destruct (Hm eq_refl). lia.
Qed.
End udp_theorems.

(** ** Both ways at once over TCP *)

Inductive interleaving {A : Type} : list A → list A → list A → Prop :=
  | inter_nil : interleaving [] [] []
  | inter_left x xs ys zs : interleaving xs ys zs → interleaving (x :: xs) ys (x :: zs)
  | inter_right y xs ys zs : interleaving xs ys zs → interleaving xs (y :: ys) (y :: zs).

(** What is still to come of a side: its chunks and then its end, or nothing. *)
Definition client_side (rest : option (list bytes)) : list TcpEvent :=
  match rest with Some chunks => map (λ b, ClientData b true) chunks ++ [ClientEof] | None => [] end.
Definition target_side (rest : option (list bytes)) : list TcpEvent :=
  match rest with Some chunks => map (λ b, TargetBytes b true) chunks ++ [TargetEof] | None => [] end.
Definition chunks_of (rest : option (list bytes)) : bytes := concat (default [] rest).

Section tcp_theorems.
Context (idle : option Z) (lim : TunnelLimits) (meter : option str).
Abbreviation tcp_step := (tcp_step idle lim meter).

(** The ceiling leaves room for what is still to come. *)
Definition room (s : TcpRelay) (n : Z) : Prop :=
  0 ≤ tcp_moved s ∧ ∀ cap, tl_total_bytes lim = Some cap → tcp_moved s + n < cap ∧ cap ≤ u64_max.

Lemma tcp_forward_ok d now b s n :
  room s (len b + n) → 0 ≤ n →
  ∃ s', tcp_forward idle lim meter d now b true s = (true, s') ∧ room s' n ∧
    client_done s' = client_done s ∧ target_done s' = target_done s ∧
    shut_down s' = shut_down s ∧ finished s' = finished s ∧
    written s' = written s ++ (if d then b else []) ∧ sent_back s' = sent_back s ++ (if d then [] else b).
Proof.
  intros [H0 Hr] Hn. unfold tcp_forward. destruct (transfer_exceeded _ _ _) as [m full] eqn:Ht.
  unfold transfer_exceeded in Ht. injection Ht as <- Hfull.
  assert (full = false) as ->.
  { rewrite <- Hfull. destruct (tl_total_bytes lim) as [cap|]; [|done]. destruct (Hr cap eq_refl). cmp_cases. }
  eexists. split; [reflexivity|]. cbn. split_and!; try done; [|by destruct d..].
  split; cbn; [unfold u64_max in *; lia|]. intros cap Hcap. destruct (Hr cap Hcap). lia.
Qed.

(** The state of a relay with [rc] of the client and [rt] of the target to come. *)
Definition awaiting (rc rt : option (list bytes)) (s : TcpRelay) : Prop :=
  client_done s = negb (is_some rc) ∧ target_done s = negb (is_some rt) ∧
  shut_down s = negb (is_some rc) ∧ finished s = negb (is_some rt) ∧
  room s (len (chunks_of rc) + len (chunks_of rt)) ∧ Forall (λ b, b ≠ []) (default [] rt).

Lemma chunks_cons b chunks : len (chunks_of (Some (b :: chunks))) = len b + len (chunks_of (Some chunks)).
Proof. unfold chunks_of. cbn. rewrite length_app. lia. Qed.

Lemma awaiting_client now b chunks rt s :
  awaiting (Some (b :: chunks)) rt s →
  ∃ s', tcp_step (now, ClientData b true) s = (true, s') ∧ awaiting (Some chunks) rt s' ∧
    written s' = written s ++ b ∧ sent_back s' = sent_back s.
Proof.
  intros (Hc & Ht & Hs & Hf & Hr & Hn). rewrite chunks_cons in Hr.
  destruct (tcp_forward_ok ToTargetDir now b s (len (chunks_of (Some chunks)) + len (chunks_of rt)))
    as (s' & Hst & Hr' & Hc' & Ht' & Hs' & Hf' & Hw & Hb); [by rewrite Z.add_assoc|lia|].
  exists s'. unfold Relay.tcp_step, tcp_ready. rewrite Hc. cbn [is_some negb]. split; [done|].
  split; [|by rewrite Hw, Hb, app_nil_r].
  unfold awaiting. rewrite Hc', Ht', Hs', Hf'. by split_and!.
Qed.

Lemma awaiting_target now b chunks rc s :
  awaiting rc (Some (b :: chunks)) s →
  ∃ s', tcp_step (now, TargetBytes b true) s = (true, s') ∧ awaiting rc (Some chunks) s' ∧
    written s' = written s ∧ sent_back s' = sent_back s ++ b.
Proof.
  intros (Hc & Ht & Hs & Hf & Hr & [Hb Hn]%Forall_cons). rewrite chunks_cons in Hr.
  destruct (tcp_forward_ok ToClientDir now b s (len (chunks_of rc) + len (chunks_of (Some chunks))))
    as (s' & Hst & Hr' & Hc' & Ht' & Hs' & Hf' & Hw & Hb');
    [by replace (len b + _) with (len (chunks_of rc) + (len b + len (chunks_of (Some chunks)))) by lia|lia|].
  exists s'. unfold Relay.tcp_step, tcp_ready. rewrite Ht, bool_decide_eq_false_2 by done.
  cbn [is_some negb andb]. split; [done|].
  split; [|by rewrite Hw, Hb', app_nil_r].
  unfold awaiting. rewrite Hc', Ht', Hs', Hf'. by split_and!.
Qed.

Lemma awaiting_client_eof now rt s :
  awaiting (Some []) rt s →
  ∃ s', tcp_step (now, ClientEof) s = (is_some rt, s') ∧ awaiting None rt s' ∧
    written s' = written s ∧ sent_back s' = sent_back s.
Proof.
  intros (Hc & Ht & Hs & Hf & Hr & Hn). unfold Relay.tcp_step, tcp_ready. rewrite Hc. cbn [is_some negb].
  eexists. split; [f_equal; unfold tcp_open; cbn; rewrite Ht; by destruct rt|]. by split_and!.
Qed.

Lemma awaiting_target_eof now rc s :
  awaiting rc (Some []) s →
  ∃ s', tcp_step (now, TargetEof) s = (is_some rc, s') ∧ awaiting rc None s' ∧
    written s' = written s ∧ sent_back s' = sent_back s.
Proof.
  intros (Hc & Ht & Hs & Hf & Hr & Hn). unfold Relay.tcp_step, tcp_ready. rewrite Ht. cbn [is_some negb].
  eexists. split; [f_equal; unfold tcp_open; cbn; rewrite Hc; by destruct rc|]. by split_and!.
Qed.

Lemma awaiting_done s : awaiting None None s → shut_down s = true ∧ finished s = true.
Proof. by intros (_ & _ & Hs & Hf & _). Qed.

Lemma awaiting_run evs : ∀ rc rt s,
  interleaving (client_side rc) (target_side rt) evs.*2 → awaiting rc rt s → is_some rc || is_some rt = true →
  let '(used, go, s') := run tcp_step evs s in
  used = evs ∧ go = false ∧ written s' = written s ++ chunks_of rc ∧ sent_back s' = sent_back s ++ chunks_of rt ∧
  shut_down s' = true ∧ finished s' = true.
Proof.
  induction evs as [|[now e] evs IH]; intros rc rt s Hi Hs Ho; cbn [fmap list_fmap] in Hi.
  { inversion Hi as [Hc Ht| |]. destruct rc as [[]|], rt as [[]|]; done. }
  cbn [run]. inversion Hi as [|x xs ys zs Hi' Hx Hy Hz|y xs ys zs Hi' Hx Hy Hz]; subst.
  - destruct rc as [[|b chunks]|]; [| |done]; injection Hx as -> ->.
    + destruct (awaiting_client_eof now rt s Hs) as (s' & -> & Hs' & Hw & Hb).
      destruct rt as [rt|]; cbn [is_some].
      * specialize (IH None (Some rt) s' Hi' Hs' eq_refl). destruct (run _ _ _) as [[used go] s''].
        rewrite <- Hw, <- Hb. naive_solver.
      * inversion Hi'. destruct (awaiting_done _ Hs') as [-> ->]. rewrite Hw, Hb. unfold chunks_of. cbn.
        rewrite !app_nil_r. by destruct evs.
    + destruct (awaiting_client now b chunks rt s Hs) as (s' & -> & Hs' & Hw & Hb).
      specialize (IH (Some chunks) rt s' Hi' Hs' eq_refl). destruct (run _ _ _) as [[used go] s''].
      destruct IH as (-> & -> & Hw' & Hb' & ? & ?). rewrite Hw', Hb', Hw, Hb. unfold chunks_of. cbn.
      by rewrite <- app_assoc.
  - destruct rt as [[|b chunks]|]; [| |done]; injection Hy as -> ->.
    + destruct (awaiting_target_eof now rc s Hs) as (s' & -> & Hs' & Hw & Hb).
      destruct rc as [rc|]; cbn [is_some].
      * specialize (IH (Some rc) None s' Hi' Hs' eq_refl). destruct (run _ _ _) as [[used go] s''].
        rewrite <- Hw, <- Hb. naive_solver.
      * inversion Hi'. destruct (awaiting_done _ Hs') as [-> ->]. rewrite Hw, Hb. unfold chunks_of. cbn.
        rewrite !app_nil_r. by destruct evs.
    + destruct (awaiting_target now b chunks rc s Hs) as (s' & -> & Hs' & Hw & Hb).
      assert (is_some rc || is_some (Some chunks) = true) as Ho' by apply orb_true_r.
      specialize (IH rc (Some chunks) s' Hi' Hs' Ho'). destruct (run _ _ _) as [[used go] s''].
      destruct IH as (-> & -> & Hw' & Hb' & ? & ?). rewrite Hw', Hb', Hw, Hb. unfold chunks_of. cbn.
      by rewrite <- app_assoc.
Qed.

(** A TCP tunnel is two independent byte streams.  Whatever the client and the
    target send, in whatever chunks, and however the two directions interleave, a
    relay none of whose socket calls fail and whose ceiling is not reached runs
    until both sides have closed and no longer, delivers to each side exactly the
    bytes the other sent, in order, and passes on each side's end of stream; one
    side closing does not stop the other. *)
Theorem tcp_relay_streams (from_client from_target : list bytes) (evs : list (Z * TcpEvent)) (now : Z) :
  interleaving (client_side (Some from_client)) (target_side (Some from_target)) evs.*2 →
  Forall (λ b, b ≠ []) from_target →
  (∀ cap, tl_total_bytes lim = Some cap →
     len (concat from_client) + len (concat from_target) < cap ∧ cap ≤ u64_max) →
  let '(used, go, s) := relay_tcp idle lim meter evs now in
  used = evs ∧ go = false ∧ written s = concat from_client ∧ sent_back s = concat from_target ∧
  shut_down s = true ∧ finished s = true.
Proof.
  intros Hi Hn Hcap. apply (awaiting_run evs (Some from_client) (Some from_target)); [done| |done].
  by split_and!.
Qed.
End tcp_theorems.

(** ** A relay watched by its session *)

(** A tunnel stops with its session.  Every batch of events a watched relay
    takes is polled while the session is live, but for one at most: the batch
    [select!] may poll in the very moment that finds the session over; nothing
    after it is taken. *)
Theorem until_ended_stops {E : Type} (e : TunnelEnd) (turns : list (list E * World)) (used : list E) :
  until_ended e turns used →
  ∃ live rest, turns = live ++ rest ∧ Forall (λ t, pending e t.2 = true) live ∧
    (used = concat live.*1 ∧ (∀ t, head rest = Some t → pending e t.2 = false) ∨
     ∃ batch w rest', rest = (batch, w) :: rest' ∧ pending e w = false ∧ used = concat live.*1 ++ batch).
Proof.
  induction 1 as [|batch w rest used Hp _ (live & rest' & -> & Hl & Hu)|batch w rest Hp|batch w rest Hp].
  - exists [], []. split_and!; [done..|]. left. by split.
  - exists ((batch, w) :: live), rest'. split; [done|]. split; [by constructor|].
    destruct Hu as [[-> Hr]|(b & w' & r' & Hr & Hp' & ->)]; [left|right].
    + split; [done|exact Hr].
    + exists b, w', r'. cbn. by rewrite app_assoc.
  - exists [], ((batch, w) :: rest). split_and!; [done..|]. left. split; [done|]. by intros t [= <-].
  - exists [], ((batch, w) :: rest). split_and!; [done..|]. right. by exists batch, w, rest.
Qed.

(** ** Relays at work *)

Definition capped : TunnelLimits := mkTunnelLimits (Some (of_string "p")) None (Some 3) None.
Definition small_events : list (Z * UdpEvent) :=
  [(1, Inbound (Some [0; 7; 8]) true); (2, Inbound (Some [2; 9]) true); (3, TargetData [5; 6] true); (4, TargetData [5] true)].

Example udp_relay_runs :
  let '(used, go, s) := relay (Some 100) capped (Some (of_string "org")) small_events 0 in
  length used = 3%nat ∧ go = false ∧ to_target s = [[7; 8]] ∧ to_client s = [[5; 6]] ∧ bandwidth_spent s = 4 ∧
  reports s = [ToTarget (of_string "org") 2; ToClient (of_string "org") 2].
Proof. by vm_compute. Qed.

Lemma transfer_capped_witness :
  let '(used, go, s) := relay None capped None small_events 0 in total s = 4 ∧ total s ≤ 3 + 2.
Proof.
  pose proof (transfer_capped None capped None 3 2 small_events 0 eq_refl ltac:(unfold u64_max; lia) ltac:(lia)) as H.
  assert (Forall (λ e, ∀ b, carried e = Some b → len b ≤ 2) small_events) as Hall.
  { forall_list_by ltac:(cbn; intros b [= <-]; cbn; lia). }
  specialize (H Hall). vm_compute in H. vm_compute. split; [reflexivity|]. apply H.
Defined.

Lemma relay_terminates_witness : (relay None capped None small_events 0).1.2 = false.
Proof. apply (relay_terminates None capped None 3); [reflexivity|unfold u64_max; lia|vm_compute; discriminate]. Defined.

Definition duplex : list (Z * TcpEvent) :=
  [(1, TargetBytes [9] true); (2, ClientData [1; 2] true); (3, ClientEof); (4, TargetBytes [8] true); (5, TargetEof)].

Lemma tcp_relay_streams_witness :
  let '(used, go, s) := relay_tcp None no_limits None duplex 0 in
  written s = [1; 2] ∧ sent_back s = [9; 8] ∧ go = false.
Proof.
  pose proof (tcp_relay_streams None no_limits None [[1; 2]] [[9]; [8]] duplex 0) as H.
  assert (interleaving (client_side (Some [[1; 2]])) (target_side (Some [[9]; [8]])) duplex.*2) as Hi
    by repeat constructor.
  specialize (H Hi ltac:(forall_list) ltac:(discriminate)). vm_compute in H. vm_compute.
  split; [apply H|]. split; apply H.
Defined.

Definition over_world (at_time : Z) : World := mkWorld [] default_snapshot ∅ ∅ ∅ ∅ ∅ [] at_time.
Lemma until_ended_stops_witness :
  let e := mkEnd (of_string "s") (Some 10) in
  let turns := [([1%nat], over_world 5); ([2%nat], over_world 10); ([3%nat], over_world 11)] in
  until_ended e turns [1%nat] ∧ ∃ live rest, turns = live ++ rest ∧ Forall (λ t, pending e t.2 = true) live.
Proof.
  intros e turns.
  assert (until_ended e turns [1%nat]) as H.
  { apply (until_turn e [1%nat]); [reflexivity|]. apply until_ended_first. reflexivity. }
  split; [exact H|]. destruct (until_ended_stops e turns [1%nat] H) as (live & rest & Ht & Hl & _).
  exists live, rest. split; [exact Ht|exact Hl].
Defined.
