(* ===== verification/PlatformGateway.v ===== *)
(** * The platform gateway

    The multi-tenant service of [Gateway] with the verifier of [Platform]: what an
    accepted tunnel of the shared gateway satisfies, from its credential to the
    policy that judged it. *)

From S2P Require Import Prelude RustStr RustNet Target ConnectIp AddressPolicy Tenant AuditLog Service.
From S2P Require Import PolicyModel PolicyEval PolicyParse Auth PolicyLayer Revocation Quota Gateway.
From S2P Require Import Identity Credential Platform.

Section composition.
Context `{HN : Network} `{HC : TokenCodec} `{HJ : Jwt} {HL : JwtLaws}.
Context {TomlError YamlError : Type}.
Context (toml_from_str : str → result TomlError RawPolicy).
Context (yaml_from_str : str → result YamlError YamlDoc).
Context (base64_standard : str → option (list Z)).
Context (to_lowercase : str → str).
Context (debug_str : str → str).

(** The world of a gateway that serves a list. *)
Definition serves_list (w : World) (l : TenantList) : Prop :=
  tenant_table w = table_of toml_from_str yaml_from_str to_lowercase l.

(** C2.  One tenant end to end: on the shared gateway a tunnel is accepted only
    for an organisation of the list being served, on a credential that one of
    that organisation's own keys signed and that names it, and only if the
    policy that very organisation published allows the target for the
    credential's identity; the decision is recorded under it, the tunnel is
    counted on its meter, and leads to an address the floor permits. *)
Theorem platform_tunnel_own (d : Dispatch) (l : TenantList) (req : TunnelRequest) (w w' : World)
    (a : Accepted) :
  serves_list w l →
  call (platform_service d (platform_verify_now debug_str (tenant_table w) (keys_of base64_standard l) (now w / 10 ^ 9)))
    req w = (Ok a, w') →
  ∃ token t i target allowed,
    bearer_token req = Some token ∧ t ∈ dedup (list_tenants l) ∧
    own_credential base64_standard t (now w / 10 ^ 9) token i ∧
    as_target (req_destination req) = Some target ∧
    evaluate (policy_for toml_from_str yaml_from_str t)
      (request_context (with_identity (with_tenant req (pt_org_id t)) i) target) = Allows allowed ∧
    acc_meter a = Some (pt_org_id t) ∧
    (∃ event, audit_log w' = audit_log w ++ [event] ∧ e_org_id event = Some (pt_org_id t)) ∧
    ∃ floor open raw, serves d req = Some (floor, open, raw) ∧
      permits net_contains floor (peer a) = Ok tt.
Proof.
  intros Hw Hc. apply platform_Ok in Hc as (token & org & identity & tenant & target & allowed & rv & w1 &
    floor & open & raw & c & Hb & Hv & _ & Ht & Hres & Hev & Hr & -> & Hs & Ho & ->).
  assert (∀ o tn, resolve_org (tenant_table w) o = Some tn → tenant_id tn = o) as Htab.
  { rewrite Hw. intros o tn (u & _ & <- & <-)%table_of_lookup. done. }
  rewrite platform_verify_Ok in Hv by exact Htab. destruct Hv as (_ & t & Hin & <- & Hown).
  exists token, t, identity, target, allowed.
  rewrite Hw in Hres. apply table_of_lookup in Hres as (u & Hu & Huo & <-).
  assert (u = t) as -> by by eapply dedup_org_inj.
  split_and!; [done..| | |].
  - unfold with_session. destruct (session_of _); cbn [with_end acc_meter]; by rewrite finish_meter.
  - apply reserve_audit in Hr. cbn. rewrite Hr. eexists. split; [done|]. done.
  - exists floor, open, raw. split; [done|]. rewrite with_session_peer, finish_peer.
    apply serves_open in Hs. by destruct (opens_peer _ _ _ _ Hs Ho).
Qed.
End composition.

(** ** A tunnel of the sample tenant *)

#[local] Existing Instance sample_network.
#[local] Existing Instance sample_codec.
#[local] Existing Instance sample_jwt.
#[local] Existing Instance sample_laws.

Definition open_raw : RawPolicy :=
  mkRawPolicy (Some (of_string "web")) false sample_raw_match (mkRawSession None) None
    (mkRawLimits None None None None None None)
    [mkRawRule None "*" None "allow" [of_string "mixed.example:443"]] [].
Definition open_toml (_ : str) : result unit RawPolicy := Ok open_raw.
Definition acme_open : PlatformTenant :=
  mkPlatformTenant "org_a" "acme" [of_string "Acme"] [] (Some [(of_string "web.toml", of_string "")])
    (mkSigningKey "Ed25519" "0123456" None).
Definition open_list : TenantList := mkTenantList 1 [acme_open].
Definition open_world : World :=
  mkWorld [] (table_of open_toml no_yaml to_ascii_lowercase open_list) ∅ ∅ ∅ ∅ ∅ [] (from_secs 1500).
Definition open_gateway :=
  platform_service (build_dispatch sample_args)
    (platform_verify_now id (tenant_table open_world) (keys_of Some open_list) (now open_world / 10 ^ 9)).
Definition open_request : TunnelRequest :=
  with_bearer (udp_to "mixed.example") (sample_token 7 acme_claims).

Lemma platform_tunnel_own_witness :
  ∃ a w', call open_gateway open_request open_world = (Ok a, w') ∧ acc_meter a = Some (of_string "org_a") ∧
    ∃ event, audit_log w' = [event] ∧ e_org_id event = Some (of_string "org_a").
Proof.
  destruct (call open_gateway open_request open_world) as [[a|r] w'] eqn:Hc.
  - exists a, w'. split; [reflexivity|].
    destruct (platform_tunnel_own open_toml no_yaml Some to_ascii_lowercase id (build_dispatch sample_args)
      open_list open_request open_world w' a eq_refl Hc)
      as (tk & t & i & tg & al & _ & Hin & _ & _ & _ & Hm & Hlog & _).
    assert (t = acme_open) as Ht by (inversion Hin as [|? ? ? Hn]; [reflexivity|inversion Hn]).
    rewrite Ht in Hm, Hlog. split; [exact Hm|]. exact Hlog.
  - assert (is_ok (call open_gateway open_request open_world).1 = true) as Ho by reflexivity.
    rewrite Hc in Ho. discriminate.
Defined.
