(* ===== verification/Server.v ===== *)
(** * The HTTP/3 front of the gateway

    Model of [crates/skimasque/src/server.rs]: reading a tunnel request off an
    HTTP request, answering it, the token-exchange endpoint, the requests of one
    connection; and of the requests [crates/skimasque/src/client.rs] sends.

    The [http] crate's header maps are the class [Headers]; the fields of a
    [Request] are what its accessors return.  What a stream carries after the
    response is [Relay]. *)

From S2P Require Import Prelude RustStr RustNet Template Target ConnectIp Tenant AuditLog.
From S2P Require Import PolicyModel Rates Service Identity Platform.

(** ** Requests and responses *)

Class Headers : Type := {
  HeaderValue : Type;
  HeaderMap : Type;
  hv_from_str : str → option HeaderValue;
  hv_to_str : HeaderValue → option str;
  hm_empty : HeaderMap;
  hm_get : HeaderMap → str → option HeaderValue;
  hm_insert : str → HeaderValue → HeaderMap → HeaderMap;
  hm_extend : HeaderMap → HeaderMap → HeaderMap;
  hm_append : HeaderMap → HeaderMap → HeaderMap;
}.

(** Visible ASCII, which a header value carries as it is. *)
Definition is_visible (c : Z) : bool := (32 <=? c) && (c <=? 126).

Class HeaderLaws `{Headers} : Prop := {
  hm_get_empty n : hm_get hm_empty n = None;
  hm_get_insert m n n' v :
    hm_get (hm_insert n v m) n' = if bool_decide (n' = n) then Some v else hm_get m n';
  hm_get_extend m m' n :
    hm_get (hm_extend m m') n = match hm_get m' n with Some v => Some v | None => hm_get m n end;
  hm_get_append m m' n v : hm_get m' n = Some v → hm_get m n = None → hm_get (hm_append m m') n = Some v;
  hv_visible s : forallb is_visible s = true → ∃ v, hv_from_str s = Some v ∧ hv_to_str v = Some s;
}.

Inductive Method : Type := POST | CONNECT | OtherMethod (name : str).

Lemma protocol_udp token : protocol_from_str token = Ok ConnectUdp → token = upgrade_token ConnectUdp.
Proof.
  unfold protocol_from_str, str_eqb. case_bool_decide as H; [done|]. by repeat case_bool_decide.
Qed.

Section server.
Context {HH : Headers}.
(** Rust's [{:?}] of a string and of a character. *)
Context (debug_str : str → str) (debug_char : Z → str).
(** [Uri::path] of a path and query. *)
Context (uri_path : str → str).

Record Request : Type := mkHttpRequest {
  method : Method;
  uri_authority : option str;
  path_and_query : option str;
  ext_protocol : option str;
  headers : HeaderMap;
}.
Record Response : Type := mkResponse {
  resp_status : Z;
  resp_headers : HeaderMap;
}.

(** A header as text: [get(name).and_then(|v| v.to_str().ok())]. *)
Definition header_text (m : HeaderMap) (name : str) : option str := v ← hm_get m name; hv_to_str v.

(** ** The messages of the target errors *)

Definition display_template_error (e : Template.Error) : str :=
  match e with
  | NotAbsolute => "template must be absolute with a scheme and authority"
  | EmptyComponent what => "template has an empty " ++ what ++ " component"
  | PathMustStartWithSlash => "template path must start with a slash"
  | IllegalCharacter c => "template contains " ++ debug_char c ++ ", outside the permitted ASCII range 0x21-0x7E"
  | UnsupportedOperator c => "template uses the unsupported operator " ++ debug_char c ++ "; MASQUE forbids it"
  | UnsupportedModifier c =>
      "template uses a level 4 modifier (" ++ debug_char c ++ ") but must be level 3 or lower"
  | UnterminatedExpression => "template has an unterminated { expression"
  | EmptyExpression => "template has an empty expression"
  | VariableOutsidePathOrQuery => "template puts variables outside the path and query components"
  | DuplicateVariable name => "template repeats the variable " ++ debug_str name
  | QueryExpressionMustBeLast => "a query expression must be the last part of the template"
  | MissingVariable name => "template is missing the required variable " ++ debug_str name
  | UndefinedVariable name => "no value supplied for the variable " ++ debug_str name
  | EmptyValue variable => "value for " ++ debug_str variable ++ " is empty, which MASQUE forbids"
  end.

Definition display_target_error (e : Target.Error) : str :=
  match e with
  | Target.EmptyHost => "target host must not be empty"
  | Target.InvalidPort p => "target port must be between 1 and 65535, got " ++ debug_str p
  | Target.ZoneIdentifier h =>
      "target host " ++ debug_str h ++ " carries an IPv6 zone identifier, which RFC 9298 does not support"
  | Target.IllegalHost h => "target host " ++ debug_str h ++ " contains a character that cannot appear in a host"
  | Target.PathDoesNotMatch p => "request path " ++ debug_str p ++ " does not match the configured URI Template"
  | Target.TemplateError e => display_template_error e
  end.

(** ** Reading a tunnel request *)

Definition bad_request (detail : str) : Rejection := new_rejection 400 detail.

(** [TunnelRequest::new]: no layer has put anything into the extensions yet. *)
Definition new_tunnel_request (p : Protocol) (d : Destination) (client : SocketAddr) (r : Request) : TunnelRequest :=
  mkRequest p d client (header_text (headers r)) None None None.

Definition parse_request (r : Request) (template : UriTemplate) (client : SocketAddr)
    : result Rejection TunnelRequest :=
  match method r with
  | CONNECT =>
      match ext_protocol r with
      | None =>
          authority ← ok_or (uri_authority r) (bad_request "classic CONNECT needs an authority-form target");
          target ← map_err (λ e, with_proxy_error (new_rejection 400 (display_target_error e)) "destination_not_found")
                     (Target.parse authority);
          Ok (new_tunnel_request ConnectTcp (TcpDest target) client r)
      | Some token =>
          protocol ← map_err (λ _, new_rejection 501 "unsupported :protocol") (protocol_from_str token);
          match protocol with
          | ConnectUdp =>
              path ← ok_or (path_and_query r) (bad_request "request has no :path");
              target ← map_err (λ e, with_proxy_error (new_rejection 404 (display_target_error e)) "destination_not_found")
                         (from_path template path);
              Ok (new_tunnel_request protocol (UdpDest target) client r)
          | _ =>
              Err (new_rejection 501
                "this proxy supports extended CONNECT for connect-udp and classic CONNECT for TCP")
          end
      end
  | _ => Err (new_rejection 405 "MASQUE requests use the CONNECT method")
  end.

(** ** Answers *)

(** Structured Fields (RFC 8941). *)
Definition token_char (c : Z) : bool := is_ascii_alphanumeric c || contains c "-_.".

Definition structured_token (name : str) : str :=
  let cleaned := List.filter token_char name in
  match cleaned with
  | c :: _ => if is_ascii_alphabetic c then cleaned else "proxy"
  | [] => "proxy"
  end.

Definition escape_char (c : Z) : str := if (c =? 34) || (c =? 92) then [92; c] else [c].
Definition structured_string (detail : str) : str :=
  take 256 (flat_map escape_char (List.filter (λ c, negb (is_control c)) detail)).

Definition header_map (l : list (str * str)) : HeaderMap :=
  fold_left (λ m h, match hv_from_str h.2 with Some v => hm_insert h.1 v m | None => m end) l hm_empty.

Definition CAPSULE_PROTOCOL_HEADER : str := "capsule-protocol".
Definition CAPSULE_PROTOCOL_TRUE : str := "?1".

Definition success_response (extra : HeaderMap) : Response :=
  mkResponse 200 (hm_extend (header_map [(CAPSULE_PROTOCOL_HEADER, CAPSULE_PROTOCOL_TRUE)]) extra).
Definition tcp_success_response (extra : HeaderMap) : Response := mkResponse 200 (hm_extend hm_empty extra).

Definition proxy_status (proxy_name error detail : str) : str :=
  structured_token proxy_name ++ "; error=" ++ error ++ "; details=" ++ [34] ++ structured_string detail ++ [34].

Definition rejection_response (r : Rejection) (proxy_name : str) : Response :=
  let extra := match rej_headers r with [] => hm_empty | l => hm_extend hm_empty (header_map l) end in
  mkResponse (status r)
    match proxy_error r with
    | Some error =>
        match hv_from_str (proxy_status proxy_name error (rej_detail r)) with
        | Some v => hm_insert "proxy-status" v extra
        | None => extra
        end
    | None => extra
    end.

(** ** The token-exchange endpoint *)

Definition CREDENTIAL_EXCHANGE_PATH : str := "/.well-known/masque/skimasque-credential".

Record MintedCredential : Type := mkMinted { credential : str; minted_expires_in : Z }.

(** The JSON bodies, before they are printed. *)
Inductive ExchangeBody : Type :=
  | ErrorBody (error error_description : str)
  | CredentialBody (credential token_type : str) (expires_in : Z).

(** Status, one extra header, body. *)
Record ExchangeAnswer : Type := mkExchange {
  ex_status : Z;
  ex_header : option (str * str);
  ex_body : ExchangeBody;
}.

Definition exchange_token (r : Request) : option str :=
  v ← header_text (headers r) "authorization"; strip_prefix "Bearer " v.

Context {MinterState : Type}.
Abbreviation Minter := (str → MinterState → result MintError MintedCredential * MinterState).

Definition minted_answer (r : result MintError MintedCredential) : ExchangeAnswer :=
  match r with
  | Ok m => mkExchange 200 None (CredentialBody (credential m) "Bearer" (minted_expires_in m / 10 ^ 9))
  | Err (Unauthorized detail) => mkExchange 403 None (ErrorBody "invalid_grant" detail)
  | Err (Refused code message) => mkExchange 403 None (ErrorBody code message)
  | Err (Unavailable detail) => mkExchange 502 None (ErrorBody "temporarily_unavailable" detail)
  end.

(** The limiter and the minter's own state (its key cache) are threaded. *)
Definition serve_exchange (minter : option Minter) (r : Request) (client : IpAddr) (now : Z)
    (limiter : option PerSourceRate) (m : MinterState) : ExchangeAnswer * option PerSourceRate * MinterState :=
  match minter with
  | None =>
      (mkExchange 404 None (ErrorBody "exchange_disabled" "this gateway does not issue credentials"), limiter, m)
  | Some mint =>
      let '(ok, limiter) := take_source now client limiter in
      if negb ok then
        (mkExchange 429 (Some (of_string "retry-after", of_string "1"))
           (ErrorBody "rate_limited" "too many credential exchanges from this source; retry shortly"), limiter, m)
      else
        match exchange_token r with
        | None =>
            (mkExchange 401 (Some (of_string "www-authenticate", of_string "Bearer"))
               (ErrorBody "missing_token" "present the identity token as `Authorization: Bearer`"), limiter, m)
        | Some token => let '(minted, m) := mint token m in (minted_answer minted, limiter, m)
        end
  end.

(** ** One request *)

Record ProxyConfig : Type := mkConfig {
  template : UriTemplate;
  proxy_name : str;
  minter : option Minter;
  limits : ResourceLimits;
}.

(** What becomes of a request: an exchange answer, a refusal, or a tunnel with
    the response that announced it.  The route of a UDP tunnel is registered
    before its response is sent.  [ServedPanic] is the [expect] of a request
    without a target. *)
Inductive Served : Type :=
  | ServedExchange (a : ExchangeAnswer)
  | ServedRefusal (r : Response)
  | ServedTunnel (r : Response) (target : Target) (a : Accepted)
  | ServedPanic.

Definition is_exchange (r : Request) : bool :=
  match method r with POST => str_eqb (default [] (uri_path <$> path_and_query r)) CREDENTIAL_EXCHANGE_PATH | _ => false end.

(** [tunnel_response kind extra]: only a capsule stream announces capsules. *)
Definition tunnel_response (k : AcceptedKind) (extra : HeaderMap) : Response :=
  match k with
  | UdpTunnel _ => success_response extra
  | TcpTunnel _ => tcp_success_response extra
  end.

(** The layers' [poll_ready] pass on the inner service's, which is always ready;
    the success headers a service may add are [extra]. *)
Definition serve_tunnel {S} `{!Service S} (c : ProxyConfig) (svc : S) (extra : HeaderMap) (r : Request)
    (client : SocketAddr) (w : World) : Served * World :=
  match parse_request r (template c) client with
  | Err e => (ServedRefusal (rejection_response e (proxy_name c)), w)
  | Ok tunnel =>
      match as_target (req_destination tunnel) with
      | None => (ServedPanic, w)
      | Some target =>
          match call svc tunnel w with
          | (Err e, w) => (ServedRefusal (rejection_response e (proxy_name c)), w)
          | (Ok a, w) => (ServedTunnel (tunnel_response (acc_kind a) extra) target a, w)
          end
      end
  end.

Definition serve_request {S} `{!Service S} (c : ProxyConfig) (svc : S) (extra : HeaderMap) (r : Request)
    (client : SocketAddr) (limiter : option PerSourceRate) (m : MinterState) (w : World)
    : Served * option PerSourceRate * MinterState * World :=
  if is_exchange r then
    let '(a, limiter, m) := serve_exchange (minter c) r (sa_ip client) (now w) limiter m in
    (ServedExchange a, limiter, m, w)
  else let '(s, w) := serve_tunnel c svc extra r client w in (s, limiter, m, w).

(** ** One connection

    [tunnels] are the tasks of the join set, each of them either serving its
    request or refusing it because it came over the limit. *)
Definition tunnel_limit : Rejection :=
  with_proxy_error (new_rejection 503 "this connection is already carrying its maximum number of tunnels")
    "connection_limit_reached".

Inductive Task : Type := Serving | Refusing.
Record Connection : Type := mkConnection { tunnels : list Task; draining : bool }.
Definition new_connection : Connection := mkConnection [] false.

Inductive connection_step (l : ResourceLimits) : Connection → Connection → Prop :=
  (** A request: finished tasks are reaped, then its task joins the set. *)
  | conn_accept reaped c :
      sublist reaped (tunnels c) →
      connection_step l c
        (mkConnection (reaped ++ [if over (max_tunnels_per_connection l) (length reaped) then Refusing else Serving])
           (draining c))
  | conn_join t1 t t2 c :
      tunnels c = t1 ++ t :: t2 → connection_step l c (mkConnection (t1 ++ t2) (draining c))
  | conn_drain c : draining c = false → connection_step l c (mkConnection (tunnels c) true).

Definition conn_done (c : Connection) : bool :=
  draining c && match tunnels c with [] => true | _ => false end.

(** ** The client's requests *)

(** [Uri::builder()] fails on what is no URI. *)
Context (uri_build : str → str → str → bool).

Definition udp_request (template : UriTemplate) (authority : str) (default_headers : HeaderMap) (t : Target)
    : option Request :=
  match Target.expand_path t template with
  | Err _ => None
  | Ok path =>
      if uri_build (scheme template) authority path then
        Some (mkHttpRequest CONNECT (Some authority) (Some path) (Some (upgrade_token ConnectUdp))
          (hm_append (header_map [(CAPSULE_PROTOCOL_HEADER, CAPSULE_PROTOCOL_TRUE)]) default_headers))
      else None
  end.

Definition tcp_request (template : UriTemplate) (default_headers : HeaderMap) (t : Target) : option Request :=
  let authority := Target.display t in
  if uri_build (scheme template) authority "/" then
    Some (mkHttpRequest CONNECT (Some authority) (Some (of_string "/")) None (hm_append hm_empty default_headers))
  else None.

(** [exchange_credential]: the request, and what is made of the answer.
    [body_len] is the length of a body once printed as JSON. *)
Definition exchange_request (template : UriTemplate) (authority identity_token : str) : option Request :=
  if uri_build (scheme template) authority CREDENTIAL_EXCHANGE_PATH then
    v ← hv_from_str ("Bearer " ++ identity_token);
    Some (mkHttpRequest POST (Some authority) (Some CREDENTIAL_EXCHANGE_PATH) None
            (hm_insert "authorization" v hm_empty))
  else None.

Record Credential : Type := mkCredential { cred_token : str; cred_expires_in : Z }.

Context (body_len : ExchangeBody → Z).

Definition is_success (status : Z) : bool := (200 <=? status) && (status <? 300).

Definition exchange_result (a : ExchangeAnswer) : option Credential :=
  if 64 * 1024 <? body_len (ex_body a) then None
  else if negb (is_success (ex_status a)) then None
  else
    match ex_body a with
    | CredentialBody credential _ expires_in => Some (mkCredential credential (expires_in * 10 ^ 9))
    | ErrorBody _ _ => None
    end.

(** What HTTP/3 delivers of a request: everything, but for a classic CONNECT only
    the authority and the headers. *)
Definition delivered (sent got : Request) : Prop :=
  method got = method sent ∧ ext_protocol got = ext_protocol sent ∧ uri_authority got = uri_authority sent ∧
  (∀ n, header_text (headers got) n = header_text (headers sent) n) ∧
  (method sent ≠ CONNECT ∨ is_Some (ext_protocol sent) → path_and_query got = path_and_query sent).

(** ** What a request is read as *)

Lemma parse_request_Ok r tpl client tr :
  parse_request r tpl client = Ok tr ↔
  method r = CONNECT ∧
  ((∃ a t, ext_protocol r = None ∧ uri_authority r = Some a ∧ Target.parse a = Ok t ∧
      tr = new_tunnel_request ConnectTcp (TcpDest t) client r) ∨
   (∃ p t, ext_protocol r = Some (upgrade_token ConnectUdp) ∧ path_and_query r = Some p ∧
      from_path tpl p = Ok t ∧ tr = new_tunnel_request ConnectUdp (UdpDest t) client r)).
Proof.
  unfold parse_request. destruct (method r); [by split; [|intros [? _]]| |by split; [|intros [? _]]].
  split.
  - intros H. split; [done|]. destruct (ext_protocol r) as [tok|]; inv_ok; [right|left; by repeat eexists].
    destruct x; inv_ok. assert (tok = upgrade_token ConnectUdp) as -> by by apply protocol_udp.
    by repeat eexists.
  - intros [_ [(a & t & -> & -> & Ht & ->)|(p & t & -> & -> & Ht & ->)]]; bind_simpl.
    + by rewrite Ht.
    + rewrite protocol_token_roundtrip. bind_simpl. by rewrite Ht.
Qed.

Lemma parse_request_target r tpl client tr :
  parse_request r tpl client = Ok tr → ∃ t, as_target (req_destination tr) = Some t.
Proof. intros [_ [(a & t & _ & _ & _ & ->)|(p & t & _ & _ & _ & ->)]]%parse_request_Ok; by exists t. Qed.

(** ** Client and server agree *)

Section agreement.
Context {HL : HeaderLaws}.

Lemma header_text_append m m' n v :
  header_text m' n = Some v → hm_get m n = None → header_text (hm_append m m') n = Some v.
Proof.
  unfold header_text. intros H Hm. destruct (hm_get m' n) as [h|] eqn:Hh; [|done].
  by rewrite (hm_get_append m m' n h).
Qed.

Lemma header_map_miss l n : n ∉ l.*1 → hm_get (header_map l) n = None.
Proof.
  unfold header_map. intros Hn. assert (hm_get hm_empty n = None) as H0 by apply hm_get_empty.
  revert H0. generalize hm_empty as m. induction l as [|[k v] l IH]; intros m Hm; [done|].
  cbn in Hn |- *. apply not_elem_of_cons in Hn as [Hk Hn]. apply IH; [done|].
  destruct (hv_from_str v); [|done]. by rewrite hm_get_insert, bool_decide_eq_false_2.
Qed.

(** The gateway reads back what the client meant: the request the client
    builds for a target, over UDP through any template whose variables are
    delimited or over TCP by authority, is read by the server as a tunnel of that
    protocol to exactly that target, and every header the session adds to its
    requests (the credential among them) reaches the services with its value. *)
Theorem client_request_parsed (s : str) (tpl : UriTemplate) (authority : str) (hs : HeaderMap) (t : Target)
    (client : SocketAddr) (sent got : Request) (udp : bool) :
  Template.parse s = Ok tpl → delimited (parts tpl) = true →
  (∀ n, n ∈ variables tpl ↔ n ∈ CONNECT_UDP_VARIABLES) → target_ok t →
  (if udp then udp_request tpl authority hs t else tcp_request tpl hs t) = Some sent → delivered sent got →
  ∃ tr, parse_request got tpl client = Ok tr ∧
    req_protocol tr = (if udp then ConnectUdp else ConnectTcp) ∧
    req_destination tr = (if udp then UdpDest t else TcpDest t) ∧ req_client tr = client ∧
    ∀ n v, n ≠ CAPSULE_PROTOCOL_HEADER → header_text hs n = Some v → req_header tr n = Some v.
Proof.
  intros Hp Hd Hv Ht Hreq (Hm & Hpr & Ha & Hh & Hpath). destruct udp.
  - unfold udp_request in Hreq.
    destruct (target_path_roundtrip s tpl t Hp Hd Hv Ht) as (path & Hx & Hf). rewrite Hx in Hreq.
    destruct (uri_build _ _ _); [|done]. injection Hreq as <-.
    cbn [method ext_protocol uri_authority path_and_query headers] in *.
    exists (new_tunnel_request ConnectUdp (UdpDest t) client got).
    split; [apply parse_request_Ok; split; [done|right]; exists path, t; rewrite Hpath by eauto; done|].
    do 3 (split; [done|]). intros n v Hn Hnv. cbn [req_header new_tunnel_request]. rewrite Hh.
    apply header_text_append; [done|]. apply header_map_miss. by intros ->%list_elem_of_singleton.
  - unfold tcp_request in Hreq. destruct (uri_build _ _ _); [|done]. injection Hreq as <-.
    cbn [method ext_protocol uri_authority path_and_query headers] in *.
    exists (new_tunnel_request ConnectTcp (TcpDest t) client got).
    split; [apply parse_request_Ok; split; [done|left]; exists (Target.display t), t|].
    { split_and!; [done..|by apply target_display_roundtrip|done]. }
    do 3 (split; [done|]). intros n v Hn Hnv. cbn [req_header new_tunnel_request]. rewrite Hh.
    apply header_text_append; [done|]. apply hm_get_empty.
Qed.

Lemma exchange_token_bearer r v token :
  header_text (headers r) "authorization" = Some v → v = of_string "Bearer " ++ token → exchange_token r = Some token.
Proof. unfold exchange_token. intros -> ->. reflexivity. Qed.

Lemma serve_exchange_success mints r client at_time lim m :
  let '(a, lim', m') := serve_exchange mints r client at_time lim m in
  is_success (ex_status a) = true ↔
  ∃ mint token minted, mints = Some mint ∧ take_source at_time client lim = (true, lim') ∧
    exchange_token r = Some token ∧ mint token m = (Ok minted, m') ∧
    a = minted_answer (Ok minted).
Proof.
  unfold serve_exchange. destruct mints as [mint|]; [|split; [done|by intros (? & ? & ? & ? & _)]].
  destruct (take_source at_time client lim) as [ok lim'] eqn:Hl. destruct ok; cbn [negb].
  2: { split; [done|]. by intros (? & ? & ? & _ & ? & _). }
  destruct (exchange_token r) as [token|] eqn:Ht.
  2: { split; [done|]. by intros (? & ? & ? & _ & _ & ? & _). }
  destruct (mint token m) as [[minted|e] m'] eqn:Hm.
  - split; [|done]. intros _. by exists mint, token, minted.
  - split; [by destruct e|]. intros (mint' & tok & minted & [= <-] & _ & [= <-] & Hm' & _).
    rewrite Hm in Hm'. done.
Qed.

(** The credential exchange end to end: a client that posts its identity
    token gets a credential if and only if the gateway issues credentials, the
    client's address is within its exchange rate, and the minter minted one for
    exactly that token; it is the credential that was minted, with its lifetime in
    whole seconds.  No tunnel service is called, and without a minter or over the
    rate no token is looked at. *)
Theorem exchange_end_to_end {S} `{!Service S} (c : ProxyConfig) (svc : S) (extra : HeaderMap) (authority token : str)
    (sent got : Request) (client : SocketAddr) (lim : option PerSourceRate) (m : MinterState) (w : World) :
  uri_path CREDENTIAL_EXCHANGE_PATH = CREDENTIAL_EXCHANGE_PATH → forallb is_visible token = true →
  exchange_request (template c) authority token = Some sent → delivered sent got →
  ∃ a lim' m', serve_request c svc extra got client lim m w = (ServedExchange a, lim', m', w) ∧
    (∀ tok secs, exchange_result a = Some (mkCredential tok secs) ↔
      ∃ mint minted, minter c = Some mint ∧ take_source (now w) (sa_ip client) lim = (true, lim') ∧
        mint token m = (Ok minted, m') ∧ tok = credential minted ∧
        secs = minted_expires_in minted / 10 ^ 9 * 10 ^ 9 ∧ body_len (ex_body a) ≤ 64 * 1024) ∧
    ((minter c = None ∨ (take_source (now w) (sa_ip client) lim).1 = false) → m' = m).
Proof.
  intros Hpath Htok Hreq (Hm & _ & _ & Hh & Hp). unfold exchange_request in Hreq.
  destruct (uri_build _ _ _); [|done].
  destruct (hv_visible (of_string "Bearer " ++ token)) as (v & Hv & Hvs); [done|].
  rewrite Hv in Hreq. injection Hreq as <-. cbn [method path_and_query headers] in *.
  assert (exchange_token got = Some token) as Ht.
  { apply (exchange_token_bearer _ (of_string "Bearer " ++ token)); [|done]. rewrite Hh. unfold header_text.
    by rewrite hm_get_insert, bool_decide_eq_true_2. }
  unfold serve_request, is_exchange. rewrite Hm, Hp by (by left). cbn [fmap option_fmap option_map default from_option].
  unfold id. rewrite Hpath. unfold str_eqb. rewrite bool_decide_eq_true_2 by done.
  pose proof (serve_exchange_success (minter c) got (sa_ip client) (now w) lim m) as Hok.
  destruct (serve_exchange _ _ _ _ _ _) as [[a lim'] m'] eqn:Hse. exists a, lim', m'. split; [done|]. split.
  - intros tok secs. unfold exchange_result. destruct (Z.ltb_spec (64 * 1024) (body_len (ex_body a))) as [Hlen|Hlen].
    { split; [done|]. intros (_ & _ & _ & _ & _ & _ & _ & ?). lia. }
    destruct (is_success (ex_status a)) eqn:Hs; cbn [negb].
    + destruct (proj1 Hok eq_refl) as (mint & token' & minted & Hmc & Hl & Ht' & Hmint & ->).
      rewrite Ht in Ht'. injection Ht' as <-. cbn. split.
      * intros [= <- <-]. by exists mint, minted.
      * intros (mint' & minted' & Hmc' & _ & Hmint' & -> & -> & _).
        rewrite Hmc in Hmc'. injection Hmc' as <-. rewrite Hmint in Hmint'. by injection Hmint' as <-.
    + split; [done|]. intros (mint & minted & Hmc & Hl & Hmint & -> & -> & _).
      enough (false = true) by done. apply Hok. exists mint, token, minted. split_and!; [done..|].
      revert Hse. unfold serve_exchange. rewrite Hmc, Hl, Ht, Hmint. by intros [= <-].
  - intros Hno. revert Hse. unfold serve_exchange. destruct (minter c) as [mint|]; [|by intros [= _ _ <-]].
    destruct (take_source _ _ _) as [ok l]. destruct Hno as [?|Hno]; [done|]. cbn in Hno. subst ok.
    by intros [= _ _ <-].
Qed.

Lemma header_map_one n v : forallb is_visible v = true → header_text (header_map [(n, v)]) n = Some v.
Proof.
  intros Hv. destruct (hv_visible v Hv) as (h & Hh & Hs). unfold header_map, header_text. cbn [fold_left fst snd].
  by rewrite Hh, hm_get_insert, bool_decide_eq_true_2.
Qed.

Lemma response_announces k extra :
  hm_get extra CAPSULE_PROTOCOL_HEADER = None →
  resp_status (tunnel_response k extra) = 200 ∧
  (capsule_protocol_enabled <$> header_text (resp_headers (tunnel_response k extra)) CAPSULE_PROTOCOL_HEADER) =
    match k with UdpTunnel _ => Some true | TcpTunnel _ => None end.
Proof.
  intros Hx. split; [by destruct k|]. unfold header_text. destruct k; cbn [tunnel_response success_response tcp_success_response resp_headers];
    rewrite hm_get_extend, Hx; [|by rewrite hm_get_empty].
  pose proof (header_map_one CAPSULE_PROTOCOL_HEADER CAPSULE_PROTOCOL_TRUE eq_refl) as Hone.
  unfold header_text in Hone. by rewrite Hone.
Qed.

(** C18.  How a tunnel request is answered.  It is never met by a panic.  It gets a
    tunnel if and only if it parses and the service accepts it, to the target that
    was parsed; the response is a 200 that announces the capsule protocol for a
    UDP tunnel and does not for a TCP tunnel, whose stream is raw bytes.  A
    refusal carries the status of the parse error, with nothing called, or of the
    service's own rejection. *)
Theorem tunnel_answered {S} `{!Service S} (c : ProxyConfig) (svc : S) (extra : HeaderMap) (r : Request)
    (client : SocketAddr) (w : World) :
  hm_get extra CAPSULE_PROTOCOL_HEADER = None →
  (serve_tunnel c svc extra r client w).1 ≠ ServedPanic ∧
  (∀ resp t a w', serve_tunnel c svc extra r client w = (ServedTunnel resp t a, w') ↔
    ∃ tr, parse_request r (template c) client = Ok tr ∧ as_target (req_destination tr) = Some t ∧
      call svc tr w = (Ok a, w') ∧ resp = tunnel_response (acc_kind a) extra) ∧
  (∀ k, resp_status (tunnel_response k extra) = 200 ∧
    (capsule_protocol_enabled <$> header_text (resp_headers (tunnel_response k extra)) CAPSULE_PROTOCOL_HEADER) =
      match k with UdpTunnel _ => Some true | TcpTunnel _ => None end) ∧
  (∀ resp w', serve_tunnel c svc extra r client w = (ServedRefusal resp, w') →
    ∃ e, resp_status resp = status e ∧
      ((parse_request r (template c) client = Err e ∧ w' = w) ∨
       ∃ tr, parse_request r (template c) client = Ok tr ∧ call svc tr w = (Err e, w'))).
Proof.
  intros Hx. unfold serve_tunnel. destruct (parse_request r (template c) client) as [tr|e] eqn:Hp.
  - destruct (parse_request_target _ _ _ _ Hp) as (t & Ht). rewrite Ht.
    destruct (call svc tr w) as [[a|e] w1] eqn:Hc; split_and!; try done.
    + intros resp t' a' w'. split; [intros [= <- <- <- <-]; by exists tr|].
      intros (tr' & [= <-] & Ht' & Hc' & ->). rewrite Ht in Ht'. rewrite Hc in Hc'.
      by injection Ht' as <-; injection Hc' as <- <-.
    + intros k. apply response_announces, Hx.
    + intros resp t' a' w'. split; [done|]. intros (tr' & [= <-] & _ & Hc' & _). by rewrite Hc in Hc'.
    + intros k. apply response_announces, Hx.
    + intros resp w' [= <- <-]. exists e. split; [done|]. right. by exists tr.
  - split_and!; try done.
    + intros resp t' a' w'. split; [done|]. by intros (? & ? & _).
    + intros k. apply response_announces, Hx.
    + intros resp w' [= <- <-]. exists e. split; [done|]. by left.
Qed.
End agreement.
End server.

(** ** The Proxy-Status header *)

(** A Structured Fields string after its opening quote (RFC 8941, 4.2.5): its
    characters and what follows the closing quote. *)
Fixpoint unquote (s : str) : option (str * str) :=
  match s with
  | [] => None
  | c :: s =>
      if c =? 34 then Some ([], s)
      else if c =? 92 then
        match s with
        | e :: s => if (e =? 34) || (e =? 92) then '(t, rest) ← unquote s; Some (e :: t, rest) else None
        | [] => None
        end
      else if is_visible c then '(t, rest) ← unquote s; Some (c :: t, rest) else None
  end.

Definition printable (detail : str) : str := List.filter (λ c, negb (is_control c)) detail.

Lemma unquote_escape c rest :
  is_visible c = true → unquote (escape_char c ++ rest) = '(t, r) ← unquote rest; Some (c :: t, r).
Proof.
  intros Hv. unfold escape_char. destruct (Z.eqb_spec c 34) as [->|H34]; [done|].
  destruct (Z.eqb_spec c 92) as [->|H92]; [done|]. cbn [orb app unquote].
  rewrite (proj2 (Z.eqb_neq _ _) H34), (proj2 (Z.eqb_neq _ _) H92), Hv. done.
Qed.

Lemma unquote_escaped l rest :
  forallb is_visible l = true → unquote (flat_map escape_char l ++ 34 :: rest) = Some (l, rest).
Proof.
  induction l as [|c l IH]; [done|]. cbn [forallb flat_map]. intros [Hc Hl]%andb_prop.
  rewrite <- app_assoc, unquote_escape by done. by rewrite (IH Hl).
Qed.

(** No prefix of an escaped text closes the quotes. *)
Lemma unquote_open n l : unquote (take n (flat_map escape_char l)) = None.
Proof.
  revert n. induction l as [|c l IH]; intros n; [by destruct n|]. cbn [flat_map]. unfold escape_char at 1.
  destruct n as [|n]; [done|]. destruct ((c =? 34) || (c =? 92)) eqn:Hc; cbn [app firstn].
  - cbn [unquote]. change (92 =? 34) with false. change (92 =? 92) with true. cbv iota.
    destruct n as [|n]; [done|]. cbn [firstn]. rewrite Hc. by rewrite IH.
  - apply orb_false_iff in Hc as [H1 H2]. cbn [unquote]. rewrite H1, H2. destruct (is_visible c); [|done]. by rewrite IH.
Qed.

Lemma escaped_chars c l : c ∈ flat_map escape_char l → c ∈ l ∨ c = 92.
Proof.
  rewrite list_elem_of_In, in_flat_map. intros (x & Hx & Hc). unfold escape_char in Hc.
  destruct (_ || _); cbn in Hc.
  - destruct Hc as [<-|[<-|[]]]; [by right|]. left. by apply list_elem_of_In.
  - destruct Hc as [<-|[]]. left. by apply list_elem_of_In.
Qed.

(** Nothing a rejection says can break out of its [Proxy-Status] header.
    For every proxy name and every detail, text a client chose included: the name
    becomes a token that starts with a letter, the detail holds no control
    character (so no line break) and does not close its quotes; and a detail of
    ASCII text whose escaped form fits the 256 characters is read back by the
    Structured Fields grammar as the printable part of the detail. *)
Theorem proxy_status_quoted (name detail : str) :
  (∃ c cs, structured_token name = c :: cs ∧ is_ascii_alphabetic c = true ∧ forallb token_char (c :: cs) = true) ∧
  Forall (λ c, is_control c = false) (structured_string detail) ∧
  unquote (structured_string detail) = None ∧
  (forallb is_visible (printable detail) = true → (length (flat_map escape_char (printable detail)) ≤ 256)%nat →
    unquote (structured_string detail ++ [34]) = Some (printable detail, [])).
Proof.
  split_and!.
  - unfold structured_token. destruct (List.filter token_char name) as [|c cs] eqn:Hf; [by repeat eexists|].
    destruct (is_ascii_alphabetic c) eqn:Hc; [|by repeat eexists]. exists c, cs. split_and!; [done..|].
    rewrite <- Hf. apply forallb_forall. intros x Hx. by apply filter_In in Hx as [_ ?].
  - apply Forall_take, Forall_forall. intros c [Hc| ->]%escaped_chars; [|done]. apply list_elem_of_In, filter_In in Hc as [_ Hc].
    by apply negb_true_iff.
  - apply unquote_open.
  - intros Hv Hl. unfold structured_string. fold (printable detail). rewrite take_ge by done.
    by apply unquote_escaped.
Qed.

(** The cut at 256 characters comes after escaping: a quote whose backslash is
    the last character kept leaves the string without its end. *)
Definition cut_detail : str := repeat 97 255 ++ [34].
Lemma cut_detail_unterminated :
  forallb is_visible (printable cut_detail) = true ∧ length cut_detail = 256%nat ∧
  unquote (structured_string cut_detail ++ [34]) = None.
Proof. by vm_compute. Qed.

Lemma proxy_status_quoted_example :
  unquote (structured_string (of_string "no route to " ++ [34; 10] ++ "a" ++ [34]) ++ [34]) =
    Some (of_string "no route to " ++ [34] ++ "a" ++ [34], []).
Proof. by vm_compute. Qed.

(** ** The requests of one connection *)

Definition serving (t : Task) : bool := match t with Serving => true | Refusing => false end.
Definition served_now (c : Connection) : nat := length (List.filter serving (tunnels c)).

Lemma served_le ts : (length (List.filter serving ts) ≤ length ts)%nat.
Proof. induction ts as [|[] ts IH]; cbn; lia. Qed.

Lemma served_app ts ts' :
  length (List.filter serving (ts ++ ts')) =
  (length (List.filter serving ts) + length (List.filter serving ts'))%nat.
Proof. by rewrite List.filter_app, length_app. Qed.

Lemma served_sublist ts ts' :
  sublist ts ts' → (length (List.filter serving ts) ≤ length (List.filter serving ts'))%nat.
Proof. induction 1 as [|t ? ? _ IH|t ? ? _ IH]; [done|..]; destruct t; cbn; lia. Qed.

Lemma connection_step_served l max c c' :
  max_tunnels_per_connection l = Some max → connection_step l c c' →
  (served_now c ≤ max)%nat → (served_now c' ≤ max)%nat.
Proof.
  intros Hmax [reaped d Hr|t1 t t2 d Ht|d Hd] Hc; unfold served_now in *; cbn [tunnels] in *.
  - rewrite served_app, Hmax. cbn [over]. pose proof (served_sublist _ _ Hr). pose proof (served_le reaped).
    destruct (Nat.leb_spec max (length reaped)); cbn; lia.
  - rewrite Ht in Hc. rewrite served_app in *. destruct t; cbn in *; lia.
  - done.
Qed.

(** One connection carries at most [max_tunnels_per_connection] tunnels: in
    every state its requests can bring it to, however they arrive and end, no
    more are being served; and a request is turned away only while that many
    tasks are still unfinished.  Once the proxy drains, the connection ends as
    soon as the tasks it still has are done. *)
Theorem tunnels_bounded (l : ResourceLimits) (max : nat) (c : Connection) :
  max_tunnels_per_connection l = Some max → rtc (connection_step l) new_connection c →
  (served_now c ≤ max)%nat ∧
  (∀ reaped, sublist reaped (tunnels c) → (length reaped < max)%nat →
    connection_step l c (mkConnection (reaped ++ [Serving]) (draining c))) ∧
  (draining c = true → ∃ c', rtc (connection_step l) c c' ∧ conn_done c' = true).
Proof.
  intros Hmax Hr. split_and!.
  - assert (served_now new_connection ≤ max)%nat as H0 by (cbn; lia). revert H0.
    induction Hr as [|? ? ? Hs _ IH]; [done|]. eauto using connection_step_served.
  - intros reaped Hs Hl. pose proof (conn_accept l reaped c Hs) as H. rewrite Hmax in H. cbn [over] in H.
    by rewrite (proj2 (Nat.leb_gt _ _)) in H by done.
  - clear Hr. destruct c as [ts d]. cbn. intros ->. induction ts as [|t ts (c' & Hc' & Hd)].
    + exists (mkConnection [] true). split; [apply rtc_refl|done].
    + exists c'. split; [|done]. eapply rtc_l; [|exact Hc'].
      apply (conn_join l [] t ts (mkConnection (t :: ts) true)). done.
Qed.

Lemma tunnels_bounded_witness :
  let l := mkResourceLimits None None None None (Some 1%nat) None in
  let c := mkConnection [Serving; Refusing] true in
  rtc (connection_step l) new_connection c ∧ served_now c = 1%nat ∧ (served_now c ≤ 1)%nat ∧
  ∃ c', rtc (connection_step l) c c' ∧ conn_done c' = true.
Proof.
  intros l c.
  assert (rtc (connection_step l) new_connection c) as Hr.
  { eapply rtc_l; [apply (conn_accept l [] new_connection); constructor|].
    eapply rtc_l; [apply (conn_accept l [Serving] (mkConnection [Serving] false)); reflexivity|].
    eapply rtc_l; [apply conn_drain; reflexivity|]. apply rtc_refl. }
  destruct (tunnels_bounded l 1 c eq_refl Hr) as (Hb & _ & Hd).
  split; [exact Hr|]. split; [reflexivity|]. split; [exact Hb|]. apply Hd. reflexivity.
Defined.

(** ** A front at work *)

(** Header maps as functions, values as visible text. *)
#[local] Instance sample_headers : Headers := {|
  HeaderValue := str;
  HeaderMap := str → option str;
  hv_from_str := λ s, if forallb is_visible s then Some s else None;
  hv_to_str := Some;
  hm_empty := λ _, None;
  hm_get := λ m n, m n;
  hm_insert := λ n v m n', if bool_decide (n' = n) then Some v else m n';
  hm_extend := λ m m' n, match m' n with Some v => Some v | None => m n end;
  hm_append := λ m m' n, match m n with Some v => Some v | None => m' n end;
|}.
#[local] Instance sample_header_laws : @HeaderLaws sample_headers.
Proof.
  split; cbn; [done..| |].
  - intros m m' n v Hm' Hm. by rewrite Hm.
  - intros s Hs. rewrite Hs. eauto.
Qed.
#[local] Existing Instance sample_network.

Definition front_template : UriTemplate :=
  match default_connect_udp "g.example" with Ok t => t | Err _ => mkTemplate [] [] [] [] [] end.
Definition front_client : SocketAddr := {| sa_ip := V4 0x7f000001; sa_port := 4000 |}.
Definition front_headers : @HeaderMap sample_headers :=
  @hm_insert sample_headers "proxy-authorization" (of_string "Bearer t") hm_empty.
Definition mixed_target : Target := mkTarget (Name "mixed.example") 443.
Definition front_request : @Request sample_headers :=
  mkHttpRequest CONNECT (Some (of_string "g.example"))
    (Some (of_string "/.well-known/masque/udp/mixed.example/443/")) (Some (upgrade_token ConnectUdp))
    (hm_append (header_map [(CAPSULE_PROTOCOL_HEADER, CAPSULE_PROTOCOL_TRUE)]) front_headers).

Lemma client_request_parsed_witness :
  udp_request (λ _ _ _, true) front_template "g.example" front_headers mixed_target = Some front_request ∧
  ∃ tr, parse_request id (λ c, [c]) front_request front_template front_client = Ok tr ∧
    req_destination tr = UdpDest mixed_target ∧
    req_header tr "proxy-authorization" = Some (of_string "Bearer t").
Proof.
  split; [reflexivity|].
  destruct (client_request_parsed id (λ c, [c]) (λ _ _ _, true) "https://g.example/.well-known/masque/udp/{target_host}/{target_port}/"
    front_template "g.example" front_headers mixed_target front_client front_request front_request true)
    as (tr & Htr & _ & Hd & _ & Hh).
  - reflexivity.
  - reflexivity.
  - intros n. reflexivity.
  - split; [|cbn; unfold u16_max; lia]. cbn.
    split; [discriminate|]. split; [by_decide|]. split; [reflexivity|]. split; [reflexivity|]. by_decide.
  - reflexivity.
  - repeat split; reflexivity.
  - exists tr. split; [exact Htr|]. split; [exact Hd|]. apply Hh; [by_decide|reflexivity].
Defined.

Definition front_minter (token : str) (minted : nat) : result MintError MintedCredential * nat :=
  (if str_eqb token "id" then Ok (mkMinted "cred" (600 * 10 ^ 9)) else Err (Unauthorized "no"), S minted).
Definition front_config : @ProxyConfig nat :=
  mkConfig front_template "skimasque" (Some front_minter) default_limits.
Definition front_exchange : @Request sample_headers :=
  mkHttpRequest POST (Some (of_string "g.example")) (Some CREDENTIAL_EXCHANGE_PATH) None
    (@hm_insert sample_headers "authorization" (of_string "Bearer id") hm_empty).

Lemma exchange_end_to_end_witness :
  ∃ a, serve_request id (λ c, [c]) id front_config sample_dispatch hm_empty front_exchange front_client None 0%nat
         sample_world = (ServedExchange a, None, 1%nat, sample_world) ∧
    exchange_result (λ _, 80) a = Some (mkCredential "cred" (600 * 10 ^ 9)).
Proof.
  destruct (exchange_end_to_end id (λ c, [c]) id (λ _ _ _, true) (λ _, 80) front_config sample_dispatch hm_empty
    "g.example" "id" front_exchange front_exchange front_client None 0%nat sample_world
    eq_refl eq_refl eq_refl ltac:(repeat split; reflexivity)) as (a & lim' & m' & Hs & Hiff & _).
  exists a. assert (lim' = None ∧ m' = 1%nat) as [-> ->].
  { assert ((serve_request id (λ c, [c]) id front_config sample_dispatch hm_empty front_exchange front_client None 0%nat
      sample_world).1.1.2 = None ∧ (serve_request id (λ c, [c]) id front_config sample_dispatch hm_empty front_exchange
      front_client None 0%nat sample_world).1.2 = 1%nat) as [H1 H2] by (split; reflexivity).
    rewrite Hs in H1, H2. split; [exact H1|exact H2]. }
  split; [exact Hs|]. apply Hiff. exists front_minter, (mkMinted "cred" (600 * 10 ^ 9)).
  split; [reflexivity|]. split; [reflexivity|]. split; [reflexivity|]. split; [reflexivity|].
  split; [reflexivity|]. lia.
Defined.

Lemma tunnel_answered_witness :
  ∃ resp a w', serve_tunnel id (λ c, [c]) front_config sample_dispatch hm_empty front_request front_client sample_world =
      (ServedTunnel resp mixed_target a, w') ∧ resp_status resp = 200.
Proof.
  destruct (tunnel_answered id (λ c, [c]) front_config sample_dispatch hm_empty front_request front_client sample_world
    eq_refl) as (_ & Hiff & Hresp & _).
  eexists _, _, _. split; [apply Hiff|apply Hresp].
  eexists. split; [reflexivity|]. split; [reflexivity|]. split; reflexivity.
Defined.
