(* ===== verification/Socks5.v ===== *)
(** * The SOCKS5 front end

    Model of [crates/skimasque-cli/src/socks5.rs]: the RFC 1928 messages, the
    dialogue of a client connection, and a UDP association with its tunnels.
    Opening a tunnel through the gateway is a parameter. *)

From S2P Require Import Prelude RustStr RustNet Target.

Definition VERSION : Z := 0x05.
Definition METHOD_NO_AUTH : Z := 0x00.
Definition METHOD_NONE_ACCEPTABLE : Z := 0xff.
Definition CMD_CONNECT : Z := 0x01.
Definition CMD_UDP_ASSOCIATE : Z := 0x03.
Definition REPLY_SUCCEEDED : Z := 0x00.
Definition REPLY_GENERAL_FAILURE : Z := 0x01.
Definition REPLY_NOT_ALLOWED : Z := 0x02.
Definition REPLY_HOST_UNREACHABLE : Z := 0x04.
Definition REPLY_CONNECTION_REFUSED : Z := 0x05.
Definition REPLY_COMMAND_NOT_SUPPORTED : Z := 0x07.
Definition REPLY_ADDRESS_TYPE_NOT_SUPPORTED : Z := 0x08.
Definition ATYP_IPV4 : Z := 0x01.
Definition ATYP_DOMAIN : Z := 0x03.
Definition ATYP_IPV6 : Z := 0x04.

Inductive ProtocolError : Type :=
  | WrongVersion (v : Z)
  | UnsupportedAddressType (atyp : Z)
  | Truncated
  | InvalidDomain.

Inductive Address : Type :=
  | IpAddress (a : SocketAddr)
  | Domain (name : str) (port : Z).
#[global] Instance SocketAddr_eq_dec : EqDecision SocketAddr.
Proof. solve_decision. Defined.
#[global] Instance Address_eq_dec : EqDecision Address.
Proof. solve_decision. Defined.

(** ** Addresses *)

Definition take_bytes (len : nat) (input : list Z) : result ProtocolError (list Z * list Z) :=
  if (len <=? length input)%nat then Ok (take len input, drop len input) else Err Truncated.
Definition take_port (input : list Z) : result ProtocolError (Z * list Z) :=
  '(bytes, input) ← take_bytes 2 input; Ok (from_be_bytes bytes, input).

Definition decode (input : list Z) : result ProtocolError (Address * list Z) :=
  match input with
  | [] => Err Truncated
  | atyp :: input =>
      if atyp =? ATYP_IPV4 then
        '(octets, input) ← take_bytes 4 input;
        '(port, input) ← take_port input;
        Ok (IpAddress {| sa_ip := V4 (from_be_bytes octets); sa_port := port |}, input)
      else if atyp =? ATYP_IPV6 then
        '(octets, input) ← take_bytes 16 input;
        '(port, input) ← take_port input;
        Ok (IpAddress {| sa_ip := V6 (from_be_bytes octets); sa_port := port |}, input)
      else if atyp =? ATYP_DOMAIN then
        '(len, input) ← take_bytes 1 input;
        '(name, input) ← take_bytes (Z.to_nat (from_be_bytes len)) input;
        name ← ok_or (from_utf8 name) InvalidDomain;
        '(port, input) ← take_port input;
        Ok (Domain name port, input)
      else Err (UnsupportedAddressType atyp)
  end.

Definition encode (a : Address) : list Z :=
  match a with
  | IpAddress a =>
      match sa_ip a with
      | V4 b => ATYP_IPV4 :: be_bytes 4 b
      | V6 b => ATYP_IPV6 :: be_bytes 16 b
      end ++ be_bytes 2 (sa_port a)
  | Domain name port =>
      let len := Nat.min (length (as_bytes name)) 255 in
      ATYP_DOMAIN :: Z.of_nat len :: take len (as_bytes name) ++ be_bytes 2 port
  end.

Definition address_port (a : Address) : Z := match a with IpAddress a => sa_port a | Domain _ port => port end.

Definition to_target (a : Address) : result Target.Error Target :=
  match a with
  | IpAddress a => new (Ip (sa_ip a)) (sa_port a)
  | Domain name port => host ← parse_host name; new host port
  end.

(** ** UDP packets *)

Definition decode_udp_packet (packet : list Z) : result ProtocolError (Z * Address * list Z) :=
  '(header, input) ← take_bytes 3 packet;
  '(destination, input) ← decode input;
  Ok (default 0 (header !! 2%nat), destination, input).

Definition encode_udp_packet (source : Address) (payload : list Z) : list Z :=
  [0x00; 0x00; 0x00] ++ encode source ++ payload.

(** ** The dialogue

    What the client sent and has not been read yet; a read of [n] bytes fails
    when fewer are left ([read_exact] at the end of the stream). *)

Inductive SessionError : Type :=
  | Eof
  | Protocol (e : ProtocolError)
  | NoAcceptableMethod.

Definition read_exact (n : nat) (stream : list Z) : result SessionError (list Z * list Z) :=
  map_err (λ _, Eof) (take_bytes n stream).

(** Each step answers with the bytes it wrote. *)
Definition negotiate_method (stream : list Z) : list Z * result SessionError (list Z) :=
  match
    '(head, stream) ← read_exact 2 stream;
    match head with
    | [version; n] =>
        if negb (version =? VERSION) then Err (Protocol (WrongVersion version))
        else '(methods, stream) ← read_exact (Z.to_nat n) stream; Ok (methods, stream)
    | _ => Err Eof
    end
  with
  | Err e => ([], Err e)
  | Ok (methods, stream) =>
      if existsb (Z.eqb METHOD_NO_AUTH) methods then ([VERSION; METHOD_NO_AUTH], Ok stream)
      else ([VERSION; METHOD_NONE_ACCEPTABLE], Err NoAcceptableMethod)
  end.

Definition unspecified_address : Address := IpAddress {| sa_ip := V4 0; sa_port := 0 |}.
Definition send_reply (reply : Z) (bound : Address) : list Z := [VERSION; reply; 0x00] ++ encode bound.

(** [read_address] reads by the address type and then decodes what it read. *)
Definition read_address (stream : list Z) : list Z * result SessionError (Address * list Z) :=
  let decoded buf stream := '(a, _) ← map_err Protocol (decode buf); Ok (a, stream) in
  match read_exact 1 stream with
  | Err e => ([], Err e)
  | Ok (atyp, stream) =>
      let atyp := default 0 (head atyp) in
      if atyp =? ATYP_IPV4 then
        ([], '(rest, stream) ← read_exact (4 + 2) stream; decoded (atyp :: rest) stream)
      else if atyp =? ATYP_IPV6 then
        ([], '(rest, stream) ← read_exact (16 + 2) stream; decoded (atyp :: rest) stream)
      else if atyp =? ATYP_DOMAIN then
        ([], '(len, stream) ← read_exact 1 stream;
             let len := default 0 (head len) in
             '(rest, stream) ← read_exact (Z.to_nat len + 2) stream;
             decoded (atyp :: len :: rest) stream)
      else (send_reply REPLY_ADDRESS_TYPE_NOT_SUPPORTED unspecified_address,
            Err (Protocol (UnsupportedAddressType atyp)))
  end.

(** A gateway's refusal: its status and its [Proxy-Status], when it was one. *)
Inductive TunnelError : Type :=
  | RejectedBy (status : Z) (proxy_status : option str)
  | OtherTunnelError.

Definition connect_reply_for (e : TunnelError) : Z :=
  match e with
  | OtherTunnelError => REPLY_GENERAL_FAILURE
  | RejectedBy status proxy_status =>
      if status =? 403 then REPLY_NOT_ALLOWED
      else
        match proxy_status with
        | Some s =>
            if contains_str "connection_refused" s then REPLY_CONNECTION_REFUSED
            else if contains_str "dns_error" s then REPLY_HOST_UNREACHABLE
            else REPLY_GENERAL_FAILURE
        | None => REPLY_GENERAL_FAILURE
        end
  end.

(** What a client connection comes to, after the bytes written to it. *)
Inductive ClientOutcome : Type :=
  | ClientError (e : SessionError)
  | ClientRefused
  | ConnectTunnel (target : Target) (rest : list Z)
  | UdpAssociation (expected : option SocketAddr).

Definition is_unspecified (ip : IpAddr) : bool := match ip with V4 b | V6 b => b =? 0 end.

Section client.
Context (connect_tcp : Target → result TunnelError unit).
(** The address the UDP relay was bound to. *)
Context (relay_addr : SocketAddr).

Definition serve_connect (requested : Address) (rest : list Z) : list Z * ClientOutcome :=
  match to_target requested with
  | Err _ => (send_reply REPLY_GENERAL_FAILURE unspecified_address, ClientRefused)
  | Ok target =>
      match connect_tcp target with
      | Err e => (send_reply (connect_reply_for e) unspecified_address, ClientRefused)
      | Ok _ => (send_reply REPLY_SUCCEEDED unspecified_address, ConnectTunnel target rest)
      end
  end.

Definition expected_client (requested : Address) : option SocketAddr :=
  match requested with
  | IpAddress a => if negb (is_unspecified (sa_ip a)) && negb (sa_port a =? 0) then Some a else None
  | Domain _ _ => None
  end.

Definition serve_client (stream : list Z) : list Z * ClientOutcome :=
  match negotiate_method stream with
  | (out, Err e) => (out, ClientError e)
  | (out, Ok stream) =>
      match read_exact 3 stream with
      | Err e => (out, ClientError e)
      | Ok (head, stream) =>
          if negb (default 0 (head !! 0%nat) =? VERSION) then
            (out, ClientError (Protocol (WrongVersion (default 0 (head !! 0%nat)))))
          else
            let '(out', requested) := read_address stream in
            match requested with
            | Err e => (out ++ out', ClientError e)
            | Ok (requested, stream) =>
                let command := default 0 (head !! 1%nat) in
                let '(out'', outcome) :=
                  if command =? CMD_CONNECT then serve_connect requested stream
                  else if command =? CMD_UDP_ASSOCIATE then
                    (send_reply REPLY_SUCCEEDED (IpAddress relay_addr), UdpAssociation (expected_client requested))
                  else (send_reply REPLY_COMMAND_NOT_SUPPORTED unspecified_address, ClientRefused) in
                (out ++ out' ++ out'', outcome)
            end
      end
  end.
End client.

(** ** A UDP association

    [tunnels] maps a destination to the channel of its tunnel; a channel holds
    what waits to be sent, and is closed once its [pump] task ended. *)

#[global] Instance SocketAddr_countable : Countable SocketAddr.
Proof.
  apply (inj_countable' (λ a, (match sa_ip a with V4 b => inl b | V6 b => inr b end, sa_port a))
    (λ x, {| sa_ip := match x.1 with inl b => V4 b | inr b => V6 b end; sa_port := x.2 |})). by intros [[] ?].
Defined.
#[global] Instance Address_countable : Countable Address.
Proof.
  apply (inj_countable' (λ a, match a with IpAddress a => inl a | Domain n p => inr (n, p) end)
    (λ x, match x with inl a => IpAddress a | inr (n, p) => Domain n p end)). by intros [|].
Defined.

Definition CHANNEL_CAPACITY : nat := 256.
Record Channel : Type := mkChannel {
  ch_target : Target;
  ch_waiting : list (list Z);
  ch_taken : list (list Z);
  ch_open : bool;
}.
Record Association : Type := mkAssociation {
  expected : option SocketAddr;
  tunnels : gmap Address nat;
  channels : list Channel;
}.
Definition new_association (expected : option SocketAddr) : Association := mkAssociation expected ∅ [].

Definition enqueue (payload : list Z) (c : Channel) : Channel :=
  mkChannel (ch_target c) (ch_waiting c ++ [payload]) (ch_taken c ++ [payload]) (ch_open c).
Definition try_send (payload : list Z) (c : Channel) : option Channel :=
  if ch_open c && (length (ch_waiting c) <? CHANNEL_CAPACITY)%nat then Some (enqueue payload c) else None.

(** [forward], [connected] being whether the gateway opens the tunnel asked for. *)
Definition forward (packet : list Z) (connected : bool) (a : Association) : Association :=
  match decode_udp_packet packet with
  | Err _ => a
  | Ok (frag, destination, payload) =>
      if negb (frag =? 0) then a
      else
        match (id ← tunnels a !! destination; c ← channels a !! id; c ← try_send payload c; Some (id, c)) with
        | Some (id, c) => mkAssociation (expected a) (tunnels a) (<[id := c]> (channels a))
        | None =>
            let tunnels := delete destination (tunnels a) in
            match to_target destination with
            | Err _ => mkAssociation (expected a) tunnels (channels a)
            | Ok target =>
                if connected then
                  mkAssociation (expected a) (<[destination := length (channels a)]> tunnels)
                    (channels a ++ [enqueue payload (mkChannel target [] [] true)])
                else mkAssociation (expected a) tunnels (channels a)
            end
        end
  end.

Inductive AssocEvent : Type :=
  | Datagram (from : SocketAddr) (packet : list Z) (connected : bool)
  | Pumped (id : nat)
  | PumpEnded (id : nat).

Definition served_from (from : SocketAddr) (a : Association) : bool :=
  match expected a with Some client => bool_decide (client = from) | None => true end.

Definition assoc_step (a : Association) (e : AssocEvent) : Association :=
  match e with
  | Datagram from packet connected =>
      if served_from from a
      then forward packet connected (mkAssociation (Some from) (tunnels a) (channels a))
      else a
  | Pumped id =>
      mkAssociation (expected a) (tunnels a)
        (alter (λ c, mkChannel (ch_target c) (tail (ch_waiting c)) (ch_taken c) (ch_open c)) id (channels a))
  | PumpEnded id =>
      mkAssociation (expected a) (tunnels a)
        (alter (λ c, mkChannel (ch_target c) (ch_waiting c) (ch_taken c) false) id (channels a))
  end.
Definition run_association (a : Association) (evs : list AssocEvent) : Association := fold_left assoc_step evs a.

(** ** Messages are read back *)

Lemma take_bytes_app n xs ys : length xs = n → take_bytes n (xs ++ ys) = Ok (xs, ys).
Proof.
  intros <-. unfold take_bytes. rewrite length_app, (proj2 (Nat.leb_le _ _)) by lia.
  by rewrite take_app_length, drop_app_length.
Qed.

Lemma take_port_app p rest : 0 ≤ p ≤ u16_max → take_port (be_bytes 2 p ++ rest) = Ok (p, rest).
Proof.
  intros Hp. unfold take_port. rewrite take_bytes_app by apply length_be_bytes. bind_simpl.
  by rewrite from_be_be_bytes_small by (unfold u16_max in Hp; cbn; lia).
Qed.

(** An address SOCKS5 can express. *)
Definition address_ok (a : Address) : Prop :=
  match a with
  | IpAddress a => ip_ok (sa_ip a)
  | Domain name _ => chars_ok name ∧ (length (as_bytes name) ≤ 255)%nat
  end ∧ 0 ≤ address_port a ≤ u16_max.

Lemma address_decode_encode a rest : address_ok a → decode (encode a ++ rest) = Ok (a, rest).
Proof.
  intros [Ha Hp]. destruct a as [[[b|b] p]|name p]; cbn [address_port sa_port sa_ip ip_ok] in *; unfold encode, decode; cbn [sa_ip sa_port app].
  - change (ATYP_IPV4 =? ATYP_IPV4) with true. cbv iota. rewrite <- app_assoc, take_bytes_app by apply length_be_bytes.
    bind_simpl. rewrite take_port_app by done. bind_simpl. by rewrite from_be_be_bytes_small by (cbn; lia).
  - change (ATYP_IPV6 =? ATYP_IPV4) with false. change (ATYP_IPV6 =? ATYP_IPV6) with true. cbv iota.
    rewrite <- app_assoc, take_bytes_app by apply length_be_bytes.
    bind_simpl. rewrite take_port_app by done. bind_simpl. by rewrite from_be_be_bytes_small by (cbn; lia).
  - destruct Ha as [Hc Hl]. rewrite Nat.min_l by done. rewrite take_ge by done.
    change (ATYP_DOMAIN =? ATYP_IPV4) with false. change (ATYP_DOMAIN =? ATYP_IPV6) with false.
    change (ATYP_DOMAIN =? ATYP_DOMAIN) with true. cbv iota.
    change (?x :: ?xs) with ([x] ++ xs) at 1. rewrite take_bytes_app by done. bind_simpl.
    change (from_be_bytes [Z.of_nat (length (as_bytes name))]) with (0 * 256 + Z.of_nat (length (as_bytes name))).
    rewrite Z.mul_0_l, Z.add_0_l, Nat2Z.id, <- app_assoc, take_bytes_app by done. bind_simpl.
    rewrite from_utf8_as_bytes by done. bind_simpl. by rewrite take_port_app.
Qed.

Lemma read_exact_app n xs ys : length xs = n → read_exact n (xs ++ ys) = Ok (xs, ys).
Proof. intros H. unfold read_exact. by rewrite take_bytes_app. Qed.

Lemma read_exact_one x ys : read_exact 1 (x :: ys) = Ok ([x], ys).
Proof. apply (read_exact_app 1 [x]). done. Qed.

(** SOCKS5 datagrams survive the relay: a packet built for any address SOCKS5
    can express is read back as unfragmented, with that address and that payload;
    and a request whose address is written on the control stream is read off it
    as that address, leaving exactly what followed it. *)
Theorem socks_packet_roundtrip (a : Address) (payload : list Z) :
  address_ok a →
  decode_udp_packet (encode_udp_packet a payload) = Ok (0, a, payload) ∧
  read_address (encode a ++ payload) = ([], Ok (a, payload)).
Proof.
  intros Ha. split.
  - unfold decode_udp_packet, encode_udp_packet. rewrite take_bytes_app by done. bind_simpl.
    by rewrite address_decode_encode.
  - pose proof (address_decode_encode a [] Ha) as Hd. rewrite app_nil_r in Hd.
    destruct a as [[[b|b] p]|name p]; unfold encode in *; cbn [sa_ip sa_port app] in *; unfold read_address;
      rewrite read_exact_one; cbn [head default from_option id].
    + change (ATYP_IPV4 =? ATYP_IPV4) with true. cbv iota. unfold id.
      rewrite read_exact_app by (by rewrite length_app, !length_be_bytes). bind_simpl. by rewrite Hd.
    + change (ATYP_IPV6 =? ATYP_IPV4) with false. change (ATYP_IPV6 =? ATYP_IPV6) with true. cbv iota. unfold id.
      rewrite read_exact_app by (by rewrite length_app, !length_be_bytes). bind_simpl. by rewrite Hd.
    + destruct Ha as [[_ Hl] _]. rewrite Nat.min_l, take_ge in * by done. unfold id in *.
      change (ATYP_DOMAIN =? ATYP_IPV4) with false. change (ATYP_DOMAIN =? ATYP_IPV6) with false.
      change (ATYP_DOMAIN =? ATYP_DOMAIN) with true. cbv iota.
      rewrite read_exact_one. bind_simpl. cbn [head default from_option]. unfold id.
      rewrite Nat2Z.id, read_exact_app by (by rewrite length_app, length_be_bytes). bind_simpl. by rewrite Hd.
Qed.

Lemma socks_packet_roundtrip_witness :
  decode_udp_packet (encode_udp_packet (Domain "db.prod" 53) [1; 2]) = Ok (0, Domain "db.prod" 53, [1; 2]).
Proof.
  apply (socks_packet_roundtrip (Domain "db.prod" 53) [1; 2]).
  split; [split; by_decide|by_decide].
Defined.

(** A longer name is cut, and names another host. *)
Lemma long_name_truncated :
  let name := repeat 97 256 in
  decode (encode (Domain name 80)) = Ok (Domain (repeat 97 255) 80, []).
Proof. by vm_compute. Qed.

(** ** What an association serves *)

(** The payloads for one target among the datagrams of a sequence of events that
    one source sent. *)
Definition asked (client : SocketAddr) (target : Target) (evs : list AssocEvent) (payload : list Z) : Prop :=
  ∃ packet connected destination, Datagram client packet connected ∈ evs ∧
    decode_udp_packet packet = Ok (0, destination, payload) ∧ to_target destination = Ok target.

Definition assoc_inv (first : option SocketAddr) (evs : list AssocEvent) (a : Association) : Prop :=
  (∀ c, first = Some c → expected a = Some c) ∧
  (channels a ≠ [] → is_Some (expected a)) ∧
  (∀ d id, tunnels a !! d = Some id → ∃ c, channels a !! id = Some c ∧ to_target d = Ok (ch_target c)) ∧
  (∀ id c client payload, channels a !! id = Some c → expected a = Some client → payload ∈ ch_taken c →
     asked client (ch_target c) evs payload) ∧
  (∀ client, expected a = Some client → first = Some client ∨
     ∃ packet connected, Datagram client packet connected ∈ evs).

Lemma asked_mono client target evs e payload :
  asked client target evs payload → asked client target (evs ++ [e]) payload.
Proof. intros (p & c & d & Hin & ?). exists p, c, d. split; [|done]. rewrite elem_of_app. by left. Qed.

(** A change of the channels that keeps their targets and what they took. *)
Lemma inv_same_channels first evs e a cs :
  assoc_inv first evs a →
  (∀ id c, cs !! id = Some c → ∃ c0, channels a !! id = Some c0 ∧ ch_target c = ch_target c0 ∧ ch_taken c = ch_taken c0) →
  (∀ id c0, channels a !! id = Some c0 → ∃ c, cs !! id = Some c ∧ ch_target c = ch_target c0) →
  assoc_inv first (evs ++ [e]) (mkAssociation (expected a) (tunnels a) cs).
Proof.
  intros (H1 & H2 & H3 & H4 & H5) Hback Hfwd. split_and!; cbn.
  - done.
  - intros Hne. apply H2. intros Hn. destruct cs as [|c cs]; [done|].
    destruct (Hback 0%nat c eq_refl) as (c0 & Hc0 & _). by rewrite Hn in Hc0.
  - intros d id Hid. destruct (H3 d id Hid) as (c0 & Hc0 & Ht). destruct (Hfwd _ _ Hc0) as (c & Hc & Htc).
    exists c. by rewrite Htc.
  - intros id c client payload Hc He Hp. destruct (Hback id c Hc) as (c0 & Hc0 & Ht & Hk).
    rewrite Ht. apply asked_mono. eapply H4; [done|done|by rewrite <- Hk].
  - intros client He. destruct (H5 client He) as [?|(p & k & Hin)]; [by left|]. right. exists p, k.
    rewrite elem_of_app. by left.
Qed.

Lemma inv_alter first evs e a id f :
  assoc_inv first evs a → (∀ c, ch_target (f c) = ch_target c ∧ ch_taken (f c) = ch_taken c) →
  assoc_inv first (evs ++ [e]) (mkAssociation (expected a) (tunnels a) (alter f id (channels a))).
Proof.
  intros Hi Hf. apply inv_same_channels; [done|..]; intros j c Hc.
  - destruct (decide (j = id)) as [->|Hne].
    + rewrite list_lookup_alter_eq in Hc. apply fmap_Some in Hc as (c0 & Hc0 & ->). exists c0. split; [done|]. apply Hf.
    + rewrite list_lookup_alter_ne in Hc by done. by exists c.
  - destruct (decide (j = id)) as [->|Hne].
    + rewrite list_lookup_alter_eq, Hc. eexists. split; [done|]. apply Hf.
    + rewrite list_lookup_alter_ne by done. by exists c.
Qed.

(** The source of an event that is served becomes, or is, the one expected. *)
Lemma inv_pin first evs from packet connected a :
  assoc_inv first evs a → served_from from a = true →
  assoc_inv first (evs ++ [Datagram from packet connected]) (mkAssociation (Some from) (tunnels a) (channels a)).
Proof.
  intros (H1 & H2 & H3 & H4 & H5) Hs. unfold served_from in Hs.
  assert (expected a = None ∨ expected a = Some from) as He.
  { destruct (expected a) as [c|]; [right|by left]. by apply bool_decide_eq_true in Hs as ->. }
  split_and!; cbn.
  - intros c Hc. specialize (H1 c Hc). destruct He as [He|He]; congruence.
  - done.
  - done.
  - intros id c client payload Hc [= <-] Hp. apply asked_mono.
    assert (channels a ≠ []) as Hne by (intros Hn; by rewrite Hn in Hc).
    destruct (H2 Hne) as [x Hx]. eapply H4; [done| |done]. destruct He; congruence.
  - intros client [= <-]. right. exists packet, connected. rewrite elem_of_app. right. left.
Qed.

Lemma try_send_spec payload c c' :
  try_send payload c = Some c' → ch_target c' = ch_target c ∧ ch_taken c' = ch_taken c ++ [payload].
Proof. unfold try_send. destruct (_ && _); [|done]. by intros [= <-]. Qed.

Lemma inv_forward first evs from packet connected a :
  assoc_inv first (evs ++ [Datagram from packet connected]) a → expected a = Some from →
  assoc_inv first (evs ++ [Datagram from packet connected]) (forward packet connected a).
Proof.
  intros Hi He. unfold forward. destruct (decode_udp_packet packet) as [[[frag dest] payload]|] eqn:Hd; [|done].
  destruct (Z.eqb_spec frag 0) as [->|]; [cbn [negb]|done].
  assert (∀ t, to_target dest = Ok t → asked from t (evs ++ [Datagram from packet connected]) payload) as Hask.
  { intros t Ht. exists packet, connected, dest. split; [|done]. rewrite elem_of_app. right. left. }
  pose proof Hi as (H1 & H2 & H3 & H4 & H5).
  destruct (id ← tunnels a !! dest; _) as [[id c]|] eqn:Hsend.
  - apply bind_Some in Hsend as (id' & Hid & Hsend). apply bind_Some in Hsend as (c0 & Hc0 & Hsend).
    apply bind_Some in Hsend as (c' & Hc' & [= <- <-]). apply try_send_spec in Hc' as [Ht Hk].
    destruct (H3 _ _ Hid) as (c1 & Hc1 & Htd). rewrite Hc0 in Hc1. injection Hc1 as <-.
    pose proof (lookup_lt_Some _ _ _ Hc0) as Hlt.
    split_and!; cbn; [done| | | |done].
    + intros _. by rewrite He.
    + intros d j Hj. destruct (H3 _ _ Hj) as (x & Hx & Hdx). destruct (decide (j = id')) as [->|Hne].
      * rewrite list_lookup_insert_eq by done. exists c'. split; [done|]. rewrite Ht. congruence.
      * rewrite list_lookup_insert_ne by done. by exists x.
    + intros j x client p Hx Hcl Hp. rewrite He in Hcl. injection Hcl as <-. destruct (decide (j = id')) as [->|Hne].
      * rewrite list_lookup_insert_eq in Hx by done. injection Hx as <-. rewrite Ht.
        rewrite Hk, elem_of_app, list_elem_of_singleton in Hp. destruct Hp as [Hp| ->]; [by eapply H4|auto].
      * rewrite list_lookup_insert_ne in Hx by done. by eapply H4.
  - assert (assoc_inv first (evs ++ [Datagram from packet connected])
      (mkAssociation (expected a) (delete dest (tunnels a)) (channels a))) as Hdel.
    { split_and!; cbn; try done. intros d j [_ Hj]%lookup_delete_Some. by apply H3. }
    destruct (to_target dest) as [t|] eqn:Ht; [|done]. destruct connected; [|done].
    clear Hdel. split_and!; cbn; [done|intros _; by rewrite He| | |done].
    + intros d j [[<- <-]|[Hne [_ Hj]%lookup_delete_Some]]%lookup_insert_Some.
      * rewrite lookup_app_r, Nat.sub_diag by done. by eexists.
      * destruct (H3 _ _ Hj) as (x & Hx & Hdx). exists x. split; [by apply lookup_app_l_Some|done].
    + intros j x client p Hx Hcl Hp. rewrite He in Hcl. injection Hcl as <-.
      apply lookup_app_Some in Hx as [Hx|[_ Hx]]; [by eapply H4|].
      apply list_lookup_singleton_Some in Hx as [_ <-]. cbn in *. apply list_elem_of_singleton in Hp as ->. auto.
Qed.

Lemma assoc_step_inv first evs a e : assoc_inv first evs a → assoc_inv first (evs ++ [e]) (assoc_step a e).
Proof.
  intros Hi. destruct e as [from packet connected|id|id]; cbn [assoc_step].
  - destruct (served_from from a) eqn:Hs.
    + apply inv_forward; [by apply inv_pin|done].
    + apply (inv_same_channels first evs (Datagram from packet connected) a (channels a)) in Hi;
        [by destruct a|eauto..].
  - by apply inv_alter.
  - by apply inv_alter.
Qed.

Lemma run_association_inv first evs : assoc_inv first evs (run_association (new_association first) evs).
Proof.
  induction evs as [|e evs IH] using rev_ind.
  - split_and!; cbn; try done; auto.
  - unfold run_association in *. rewrite fold_left_app. by apply assoc_step_inv.
Qed.

(** C34.  A UDP association serves one client, and keeps its destinations apart.
    Whatever datagrams arrive from whatever sources, and however its tunnels come
    and go, everything handed to a tunnel is the payload of an unfragmented
    datagram for the very target the tunnel was opened to, sent by the one
    address the association serves: the one the client named, or, if it named
    none, one that has sent a datagram. *)
Theorem association_serves_one (first : option SocketAddr) (evs : list AssocEvent) (id : nat) (c : Channel)
    (payload : list Z) :
  channels (run_association (new_association first) evs) !! id = Some c → payload ∈ ch_taken c →
  ∃ client, expected (run_association (new_association first) evs) = Some client ∧
    asked client (ch_target c) evs payload ∧ (∀ named, first = Some named → client = named).
Proof.
  intros Hc Hp. destruct (run_association_inv first evs) as (H1 & H2 & H3 & H4 & H5).
  assert (channels (run_association (new_association first) evs) ≠ []) as Hne by (intros Hn; by rewrite Hn in Hc).
  destruct (H2 Hne) as [client Hcl]. exists client. split; [done|]. split; [by eapply H4|].
  intros named Hn. specialize (H1 named Hn). congruence.
Qed.

Definition home : SocketAddr := {| sa_ip := V4 0x7f000001; sa_port := 5000 |}.
Definition dns : Address := Domain "dns.example" 53.
Definition dns_query : list AssocEvent := [Datagram home (encode_udp_packet dns [7]) true].

Lemma association_serves_one_witness :
  ∃ client, expected (run_association (new_association None) dns_query) = Some client ∧
    asked client (mkTarget (Name "dns.example") 53) dns_query [7].
Proof.
  destruct (association_serves_one None dns_query 0 (mkChannel (mkTarget (Name "dns.example") 53) [[7]] [[7]] true) [7]
    ltac:(reflexivity) ltac:(left)) as (client & He & Ha & _).
  exists client. split; [exact He|exact Ha].
Defined.

(** A datagram that finds its tunnel's channel full replaces the tunnel, which is
    alive. *)
Lemma full_channel_replaced :
  let full := mkChannel (mkTarget (Name "dns.example") 53) (repeat [7] 256) (repeat [7] 256) true in
  let a := mkAssociation (Some home) {[ dns := 0%nat ]} [full] in
  let a' := forward (encode_udp_packet dns [8]) true a in
  tunnels a' !! dns = Some 1%nat ∧ ch_open full = true.
Proof. split; reflexivity. Qed.
