(* ===== verification/HttpConnect.v ===== *)
(** * The HTTP/1.1 front end

    Model of [crates/skimasque-cli/src/http_connect.rs], the proxy a program finds
    under [HTTPS_PROXY]: reading a request head off a connection, classifying it,
    rewriting a plain-HTTP request for its origin, and the tunnel or the refusal
    it comes to; and of the [--forward] specifications of [forward.rs]. *)

From S2P Require Import Prelude RustStr RustNet Target Socks5.

(** ** Heads *)

Definition MAX_HEAD : nat := 8 * 1024.
Definition CRLF : str := [13; 10].

Inductive Head : Type :=
  | Connect (authority : str)
  | OtherMethod (plain : option str)
  | Malformed.

(** [text.split("\r\n")]. *)
Definition cons_first (x : Z) (ls : list str) : list str :=
  match ls with l :: ls => (x :: l) :: ls | [] => [[x]] end.
Fixpoint split_crlf (s : str) : list str :=
  match s with
  | [] => [[]]
  | x :: s' =>
      match s' with
      | y :: rest => if (x =? 13) && (y =? 10) then [] :: split_crlf rest else cons_first x (split_crlf s')
      | [] => [[x]]
      end
  end.

Definition first_piece_of (p : Z → bool) (s : str) : str := (span (λ c, negb (p c)) s).1.
Definition ends_authority (c : Z) : bool := contains c "/?#".

Definition plain_http_authority (target : str) : option str :=
  if (7 <=? length target)%nat && eq_ignore_ascii_case (take 7 target) "http://" then
    let authority := first_piece_of ends_authority (drop 7 target) in
    let host := match rsplit_once 64 authority with Some (_, host) => host | None => authority end in
    match host with [] => None | _ => Some host end
  else None.

(** The three words of a request line. *)
Definition words (line : str) : option (str * str * str) :=
  match split 32 line with [method; target; version] => Some (method, target, version) | _ => None end.
Definition request_line (text : str) : str := hd [] (split_crlf text).

Definition parse_head (head : list Z) : Head :=
  match from_utf8 head with
  | None => Malformed
  | Some text =>
      match words (request_line text) with
      | None => Malformed
      | Some (method, target, version) =>
          if negb (starts_with "HTTP/1." version) || bool_decide (target = []) then Malformed
          else if negb (str_eqb method "CONNECT") then OtherMethod (plain_http_authority target)
          else Connect target
      end
  end.

(** ** Plain HTTP *)

Record Forward : Type := mkForward { fw_target : str; fw_head : list Z }.

Definition HOP_BY_HOP : list str :=
  [of_string "connection"; of_string "proxy-connection"; of_string "proxy-authorization";
   of_string "proxy-authenticate"; of_string "keep-alive"; of_string "te"; of_string "upgrade"; of_string "host"].

Definition header_name (h : str) : option str := (λ p, to_ascii_lowercase (trim p.1)) <$> split_once 58 h.

Fixpoint until_blank (ls : list str) : list str :=
  match ls with l :: ls => match l with [] => [] | _ => l :: until_blank ls end | [] => [] end.

(** The names [Connection] headers list. *)
Definition named_by (h : str) : list str :=
  match split_once 58 h with
  | Some (n, v) =>
      if eq_ignore_ascii_case (trim n) "connection" then map (λ t, to_ascii_lowercase (trim t)) (split 44 v) else []
  | None => []
  end.

Definition passes (named : list str) (name : str) : bool :=
  negb (existsb (str_eqb name) HOP_BY_HOP) && negb (existsb (str_eqb name) named).

(** The loop over the headers: [None] at a line without a colon. *)
Fixpoint keep_headers (named : list str) (hs : list str) : option (list str) :=
  match hs with
  | [] => Some []
  | h :: hs =>
      name ← header_name h;
      kept ← keep_headers named hs;
      Some (if passes named name then h :: kept else kept)
  end.

Definition origin_path (target : str) : str :=
  let after_authority := (span (λ c, negb (ends_authority c)) (drop 7 target)).2 in
  match after_authority with
  | [] => "/"
  | c :: _ => if c =? 47 then after_authority else 47 :: after_authority
  end.

Definition has_port (authority : str) : bool :=
  match strip_prefix "[" authority with
  | Some v6 => match split_once 93 v6 with Some (_, after) => starts_with ":" after | None => false end
  | None => contains 58 authority
  end.

Definition with_crlf (ls : list str) : str := flat_map (λ l, l ++ CRLF) ls.

Definition rewrite_plain (head : list Z) : option Forward :=
  text ← from_utf8 head;
  '(method, target, version) ← words (request_line text);
  if str_eqb method "CONNECT" || negb (starts_with "HTTP/1." version) then None
  else
    authority ← plain_http_authority target;
    let headers := until_blank (tl (split_crlf text)) in
    kept ← keep_headers (flat_map named_by headers) headers;
    let lines := [method ++ [32] ++ origin_path target ++ [32] ++ version; "Host: " ++ authority] ++ kept ++
                 [of_string "Connection: close"; []] in
    Some (mkForward (if has_port authority then authority else authority ++ ":80") (as_bytes (with_crlf lines))).

(** ** Reading a head *)

Fixpoint blank_line (buf : list Z) : option nat :=
  match strip_prefix (CRLF ++ CRLF) buf with
  | Some _ => Some 0%nat
  | None => match buf with [] => None | _ :: buf => S <$> blank_line buf end
  end.

(** The chunks are what each read returned; none left is the end of the stream. *)
Fixpoint read_head (buf : list Z) (chunks : list (list Z)) : option (list Z * list Z) :=
  match blank_line buf with
  | Some e => Some (take (e + 4) buf, drop (e + 4) buf)
  | None =>
      if (MAX_HEAD <? length buf)%nat then None
      else match chunks with [] => None | chunk :: chunks => read_head (buf ++ chunk) chunks end
  end.

(** ** One connection *)

Inductive HttpOutcome : Type :=
  | Respond (status : str)
  | Tunnelled (target : Target) (first : list Z) (reply : list Z).

Section handle.
Context (connect_tcp : Target → result TunnelError unit).

(** What the client is told, or the tunnel with the bytes first written to it. *)
Definition open_for (authority : str) (plain : option (list Z)) (early : list Z) : HttpOutcome :=
  match Target.parse authority with
  | Err _ => Respond "400 Bad Request"
  | Ok target =>
      match connect_tcp target with
      | Err (RejectedBy status _) => Respond (if status =? 403 then "403 Forbidden" else "502 Bad Gateway")
      | Err OtherTunnelError => Respond "502 Bad Gateway"
      | Ok _ =>
          match plain with
          | Some head => Tunnelled target (head ++ early) []
          | None => Tunnelled target early ("HTTP/1.1 200 Connection Established" ++ CRLF ++ CRLF)
          end
      end
  end.

Definition handle (chunks : list (list Z)) : HttpOutcome :=
  match read_head [] chunks with
  | None => Respond "400 Bad Request"
  | Some (head, early) =>
      match parse_head head with
      | Connect authority => open_for authority None early
      | OtherMethod (Some _) =>
          match rewrite_plain head with
          | Some f => open_for (fw_target f) (Some (fw_head f)) early
          | None => Respond "400 Bad Request"
          end
      | OtherMethod None => Respond ("405 Method Not Allowed" ++ CRLF ++ "Allow: CONNECT")
      | Malformed => Respond "400 Bad Request"
      end
  end.
End handle.

(** ** Forward specifications *)

Record ForwardSpec : Type := mkForwardSpec { local_port : Z; fs_target : Target }.

Inductive ForwardError : Type := BadLocalPort (head : str) | BadDestination (destination : str) (e : Target.Error).

Definition parse_forward (spec : str) : result ForwardError ForwardSpec :=
  '(port, destination) ←
    match split_once 58 spec with
    | Some (head, rest) =>
        if negb (bool_decide (head = [])) && forallb is_ascii_digit head && contains 58 rest then
          port ← ok_or (parse_u16 head) (BadLocalPort head); Ok (port, rest)
        else Ok (0, spec)
    | None => Ok (0, spec)
    end;
  target ← map_err (BadDestination destination) (Target.parse destination);
  Ok (mkForwardSpec port target).

Definition env_char (c : Z) : Z :=
  if is_ascii_alphanumeric c then (if is_ascii_lowercase c then c - 32 else c) else 95.
Definition env_name (f : ForwardSpec) : str :=
  "SKIMASQUE_FORWARD_" ++ map env_char (to_variable (Target.host (fs_target f))) ++ "_" ++
  to_string (Target.port (fs_target f)).

(** ** Lines without a line break *)

Fixpoint crlf_free (s : str) : bool :=
  match s with
  | [] => true
  | x :: s' => match s' with y :: _ => negb ((x =? 13) && (y =? 10)) | [] => true end && crlf_free s'
  end.

Lemma crlf_free_cons x s :
  crlf_free (x :: s) = true ↔ ¬ (x = 13 ∧ head s = Some 10) ∧ crlf_free s = true.
Proof.
  cbn [crlf_free]. rewrite andb_true_iff. destruct s as [|y s]; cbn [head].
  - split; [intros [_ H]|intros [_ H]]; (split; [|done]); [by intros []|done].
  - rewrite negb_true_iff, andb_false_iff, !Z.eqb_neq. split; intros [H1 ?]; (split; [|done]).
    + intros [-> [= ->]]. by destruct H1.
    + destruct (decide (x = 13)) as [->|]; [right|by left]. intros ->. by apply H1.
Qed.

Lemma head_app_some {A} (a b : list A) x : head a = Some x → head (a ++ b) = Some x.
Proof. by destruct a. Qed.

Lemma crlf_free_app_l a b : crlf_free (a ++ b) = true → crlf_free a = true.
Proof.
  induction a as [|x a IH]; [done|]. cbn [app]. rewrite !crlf_free_cons. intros [Hh Hf]. split; [|by apply IH].
  intros [-> Ha]. apply Hh. split; [done|]. by apply head_app_some.
Qed.

Lemma crlf_free_app_r a b : crlf_free (a ++ b) = true → crlf_free b = true.
Proof. induction a as [|x a IH]; [done|]. cbn [app]. rewrite crlf_free_cons. intros [_ Hf]. by apply IH. Qed.

(** A break can only arise where one text ends and the next begins. *)
Lemma crlf_free_join a x b :
  x ≠ 13 → x ≠ 10 → crlf_free a = true → crlf_free b = true → crlf_free (a ++ x :: b) = true.
Proof.
  intros H13 H10 Ha Hb. induction a as [|y a IH]; cbn [app].
  - apply crlf_free_cons. split; [by intros []|done].
  - apply crlf_free_cons in Ha as [Hh Ha]. apply crlf_free_cons. split; [|auto].
    intros [-> Hc]. destruct a as [|z a]; [|by apply Hh]. cbn in Hc. congruence.
Qed.

Lemma split_crlf_cons x y rest :
  split_crlf (x :: y :: rest) =
    if (x =? 13) && (y =? 10) then [] :: split_crlf rest else cons_first x (split_crlf (y :: rest)).
Proof. done. Qed.

Lemma split_crlf_pieces s : Forall (λ l, crlf_free l = true) (split_crlf s).
Proof.
  enough (∀ n s, (length s ≤ n)%nat → Forall (λ l, crlf_free l = true) (split_crlf s) ∧
    (∀ l ls, split_crlf s = l :: ls → head l = Some 10 → head s = Some 10) ∧ split_crlf s ≠ []) as H
    by (by apply (H (length s))).
  clear s. induction n as [|n IH]; intros [|x s] Hn; cbn [length] in Hn; try lia.
  1, 2: (split_and!; [by repeat constructor|by intros l ls [= <- <-]|done]).
  destruct s as [|y rest]; [split_and!; [by repeat constructor|by intros l ls [= <- <-]|done]|].
  rewrite split_crlf_cons. destruct ((x =? 13) && (y =? 10)) eqn:Hxy.
  - destruct (IH rest) as (Hf & _ & _); [cbn in *; lia|].
    split_and!; [by constructor|by intros l ls [= <- <-]|done].
  - destruct (IH (y :: rest)) as (Hf & Hhd & Hne); [cbn in *; lia|].
    destruct (split_crlf (y :: rest)) as [|l ls] eqn:Hs; [done|].
    apply Forall_cons in Hf as [Hl Hls]. cbn [cons_first].
    split; [|split; [intros l' ls' Heq; injection Heq as <-; done|done]].
    constructor; [|done]. apply crlf_free_cons. split; [|done]. intros [-> H10].
    apply (Hhd l ls eq_refl) in H10. injection H10 as ->. done.
Qed.

Lemma split_crlf_line l rest : crlf_free l = true → split_crlf (l ++ CRLF ++ rest) = l :: split_crlf rest.
Proof.
  induction l as [|x l IH]; [done|]. intros [Hh Hf]%crlf_free_cons. specialize (IH Hf).
  destruct (l ++ CRLF ++ rest) as [|y r] eqn:Hl; [by destruct l|].
  cbn [app]. rewrite Hl, split_crlf_cons, IH.
  destruct (Z.eqb_spec x 13) as [->|]; [|done]. destruct (Z.eqb_spec y 10) as [->|]; [|done].
  exfalso. apply Hh. split; [done|]. destruct l as [|z l]; [done|]. by injection Hl as -> _.
Qed.

Lemma split_crlf_with ls rest :
  Forall (λ l, crlf_free l = true) ls → split_crlf (with_crlf ls ++ rest) = ls ++ split_crlf rest.
Proof.
  induction 1 as [|l ls Hl _ IH]; [done|]. unfold with_crlf in *. cbn [flat_map app].
  by rewrite <- !app_assoc, split_crlf_line, IH.
Qed.

Lemma split_one c s p : split c s = [p] → s = p.
Proof.
  revert p. induction s as [|x s IH]; intros p; cbn [split]; [by intros [= <-]|].
  destruct (Z.eqb_spec x c); [by destruct s; [|intros [=]; cbn in *; repeat case_match]|].
  destruct (split c s) as [|q qs] eqn:Hs; [by destruct s; cbn in Hs; repeat case_match|].
  intros [= <- ->]. by rewrite (IH q).
Qed.

Lemma split_two c s p q ps :
  split c s = p :: q :: ps → ∃ r, s = p ++ c :: r ∧ split c r = q :: ps.
Proof.
  revert p. induction s as [|x s IH]; intros p; cbn [split]; [done|].
  destruct (Z.eqb_spec x c) as [->|]; [intros [= <- H]; by exists s|].
  destruct (split c s) as [|q' qs] eqn:Hs; [done|]. intros [= <- ->].
  destruct (IH q' eq_refl) as (r & -> & Hr). by exists r.
Qed.

Lemma words_line line m t v : words line = Some (m, t, v) → line = m ++ 32 :: t ++ 32 :: v.
Proof.
  unfold words. destruct (split 32 line) as [|a [|b [|d [|]]]] eqn:Hs; try done. intros [= <- <- <-].
  apply split_two in Hs as (r & -> & Hr). apply split_two in Hr as (r' & -> & Hr). by apply split_one in Hr as ->.
Qed.

Lemma crlf_free_drop n s : crlf_free s = true → crlf_free (drop n s) = true.
Proof. intros H. rewrite <- (take_drop n s) in H. by apply crlf_free_app_r in H. Qed.

Lemma span_free p s : crlf_free s = true → crlf_free (span p s).1 = true ∧ crlf_free (span p s).2 = true.
Proof.
  intros H. destruct (span p s) as [a b] eqn:Hs. apply span_spec in Hs as (-> & _).
  eauto using crlf_free_app_l, crlf_free_app_r.
Qed.

Lemma plain_authority_free target a :
  crlf_free target = true → plain_http_authority target = Some a → crlf_free a = true.
Proof.
  intros Hf. unfold plain_http_authority. destruct (_ && _); [|done]. cbv zeta.
  assert (crlf_free (first_piece_of ends_authority (drop 7 target)) = true) as Hp
    by (by apply span_free, crlf_free_drop).
  destruct (rsplit_once 64 _) as [[u h]|] eqn:Hr.
  - apply rsplit_once_Some in Hr as [Hr _]. rewrite Hr in Hp. apply crlf_free_app_r in Hp.
    apply crlf_free_cons in Hp as [_ Hp]. destruct h; [done|]. by intros [= <-].
  - destruct (first_piece_of _ _); [done|]. by intros [= <-].
Qed.

Lemma origin_path_free target : crlf_free target = true → crlf_free (origin_path target) = true.
Proof.
  intros Hf. unfold origin_path. assert (crlf_free (span (λ c, negb (ends_authority c)) (drop 7 target)).2 = true) as Hp
    by (by apply span_free, crlf_free_drop).
  destruct (span _ _).2 as [|c r]; [done|]. destruct (c =? 47); [done|]. apply crlf_free_cons. split; [by intros []|done].
Qed.

Lemma origin_path_slash target : hd_error (origin_path target) = Some 47.
Proof. unfold origin_path. destruct (span _ _).2 as [|c r]; [done|]. by destruct (Z.eqb_spec c 47) as [->|]. Qed.

Lemma keep_headers_filter named hs kept :
  keep_headers named hs = Some kept →
  kept = List.filter (λ h, passes named (default [] (header_name h))) hs ∧ Forall (λ h, is_Some (header_name h)) hs.
Proof.
  revert kept. induction hs as [|h hs IH]; intros kept; cbn [keep_headers]; [intros [= <-]; by split|].
  intros (name & Hn & (kept' & Hk & [= <-])%bind_Some)%bind_Some. destruct (IH _ Hk) as [-> Hall].
  cbn [List.filter]. rewrite Hn. cbn. split; [done|]. by constructor.
Qed.

Lemma until_blank_sub ls l : l ∈ until_blank ls → l ∈ ls.
Proof.
  induction ls as [|x ls IH]; [done|]. cbn. destruct x; [by intros ?%elem_of_nil|].
  intros [->|H]%elem_of_cons; [left|right; auto].
Qed.

Lemma request_line_free text : crlf_free (request_line text) = true.
Proof.
  unfold request_line. pose proof (split_crlf_pieces text) as H. destruct (split_crlf text); [done|].
  by apply Forall_cons in H as [? _].
Qed.

(** What the origin is sent, line by line. *)
Definition origin_lines (m t v authority : str) (kept : list str) : list str :=
  [m ++ [32] ++ origin_path t ++ [32] ++ v; "Host: " ++ authority] ++ kept ++ [of_string "Connection: close"; []].

Lemma origin_lines_free text m t v authority kept :
  words (request_line text) = Some (m, t, v) → plain_http_authority t = Some authority →
  (∀ h, h ∈ kept → h ∈ split_crlf text) →
  Forall (λ l, crlf_free l = true) (origin_lines m t v authority kept).
Proof.
  intros Hw Ha Hk. pose proof (request_line_free text) as Hl. rewrite (words_line _ _ _ _ Hw) in Hl.
  pose proof (crlf_free_app_l _ _ Hl) as Hm. apply crlf_free_app_r, crlf_free_cons in Hl as [_ Hl].
  pose proof (crlf_free_app_l _ _ Hl) as Ht. apply crlf_free_app_r, crlf_free_cons in Hl as [_ Hv].
  unfold origin_lines. constructor; [|constructor; [|apply Forall_app; split]].
  - apply crlf_free_join; [done..|]. apply crlf_free_join; [done|done|by apply origin_path_free|done].
  - apply (crlf_free_join (of_string "Host:") 32); [done..|]. by eapply plain_authority_free.
  - apply Forall_forall. intros h Hh%Hk. pose proof (split_crlf_pieces text) as Hp. rewrite Forall_forall in Hp. auto.
  - by repeat constructor.
Qed.

(** A plain-HTTP request leaves for its origin as one request and nothing
    else: read line by line, the rewritten head is the request line in origin
    form, the host of the URL, the request's own headers in their order less the
    hop-by-hop ones and those [Connection] names, [Connection: close], and the
    blank line that ends it.  No text of the request adds a line of its own, and
    the tunnel is asked for at the authority the [Host] line names. *)
Theorem rewritten_head_exact (head : list Z) (f : Forward) :
  rewrite_plain head = Some f →
  ∃ text m t v authority,
    from_utf8 head = Some text ∧ words (request_line text) = Some (m, t, v) ∧ m ≠ of_string "CONNECT" ∧
    plain_http_authority t = Some authority ∧ hd_error (origin_path t) = Some 47 ∧
    (fw_target f = authority ∨ fw_target f = authority ++ ":80") ∧
    let headers := until_blank (tl (split_crlf text)) in
    let kept := List.filter (λ h, passes (flat_map named_by headers) (default [] (header_name h))) headers in
    let out := with_crlf (origin_lines m t v authority kept) in
    fw_head f = as_bytes out ∧ split_crlf out = origin_lines m t v authority kept ++ [[]].
Proof.
  intros (text & Ht & ([[m t] v] & Hw & H)%bind_Some)%bind_Some.
  destruct (str_eqb m "CONNECT" || _) eqn:Hm; [done|]. apply orb_false_iff in Hm as [Hm _].
  apply bind_Some in H as (a & Ha & H). apply bind_Some in H as (kept & Hk & [= <-]).
  apply keep_headers_filter in Hk as [-> _]. exists text, m, t, v, a.
  split_and!; try done; [by apply str_eqb_neq|apply origin_path_slash|cbn; destruct (has_port a); auto|].
  cbv zeta. split; [reflexivity|]. rewrite <- (app_nil_r (with_crlf _)).
  apply split_crlf_with. eapply origin_lines_free; [exact Hw|exact Ha|].
  intros h Hh%list_elem_of_In%filter_In. destruct Hh as [Hh%list_elem_of_In%until_blank_sub _].
  destruct (split_crlf text); [done|]. by right.
Qed.

(** ** Heads however they arrive *)

Definition BLANK : str := CRLF ++ CRLF.

Lemma blank_line_cons x buf :
  blank_line (x :: buf) =
    match strip_prefix BLANK (x :: buf) with Some _ => Some 0%nat | None => S <$> blank_line buf end.
Proof. done. Qed.

Lemma strip_prefix_app_l p s r t : strip_prefix p s = Some r → strip_prefix p (s ++ t) = Some (r ++ t).
Proof. rewrite !strip_prefix_Some. intros ->. by rewrite app_assoc. Qed.

Lemma strip_prefix_short p s t r :
  strip_prefix p (s ++ t) = Some r → (length p ≤ length s)%nat → is_Some (strip_prefix p s).
Proof.
  rewrite strip_prefix_Some. intros H Hl. exists (drop (length p) s). apply strip_prefix_Some.
  rewrite <- (take_drop (length p) s) in H at 1. rewrite <- app_assoc in H.
  apply app_inj_1 in H as [Hp _]; [|rewrite length_take; lia].
  transitivity (take (length p) s ++ drop (length p) s); [by rewrite take_drop|by rewrite Hp].
Qed.

(** The first blank line of a text does not move as more arrives. *)
Lemma blank_line_app buf x e : blank_line buf = Some e → blank_line (buf ++ x) = Some e ∧ (e + 4 ≤ length buf)%nat.
Proof.
  revert e. induction buf as [|y buf IH]; intros e; [done|]. cbn [app]. rewrite !blank_line_cons.
  destruct (strip_prefix BLANK (y :: buf)) as [r|] eqn:Hs.
  - intros [= <-]. apply (strip_prefix_app_l _ _ _ x) in Hs as Hs'. cbn [app] in Hs'. rewrite Hs'.
    apply strip_prefix_Some in Hs. rewrite Hs, length_app. split; [done|]. cbn. lia.
  - intros (e' & He & ->)%fmap_Some. destruct (IH e' He) as [Ha Hl].
    destruct (strip_prefix BLANK (y :: buf ++ x)) as [r|] eqn:Hs'.
    + apply (strip_prefix_short BLANK (y :: buf)) in Hs' as [? Hc]; [by rewrite Hs in Hc|].
      cbn in *. lia.
    + rewrite Ha. cbn. split; [done|lia].
Qed.

Lemma blank_line_within buf x e :
  blank_line (buf ++ x) = Some e → (e + 4 ≤ length buf)%nat → blank_line buf = Some e.
Proof.
  revert e. induction buf as [|y buf IH]; intros e; [cbn; lia|]. cbn [app]. rewrite !blank_line_cons.
  destruct (strip_prefix BLANK (y :: buf ++ x)) as [r|] eqn:Hs.
  - intros [= <-] Hl. apply (strip_prefix_short BLANK (y :: buf)) in Hs as [? ->]; [done|]. cbn in *. lia.
  - intros (e' & He & ->)%fmap_Some Hl. cbn in Hl.
    destruct (strip_prefix BLANK (y :: buf)) as [r|] eqn:Hs'.
    + apply (strip_prefix_app_l _ _ _ x) in Hs'. cbn [app] in Hs'. by rewrite Hs in Hs'.
    + rewrite (IH e' He) by lia. done.
Qed.

Lemma read_head_sound buf chunks h early :
  read_head buf chunks = Some (h, early) →
  ∃ rest e, buf ++ concat chunks = h ++ early ++ rest ∧ blank_line (buf ++ concat chunks) = Some e ∧ length h = (e + 4)%nat.
Proof.
  revert buf. induction chunks as [|c chunks IH]; intros buf; cbn [read_head].
  - destruct (blank_line buf) as [e|] eqn:He; [|by destruct (_ <? _)%nat]. intros [= <- <-].
    destruct (blank_line_app buf [] e He) as [Ha Hl]. cbn [concat]. exists [], e. rewrite app_nil_r in *.
    by rewrite app_nil_r, take_drop, length_take_le.
  - destruct (blank_line buf) as [e|] eqn:He.
    + intros [= <- <-]. destruct (blank_line_app buf (concat (c :: chunks)) e He) as [Ha Hl].
      exists (concat (c :: chunks)), e. rewrite app_assoc, take_drop, length_take_le by done. done.
    + destruct (_ <? _)%nat; [done|]. intros H. destruct (IH _ H) as (rest & e & H1 & H2 & H3).
      cbn [concat]. rewrite <- app_assoc in H1, H2. eauto.
Qed.

Lemma read_head_complete buf chunks e :
  blank_line (buf ++ concat chunks) = Some e → (e + 4 ≤ MAX_HEAD)%nat → is_Some (read_head buf chunks).
Proof.
  revert buf. induction chunks as [|c chunks IH]; intros buf He Hm; cbn [read_head concat] in *.
  - rewrite app_nil_r in He. rewrite He. by eexists.
  - destruct (blank_line buf) as [e'|] eqn:Hb; [by eexists|].
    destruct (Nat.ltb_spec MAX_HEAD (length buf)) as [Hlt|].
    + apply blank_line_within in He; [congruence|lia].
    + apply IH; [by rewrite <- app_assoc|done].
Qed.

(** How a request head arrives does not change what is read: if the stream
    holds a blank line within [MAX_HEAD] bytes, then for every way the network
    cuts it into reads the head is found, and whenever one is found it is the
    stream up to and including its first blank line, with what follows it
    kept for the tunnel. *)
Theorem read_head_chunking (chunks : list (list Z)) :
  (∀ e, blank_line (concat chunks) = Some e → (e + 4 ≤ MAX_HEAD)%nat → is_Some (read_head [] chunks)) ∧
  (∀ h early, read_head [] chunks = Some (h, early) →
    ∃ rest e, concat chunks = h ++ early ++ rest ∧ blank_line (concat chunks) = Some e ∧
      h = take (e + 4) (concat chunks)).
Proof.
  split; [intros e; apply (read_head_complete [])|].
  intros h early (rest & e & H1 & H2 & H3)%read_head_sound. exists rest, e. split; [done|]. split; [done|].
  cbn [app] in H1. by rewrite H1, <- H3, take_app_length.
Qed.

(** ** Examples *)

Definition plain_head : list Z :=
  as_bytes (with_crlf [of_string "GET http://u:p@api.example/v1?q=1 HTTP/1.1"; of_string "Host: other";
    of_string "Connection: X-Hop"; of_string "X-Hop: 1"; of_string "Proxy-Authorization: Basic x"; of_string "Accept: */*"; []]).

Lemma rewritten_head_exact_witness :
  ∃ f text, rewrite_plain plain_head = Some f ∧ from_utf8 plain_head = Some text ∧
    fw_target f = of_string "api.example:80" ∧
    fw_head f = as_bytes (with_crlf [of_string "GET /v1?q=1 HTTP/1.1"; of_string "Host: api.example"; of_string "Accept: */*"; of_string "Connection: close"; []]).
Proof.
  destruct (rewrite_plain plain_head) as [f|] eqn:Hf; [|discriminate].
  destruct (rewritten_head_exact plain_head f Hf) as (text & m & t & v & a & Ht & _).
  exists f, text. split; [reflexivity|]. split; [exact Ht|].
  vm_compute in Hf. injection Hf as <-. split; reflexivity.
Defined.

(** A bare line feed is no line break here, so what follows one is passed on
    whatever its name. *)
Lemma bare_lf_passes :
  ∃ f, rewrite_plain (as_bytes (with_crlf [of_string "GET http://h/ HTTP/1.1"; (of_string "A: b" ++ [10] ++ "Proxy-Authorization: s"); []])) = Some f ∧
    is_Some (split_once_str (as_bytes ([10] ++ of_string "Proxy-Authorization: s")) (fw_head f)).
Proof. eexists. split; [reflexivity|]. vm_compute. by eexists. Qed.

(** The head a client sends for a target names that target. *)
Lemma connect_head_target t rest :
  target_ok t → Forall is_ascii (Target.display t) → 32 ∉ Target.display t → crlf_free (Target.display t) = true →
  Forall is_ascii rest →
  parse_head (of_string "CONNECT " ++ Target.display t ++ " HTTP/1.1" ++ CRLF ++ rest) = Connect (Target.display t) ∧
  Target.parse (Target.display t) = Ok t.
Proof.
  intros Ht Ha Hs Hf Hr. split; [|by apply target_display_roundtrip].
  set (s := of_string "CONNECT " ++ Target.display t ++ " HTTP/1.1" ++ CRLF ++ rest).
  assert (Forall is_ascii s) as Hall.
  { assert (∀ l r, forallb (λ c, (0 <=? c) && (c <=? 127)) l = true → Forall is_ascii r → Forall is_ascii (l ++ r)) as Hl.
    { intros l r Hl%Is_true_eq_left%forallb_True Hrr. apply Forall_app; split; [|done].
      eapply Forall_impl; [exact Hl|]. intros c Hc%Is_true_eq_true. unfold is_ascii. lia. }
    unfold s. apply Hl; [done|]. apply Forall_app; split; [done|]. apply Hl; [done|]. by apply Hl. }
  assert (from_utf8 s = Some s) as Hu.
  { rewrite <- (as_bytes_ascii s Hall) at 1. apply from_utf8_as_bytes.
    eapply Forall_impl; [exact Hall|]. unfold is_ascii, is_char. lia. }
  unfold parse_head. rewrite Hu.
  assert (request_line s = (of_string "CONNECT" ++ 32 :: Target.display t ++ 32 :: of_string "HTTP/1.1")) as ->.
  { unfold request_line, s. change (of_string "CONNECT " ++ ?x) with (of_string "CONNECT" ++ 32 :: x).
    replace (of_string "CONNECT" ++ 32 :: Target.display t ++ " HTTP/1.1" ++ CRLF ++ rest)
      with ((of_string "CONNECT" ++ 32 :: Target.display t ++ 32 :: of_string "HTTP/1.1") ++ CRLF ++ rest)
      by (rewrite <- !app_assoc; cbn [app]; by rewrite <- !app_assoc).
    rewrite split_crlf_line; [done|]. apply crlf_free_join; [done|done|done|]. by apply crlf_free_join. }
  unfold words. rewrite split_app by by_decide. rewrite split_app by done. rewrite split_none by by_decide.
  rewrite bool_decide_eq_false_2; [done|]. intros Hd. pose proof (target_display_roundtrip t Ht) as Hp. by rewrite Hd in Hp.
Qed.
