(* ===== verification/StateDir.v ===== *)
(** * The state directory

    Model of the files a gateway keeps under [--control-plane-state]
    ([crates/skimasque-cli/src/control.rs] and [platform.rs]) and of how policy
    files are read back ([crates/skimasque-cli/src/policy.rs]).

    The directory holds files, and one directory of files.  A program over it is
    an [Io]: each call of the file system takes its fate from a list, and it
    succeeds, fails, or the process dies in the middle of it.  A write that is
    cut short leaves a prefix, a [remove_dir_all] that is cut short leaves some
    of the entries, and a rename happens or does not.  Once the list of fates is
    used up every call succeeds.  What holds at a crash is stated with the
    triples [io_spec].

    Encoding and decoding JSON and the documents' TOML and YAML readers are
    parameters. *)

From stdpp Require Import sorting.
From S2P Require Import Prelude RustStr RustNet PolicyDest PolicyUnits PolicyModel PolicyEval PolicyParse.
From S2P Require Import Identity Credential Tenant Platform.

(** ** The file system *)

(** Maps from names, with the instances fixed. *)
Abbreviation names := (@gmap str (@list_eq_dec Z Z.eq_dec) (@list_countable Z Z.eq_dec Z_countable)).
Abbreviation Dirents := (names (list Z)).
Abbreviation data := (list Z).
Inductive node : Type :=
  | File (contents : data)
  | Dir (entries : Dirents).
Abbreviation Fs := (names node).

(** How far a call got that did not succeed: the entries a [remove_dir_all]
    removed, the bytes a [write] wrote ([None]: it did not even open the file). *)
Record progress : Type := mkProgress { gone : gset str; written : option nat }.
Inductive fate : Type := Done | Fails (p : progress) | Dies (p : progress).

(** [anyhow::Error], outermost context first. *)
Abbreviation error := (list str).
Inductive outcome (A : Type) : Type := Returned (r : result error A) | Died.
Arguments Returned {A} r.
Arguments Died {A}.
Definition Io (A : Type) : Type := Fs → list fate → outcome A * Fs * list fate.

Definition io_of {A} (r : result error A) : Io A := λ fs fates, (Returned r, fs, fates).
Definition io_bind {A B} (k : A → Io B) (m : Io A) : Io B := λ fs fates,
  match m fs fates with
  | (Returned (Ok a), fs', rest) => k a fs' rest
  | (Returned (Err e), fs', rest) => (Returned (Err e), fs', rest)
  | (Died, fs', rest) => (Died, fs', rest)
  end.
#[global] Instance io_mret : MRet Io := λ A a, io_of (Ok a).
#[global] Instance io_mbind : MBind Io := @io_bind.

(** A result looked at instead of passed on with [?]. *)
Definition attempt {A} (m : Io A) : Io (result error A) := λ fs fates,
  match m fs fates with
  | (Returned r, fs', rest) => (Returned (Ok r), fs', rest)
  | (Died, fs', rest) => (Died, fs', rest)
  end.
Definition context {A} (msg : str) (m : Io A) : Io A := λ fs fates,
  match m fs fates with
  | (Returned (Err e), fs', rest) => (Returned (Err (msg :: e)), fs', rest)
  | out => out
  end.

Definition io_error : error := [of_string "I/O error"].

(** A system call: what it does when it succeeds, and what is left of it when it
    is cut short. *)
Definition prim {A} (full : Fs → result error (A * Fs)) (partial : progress → Fs → Fs) : Io A := λ fs fates,
  match fates with
  | Fails p :: rest => (Returned (Err io_error), partial p fs, rest)
  | Dies p :: rest => (Died, partial p fs, rest)
  | _ => match full fs with
         | Ok (a, fs') => (Returned (Ok a), fs', tail fates)
         | Err e => (Returned (Err e), fs, tail fates)
         end
  end.

Definition torn (p : progress) (bytes : data) (put : data → Fs) (fs : Fs) : Fs :=
  match written p with None => fs | Some n => put (take n bytes) end.

(** [fs::write(state_dir.join(name), bytes)]. *)
Definition fs_write (name : str) (bytes : data) : Io unit :=
  prim (λ fs, match fs !! name with
              | Some (Dir _) => Err io_error
              | _ => Ok (tt, <[name := File bytes]> fs)
              end)
       (λ p fs, match fs !! name with
                | Some (Dir _) => fs
                | _ => torn p bytes (λ b, <[name := File b]> fs) fs
                end).

(** [fs::write(state_dir.join(dir).join(name), bytes)]. *)
Definition fs_write_in (dir name : str) (bytes : data) : Io unit :=
  prim (λ fs, match fs !! dir with
              | Some (Dir d) => Ok (tt, <[dir := Dir (<[name := bytes]> d)]> fs)
              | _ => Err io_error
              end)
       (λ p fs, match fs !! dir with
                | Some (Dir d) => torn p bytes (λ b, <[dir := Dir (<[name := b]> d)]> fs) fs
                | _ => fs
                end).

(** [fs::create_dir_all(state_dir.join(dir))]. *)
Definition fs_create_dir (dir : str) : Io unit :=
  prim (λ fs, match fs !! dir with
              | Some (Dir _) => Ok (tt, fs)
              | Some (File _) => Err io_error
              | None => Ok (tt, <[dir := Dir ∅]> fs)
              end)
       (λ _ fs, fs).

(** [fs::create_dir_all(state_dir)], the directory itself: it can only fail. *)
Definition fs_create_state_dir : Io unit := prim (λ fs, Ok (tt, fs)) (λ _ fs, fs).

Definition entries_left (p : progress) (d : Dirents) : Dirents :=
  filter (λ e, e.1 ∉ gone p) d.

Definition fs_remove_dir_all (dir : str) : Io unit :=
  prim (λ fs, match fs !! dir with
              | Some (Dir _) => Ok (tt, delete dir fs)
              | _ => Err io_error
              end)
       (λ p fs, match fs !! dir with
                | Some (Dir d) => <[dir := Dir (entries_left p d)]> fs
                | _ => fs
                end).

(** [fs::rename]: a directory replaces nothing or an empty directory, a file
    nothing or a file. *)
Definition fs_rename (from to : str) : Io unit :=
  prim (λ fs, match fs !! from, fs !! to with
              | Some (Dir d), None => Ok (tt, <[to := Dir d]> (delete from fs))
              | Some (Dir d), Some (Dir d') =>
                  if decide (d' = ∅) then Ok (tt, <[to := Dir d]> (delete from fs)) else Err io_error
              | Some (File b), (None | Some (File _)) => Ok (tt, <[to := File b]> (delete from fs))
              | _, _ => Err io_error
              end)
       (λ _ fs, fs).

(** [fs::read] of a file, [None] when there is none, and of a file in a
    directory; [fs::read_dir], of which the callers use the names. *)
Definition fs_read (name : str) : Io (option data) :=
  prim (λ fs, match fs !! name with
              | Some (File b) => Ok (Some b, fs)
              | None => Ok (None, fs)
              | Some (Dir _) => Err io_error
              end)
       (λ _ fs, fs).
Definition fs_read_in (dir name : str) : Io data :=
  prim (λ fs, match fs !! dir with
              | Some (Dir d) => (λ b, (b, fs)) <$> ok_or (d !! name) io_error
              | _ => Err io_error
              end)
       (λ _ fs, fs).
Definition fs_read_dir (dir : str) : Io (Dirents) :=
  prim (λ fs, match fs !! dir with
              | Some (Dir d) => Ok (d, fs)
              | _ => Err io_error
              end)
       (λ _ fs, fs).

(** ** Policy files *)

(** [Path::extension] of a file name. *)
Definition extension (name : str) : option str :=
  '(stem, ext) ← rsplit_once 46 name;
  if decide (stem = []) then None else Some ext.

Definition is_policy_ext (ext : str) : bool :=
  str_eqb ext "toml" || str_eqb ext "yaml" || str_eqb ext "yml".

Definition is_policy_file (name : str) : bool :=
  match extension name with
  | Some ext => is_policy_ext (to_ascii_lowercase ext)
  | None => false
  end.

Definition trim_matches (c : Z) (s : str) : str := trim_end_matches c (trim_start_matches c s).

Definition name_char (c : Z) : bool :=
  is_ascii_alphanumeric c || (c =? 45) || (c =? 95) || (c =? 46).

Definition sanitize (name : str) : str :=
  let stem := trim_matches 46 (List.filter name_char name) in
  if decide (stem = []) then "policy.toml"
  else if default false (is_policy_ext <$> extension stem) then stem
  else stem ++ ".toml".

(** ** The policy cache *)

Definition POLICIES : str := "policies".
Definition STAGING : str := ".policies.new".
Definition CACHE_META : str := "policy-cache.json".
Definition REVOCATIONS : str := "revocations.json".
Definition REVOCATIONS_STAGING : str := ".revocations.new".
Definition CACHE_FILE : str := "tenants.json".
Definition TENANTS_STAGING : str := "tenants.json.new".
Definition IDENTITY : str := "gateway.json".

Record CacheMeta : Type := mkCacheMeta { meta_version : Z; fetched_at_ms : Z }.
Record RevokedSession : Type := mkRevokedSession { rs_sid : str; expires_at_ms : Z }.
Record RevocationsResponse : Type := mkRevocations { generation : Z; revoked_list : list RevokedSession }.
Record GatewayIdentity : Type := mkGatewayIdentity { gateway_id : str; gateway_org : str; secret : str }.

(** A JSON encoding of a type: [serde_json::to_vec] and [from_slice]. *)
Class Serde (A : Type) : Type := {
  to_vec : A → data;
  from_slice : data → option A;
}.
(** What is written is read back. *)
Class SerdeLaws (A : Type) `{Serde A} : Prop := from_to (a : A) : from_slice (to_vec a) = Some a.

Section cache.
Context `{Serde CacheMeta, Serde RevocationsResponse, Serde TenantList, Serde GatewayIdentity}.

Fixpoint write_documents (documents : list (str * str)) : Io unit :=
  match documents with
  | [] => mret tt
  | (name, text) :: documents =>
      let name := sanitize name in
      _ ← context ("writing " ++ name) (fs_write_in STAGING name (as_bytes text));
      write_documents documents
  end.

(** [cache_policy] once the staging directory was cleared; [now_ms] is the wall
    clock when the metadata is written. *)
Definition cache_staged (now_ms version : Z) (documents : list (str * str)) : Io unit :=
  _ ← context (of_string "creating the policy staging directory") (fs_create_dir STAGING);
  _ ← write_documents documents;
  _ ← attempt (fs_remove_dir_all POLICIES);
  _ ← context (of_string "swapping in the new policy cache") (fs_rename STAGING POLICIES);
  _ ← attempt (fs_write CACHE_META (to_vec (mkCacheMeta version now_ms)));
  mret tt.

Definition cache_policy (now_ms version : Z) (documents : list (str * str)) : Io unit :=
  _ ← attempt (fs_remove_dir_all STAGING);
  cache_staged now_ms version documents.

Definition has_cached_policy : Io bool :=
  entries ← attempt (fs_read_dir POLICIES);
  mret match entries with Ok d => bool_decide (d ≠ ∅) | Err _ => false end.

(** [from_slice(&fs::read(path).ok()?).ok()]. *)
Definition decode_file {A} `{Serde A} (bytes : result error (option data)) : option A :=
  match bytes with Ok (Some b) => from_slice b | _ => None end.

Definition load_cache_meta : Io (option CacheMeta) :=
  bytes ← attempt (fs_read CACHE_META);
  mret (decode_file bytes).

(** [CacheMeta::age]. *)
Definition meta_age (now_ms : Z) (m : CacheMeta) : option Duration :=
  if fetched_at_ms m <=? now_ms then Some (from_millis (now_ms - fetched_at_ms m)) else None.

(** [modified] is how long ago the directory was modified, if that is known. *)
Definition cached_policy_age (now_ms : Z) (modified : option Duration) : Io (option Duration) :=
  meta ← load_cache_meta;
  mret match meta ≫= meta_age now_ms with Some age => Some age | None => modified end.

(** ** Reading policies *)

Section load_dir.
Context {TomlError YamlError : Type}.
Context (toml : str → result TomlError RawPolicy) (yaml : str → result YamlError YamlDoc).

(** [fs::read_to_string]: reading, and decoding what was read. *)
Fixpoint read_documents (dir : str) (paths : list str) : Io (list (str * str)) :=
  match paths with
  | [] => mret []
  | name :: paths =>
      bytes ← context ("reading " ++ name) (fs_read_in dir name);
      text ← io_of (ok_or (from_utf8 bytes) ["reading " ++ name; of_string "stream did not contain valid UTF-8"]);
      documents ← read_documents dir paths;
      mret ((name, text) :: documents)
  end.

Definition load_documents (documents : list (str * str)) : result error PolicySet :=
  map_err (λ _, [of_string "loading the policy set"]) (from_documents toml yaml documents).

Definition load_files (dir : str) (paths : list str) : Io PolicySet :=
  documents ← read_documents dir paths;
  io_of (load_documents documents).

(** The policy files of a directory, in the order they are loaded. *)
Definition policy_files (d : Dirents) : list str :=
  sort_by str_le (List.filter is_policy_file (map_to_list d).*1).

Definition load_dir (dir : str) : Io PolicySet :=
  d ← context (of_string "reading the policy directory") (fs_read_dir dir);
  let files := policy_files d in
  if decide (files = []) then io_of (Err [of_string "no .toml/.yaml policy files"])
  else load_files dir files.
End load_dir.

(** ** Revocations, tenants, identity *)

Definition cache_revocations (list : RevocationsResponse) : Io unit :=
  _ ← context (of_string "creating the state directory") fs_create_state_dir;
  _ ← context (of_string "writing the revocation cache") (fs_write REVOCATIONS_STAGING (to_vec list));
  context (of_string "swapping in the revocation cache") (fs_rename REVOCATIONS_STAGING REVOCATIONS).

Definition load_cached_revocations : Io (option RevocationsResponse) :=
  bytes ← attempt (fs_read REVOCATIONS);
  mret (decode_file bytes).

Definition write_cache (list : TenantList) : Io unit :=
  _ ← context (of_string "creating the state directory") fs_create_state_dir;
  _ ← context (of_string "writing the tenant cache") (fs_write TENANTS_STAGING (to_vec list));
  context (of_string "swapping in the new tenant cache") (fs_rename TENANTS_STAGING CACHE_FILE).

Definition load_cache : Io (option TenantList) :=
  bytes ← attempt (fs_read CACHE_FILE);
  mret (decode_file bytes).

Definition load_identity : Io (option GatewayIdentity) :=
  bytes ← context (of_string "reading the stored gateway identity") (fs_read IDENTITY);
  match bytes with
  | None => mret None
  | Some bytes =>
      io_of (Some <$> ok_or (from_slice bytes) [of_string "parsing the stored gateway identity"])
  end.
End cache.

(** ** Triples

    [io_spec P m Q C]: started where [P] holds, [m] returns with [Q] or the
    process dies where [C] holds, whatever fails. *)

Definition io_spec {A : Type} (P : Fs → Prop) (m : Io A) (Q : result error A → Fs → Prop) (C : Fs → Prop) : Prop :=
  ∀ fs fates, P fs →
    match m fs fates with
    | (Returned r, fs', _) => Q r fs'
    | (Died, fs', _) => C fs'
    end.

Lemma io_of_spec {A : Type} (P : Fs → Prop) (r : result error A) (Q : result error A → Fs → Prop) (C : Fs → Prop) :
  (∀ fs, P fs → Q r fs) → io_spec P (io_of r) Q C.
Proof. intros HQ fs fates HP. by apply HQ. Qed.

Lemma io_bind_spec {A B : Type} (P : Fs → Prop) (m : Io A) (k : A → Io B) R Q (C : Fs → Prop) :
  io_spec P m R C →
  (∀ a, io_spec (R (Ok a)) (k a) Q C) → (∀ e fs, R (Err e) fs → Q (Err e) fs) →
  io_spec P (m ≫= k) Q C.
Proof.
  intros Hm Hk He fs fates HP. specialize (Hm fs fates HP). unfold mbind, io_mbind, io_bind.
  destruct (m fs fates) as [[[[a|e]|] fs'] rest]; [by apply Hk|by apply He|done].
Qed.

Lemma attempt_spec {A : Type} (P : Fs → Prop) (m : Io A) (Q : Fs → Prop) (C : Fs → Prop) :
  io_spec P m (λ _, Q) C → io_spec P (attempt m) (λ r fs, is_ok r = true ∧ Q fs) C.
Proof.
  intros Hm fs fates HP. specialize (Hm fs fates HP). unfold attempt.
  by destruct (m fs fates) as [[[r|] fs'] rest].
Qed.

Lemma context_spec {A : Type} msg (P : Fs → Prop) (m : Io A) Q (C : Fs → Prop) :
  io_spec P m Q C → (∀ e e' fs, Q (Err e) fs → Q (Err e') fs) → io_spec P (context msg m) Q C.
Proof.
  intros Hm He fs fates HP. specialize (Hm fs fates HP). unfold context.
  destruct (m fs fates) as [[[[a|e]|] fs'] rest]; [done|by apply (He e)|done].
Qed.

Lemma prim_spec {A : Type} (P : Fs → Prop) (full : Fs → result error (A * Fs)) partial Q (C : Fs → Prop) :
  (∀ fs, P fs → match full fs with Ok (a, fs') => Q (Ok a) fs' | Err e => Q (Err e) fs end) →
  (∀ p fs, P fs → Q (Err io_error) (partial p fs) ∧ C (partial p fs)) →
  io_spec P (prim full partial) Q C.
Proof.
  intros Hf Hp fs fates HP. unfold prim.
  destruct fates as [|[|p|p] rest].
  1,2: specialize (Hf fs HP); destruct (full fs) as [[a fs']|e]; exact Hf.
  all: by destruct (Hp p fs HP).
Qed.

Lemma io_crash {A : Type} (P : Fs → Prop) (m : Io A) Q (C D : Fs → Prop) :
  io_spec P m Q C → (∀ fs, C fs → D fs) → io_spec P m Q D.
Proof.
  intros Hm HCD fs fates HP. specialize (Hm fs fates HP).
  destruct (m fs fates) as [[[r|] fs'] rest]; auto.
Qed.

(** ** Crashes while the policy cache is replaced *)

(** The entries after the documents were written over [left]. *)
Definition staged (left : Dirents) (documents : list (str * str)) : Dirents :=
  fold_left (λ d doc, <[sanitize doc.1 := as_bytes doc.2]> d) documents left.

(** What may remain of a directory whose removal was begun. *)
Definition remnant (old now : option node) : Prop :=
  now = old ∨ now = None ∨ ∃ d p, old = Some (Dir d) ∧ now = Some (Dir (entries_left p d)).

Definition cached_as (policies staging : option node) (fs : Fs) : Prop :=
  fs !! POLICIES = policies ∧ fs !! STAGING = staging.

(** Lookups after an update, where the two names are different literals. *)
Ltac names_ne := solve [vm_compute; discriminate].
Ltac lookups := repeat first
  [ rewrite lookup_insert_eq | rewrite lookup_insert_ne by names_ne
  | rewrite lookup_delete_eq | rewrite lookup_delete_ne by names_ne ].

Lemma write_in_spec (old : option node) (d : Dirents) (name : str) (bytes : data) :
  io_spec (cached_as old (Some (Dir d))) (fs_write_in STAGING name bytes)
    (λ r fs, match r with
             | Ok _ => cached_as old (Some (Dir (<[name := bytes]> d))) fs
             | Err _ => fs !! POLICIES = old
             end)
    (λ fs, fs !! POLICIES = old).
Proof.
  apply prim_spec.
  - intros fs [Hp Hs]. rewrite Hs. split; by lookups.
  - intros p fs [Hp Hs]. rewrite Hs. unfold torn. by destruct (written p); lookups.
Qed.

Lemma write_documents_spec (old : option node) (documents : list (str * str)) (d : Dirents) :
  io_spec (cached_as old (Some (Dir d))) (write_documents documents)
    (λ r fs, match r with
             | Ok _ => cached_as old (Some (Dir (staged d documents))) fs
             | Err _ => fs !! POLICIES = old
             end)
    (λ fs, fs !! POLICIES = old).
Proof.
  revert d. induction documents as [|[name text] documents IH]; intros d; cbn [write_documents].
  - by apply io_of_spec.
  - eapply io_bind_spec; [apply context_spec; [apply write_in_spec|done]| |done].
    intros []. apply IH.
Qed.

Lemma remove_policies_spec (old staging : option node) :
  io_spec (cached_as old staging) (attempt (fs_remove_dir_all POLICIES))
    (λ r fs, is_ok r = true ∧ ∃ now, remnant old now ∧ cached_as now staging fs)
    (λ fs, remnant old (fs !! POLICIES)).
Proof.
  apply attempt_spec, prim_spec.
  - intros fs [Hp Hs]. assert (∃ now, remnant old now ∧ cached_as now staging fs) as Hsame
      by (exists old; by split; [left|]).
    destruct (fs !! POLICIES) as [[b|d]|] eqn:Hl; [done| |done].
    exists None. split; [by right; left|]. split; by lookups.
  - intros p fs [Hp Hs].
    assert ((∃ now, remnant old now ∧ cached_as now staging fs) ∧ remnant old (fs !! POLICIES)) as Hsame
      by (split; [exists old; by split; [left|]|by left]).
    destruct (fs !! POLICIES) as [[b|d]|] eqn:Hl; [by rewrite Hl| |by rewrite Hl].
    assert (remnant old (Some (Dir (entries_left p d)))) as Hr by (right; right; by exists d, p).
    lookups. split; [|done]. eexists. split; [exact Hr|]. split; by lookups.
Qed.

Lemma rename_policies_spec (now : option node) (d : Dirents) :
  io_spec (cached_as now (Some (Dir d))) (fs_rename STAGING POLICIES)
    (λ r fs, fs !! POLICIES = match r with Ok _ => Some (Dir d) | Err _ => now end)
    (λ fs, fs !! POLICIES = now).
Proof.
  apply prim_spec.
  - intros fs [Hp Hs]. rewrite Hs, Hp. destruct now as [[b|d']|]; [done| |by lookups].
    case_decide; by lookups.
  - by intros p fs [Hp Hs].
Qed.

Lemma meta_spec (now : option node) (bytes : data) :
  io_spec (λ fs, fs !! POLICIES = now) (attempt (fs_write CACHE_META bytes))
    (λ r fs, is_ok r = true ∧ fs !! POLICIES = now) (λ fs, fs !! POLICIES = now).
Proof.
  apply attempt_spec, prim_spec.
  - intros fs Hp. by destruct (fs !! CACHE_META) as [[]|]; lookups.
  - intros p fs Hp. unfold torn. by destruct (fs !! CACHE_META) as [[]|], (written p); lookups.
Qed.

(** What the staging directory holds once it was created over [staging]. *)
Definition staging_left (staging : option node) (left : Dirents) : Prop :=
  match staging with
  | Some (Dir d) => left = d
  | Some (File _) => True
  | None => left = ∅
  end.

Lemma create_staging_spec (old staging : option node) (left : Dirents) :
  staging_left staging left →
  io_spec (cached_as old staging) (fs_create_dir STAGING)
    (λ r fs, match r with
             | Ok _ => cached_as old (Some (Dir left)) fs
             | Err _ => fs !! POLICIES = old
             end)
    (λ fs, fs !! POLICIES = old).
Proof.
  intros Hleft. apply prim_spec; [|by intros p fs [Hp Hs]].
  intros fs [Hp Hs]. rewrite Hs. destruct staging as [[b|d]|]; simpl in Hleft; subst; [done|done|].
  split; by lookups.
Qed.

Section cache_policy.
Context `{Serde CacheMeta}.

Lemma cache_staged_spec (now_ms version : Z) (documents : list (str * str)) (old staging : option node) (left : Dirents) :
  staging_left staging left →
  let new := Some (Dir (staged left documents)) in
  io_spec (cached_as old staging) (cache_staged now_ms version documents)
    (λ r fs, match r with Ok _ => fs !! POLICIES = new | Err _ => remnant old (fs !! POLICIES) end)
    (λ fs, remnant old (fs !! POLICIES) ∨ fs !! POLICIES = new).
Proof.
  intros Hleft new. unfold cache_staged.
  eapply io_bind_spec.
  { eapply io_crash; [apply context_spec; [by apply create_staging_spec|done]|]. intros fs ->. by left; left. }
  2: { intros e fs ->. by left. }
  intros []. eapply io_bind_spec.
  { eapply io_crash; [apply write_documents_spec|]. intros fs ->. by left; left. }
  2: { intros e fs ->. by left. }
  intros []. eapply io_bind_spec.
  { eapply io_crash; [apply remove_policies_spec|]. by left. }
  2: { by intros e fs [? _]. }
  intros r fs fates (_ & now & Hr & Hc). revert fs fates Hc.
  change (io_spec (cached_as now (Some (Dir (staged left documents))))
    (context (of_string "swapping in the new policy cache") (fs_rename STAGING POLICIES) ≫=
      λ _, attempt (fs_write CACHE_META (to_vec (mkCacheMeta version now_ms))) ≫= λ _, mret tt)
    (λ r fs, match r with Ok _ => fs !! POLICIES = new | Err _ => remnant old (fs !! POLICIES) end)
    (λ fs, remnant old (fs !! POLICIES) ∨ fs !! POLICIES = new)).
  eapply io_bind_spec.
  { eapply io_crash; [apply context_spec; [apply rename_policies_spec|done]|]. intros fs ->. by left. }
  2: { by intros e fs ->. }
  intros []. eapply io_bind_spec.
  { eapply io_crash; [apply meta_spec|]. by right. }
  2: { by intros e fs [? _]. }
  intros r'. apply io_of_spec. by intros fs [_ Hfs].
Qed.

(** The entries an earlier run left in the staging directory. *)
Definition leftover (fs : Fs) : Dirents :=
  match fs !! STAGING with Some (Dir d) => d | _ => ∅ end.

Lemma entries_left_sub p (d : Dirents) : entries_left p d ⊆ d.
Proof. apply map_filter_subseteq. Qed.

(** Clearing the staging directory leaves nothing of it, unless it failed. *)
Lemma clear_staging (fs fs' : Fs) fates rest o :
  attempt (fs_remove_dir_all STAGING) fs fates = (o, fs', rest) →
  fs' !! POLICIES = fs !! POLICIES ∧
  ∃ left, staging_left (fs' !! STAGING) left ∧ left ⊆ leftover fs ∧
    ((∀ p, head fates ≠ Some (Fails p)) → o ≠ Died → left = ∅).
Proof.
  unfold attempt, fs_remove_dir_all, prim, leftover.
  destruct (fs !! STAGING) as [[b|d]|] eqn:Hs; destruct fates as [|[|p|p] fates]; intros [= <- <- <-];
    lookups; rewrite ?Hs; (split; [done|]);
    try (exists ∅; split; [done|]; split; [apply map_empty_subseteq|done]).
  - exists (entries_left p d). split; [done|]. split; [apply entries_left_sub|]. intros Hf. by destruct (Hf p).
  - exists (entries_left p d). split; [done|]. by split; [apply entries_left_sub|].
Qed.

Lemma cache_policy_outcome (now_ms version : Z) (documents : list (str * str)) (fs fs' : Fs) fates rest o :
  cache_policy now_ms version documents fs fates = (o, fs', rest) →
  ∃ left, left ⊆ leftover fs ∧ ((∀ p, head fates ≠ Some (Fails p)) → o ≠ Died → left = ∅) ∧
    match o with
    | Returned (Ok _) => fs' !! POLICIES = Some (Dir (staged left documents))
    | Returned (Err _) => remnant (fs !! POLICIES) (fs' !! POLICIES)
    | Died => remnant (fs !! POLICIES) (fs' !! POLICIES) ∨ fs' !! POLICIES = Some (Dir (staged left documents))
    end.
Proof.
  unfold cache_policy, mbind, io_mbind, io_bind. intros Hrun.
  destruct (attempt _ fs fates) as [[o1 fs1] fates1] eqn:Hclear.
  destruct (clear_staging _ _ _ _ _ Hclear) as (Hp & left & Hst & Hsub & Hclean).
  exists left. split; [done|].
  destruct o1 as [[r|e]|].
  - pose proof (cache_staged_spec now_ms version documents (fs !! POLICIES) (fs1 !! STAGING) left Hst
      fs1 fates1 (conj Hp eq_refl)) as Hspec.
    rewrite Hrun in Hspec. split; [by intros Hf _; apply Hclean|]. by destruct o as [[]|].
  - unfold attempt in Hclear. by destruct (fs_remove_dir_all STAGING fs fates) as [[[]] ].
  - injection Hrun as <- <- <-. split; [done|]. left. rewrite Hp. by left.
Qed.
End cache_policy.

(** ** File names *)

Lemma trim_start_matches_head c s : head (trim_start_matches c s) ≠ Some c.
Proof. induction s as [|x s IH]; simpl; [done|]. destruct (Z.eqb_spec x c); [done|]. by intros [= ->]. Qed.

Lemma trim_start_matches_id c s : head s ≠ Some c → trim_start_matches c s = s.
Proof. destruct s as [|x s]; simpl; [done|]. intros Hx. destruct (Z.eqb_spec x c) as [->|]; congruence. Qed.

Lemma trim_start_matches_app c s : ∃ pre, s = pre ++ trim_start_matches c s.
Proof.
  induction s as [|x s [pre IH]]; simpl; [by exists []|].
  destruct (x =? c); [exists (x :: pre); simpl; by f_equal|by exists []].
Qed.

Lemma last_rev {A} (l : list A) : last (rev l) = head l.
Proof. destruct l; simpl; [done|]. apply last_snoc. Qed.
Lemma head_rev {A} (l : list A) : head (rev l) = last l.
Proof. by rewrite <- last_rev, rev_involutive. Qed.

(** A name with no dot at either end. *)
Definition bare (s : str) : Prop := head s ≠ Some 46 ∧ last s ≠ Some 46.

Lemma trim_matches_sub c s : ∃ pre post, s = pre ++ trim_matches c s ++ post.
Proof.
  unfold trim_matches, trim_end_matches. destruct (trim_start_matches_app c s) as [pre Hpre].
  destruct (trim_start_matches_app c (rev (trim_start_matches c s))) as [post Hpost].
  exists pre, (rev post). rewrite <- rev_app_distr, <- Hpost, rev_involutive. exact Hpre.
Qed.

Lemma trim_matches_bare s : bare (trim_matches 46 s).
Proof.
  unfold trim_matches, trim_end_matches. set (t := trim_start_matches 46 s). split.
  - destruct (trim_start_matches_app 46 (rev t)) as [post Hpost].
    apply (f_equal (@rev Z)) in Hpost. rewrite rev_involutive, rev_app_distr in Hpost.
    pose proof (trim_start_matches_head 46 s) as Ht. fold t in Ht. rewrite Hpost in Ht.
    by destruct (rev (trim_start_matches 46 (rev t))).
  - rewrite last_rev. apply trim_start_matches_head.
Qed.

Lemma trim_matches_id s : bare s → trim_matches 46 s = s.
Proof.
  intros [Hh Hl]. unfold trim_matches, trim_end_matches. rewrite (trim_start_matches_id 46 s) by done.
  rewrite trim_start_matches_id by (by rewrite head_rev). apply rev_involutive.
Qed.

(** The names [sanitize] gives: one visible path component that names a policy
    file. *)
Definition name_ok (n : str) : Prop :=
  Forall (λ c, name_char c = true) n ∧ bare n ∧ ∃ ext, extension n = Some ext ∧ is_policy_ext ext = true.

Lemma filter_id {A} (p : A → bool) l : Forall (λ x, p x = true) l → List.filter p l = l.
Proof. induction 1 as [|x l Hx _ IH]; simpl; [done|]. by rewrite Hx, IH. Qed.

Lemma extension_ne n ext : extension n = Some ext → n ≠ [].
Proof. by intros He ->. Qed.

Lemma extension_app stem ext : stem ≠ [] → 46 ∉ ext → extension (stem ++ 46 :: ext) = Some ext.
Proof.
  intros Hs He. unfold extension. rewrite (proj2 (rsplit_once_Some 46 _ stem ext)) by done.
  cbn [mbind option_bind]. by rewrite decide_False.
Qed.

Lemma sanitize_ok name : name_ok (sanitize name).
Proof.
  unfold sanitize. set (stem := trim_matches 46 (List.filter name_char name)).
  assert (Forall (λ c, name_char c = true) stem) as Hc.
  { destruct (trim_matches_sub 46 (List.filter name_char name)) as (pre & post & Hf). fold stem in Hf.
    apply Forall_forall. intros c Hin. assert (c ∈ List.filter name_char name) as Hc.
    { rewrite Hf. apply elem_of_app. right. apply elem_of_app. by left. }
    apply list_elem_of_In, filter_In in Hc. by destruct Hc. }
  pose proof (trim_matches_bare (List.filter name_char name)) as Hb. fold stem in Hb.
  case_decide as He.
  - split; [|split; [by vm_compute|exists (of_string "toml"); by vm_compute]]. forall_list_by ltac:(by vm_compute).
  - destruct (extension stem) as [ext|] eqn:Hext; simpl; [destruct (is_policy_ext ext) eqn:Hp|].
    { split; [done|]. split; [done|]. by exists ext. }
    all: split; [apply Forall_app; split; [done|]; forall_list_by ltac:(by vm_compute)|].
    all: split; [split; [destruct stem; [done|]; apply Hb|
                          change (last (stem ++ of_string ".tom" ++ [108]) ≠ Some 46);
                            by rewrite app_assoc, last_snoc]|].
    all: exists (of_string "toml"); split; [apply (extension_app stem (of_string "toml")); [done|by_decide]|done].
Qed.

Lemma sanitize_id n : name_ok n → sanitize n = n.
Proof.
  intros (Hc & Hb & ext & He & Hp). unfold sanitize. rewrite (filter_id _ _ Hc), (trim_matches_id _ Hb), He.
  rewrite decide_False by (by eapply extension_ne). simpl. by rewrite Hp.
Qed.

Lemma policy_ext_lower ext : is_policy_ext ext = true → to_ascii_lowercase ext = ext.
Proof.
  unfold is_policy_ext. rewrite !orb_true_iff, !str_eqb_eq. by intros [[->| ->]| ->]; vm_compute.
Qed.

Lemma name_ok_policy_file n : name_ok n → is_policy_file n = true.
Proof.
  intros (_ & _ & ext & He & Hp). unfold is_policy_file. rewrite He. by rewrite policy_ext_lower.
Qed.

(** ** What a restart reads *)

(** The documents under the names they are cached as, in file name order. *)
Definition doc_le (a b : str * str) : bool := str_le a.1 b.1.
Definition renamed (documents : list (str * str)) : list (str * str) :=
  map (λ doc, (sanitize doc.1, doc.2)) documents.
Definition cached_documents (documents : list (str * str)) : list (str * str) :=
  sort_by doc_le (renamed documents).

Lemma doc_le_sorted documents : StronglySorted (λ a b, doc_le a b = true) (sort_by doc_le documents).
Proof. apply sort_by_sorted; unfold doc_le; intros; [apply str_le_total|by eapply str_le_trans]. Qed.

Lemma staged_lookup documents (left : Dirents) name text :
  NoDup (renamed documents).*1 → (name, text) ∈ renamed documents →
  staged left documents !! name = Some (as_bytes text).
Proof.
  unfold staged. revert left. induction documents as [|[n t] documents IH]; intros left Hnd Hin; [by apply elem_of_nil in Hin|].
  cbn [renamed map fst snd fmap list_fmap fold_left] in *. apply NoDup_cons in Hnd as [Hn Hnd].
  apply elem_of_cons in Hin as [[= -> ->]|Hin]; [|by apply IH].
  clear IH. assert (∀ m : Dirents, m !! sanitize n = Some (as_bytes t) →
    fold_left (λ d doc, <[sanitize doc.1 := as_bytes doc.2]> d) documents m !! sanitize n = Some (as_bytes t)) as Hkeep.
  { clear Hnd. induction documents as [|[n' t'] documents IH]; intros m Hm; [done|].
    cbn [renamed map fst snd fmap list_fmap fold_left] in *. apply not_elem_of_cons in Hn as [Hne Hn].
    apply IH; [done|]. by rewrite lookup_insert_ne. }
  apply Hkeep. apply lookup_insert_eq.
Qed.

Lemma staged_dom documents (left : Dirents) name :
  is_Some (staged left documents !! name) ↔ is_Some (left !! name) ∨ name ∈ (renamed documents).*1.
Proof.
  unfold staged. revert left. induction documents as [|[n t] documents IH]; intros left;
    cbn [renamed map fst snd fmap list_fmap fold_left].
  - rewrite elem_of_nil. naive_solver.
  - rewrite IH, lookup_insert_is_Some', elem_of_cons. naive_solver.
Qed.

Lemma key_in_list (d : Dirents) name : name ∈ (map_to_list d).*1 ↔ is_Some (d !! name).
Proof.
  rewrite list_elem_of_fmap. split.
  - intros ([n b] & -> & Hb%elem_of_map_to_list). by exists b.
  - intros [b Hb]. exists (name, b). split; [done|]. by apply elem_of_map_to_list.
Qed.

(** Which files of the cached set are loaded, in which order. *)
Lemma policy_files_staged documents :
  NoDup (renamed documents).*1 → policy_files (staged ∅ documents) = (cached_documents documents).*1.
Proof.
  intros Hnd. apply (StronglySorted_unique_strong (λ a b, str_le a b = true)).
  - intros a b _ _. apply str_le_antisym.
  - apply sort_by_sorted; intros; [apply str_le_total|by eapply str_le_trans].
  - pose proof (doc_le_sorted (renamed documents)) as Hs. fold (cached_documents documents) in Hs.
    induction Hs as [|x l Hl IH Hx]; simpl; constructor; [done|]. by apply Forall_map.
  - unfold policy_files, cached_documents. rewrite !sort_by_perm. rewrite filter_id.
    + apply NoDup_Permutation; [apply NoDup_fst_map_to_list|done|].
      intros n. rewrite key_in_list, staged_dom, lookup_empty. split; [|by right].
      by intros [[? ?]|?].
    + apply Forall_forall. intros n Hn. apply key_in_list, staged_dom in Hn. rewrite lookup_empty in Hn.
      destruct Hn as [[? ?]|Hn]; [done|]. apply list_elem_of_fmap in Hn as (doc & -> & Hdoc).
      apply list_elem_of_fmap in Hdoc as (doc' & -> & _). apply name_ok_policy_file, sanitize_ok.
Qed.

(** Reading the files back gives the documents. *)
Lemma read_documents_done dir (d : Dirents) (fs : Fs) documents :
  fs !! dir = Some (Dir d) →
  Forall (λ doc, chars_ok doc.2 ∧ d !! doc.1 = Some (as_bytes doc.2)) documents →
  read_documents dir documents.*1 fs [] = (Returned (Ok documents), fs, []).
Proof.
  intros Hdir. induction 1 as [|[name text] documents [Hc Hd] _ IH]; [done|]. cbn [fst snd] in *.
  cbn [fmap list_fmap fst read_documents]. unfold mbind at 1, io_mbind, io_bind, context at 1, fs_read_in, prim.
  cbn [tail]. rewrite Hdir, Hd. cbn [ok_or fmap result_fmap].
  unfold mbind, io_of. rewrite from_utf8_as_bytes by done. cbn [ok_or]. by rewrite IH.
Qed.

Section restart.
Context {TomlError YamlError : Type}.
Context (toml : str → result TomlError RawPolicy) (yaml : str → result YamlError YamlDoc).

Lemma load_cached (fs : Fs) documents :
  NoDup (renamed documents).*1 → Forall (λ doc, chars_ok doc.2) documents → documents ≠ [] →
  fs !! POLICIES = Some (Dir (staged ∅ documents)) →
  load_dir toml yaml POLICIES fs [] = (Returned (load_documents toml yaml (cached_documents documents)), fs, []).
Proof.
  intros Hnd Hc Hne Hdir. unfold load_dir, mbind at 1, io_mbind, io_bind, context, fs_read_dir, prim.
  cbn [tail]. rewrite Hdir, policy_files_staged by done.
  assert (renamed documents ≡ₚ cached_documents documents) as Hperm by (symmetry; apply sort_by_perm).
  rewrite decide_False.
  2: { intros Hnil. apply fmap_nil_inv in Hnil. rewrite Hnil in Hperm. symmetry in Hperm.
       apply Permutation_nil_l in Hperm. by destruct documents. }
  unfold load_files, mbind, io_mbind, io_bind.
  rewrite (read_documents_done _ (staged ∅ documents)); [done|done|].
  rewrite <- Hperm. apply Forall_forall. intros [n t] Hin. split; [|by apply staged_lookup].
  apply list_elem_of_fmap in Hin as (doc & Heq & Hin). injection Heq as _ ->.
  rewrite Forall_forall in Hc. exact (Hc _ Hin).
Qed.

Lemma from_documents_perm docs docs' ps :
  docs ≡ₚ docs' → from_documents toml yaml docs = Ok ps →
  ∃ ps', from_documents toml yaml docs' = Ok ps' ∧ ps' ≡ₚ ps.
Proof.
  intros Hp [HF Hnd]%from_documents_Ok. destruct (Permutation_Forall2 Hp HF) as (ps' & Hps & HF').
  exists ps'. split; [|done]. apply from_documents_Ok. split; [done|]. by rewrite <- Hps.
Qed.
End restart.

(** ** Invariants of the disk *)

Definition io_inv {A : Type} (P : Fs → Prop) (m : Io A) : Prop := io_spec P m (λ _, P) P.

Lemma inv_bind {A B : Type} (P : Fs → Prop) (m : Io A) (k : A → Io B) :
  io_inv P m → (∀ a, io_inv P (k a)) → io_inv P (m ≫= k).
Proof. intros Hm Hk. by eapply io_bind_spec. Qed.
Lemma inv_of {A : Type} (P : Fs → Prop) (r : result error A) : io_inv P (io_of r).
Proof. by apply io_of_spec. Qed.
Lemma inv_attempt {A : Type} (P : Fs → Prop) (m : Io A) : io_inv P m → io_inv P (attempt m).
Proof. intros Hm fs fates HP. specialize (Hm fs fates HP). unfold attempt. by destruct (m fs fates) as [[[r|] fs'] rest]. Qed.
Lemma inv_context {A : Type} msg (P : Fs → Prop) (m : Io A) : io_inv P m → io_inv P (context msg m).
Proof. intros Hm. by apply context_spec. Qed.
Lemma inv_prim {A : Type} (P : Fs → Prop) (full : Fs → result error (A * Fs)) partial :
  (∀ fs a fs', P fs → full fs = Ok (a, fs') → P fs') → (∀ p fs, P fs → P (partial p fs)) →
  io_inv P (prim full partial).
Proof.
  intros Hf Hp. apply prim_spec; [|by intros p fs HP; split; apply Hp].
  intros fs HP. destruct (full fs) as [[a fs']|e] eqn:Hr; [by eapply Hf|done].
Qed.

Create HintDb io.
#[export] Hint Resolve inv_bind inv_of inv_attempt inv_context : io.

(** ** Runs in which nothing fails *)

Definition io_done {A : Type} (P : Fs → Prop) (m : Io A) (Q : A → Fs → Prop) : Prop :=
  ∀ fs, P fs → ∃ a fs', m fs [] = (Returned (Ok a), fs', []) ∧ Q a fs'.

Lemma done_ret {A : Type} (P : Fs → Prop) (a : A) (Q : A → Fs → Prop) :
  (∀ fs, P fs → Q a fs) → io_done P (mret a) Q.
Proof. intros HQ fs HP. exists a, fs. split; [done|by apply HQ]. Qed.

Lemma done_bind {A B : Type} (P : Fs → Prop) (m : Io A) (k : A → Io B) (R : A → Fs → Prop) (Q : B → Fs → Prop) :
  io_done P m R → (∀ a, io_done (R a) (k a) Q) → io_done P (m ≫= k) Q.
Proof.
  intros Hm Hk fs HP. destruct (Hm fs HP) as (a & fs' & Hrun & HR). destruct (Hk a fs' HR) as (b & fs'' & Hrun' & HQ).
  exists b, fs''. split; [|done]. unfold mbind, io_mbind, io_bind. by rewrite Hrun.
Qed.

Lemma done_prim {A : Type} (P : Fs → Prop) (full : Fs → result error (A * Fs)) partial (Q : A → Fs → Prop) :
  (∀ fs, P fs → ∃ a fs', full fs = Ok (a, fs') ∧ Q a fs') → io_done P (prim full partial) Q.
Proof. intros Hf fs HP. destruct (Hf fs HP) as (a & fs' & Hrun & HQ). exists a, fs'. unfold prim. by rewrite Hrun. Qed.

Lemma done_context {A : Type} msg (P : Fs → Prop) (m : Io A) (Q : A → Fs → Prop) :
  io_done P m Q → io_done P (context msg m) Q.
Proof.
  intros Hm fs HP. destruct (Hm fs HP) as (a & fs' & Hrun & HQ). exists a, fs'. split; [|done].
  unfold context. by rewrite Hrun.
Qed.

Lemma done_attempt {A : Type} (P : Fs → Prop) (full : Fs → result error (A * Fs)) partial (Q : result error A → Fs → Prop) :
  (∀ fs, P fs → match full fs with Ok (a, fs') => Q (Ok a) fs' | Err e => Q (Err e) fs end) →
  io_done P (attempt (prim full partial)) Q.
Proof.
  intros Hf fs HP. specialize (Hf fs HP). unfold attempt, prim.
  destruct (full fs) as [[a fs']|e]; by do 2 eexists.
Qed.

(** No file stands where the cache has a directory, and none of the entries of
    the state directory is a directory where the cache has a file. *)
Definition layout_ok (fs : Fs) : Prop :=
  (∀ b, fs !! STAGING ≠ Some (File b)) ∧ (∀ b, fs !! POLICIES ≠ Some (File b)) ∧
  (∀ d, fs !! CACHE_META ≠ Some (Dir d)).

Lemma write_documents_done documents (d : Dirents) :
  io_done (λ fs, layout_ok fs ∧ fs !! STAGING = Some (Dir d)) (write_documents documents)
    (λ _ fs, layout_ok fs ∧ fs !! STAGING = Some (Dir (staged d documents))).
Proof.
  revert d. induction documents as [|[name text] documents IH]; intros d; cbn [write_documents]; [by apply done_ret|].
  eapply (done_bind _ _ _ (λ _ fs, layout_ok fs ∧ fs !! STAGING = Some (Dir (<[sanitize name := as_bytes text]> d))));
    [|intros ?; apply IH].
  apply done_context, done_prim. intros fs [(H1 & H2 & H3) Hs]. rewrite Hs.
  do 2 eexists. split; [done|]. unfold layout_ok. lookups. split_and!; by intros.
Qed.

Section cache_done.
Context `{Serde CacheMeta}.

Lemma cache_policy_done (now_ms v : Z) documents :
  io_done layout_ok (cache_policy now_ms v documents)
    (λ _ fs, layout_ok fs ∧ fs !! POLICIES = Some (Dir (staged ∅ documents)) ∧
             fs !! CACHE_META = Some (File (to_vec (mkCacheMeta v now_ms)))).
Proof.
  unfold cache_policy, cache_staged.
  eapply (done_bind _ _ _ (λ _ fs, layout_ok fs ∧ fs !! STAGING = None)).
  { apply done_attempt. intros fs Hl. pose proof Hl as (H1 & H2 & H3).
    destruct (fs !! STAGING) as [[b|d]|] eqn:Hs; [by destruct (H1 b)| |done].
    unfold layout_ok. lookups. split_and!; by intros. }
  intros ?. eapply (done_bind _ _ _ (λ _ fs, layout_ok fs ∧ fs !! STAGING = Some (Dir ∅))).
  { apply done_context, done_prim. intros fs [(H1 & H2 & H3) Hs]. rewrite Hs. do 2 eexists. split; [done|].
    unfold layout_ok. lookups. split_and!; by intros. }
  intros ?. eapply done_bind; [apply write_documents_done|]. intros ?.
  eapply (done_bind _ _ _ (λ _ fs, layout_ok fs ∧ fs !! STAGING = Some (Dir (staged ∅ documents)) ∧ fs !! POLICIES = None)).
  { apply done_attempt. intros fs [Hl Hs]. pose proof Hl as (H1 & H2 & H3).
    destruct (fs !! POLICIES) as [[b|d]|] eqn:Hp; [by destruct (H2 b)| |done].
    unfold layout_ok. lookups. rewrite Hs. split_and!; by intros. }
  intros ?. eapply (done_bind _ _ _ (λ _ fs, layout_ok fs ∧ fs !! POLICIES = Some (Dir (staged ∅ documents)))).
  { apply done_context, done_prim. intros fs ((H1 & H2 & H3) & Hs & Hp). rewrite Hs, Hp. do 2 eexists.
    split; [done|]. unfold layout_ok. lookups. split_and!; by intros. }
  intros ?. eapply done_bind; [|intros ?; apply done_ret; intros fs Hfs; exact Hfs].
  apply done_attempt. intros fs [(H1 & H2 & H3) Hp].
  assert (layout_ok (<[CACHE_META := File (to_vec (mkCacheMeta v now_ms))]> fs)) as Hl.
  { unfold layout_ok. lookups. split_and!; by intros. }
  destruct (fs !! CACHE_META) as [[b|d]|] eqn:Hm; [|by destruct (H3 d)|]; (split; [done|]); lookups; by split.
Qed.
(** The layout is kept by every call of [cache_policy], whatever becomes of it. *)
Ltac layout_cases :=
  repeat match goal with
  | H : context [match ?x with _ => _ end] |- _ => destruct x eqn:?
  | |- context [match ?x with _ => _ end] => destruct x eqn:?
  end; simplify_eq; unfold layout_ok in *; lookups;
  try (split_and!; intros ? ?; first [congruence|naive_solver]).

Lemma layout_kept (now_ms v : Z) documents : io_inv layout_ok (cache_policy now_ms v documents).
Proof.
  assert (∀ name b, io_inv layout_ok (fs_write_in STAGING name b)) as Hw.
  { intros name b. apply inv_prim.
    - intros fs x fs' (H1 & H2 & H3) Hr. layout_cases.
    - intros p fs (H1 & H2 & H3). unfold torn. layout_cases. }
  assert (∀ d, d = STAGING ∨ d = POLICIES → io_inv layout_ok (fs_remove_dir_all d)) as Hrm.
  { intros d Hd. apply inv_prim.
    - intros fs x fs' (H1 & H2 & H3) Hr. destruct Hd as [-> | ->]; layout_cases.
    - intros p fs (H1 & H2 & H3). destruct Hd as [-> | ->]; layout_cases. }
  assert (io_inv layout_ok (write_documents documents)) as Hdocs.
  { induction documents as [|[name text] documents IH]; cbn [write_documents]; eauto with io. }
  unfold cache_policy, cache_staged.
  apply inv_bind; [apply inv_attempt, Hrm; by left|intros ?].
  apply inv_bind; [|intros ?; apply inv_bind; [done|intros ?; apply inv_bind; [apply inv_attempt, Hrm; by right|intros ?]]].
  { apply inv_context, inv_prim; [|done]. intros fs x fs' (H1 & H2 & H3) Hr. layout_cases. }
  apply inv_bind; [|intros ?; apply inv_bind; [|intros ?; apply inv_of]].
  - apply inv_context, inv_prim; [|done]. intros fs x fs' (H1 & H2 & H3) Hr. layout_cases.
  - apply inv_attempt, inv_prim.
    + intros fs x fs' (H1 & H2 & H3) Hr. layout_cases.
    + intros p fs (H1 & H2 & H3). unfold torn. layout_cases.
Qed.
End cache_done.

(** ** Replacing a file *)

(** Writing beside a file and renaming over it: it is the new file if that
    returned, and the old one otherwise, whatever was cut short. *)
Definition swapped (old : option node) (bytes : data) (r : option (result error unit)) (now : option node) : Prop :=
  match r with
  | Some (Ok _) => now = Some (File bytes)
  | _ => now = old
  end.

Lemma write_beside_spec msg (staging target : str) (bytes : data) (old : option node) :
  staging ≠ target →
  io_spec (λ fs, fs !! target = old) (context msg (fs_write staging bytes))
    (λ r fs, fs !! target = old ∧ match r with Ok _ => fs !! staging = Some (File bytes) | Err _ => True end)
    (λ fs, fs !! target = old).
Proof.
  intros Hne. apply context_spec; [|by intros e e' fs []]. apply prim_spec.
  - intros fs Hold. destruct (fs !! staging) as [[b|d]|]; [| done|];
      by rewrite lookup_insert_ne, lookup_insert_eq by done.
  - intros p fs Hold. unfold torn. destruct (fs !! staging) as [[b|d]|], (written p) as [n|]; try done;
      by rewrite lookup_insert_ne by done.
Qed.

Lemma rename_over_spec msg (staging target : str) (bytes : data) (old : option node) :
  io_spec (λ fs, fs !! target = old ∧ fs !! staging = Some (File bytes)) (context msg (fs_rename staging target))
    (λ r fs, swapped old bytes (Some r) (fs !! target)) (λ fs, fs !! target = old).
Proof.
  apply context_spec; [|done]. apply prim_spec; [|by intros p fs []].
  intros fs [Hold Hst]. rewrite Hst, Hold. destruct old as [[b|d]|]; [|done|]; by simpl; rewrite lookup_insert_eq.
Qed.

Lemma swap_spec msg1 msg2 msg3 (staging target : str) (bytes : data) (old : option node) :
  staging ≠ target →
  io_spec (λ fs, fs !! target = old)
    (_ ← context msg1 fs_create_state_dir; _ ← context msg2 (fs_write staging bytes);
     context msg3 (fs_rename staging target))
    (λ r fs, swapped old bytes (Some r) (fs !! target)) (λ fs, fs !! target = old).
Proof.
  intros Hne. eapply (io_bind_spec _ _ _ (λ _ fs, fs !! target = old)); [|intros []|done].
  { apply context_spec; [|done]. by apply prim_spec. }
  eapply io_bind_spec; [by apply write_beside_spec| |by intros e fs []].
  intros []. apply rename_over_spec.
Qed.

(** Reading the file back, before or after the swap. *)
Definition read_list {A : Type} `{Serde A} (file : str) : Io (option A) :=
  bytes ← attempt (fs_read file);
  mret (decode_file bytes).

Lemma swap_load {A : Type} `{SerdeLaws A} msg1 msg2 msg3 (staging target : str) (a : A) (fs : Fs) fates :
  staging ≠ target →
  let '(o, fs', _) :=
    (_ ← context msg1 fs_create_state_dir; _ ← context msg2 (fs_write staging (to_vec a));
     context msg3 (fs_rename staging target)) fs fates in
  (read_list target fs' []).1.1 =
    match o with Returned (Ok _) => Returned (Ok (Some a)) | _ => (read_list (A := A) target fs []).1.1 end.
Proof.
  intros Hne. pose proof (swap_spec msg1 msg2 msg3 staging target (to_vec a) (fs !! target) Hne fs fates eq_refl) as Hs.
  destruct ((context msg1 fs_create_state_dir ≫= _) fs fates) as [[[[[]|e]|] fs'] rest]; simpl in Hs;
    cbv [read_list mbind io_mbind io_bind attempt fs_read prim]; rewrite Hs; simpl.
  - by rewrite from_to.
  - by destruct (fs !! target) as [[]|].
  - by destruct (fs !! target) as [[]|].
Qed.

(** ** Correctness *)


(** The caches that are one file are replaced atomically: after any run of
    [cache_revocations] or [write_cache], cut short anywhere, the next start reads
    the list that was cached before or the new one, and the new one if the call
    returned with success. *)
Theorem list_caches_atomic `{SerdeLaws RevocationsResponse, SerdeLaws TenantList} (revs : RevocationsResponse)
    (tenants : TenantList) (fs : Fs) (fates : list fate) :
  (let '(o, fs', _) := cache_revocations revs fs fates in
   (load_cached_revocations fs' []).1.1 =
     match o with Returned (Ok _) => Returned (Ok (Some revs)) | _ => (load_cached_revocations fs []).1.1 end) ∧
  (let '(o, fs', _) := write_cache tenants fs fates in
   (load_cache fs' []).1.1 =
     match o with Returned (Ok _) => Returned (Ok (Some tenants)) | _ => (load_cache fs []).1.1 end).
Proof.
  split; by apply swap_load; names_ne.
Qed.

(** A policy revision survives a restart: if its documents have canonical,
    distinct names and load, then what the next start reads after the revision was
    cached loads too, to the same policies, and in the same order if the documents
    were sent in name order. *)
Theorem restart_reads_cache `{Serde CacheMeta} {TomlError YamlError : Type}
    (toml : str → result TomlError RawPolicy) (yaml : str → result YamlError YamlDoc) (now_ms version : Z)
    (documents : list (str * str)) (fs fs' : Fs) (fates rest : list fate) (ps : PolicySet) :
  Forall (λ doc, sanitize doc.1 = doc.1 ∧ chars_ok doc.2) documents → NoDup documents.*1 → documents ≠ [] →
  (∀ p, head fates ≠ Some (Fails p)) →
  cache_policy now_ms version documents fs fates = (Returned (Ok tt), fs', rest) →
  from_documents toml yaml documents = Ok ps →
  ∃ ps', load_dir toml yaml POLICIES fs' [] = (Returned (Ok ps'), fs', []) ∧ ps' ≡ₚ ps ∧
    (StronglySorted (λ a b, doc_le a b = true) documents → ps' = ps).
Proof.
  intros Hok Hnd Hne Hf (left & _ & Hleft & Hdir)%cache_policy_outcome Hps.
  rewrite Hleft in Hdir by done.
  assert (renamed documents = documents) as Hren.
  { clear -Hok. induction Hok as [|[n t] documents [Hn _] _ IH]; [done|]. cbn [renamed map fst snd] in *.
    unfold renamed in IH. by rewrite Hn, IH. }
  rewrite (load_cached toml yaml fs' documents); [|by rewrite Hren| |done|done].
  2: { eapply Forall_impl; [exact Hok|]. by intros doc []. }
  unfold load_documents, cached_documents. rewrite Hren.
  destruct (from_documents_perm toml yaml documents (sort_by doc_le documents) ps) as (ps' & Hps' & Hp).
  { symmetry. apply sort_by_perm. } { done. }
  exists ps'. rewrite Hps'. split; [done|]. split; [done|].
  intros Hs. rewrite sort_by_id in Hps' by done. congruence.
Qed.

(** The control plane cannot steer a write outside the policy directory: whatever
    it names a document, the file is one path component with no separator that is
    not hidden, and one the next start loads; a name that is already such a
    component is kept. *)
Theorem sanitize_confined (name : str) :
  sanitize name ≠ [] ∧ 47 ∉ sanitize name ∧ head (sanitize name) ≠ Some 46 ∧
  is_policy_file (sanitize name) = true ∧ sanitize (sanitize name) = sanitize name.
Proof.
  pose proof (sanitize_ok name) as Hok. pose proof Hok as (Hc & [Hh _] & ext & He & _). split_and!.
  - by eapply extension_ne.
  - rewrite Forall_forall in Hc. intros Hin. by specialize (Hc _ Hin).
  - done.
  - by apply name_ok_policy_file.
  - by apply sanitize_id.
Qed.

(** ** Examples and witnesses *)

(** An encoding of a countable type, to show that the law of [Serde] can hold. *)
Definition count_serde (A : Type) `{Countable A} : Serde A := {|
  to_vec := λ a, [Z.pos (countable.encode a)];
  from_slice := λ b, match b with [Z.pos p] => countable.decode p | _ => None end |}.
Lemma count_serde_laws (A : Type) `{Countable A} : @SerdeLaws A (count_serde A).
Proof. intros a. cbn. apply decode_encode. Qed.

#[global] Instance revoked_session_eq_dec : EqDecision RevokedSession.
Proof. solve_decision. Defined.
#[global] Instance revoked_session_countable : Countable RevokedSession.
Proof. by refine (inj_countable' (λ r, (rs_sid r, expires_at_ms r)) (λ p, mkRevokedSession p.1 p.2) _); intros []. Defined.
#[global] Instance revocations_eq_dec : EqDecision RevocationsResponse.
Proof. solve_decision. Defined.
#[global] Instance revocations_countable : Countable RevocationsResponse.
Proof. by refine (inj_countable' (λ r, (generation r, revoked_list r)) (λ p, mkRevocations p.1 p.2) _); intros []. Defined.
#[global] Instance signing_key_eq_dec : EqDecision SigningKey.
Proof. solve_decision. Defined.
#[global] Instance signing_key_countable : Countable SigningKey.
Proof.
  by refine (inj_countable' (λ k, (algorithm k, public_key_b64 k, previous_public_key_b64 k))
    (λ p, mkSigningKey p.1.1 p.1.2 p.2) _); intros [].
Defined.
#[global] Instance platform_tenant_eq_dec : EqDecision PlatformTenant.
Proof. solve_decision. Defined.
#[global] Instance platform_tenant_countable : Countable PlatformTenant.
Proof.
  by refine (inj_countable' (λ t, (pt_org_id t, pt_slug t, pt_owners t, pt_owner_ids t, pt_policy t, pt_signing_key t))
    (λ p, mkPlatformTenant p.1.1.1.1.1 p.1.1.1.1.2 p.1.1.1.2 p.1.1.2 p.1.2 p.2) _); intros [].
Defined.
#[global] Instance tenant_list_eq_dec : EqDecision TenantList.
Proof. solve_decision. Defined.
#[global] Instance tenant_list_countable : Countable TenantList.
Proof. by refine (inj_countable' (λ l, (list_version l, list_tenants l)) (λ p, mkTenantList p.1 p.2) _); intros []. Defined.

Definition ended_list : RevocationsResponse := mkRevocations 4 [mkRevokedSession (of_string "sess_1") 10].

Lemma list_caches_atomic_witness :
  let _ := count_serde RevocationsResponse in let _ := count_serde TenantList in
  (let '(o, fs', _) := cache_revocations ended_list ∅ [Done; Dies (mkProgress ∅ (Some 1%nat))] in
   (load_cached_revocations fs' []).1.1 =
     match o with Returned (Ok _) => Returned (Ok (Some ended_list)) | _ => (load_cached_revocations ∅ []).1.1 end) ∧
  (let '(o, fs', _) := write_cache acme_list ∅ [Done; Dies (mkProgress ∅ (Some 1%nat))] in
   (load_cache fs' []).1.1 =
     match o with Returned (Ok _) => Returned (Ok (Some acme_list)) | _ => (load_cache ∅ []).1.1 end).
Proof.
  exact (@list_caches_atomic (count_serde RevocationsResponse) (count_serde_laws RevocationsResponse)
    (count_serde TenantList) (count_serde_laws TenantList) ended_list acme_list ∅
    [Done; Dies (mkProgress ∅ (Some 1%nat))]).
Defined.

Definition sample_meta_serde : Serde CacheMeta := {|
  to_vec := λ m, [meta_version m; fetched_at_ms m];
  from_slice := λ b, match b with [v; t] => Some (mkCacheMeta v t) | _ => None end |}.
Definition cache_docs : list (str * str) := [(of_string "guard.toml", of_string "guard"); (of_string "web.yaml", of_string "web")].
Definition cached_fs : Fs := (cache_policy (H := sample_meta_serde) 5 1 cache_docs ∅ []).1.2.
Definition web_docs : list (str * str) := [(of_string "web.yaml", of_string "web")].

(** The process dies while the old revision is being removed: [guard.toml] is
    gone, [web.yaml] is still there. *)
Definition cut_fates : list fate :=
  [Done; Done; Done; Dies (mkProgress {[of_string "guard.toml"]} None)].

(** A run, from its outcome and the fates left. *)
Lemma run_eta {A} (x : outcome A * Fs * list fate) o rest : x.1.1 = o → x.2 = rest → x = (o, x.1.2, rest).
Proof. destruct x as [[? ?] ?]. by intros <- <-. Qed.


Lemma restart_reads_cache_witness :
  ∃ fs' ps, cache_policy (H := sample_meta_serde) 5 1 cache_docs ∅ [] = (Returned (Ok tt), fs', []) ∧
    from_documents sample_toml sample_yaml cache_docs = Ok ps ∧ length ps = 2%nat ∧
    ∃ ps', load_dir sample_toml sample_yaml POLICIES fs' [] = (Returned (Ok ps'), fs', []) ∧ ps' ≡ₚ ps ∧
      (StronglySorted (λ a b, doc_le a b = true) cache_docs → ps' = ps).
Proof.
  exists cached_fs.
  destruct (from_documents sample_toml sample_yaml cache_docs) as [ps|e] eqn:Hps; [|by vm_compute in Hps].
  assert (cache_policy (H := sample_meta_serde) 5 1 cache_docs ∅ [] = (Returned (Ok tt), cached_fs, [])) as Hrun
    by (apply run_eta; by vm_compute).
  exists ps. split; [exact Hrun|]. split; [reflexivity|].
  split; [by vm_compute in Hps; injection Hps as <-|].
  apply (@restart_reads_cache sample_meta_serde unit unit sample_toml sample_yaml 5 1 cache_docs ∅ cached_fs [] [] ps).
  - forall_list_by ltac:(split; [by vm_compute|by_decide]).
  - by_decide.
  - done.
  - done.
  - exact Hrun.
  - exact Hps.
Defined.

(** The removal of the old revision is not atomic: a crash in the middle of it
    leaves part of the old policies, and the next start loads them as the policy
    set.  Here the guardrail of the set is lost. *)
Lemma removal_cut_short :
  ∃ fs', cache_policy (H := sample_meta_serde) 6 2 web_docs cached_fs cut_fates = (Died, fs', []) ∧
    (load_dir sample_toml sample_yaml POLICIES cached_fs []).1.1 ≠ (load_dir sample_toml sample_yaml POLICIES fs' []).1.1 ∧
    ∃ p, (load_dir sample_toml sample_yaml POLICIES fs' []).1.1 = Returned (Ok [p]) ∧ p_name p = of_string "web".
Proof.
  eexists. split; [apply run_eta; by vm_compute|]. split; [by vm_compute|]. eexists. by split; vm_compute.
Qed.

(** Two documents whose names differ only in characters the cache drops become
    one file: a set of two policies is cached as a set of one. *)
Lemma names_collide :
  let docs := [(of_string "eu/web.toml", of_string "guard"); (of_string "euweb.toml", of_string "other")] in
  map_to_list (staged ∅ docs) = [(of_string "euweb.toml", of_string "other")].
Proof. by vm_compute. Qed.

(** A revision with a document [web.YML] loads when it is pulled, and is cached
    as [web.YML.toml], which the next start reads as TOML. *)
Lemma upper_case_extension :
  sanitize (of_string "web.YML") = of_string "web.YML.toml" ∧
  is_ok (from_documents sample_toml sample_yaml sample_docs) = true ∧
  is_ok (from_documents sample_toml sample_yaml (cached_documents sample_docs)) = false.
Proof. by split_and!; vm_compute. Qed.
