(* ===== verification/ControlSync.v ===== *)
(** * Staying in step with the control plane

    Model of the polling side of [crates/skimasque-cli/src/control.rs], of the
    loops of [crates/skimasque-cli/src/bin/skimasque-server.rs] that keep a
    gateway's policy and revoked sessions current, and of the same for the tenants
    of a platform gateway ([crates/skimasque-cli/src/platform.rs]).

    The control plane is a parameter of each turn of a loop: a function from the
    request to the answer, or the error when there was none.  What a turn writes
    to disk goes through [StateDir.Io], so that every theorem covers a disk that
    fails and a process that dies.  Instants and durations are in nanoseconds;
    the clock's readings are in the events. *)

From S2P Require Import Prelude RustStr RustNet PolicyDest PolicyUnits PolicyModel PolicyEval PolicyParse.
From S2P Require Import Identity Credential Tenant Platform Service Revocation StateDir.

(** ** How stale the enforced policy is *)

Inductive Freshness : Type := Fresh | Stale | Expired.
#[global] Instance Freshness_eq_dec : EqDecision Freshness.
Proof. solve_decision. Defined.

Record SyncState : Type := mkSyncState {
  ss_version : Z;
  ss_healthy : bool;
  ss_origin : Z;
  last_contact_secs : Z;
  policy_lease : Duration;
  cache_ttl : Duration;
}.

(** [Instant::checked_sub]: [earliest] is the first instant the platform can
    represent. *)
Definition checked_sub_instant (earliest now d : Z) : option Z :=
  if earliest <=? now - d then Some (now - d) else None.

(** [SyncState::new], at the instant [now]. *)
Definition new_sync_state (earliest now : Z) (initial_version : option Z) (cache_age : option Duration)
    (lease ttl : Duration) : SyncState :=
  let cache_age := default ZERO cache_age in
  mkSyncState (default 0 initial_version) true (default now (checked_sub_instant earliest now cache_age)) 0
    lease ttl.

Definition set_version (v : Z) (s : SyncState) : SyncState :=
  mkSyncState v (ss_healthy s) (ss_origin s) (last_contact_secs s) (policy_lease s) (cache_ttl s).
Definition version (s : SyncState) : option Z := if ss_version s =? 0 then None else Some (ss_version s).

(** [origin.elapsed().as_secs()]. *)
Definition elapsed_secs (now : Z) (s : SyncState) : Z := as_secs (Z.max 0 (now - ss_origin s)).

Definition mark_contact (now : Z) (s : SyncState) : SyncState :=
  mkSyncState (ss_version s) true (ss_origin s) (elapsed_secs now s) (policy_lease s) (cache_ttl s).
Definition mark_unreachable (s : SyncState) : SyncState :=
  mkSyncState (ss_version s) false (ss_origin s) (last_contact_secs s) (policy_lease s) (cache_ttl s).

Definition policy_age (now : Z) (s : SyncState) : Duration :=
  PolicyUnits.from_secs (Z.max 0 (elapsed_secs now s - last_contact_secs s)).

Definition freshness (now : Z) (s : SyncState) : Freshness :=
  let age := policy_age now s in
  if cache_ttl s <=? age then Expired else if policy_lease s <=? age then Stale else Fresh.

(** The part of a heartbeat that speaks of the policy. *)
Definition heartbeat_healthy (now : Z) (s : SyncState) : bool :=
  ss_healthy s && bool_decide (freshness now s = Fresh).
Definition heartbeat_status (healthy : bool) : str := if healthy then "online" else "degraded".

Record PlatformHeartbeat : Type := mkPlatformHeartbeat {
  hb_status : str;
  tenants_version : option Z;
  usage_by_org : list (str * UsageSnapshot);
}.
Definition platform_heartbeat_request (healthy : bool) (version : option Z) (u : TenantUsage) : PlatformHeartbeat :=
  mkPlatformHeartbeat (heartbeat_status healthy) version (usage_snapshot u).

(** ** Requests and answers *)

Record Poll : Type := mkPoll { poll_url : str; if_none_match : option str }.
Record Response : Type := mkResponse { resp_status : Z; resp_body : data }.
Definition Peer : Type := Poll → result error Response.

Definition error_for_status (r : Response) (what : str) : result error Response :=
  if (200 <=? resp_status r) && (resp_status r <? 300) then Ok r else Err [what ++ of_string " failed"].

Definition result_context {A} (msg : str) (r : result error A) : result error A := map_err (cons msg) r.

Definition gateway_policy (id : str) : str := of_string "/v1/gateways/" ++ id ++ of_string "/policy".
Definition gateway_revocations (id : str) : str := of_string "/v1/gateways/" ++ id ++ of_string "/revocations".
Definition platform_tenants (id : str) : str := of_string "/v1/platform/gateways/" ++ id ++ of_string "/tenants".
Definition platform_revocations (id : str) : str :=
  of_string "/v1/platform/gateways/" ++ id ++ of_string "/revocations".

Definition wait_query (wait : option Duration) : option str :=
  (λ w, of_string "wait=" ++ to_string (as_secs w)) <$> wait.

(** The request of [fetch_policy] and [fetch_tenants]. *)
Definition etag (v : Z) : str := [34] ++ to_string v ++ [34].
Definition versioned_poll (url : str) (known : option Z) (wait : option Duration) : Poll :=
  mkPoll (match wait_query wait with Some q => url ++ of_string "?" ++ q | None => url end) (etag <$> known).

Definition join_amp (l : list str) : str :=
  match l with
  | [] => []
  | q :: l => q ++ concat (map (λ q, 38 :: q) l)
  end.
Definition revocations_poll (url : str) (known : option Z) (wait : option Duration) : Poll :=
  let query := omap id [(λ g, of_string "generation=" ++ to_string g) <$> known; wait_query wait] in
  mkPoll (if decide (query = []) then url else url ++ of_string "?" ++ join_amp query) None.

(** ** Fetching *)

Record PolicyResponse : Type := mkPolicyResponse { pr_version : Z; pr_documents : list (str * str) }.
Inductive PolicyFetch : Type :=
  | Unchanged
  | Updated (version : Z) (documents : list (str * str))
  | NoPolicy.
Inductive RevocationFetch : Type := RevUnchanged | RevUpdated (list : RevocationsResponse).
Inductive TenantFetch : Type := TenUpdated (list : TenantList) | TenUnchanged.

Section fetch.
Context `{Serde CacheMeta, Serde RevocationsResponse, Serde TenantList, Serde GatewayIdentity, Serde PolicyResponse}.

Definition fetch_policy (peer : Peer) (base_url : str) (identity : GatewayIdentity) (known : option Z)
    (wait : option Duration) (now_ms : Z) : Io PolicyFetch :=
  let poll := versioned_poll (base_url ++ gateway_policy (gateway_id identity)) known wait in
  response ← io_of (result_context (of_string "polling for policy") (peer poll));
  if resp_status response =? 304 then mret Unchanged
  else if resp_status response =? 204 then mret NoPolicy
  else
    response ← io_of (error_for_status response (of_string "policy poll"));
    body ← io_of (ok_or (from_slice (resp_body response)) [of_string "parsing the policy response"]);
    _ ← context (of_string "writing the policy cache") (cache_policy now_ms (pr_version body) (pr_documents body));
    mret (Updated (pr_version body) (pr_documents body)).

Definition fetch_revocations (peer : Peer) (base_url : str) (identity : GatewayIdentity) (platform : bool)
    (known : option Z) (wait : option Duration) : Io RevocationFetch :=
  let path := if platform then platform_revocations (gateway_id identity)
              else gateway_revocations (gateway_id identity) in
  response ← io_of (result_context (of_string "polling for revoked sessions")
                      (peer (revocations_poll (base_url ++ path) known wait)));
  if resp_status response =? 304 then mret RevUnchanged
  else
    response ← io_of (error_for_status response (of_string "revocation poll"));
    list ← io_of (ok_or (from_slice (resp_body response)) [of_string "parsing the revocation list"]);
    _ ← attempt (cache_revocations list);
    mret (RevUpdated list).

Definition fetch_tenants (peer : Peer) (base_url : str) (identity : GatewayIdentity) (known : option Z)
    (wait : option Duration) : result error TenantFetch :=
  let poll := versioned_poll (base_url ++ platform_tenants (gateway_id identity)) known wait in
  response ← result_context (of_string "polling for tenants") (peer poll);
  if resp_status response =? 304 then Ok TenUnchanged
  else
    response ← error_for_status response (of_string "tenant poll");
    TenUpdated <$> ok_or (from_slice (resp_body response)) [of_string "parsing the tenant list"].

(** ** The loops

    One turn per event; [slept] is what the turn waits before the next. *)

Definition BACKOFF_MIN : Duration := PolicyUnits.from_secs 1.
Definition BACKOFF_MAX : Duration := PolicyUnits.from_secs 60.
Definition next_backoff (b : Duration) : Duration := Z.min (2 * b) BACKOFF_MAX.

Record Turn : Type := mkTurn { turn_peer : Peer; turn_now : Z; turn_now_ms : Z }.

Section policy_loop.
Context {TomlError YamlError : Type}.
Context (toml : str → result TomlError RawPolicy) (yaml : str → result YamlError YamlDoc).
Context (base_url : str) (identity : GatewayIdentity) (interval : Duration).

Record PolicySync : Type := mkPolicySync { handle : PolicySet; sync : SyncState; backoff : Duration }.

Definition sync_turn (t : Turn) (s : PolicySync) : Io (PolicySync * option Duration) :=
  fetched ← attempt (fetch_policy (turn_peer t) base_url identity (version (sync s)) (Some interval) (turn_now_ms t));
  mret match fetched with
  | Ok (Updated v documents) =>
      let state := mark_contact (turn_now t) (sync s) in
      match from_documents toml yaml documents with
      | Ok set => (mkPolicySync set (set_version v state) BACKOFF_MIN, None)
      | Err _ => (mkPolicySync (handle s) state BACKOFF_MIN, None)
      end
  | Ok (Unchanged | NoPolicy) => (mkPolicySync (handle s) (mark_contact (turn_now t) (sync s)) BACKOFF_MIN, None)
  | Err _ =>
      (mkPolicySync (handle s) (mark_unreachable (sync s)) (next_backoff (backoff s)), Some (backoff s))
  end.

Fixpoint run_control_plane_sync (turns : list Turn) (s : PolicySync) : Io (PolicySync * list (option Duration)) :=
  match turns with
  | [] => mret (s, [])
  | t :: turns =>
      '(s, slept) ← sync_turn t s;
      '(s, rest) ← run_control_plane_sync turns s;
      mret (s, slept :: rest)
  end.

(** The pull of [bootstrap_control_plane], and the load of the policy layer: what
    the gateway starts enforcing.  [modified] is how long ago the policy directory
    was modified, if that is known. *)
Definition initial_pull (t : Turn) (modified : option Duration) : Io (option Z * option Duration) :=
  fetched ← attempt (fetch_policy (turn_peer t) base_url identity None None (turn_now_ms t));
  match fetched with
  | Ok (Updated v _) => mret (Some v, Some ZERO)
  | Ok NoPolicy => io_of (Err [of_string "the control plane has no policy for this gateway's organisation yet"])
  | Ok Unchanged => mret (None, Some ZERO)
  | Err e =>
      cached ← has_cached_policy;
      if cached : bool then
        age ← cached_policy_age (turn_now_ms t) modified;
        meta ← load_cache_meta;
        mret (meta_version <$> meta, age)
      else io_of (Err (of_string "pulling the initial policy" :: e))
  end.

Definition start_gateway (earliest : Z) (t : Turn) (modified : option Duration) (lease ttl : Duration) : Io PolicySync :=
  '(initial_version, cache_age) ← initial_pull t modified;
  set ← load_dir toml yaml POLICIES;
  mret (mkPolicySync set (new_sync_state earliest (turn_now t) initial_version cache_age lease ttl) BACKOFF_MIN).
End policy_loop.

Section revocation_loop.
Context (base_url : str) (identity : GatewayIdentity) (platform : bool) (interval : Duration).

Record RevSync : Type := mkRevSync { rev_generation : option Z; rev_world : World; rev_backoff : Duration }.

Definition revocation_turn (peer : Peer) (s : RevSync) : Io (RevSync * option Duration) :=
  fetched ← attempt (fetch_revocations peer base_url identity platform (rev_generation s) (Some interval));
  mret match fetched with
  | Ok (RevUpdated list) =>
      (mkRevSync (Some (generation list)) (replace_revoked (rev_world s) (map rs_sid (revoked_list list)))
         BACKOFF_MIN, None)
  | Ok RevUnchanged => (mkRevSync (rev_generation s) (rev_world s) BACKOFF_MIN, None)
  | Err _ => (mkRevSync (rev_generation s) (rev_world s) (next_backoff (rev_backoff s)), Some (rev_backoff s))
  end.

Fixpoint run_revocation_sync (peers : list Peer) (s : RevSync) : Io (RevSync * list (option Duration)) :=
  match peers with
  | [] => mret (s, [])
  | p :: peers =>
      '(s, slept) ← revocation_turn p s;
      '(s, rest) ← run_revocation_sync peers s;
      mret (s, slept :: rest)
  end.

(** What [main] refuses before it takes any traffic, and the state the loop
    starts in. *)
Definition start_revocations (w : World) : Io RevSync :=
  cached ← load_cached_revocations;
  mret (mkRevSync None
    match cached with
    | Some list => replace_revoked w (map rs_sid (revoked_list list))
    | None => w
    end BACKOFF_MIN).
End revocation_loop.

Section tenant_loop.
Context `{HJ : Jwt}.
Context {TomlError YamlError : Type}.
Context (toml : str → result TomlError RawPolicy) (yaml : str → result YamlError YamlDoc).
Context (base64_standard : str → option (list Z)) (to_lowercase : str → str).
Context (base_url : str) (identity : GatewayIdentity) (interval : Duration).

Definition apply_tenants (s : PlatformTenants) (l : TenantList) : PlatformTenants :=
  apply_list toml yaml base64_standard to_lowercase s l.

Inductive InitialTenants : Type :=
  | Fetched (list : TenantList)
  | Cached (list : TenantList) (age : option Duration) (e : error).

(** [modified] is how long ago the cache was written, if that is known. *)
Definition initial_tenants (peer : Peer) (modified : option Duration) : Io InitialTenants :=
  let from_cache (e : error) : Io InitialTenants :=
    cached ← load_cache;
    match cached with
    | Some list => mret (Cached list modified e)
    | None => io_of (Err (of_string "the control plane is unreachable and there is no cached tenant list" :: e))
    end in
  match fetch_tenants peer base_url identity None None with
  | Ok (TenUpdated list) => _ ← attempt (write_cache list); mret (Fetched list)
  | Ok TenUnchanged => from_cache [of_string "the control plane answered the first tenant poll with no list"]
  | Err e => from_cache e
  end.

Definition platform_sync_state (earliest now v : Z) (cache_age : option Duration) (reachable : bool)
    (lease ttl : Duration) : SyncState :=
  let state := new_sync_state earliest now (Some v) cache_age lease ttl in
  if reachable then state else mark_unreachable state.

Record TenantSync : Type := mkTenantSync { tenants : PlatformTenants; ten_sync : SyncState; ten_backoff : Duration }.

(** The tenants and the state a platform gateway starts with
    ([bootstrap_platform]). *)
Definition start_platform (earliest : Z) (t : Turn) (modified : option Duration) (lease ttl : Duration) : Io TenantSync :=
  initial ← initial_tenants (turn_peer t) modified;
  let '(list, cache_age, reachable) :=
    match initial with
    | Fetched list => (list, Some ZERO, true)
    | Cached list age _ => (list, age, false)
    end in
  mret (mkTenantSync (apply_tenants no_tenants list)
    (platform_sync_state earliest (turn_now t) (list_version list) cache_age reachable lease ttl) BACKOFF_MIN).

Definition known_tenants (s : PlatformTenants) : option Z :=
  if snapshot_version (platform_table s) =? 0 then None else Some (snapshot_version (platform_table s)).

(** One turn sleeps for the backoff of a failure, and then until a second has
    passed since it began ([MIN_POLL_INTERVAL]); only the former is returned. *)
Definition tenant_turn (t : Turn) (s : TenantSync) : Io (TenantSync * option Duration) :=
  match fetch_tenants (turn_peer t) base_url identity (known_tenants (tenants s)) (Some interval) with
  | Ok (TenUpdated list) =>
      let state := set_version (list_version list) (mark_contact (turn_now t) (ten_sync s)) in
      _ ← attempt (write_cache list);
      mret (mkTenantSync (apply_tenants (tenants s) list) state BACKOFF_MIN, None)
  | Ok TenUnchanged => mret (mkTenantSync (tenants s) (mark_contact (turn_now t) (ten_sync s)) BACKOFF_MIN, None)
  | Err _ =>
      mret (mkTenantSync (tenants s) (mark_unreachable (ten_sync s)) (next_backoff (ten_backoff s)),
            Some (ten_backoff s))
  end.

Fixpoint run_tenant_sync (turns : list Turn) (s : TenantSync) : Io (TenantSync * list (option Duration)) :=
  match turns with
  | [] => mret (s, [])
  | t :: turns =>
      '(s, slept) ← tenant_turn t s;
      '(s, rest) ← run_tenant_sync turns s;
      mret (s, slept :: rest)
  end.
End tenant_loop.
End fetch.

(** ** One turn of the policy loop *)

Lemma to_string_inj n m : 0 ≤ n ≤ u64_max → 0 ≤ m ≤ u64_max → to_string n = to_string m → n = m.
Proof.
  intros Hn Hm Heq. pose proof (from_str_radix_to_string u64_max n ltac:(lia)) as H1.
  pose proof (from_str_radix_to_string u64_max m ltac:(lia)) as H2.
  rewrite decide_True in H1 by lia. rewrite decide_True in H2 by lia. congruence.
Qed.

Lemma etag_inj n m : 0 ≤ n ≤ u64_max → 0 ≤ m ≤ u64_max → etag n = etag m → n = m.
Proof.
  unfold etag. intros Hn Hm Heq. apply (app_inj_1 [34] [34]) in Heq as [_ Heq]; [|done].
  apply app_inj_2 in Heq as [Heq _]; [|done]. by apply to_string_inj.
Qed.

Lemma version_Some st v : version st = Some v ↔ ss_version st = v ∧ v ≠ 0.
Proof. unfold version. destruct (Z.eqb_spec (ss_version st) 0); naive_solver. Qed.

Section policy_proofs.
Context `{HM : Serde CacheMeta, HP : SerdeLaws PolicyResponse}.
Context {TomlError YamlError : Type}.
Context (toml : str → result TomlError RawPolicy) (yaml : str → result YamlError YamlDoc).
Context (base_url : str) (identity : GatewayIdentity) (interval : Duration).

Abbreviation turn := (sync_turn toml yaml base_url identity interval).
Abbreviation run := (run_control_plane_sync toml yaml base_url identity interval).

Definition poll_of (known : option Z) (wait : option Duration) : Poll :=
  versioned_poll (base_url ++ gateway_policy (gateway_id identity)) known wait.

(** The answer carries a revision. *)
Definition carries (answer : result error Response) (r : PolicyResponse) : Prop :=
  ∃ resp, answer = Ok resp ∧ resp_status resp ≠ 304 ∧ resp_status resp ≠ 204 ∧
    error_for_status resp (of_string "policy poll") = Ok resp ∧ from_slice (resp_body resp) = Some r.

(** How a fetch goes: it depends on the answer and, for a revision, on whether
    it could be cached. *)
Lemma fetch_policy_cases (peer : Peer) known wait now_ms (fs : Fs) fates out :
  fetch_policy peer base_url identity known wait now_ms fs fates = out →
  (∃ r, carries (peer (poll_of known wait)) r ∧
     out = (context (of_string "writing the policy cache") (cache_policy now_ms (pr_version r) (pr_documents r)) ≫=
            λ _, mret (Updated (pr_version r) (pr_documents r))) fs fates) ∨
  (∃ resp, peer (poll_of known wait) = Ok resp ∧
     (resp_status resp = 304 ∧ out = (Returned (Ok Unchanged), fs, fates) ∨
      resp_status resp = 204 ∧ out = (Returned (Ok NoPolicy), fs, fates))) ∨
  ((∀ r, ¬ carries (peer (poll_of known wait)) r) ∧ ∃ e, out = (Returned (Err e), fs, fates)).
Proof.
  unfold fetch_policy, carries, poll_of. set (p := versioned_poll _ _ _).
  destruct (peer p) as [resp|e] eqn:Hp; cbn [result_context map_err].
  2: { intros <-. right; right. split; [by intros r (? & ? & _)|]. eexists. reflexivity. }
  unfold mbind at 1, io_mbind, io_bind, io_of at 1.
  destruct (Z.eqb_spec (resp_status resp) 304) as [H3|H3]; [intros <-; right; left; exists resp; by split; [|left]|].
  destruct (Z.eqb_spec (resp_status resp) 204) as [H2|H2]; [intros <-; right; left; exists resp; by split; [|right]|].
  destruct (error_for_status resp (of_string "policy poll")) as [resp'|e] eqn:He.
  2: { intros <-. right; right. split; [intros r (x & [= <-] & _ & _ & He' & _); congruence|]. eexists. reflexivity. }
  assert (resp' = resp) as -> by (unfold error_for_status in He; case_match; congruence).
  unfold mbind at 1, io_of at 1, mbind at 1, ok_or, io_of at 1.
  destruct (from_slice (resp_body resp)) as [r|] eqn:Hb; intros <-.
  - left. exists r. split; [by exists resp|done].
  - right; right. split; [intros r (x & [= <-] & _ & _ & _ & Hb'); congruence|]. eexists. reflexivity.
Qed.

(** What a turn may do to what is enforced. *)
Definition turn_effect (t : Turn) (s s' : PolicySync) : Prop :=
  (handle s' = handle s ∧ ss_version (sync s') = ss_version (sync s)) ∨
  (∃ r, carries (turn_peer t (poll_of (version (sync s)) (Some interval))) r ∧
     from_documents toml yaml (pr_documents r) = Ok (handle s') ∧ ss_version (sync s') = pr_version r).

Lemma sync_turn_effect (t : Turn) (s : PolicySync) (fs fs' : Fs) fates rest res :
  turn t s fs fates = (Returned res, fs', rest) → ∃ s' slept, res = Ok (s', slept) ∧ turn_effect t s s'.
Proof.
  unfold sync_turn, mbind at 1, io_mbind, io_bind, attempt.
  destruct (fetch_policy_cases (turn_peer t) (version (sync s)) (Some interval) (turn_now_ms t) fs fates _ eq_refl)
    as [(r & Hc & ->)|[(resp & Hp & [[H3 ->]|[H2 ->]])|(Hn & e & ->)]].
  - unfold context, mbind, io_mbind, io_bind.
    destruct (cache_policy _ _ _ fs fates) as [[[[[]|e]|] fs1] rest1]; cbn -[from_documents]; [| |done].
    + destruct (from_documents toml yaml (pr_documents r)) as [set|e] eqn:Hd; intros [= <- <- <-].
      * do 2 eexists. split; [done|]. right. by exists r.
      * do 2 eexists. split; [done|]. by left.
    + intros [= <- <- <-]. do 2 eexists. split; [done|]. by left.
  - intros [= <- <- <-]. do 2 eexists. split; [done|]. by left.
  - intros [= <- <- <-]. do 2 eexists. split; [done|]. by left.
  - intros [= <- <- <-]. do 2 eexists. split; [done|]. by left.
Qed.

Lemma run_cons t turns s (fs fs' : Fs) fates rest res :
  run (t :: turns) s fs fates = (Returned res, fs', rest) →
  ∃ s1 slept fs1 fates1 res1, turn t s fs fates = (Returned (Ok (s1, slept)), fs1, fates1) ∧
    run turns s1 fs1 fates1 = (Returned res1, fs', rest) ∧
    res = match res1 with Ok (s', l) => Ok (s', slept :: l) | Err e => Err e end.
Proof.
  cbn [run_control_plane_sync]. unfold mbind at 1, io_mbind, io_bind.
  destruct (turn t s fs fates) as [[[res0|] fs1] fates1] eqn:Ht; [|done].
  destruct (sync_turn_effect _ _ _ _ _ _ _ Ht) as (s1 & slept & -> & _). intros Hrun.
  unfold mbind in Hrun. destruct (run turns s1 fs1 fates1) as [[[[[s' l]|e]|] fs2] fates2] eqn:Hr; [| |done];
    injection Hrun as <- <- <-; exists s1, slept, fs1, fates1; eexists; (split; [done|]); rewrite Hr; by split.
Qed.

Lemma turn_layout t s (fs fs' : Fs) fates rest o : layout_ok fs → turn t s fs fates = (o, fs', rest) → layout_ok fs'.
Proof.
  intros Hl. unfold sync_turn, mbind at 1, io_mbind, io_bind, attempt.
  destruct (fetch_policy_cases (turn_peer t) (version (sync s)) (Some interval) (turn_now_ms t) fs fates _ eq_refl)
    as [(r & Hc & ->)|[(resp & Hp & [[H3 ->]|[H2 ->]])|(Hn & e & ->)]]; [|by intros [= <- <- <-]..].
  pose proof (layout_kept (turn_now_ms t) (pr_version r) (pr_documents r) fs fates Hl) as Hk.
  unfold context, mbind, io_mbind, io_bind.
  destruct (cache_policy _ _ _ fs fates) as [[[[[]|e]|] fs1] rest1]; cbn -[from_documents]; by intros [= <- <- <-].
Qed.

(** ** A control plane that keeps its revisions

    [history] gives the documents of each revision.  A control plane that holds
    [r] answers a poll that names it with [304] and any other with [r]. *)
Definition publishes (peer : Peer) (r : PolicyResponse) : Prop :=
  ∀ poll, peer poll = Ok (if decide (if_none_match poll = Some (etag (pr_version r)))
                          then mkResponse 304 [] else mkResponse 200 (to_vec r)).
Definition is_revision (history : Z → option (list (str * str))) (r : PolicyResponse) : Prop :=
  history (pr_version r) = Some (pr_documents r) ∧ 0 < pr_version r ≤ u64_max.
Definition unreachable (peer : Peer) : Prop := ∀ poll, ∃ e, peer poll = Err e.
Definition honest (history : Z → option (list (str * str))) (t : Turn) : Prop :=
  unreachable (turn_peer t) ∨ ∃ r, publishes (turn_peer t) r ∧ is_revision history r.

(** The version the gateway names is the revision it enforces. *)
Definition in_step (history : Z → option (list (str * str))) (s : PolicySync) : Prop :=
  ∀ v, version (sync s) = Some v → 0 < v ≤ u64_max ∧
    ∃ documents, history v = Some documents ∧ from_documents toml yaml documents = Ok (handle s).

Lemma publishes_carries peer r r' poll : publishes peer r → carries (peer poll) r' → r' = r.
Proof.
  intros Hp (resp & Hr & H3 & _ & _ & Hb). rewrite Hp in Hr. injection Hr as <-.
  case_decide; [by destruct H3|]. cbn [resp_body] in Hb. rewrite from_to in Hb. congruence.
Qed.

Lemma in_step_turn history t s s' : honest history t → in_step history s → turn_effect t s s' → in_step history s'.
Proof.
  intros Hh Hs [[Hl Hv]|(r & Hc & Hd & Hv)] v Hsome.
  - apply version_Some in Hsome as [H1 H2]. rewrite Hl. apply Hs, version_Some. by rewrite <- Hv.
  - apply version_Some in Hsome as [H1 H2]. destruct Hh as [Hu|(r' & Hp & Hrev & Hb)].
    + destruct Hc as (resp & Hr & _). destruct (Hu (poll_of (version (sync s)) (Some interval))) as [e He]. congruence.
    + apply (publishes_carries _ _ _ _ Hp) in Hc as ->. rewrite Hv in H1. subst v. split; [done|]. by exists (pr_documents r').
Qed.

Lemma in_step_run history turns s (fs fs' : Fs) fates rest s' slept :
  layout_ok fs → Forall (honest history) turns → in_step history s →
  run turns s fs fates = (Returned (Ok (s', slept)), fs', rest) → layout_ok fs' ∧ in_step history s'.
Proof.
  intros Hl Hh. revert s fs fates slept Hl. induction Hh as [|t turns Ht Hh IH]; intros s fs fates slept Hl Hs Hrun.
  - injection Hrun as <- <- <- <-. done.
  - apply run_cons in Hrun as (s1 & sl & fs1 & fates1 & res1 & Ht1 & Hr & Hres).
    destruct res1 as [[s2 l]|e]; [|done]. injection Hres as -> ->.
    destruct (sync_turn_effect _ _ _ _ _ _ _ Ht1) as (s1' & sl' & [= <- <-] & Heff).
    eapply IH; [by eapply turn_layout|by eapply in_step_turn|done].
Qed.

(** A turn in which a revision arrives and nothing fails. *)
Lemma turn_done t s (fs : Fs) r :
  layout_ok fs → carries (turn_peer t (poll_of (version (sync s)) (Some interval))) r →
  ∃ fs', layout_ok fs' ∧ fs' !! POLICIES = Some (Dir (staged ∅ (pr_documents r))) ∧
    fs' !! CACHE_META = Some (File (to_vec (mkCacheMeta (pr_version r) (turn_now_ms t)))) ∧
    let state := mark_contact (turn_now t) (sync s) in
    turn t s fs [] = (Returned (Ok match from_documents toml yaml (pr_documents r) with
      | Ok set => (mkPolicySync set (set_version (pr_version r) state) BACKOFF_MIN, None)
      | Err _ => (mkPolicySync (handle s) state BACKOFF_MIN, None)
      end), fs', []).
Proof.
  intros Hl Hc. destruct (cache_policy_done (turn_now_ms t) (pr_version r) (pr_documents r) fs Hl) as ([] & fs' & Hrun & Hl' & Hp & Hm).
  exists fs'. split_and!; [done..|]. unfold sync_turn, mbind at 1, io_mbind, io_bind, attempt.
  destruct (fetch_policy_cases (turn_peer t) (version (sync s)) (Some interval) (turn_now_ms t) fs [] _ eq_refl)
    as [(r' & Hc' & ->)|[(resp & Hp' & [[H3 _]|[H2 _]])|(Hn & _)]].
  - destruct Hc as (resp & H1 & _ & _ & _ & H2), Hc' as (resp' & H1' & _ & _ & _ & H2').
    assert (r' = r) as -> by congruence.
    unfold context, mbind, io_mbind, io_bind. by rewrite Hrun.
  - destruct Hc as (resp' & Hr & Hne & _). congruence.
  - destruct Hc as (resp' & Hr & _ & Hne & _). congruence.
  - by destruct (Hn r).
Qed.

(** A turn that is answered [304]. *)
Lemma turn_unchanged t s (fs : Fs) fates resp :
  turn_peer t (poll_of (version (sync s)) (Some interval)) = Ok resp → resp_status resp = 304 →
  turn t s fs fates = (Returned (Ok (mkPolicySync (handle s) (mark_contact (turn_now t) (sync s)) BACKOFF_MIN, None)), fs, fates).
Proof.
  intros Hp H3. unfold sync_turn, fetch_policy, mbind, io_mbind, io_bind, attempt.
  fold (poll_of (version (sync s)) (Some interval)). rewrite Hp. cbn [result_context map_err io_of].
  unfold io_of. by rewrite H3.
Qed.

(** A turn that is not answered. *)
Lemma turn_unreachable t s (fs : Fs) fates :
  unreachable (turn_peer t) →
  turn t s fs fates = (Returned (Ok (mkPolicySync (handle s) (mark_unreachable (sync s)) (next_backoff (backoff s)),
    Some (backoff s))), fs, fates).
Proof.
  intros Hu. unfold sync_turn, fetch_policy, mbind, io_mbind, io_bind, attempt.
  fold (poll_of (version (sync s)) (Some interval)).
  destruct (Hu (poll_of (version (sync s)) (Some interval))) as [e ->]. done.
Qed.
End policy_proofs.

(** ** Backoff and staleness *)

(** The sleep after the [k]-th failure in a row. *)
Definition backoff_after (k : nat) : Duration := PolicyUnits.from_secs (Z.min 60 (2 ^ Z.of_nat k)).

Lemma next_backoff_after k : next_backoff (backoff_after k) = backoff_after (S k).
Proof.
  unfold next_backoff, backoff_after, BACKOFF_MAX, PolicyUnits.from_secs.
  rewrite Nat2Z.inj_succ, Z.pow_succ_r by lia. lia.
Qed.

Lemma policy_age_bounds now c st :
  ss_origin st ≤ c ≤ now → last_contact_secs st = elapsed_secs c st →
  now - c - 10 ^ 9 < policy_age now st < now - c + 10 ^ 9.
Proof.
  intros Hc Hl. unfold policy_age, PolicyUnits.from_secs. rewrite Hl. unfold elapsed_secs, as_secs.
  change (10 ^ 9) with 1000000000. set (o := ss_origin st) in *.
  rewrite (Z.max_r 0 (now - o)), (Z.max_r 0 (c - o)) by lia.
  pose proof (Z.div_le_mono (c - o) (now - o) 1000000000 ltac:(lia) ltac:(lia)).
  rewrite Z.max_r by lia. dm_lia.
Qed.

Section correctness.
Context `{HM : Serde CacheMeta, HP : SerdeLaws PolicyResponse}.
Context {TomlError YamlError : Type}.
Context (toml : str → result TomlError RawPolicy) (yaml : str → result YamlError YamlDoc).
Context (base_url : str) (identity : GatewayIdentity) (interval : Duration).

Abbreviation turn := (sync_turn toml yaml base_url identity interval).
Abbreviation run := (run_control_plane_sync toml yaml base_url identity interval).


(** While the control plane is out of reach the policy in force, its version
    and the disk are left alone, and the polls back off: the [k]-th failure in a
    row sleeps [2^k] seconds, at most a minute, and the heartbeat says degraded. *)
Theorem outage_backs_off (turns : list Turn) (s : PolicySync) (fs : Fs) (fates : list fate) (k : nat) :
  Forall (λ t, unreachable (turn_peer t)) turns → backoff s = backoff_after k →
  ∃ s', run turns s fs fates =
      (Returned (Ok (s', (λ i, Some (backoff_after i)) <$> seq k (length turns))), fs, fates) ∧
    handle s' = handle s ∧ version (sync s') = version (sync s) ∧
    (turns ≠ [] → ∀ now, heartbeat_status (heartbeat_healthy now (sync s')) = of_string "degraded").
Proof.
  intros Hu. revert s k. induction Hu as [|t turns Ht _ IH]; intros s k Hb; [by exists s|].
  cbn [run_control_plane_sync length seq fmap list_fmap]. unfold mbind at 1, io_mbind, io_bind.
  rewrite turn_unreachable by done. set (s1 := mkPolicySync _ _ _).
  destruct (IH s1 (S k)) as (s' & Hrun & Hh & Hv & Hdeg); [cbn; by rewrite Hb, next_backoff_after|].
  exists s'. unfold mbind. rewrite Hrun, Hb. split_and!; [done|done|done|]. intros _.
  destruct turns; [|by apply Hdeg]. injection Hrun as <-. intros now. by cbn.
Qed.

(** What a heartbeat says is what happened: after a turn that failed it says
    degraded; after a turn that was answered it says online while the answer is
    younger than the lease, and no longer than that, to within a second. *)
Theorem heartbeat_reflects_contact (t : Turn) (s s' : PolicySync) (slept : option Duration) (fs fs' : Fs)
    (fates rest : list fate) (now : Z) :
  turn t s fs fates = (Returned (Ok (s', slept)), fs', rest) → ss_origin (sync s) ≤ turn_now t ≤ now →
  policy_lease (sync s) ≤ cache_ttl (sync s) →
  match slept with
  | Some _ => heartbeat_healthy now (sync s') = false
  | None =>
      (now - turn_now t ≤ policy_lease (sync s) - 10 ^ 9 → heartbeat_healthy now (sync s') = true) ∧
      (heartbeat_healthy now (sync s') = true → now - turn_now t < policy_lease (sync s) + 10 ^ 9)
  end.
Proof.
  intros Ht Hnow Hle.
  assert (match slept with
          | Some _ => ss_healthy (sync s') = false
          | None => ss_healthy (sync s') = true ∧ last_contact_secs (sync s') = elapsed_secs (turn_now t) (sync s') ∧
              ss_origin (sync s') = ss_origin (sync s) ∧ policy_lease (sync s') = policy_lease (sync s) ∧
              cache_ttl (sync s') = cache_ttl (sync s)
          end) as Hst.
  { revert Ht. unfold sync_turn, mbind at 1, io_mbind, io_bind.
    destruct (attempt _ fs fates) as [[[[[f|e]|e]|] fs1] rest1]; [| |done|done].
    - destruct f as [|v docs|]; [by intros [= <- <- <- <-]| |by intros [= <- <- <- <-]].
      by destruct (from_documents toml yaml docs); intros [= <- <- <- <-].
    - by intros [= <- <- <- <-]. }
  destruct slept as [d|]; unfold heartbeat_healthy; [by rewrite Hst|]. destruct Hst as (-> & Hc & Ho & Hlease & Httl).
  rewrite andb_true_l, bool_decide_eq_true. rewrite <- Ho in Hnow.
  pose proof (policy_age_bounds now (turn_now t) (sync s') Hnow Hc) as Hage. unfold freshness. rewrite Hlease, Httl.
  split.
  - intros Hy. destruct (Z.leb_spec (cache_ttl (sync s)) (policy_age now (sync s'))); [lia|].
    destruct (Z.leb_spec (policy_lease (sync s)) (policy_age now (sync s'))); [lia|done].
  - destruct (Z.leb_spec (cache_ttl (sync s)) (policy_age now (sync s'))); [done|].
    destruct (Z.leb_spec (policy_lease (sync s)) (policy_age now (sync s'))); [done|]. intros _. lia.
Qed.

(** ** Restarting while the control plane is out of reach *)

Context `{HML : !SerdeLaws CacheMeta}.

Lemma start_offline earliest t modified lease ttl (fs : Fs) d m res :
  unreachable (turn_peer t) → fs !! POLICIES = Some (Dir d) → d ≠ ∅ → fs !! CACHE_META = Some (File (to_vec m)) →
  load_dir toml yaml POLICIES fs [] = (Returned res, fs, []) →
  start_gateway toml yaml base_url identity earliest t modified lease ttl fs [] =
  (Returned (set ← res; Ok (mkPolicySync set (new_sync_state earliest (turn_now t) (Some (meta_version m))
     match meta_age (turn_now_ms t) m with Some age => Some age | None => modified end lease ttl) BACKOFF_MIN)),
   fs, []).
Proof.
  intros Hu Hp Hne Hm Hload. unfold start_gateway, initial_pull, fetch_policy.
  cbv [mbind io_mbind io_bind attempt io_of context].
  destruct (Hu (versioned_poll (base_url ++ gateway_policy (gateway_id identity)) None None)) as [e ->].
  cbn [result_context map_err]. unfold has_cached_policy, fs_read_dir, prim, mret, io_mret, io_of, mbind, io_mbind, io_bind, attempt.
  cbn [tail]. rewrite Hp, bool_decide_eq_true_2 by done.
  unfold cached_policy_age, load_cache_meta, fs_read, prim, mret, io_mret, io_of, mbind, io_mbind, io_bind, attempt.
  cbn [tail]. rewrite Hm. cbn [decode_file]. rewrite from_to. cbn [option_bind fmap option_fmap option_map].
  rewrite Hm. cbn [decode_file tail]. rewrite from_to. cbn [tail]. rewrite Hload. by destruct res.
Qed.

Lemma staged_nonempty docs : docs ≠ [] → staged ∅ docs ≠ ∅.
Proof.
  intros Hne He. destruct docs as [|[n x] docs]; [done|].
  assert (is_Some (staged ∅ ((n, x) :: docs) !! sanitize n)) as [b Hb].
  { apply staged_dom. right. left. }
  rewrite He in Hb. done.
Qed.

(** The documents of a revision as the theorems of [StateDir] need them. *)
Definition cacheable (docs : list (str * str)) : Prop :=
  Forall (λ doc, sanitize doc.1 = doc.1 ∧ chars_ok doc.2) docs ∧ NoDup docs.*1 ∧ docs ≠ [].

Lemma renamed_id docs : Forall (λ doc, sanitize doc.1 = doc.1 ∧ chars_ok doc.2) docs → renamed docs = docs.
Proof.
  induction 1 as [|[n x] docs [Hn _] _ IH]; [done|]. unfold renamed in *. cbn [map fst snd] in *. by rewrite Hn, IH.
Qed.

(** Starting with the cache a turn left. *)
Lemma start_after_turn earliest t t2 modified lease ttl s (fs : Fs) r :
  layout_ok fs → carries (turn_peer t (poll_of base_url identity (version (sync s)) (Some interval))) r →
  cacheable (pr_documents r) → unreachable (turn_peer t2) →
  ∃ fs1, turn t s fs [] = (Returned (Ok match from_documents toml yaml (pr_documents r) with
      | Ok set => (mkPolicySync set (set_version (pr_version r) (mark_contact (turn_now t) (sync s))) BACKOFF_MIN, None)
      | Err _ => (mkPolicySync (handle s) (mark_contact (turn_now t) (sync s)) BACKOFF_MIN, None)
      end), fs1, []) ∧
    start_gateway toml yaml base_url identity earliest t2 modified lease ttl fs1 [] =
    (Returned (set ← load_documents toml yaml (sort_by doc_le (pr_documents r));
       Ok (mkPolicySync set (new_sync_state earliest (turn_now t2) (Some (pr_version r))
         match meta_age (turn_now_ms t2) (mkCacheMeta (pr_version r) (turn_now_ms t)) with
         | Some age => Some age | None => modified end lease ttl) BACKOFF_MIN)), fs1, []).
Proof.
  intros Hl Hc (Hok & Hnd & Hne) Hu.
  destruct (turn_done toml yaml base_url identity interval t s fs r Hl Hc) as (fs1 & Hl1 & Hp & Hm & Ht).
  exists fs1. split; [exact Ht|].
  pose proof (load_cached toml yaml fs1 (pr_documents r)) as Hload. unfold cached_documents in Hload.
  rewrite renamed_id in Hload by done.
  exact (start_offline _ _ _ _ _ _ _ _ _ Hu Hp (staged_nonempty _ Hne) Hm
    (Hload Hnd (Forall_impl _ _ _ Hok (λ doc H, proj2 H)) Hne Hp)).
Qed.


(** A revision that does not load is cached all the same: the gateway keeps its
    policy and polls again at once, and if it is restarted while the control plane
    is out of reach it does not start. *)
Lemma rejected_revision_cached earliest t t2 modified lease ttl s (fs : Fs) r e :
  layout_ok fs → carries (turn_peer t (poll_of base_url identity (version (sync s)) (Some interval))) r →
  cacheable (pr_documents r) → from_documents toml yaml (pr_documents r) = Err e → unreachable (turn_peer t2) →
  ∃ s1 fs1 e', turn t s fs [] = (Returned (Ok (s1, None)), fs1, []) ∧ handle s1 = handle s ∧
    version (sync s1) = version (sync s) ∧
    start_gateway toml yaml base_url identity earliest t2 modified lease ttl fs1 [] = (Returned (Err e'), fs1, []).
Proof.
  intros Hl Hc Hca Hd Hu.
  destruct (start_after_turn earliest t t2 modified lease ttl s fs r Hl Hc Hca Hu) as (fs1 & Ht & Hs).
  rewrite Hd in Ht. unfold load_documents in Hs.
  destruct (from_documents toml yaml (sort_by doc_le (pr_documents r))) as [ps|e'] eqn:Hps.
  - destruct (from_documents_perm toml yaml (sort_by doc_le (pr_documents r)) (pr_documents r) ps) as (? & ? & _);
      [apply sort_by_perm|done|congruence].
  - eexists _, fs1, _. split; [exact Ht|]. split_and!; [done|done|exact Hs].
Qed.
End correctness.

(** ** Revoked sessions *)

Section revocations.
Context `{HR : SerdeLaws RevocationsResponse}.
Context (base_url : str) (identity : GatewayIdentity) (platform : bool) (interval : Duration).

Abbreviation turn := (revocation_turn base_url identity platform interval).
Abbreviation run := (run_revocation_sync base_url identity platform interval).

Definition rev_layout (fs : Fs) : Prop :=
  (∀ d, fs !! REVOCATIONS ≠ Some (Dir d)) ∧ (∀ d, fs !! REVOCATIONS_STAGING ≠ Some (Dir d)).

Lemma cache_revocations_done list :
  io_done rev_layout (cache_revocations list)
    (λ _ fs, rev_layout fs ∧ fs !! REVOCATIONS = Some (File (to_vec list))).
Proof.
  unfold cache_revocations. eapply (done_bind _ _ _ (λ _, rev_layout)).
  { apply done_context, done_prim. intros fs Hl. by exists tt, fs. }
  intros ?. eapply (done_bind _ _ _ (λ _ fs, rev_layout fs ∧ fs !! REVOCATIONS_STAGING = Some (File (to_vec list)))).
  - apply done_context, done_prim. intros fs [H1 H2].
    exists tt, (<[REVOCATIONS_STAGING := File (to_vec list)]> fs). split.
    { destruct (fs !! REVOCATIONS_STAGING) as [[b|d]|]; [done|by destruct (H2 d)|done]. }
    unfold rev_layout. lookups. split_and!; by intros.
  - intros ?. apply done_context, done_prim. intros fs [[H1 H2] Hs]. rewrite Hs.
    exists tt, (<[REVOCATIONS := File (to_vec list)]> (delete REVOCATIONS_STAGING fs)). split.
    { destruct (fs !! REVOCATIONS) as [[b|d]|]; [done|by destruct (H1 d)|done]. }
    unfold rev_layout. lookups. split_and!; by intros.
Qed.

(** The list in force: its generation is the one named in polls, its sessions are
    the revoked ones, and if the disk worked it is the one a restart reads. *)
Definition in_force (w0 : World) (works : bool) (s : RevSync) (fs : Fs) : Prop :=
  match rev_generation s with
  | None => rev_world s = w0
  | Some g => ∃ list, generation list = g ∧
      (∀ sid, is_revoked (rev_world s) sid = true ↔ sid ∈ map rs_sid (revoked_list list)) ∧
      (works = true → fs !! REVOCATIONS = Some (File (to_vec list)))
  end.

Definition disk_works (fates : list fate) (fs : Fs) (works : bool) : Prop :=
  works = true → fates = [] ∧ rev_layout fs.

Lemma revocation_turn_in_force w0 works peer s (fs fs' : Fs) fates rest res :
  turn peer s fs fates = (Returned res, fs', rest) → in_force w0 works s fs → disk_works fates fs works →
  ∃ s' slept, res = Ok (s', slept) ∧ in_force w0 works s' fs' ∧ disk_works rest fs' works.
Proof.
  intros Hrun Hs Hd. revert Hrun. unfold revocation_turn, fetch_revocations. unfold mbind at 1, io_mbind, io_bind, attempt.
  destruct (peer _) as [resp|e]; cbn [result_context map_err]; unfold mbind at 1, io_of at 1.
  2: { intros [= <- <- <-]. by do 2 eexists. }
  destruct (resp_status resp =? 304). { intros [= <- <- <-]. by do 2 eexists. }
  unfold mbind at 1, io_of at 1. destruct (error_for_status resp _) as [resp'|e].
  2: { intros [= <- <- <-]. by do 2 eexists. }
  unfold mbind at 1, io_of at 1, ok_or. destruct (from_slice (resp_body resp')) as [list|].
  2: { intros [= <- <- <-]. by do 2 eexists. }
  unfold mbind. destruct (cache_revocations list fs fates) as [[[r|] fs1] rest1] eqn:Hc; [|done].
  cbn. intros [= <- <- <-]. do 2 eexists. split; [done|].
  assert (works = true → rest1 = [] ∧ rev_layout fs1 ∧ fs1 !! REVOCATIONS = Some (File (to_vec list))) as Hw.
  { intros Hw. destruct (Hd Hw) as [-> Hl]. destruct (cache_revocations_done list fs Hl) as (a & fs2 & Hc2 & Hl2 & Hf).
    rewrite Hc in Hc2. by injection Hc2 as -> -> ->. }
  split; [|intros Hw'; by destruct (Hw Hw') as (? & ? & _)].
  exists list. split; [done|]. split; [intros sid; apply is_revoked_replace|intros Hw'; apply (Hw Hw')].
Qed.

Lemma revocation_run_in_force w0 works peers s (fs fs' : Fs) fates rest res :
  run peers s fs fates = (Returned res, fs', rest) → in_force w0 works s fs → disk_works fates fs works →
  ∃ s' slept, res = Ok (s', slept) ∧ in_force w0 works s' fs' ∧ disk_works rest fs' works.
Proof.
  revert s fs fates res. induction peers as [|p peers IH]; intros s fs fates res Hrun Hs Hd.
  - injection Hrun as <- <- <-. by do 2 eexists.
  - cbn [run_revocation_sync] in Hrun. unfold mbind at 1, io_mbind, io_bind in Hrun.
    destruct (turn p s fs fates) as [[[res0|] fs1] fates1] eqn:Ht; [|done].
    destruct (revocation_turn_in_force _ _ _ _ _ _ _ _ _ Ht Hs Hd) as (s1 & sl & -> & Hs1 & Hd1).
    unfold mbind in Hrun. destruct (run peers s1 fs1 fates1) as [[[res1|] fs2] fates2] eqn:Hr; [|done].
    destruct res1 as [[s2 l]|e]; injection Hrun as <- <- <-;
      destruct (IH _ _ _ _ Hr Hs1 Hd1) as (s' & l' & Heq & Hs' & Hd'); [|done].
    injection Heq as -> ->. by do 2 eexists.
Qed.

(** The sessions a gateway refuses are those of the last list it was sent,
    whatever became of the disk, and before the first list those it started with.
    If the disk works, a restart before any answer refuses the same sessions. *)
Theorem revocations_in_force (w w2 : World) (peers : list Peer) (fs fs' : Fs) (fates rest : list fate)
    (res : result error (RevSync * list (option Duration))) :
  run peers (mkRevSync None w BACKOFF_MIN) fs fates = (Returned res, fs', rest) →
  ∃ s' slept, res = Ok (s', slept) ∧
    match rev_generation s' with
    | None => rev_world s' = w
    | Some g => ∃ list, generation list = g ∧
        (∀ sid, is_revoked (rev_world s') sid = true ↔ sid ∈ map rs_sid (revoked_list list)) ∧
        (fates = [] → rev_layout fs → ∃ s2, start_revocations w2 fs' [] = (Returned (Ok s2), fs', []) ∧
           ∀ sid, is_revoked (rev_world s2) sid = is_revoked (rev_world s') sid)
    end.
Proof.
  intros Hrun.
  assert (∃ works : bool, disk_works fates fs works ∧ (fates = [] → rev_layout fs → works = true)) as (wk & Hd & Hwk).
  { destruct fates as [|f fates]; [|exists false; by split].
    destruct (fs !! REVOCATIONS) as [[b|d]|] eqn:H1; [| exists false; split; [done|intros _ [Hl _]; by destruct (Hl d)]|];
    (destruct (fs !! REVOCATIONS_STAGING) as [[b'|d']|] eqn:H2;
      [exists true|exists false; split; [done|intros _ [_ Hl]; by destruct (Hl d')]|exists true]);
    (split; [|done]; intros _; split; [done|]; split; intros ?; congruence). }
  destruct (revocation_run_in_force w wk _ _ _ _ _ _ _ Hrun eq_refl Hd) as (s' & slept & -> & Hs & _).
  exists s', slept. split; [done|]. unfold in_force in Hs. destruct (rev_generation s') as [g|]; [|done].
  destruct Hs as (list & Hg & Hin & Hf). exists list. split; [done|]. split; [done|]. intros Hfates Hl.
  specialize (Hf (Hwk Hfates Hl)). eexists. unfold start_revocations, load_cached_revocations.
  cbv [mbind io_mbind io_bind attempt fs_read prim]. rewrite Hf. cbn [decode_file mret io_mret io_of tail].
  rewrite from_to. split; [reflexivity|]. intros sid. cbn [rev_world].
  apply eq_bool_prop_intro. rewrite !Is_true_true, is_revoked_replace, Hin. done.
Qed.
End revocations.

(** ** The tenants of a platform gateway *)

Section tenants.
Context `{HJ : Jwt, HT : SerdeLaws TenantList}.
Context {TomlError YamlError : Type}.
Context (toml : str → result TomlError RawPolicy) (yaml : str → result YamlError YamlDoc).
Context (base64_standard : str → option (list Z)) (to_lowercase : str → str).
Context (base_url : str) (identity : GatewayIdentity) (interval : Duration).

Abbreviation turn := (tenant_turn toml yaml base64_standard to_lowercase base_url identity interval).
Abbreviation run := (run_tenant_sync toml yaml base64_standard to_lowercase base_url identity interval).

(** The tenants a list stands for: applying it leaves nothing of the previous one. *)
Definition image (l : TenantList) : PlatformTenants :=
  apply_tenants toml yaml base64_standard to_lowercase no_tenants l.

Definition publishes_list (peer : Peer) (l : TenantList) : Prop :=
  ∀ poll, peer poll = Ok (if decide (if_none_match poll = Some (etag (list_version l)))
                          then mkResponse 304 [] else mkResponse 200 (to_vec l)).
Definition is_list (history : Z → option TenantList) (l : TenantList) : Prop :=
  history (list_version l) = Some l ∧ 0 ≤ list_version l ≤ u64_max.
Definition honest_list (history : Z → option TenantList) (t : Turn) : Prop :=
  unreachable (turn_peer t) ∨ ∃ l, publishes_list (turn_peer t) l ∧ is_list history l.
Definition serving_list (history : Z → option TenantList) (s : TenantSync) : Prop :=
  ∃ l, is_list history l ∧ tenants s = image l.

Lemma image_version l : snapshot_version (platform_table (image l)) = list_version l.
Proof.
  unfold image, apply_tenants, apply_list, apply_table, table_of, store. cbn [platform_table].
  by destruct (fold_left _ _ _).
Qed.

(** A turn that a control plane answers: the list it holds is in force, whether
    it was sent again or not, and whatever became of the disk. *)
Lemma tenant_turn_published history t s l (fs fs' : Fs) fates rest res :
  serving_list history s → publishes_list (turn_peer t) l → is_list history l →
  turn t s fs fates = (Returned res, fs', rest) →
  ∃ s', res = Ok (s', None) ∧ tenants s' = image l ∧ ss_healthy (ten_sync s') = true.
Proof.
  intros (l0 & [Hh0 Hv0] & Hs) Hp [Hh Hv]. unfold tenant_turn, fetch_tenants. rewrite Hp. cbn [result_context map_err].
  unfold mbind at 1, result_mbind. cbn [result_bind versioned_poll if_none_match].
  assert (known_tenants (tenants s) = if list_version l0 =? 0 then None else Some (list_version l0)) as ->
    by (rewrite Hs; unfold known_tenants; by rewrite image_version).
  case_decide as He.
  - intros [= <- <- <-]. eexists. split; [done|]. split; [|done]. cbn [tenants].
    destruct (list_version l0 =? 0); [done|]. apply (inj Some), etag_inj in He; [|done|done]. congruence.
  - assert (error_for_status (mkResponse 200 (to_vec l)) (of_string "tenant poll") = Ok (mkResponse 200 (to_vec l)))
      as -> by done.
    cbn [resp_status]. rewrite (proj2 (Z.eqb_neq 200 304) ltac:(done)).
    unfold mbind at 1. cbn [result_bind resp_body]. rewrite from_to. cbn [ok_or fmap result_fmap].
    unfold mbind, io_mbind, io_bind, attempt. destruct (write_cache l fs fates) as [[[r|] fs1] rest1]; [|done]. intros [= <- <- <-]. by eexists.
Qed.

Lemma tenant_turn_serving history t s (fs fs' : Fs) fates rest res :
  serving_list history s → honest_list history t → turn t s fs fates = (Returned res, fs', rest) →
  ∃ s' slept, res = Ok (s', slept) ∧ serving_list history s'.
Proof.
  intros Hs [Hu|(l & Hp & Hl)] Hrun.
  - revert Hrun. unfold tenant_turn, fetch_tenants. destruct (Hu (versioned_poll
      (base_url ++ platform_tenants (gateway_id identity)) (known_tenants (tenants s)) (Some interval))) as [e ->].
    intros [= <- <- <-]. by do 2 eexists.
  - destruct (tenant_turn_published _ _ _ _ _ _ _ _ _ Hs Hp Hl Hrun) as (s' & -> & Ht & _).
    exists s', None. split; [done|]. by exists l.
Qed.

Lemma tenant_run_serving history turns s (fs fs' : Fs) fates rest res :
  serving_list history s → Forall (honest_list history) turns → run turns s fs fates = (Returned res, fs', rest) →
  ∃ s' slept, res = Ok (s', slept) ∧ serving_list history s'.
Proof.
  intros Hs Hh. revert s fs fates res Hs. induction Hh as [|t turns Ht _ IH]; intros s fs fates res Hs Hrun.
  - injection Hrun as <- <- <-. by do 2 eexists.
  - cbn [run_tenant_sync] in Hrun. unfold mbind at 1, io_mbind, io_bind in Hrun.
    destruct (turn t s fs fates) as [[[res0|] fs1] fates1] eqn:Hturn; [|done].
    destruct (tenant_turn_serving _ _ _ _ _ _ _ _ Hs Ht Hturn) as (s1 & sl & -> & Hs1).
    unfold mbind in Hrun. destruct (run turns s1 fs1 fates1) as [[[res1|] fs2] fates2] eqn:Hr; [|done].
    destruct res1 as [[s2 l]|e]; injection Hrun as <- <- <-;
      destruct (IH _ _ _ _ Hs1 Hr) as (s' & l' & Heq & Hs'); [|done].
    injection Heq as -> ->. by do 2 eexists.
Qed.

(** A platform gateway follows its tenant list.  Through any run of polls,
    answered or not, and whatever the disk does, it serves exactly one of the
    lists the control plane had, never parts of two; and a poll that is answered
    leaves it serving the list the control plane holds. *)
Theorem tenant_sync_converges (history : Z → option TenantList) (turns : list Turn) (t : Turn) (l : TenantList)
    (s : TenantSync) (fs fs1 fs2 : Fs) (fates fates1 fates2 : list fate)
    (s1 : TenantSync) (slept : list (option Duration)) (res : result error (TenantSync * option Duration)) :
  serving_list history s → Forall (honest_list history) turns →
  run turns s fs fates = (Returned (Ok (s1, slept)), fs1, fates1) →
  publishes_list (turn_peer t) l → is_list history l → turn t s1 fs1 fates1 = (Returned res, fs2, fates2) →
  serving_list history s1 ∧
  ∃ s2, res = Ok (s2, None) ∧ tenants s2 = image l ∧ ss_healthy (ten_sync s2) = true.
Proof.
  intros Hs Hh Hrun Hp Hl Ht.
  destruct (tenant_run_serving _ _ _ _ _ _ _ _ Hs Hh Hrun) as (s1' & sl & [= <- <-] & Hs1).
  split; [done|]. by eapply tenant_turn_published.
Qed.

(** ** Starting a platform gateway *)

(** Out of reach of the control plane, a gateway starts exactly if a list is
    cached: it serves that list, and says degraded until it is answered. *)
Lemma start_platform_offline earliest t modified lease ttl (fs : Fs) :
  unreachable (turn_peer t) →
  match (load_cache fs []).1.1 with
  | Returned (Ok (Some l)) => ∃ s,
      start_platform toml yaml base64_standard to_lowercase base_url identity earliest t modified lease ttl fs [] =
        (Returned (Ok s), fs, []) ∧
      tenants s = image l ∧ ss_version (ten_sync s) = list_version l ∧
      ∀ now, heartbeat_status (heartbeat_healthy now (ten_sync s)) = of_string "degraded"
  | _ => ∃ e,
      start_platform toml yaml base64_standard to_lowercase base_url identity earliest t modified lease ttl fs [] =
        (Returned (Err e), fs, [])
  end.
Proof.
  intros Hu. unfold start_platform, initial_tenants, fetch_tenants.
  destruct (Hu (versioned_poll (base_url ++ platform_tenants (gateway_id identity)) None None)) as [e ->].
  cbn [result_context map_err]. unfold load_cache.
  cbv [mbind io_mbind io_bind result_mbind result_bind attempt fs_read prim mret io_mret io_of].
  destruct (fs !! CACHE_FILE) as [[b|d]|]; cbn; [destruct (from_slice b) as [l|]|..]; by eexists.
Qed.
End tenants.

(** ** Examples and witnesses *)

#[global] Instance policy_response_eq_dec : EqDecision PolicyResponse.
Proof. solve_decision. Defined.
#[global] Instance policy_response_countable : Countable PolicyResponse.
Proof.
  by refine (inj_countable' (λ r, (pr_version r, pr_documents r)) (λ p, mkPolicyResponse p.1 p.2) _); intros [].
Defined.
Lemma sample_meta_laws : @SerdeLaws CacheMeta sample_meta_serde.
Proof. by intros []. Qed.

Definition gateway_one : GatewayIdentity := mkGatewayIdentity (of_string "gw_1") (of_string "org_1") (of_string "s").
Definition sample_base : str := of_string "https://control.example".
Definition down : Peer := λ _, Err [of_string "connection refused"].
Definition revision : PolicyResponse := mkPolicyResponse 7 cache_docs.
Definition up : Peer := λ poll,
  Ok (if decide (if_none_match poll = Some (etag 7)) then mkResponse 304 []
      else mkResponse 200 (@to_vec _ (count_serde PolicyResponse) revision)).
Definition turn_down : Turn := mkTurn down (5 * 10 ^ 9) 5000.
Definition turn_up : Turn := mkTurn up (9 * 10 ^ 9) 9000.
Definition sample_lease : Duration := PolicyUnits.from_secs 900.
Definition sample_ttl : Duration := PolicyUnits.from_secs 1800.
Definition fresh_sync : PolicySync := mkPolicySync [] (new_sync_state 0 0 None None sample_lease sample_ttl) BACKOFF_MIN.
Definition one_revision (v : Z) : option (list (str * str)) := if v =? 7 then Some cache_docs else None.
Definition cached_set : PolicySet :=
  match from_documents sample_toml sample_yaml cache_docs with Ok ps => ps | Err _ => [] end.

Lemma empty_layout : layout_ok ∅.
Proof. done. Qed.
Lemma up_publishes : @publishes (count_serde PolicyResponse) up revision.
Proof. by intros poll. Qed.
Lemma down_unreachable : unreachable down.
Proof. intros poll. by eexists. Qed.
Abbreviation sample_run := (@run_control_plane_sync sample_meta_serde (count_serde PolicyResponse) unit unit
  sample_toml sample_yaml sample_base gateway_one (PolicyUnits.from_secs 60)).
Abbreviation sample_turn := (@sync_turn sample_meta_serde (count_serde PolicyResponse) unit unit
  sample_toml sample_yaml sample_base gateway_one (PolicyUnits.from_secs 60)).


Lemma outage_backs_off_witness :
  ∃ s', sample_run [turn_down; turn_down] fresh_sync ∅ [] =
      (Returned (Ok (s', (λ i, Some (backoff_after i)) <$> seq 0 2)), ∅, []) ∧
    handle s' = handle fresh_sync ∧ version (sync s') = version (sync fresh_sync) ∧
    ([turn_down; turn_down] ≠ [] → ∀ now, heartbeat_status (heartbeat_healthy now (sync s')) = of_string "degraded").
Proof.
  apply (@outage_backs_off sample_meta_serde (count_serde PolicyResponse) unit unit
    sample_toml sample_yaml sample_base gateway_one (PolicyUnits.from_secs 60) [turn_down; turn_down] fresh_sync ∅ [] 0).
  - forall_list_by ltac:(exact down_unreachable).
  - reflexivity.
Defined.

Lemma heartbeat_reflects_contact_witness :
  let s1 := mkPolicySync [] (mark_unreachable (sync fresh_sync)) (next_backoff BACKOFF_MIN) in
  sample_turn turn_down fresh_sync ∅ [] = (Returned (Ok (s1, Some BACKOFF_MIN)), ∅, []) ∧
  heartbeat_healthy (6 * 10 ^ 9) (sync s1) = false.
Proof.
  intros s1. split; [reflexivity|].
  apply (@heartbeat_reflects_contact sample_meta_serde (count_serde PolicyResponse) unit unit
    sample_toml sample_yaml sample_base gateway_one (PolicyUnits.from_secs 60) turn_down fresh_sync s1
    (Some BACKOFF_MIN) ∅ ∅ [] [] (6 * 10 ^ 9)); [reflexivity|by vm_compute|by vm_compute].
Defined.


Definition returned {A} (o : outcome A) : bool := match o with Returned _ => true | Died => false end.
Definition rev_up : Peer := λ _, Ok (mkResponse 200 (@to_vec _ (count_serde RevocationsResponse) ended_list)).

Lemma revocations_in_force_witness :
  let run := @run_revocation_sync (count_serde RevocationsResponse) sample_base gateway_one false
    (PolicyUnits.from_secs 60) [down; rev_up] (mkRevSync None sample_world BACKOFF_MIN) ∅ [] in
  ∃ s' slept, run.1.1 = Returned (Ok (s', slept)) ∧
    match rev_generation s' with
    | None => rev_world s' = sample_world
    | Some g => ∃ l, generation l = g ∧
        (∀ sid, is_revoked (rev_world s') sid = true ↔ sid ∈ map rs_sid (revoked_list l)) ∧
        (([] : list fate) = [] → rev_layout ∅ → ∃ s2,
           @start_revocations (count_serde RevocationsResponse) sample_world run.1.2 [] =
             (Returned (Ok s2), run.1.2, []) ∧
           ∀ sid, is_revoked (rev_world s2) sid = is_revoked (rev_world s') sid)
    end.
Proof.
  intros run. assert (returned run.1.1 = true) as Hret by (by vm_compute).
  destruct run as [[[res|] fs'] rest] eqn:Hrun; [|done].
  destruct (@revocations_in_force (count_serde RevocationsResponse) (count_serde_laws RevocationsResponse)
    sample_base gateway_one false (PolicyUnits.from_secs 60) sample_world sample_world [down; rev_up] ∅ fs' [] rest res Hrun)
    as (s' & slept & -> & Hs).
  exists s', slept. split; [reflexivity|exact Hs].
Defined.

Definition ten_up : Peer := λ poll,
  Ok (if decide (if_none_match poll = Some (etag (list_version acme_list))) then mkResponse 304 []
      else mkResponse 200 (@to_vec _ (count_serde TenantList) acme_list)).
Definition one_list (v : Z) : option TenantList := if v =? 1 then Some acme_list else None.

Lemma tenant_sync_converges_witness :
  let img := @image sample_jwt unit unit no_toml no_yaml (λ s, Some s) (λ s, s) in
  let turn := @tenant_turn (count_serde TenantList) sample_jwt unit unit no_toml no_yaml (λ s, Some s) (λ s, s)
    sample_base gateway_one (PolicyUnits.from_secs 60) in
  let s := @mkTenantSync sample_jwt (img acme_list) (sync fresh_sync) BACKOFF_MIN in
  serving_list no_toml no_yaml (λ s, Some s) (λ s, s) one_list s ∧
  ∃ s2 fs2 rest, turn (mkTurn ten_up (9 * 10 ^ 9) 9000) s ∅ [] = (Returned (Ok (s2, None)), fs2, rest) ∧
    tenants s2 = img acme_list ∧ ss_healthy (ten_sync s2) = true.
Proof.
  intros img turn s. set (t := mkTurn ten_up (9 * 10 ^ 9) 9000).
  assert (is_list one_list acme_list) as Hl by (by split).
  assert (returned (turn t s ∅ []).1.1 = true) as Hret by reflexivity.
  destruct (turn t s ∅ []) as [[[res|] fs2] rest] eqn:Hturn; [|done].
  destruct (@tenant_sync_converges sample_jwt (count_serde TenantList) (count_serde_laws TenantList) unit unit no_toml
    no_yaml (λ s, Some s) (λ s, s) sample_base gateway_one (PolicyUnits.from_secs 60) one_list [] t acme_list s ∅ ∅ fs2
    [] [] rest s [] res) as (Hs & s2 & -> & Ht & Hh).
  - by exists acme_list.
  - constructor.
  - reflexivity.
  - by intros poll.
  - exact Hl.
  - exact Hturn.
  - split; [exact Hs|]. by exists s2, fs2, rest.
Defined.
