(* ===== verification/Minting.v ===== *)
(** * Exchanging a CI token for a credential

    Model of the minters and the credential check of a single-organisation
    gateway ([crates/skimasque-cli/src/bin/skimasque-server.rs]) and of the calls
    they make to the control plane ([fetch_signing_key] and [mint_credential] of
    [crates/skimasque-cli/src/control.rs]).

    Without a control plane the gateway signs credentials with its own secret.
    With one, it asks the control plane, which signs with the organisation's key,
    and falls back to its secret; tunnels are then checked against the
    organisation's published keys and against the secret. *)

From S2P Require Import Prelude RustStr RustNet PolicyDest PolicyUnits PolicyModel PolicyEval PolicyParse.
From S2P Require Import Identity Credential Tenant Platform Service Revocation StateDir ControlSync.

Definition SIGNING_KEY : str := "signing-key.json".
Definition FALLBACK_CREDENTIAL_TTL : Z := 300.

Record OrgSigningKey : Type := mkOrgSigningKey { sk_org_id : str; sk_key : SigningKey }.
Record MintResponse : Type := mkMintResponse { mint_credential_token : str; mint_expires_in : Z }.
Record MintRequest : Type := mkMint { mint_identity : WorkloadIdentity; mint_subject : option str; mint_ttl_seconds : Z }.

Section minting.
Context `{HJ : Jwt, HO : Oidc, Serde OrgSigningKey, Serde MintResponse}.
Context (base64_standard : str → option (list Z)).
Context (published : nat → result IdentityError JwkSet) (jwks_ttl : Z).
Context (display_error : IdentityError → str).

(** ** Asking the control plane *)

(** [ControlPlane::mint_credential]; [post] is the control plane. *)
Definition mint_credential (post : MintRequest → result error Response) (workload : WorkloadIdentity)
    (subject : option str) (ttl : Z) : result error Issued :=
  response ← result_context (of_string "requesting a minted credential") (post (mkMint workload subject ttl));
  response ← error_for_status response (of_string "credential mint");
  body ← ok_or (from_slice (resp_body response)) [of_string "parsing the mint response"];
  Ok (mkIssued (mint_credential_token body) (mint_expires_in body)).

Definition org_signing_key (org : str) : str := of_string "/v1/orgs/" ++ org ++ of_string "/signing-key".

(** [SigningKey::public_key_bytes]. *)
Definition public_key_bytes (k : SigningKey) : option (list Z) := base64_standard (public_key_b64 k).

Definition fetch_signing_key (peer : Peer) (base_url org : str) : Io OrgSigningKey :=
  response ← io_of (result_context (of_string "fetching the org signing key")
                      (peer (mkPoll (base_url ++ org_signing_key org) None)));
  response ← io_of (error_for_status response (of_string "signing-key fetch"));
  key ← io_of (ok_or (from_slice (resp_body response)) [of_string "parsing the signing-key response"]);
  if negb (eq_ignore_ascii_case (algorithm (sk_key key)) "ed25519") then
    io_of (Err [of_string "the control plane served a signing key that is not Ed25519"])
  else
    _ ← io_of (ok_or (public_key_bytes (sk_key key)) [of_string "the org signing key"]);
    _ ← context (of_string "creating the control-plane state directory") fs_create_state_dir;
    _ ← attempt (fs_write SIGNING_KEY (to_vec key));
    mret key.

Definition load_cached_signing_key : Io (option OrgSigningKey) :=
  bytes ← attempt (fs_read SIGNING_KEY);
  mret (decode_file bytes).

(** ** The minters *)

Record OidcMinter : Type := mkOidcMinter {
  om_oidc : Verifier;
  om_provider : Provider;
  om_credentials : CredentialIssuer;
}.

(** What both minters make of an error of the token check. *)
Definition claims_error (e : IdentityError) : MintError :=
  match e with
  | Discovery _ | JwksError _ => Unavailable (display_error e)
  | other => Unauthorized (display_error other)
  end.

Definition oidc_mint (m : OidcMinter) (now : Z) (identity_token : str) (c : Jwks) : result MintError Issued * Jwks :=
  let '(claims, c) := verify_claims published jwks_ttl (om_oidc m) now identity_token c in
  (claims ← map_err claims_error claims;
   let identity := identify (om_provider m) claims in
   map_err (λ e, Unavailable (display_error e)) (issue (om_credentials m) identity (subject claims) now), c).

Record RemoteMinter : Type := mkRemoteMinter {
  rm_oidc : Verifier;
  rm_provider : Provider;
  rm_post : MintRequest → result error Response;
  rm_ttl : Z;
  rm_fallback : option CredentialIssuer;
}.

Definition remote_mint (m : RemoteMinter) (now : Z) (identity_token : str) (c : Jwks) : result MintError Issued * Jwks :=
  let '(claims, c) := verify_claims published jwks_ttl (rm_oidc m) now identity_token c in
  (claims ← map_err claims_error claims;
   let workload := identify (rm_provider m) claims in
   match mint_credential (rm_post m) workload (subject claims) (rm_ttl m) with
   | Ok minted => Ok minted
   | Err _ =>
       match rm_fallback m with
       | Some issuer =>
           map_err (λ e, Unavailable (display_error e))
             (issue_for issuer workload (subject claims) FALLBACK_CREDENTIAL_TTL now)
       | None => Err (Unavailable (of_string "the control plane could not mint a credential"))
       end
   end, c).

(** ** Checking a credential *)

Record CredentialIdentity : Type := mkCredentialIdentity {
  cid_ed : option CredentialVerifier;
  cid_hs : CredentialIssuer;
}.

Definition credential_identity_verify (v : CredentialIdentity) (now : Z) (token : str) : result str WorkloadIdentity :=
  match cid_ed v ≫= (λ ed, result_ok (credential_verify ed now token)) with
  | Some identity => Ok identity
  | None => map_err display_error (issuer_verify (cid_hs v) now token)
  end.

(** ** Wiring and refreshing the organisation's key *)

(** The key [wire_oidc_to_control_plane] starts with. *)
Definition initial_signing_key (peer : Peer) (base_url org : str) : Io OrgSigningKey :=
  fetched ← attempt (fetch_signing_key peer base_url org);
  match fetched with
  | Ok key => mret key
  | Err e =>
      cached ← load_cached_signing_key;
      match cached with
      | Some key => mret key
      | None => io_of (Err (of_string "the control plane's org signing key is needed to verify credentials and is not cached" :: e))
      end
  end.

Definition verifier_of (k : OrgSigningKey) : option CredentialVerifier :=
  from_ed_public_keys <$> all_public_key_bytes base64_standard (sk_key k).

(** [wire_oidc_to_control_plane]: the minter and the check of a gateway that has
    a control plane. *)
Definition wire_oidc_to_control_plane (parts : OidcMinter) (peer : Peer) (post : MintRequest → result error Response)
    (base_url org : str) (ttl : Z) (no_fallback : bool) : Io (RemoteMinter * CredentialIdentity) :=
  key ← initial_signing_key peer base_url org;
  ed ← io_of (ok_or (verifier_of key) [of_string "decoding an Ed25519 signing key"]);
  mret (mkRemoteMinter (om_oidc parts) (om_provider parts) post ttl
          (if no_fallback : bool then None else Some (om_credentials parts)),
        mkCredentialIdentity (Some ed) (om_credentials parts)).

(** One tick of [run_signing_key_refresh]. *)
Definition refresh_tick (peer : Peer) (base_url org : str) (ed : CredentialVerifier) : Io CredentialVerifier :=
  fetched ← attempt (fetch_signing_key peer base_url org);
  mret match fetched with
  | Ok key => default ed (verifier_of key)
  | Err _ => ed
  end.

Fixpoint run_signing_key_refresh (peers : list Peer) (base_url org : str) (ed : CredentialVerifier)
    : Io CredentialVerifier :=
  match peers with
  | [] => mret ed
  | p :: peers => ed ← refresh_tick p base_url org ed; run_signing_key_refresh peers base_url org ed
  end.
End minting.

(** ** What is accepted *)

Section correctness.
Context `{HJ : Jwt} {HL : JwtLaws} `{HO : Oidc, HS : Serde OrgSigningKey, HMR : Serde MintResponse}.
Context (base64_standard : str → option (list Z)).
Context (published : nat → result IdentityError JwkSet) (jwks_ttl : Z).
Context (display_error : IdentityError → str).

Abbreviation accepts := (credential_identity_verify display_error).

Lemma decode_Ok a k now t i :
  decode a k now t = Ok i ↔ ∃ c, signed a k t ∧ claims_of t = Some c ∧ valid_at now c ∧ cred_identity c = i.
Proof.
  unfold decode. rewrite fmap_Ok. setoid_rewrite decode_claims_Ok. split.
  - intros (c & -> & Hs & Hc & Hv). by exists c.
  - intros (c & Hs & Hc & Hv & <-). by exists c.
Qed.

Lemma credential_verify_Ok v now t i :
  credential_verify v now t = Ok i ↔
  ∃ k c, k ∈ cv_decoding v ∧ signed EdDSA k t ∧ claims_of t = Some c ∧ valid_at now c ∧ cred_identity c = i.
Proof.
  unfold credential_verify. rewrite try_keys_Ok.
  - setoid_rewrite decode_Ok. split.
    + intros (k & Hin & c & Hs & Hc & Hv & <-). by exists k, c.
    + intros (k & c & Hin & Hs & Hc & Hv & <-). exists k. split; [done|]. by exists c.
  - intros k k' a a' (c & _ & Hc & _ & <-)%decode_Ok (c' & _ & Hc' & _ & <-)%decode_Ok. congruence.
Qed.

(** A credential is accepted exactly when its claims are the platform's and in
    time, and the gateway's secret or one of the organisation's keys signed it. *)
Lemma credential_identity_Ok v now t i :
  accepts v now t = Ok i ↔
  ∃ c, claims_of t = Some c ∧ valid_at now c ∧ cred_identity c = i ∧
    (signed HS256 (ci_decoding (cid_hs v)) t ∨
     ∃ ed k, cid_ed v = Some ed ∧ k ∈ cv_decoding ed ∧ signed EdDSA k t).
Proof.
  unfold credential_identity_verify.
  assert (∀ x, map_err display_error (issuer_verify (cid_hs v) now t) = Ok x ↔
    ∃ c, signed HS256 (ci_decoding (cid_hs v)) t ∧ claims_of t = Some c ∧ valid_at now c ∧ cred_identity c = x) as Hhs.
  { intros x. rewrite map_err_Ok. apply decode_Ok. }
  destruct (cid_ed v) as [ed|]; cbn [mbind option_bind].
  - destruct (credential_verify ed now t) as [j|e] eqn:Hv; cbn [result_ok].
    + pose proof Hv as (k & c & Hin & Hs & Hc & Hval & Hj)%credential_verify_Ok. split.
      * intros [= <-]. exists c. split_and!; [done..|]. right. by exists ed, k.
      * intros (c' & Hc' & _ & Hi & _). congruence.
    + rewrite Hhs. split.
      * intros (c & Hs & Hc & Hval & Hi). exists c. split_and!; [done..|by left].
      * intros (c & Hc & Hval & Hi & [Hs|(ed' & k & [= <-] & Hin & Hs)]); [by exists c|].
        exfalso. assert (credential_verify ed now t = Ok i) as Hv' by (apply credential_verify_Ok; eauto 10).
        congruence.
  - rewrite Hhs. split.
    + intros (c & Hs & Hc & Hval & Hi). exists c. split_and!; [done..|by left].
    + intros (c & Hc & Hval & Hi & [Hs|(ed' & k & [=] & _)]). by exists c.
Qed.

(** A freshly encoded credential, checked where its signature is. *)
Lemma encode_accepted a ek ttl i subject org now0 r v :
  encode a ek ttl i subject org now0 = Ok r → 0 ≤ now0 → 0 ≤ ttl → now0 + ttl < 2 ^ 63 →
  (signed HS256 (ci_decoding (cid_hs v)) (token r) ∨
   ∃ ed k, cid_ed v = Some ed ∧ k ∈ cv_decoding ed ∧ signed EdDSA k (token r)) →
  expires_in r = ttl ∧ ∀ now j, accepts v now (token r) = Ok j ↔ j = i ∧ now ≤ now0 + ttl + 30.
Proof.
  intros He Hn Ht Hsum Hsig. unfold encode in He. apply bind_Ok in He as (t & Henc%map_err_Ok & [= <-]).
  split; [done|]. intros now j. cbn [token] in *. rewrite credential_identity_Ok.
  pose proof (encode_payload _ _ _ _ Henc) as Hp. unfold claims_of. rewrite Hp.
  rewrite !to_i64_small by (rewrite ?to_i64_small by lia; lia). split.
  - intros (c & [= <-] & [_ Hexp] & <- & _). cbn in *. split; [done|lia].
  - intros [-> Hnow]. eexists. split; [done|]. split_and!; [by split; [|cbn; lia]|done|done].
Qed.

(** The secret a gateway signs with is the one it checks with. *)
Definition own_secret (s : CredentialIssuer) : Prop := paired HS256 (ci_encoding s) (ci_decoding s).

Lemma issue_for_accepted s i subject ttl now0 r ed :
  own_secret s → issue_for s i subject ttl now0 = Ok r → 0 ≤ now0 → 0 ≤ ttl → now0 + ttl < 2 ^ 63 →
  expires_in r = ttl ∧
  ∀ now j, accepts (mkCredentialIdentity ed s) now (token r) = Ok j ↔ j = i ∧ now ≤ now0 + ttl + 30.
Proof.
  intros Hown Hi Hn Ht Hsum. apply (encode_accepted HS256 (ci_encoding s) ttl i subject None now0); [done..|].
  left. cbn [cid_hs]. unfold issue_for, encode in Hi. apply bind_Ok in Hi as (t & Henc%map_err_Ok & [= <-]).
  by apply (encode_signs _ _ _ _ _ Henc).
Qed.

(** C13.  A CI job's token opens tunnels as that job.  When the exchange answers
    with a credential, the token's claims were checked against the issuer's keys,
    and from then until half a minute past its lifetime the gateway's check
    accepts that credential, whatever organisation keys it also holds, with
    exactly the identity those claims describe. *)
Theorem exchange_opens_tunnels (m : OidcMinter) (issued_at : Z) (identity_token : str) (c c' : Jwks) (r : Issued) :
  oidc_mint published jwks_ttl display_error m issued_at identity_token c = (Ok r, c') →
  own_secret (om_credentials m) → 0 ≤ issued_at → 0 ≤ ci_ttl (om_credentials m) →
  issued_at + ci_ttl (om_credentials m) < 2 ^ 63 →
  ∃ claims keys, trusted published jwks_ttl issued_at c c' keys ∧ checks (om_oidc m) keys issued_at identity_token claims ∧
    expires_in r = ci_ttl (om_credentials m) ∧
    ∀ ed now i, accepts (mkCredentialIdentity ed (om_credentials m)) now (token r) = Ok i ↔
      i = identify (om_provider m) claims ∧ now ≤ issued_at + ci_ttl (om_credentials m) + 30.
Proof.
  unfold oidc_mint. intros Hm Hown Hn Ht Hsum.
  destruct (verify_claims published jwks_ttl (om_oidc m) issued_at identity_token c) as [res c1] eqn:Hv.
  injection Hm as Hm <-. apply bind_Ok in Hm as (claims & Hc%map_err_Ok & Hm). subst res.
  apply map_err_Ok in Hm. destruct (verify_claims_Ok _ _ _ _ _ _ _ _ Hv) as [(keys & Htr & Hch) _].
  exists claims, keys. split; [done|]. split; [done|]. split.
  - by apply (issue_for_accepted _ _ _ _ _ _ None Hown Hm).
  - intros ed. by apply (issue_for_accepted _ _ _ _ _ _ ed Hown Hm).
Qed.

(** ** Minting with a control plane *)

(** The control plane granted the credential [r]. *)
Definition granted_mint (answer : result error Response) (r : Issued) : Prop :=
  ∃ resp body, answer = Ok resp ∧ 200 ≤ resp_status resp < 300 ∧ from_slice (resp_body resp) = Some body ∧
    r = mkIssued (mint_credential_token body) (mint_expires_in body).

Lemma error_for_status_Ok resp what resp' :
  error_for_status resp what = Ok resp' ↔ resp' = resp ∧ 200 ≤ resp_status resp < 300.
Proof.
  unfold error_for_status. destruct ((200 <=? resp_status resp) && (resp_status resp <? 300)) eqn:Hst.
  - apply andb_true_iff in Hst as [?%Z.leb_le ?%Z.ltb_lt]. split; [by intros [= <-]|by intros [-> _]].
  - apply andb_false_iff in Hst. rewrite Z.leb_gt, Z.ltb_ge in Hst. split; [done|]. intros [_ ?]. lia.
Qed.

Lemma mint_credential_Ok post workload subject ttl r :
  mint_credential post workload subject ttl = Ok r ↔ granted_mint (post (mkMint workload subject ttl)) r.
Proof.
  unfold mint_credential, granted_mint, result_context. rewrite bind_Ok. split.
  - intros (resp & Hp%map_err_Ok & Hb). apply bind_Ok in Hb as (resp' & [-> Hst]%error_for_status_Ok & Hb).
    apply bind_Ok in Hb as (body & Hbody%ok_or_Ok & [= <-]). by exists resp, body.
  - intros (resp & body & Hp & Hst & Hbody & ->). exists resp. rewrite Hp. split; [done|].
    rewrite (proj2 (error_for_status_Ok resp _ resp)) by done. bind_simpl. by rewrite Hbody.
Qed.

(** What an exchange through the control plane can answer.  The token is
    checked first and the control plane is asked for exactly the identity its
    claims describe.  If it grants the credential, that is the answer; if it does
    not, the answer is an error, or, with a fallback, a credential of five minutes
    for the same identity signed with the gateway's own secret, which the gateway
    accepts as that identity and no other. *)
Theorem remote_mint_answers (m : RemoteMinter) (issued_at : Z) (identity_token : str) (c c' : Jwks) (r : Issued) :
  remote_mint published jwks_ttl display_error m issued_at identity_token c = (Ok r, c') →
  ∃ claims keys, trusted published jwks_ttl issued_at c c' keys ∧ checks (rm_oidc m) keys issued_at identity_token claims ∧
    let workload := identify (rm_provider m) claims in
    let answer := rm_post m (mkMint workload (subject claims) (rm_ttl m)) in
    granted_mint answer r ∨
    (∀ r', ¬ granted_mint answer r') ∧ ∃ issuer, rm_fallback m = Some issuer ∧ expires_in r = FALLBACK_CREDENTIAL_TTL ∧
      (own_secret issuer → 0 ≤ issued_at < 2 ^ 62 →
       ∀ ed now i, accepts (mkCredentialIdentity ed issuer) now (token r) = Ok i ↔
         i = workload ∧ now ≤ issued_at + FALLBACK_CREDENTIAL_TTL + 30).
Proof.
  unfold remote_mint. intros Hm.
  destruct (verify_claims published jwks_ttl (rm_oidc m) issued_at identity_token c) as [res c1] eqn:Hv.
  injection Hm as Hm <-. apply bind_Ok in Hm as (claims & Hc%map_err_Ok & Hm). subst res.
  destruct (verify_claims_Ok _ _ _ _ _ _ _ _ Hv) as [(keys & Htr & Hch) _].
  exists claims, keys. split; [done|]. split; [done|]. cbv zeta.
  destruct (mint_credential _ _ _ _) as [minted|e] eqn:Hmint.
  - left. injection Hm as <-. by apply mint_credential_Ok.
  - right. split; [intros r' Hr'; by rewrite (proj2 (mint_credential_Ok _ _ _ _ _) Hr') in Hmint|].
    destruct (rm_fallback m) as [issuer|]; [|done]. apply map_err_Ok in Hm. exists issuer. split; [done|]. split.
    + unfold issue_for, encode in Hm. by apply bind_Ok in Hm as (t & _ & [= <-]).
    + intros Hown Hn ed. apply (issue_for_accepted _ _ _ _ _ _ ed Hown Hm); unfold FALLBACK_CREDENTIAL_TTL; lia.
Qed.

(** The fallback is taken on every error, a refusal included: a gateway whose
    control plane answers 403 for a workload signs for it all the same. *)
Lemma refused_mint_falls_back m issuer issued_at identity_token c c' claims resp t :
  verify_claims published jwks_ttl (rm_oidc m) issued_at identity_token c = (Ok claims, c') →
  rm_post m (mkMint (identify (rm_provider m) claims) (subject claims) (rm_ttl m)) = Ok resp →
  resp_status resp = 403 → rm_fallback m = Some issuer →
  jwt_encode HS256 (ci_encoding issuer) (mkCredentialClaims CREDENTIAL_ISSUER issued_at
    (to_i64 (issued_at + to_i64 FALLBACK_CREDENTIAL_TTL)) (subject claims) None (identify (rm_provider m) claims)) = Ok t →
  remote_mint published jwks_ttl display_error m issued_at identity_token c =
    (Ok (mkIssued t FALLBACK_CREDENTIAL_TTL), c').
Proof.
  intros Hv Hp H403 Hf He. unfold remote_mint. rewrite Hv. f_equal. bind_simpl.
  destruct (mint_credential _ _ _ _) as [r|e] eqn:Hm.
  - apply mint_credential_Ok in Hm as (resp' & body & Hp' & Hst & _). rewrite Hp in Hp'. injection Hp' as <-. lia.
  - rewrite Hf. unfold issue_for, encode. by rewrite He.
Qed.

(** ** The organisation's key *)

(** The control plane serves [key]. *)
Definition serves_key (peer : Peer) (key : OrgSigningKey) : Prop :=
  ∀ poll, ∃ resp, peer poll = Ok resp ∧ 200 ≤ resp_status resp < 300 ∧ from_slice (resp_body resp) = Some key.

(** Rotating the organisation's key interrupts no one.  After a refresh in
    which the control plane serves the new key and the one before it, a credential
    signed with either is accepted, as its identity and until half a minute past
    its lifetime, whether it was issued before the rotation or after. *)
Theorem rotation_keeps_credentials (peer : Peer) (base_url org : str) (ed : CredentialVerifier) (key : OrgSigningKey)
    (keys : list (list Z)) (fs : Fs) (s : CredentialSigner) (pk : list Z) (i : WorkloadIdentity) (sub : option str)
    (issued_at : Z) (r : Issued) (hs : CredentialIssuer) :
  serves_key peer key → eq_ignore_ascii_case (algorithm (sk_key key)) "ed25519" = true →
  all_public_key_bytes base64_standard (sk_key key) = Some keys →
  pk ∈ keys → paired EdDSA (cs_encoding s) (ed_public pk) →
  signer_issue s i sub issued_at = Ok r → 0 ≤ issued_at → 0 ≤ cs_ttl s → issued_at + cs_ttl s < 2 ^ 63 →
  ∃ ed' fs', refresh_tick base64_standard peer base_url org ed fs [] = (Returned (Ok ed'), fs', []) ∧
    ∀ now j, accepts (mkCredentialIdentity (Some ed') hs) now (token r) = Ok j ↔
      j = i ∧ now ≤ issued_at + cs_ttl s + 30.
Proof.
  intros Hp Ha Hk Hin Hpair Hi Hn Ht Hsum.
  assert (is_Some (public_key_bytes base64_standard (sk_key key))) as [b Hb].
  { unfold all_public_key_bytes in Hk. unfold public_key_bytes. by destruct (base64_standard _); [eexists|]. }
  exists (from_ed_public_keys keys).
  assert (∃ fs', refresh_tick base64_standard peer base_url org ed fs [] = (Returned (Ok (from_ed_public_keys keys)), fs', [])) as (fs' & Hrun).
  { unfold refresh_tick, fetch_signing_key.
    destruct (Hp (mkPoll (base_url ++ org_signing_key org) None)) as (resp & Hr & Hst & Hbody).
    cbv [mbind io_mbind io_bind attempt io_of]. rewrite Hr. cbn [result_context map_err].
    rewrite (proj2 (error_for_status_Ok resp _ resp)) by done. rewrite Hbody. cbn [ok_or]. rewrite Ha. cbn [negb].
    rewrite Hb. cbn [ok_or]. cbv [context fs_create_state_dir prim fs_write mret io_mret io_of tail].
    assert (default ed (verifier_of base64_standard key) = from_ed_public_keys keys) as Hd
      by (unfold verifier_of; by rewrite Hk).
    destruct (fs !! SIGNING_KEY) as [[]|]; eexists; by rewrite Hd. }
  exists fs'. split; [done|].
  apply (encode_accepted EdDSA (cs_encoding s) (cs_ttl s) i sub None issued_at r); [done..|].
  right. cbn [cid_ed]. exists (from_ed_public_keys keys), (ed_public pk). split; [done|]. split.
  - cbn. by apply list_elem_of_fmap_2.
  - unfold signer_issue, encode in Hi. apply bind_Ok in Hi as (t & Henc%map_err_Ok & [= <-]).
    by apply (encode_signs _ _ _ _ _ Henc).
Qed.
End correctness.

(** ** Witnesses *)

Definition sample_issuer : @CredentialIssuer sample_jwt := @mkIssuer sample_jwt 7%nat 7%nat 600.
Definition sample_minter : @OidcMinter sample_jwt := @mkOidcMinter sample_jwt sample_verifier GitHubActions sample_issuer.
Definition sample_display (_ : IdentityError) : str := of_string "error".
Definition sample_job : WorkloadIdentity := identify GitHubActions sample_claims.
Definition job_claims (ttl : Z) : CredentialClaims :=
  mkCredentialClaims CREDENTIAL_ISSUER 10 (to_i64 (10 + to_i64 ttl)) (subject sample_claims) None sample_job.
Definition job_credential (key : nat) (ttl : Z) : @Issued := mkIssued (sample_token key (job_claims ttl)) ttl.
Definition after_fetch : @Jwks sample_oidc := @mkJwks sample_oidc (Some (new_keys, 10)) 1.

Lemma exchange_opens_tunnels_witness :
  @oidc_mint sample_jwt sample_oidc sample_published 3600 sample_display sample_minter 10 "new" sample_cache =
    (Ok (job_credential 7 600), after_fetch) ∧
  ∃ claims keys, trusted sample_published 3600 10 sample_cache after_fetch keys ∧
    checks sample_verifier keys 10 "new" claims ∧ expires_in (job_credential 7 600) = 600 ∧
    ∀ ed now i, @credential_identity_verify sample_jwt sample_display (mkCredentialIdentity ed sample_issuer) now
        (token (job_credential 7 600)) = Ok i ↔
      i = identify GitHubActions claims ∧ now ≤ 10 + 600 + 30.
Proof.
  assert (@oidc_mint sample_jwt sample_oidc sample_published 3600 sample_display sample_minter 10 "new" sample_cache =
    (Ok (job_credential 7 600), after_fetch)) as Hrun by reflexivity.
  split; [exact Hrun|].
  apply (@exchange_opens_tunnels sample_jwt sample_laws sample_oidc sample_published 3600 sample_display sample_minter
    10 "new" sample_cache after_fetch (job_credential 7 600) Hrun); [reflexivity|cbn; lia..].
Defined.

Definition refusing (_ : MintRequest) : result error Response := Ok (mkResponse 403 []).
Definition sample_remote : @RemoteMinter sample_jwt :=
  @mkRemoteMinter sample_jwt sample_verifier GitHubActions refusing 3600 (Some sample_issuer).
Definition no_mint_responses : Serde MintResponse := {| to_vec := λ _, []; from_slice := λ _, None |}.

Lemma remote_mint_answers_witness :
  @remote_mint sample_jwt sample_oidc no_mint_responses sample_published 3600 sample_display sample_remote 10 "new"
    sample_cache = (Ok (job_credential 7 300), after_fetch) ∧
  ∃ claims keys, trusted sample_published 3600 10 sample_cache after_fetch keys ∧
    checks sample_verifier keys 10 "new" claims ∧
    let workload := identify GitHubActions claims in
    let answer := refusing (mkMint workload (subject claims) 3600) in
    @granted_mint no_mint_responses answer (job_credential 7 300) ∨
    (∀ r', ¬ @granted_mint no_mint_responses answer r') ∧
    ∃ issuer, Some sample_issuer = Some issuer ∧ expires_in (job_credential 7 300) = FALLBACK_CREDENTIAL_TTL ∧
      (@own_secret sample_jwt sample_laws issuer → 0 ≤ 10 < 2 ^ 62 →
       ∀ ed now i, @credential_identity_verify sample_jwt sample_display (mkCredentialIdentity ed issuer) now
           (token (job_credential 7 300)) = Ok i ↔
         i = workload ∧ now ≤ 10 + FALLBACK_CREDENTIAL_TTL + 30).
Proof.
  assert (@remote_mint sample_jwt sample_oidc no_mint_responses sample_published 3600 sample_display sample_remote 10
    "new" sample_cache = (Ok (job_credential 7 300), after_fetch)) as Hrun by reflexivity.
  split; [exact Hrun|].
  exact (@remote_mint_answers sample_jwt sample_laws sample_oidc no_mint_responses sample_published 3600 sample_display
    sample_remote 10 "new" sample_cache after_fetch (job_credential 7 300) Hrun).
Defined.

Definition rotated_key : OrgSigningKey :=
  mkOrgSigningKey (of_string "org_1") (mkSigningKey (of_string "Ed25519") (of_string "abcdefg") (Some (of_string "abc"))).
Definition one_key : Serde OrgSigningKey := {| to_vec := λ _, []; from_slice := λ _, Some rotated_key |}.
Definition key_server : Peer := λ _, Ok (mkResponse 200 []).

Definition old_signer : @CredentialSigner sample_jwt := @mkSigner sample_jwt 3%nat 600.
Definition old_credential : Issued := mkIssued (sample_token 3 (mkCredentialClaims CREDENTIAL_ISSUER 10
  (to_i64 (10 + to_i64 600)) None None sample_job)) 600.

Lemma rotation_keeps_credentials_witness :
  @signer_issue sample_jwt old_signer sample_job None 10 = Ok old_credential ∧
  ∃ ed' fs', @refresh_tick sample_jwt one_key (λ s, Some s) key_server sample_base (of_string "org_1")
      (@mkCredentialVerifier sample_jwt []) ∅ [] = (Returned (Ok ed'), fs', []) ∧
    ∀ now j, @credential_identity_verify sample_jwt sample_display (mkCredentialIdentity (Some ed') sample_issuer) now
        (token old_credential) = Ok j ↔ j = sample_job ∧ now ≤ 10 + 600 + 30.
Proof.
  assert (@signer_issue sample_jwt old_signer sample_job None 10 = Ok old_credential) as Hi by reflexivity.
  split; [exact Hi|].
  apply (@rotation_keeps_credentials sample_jwt sample_laws one_key (λ s, Some s) sample_display key_server sample_base
    (of_string "org_1") (@mkCredentialVerifier sample_jwt []) rotated_key [of_string "abcdefg"; of_string "abc"] ∅
    old_signer (of_string "abc") sample_job None 10 old_credential sample_issuer).
  - intros poll. exists (mkResponse 200 []). split; [reflexivity|]. split; [cbn; lia|reflexivity].
  - by vm_compute.
  - reflexivity.
  - right. left.
  - reflexivity.
  - exact Hi.
  - lia.
  - cbn. lia.
  - cbn. lia.
Defined.
