(* ===== verification/ServerStart.v ===== *)
(** * Starting a gateway

    Model of the start-up decisions of
    [crates/skimasque-cli/src/bin/skimasque-server.rs] (ceilings, warnings, template,
    labels, timings, OIDC settings, the identity of a gateway) and of [register],
    [register_platform] and [set_labels] of [crates/skimasque-cli/src/control.rs],
    with [parse_hex] of [crates/skimasque-cli/src/probe.rs].

    [debug] is the [Debug] form of a string and [display_unit_error] the text of an
    error of the unit parsers. *)

From S2P Require Import Prelude RustStr RustNet Template Target PolicyUnits PolicyModel Identity Credential Tenant Rates.
From S2P Require Import Service Platform StateDir ControlSync.

Record Flags : Type := mkFlags {
  fl_hostname : str;
  fl_listen : SocketAddr;
  fl_template : option str;
  fl_authority : option str;
  fl_auth_token : option str;
  fl_oidc : bool;
  fl_oidc_provider : str;
  fl_oidc_claims : list str;
  fl_oidc_audiences : list str;
  fl_oidc_issuer : option str;
  fl_credential_secret : option str;
  fl_credential_ttl : str;
  fl_policy_dir : option str;
  fl_policy_files : list str;
  fl_allow_private : bool;
  fl_control_plane : option str;
  fl_control_plane_token : option str;
  fl_control_plane_name : option str;
  fl_control_plane_label : list str;
  fl_control_plane_interval : str;
  fl_control_plane_policy_lease : str;
  fl_control_plane_cache_ttl : str;
  fl_platform : bool;
  fl_acme : bool;
  fl_acme_challenge_port : option Z;
  fl_acme_extra_domains : list str;
  fl_acme_email : option str;
  fl_max_connections : Z;
  fl_max_connection_rate : Z;
  fl_max_connection_burst : Z;
  fl_max_source_connection_rate : Z;
  fl_max_source_connection_burst : Z;
  fl_max_exchange_rate : Z;
  fl_max_exchange_burst : Z;
  fl_max_tunnels_per_connection : Z;
  fl_tunnel_idle_timeout : str;
}.

(** ** Names *)

Definition acme_challenge_addr (args : Flags) : SocketAddr :=
  {| sa_ip := sa_ip (fl_listen args); sa_port := default (sa_port (fl_listen args)) (fl_acme_challenge_port args) |}.

Definition hostname_only (hostname : str) : str :=
  let bracketed := rest ← strip_prefix "[" hostname; fst <$> split_once 93 rest in
  match bracketed with
  | Some h => h
  | None =>
      match rsplit_once 58 hostname with
      | Some (h, port) => if bool_decide (is_Some (parse_u16 port)) then h else hostname
      | None => hostname
      end
  end.

(** The domains and the contact of the ACME account. *)
Definition acme_domains (args : Flags) : list str :=
  fold_left (λ ds d, if bool_decide (d ∈ ds) then ds else ds ++ [d]) (fl_acme_extra_domains args)
    [hostname_only (fl_hostname args)].
Definition acme_contact (args : Flags) : option str :=
  (λ e, if contains 58 e then e else "mailto:" ++ e) <$> fl_acme_email args.

Definition platform_base_url (hostname : str) : str :=
  let host := trim_end_matches 47 (trim hostname) in
  let host := match strip_suffix ":443" host with
              | Some bare =>
                  if negb (bool_decide (bare = [])) && (ends_with "]" bare || negb (contains 58 bare)) then bare else host
              | None => host
              end in
  "https://" ++ host.

(** ** Ceilings, warnings, template *)

Section start.
Context (debug : str → str) (display_unit_error : ParseUnitError → str).

Definition parse_duration_flag (flag value : str) : result str Duration :=
  map_err (λ e, "parsing " ++ flag ++ ": " ++ display_unit_error e) (parse_duration value).

Definition rate_of (per_second burst : Z) : option ConnectionRate :=
  if 0 <? per_second then Some (mkConnectionRate per_second (Z.max burst 1)) else None.

Definition build_limits (args : Flags) : result str ResourceLimits :=
  idle ← parse_duration_flag "--tunnel-idle-timeout" (fl_tunnel_idle_timeout args);
  Ok (mkResourceLimits
    (if 0 <? fl_max_connections args then Some (Z.to_nat (fl_max_connections args)) else None)
    (rate_of (fl_max_connection_rate args) (fl_max_connection_burst args))
    (rate_of (fl_max_source_connection_rate args) (fl_max_source_connection_burst args))
    (rate_of (fl_max_exchange_rate args) (fl_max_exchange_burst args))
    (if 0 <? fl_max_tunnels_per_connection args then Some (Z.to_nat (fl_max_tunnels_per_connection args)) else None)
    (if bool_decide (idle = ZERO) then None else Some idle)).

Definition has_identity (args : Flags) : bool := bool_decide (is_Some (fl_auth_token args)) || fl_oidc args.
Definition has_policy (args : Flags) : bool :=
  bool_decide (is_Some (fl_policy_dir args)) || negb (bool_decide (fl_policy_files args = [])) ||
  bool_decide (is_Some (fl_control_plane args)).

Definition warn_if (b : bool) (text : str) : list str := if b then [text] else [].
Definition startup_warnings (args : Flags) : list str :=
  warn_if (negb (has_identity args)) "no --auth-token or --oidc set; anyone who can reach this port can use it" ++
  warn_if (has_identity args && negb (has_policy args))
    "no --policy-dir/--policy-file: authenticated clients may reach any address the network floor permits; add a policy to authorize per destination" ++
  warn_if (fl_allow_private args) "--allow-private lets clients reach loopback and private networks" ++
  warn_if ((fl_max_connections args =? 0) || (fl_max_tunnels_per_connection args =? 0) || (fl_max_connection_rate args =? 0))
    "a connection, rate or tunnel ceiling is disabled; one client can exhaust the gateway" ++
  warn_if (fl_acme args && negb (sa_port (acme_challenge_addr args) =? 443))
    "ACME challenge port is not 443; Let's Encrypt validates TLS-ALPN-01 only on 443, so issuance will fail unless something forwards 443 to it".

Definition platform_warnings (args : Flags) : list str :=
  if negb (fl_platform args) then []
  else
    warn_if (bool_decide (is_Some (fl_credential_secret args)))
      "--credential-secret is ignored with --platform: every credential is minted by the control plane with its organisation's key" ++
    warn_if (negb (bool_decide (fl_oidc_audiences args = [])))
      ("--oidc-audience is ignored with --platform: each organisation's audience is " ++
       tenant_audience (platform_base_url (fl_hostname args)) "<org-slug>").

Definition build_template (args : Flags) : result str UriTemplate :=
  template ← match fl_template args, fl_authority args with
             | Some raw, _ => map_err (λ _, of_string "parsing --template") (Template.parse raw)
             | None, Some authority => map_err (λ _, of_string "template") (default_connect_udp authority)
             | None, None => map_err (λ _, of_string "template") (default_connect_udp (fl_hostname args))
             end;
  _ ← map_err (λ _, of_string "a connect-udp template needs target_host and target_port")
        (require_variables template CONNECT_UDP_VARIABLES);
  Ok template.

(** ** Labels and timings *)

Fixpoint parse_labels_from (labels : names str) (raw : list str) : result str (names str) :=
  match raw with
  | [] => Ok labels
  | spec :: raw =>
      '(key, value) ← ok_or (split_once 61 spec) ("--control-plane-label " ++ debug spec ++ " is not KEY=VALUE");
      let key := trim key in
      let value := trim value in
      if bool_decide (key = []) || bool_decide (value = []) then
        Err ("--control-plane-label " ++ debug spec ++ " has an empty key or value")
      else
        match labels !! key with
        | Some _ => Err ("--control-plane-label " ++ debug key ++ " is set more than once")
        | None => parse_labels_from (<[key := value]> labels) raw
        end
  end.
Definition parse_labels (raw : list str) : result str (names str) := parse_labels_from ∅ raw.

Definition control_plane_timings (args : Flags) : result str (Duration * Duration * Duration) :=
  interval ← parse_duration_flag "--control-plane-interval" (fl_control_plane_interval args);
  policy_lease ← parse_duration_flag "--control-plane-policy-lease" (fl_control_plane_policy_lease args);
  cache_ttl ← parse_duration_flag "--control-plane-cache-ttl" (fl_control_plane_cache_ttl args);
  if bool_decide (cache_ttl < policy_lease) then
    Err ("--control-plane-cache-ttl (" ++ to_string (as_secs cache_ttl) ++
         "s) must be at least --control-plane-policy-lease (" ++ to_string (as_secs policy_lease) ++ "s)")
  else Ok (interval, policy_lease, cache_ttl).

(** ** OIDC *)

Definition no_claims : ClaimNames := mkClaimNames None None None None None None.
#[global] Instance ClaimNames_eq_dec : EqDecision ClaimNames.
Proof. solve_decision. Defined.

(** [*slot = Some(claim)] for the slot a field names. *)
Definition set_claim (names : ClaimNames) (field : str) (claim : str) : option ClaimNames :=
  let '(mkClaimNames o r w g e a) := names in
  if str_eqb field "organization" then Some (mkClaimNames (Some claim) r w g e a)
  else if str_eqb field "repository" then Some (mkClaimNames o (Some claim) w g e a)
  else if str_eqb field "workflow" then Some (mkClaimNames o r (Some claim) g e a)
  else if str_eqb field "ref" then Some (mkClaimNames o r w (Some claim) e a)
  else if str_eqb field "environment" then Some (mkClaimNames o r w g (Some claim) a)
  else if str_eqb field "actor" then Some (mkClaimNames o r w g e (Some claim))
  else None.

Fixpoint claim_names (names : ClaimNames) (specs : list str) : result str ClaimNames :=
  match specs with
  | [] => Ok names
  | spec :: specs =>
      '(field, claim) ← ok_or (split_once 61 spec) ("--oidc-claim " ++ debug spec ++ " is not FIELD=CLAIM");
      names ← ok_or (set_claim names (trim field) (trim claim))
                ("--oidc-claim: unknown field " ++ debug (trim field) ++
                 " (use organization/repository/workflow/ref/environment/actor)");
      claim_names names specs
  end.

Definition build_provider (args : Flags) : result str Provider :=
  if str_eqb (to_ascii_lowercase (fl_oidc_provider args)) "generic" then
    names ← claim_names no_claims (fl_oidc_claims args);
    if bool_decide (names = no_claims) then Err (of_string "--oidc-provider generic needs at least one --oidc-claim")
    else Ok (Generic names)
  else if negb (bool_decide (fl_oidc_claims args = [])) then
    Err (of_string "--oidc-claim only applies to --oidc-provider generic")
  else
    ok_or (from_name (fl_oidc_provider args))
      ("unknown --oidc-provider " ++ debug (fl_oidc_provider args) ++ " (github, gitlab, buildkite, generic)").

(** ** The credential secret *)

(** [parse_hex] slices the text two bytes at a time: a character of two bytes is a
    slice of its own, one that a slice would cut in two is a panic. *)
Inductive HexError : Type := OddDigits | NotHex (slice : str) | HexPanic.
Definition char_len (c : Z) : nat := length (utf8_char c).
Fixpoint hex_bytes (s : str) : result HexError (list Z) :=
  match s with
  | [] => Ok []
  | c :: s =>
      match char_len c with
      | 1%nat =>
          match s with
          | d :: s' =>
              if Nat.eqb (char_len d) 1 then
                b ← ok_or (from_str_radix 16 u8_max [c; d]) (NotHex [c; d]);
                bs ← hex_bytes s';
                Ok (b :: bs)
              else Err HexPanic
          | [] => Err HexPanic
          end
      | 2%nat => b ← ok_or (from_str_radix 16 u8_max [c]) (NotHex [c]); bs ← hex_bytes s; Ok (b :: bs)
      | _ => Err HexPanic
      end
  end.
Definition parse_hex (input : str) : result HexError (list Z) :=
  let cleaned := List.filter (λ c, negb (is_whitespace c) && negb (c =? 58)) input in
  if Nat.odd (length (as_bytes cleaned)) then Err OddDigits else hex_bytes cleaned.

Definition display_hex_error (e : HexError) : str :=
  match e with
  | OddDigits => "hex input has an odd number of digits"
  | NotHex s => debug s ++ " is not a hex byte"
  | HexPanic => "panic"
  end.

(** What [build_oidc] settles; [None] for the secret is a generated one. *)
Record OidcSettings : Type := mkOidcSettings {
  os_provider : Provider;
  os_issuer : str;
  os_audiences : list str;
  os_secret : option (list Z);
  os_ttl : Duration;
}.

Definition build_oidc (args : Flags) : result str (option OidcSettings) :=
  if negb (fl_oidc args) then Ok None
  else if bool_decide (fl_oidc_audiences args = []) then
    Err (of_string "--oidc needs at least one --oidc-audience (the value your pipeline requests)")
  else
    provider ← build_provider args;
    issuer ← match fl_oidc_issuer args, default_issuer provider with
             | Some url, _ => Ok url
             | None, Some d => Ok d
             | None, None => Err (of_string "--oidc-provider generic needs an explicit --oidc-issuer")
             end;
    ttl ← parse_duration_flag "--credential-ttl" (fl_credential_ttl args);
    secret ← match fl_credential_secret args with
             | Some hex =>
                 secret ← map_err (λ e, "parsing --credential-secret: " ++ display_hex_error e) (parse_hex hex);
                 if (16 <=? length secret)%nat then Ok (Some secret)
                 else Err (of_string "--credential-secret must be at least 16 bytes (32 hex characters)")
             | None => Ok None
             end;
    Ok (Some (mkOidcSettings provider issuer (fl_oidc_audiences args) secret ttl)).

Definition build_platform_oidc (args : Flags) : result str (Provider * Verifier) :=
  provider ← build_provider args;
  match provider with
  | GitHubActions =>
      issuer ← ok_or (default_issuer provider) (of_string "the GitHub provider has a hosted issuer");
      Ok (provider, new_verifier issuer [])
  | _ => Err (of_string "--platform verifies GitHub owners, so it needs --oidc-provider github")
  end.

(** ** The identity of a gateway *)

Definition check_platform_identity (i : GatewayIdentity) : result str unit :=
  if bool_decide (gateway_org i = []) then Ok tt
  else Err ("the identity in --control-plane-state belongs to a single-organisation gateway (org " ++ gateway_org i ++
            ", gateway " ++ gateway_id i ++ "); give the platform gateway its own --control-plane-state").

Record RegisterRequest : Type := mkRegisterRequest { registration_token : str; reg_name : str; reg_labels : names str }.
Record RegisterResponse : Type := mkRegisterResponse { rr_gateway_id : str; rr_org_id : str; rr_secret : str }.

Section identity.
Context `{Serde GatewayIdentity, Serde RegisterResponse}.
(** The control plane's answer to a registration, and to a change of labels. *)
Context (answer : RegisterRequest → result error ControlSync.Response).
Context (platform : bool).

(** [register] and [register_platform], whose answer has no organisation. *)
Definition register (token name : str) (labels : names str) : Io GatewayIdentity :=
  let what : str := if platform then "platform registration" else "registration" in
  response ← io_of (result_context ("sending the " ++ what ++ " request") (answer (mkRegisterRequest token name labels)));
  response ← io_of (error_for_status response what);
  body ← io_of (ok_or (from_slice (resp_body response)) ["parsing the " ++ what ++ " response"]);
  let identity := mkGatewayIdentity (rr_gateway_id body) (if platform then [] else rr_org_id body) (rr_secret body) in
  _ ← context (of_string "creating the control-plane state directory") fs_create_state_dir;
  _ ← context (of_string "persisting the gateway identity") (fs_write IDENTITY (to_vec identity));
  mret identity.

(** The identity a gateway starts with: the stored one, else a new one.  The second
    result is the labels sent for a stored identity. *)
Definition start_identity (args : Flags) (labels : names str) : Io (GatewayIdentity * option (names str)) :=
  let name := default (display_socket (fl_listen args)) (fl_control_plane_name args) in
  stored ← load_identity;
  match stored with
  | Some identity =>
      if platform then
        _ ← io_of (map_err (λ e, [e]) (check_platform_identity identity));
        mret (identity, None)
      else mret (identity, if bool_decide (labels = ∅) then None else Some labels)
  | None =>
      token ← io_of (ok_or (fl_control_plane_token args)
        [of_string (if platform
          then "the first --platform connection needs --control-plane-token (SKIMASQUE_CONTROL_TOKEN), a platform registration token"
          else "the first --control-plane connection needs --control-plane-token (SKIMASQUE_CONTROL_TOKEN)")]);
      identity ← context (of_string (if platform then "registering the platform gateway with the control plane"
                          else "registering with the control plane")) (register token name labels);
      mret (identity, None)
  end.

(** The first steps of [bootstrap_control_plane] and [bootstrap_platform], up to the
    identity. *)
Definition bootstrap_identity (args : Flags) : Io (GatewayIdentity * Duration * Duration * Duration) :=
  timings ← io_of (map_err (λ e, [e]) (control_plane_timings args));
  _ ← io_of (map_err (λ e, [e]) (if platform then _ ← parse_duration_flag "--credential-ttl" (fl_credential_ttl args);
                                  _ ← build_platform_oidc args; Ok tt else Ok tt));
  labels ← io_of (map_err (λ e, [e]) (parse_labels (fl_control_plane_label args)));
  started ← start_identity args labels;
  mret (started.1, timings.1.1, timings.1.2, timings.2).
End identity.
End start.

(** ** An identity is kept *)

Section kept.
Context `{SerdeLaws GatewayIdentity, Serde RegisterResponse}.

(** The state directory holds an identity. *)
Definition holds (i : GatewayIdentity) (fs : Fs) : Prop :=
  ∃ bytes, fs !! IDENTITY = Some (File bytes) ∧ from_slice bytes = Some i.

Lemma load_identity_outcome fs fates r fs' rest :
  load_identity fs fates = (Returned (Ok r), fs', rest) →
  fs' = fs ∧ match r with Some i => holds i fs | None => fs !! IDENTITY = None end.
Proof.
  unfold load_identity, context, fs_read, prim, mbind, io_mbind, io_bind, io_of, mret, io_mret.
  destruct fates as [|[|p|p] fates]; try done; destruct (fs !! IDENTITY) as [[b|d]|] eqn:Hf; try done; cbn.
  all: try (intros [= <- <- <-]; by split).
  all: destruct (from_slice b) as [i|] eqn:Hb; cbn; [|done]; intros [= <- <- <-]; split; [done|]; by exists b.
Qed.

Lemma load_identity_holds i fs : holds i fs → load_identity fs [] = (Returned (Ok (Some i)), fs, []).
Proof.
  intros (bytes & Hf & Hb). unfold load_identity, context, fs_read, prim, mbind, io_mbind, io_bind, io_of, mret, io_mret.
  rewrite Hf. cbn. by rewrite Hb.
Qed.

Lemma register_outcome answer platform token name labels fs fates i fs' rest :
  register answer platform token name labels fs fates = (Returned (Ok i), fs', rest) →
  holds i fs' ∧ (platform = true → gateway_org i = []).
Proof.
  unfold register, mbind, io_mbind, io_bind, io_of, mret, io_mret. cbv zeta.
  destruct (result_context _ (answer _)) as [resp|]; [|done].
  destruct (error_for_status resp _) as [resp'|]; [|done].
  destruct (ok_or (from_slice _) _) as [body|]; [|done].
  set (i0 := mkGatewayIdentity _ _ _). unfold context, fs_create_state_dir, fs_write, prim.
  destruct fates as [|[|p|p] fates]; try done; cbn [tail].
  - destruct (fs !! IDENTITY) as [[b|d]|] eqn:Hf; try done; intros [= <- <- <-].
    all: split; [exists (to_vec i0); by rewrite lookup_insert_eq, from_to|by intros ->].
  - destruct fates as [|[|p|p] fates]; try done; destruct (fs !! IDENTITY) as [[b|d]|] eqn:Hf; try done; intros [= <- <- <-].
    all: split; [exists (to_vec i0); by rewrite lookup_insert_eq, from_to|by intros ->].
Qed.

(** A gateway keeps the identity it was given.  When a start has settled the
    gateway's identity, newly registered or stored, every later start on that state
    directory uses the same one: whatever its labels, with or without a registration
    token, and without the control plane being asked. *)
Theorem identity_kept (answer answer' : RegisterRequest → result error ControlSync.Response) (platform : bool)
    (args args' : Flags) (labels labels' : names str) (fs fs' : Fs) (fates rest : list fate)
    (i : GatewayIdentity) (sent : option (names str)) :
  start_identity answer platform args labels fs fates = (Returned (Ok (i, sent)), fs', rest) →
  ∃ sent', start_identity answer' platform args' labels' fs' [] = (Returned (Ok (i, sent')), fs', []).
Proof.
  intros Hrun. assert (holds i fs' ∧ (platform = true → gateway_org i = [])) as [Hh Ho].
  { revert Hrun. unfold start_identity. unfold mbind, io_mbind, io_bind at 1. cbv zeta.
    destruct (load_identity fs fates) as [[[[stored|e]|] fs1] rest1] eqn:Hl; try done.
    apply load_identity_outcome in Hl as [-> Hl]. destruct stored as [i0|].
    - destruct platform.
      + unfold io_bind, io_of, check_platform_identity. case_bool_decide as Hb; cbn; [|done]. by intros [= <- <- <- <-].
      + by intros [= <- _ <- _].
    - unfold io_bind, io_of. destruct (ok_or _ _) as [token|]; [|done]. unfold context.
      destruct (register answer platform token _ labels fs rest1) as [[[[i1|e]|] fs2] rest2] eqn:Hr; try done.
      intros [= <- _ <- _]. by eapply register_outcome. }
  unfold start_identity. unfold mbind, io_mbind, io_bind at 1. cbv zeta. rewrite (load_identity_holds i fs' Hh).
  destruct platform; [|by eexists]. unfold io_bind, io_of, check_platform_identity.
  rewrite bool_decide_eq_true_2 by auto. by eexists.
Qed.
End kept.

#[local] Instance GatewayIdentity_eq_dec : EqDecision GatewayIdentity.
Proof. solve_decision. Defined.
#[local] Instance GatewayIdentity_countable : Countable GatewayIdentity :=
  inj_countable' (λ i, (gateway_id i, gateway_org i, secret i)) (λ '(a, b, c), mkGatewayIdentity a b c) (λ i, match i with mkGatewayIdentity _ _ _ => eq_refl end).
#[local] Instance RegisterResponse_eq_dec : EqDecision RegisterResponse.
Proof. solve_decision. Defined.
#[local] Instance RegisterResponse_countable : Countable RegisterResponse :=
  inj_countable' (λ i, (rr_gateway_id i, rr_org_id i, rr_secret i)) (λ '(a, b, c), mkRegisterResponse a b c) (λ i, match i with mkRegisterResponse _ _ _ => eq_refl end).

Definition sample_flags (token : option str) (labels : list str) : Flags :=
  mkFlags "gw.example:443" {| sa_ip := V4 0; sa_port := 443 |} None None None false "github" [] [] None None "1h" None [] false
    (Some (of_string "https://control.example")) token (Some (of_string "gw")) labels "60s" "15m" "30m" false false None [] None
    1024 50 200 20 60 10 30 256 "120s".
Definition registers (_ : RegisterRequest) : result error ControlSync.Response :=
  Ok (mkResponse 200 (@to_vec _ (count_serde RegisterResponse) (mkRegisterResponse (of_string "gw_1") (of_string "org_1") (of_string "s")))).
Definition refuses (_ : RegisterRequest) : result error ControlSync.Response := Err [of_string "unreachable"].
Definition first_identity : GatewayIdentity := mkGatewayIdentity (of_string "gw_1") (of_string "org_1") (of_string "s").
Abbreviation sample_start := (@start_identity (count_serde GatewayIdentity) (count_serde RegisterResponse)).

(** Registered with a token, then restarted without one and without a control plane. *)
Lemma identity_kept_witness :
  let fs' := (sample_start registers false (sample_flags (Some (of_string "tok")) []) ∅ ∅ []).1.2 in
  ∃ sent', sample_start refuses false (sample_flags None [of_string "a=b"]) {[of_string "a" := of_string "b"]} fs' [] =
    (Returned (Ok (first_identity, sent')), fs', []).
Proof.
  intros fs'.
  apply (@identity_kept (count_serde GatewayIdentity) (count_serde_laws GatewayIdentity) (count_serde RegisterResponse)
    registers refuses false (sample_flags (Some (of_string "tok")) []) (sample_flags None [of_string "a=b"]) ∅
    {[of_string "a" := of_string "b"]} ∅ fs' [] [] first_identity None).
  apply run_eta; by vm_compute.
Defined.

(** A crash just after the identity file was opened leaves an empty one, and with it
    no later start gets past reading it; the registration that produced it is
    spent. *)
Lemma torn_identity_blocks :
  let cut := sample_start registers false (sample_flags (Some (of_string "tok")) []) ∅ ∅
               [Done; Done; Dies (mkProgress ∅ (Some 0%nat))] in
  cut.1.1 = Died ∧
  ∀ answer args labels, (sample_start answer false args labels cut.1.2 []).1.1 =
    Returned (Err [of_string "parsing the stored gateway identity"]).
Proof. split; [by vm_compute|]. intros answer args labels. by vm_compute. Qed.

(** ** Labels, ceilings and audiences *)

(** What a label says, if it is well formed. *)
Definition label_of (spec : str) : option (str * str) :=
  '(key, value) ← split_once 61 spec;
  if bool_decide (trim key = []) || bool_decide (trim value = []) then None else Some (trim key, trim value).

Lemma parse_labels_from_exact debug raw labels m :
  parse_labels_from debug labels raw = Ok m ↔
  ∃ kvs, Forall2 (λ spec kv, label_of spec = Some kv) raw kvs ∧ NoDup kvs.*1 ∧
    (∀ k, k ∈ kvs.*1 → labels !! k = None) ∧ m = list_to_map kvs ∪ labels.
Proof.
  revert labels. induction raw as [|spec raw IH]; intros labels; cbn [parse_labels_from].
  { split.
    - intros [= <-]. exists []. split; [constructor|]. split; [constructor|]. split; [by intros k ?%elem_of_nil|].
      cbn. by rewrite (left_id_L ∅ (∪)).
    - intros (kvs & HF & _ & _ & ->). inversion HF. cbn. by rewrite (left_id_L ∅ (∪)). }
  assert (label_of spec = match split_once 61 spec with
    | Some (key, value) => if bool_decide (trim key = []) || bool_decide (trim value = []) then None else Some (trim key, trim value)
    | None => None end) as Hl by (unfold label_of; by destruct (split_once 61 spec) as [[]|]).
  destruct (split_once 61 spec) as [[key value]|]; cbn [ok_or mbind result_mbind result_bind].
  2: { split; [done|]. intros (kvs & HF & _). inversion HF; subst. congruence. }
  destruct (_ || _).
  { split; [done|]. intros (kvs & HF & _). inversion HF; subst. congruence. }
  destruct (labels !! trim key) as [old|] eqn:Hk.
  { split; [done|]. intros (kvs & HF & _ & Hn & _). inversion HF as [|? kv ? kvs' Hkv]; subst. rewrite Hl in Hkv.
    injection Hkv as <-. specialize (Hn (trim key) ltac:(left)). congruence. }
  rewrite IH. split.
  - intros (kvs & HF & Hnd & Hn & ->). exists ((trim key, trim value) :: kvs). split; [by constructor|].
    assert (trim key ∉ kvs.*1) as Hni by (intros Hin; specialize (Hn _ Hin); by rewrite lookup_insert_eq in Hn).
    split; [by constructor|]. split.
    + intros k [->|Hin]%elem_of_cons; [done|]. specialize (Hn k Hin).
      rewrite lookup_insert_ne in Hn; [done|]. intros Heq. by rewrite Heq, lookup_insert_eq in Hn.
    + cbn. rewrite <- insert_union_l, insert_union_r; [done|]. by apply not_elem_of_list_to_map_1.
  - intros (kvs & HF & Hnd & Hn & ->). inversion HF as [|? kv ? kvs' Hkv HF']; subst. rewrite Hl in Hkv. injection Hkv as <-.
    cbn in Hnd, Hn. apply NoDup_cons in Hnd as [Hni Hnd]. exists kvs'. split; [done|]. split; [done|]. split.
    + intros k Hin. rewrite lookup_insert_ne by congruence. apply Hn. by right.
    + cbn. rewrite <- insert_union_l, insert_union_r; [done|]. by apply not_elem_of_list_to_map_1.
Qed.

(** Labels are read exactly: each is KEY=VALUE with neither empty, no key comes
    twice, and the map holds what they say. *)
Theorem parse_labels_exact (debug : str → str) (raw : list str) (m : names str) :
  parse_labels debug raw = Ok m ↔
  ∃ kvs, Forall2 (λ spec kv, label_of spec = Some kv) raw kvs ∧ NoDup kvs.*1 ∧ m = list_to_map kvs.
Proof.
  unfold parse_labels. rewrite parse_labels_from_exact. split.
  - intros (kvs & HF & Hnd & _ & ->). exists kvs. rewrite (right_id_L ∅ (∪)). by split_and!.
  - intros (kvs & HF & Hnd & ->). exists kvs. rewrite (right_id_L ∅ (∪)). split_and!; done.
Qed.

(** Hex text as it is pasted: the bytes in lower-case digits. *)
Definition hex_pair (b : Z) : str := [hex_digit (b / 16); hex_digit (b mod 16)].
Definition separator (c : Z) : bool := is_whitespace c || (c =? 58).

Lemma hex_pair_ok b :
  0 ≤ b < 256 →
  ∃ c d, hex_pair b = [c; d] ∧ char_len c = 1%nat ∧ char_len d = 1%nat ∧ separator c = false ∧ separator d = false ∧
    from_str_radix 16 u8_max [c; d] = Some b.
Proof.
  intros Hb. exists (hex_digit (b / 16)), (hex_digit (b mod 16)). split; [done|].
  assert (Forall (λ b, char_len (hex_digit (b / 16)) = 1%nat ∧ char_len (hex_digit (b mod 16)) = 1%nat ∧
    separator (hex_digit (b / 16)) = false ∧ separator (hex_digit (b mod 16)) = false ∧
    from_str_radix 16 u8_max [hex_digit (b / 16); hex_digit (b mod 16)] = Some b) (seqZ 0 256)) as Hall
    by (apply (bool_decide_unpack _); by vm_compute).
  rewrite Forall_forall in Hall. apply Hall, elem_of_seqZ. lia.
Qed.

Definition cleaned (s : str) : str := List.filter (λ c, negb (is_whitespace c) && negb (c =? 58)) s.

Lemma cleaned_app s t : cleaned (s ++ t) = cleaned s ++ cleaned t.
Proof. apply List.filter_app. Qed.
Lemma cleaned_gap g : Forall (λ c, separator c = true) g → cleaned g = [].
Proof.
  unfold cleaned, separator. induction 1 as [|c g Hc _ IH]; [done|]. cbn [List.filter].
  by destruct (is_whitespace c), (c =? 58).
Qed.
Lemma cleaned_digit c s : separator c = false → cleaned (c :: s) = c :: cleaned s.
Proof. unfold cleaned, separator. intros [H1 H2]%orb_false_iff. cbn [List.filter]. by rewrite H1, H2. Qed.

Lemma hex_bytes_pairs bytes :
  Forall (λ b, 0 ≤ b < 256) bytes →
  hex_bytes (flat_map hex_pair bytes) = Ok bytes ∧ Nat.odd (length (as_bytes (flat_map hex_pair bytes))) = false.
Proof.
  induction 1 as [|b bytes Hb _ [IH1 IH2]]; [done|]. cbn [flat_map].
  destruct (hex_pair_ok b Hb) as (c & d & -> & Hc & Hd & _ & _ & Hr). cbn [app hex_bytes]. rewrite Hc, Hd, Hr. cbn [Nat.eqb ok_or].
  cbn [mbind result_mbind result_bind]. rewrite IH1. split; [done|].
  unfold as_bytes in *. cbn [flat_map]. unfold char_len in Hc, Hd. rewrite !length_app, Hc, Hd. exact IH2.
Qed.

(** A secret written in hexadecimal is read back, whatever spaces and colons are
    pasted between its bytes. *)
Theorem parse_hex_reads (bytes : list Z) (gaps : list str) :
  Forall (λ b, 0 ≤ b < 256) bytes → length gaps = length bytes → Forall (Forall (λ c, separator c = true)) gaps →
  parse_hex (concat (zip_with app gaps (map hex_pair bytes))) = Ok bytes.
Proof.
  intros Hb Hl Hg. unfold parse_hex. change (List.filter _ ?s) with (cleaned s).
  assert (cleaned (concat (zip_with app gaps (map hex_pair bytes))) = flat_map hex_pair bytes) as ->.
  { revert gaps Hl Hg. induction Hb as [|b bytes Hb _ IH]; intros [|g gaps] Hl Hg; try done.
    apply Forall_cons in Hg as [Hg Hgs]. injection Hl as Hl. cbn [zip_with map concat flat_map].
    rewrite !cleaned_app, cleaned_gap by done. cbn [app]. rewrite (IH gaps) by done.
    destruct (hex_pair_ok b Hb) as (c & d & -> & _ & _ & Hc & Hd & _). by rewrite !cleaned_digit. }
  destruct (hex_bytes_pairs bytes Hb) as [-> ->]. done.
Qed.

(** Two hexadecimal digits are not required: a sign is taken, and a text that cannot
    be cut into pairs of bytes is not refused but panics. *)
Lemma parse_hex_loose : parse_hex (of_string "+f") = Ok [15] ∧ parse_hex [97; 233; 98] = Err HexPanic.
Proof. by vm_compute. Qed.

(** ** What a start that succeeds has settled *)

(** A configured secret has at least 16 bytes, there is an audience to ask for, and
    the platform accepts github.com tokens only. *)
Lemma build_oidc_Ok debug unit_error args o :
  build_oidc debug unit_error args = Ok (Some o) →
  os_audiences o ≠ [] ∧ (∀ secret, os_secret o = Some secret → (16 ≤ length secret)%nat) ∧
  (os_secret o = None ↔ fl_credential_secret args = None).
Proof.
  unfold build_oidc. destruct (fl_oidc args); cbn [negb]; [|done]. case_bool_decide as Ha; [done|].
  intros H. apply bind_Ok in H as (provider & _ & H). apply bind_Ok in H as (issuer & _ & H).
  apply bind_Ok in H as (ttl & _ & H). apply bind_Ok in H as (secret & Hs & H). injection H as <-. cbn.
  split; [done|]. destruct (fl_credential_secret args) as [hex|]; [|injection Hs as <-; done].
  apply bind_Ok in Hs as (bytes & _ & Hs). destruct (Nat.leb_spec 16 (length bytes)) as [Hle|]; [|done].
  injection Hs as <-. split; [intros s [= <-]; lia|done].
Qed.

(** The default port is no part of a tenant's audience. *)
Lemma platform_base_url_port h :
  h ≠ [] → Forall (λ c, is_whitespace c = false) h → 58 ∉ h → 47 ∉ h →
  platform_base_url (h ++ ":443") = platform_base_url h.
Proof.
  intros Hne Hw Hc Hs. unfold platform_base_url.
  assert (∀ t, Forall (λ c, is_whitespace c = false) t → 47 ∉ t → trim_end_matches 47 (trim t) = t) as Ht.
  { intros t Hwt Hst. rewrite trim_id by done. unfold trim_end_matches.
    rewrite trim_start_matches_no, rev_involutive by (rewrite list_elem_of_In, <- in_rev, <- list_elem_of_In; done). done. }
  rewrite !Ht; [|done|done|apply Forall_app; split; [done|by repeat constructor]|].
  - rewrite strip_suffix_app, bool_decide_eq_false_2 by done. rewrite (proj2 (contains_false 58 h) Hc), orb_true_r.
    cbn [negb andb]. destruct (strip_suffix ":443" h) as [bare|] eqn:Hb; [|done].
    apply strip_suffix_Some in Hb as ->. exfalso. apply Hc, elem_of_app. right. left.
  - rewrite not_elem_of_app. split; [done|]. by_decide.
Qed.
