(* ===== verification/ControlCalls.v ===== *)
(** * What a gateway asks of its control plane

    Model of the calls of [ControlPlane] ([crates/skimasque-cli/src/control.rs])
    that report or ask for something: heartbeats, labels, the audit chain, and the
    credentials of a platform gateway.  The polls are in [ControlSync], the
    registration in [ServerStart], the single-organisation mint in [Minting].

    A call builds one request and reads the answer.  The HTTP client and the
    control plane behind it are the parameter [Http]; the names of status codes
    ([http::StatusCode]) and the text of a body ([reqwest::Response::text]) are
    parameters too. *)

From S2P Require Import Prelude RustStr RustNet PolicyDest PolicyUnits PolicyModel PolicyEval PolicyParse.
From S2P Require Import Identity Credential Tenant Platform Service Revocation StateDir ControlSync Minting.
From S2P Require Import AuditLog AuditChain.

(** ** Requests *)

Inductive Method : Type := GET | POST | PUT.

Record HttpRequest : Type := mkHttp {
  method : Method;
  url : str;
  bearer_auth : option str;
  json : option data;
}.
Definition Http : Type := HttpRequest → result error Response.

Definition gateway_heartbeat (id : str) : str := of_string "/v1/gateways/" ++ id ++ of_string "/heartbeat".
Definition gateway_labels (id : str) : str := of_string "/v1/gateways/" ++ id ++ of_string "/labels".
Definition gateway_audit (id : str) : str := of_string "/v1/gateways/" ++ id ++ of_string "/audit".
Definition gateway_audit_head (id : str) : str := of_string "/v1/gateways/" ++ id ++ of_string "/audit/head".
Definition platform_credentials (id : str) : str := of_string "/v1/platform/gateways/" ++ id ++ of_string "/credentials".
Definition platform_audit (id : str) : str := of_string "/v1/platform/gateways/" ++ id ++ of_string "/audit".
Definition platform_audit_head_path (id : str) : str := of_string "/v1/platform/gateways/" ++ id ++ of_string "/audit/head".
Definition platform_heartbeat_path (id : str) : str := of_string "/v1/platform/gateways/" ++ id ++ of_string "/heartbeat".

(** ** Bodies *)

Record HeartbeatRequest : Type := mkHeartbeat {
  hr_status : str;
  policy_version : option Z;
  hr_usage : option UsageSnapshot;
}.
Record ShipAuditRequest : Type := mkShipAudit { sa_events : list ChainedAuditEvent }.
Record PlatformShipAuditRequest : Type := mkPlatformShipAudit { psa_events : list PlatformAuditEvent }.
Record ShipAuditResponse : Type := mkShipAuditResponse { sar_head_seq : Z }.
Record LabelsRequest : Type := mkLabels { labels : names str }.
Record Refusal : Type := mkRefusal { refusal_code : str; refusal_message : str }.

(** Every body that travels. *)
Class Bodies : Type := {
  heartbeat_body :: Serde HeartbeatRequest;
  platform_heartbeat_body :: Serde PlatformHeartbeat;
  ship_body :: Serde ShipAuditRequest;
  platform_ship_body :: Serde PlatformShipAuditRequest;
  shipped_body :: Serde ShipAuditResponse;
  head_body :: Serde AuditHead;
  labels_body :: Serde LabelsRequest;
  platform_mint_body :: Serde PlatformMintRequest;
  minted_body :: Serde MintResponse;
  refusal_body :: Serde Refusal;
}.

Section calls.
Context `{Bodies}.
Context (reason : Z → str) (text : data → str).

(** ** Statuses *)

(** [StatusCode]'s [Display], and the full text of [error_for_status]. *)
Definition status_text (status : Z) : str := to_string status ++ [32] ++ reason status.
Definition failure_text (r : Response) (what : str) : str :=
  what ++ of_string " failed: " ++ status_text (resp_status r) ++ [32] ++ trim (text (resp_body r)).
Definition success (r : Response) : bool := (200 <=? resp_status r) && (resp_status r <? 300).
Definition check_status (r : Response) (what : str) : result error Response :=
  if success r then Ok r else Err [failure_text r what].

(** [anyhow::Error]'s [Display] without [#]: the outermost message. *)
Definition display_error (e : error) : str := match e with [] => [] | m :: _ => m end.

Context (base_url : str) (http : Http) (identity : GatewayIdentity).

(** A request to the gateway's own address, with its secret. *)
Definition request (m : Method) (path : str) (body : option data) : HttpRequest :=
  mkHttp m (base_url ++ path) (Some (secret identity)) body.

(** ** Calls *)

Definition heartbeat (healthy : bool) (policy_version : option Z) (usage : option UsageSnapshot) : result error unit :=
  response ← result_context (of_string "sending a heartbeat")
    (http (request POST (gateway_heartbeat (gateway_id identity))
      (Some (to_vec (mkHeartbeat (heartbeat_status healthy) policy_version usage)))));
  _ ← check_status response (of_string "heartbeat");
  Ok tt.

Definition audit_head : result error AuditHead :=
  response ← result_context (of_string "fetching the audit head")
    (http (request GET (gateway_audit_head (gateway_id identity)) None));
  response ← check_status response (of_string "audit head");
  ok_or (from_slice (resp_body response)) [of_string "parsing the audit head"].

Definition ship_audit (events : list ChainedAuditEvent) : result error Z :=
  response ← result_context (of_string "shipping audit events")
    (http (request POST (gateway_audit (gateway_id identity)) (Some (to_vec (mkShipAudit events)))));
  response ← check_status response (of_string "audit ship");
  sar_head_seq <$> ok_or (from_slice (resp_body response)) [of_string "parsing the audit-ship response"].

Definition set_labels (l : names str) : result error unit :=
  response ← result_context (of_string "sending the gateway labels")
    (http (request PUT (gateway_labels (gateway_id identity)) (Some (to_vec (mkLabels l)))));
  _ ← check_status response (of_string "setting gateway labels");
  Ok tt.

(** [ControlPlane::platform_mint]; the reason a mint is unavailable is only
    logged. *)
Definition platform_mint_call (req : PlatformMintRequest) : result PlatformMintError (str * Z) :=
  match http (request POST (platform_credentials (gateway_id identity)) (Some (to_vec req))) with
  | Err _ => Err MintUnavailable
  | Ok response =>
      if (resp_status response =? 403) || (resp_status response =? 422) then
        Err match from_slice (as_bytes (text (resp_body response))) with
            | Some refusal => MintRefused (refusal_code refusal) (refusal_message refusal)
            | None => MintUnavailable
            end
      else
        response ← map_err (λ _, MintUnavailable) (check_status response (of_string "platform credential mint"));
        body ← ok_or (from_slice (resp_body response)) MintUnavailable;
        Ok (mint_credential_token body, mint_expires_in body)
  end.

Definition ship_platform_audit (batch : PlatformShipAuditRequest) : result error ShipAuditResponse :=
  response ← result_context (of_string "shipping platform audit events")
    (http (request POST (platform_audit (gateway_id identity)) (Some (to_vec batch))));
  response ← check_status response (of_string "platform audit ship");
  ok_or (from_slice (resp_body response)) [of_string "parsing the platform audit-ship response"].

Definition platform_audit_head : result error AuditHead :=
  response ← result_context (of_string "fetching the platform audit head")
    (http (request GET (platform_audit_head_path (gateway_id identity)) None));
  response ← check_status response (of_string "platform audit head");
  ok_or (from_slice (resp_body response)) [of_string "parsing the platform audit head"].

Definition platform_heartbeat (req : PlatformHeartbeat) : result error unit :=
  response ← result_context (of_string "sending a platform heartbeat")
    (http (request POST (platform_heartbeat_path (gateway_id identity)) (Some (to_vec req))));
  _ ← check_status response (of_string "platform heartbeat");
  Ok tt.
End calls.

(** ** What the calls consult *)

(** A request to the gateway's own control plane that carries its own secret. *)
Definition own_request (base_url : str) (identity : GatewayIdentity) (r : HttpRequest) : Prop :=
  bearer_auth r = Some (secret identity) ∧ ∃ path, url r = base_url ++ of_string "/v1/" ++ path.

Section confined.
Context `{Bodies}.
Context (reason : Z → str) (text : data → str).
Context (base_url : str) (identity : GatewayIdentity).

Lemma request_own m path body :
  own_request base_url identity (request base_url identity m (of_string "/v1/" ++ path) body).
Proof. split; [done|]. by exists path. Qed.

(** The secret travels to the gateway's own control plane and nowhere else: two
    networks that answer the gateway's own requests alike give every call the same
    outcome, whatever they answer to others. *)
Lemma calls_confined (net net' : Http) :
  (∀ r, own_request base_url identity r → net r = net' r) →
  (∀ h v u, heartbeat reason text base_url net identity h v u = heartbeat reason text base_url net' identity h v u) ∧
  (∀ l, set_labels reason text base_url net identity l = set_labels reason text base_url net' identity l) ∧
  audit_head reason text base_url net identity = audit_head reason text base_url net' identity ∧
  (∀ evs, ship_audit reason text base_url net identity evs = ship_audit reason text base_url net' identity evs) ∧
  platform_audit_head reason text base_url net identity = platform_audit_head reason text base_url net' identity ∧
  (∀ b, ship_platform_audit reason text base_url net identity b = ship_platform_audit reason text base_url net' identity b) ∧
  (∀ b, platform_heartbeat reason text base_url net identity b = platform_heartbeat reason text base_url net' identity b) ∧
  (∀ q, platform_mint_call reason text base_url net identity q = platform_mint_call reason text base_url net' identity q).
Proof.
  intros Hn.
  split_and!; intros;
    unfold heartbeat, set_labels, audit_head, ship_audit, platform_audit_head, ship_platform_audit, platform_heartbeat,
      platform_mint_call; rewrite Hn; try done; split; try done; by eexists.
Qed.

(** ** Minting *)

Abbreviation mint_call := (platform_mint_call reason text base_url).
Definition mint_post (req : PlatformMintRequest) : HttpRequest :=
  request base_url identity POST (platform_credentials (gateway_id identity)) (Some (to_vec req)).

(** The answers that refuse a mint, and that grant one. *)
Definition refuses (response : Response) (r : Refusal) : Prop :=
  resp_status response ∈ [403; 422] ∧ from_slice (as_bytes (text (resp_body response))) = Some r.
Definition grants (response : Response) (m : MintResponse) : Prop :=
  200 ≤ resp_status response < 300 ∧ from_slice (resp_body response) = Some m.

Lemma success_iff r : success r = true ↔ 200 ≤ resp_status r < 300.
Proof. unfold success. lia. Qed.

Lemma check_status_Ok r what r' : check_status reason text r what = Ok r' ↔ r' = r ∧ 200 ≤ resp_status r < 300.
Proof. unfold check_status. rewrite <- success_iff. destruct (success r); naive_solver. Qed.

(** The short form of the same check, of which the polls use only that it fails. *)
Lemma check_status_agrees r what : is_ok (check_status reason text r what) = is_ok (error_for_status r what).
Proof. unfold check_status, error_for_status, success. by destruct (_ && _). Qed.

(** What the control plane answered decides a mint's outcome, each of the three
    outcomes exactly. *)
Lemma mint_call_spec net req :
  match mint_call net identity req with
  | Ok (token, ttl) => ∃ response, net (mint_post req) = Ok response ∧ grants response (mkMintResponse token ttl)
  | Err (MintRefused code message) =>
      ∃ response, net (mint_post req) = Ok response ∧ refuses response (mkRefusal code message)
  | Err MintUnavailable =>
      ∀ response, net (mint_post req) = Ok response → (∀ m, ¬ grants response m) ∧ (∀ r, ¬ refuses response r)
  end.
Proof.
  unfold platform_mint_call. fold (mint_post req). destruct (net (mint_post req)) as [resp|e]; [|done].
  destruct ((resp_status resp =? 403) || (resp_status resp =? 422)) eqn:Hst.
  - assert (resp_status resp ∈ [403; 422]) as Hin.
    { apply orb_true_iff in Hst as [->%Z.eqb_eq| ->%Z.eqb_eq]; set_solver. }
    assert (¬ 200 ≤ resp_status resp < 300) by lia.
    destruct (from_slice (as_bytes (text (resp_body resp)))) as [[code message]|] eqn:Hr; [by exists resp|].
    intros ? [= <-]. unfold grants, refuses. rewrite Hr. split; [intros m [? _]; done|by intros r [_ ?]].
  - assert (∀ r, ¬ refuses resp r) as Hnr.
    { intros r [Hin _]. set_unfold in Hin. lia. }
    destruct (check_status reason text resp _) as [r'|e] eqn:Hc; cbn.
    + apply check_status_Ok in Hc as [-> Hok].
      destruct (from_slice (resp_body resp)) as [[token ttl]|] eqn:Hb; cbn; [by exists resp|].
      intros ? [= <-]. unfold grants. rewrite Hb. split; [by intros m [_ ?]|done].
    + intros ? [= <-]. split; [|done]. intros m [Hok _].
      by rewrite (proj2 (check_status_Ok resp (of_string "platform credential mint") resp) (conj eq_refl Hok)) in Hc.
Qed.
End confined.

(** ** The exchange on a platform gateway *)

Section exchange.
Context `{Bodies} `{HJ : Jwt} `{HO : Oidc}.
Context (reason : Z → str) (text : data → str).
Context (to_lowercase : str → str) (json_value : list Z → option Json).
Context (published : nat → result IdentityError JwkSet) (jwks_ttl : Z).
Context (display : IdentityError → str).

(** A job whose token a shared gateway accepted hears what the control plane said
    of it: it holds a credential exactly when the control plane granted that one,
    it is refused with the control plane's own code and sentence, and everything
    else it is told to try again later. *)
Theorem exchange_truthful (base : str) (net : Http) (identity : GatewayIdentity) (m : PlatformMinter)
    (table : TenantSnapshot) (now : Z) (token : str) (c c' : Jwks) (req : PlatformMintRequest) :
  platform_mint m = platform_mint_call reason text base net identity →
  mint_request to_lowercase json_value published jwks_ttl display m table now token c = (Ok req, c') →
  match (mint to_lowercase json_value published jwks_ttl display m table now token c).1 with
  | Ok (credential, ttl) =>
      ∃ response, net (mint_post base identity req) = Ok response ∧ grants response (mkMintResponse credential ttl)
  | Err (Refused code message) =>
      ∃ response, net (mint_post base identity req) = Ok response ∧ refuses text response (mkRefusal code message)
  | Err (Unavailable told) =>
      told = UNAVAILABLE ∧ ∀ response, net (mint_post base identity req) = Ok response →
        (∀ g, ¬ grants response g) ∧ (∀ r, ¬ refuses text response r)
  | Err (Unauthorized _) => False
  end.
Proof.
  intros Hm Hr. unfold mint. rewrite Hr. cbn. rewrite Hm.
  pose proof (mint_call_spec reason text base identity net req) as Hspec.
  by destruct (platform_mint_call _ _ _ _ _ _) as [[credential ttl]|[code message|]].
Qed.
End exchange.

(** ** Calls at work *)

#[local] Existing Instance sample_jwt.
#[local] Existing Instance sample_oidc.

(** An encoding of every body but the refusal as nothing, to run the calls. *)
Definition mute {A : Type} : Serde A := {| to_vec := λ _, []; from_slice := λ _, None |}.
Definition refusal_serde : Serde Refusal := {|
  to_vec := λ r, as_bytes (refusal_message r);
  from_slice := λ b, mkRefusal OWNER_NOT_VERIFIED <$> from_utf8 b |}.
Definition sample_bodies : Bodies := {|
  heartbeat_body := mute; platform_heartbeat_body := mute; ship_body := mute; platform_ship_body := mute;
  shipped_body := mute; head_body := mute; labels_body := mute; platform_mint_body := mute; minted_body := mute;
  refusal_body := refusal_serde |}.
Definition sample_reason (s : Z) : str := if s =? 403 then of_string "Forbidden" else [].
Definition sample_text (b : data) : str := default [] (from_utf8 b).
Definition forbidding : Http := λ _, Ok (mkResponse 403 (as_bytes (of_string "not yours"))).
Definition refused_minter : PlatformMinter :=
  mkMinter sample_verifier GitHubActions "https://g.example/"
    (@platform_mint_call sample_bodies sample_reason sample_text sample_base forbidding gateway_one) 600 "settings".

Lemma exchange_truthful_witness :
  let table := table_of no_toml no_yaml to_ascii_lowercase acme_list in
  (mint to_ascii_lowercase acme_json acme_published 3600 (λ _, []) refused_minter table 10 "h.p.s" (mkJwks None 0)).1
    = Err (Refused OWNER_NOT_VERIFIED (of_string "not yours")) ∧
  ∃ response, forbidding (@mint_post sample_bodies sample_base gateway_one acme_request) = Ok response ∧
    @refuses sample_bodies sample_text response (mkRefusal OWNER_NOT_VERIFIED (of_string "not yours")).
Proof.
  intros table.
  assert ((mint to_ascii_lowercase acme_json acme_published 3600 (λ _, []) refused_minter table 10 "h.p.s"
    (mkJwks None 0)).1 = Err (Refused OWNER_NOT_VERIFIED (of_string "not yours"))) as Hrun by (vm_compute; reflexivity).
  split; [exact Hrun|].
  pose proof (@exchange_truthful sample_bodies sample_jwt sample_oidc sample_reason sample_text to_ascii_lowercase acme_json
    acme_published 3600 (λ _, []) sample_base forbidding gateway_one refused_minter table 10 "h.p.s" (mkJwks None 0)
    (mkJwks (Some ([of_string "h.p.s"] : @JwkSet sample_oidc, 10)) 1) acme_request eq_refl
    ltac:(vm_compute; reflexivity)) as H.
  rewrite Hrun in H. exact H.
Defined.
