(* ===== verification/AuditShip.v ===== *)
(** * The audit tasks

    Model of [run_audit_shipping] ([crates/skimasque-cli/src/audit_ship.rs]) and
    [run_platform_audit_shipping] ([platform.rs]) as they run: one turn of the loop
    as a function of what arrived in the channel while the task was suspended and
    of what the control plane answered.

    [AuditChain] has the contract of shipping, a step relation whose theorems say
    that nothing is lost, duplicated short of a lost answer, or stuck.  Here both
    loops, with the calls they make ([ControlCalls]), are shown to refine it, for
    any control plane that answers a post with success only when it stored it and
    tells its own head when asked. *)

From S2P Require Import Prelude RustStr RustNet PolicyDest PolicyUnits PolicyModel PolicyEval PolicyParse.
From S2P Require Import Identity Credential Tenant Platform Service Revocation StateDir ControlSync Minting.
From S2P Require Import AuditLog AuditChain ControlCalls.

(** ** The loops *)

Inductive Task : Type := OrgTask | PlatformTask.

(** Which events a task ships: the platform's those [admit_platform_event] takes. *)
Definition task_admits (t : Task) (e : AuditEvent) : bool :=
  match t with OrgTask => true | PlatformTask => (admit_platform_event [] e).1 end.

Section tasks.
Context `{Bodies}.
Context (sha256 : list Z → list Z) (to_json : AuditEvent → str).
Context (reason : Z → str) (text : data → str).
Context (base_url : str) (identity : GatewayIdentity).
Context (t : Task).

Abbreviation admits := (task_admits t).

(** A batch ready to be posted. *)
Record Prepared : Type := mkPrepared {
  pr_links : list ChainedAuditEvent;
  pr_tail : str;
  pr_next : Z;
  pr_taken : nat;
  pr_send : Http → result error unit;
}.
Definition prepare (pending : list AuditEvent) (next_seq : Z) (prev_hash : str) : Prepared :=
  match t with
  | OrgTask =>
      let take_n := Nat.min (length pending) BATCH_MAX in
      let '(batch, batch_tail_hash) := chain_batch sha256 to_json (take take_n pending) next_seq prev_hash in
      mkPrepared batch batch_tail_hash (next_seq + Z.of_nat take_n) take_n
        (λ http, _ ← ship_audit reason text base_url http identity batch; Ok tt)
  | PlatformTask =>
      let b := platform_batch sha256 to_json pending next_seq prev_hash in
      mkPrepared (map pe_link (pb_events b)) (tail_hash b) (pb_next_seq b) (taken b)
        (λ http, _ ← ship_platform_audit reason text base_url http identity (mkPlatformShipAudit (pb_events b)); Ok tt)
  end.
(** Only the platform's loop looks whether the batch is empty. *)
Definition pr_skip (p : Prepared) : bool :=
  match t with OrgTask => false | PlatformTask => bool_decide (pr_links p = []) end.

Definition fetch_head (http : Http) : result error AuditHead :=
  match t with
  | OrgTask => audit_head reason text base_url http identity
  | PlatformTask => platform_audit_head reason text base_url http identity
  end.

(** [while pending.len() < limit { match rx.try_recv() { .. } }]. *)
Fixpoint try_recv_all (limit : nat) (pending queue : list AuditEvent) : list AuditEvent * list AuditEvent :=
  match queue with
  | [] => (pending, [])
  | e :: queue' =>
      if (length pending <? limit)%nat
      then try_recv_all limit (if admits e then pending ++ [e] else pending) queue'
      else (pending, queue)
  end.
Definition set_channel (pending queue : list AuditEvent) (s : Shipper) : Shipper :=
  mkShipper (phase s) (next_seq s) (prev_hash s) pending queue (local s) (queued s) (acked s) (persisted s).
Definition drain_channel (limit : nat) (s : Shipper) : Shipper :=
  let '(pending, queue) := try_recv_all limit (pending s) (queue s) in set_channel pending queue s.

(** The answer [Ok]: the sequence moves on, the tail is persisted, the batch goes. *)
Definition confirm (p : Prepared) (s : Shipper) : Shipper :=
  mkShipper Filling (pr_next p) (pr_tail p) (drop (pr_taken p) (pending s)) (queue s) (local s) (queued s)
    (acked s ++ take (pr_taken p) (pending s)) (Some (mkHead (pr_next p - 1) (pr_tail p))).

(** One turn: what is recorded while the task waits for an event, for the answer
    to its post, for the head, and while it sleeps; and the network at the post
    and at the request for the head. *)
Record ShipTurn : Type := mkShipTurn {
  at_recv : list AuditEvent;
  at_post : list AuditEvent;
  at_head : list AuditEvent;
  at_sleep : list AuditEvent;
  net_post : Http;
  net_head : Http;
}.
Definition record_all (evs : list AuditEvent) (s : Shipper) : Shipper := fold_left (λ s e, record e s) evs s.

(** The top of the loop: the state with which a batch is prepared, or the state
    the turn ends in without one (still waiting, or an event that was not taken). *)
Definition fill_batch (turn : ShipTurn) (s : Shipper) : Shipper * bool :=
  match pending s with
  | [] =>
      let s := record_all (at_recv turn) s in
      match queue s with
      | [] => (s, false)
      | e :: q =>
          let s := pull admits s e q in
          match pending s with
          | [] => (s, false)
          | _ => (drain_channel BATCH_MAX s, true)
          end
      end
  | _ => (drain_channel BATCH_MAX s, true)
  end.

(** Whether a failed post is taken for a conflict. *)
Definition is_conflict (e : error) : bool := contains_str (of_string "409") (display_error e).

Definition send_batch (turn : ShipTurn) (s : Shipper) (b : Duration) : Shipper * Duration * option Duration :=
  let p := prepare (pending s) (next_seq s) (prev_hash s) in
  if pr_skip p then (set_channel (drop (pr_taken p) (pending s)) (queue s) s, b, None)
  else
    let s := record_all (at_post turn) s in
    match pr_send p (net_post turn) with
    | Ok _ => (confirm p s, BACKOFF_MIN, None)
    | Err e =>
        let s := record_all (at_head turn) s in
        match (if is_conflict e then result_ok (fetch_head (net_head turn)) else None) with
        | Some head => (rebase head s, b, None)
        | None =>
            let s := record_all (at_sleep turn) s in
            (trim_backlog (drain_channel MAX_PENDING s), next_backoff b, Some b)
        end
    end.

(** The new state and backoff, and how long the turn slept. *)
Definition ship_turn (turn : ShipTurn) (s : Shipper) (b : Duration) : Shipper * Duration * option Duration :=
  match fill_batch turn s with
  | (s, true) => send_batch turn s b
  | (s, false) => (s, b, None)
  end.

(** Where a task starts: [fetched] is the answer to its first request. *)
Definition start_task (net : Http) (file : option AuditHead) : Shipper :=
  start_shipper (resume_from (result_ok (fetch_head net)) file) file.

(** ** The control plane *)

Abbreviation chain := (list ChainedAuditEvent).

(** A post is answered with success only when it was stored, and stored only when
    it continues the chain; a stored post may be answered in any way. *)
Definition honest_post (c links : chain) (net : Http) (c' : chain) : Prop :=
  (c' = c ∧ (∀ r response, net r = Ok response → success response = false)) ∨
  (c' = c ++ links ∧ is_Some (stored_head sha256 c ≫= λ head, recompute sha256 head links)).
Definition honest_head (c : chain) (net : Http) : Prop :=
  ∀ r response head, net r = Ok response → success response = true →
    from_slice (resp_body response) = Some head → stored_head sha256 c = Some head.

Definition honest_turn (turn : ShipTurn) (s : Shipper) (c c' : chain) : Prop :=
  match fill_batch turn s with
  | (s, true) =>
      honest_post c (pr_links (prepare (pending s) (next_seq s) (prev_hash s))) (net_post turn) c' ∧
      honest_head c' (net_head turn)
  | (_, false) => c' = c
  end.

Inductive task_runs : Shipper * Duration * chain → Shipper * Duration * chain → Prop :=
  | runs_nil st : task_runs st st
  | runs_turn turn s b c c' st :
      honest_turn turn s c c' →
      task_runs ((ship_turn turn s b).1, c') st → task_runs (s, b, c) st.

(** ** Refinement *)

Abbreviation step := (ship_step sha256 to_json admits).

Lemma record_all_steps evs s c : rtc step (s, c) (record_all evs s, c).
Proof.
  revert s. induction evs as [|e evs IH]; intros s; [done|]. eapply rtc_l; [apply step_record|]. apply IH.
Qed.
Lemma record_all_pending evs s :
  pending (record_all evs s) = pending s ∧ phase (record_all evs s) = phase s ∧
  next_seq (record_all evs s) = next_seq s ∧ prev_hash (record_all evs s) = prev_hash s ∧
  acked (record_all evs s) = acked s.
Proof. revert s. induction evs as [|e evs IH]; intros s; [done|]. apply (IH (record e s)). Qed.

Lemma drain_pending limit s :
  phase (drain_channel limit s) = phase s ∧ acked (drain_channel limit s) = acked s ∧
  next_seq (drain_channel limit s) = next_seq s ∧ prev_hash (drain_channel limit s) = prev_hash s ∧
  ∃ more, pending (drain_channel limit s) = pending s ++ more.
Proof.
  unfold drain_channel. destruct (try_recv_all _ _ _) as [p q] eqn:Ht. split_and!; try done. cbn.
  revert Ht. generalize (pending s) as p0. induction (queue s) as [|e q0 IH]; intros p0.
  - intros [= <- _]. exists []. by rewrite app_nil_r.
  - cbn [try_recv_all]. destruct (_ <? _)%nat; [|intros [= <- _]; exists []; by rewrite app_nil_r].
    intros [more ->]%IH. destruct (task_admits t e); [|eauto]. exists (e :: more). by rewrite <- app_assoc.
Qed.

Lemma drain_steps (limit : nat) (s : Shipper) (c : chain) :
  (phase s = Filling ∧ limit = BATCH_MAX) ∨ (phase s = Backlog ∧ limit = MAX_PENDING) →
  rtc step (s, c) (drain_channel limit s, c).
Proof.
  unfold drain_channel. remember (queue s) as q0 eqn:Hq. revert s Hq. induction q0 as [|e q0 IH]; intros s Hq Hph.
  - cbn. destruct s. cbn in Hq. rewrite Hq. by unfold set_channel.
  - cbn [try_recv_all]. destruct (Nat.ltb_spec (length (pending s)) limit) as [Hlt|Hge].
    + assert (step (s, c) (pull admits s e q0, c)) as Hs.
      { destruct Hph as [[Hp ->]|[Hp ->]]; [by apply step_fill|by apply step_backlog]. }
      eapply rtc_l; [exact Hs|]. specialize (IH (pull admits s e q0) eq_refl Hph). exact IH.
    + rewrite Hq. destruct s. by unfold set_channel.
Qed.

(** The fields a turn leaves alone, kept by the channel's operations. *)
Lemma admits_all s c : ship_inv sha256 to_json admits (s, c) → Forall (λ e, admits e = true) (pending s).
Proof.
  intros (Hq & _). apply List.Forall_forall. intros e He.
  assert (In e (List.filter admits (queued s))) as Hin by (rewrite Hq; apply in_or_app; right; apply in_or_app; by left).
  by apply filter_In in Hin as [_ ?].
Qed.

Lemma filter_all {A} (f : A → bool) l : Forall (λ x, f x = true) l → List.filter f l = l.
Proof. induction 1 as [|x l Hx _ IH]; [done|]. cbn. by rewrite Hx, IH. Qed.

Lemma prepare_spec s :
  Forall (λ e, admits e = true) (pending s) →
  let p := prepare (pending s) (next_seq s) (prev_hash s) in
  pr_links p = (batch_of sha256 to_json s).1 ∧ pr_tail p = (batch_of sha256 to_json s).2 ∧
  pr_next p = next_seq s + Z.of_nat (batch_len s) ∧ pr_taken p = batch_len s.
Proof.
  intros Hall p. unfold p, prepare, batch_of, batch_len. revert Hall. unfold task_admits. destruct t.
  - intros _. by destruct (chain_batch _ _ _ _ _) as [b tail].
  - intros Hall. assert (Forall (λ e, has_org e = true) (take (Nat.min (length (pending s)) BATCH_MAX) (pending s))) as Ht.
    { apply Forall_take. eapply Forall_impl; [exact Hall|]. intros e. cbv beta. unfold task_admits. by rewrite admit_platform_spec. }
    unfold platform_batch. destruct (platform_links sha256 to_json (take (Nat.min (length (pending s)) BATCH_MAX) (pending s))
      (next_seq s) (prev_hash s)) as (H1 & H2 & _). rewrite (filter_all _ _ Ht) in H1, H2.
    destruct (chain_platform_batch _ _ _ _ _) as [b tail] eqn:Hb. cbn in *. rewrite H1, H2. split_and!; try done.
    f_equal. f_equal. rewrite <- (length_map pe_link), H1, <- (length_map event_json), chain_batch_json, length_map.
    rewrite length_take. lia.
Qed.

Lemma prepared_some s p :
  Forall (λ e, admits e = true) (pending s) → pending s ≠ [] → p = prepare (pending s) (next_seq s) (prev_hash s) →
  pr_links p ≠ [] ∧ pr_skip p = false.
Proof.
  intros Hall Hne ->. destruct (prepare_spec s Hall) as (Hl & _).
  assert (pr_links (prepare (pending s) (next_seq s) (prev_hash s)) ≠ []) as Hn.
  { rewrite Hl. intros Hnil. apply (f_equal (map event_json)) in Hnil. rewrite batch_json in Hnil.
    apply (batch_nonempty s Hne). by destruct (take _ _). }
  split; [done|]. unfold pr_skip. destruct t; [done|]. by apply bool_decide_eq_false.
Qed.

Lemma confirm_shipped s s' :
  Forall (λ e, admits e = true) (pending s) →
  pending s' = pending s → next_seq s' = next_seq s → prev_hash s' = prev_hash s →
  confirm (prepare (pending s) (next_seq s) (prev_hash s)) s' = shipped sha256 to_json s'.
Proof.
  intros Hall Hp Hn Hh. destruct (prepare_spec s Hall) as (_ & H2 & H3 & H4).
  unfold confirm, shipped. rewrite H2, H3, H4. unfold batch_of, batch_len. by rewrite Hp, Hn, Hh.
Qed.

(** A call succeeded only on an answer of success. *)
Lemma send_ok p pending n h net :
  p = prepare pending n h → is_ok (pr_send p net) = true → ∃ r response, net r = Ok response ∧ success response = true.
Proof.
  intros ->. unfold prepare. destruct t; [destruct (chain_batch _ _ _ _ _)|]; cbn [pr_send];
    unfold ship_audit, ship_platform_audit, result_context, check_status;
    (destruct (net _) as [response|e] eqn:Hn; cbn; [|done]);
    (destruct (success response) eqn:Hs; cbn; [|done]); eauto.
Qed.
Lemma head_ok net h :
  fetch_head net = Ok h →
  ∃ r response, net r = Ok response ∧ success response = true ∧ from_slice (resp_body response) = Some h.
Proof.
  unfold fetch_head, audit_head, platform_audit_head, result_context, check_status.
  destruct t; (destruct (net _) as [response|e] eqn:Hn; cbn; [|done]);
    (destruct (success response) eqn:Hs; cbn; [|done]); intros Hh%ok_or_Ok; eauto.
Qed.

Lemma fill_batch_steps turn s c :
  phase s = Filling → let '(s1, ready) := fill_batch turn s in
  rtc step (s, c) (s1, c) ∧ phase s1 = Filling ∧ (ready = true → pending s1 ≠ []).
Proof.
  intros Hph. unfold fill_batch. destruct (pending s) as [|e0 p0] eqn:Hp.
  - destruct (record_all_pending (at_recv turn) s) as (Hrp & Hrph & _). set (s1 := record_all _ s) in *.
    assert (rtc step (s, c) (s1, c)) as Hs1 by apply record_all_steps.
    destruct (queue s1) as [|e q] eqn:Hq; [by rewrite Hrph|].
    assert (rtc step (s, c) (pull admits s1 e q, c)) as Hs2.
    { eapply rtc_r; [exact Hs1|]. apply step_fill; [by rewrite Hrph|rewrite Hrp, Hp; cbn; unfold BATCH_MAX; lia|done]. }
    destruct (pending (pull admits s1 e q)) as [|e1 p1] eqn:Hp1; [by rewrite <- Hph, <- Hrph|].
    destruct (drain_pending BATCH_MAX (pull admits s1 e q)) as (Hd1 & _ & _ & _ & more & Hd2).
    split_and!; [|by rewrite Hd1; cbn; rewrite Hrph|by rewrite Hd2, Hp1].
    etrans; [exact Hs2|]. apply drain_steps. left. split; [cbn; by rewrite Hrph|done].
  - destruct (drain_pending BATCH_MAX s) as (Hd1 & _ & _ & _ & more & Hd2).
    split_and!; [|by rewrite Hd1|by rewrite Hd2, Hp]. apply drain_steps. by left.
Qed.

Lemma record_all_phase evs ph s : record_all evs (set_phase ph s) = set_phase ph (record_all evs s).
Proof. revert s. induction evs as [|e evs IH]; intros s; [done|]. apply (IH (record e s)). Qed.
Lemma drain_phase limit ph s : drain_channel limit (set_phase ph s) = set_phase ph (drain_channel limit s).
Proof. unfold drain_channel. cbn. by destruct (try_recv_all _ _ _). Qed.

(** A post that failed, stored or not, leaves the task draining its channel. *)
Lemma failed_steps s c c' evs net :
  ship_inv sha256 to_json admits (s, c) → pending s ≠ [] → phase s = Filling →
  honest_post c (pr_links (prepare (pending s) (next_seq s) (prev_hash s))) net c' →
  rtc step (s, c) (set_phase Backlog (record_all evs s), c').
Proof.
  intros Hi Hne Hph Hpost. destruct (prepare_spec s (admits_all s c Hi)) as (Hl & _).
  eapply rtc_l; [by apply step_post|]. rewrite <- record_all_phase.
  assert (step (set_phase Posted s, c) (set_phase Backlog s, c')) as Hs.
  { destruct Hpost as [[-> _]|[-> Hr]].
    - exact (step_failed sha256 to_json admits (set_phase Posted s) c eq_refl).
    - destruct Hr as [x Hr]. destruct (stored_head sha256 c) as [head|] eqn:Hh; [|done]. cbn in Hr. rewrite Hl in *.
      apply (step_lost sha256 to_json admits (set_phase Posted s) c head); [done|done|by exists x]. }
  eapply rtc_l; [exact Hs|]. apply record_all_steps.
Qed.

Lemma trim_noop s : (length (pending s) ≤ MAX_PENDING)%nat → trim_backlog s = set_phase Filling s.
Proof. intros Hl. unfold trim_backlog, set_phase. by replace (length (pending s) - MAX_PENDING)%nat with 0%nat by lia. Qed.

Lemma rebase_steps s c head :
  (length (pending s) ≤ MAX_PENDING)%nat → pending s ≠ [] → stored_head sha256 c = Some head →
  rtc step (set_phase Backlog s, c) (rebase head s, c).
Proof.
  intros Hl Hne Hh. eapply rtc_l; [by apply step_retry|]. rewrite trim_noop by done.
  eapply rtc_l; [by apply step_post|]. apply rtc_once.
  apply (step_conflict sha256 to_json admits (set_phase Posted (set_phase Filling (set_phase Backlog s))) c head); done.
Qed.

Lemma send_batch_steps turn s b c c' :
  ship_inv sha256 to_json admits (s, c) → phase s = Filling → pending s ≠ [] →
  honest_post c (pr_links (prepare (pending s) (next_seq s) (prev_hash s))) (net_post turn) c' →
  honest_head c' (net_head turn) →
  rtc step (s, c) ((send_batch turn s b).1.1, c') ∧ phase (send_batch turn s b).1.1 = Filling.
Proof.
  intros Hi Hph Hne Hpost Hhead. pose proof (admits_all s c Hi) as Hall. pose proof Hi as (_ & _ & Hlen & _).
  unfold send_batch. rewrite (proj2 (prepared_some s _ Hall Hne eq_refl)).
  destruct (record_all_pending (at_post turn) s) as (Hp & _ & Hn & Hh & _).
  destruct (pr_send _ (net_post turn)) as [u|e] eqn:Hsend.
  - split; [|done]. rewrite (confirm_shipped s _ Hall Hp Hn Hh).
    destruct (send_ok _ (pending s) (next_seq s) (prev_hash s) (net_post turn) eq_refl) as (r & resp & Hr & Hok); [by rewrite Hsend|].
    destruct Hpost as [[-> Hfail]|[-> Hr2]]; [by rewrite (Hfail r resp Hr) in Hok|].
    destruct (stored_head sha256 c) as [head|] eqn:Hhd; [|by destruct Hr2]. cbn in Hr2.
    destruct (prepare_spec s Hall) as (Hl & _). rewrite Hl in *.
    eapply rtc_l; [by apply step_post|]. eapply rtc_r; [apply (record_all_steps (at_post turn))|].
    rewrite record_all_phase. set (s1 := record_all _ s) in *.
    assert (batch_of sha256 to_json s1 = batch_of sha256 to_json s) as Hb.
    { unfold batch_of, batch_len. by rewrite Hp, Hn, Hh. }
    rewrite <- Hb in *. apply (step_acked sha256 to_json admits (set_phase Posted s1) c head); done.
  - set (s1 := record_all (at_post turn) s) in *. set (s2 := record_all (at_head turn) s1).
    assert (rtc step (s, c) (set_phase Backlog s2, c')) as Hs2.
    { unfold s2, s1. rewrite <- record_all_phase. etrans; [|apply record_all_steps]. by eapply failed_steps. }
    destruct (record_all_pending (at_head turn) s1) as (Hp2 & _). rewrite Hp in Hp2.
    destruct (if is_conflict e then _ else _) as [head|] eqn:Hc; cbn [fst].
    + split; [|done]. destruct (is_conflict e); [|done]. apply result_ok_Some in Hc.
      destruct (head_ok _ _ Hc) as (r & resp & Hr & Hok & Hb). etrans; [exact Hs2|].
      apply rebase_steps; [by fold s2 in Hp2; rewrite Hp2|by fold s2 in Hp2; rewrite Hp2|by eapply Hhead].
    + split; [|done]. etrans; [exact Hs2|]. etrans; [apply (record_all_steps (at_sleep turn))|].
      etrans; [apply (drain_steps MAX_PENDING); right; by rewrite record_all_phase|].
      rewrite record_all_phase, drain_phase. apply rtc_once.
      exact (step_retry sha256 to_json admits (set_phase Backlog (drain_channel MAX_PENDING (record_all (at_sleep turn) s2)))
        c' eq_refl).
Qed.

Lemma ship_turn_steps turn s b c c' :
  ship_inv sha256 to_json admits (s, c) → phase s = Filling → honest_turn turn s c c' →
  rtc step (s, c) ((ship_turn turn s b).1.1, c') ∧ phase (ship_turn turn s b).1.1 = Filling.
Proof.
  intros Hi Hph Hh. unfold ship_turn, honest_turn in *.
  pose proof (fill_batch_steps turn s c Hph) as Hf. destruct (fill_batch turn s) as [s1 [|]].
  - destruct Hf as (Hs & Hph1 & Hne), Hh as [Hpost Hhead].
    assert (ship_inv sha256 to_json admits (s1, c)) as Hi1 by (by eapply ship_run_inv).
    destruct (send_batch_steps turn s1 b c c' Hi1 Hph1 (Hne eq_refl) Hpost Hhead) as [H1 H2].
    split; [|done]. by etrans.
  - destruct Hf as (Hs & Hph1 & _). by subst c'.
Qed.

(** Both tasks keep to the contract of [AuditChain]: with a control plane that is
    honest about what it stored, every run of a task's loop is a run of the
    shipping relation. *)
Theorem audit_tasks_refine (s s' : Shipper) (b b' : Duration) (c c' : chain) :
  ship_inv sha256 to_json admits (s, c) → phase s = Filling → task_runs (s, b, c) (s', b', c') →
  rtc step (s, c) (s', c') ∧ phase s' = Filling.
Proof.
  intros Hi Hph Hrun. remember (s, b, c) as st eqn:Hst. remember (s', b', c') as st' eqn:Hst'.
  revert s b c Hst Hi Hph. induction Hrun as [st|turn s1 b1 c1 c2 st Hh Hrun IH]; intros s b c Hst Hi Hph.
  - rewrite Hst in Hst'. by injection Hst' as <- _ <-.
  - injection Hst as -> -> ->. destruct (ship_turn_steps turn s b c c2 Hi Hph Hh) as [H1 H2].
    destruct (ship_turn turn s b) as [[s1 b1] z]. cbn [fst] in *.
    destruct (IH Hst' s1 b1 c2 eq_refl) as [H3 H4]; [by eapply ship_run_inv|done|]. split; [|done]. by etrans.
Qed.

(** C30.  Nothing the channel took is lost or reordered by the loops themselves: wherever
    a task resumes on the stored chain, and whatever the turns brought, the events
    it is to ship are, in order, those acknowledged, those pending and those still
    queued; the acknowledged ones are in the stored chain in that order; the chain
    recomputes; and the pending list stays within its bound. *)
Theorem audit_tasks_complete (net : Http) (file : option AuditHead) (pre post c : chain) (s : Shipper) (b : Duration) :
  stored_head sha256 pre = Some (resume_from (result_ok (fetch_head net)) file) →
  is_Some (stored_head sha256 (pre ++ post)) →
  task_runs (start_task net file, BACKOFF_MIN, pre ++ post) (s, b, c) →
  List.filter admits (queued s) = acked s ++ pending s ++ List.filter admits (queue s) ∧
  sublist (queued s) (local s) ∧ sublist (map to_json (acked s)) (map event_json c) ∧
  is_Some (stored_head sha256 c) ∧ (length (pending s) ≤ MAX_PENDING)%nat.
Proof.
  intros Hpre Hc Hrun.
  assert (ship_inv sha256 to_json admits (start_task net file, pre ++ post)) as Hi by (by eapply start_inv).
  destruct (audit_tasks_refine _ _ _ _ _ _ Hi eq_refl Hrun) as [Hsteps _].
  destruct (ship_run_inv _ _ _ _ _ Hsteps Hi) as (Hq & Hl & Hp & _ & _ & Hs & _ & Ha). done.
Qed.

(** ** Recovery *)

Lemma fill_batch_spec turn s :
  pending s ≠ [] → ∃ s1, fill_batch turn s = (s1, true) ∧ acked s1 = acked s ∧ phase s1 = phase s ∧
    next_seq s1 = next_seq s ∧ prev_hash s1 = prev_hash s ∧ pending s `prefix_of` pending s1.
Proof.
  intros Hne. unfold fill_batch. destruct (drain_pending BATCH_MAX s) as (H1 & H2 & H3 & H4 & more & H5).
  destruct (pending s) as [|e p]; [done|]. exists (drain_channel BATCH_MAX s). split_and!; try done. by exists more.
Qed.

Lemma ship_turn_acked turn s b : acked s `prefix_of` acked (ship_turn turn s b).1.1.
Proof.
  assert (acked (fill_batch turn s).1 = acked s) as Hf.
  { unfold fill_batch. destruct (pending s) as [|e p]; [|apply drain_pending].
    destruct (queue _) as [|e q]; [apply record_all_pending|].
    destruct (pending (pull _ _ _ _)); cbn [fst]; [|destruct (drain_pending BATCH_MAX (pull admits (record_all (at_recv turn) s) e q)) as (_ & -> & _)];
      apply (record_all_pending (at_recv turn) s). }
  unfold ship_turn. destruct (fill_batch turn s) as [s1 [|]]; cbn [fst] in Hf; rewrite <- Hf; [|done].
  unfold send_batch. destruct (pr_skip _); [done|].
  assert (∀ evs x, acked (record_all evs x) = acked x) as Hra by (intros evs x; apply (record_all_pending evs x)).
  destruct (pr_send _ _) as [u|e].
  - cbn. rewrite Hra. by eexists.
  - destruct (if is_conflict e then _ else _); cbn; rewrite ?Hra; [done|].
    destruct (drain_pending MAX_PENDING (record_all (at_sleep turn) (record_all (at_head turn) (record_all (at_post turn) s1))))
      as (_ & -> & _). by rewrite !Hra.
Qed.

(** A control plane that is reached and does as the protocol says. *)
Definition continues (c links : chain) : bool :=
  bool_decide (is_Some (stored_head sha256 c ≫= λ head, recompute sha256 head links)).
Definition serves_turn (turn : ShipTurn) (s : Shipper) (c c' : chain) : Prop :=
  match fill_batch turn s with
  | (s, true) =>
      let links := pr_links (prepare (pending s) (next_seq s) (prev_hash s)) in
      (∀ r, ∃ response (ack : ShipAuditResponse), net_post turn r = Ok response ∧
         if continues c links then success response = true ∧ from_slice (resp_body response) = Some ack
         else resp_status response = 409) ∧
      (∀ r, ∃ response, net_head turn r = Ok response ∧ success response = true ∧
         from_slice (resp_body response) = stored_head sha256 c') ∧
      c' = if continues c links then c ++ links else c
  | (_, false) => c' = c
  end.

(** An answer of 409 reads as a conflict. *)
Lemma conflict_409 response what :
  resp_status response = 409 → is_conflict [failure_text reason text response what] = true.
Proof.
  intros Hst. unfold is_conflict. apply contains_str_true. cbn [display_error]. unfold failure_text, status_text.
  rewrite Hst. replace (to_string 409) with (of_string "409") by (by vm_compute).
  exists (what ++ of_string " failed: "). eexists. by rewrite <- !app_assoc.
Qed.

(** The answers the calls read, with nothing computed. *)
Lemma call_reads {A} (msg what : str) (response : Response) (k : Response → result error A) :
  success response = true →
  (response ← result_context msg (Ok response); response ← check_status reason text response what; k response) = k response.
Proof. intros Hs. unfold result_context, check_status. bind_simpl. rewrite Hs. reflexivity. Qed.
Lemma call_fails {A} (msg what : str) (response : Response) (k : Response → result error A) :
  success response = false →
  (response ← result_context msg (Ok response); response ← check_status reason text response what; k response)
    = Err [failure_text reason text response what].
Proof. intros Hs. unfold result_context, check_status. bind_simpl. rewrite Hs. reflexivity. Qed.

Lemma send_stored p pending n h net :
  p = prepare pending n h →
  (∀ r, ∃ response (ack : ShipAuditResponse), net r = Ok response ∧ success response = true ∧
     from_slice (resp_body response) = Some ack) → pr_send p net = Ok tt.
Proof.
  intros -> Hn. unfold prepare. destruct t; [destruct (chain_batch _ _ _ _ _)|]; cbn [pr_send];
    unfold ship_audit, ship_platform_audit;
    edestruct Hn as (resp & ack & -> & Hs & Hb); rewrite call_reads by done; rewrite Hb; reflexivity.
Qed.
Lemma send_refused p pending n h net :
  p = prepare pending n h → (∀ r, ∃ response, net r = Ok response ∧ resp_status response = 409) →
  ∃ e, pr_send p net = Err e ∧ is_conflict e = true.
Proof.
  intros -> Hn. unfold prepare. destruct t; [destruct (chain_batch _ _ _ _ _)|]; cbn [pr_send];
    unfold ship_audit, ship_platform_audit;
    edestruct Hn as (resp & -> & Hs);
    (rewrite call_fails by (unfold success; by rewrite Hs)); eexists; (split; [reflexivity|]); by apply conflict_409.
Qed.
Lemma fetch_told net h :
  (∀ r, ∃ response, net r = Ok response ∧ success response = true ∧ from_slice (resp_body response) = Some h) →
  fetch_head net = Ok h.
Proof.
  intros Hn. unfold fetch_head, audit_head, platform_audit_head.
  destruct t; edestruct Hn as (resp & -> & Hs & Hb); rewrite call_reads by done; rewrite Hb; reflexivity.
Qed.

Lemma take_prefix_le {A} n m (l : list A) : (n ≤ m)%nat → take n l `prefix_of` take m l.
Proof.
  intros Hle. exists (drop n (take m l)). rewrite <- (take_drop n (take m l)) at 1. f_equal. rewrite take_take. f_equal. lia.
Qed.

(** What a served turn does: the front of the list is acknowledged, or the task
    learns the head and keeps everything. *)
Lemma served_turn turn s b c c' :
  ship_inv sha256 to_json admits (s, c) → phase s = Filling → pending s ≠ [] → serves_turn turn s c c' →
  acked s ++ take (batch_len s) (pending s) `prefix_of` acked (ship_turn turn s b).1.1 ∨
  (let s' := (ship_turn turn s b).1.1 in
   c' = c ∧ phase s' = Filling ∧ acked s' = acked s ∧ pending s `prefix_of` pending s' ∧
   stored_head sha256 c = Some (mkHead (next_seq s' - 1) (prev_hash s'))) ∧
  stored_head sha256 c ≠ Some (mkHead (next_seq s - 1) (prev_hash s)).
Proof.
  intros Hi Hph Hne Hserve. unfold serves_turn in Hserve. unfold ship_turn.
  destruct (fill_batch_spec turn s Hne) as (s1 & Hfill & Hack & Hph1 & Hn & Hh & Hpre).
  pose proof (fill_batch_steps turn s c Hph) as Hsteps. rewrite Hfill in Hserve, Hsteps |- *.
  destruct Hsteps as (Hsteps & _ & Hne1). specialize (Hne1 eq_refl).
  assert (ship_inv sha256 to_json admits (s1, c)) as Hi1 by (by eapply ship_run_inv).
  pose proof (admits_all s1 c Hi1) as Hall. destruct (prepare_spec s1 Hall) as (Hl & _ & _ & Ht).
  destruct Hserve as (Hpost & Hhead & Hc'). unfold send_batch.
  rewrite (proj2 (prepared_some s1 _ Hall Hne1 eq_refl)). unfold continues in *.
  case_bool_decide as Hcont; rewrite Hc' in *.
  - left. rewrite (send_stored _ _ _ _ (net_post turn) eq_refl) by done. cbn [fst]. unfold confirm. cbn [acked].
    destruct (record_all_pending (at_post turn) s1) as (Hp & _ & _ & _ & ->). rewrite Hp, Ht, Hack.
    apply prefix_app. destruct Hpre as [more Hmore]. rewrite Hmore. unfold batch_len. rewrite Hmore, length_app.
    rewrite take_app. apply prefix_app_r. apply take_prefix_le. lia.
  - right. destruct (send_refused _ (pending s1) (next_seq s1) (prev_hash s1) (net_post turn) eq_refl) as (e & -> & He).
    { intros r. destruct (Hpost r) as (resp & _ & ? & ?). eauto. }
    destruct Hi1 as (_ & _ & _ & _ & _ & [head Hst] & _). rewrite Hst in Hhead.
    rewrite He, (fetch_told _ head Hhead). cbn [result_ok fst].
    destruct (record_all_pending (at_post turn) s1) as (Hp & _ & _ & _ & Ha).
    destruct (record_all_pending (at_head turn) (record_all (at_post turn) s1)) as (Hp' & _ & _ & _ & Ha').
    unfold rebase. cbn [phase acked pending next_seq prev_hash]. rewrite Hp', Hp, Ha', Ha, Hack, Hst.
    split; [split_and!; try done; destruct head; cbn; do 2 f_equal; lia|].
    intros [= ->]. apply Hcont. rewrite Hl, Hst. bind_simpl. unfold batch_of. rewrite <- Hn, <- Hh.
    by rewrite chain_batch_recompute.
Qed.

Lemma serves_honest turn s c c' : serves_turn turn s c c' → honest_turn turn s c c'.
Proof.
  unfold serves_turn, honest_turn. destruct (fill_batch turn s) as [s1 [|]]; [|done].
  intros (Hpost & Hhead & ->). unfold continues in *. split.
  - case_bool_decide as Hc; [by right|left]. split; [done|]. intros r resp Hr.
    destruct (Hpost r) as (resp' & _ & Hr' & Hst). rewrite Hr in Hr'. injection Hr' as <-. unfold success. by rewrite Hst.
  - intros r resp head Hr _ Hb. destruct (Hhead r) as (resp' & Hr' & _ & Hb'). rewrite Hr in Hr'. injection Hr' as <-.
    by rewrite <- Hb', Hb.
Qed.

(** Two turns with a control plane that is reached are enough: whatever was lost
    before and however wrong the task's idea of the chain, after them the front of
    its list is acknowledged. *)
Theorem audit_tasks_recover (turn1 turn2 : ShipTurn) (s : Shipper) (b b1 : Duration) (c c1 c2 : chain) :
  ship_inv sha256 to_json admits (s, c) → phase s = Filling → pending s ≠ [] →
  let s1 := (ship_turn turn1 s b).1.1 in
  serves_turn turn1 s c c1 → serves_turn turn2 s1 c1 c2 →
  acked s ++ take (batch_len s) (pending s) `prefix_of` acked (ship_turn turn2 s1 b1).1.1.
Proof.
  intros Hi Hph Hne s1 H1 H2.
  assert (ship_inv sha256 to_json admits (s1, c1)) as Hi1.
  { eapply ship_run_inv; [|exact Hi]. apply ship_turn_steps; [done..|by apply serves_honest]. }
  destruct (served_turn turn1 s b c c1 Hi Hph Hne H1) as [Hdone|[(-> & Hph1 & Ha & [more Hp] & Hst) _]].
  - etrans; [exact Hdone|]. apply ship_turn_acked.
  - fold s1 in Hph1, Ha, Hp, Hst. assert (pending s1 ≠ []) as Hne1 by (rewrite Hp; by destruct (pending s)).
    destruct (served_turn turn2 s1 b1 c c2 Hi1 Hph1 Hne1 H2) as [Hdone|[_ Hbad]]; [|done].
    etrans; [|exact Hdone]. rewrite Ha. apply prefix_app. unfold batch_len. rewrite Hp, length_app, take_app.
    apply prefix_app_r. apply take_prefix_le. lia.
Qed.
End tasks.

(** ** Tasks at work *)

(** A control plane that holds one event of another gateway start. *)
Definition stored_one : list ChainedAuditEvent :=
  (chain_batch sample_sha sample_json [sample_event None "x"] 1 AUDIT_GENESIS).1.
Definition one_head : AuditHead := default genesis (stored_head sample_sha stored_one).
Definition a_event : AuditEvent := sample_event (Some (of_string "x")) "a".
Definition stored_two : list ChainedAuditEvent :=
  stored_one ++ (chain_batch sample_sha sample_json [a_event] 2 (head_hash one_head)).1.
Definition two_head : AuditHead := default genesis (stored_head sample_sha stored_two).
Definition ship_bodies : Bodies := {|
  heartbeat_body := mute; platform_heartbeat_body := mute; ship_body := mute; platform_ship_body := mute;
  shipped_body := {| to_vec := λ _, []; from_slice := λ _, Some (mkShipAuditResponse 2) |};
  head_body := {| to_vec := λ _, []; from_slice := λ b, Some (if decide (b = []) then one_head else two_head) |};
  labels_body := mute; platform_mint_body := mute; minted_body := mute; refusal_body := mute |}.
Definition answers (status : Z) (body : str) : Http := λ _, Ok (mkResponse status (as_bytes body)).
Definition away : Http := λ _, Err [of_string "connection refused"].
Definition quiet (post head : Http) : ShipTurn := mkShipTurn [] [] [] [] post head.

Abbreviation sample_task task f :=
  (f ship_bodies sample_sha sample_json sample_reason sample_text sample_base gateway_one task).

(** A post refused for another reason whose text happens to contain 409. *)
Definition behind : Shipper :=
  mkShipper Filling 1 AUDIT_GENESIS [a_event] [] [a_event] [a_event] [] None.

(** The conflict is read off the error's text: a failure of another kind whose
    body contains 409 is taken for one, and the next post follows at once. *)
Lemma conflict_by_text :
  let turn := quiet (answers 503 (of_string "upstream 10.4.0.9:4090 refused")) (answers 200 []) in
  sample_task OrgTask (@ship_turn) turn behind BACKOFF_MIN = (rebase one_head behind, BACKOFF_MIN, None) ∧
  let turn := quiet (answers 503 (of_string "upstream refused")) (answers 200 []) in
  sample_task OrgTask (@ship_turn) turn behind BACKOFF_MIN = (behind, PolicyUnits.from_secs 2, Some BACKOFF_MIN).
Proof. by vm_compute. Qed.

Lemma behind_inv t : ship_inv sample_sha sample_json (task_admits t) (behind, stored_one).
Proof.
  unfold ship_inv. cbn [queued acked pending queue local phase next_seq prev_hash behind]. split_and!.
  - by destruct t.
  - reflexivity.
  - cbn [length]. unfold MAX_PENDING. lia.
  - cbn [length]. unfold AUDIT_BUFFER. lia.
  - done.
  - exists one_head. by vm_compute.
  - exists [], stored_one. split; [reflexivity|by vm_compute].
  - apply sublist_nil_l.
Qed.

Definition turn_409 : ShipTurn := quiet (answers 409 []) (answers 200 []).
Definition turn_200 : ShipTurn := quiet (answers 200 []) (answers 200 (of_string "2")).
Definition caught_up : Shipper := rebase one_head behind.

Lemma turn_409_served : sample_task PlatformTask (@serves_turn) turn_409 behind stored_one stored_one.
Proof.
  unfold serves_turn. replace (fill_batch PlatformTask turn_409 behind) with (behind, true) by (by vm_compute).
  replace (continues _ _ _) with false by (by vm_compute). split_and!; [| |done].
  - intros r. by exists (mkResponse 409 []), (mkShipAuditResponse 0).
  - intros r. exists (mkResponse 200 []). split_and!; [done|done|by vm_compute].
Qed.
Lemma turn_200_served : sample_task PlatformTask (@serves_turn) turn_200 caught_up stored_one stored_two.
Proof.
  unfold serves_turn. replace (fill_batch PlatformTask turn_200 caught_up) with (caught_up, true) by (by vm_compute).
  replace (continues _ _ _) with true by (by vm_compute). split_and!; [| |by vm_compute].
  - intros r. by exists (mkResponse 200 []), (mkShipAuditResponse 2).
  - intros r. exists (mkResponse 200 (as_bytes (of_string "2"))). split_and!; [done|done|by vm_compute].
Qed.

Lemma audit_tasks_recover_witness :
  let s1 := (sample_task PlatformTask (@ship_turn) turn_409 behind BACKOFF_MIN).1.1 in
  s1 = caught_up ∧
  [a_event] `prefix_of` acked (sample_task PlatformTask (@ship_turn) turn_200 s1 BACKOFF_MIN).1.1.
Proof.
  intros s1. assert (s1 = caught_up) as Hs1 by (vm_compute; reflexivity). split; [exact Hs1|].
  apply (sample_task PlatformTask (@audit_tasks_recover) turn_409 turn_200 behind BACKOFF_MIN BACKOFF_MIN stored_one
    stored_one stored_two (behind_inv PlatformTask)); [reflexivity|discriminate|exact turn_409_served|].
  fold s1. rewrite Hs1. exact turn_200_served.
Defined.

(** From nothing stored: a turn in which two events arrive, one of which names no
    organisation, and one that is answered. *)
Definition first_turn : ShipTurn := mkShipTurn [sample_event None "b"] [a_event] [] [] away away.
Definition second_turn : ShipTurn := mkShipTurn [a_event] [] [] [] (answers 200 []) away.
Definition shipped_first : list ChainedAuditEvent := (chain_batch sample_sha sample_json [a_event] 1 AUDIT_GENESIS).1.
Definition sample_boot : Shipper :=
  @start_task ship_bodies sample_reason sample_text sample_base gateway_one PlatformTask away None.
Definition after_first : Shipper * Duration * option Duration :=
  sample_task PlatformTask (@ship_turn) first_turn (sample_boot) BACKOFF_MIN.
Definition after_second : Shipper * Duration * option Duration :=
  sample_task PlatformTask (@ship_turn) second_turn after_first.1.1 after_first.1.2.

Lemma two_turns_run :
  sample_task PlatformTask (@task_runs) (sample_boot, BACKOFF_MIN, [])
    (after_second.1.1, after_second.1.2, shipped_first).
Proof.
  assert (sample_task PlatformTask (@honest_turn) first_turn (sample_boot) [] []) as H1
    by (by vm_compute).
  assert (sample_task PlatformTask (@honest_turn) second_turn after_first.1.1 [] shipped_first) as H2.
  { unfold honest_turn.
    replace (fill_batch PlatformTask second_turn after_first.1.1)
      with ((fill_batch PlatformTask second_turn after_first.1.1).1, true) by (by vm_compute).
    split; [right; split; [by vm_compute|eexists; by vm_compute]|]. by intros r resp head Hr. }
  eapply runs_turn; [exact H1|]. unfold after_second. fold after_first. destruct after_first as [[s b] z].
  eapply runs_turn; [exact H2|]. cbn [fst snd]. by destruct (ship_turn _ _ _ _ _ _ _ _ _ _) as [[s' b'] z'];
    apply runs_nil.
Qed.

Lemma audit_tasks_refine_witness :
  acked after_second.1.1 = [a_event] ∧
  rtc (ship_step sample_sha sample_json (task_admits PlatformTask))
    (sample_boot, []) (after_second.1.1, shipped_first).
Proof.
  split; [vm_compute; reflexivity|].
  apply (sample_task PlatformTask (@audit_tasks_refine) (sample_boot)
    after_second.1.1 BACKOFF_MIN after_second.1.2 [] shipped_first); [|reflexivity|exact two_turns_run].
  apply (start_inv _ _ _ [] [] [] genesis None); [reflexivity|reflexivity|by exists genesis].
Defined.

Lemma audit_tasks_complete_witness :
  acked after_second.1.1 = [a_event] ∧ is_Some (stored_head sample_sha shipped_first) ∧
  sublist (map sample_json (acked after_second.1.1)) (map event_json shipped_first).
Proof.
  split; [vm_compute; reflexivity|].
  destruct (sample_task PlatformTask (@audit_tasks_complete) away None [] [] shipped_first after_second.1.1
    after_second.1.2 ltac:(vm_compute; reflexivity) ltac:(by exists genesis) two_turns_run) as (_ & _ & Hs & Hc & _).
  split; [exact Hc|exact Hs].
Defined.
