(* ===== verification/Reporting.v ===== *)
(** * What a gateway reports of itself

    Model of the metrics of [crates/skimasque/src/metrics.rs], of the guards of
    [server.rs] that keep the gauges, and of the heartbeat loops
    [run_control_plane_heartbeat] ([bin/skimasque-server.rs]) and
    [run_platform_heartbeat] ([platform.rs]).

    The [metrics] facade is outside the repository: a call is modelled as the
    operations it hands to it, in order, beside the three process-wide totals the
    gateway keeps itself. *)

From S2P Require Import Prelude RustStr RustNet PolicyDest PolicyUnits PolicyModel PolicyEval PolicyParse.
From S2P Require Import Identity Credential Tenant Platform Service Revocation StateDir ControlSync Minting.
From S2P Require Import AuditLog AuditChain ControlCalls.

(** ** Metrics *)

Inductive Op : Type :=
  | Counter (name : str) (labels : list (str * str)) (n : Z)
  | GaugeAdd (name : str) (n : Z)
  | GaugeSet (name : str) (n : Z).

(** The statics and what the recorder was handed. *)
Record Metrics : Type := mkMetrics { statics : UsageSnapshot; ops : list Op }.
Definition no_metrics : Metrics := mkMetrics default_meter [].
Definition emit (l : list Op) (m : Metrics) : Metrics := mkMetrics (statics m) (ops m ++ l).

Definition TUNNELS_OPENED : str := "skimasque_tunnels_opened_total".
Definition TUNNELS_ACTIVE : str := "skimasque_tunnels_active".
Definition CONNECTIONS_ACTIVE : str := "skimasque_connections_active".
Definition BYTES_RELAYED : str := "skimasque_bytes_relayed_total".

(** [describe], of which the help texts are presentation. *)
Definition describe (m : Metrics) : Metrics :=
  emit [Counter "skimasque_connections_accepted_total" [] 0; GaugeSet CONNECTIONS_ACTIVE 0; GaugeSet TUNNELS_ACTIVE 0] m.

Definition connection_accepted : Metrics → Metrics := emit [Counter "skimasque_connections_accepted_total" [] 1].
Definition connection_refused (reason : str) : Metrics → Metrics :=
  emit [Counter "skimasque_connections_refused_total" [(of_string "reason", reason)] 1].
Definition connection_started : Metrics → Metrics := emit [GaugeAdd CONNECTIONS_ACTIVE 1].
Definition connection_ended : Metrics → Metrics := emit [GaugeAdd CONNECTIONS_ACTIVE (-1)].
Definition metric_tunnel_opened (protocol : str) (m : Metrics) : Metrics :=
  let m := emit [Counter TUNNELS_OPENED [(of_string "protocol", protocol)] 1; GaugeAdd TUNNELS_ACTIVE 1] m in
  mkMetrics (tunnel_opened (statics m)) (ops m).
Definition tunnel_closed : Metrics → Metrics := emit [GaugeAdd TUNNELS_ACTIVE (-1)].
Definition tunnel_rejected (reason : str) : Metrics → Metrics :=
  emit [Counter "skimasque_tunnels_rejected_total" [(of_string "reason", reason)] 1].
Definition bytes_relayed (direction : str) (bytes : Z) (m : Metrics) : Metrics :=
  let m := emit [Counter BYTES_RELAYED [(of_string "direction", direction)] bytes] m in
  mkMetrics (if str_eqb direction "to_target" then add_to_target bytes (statics m) else add_to_client bytes (statics m))
    (ops m).
Definition reload (kind outcome : str) : Metrics → Metrics :=
  emit [Counter "skimasque_reloads_total" [(of_string "kind", kind); (of_string "outcome", outcome)] 1].
Definition acme_event (kind : str) : Metrics → Metrics :=
  emit [Counter "skimasque_acme_events_total" [(of_string "kind", kind)] 1].
Definition rate_limit_throttled (limit : str) (parked : Duration) : Metrics → Metrics :=
  emit [Counter "skimasque_rate_limit_throttled_total" [(of_string "limit", limit)] 1;
        Counter "skimasque_rate_limit_throttled_millis_total" [(of_string "limit", limit)] (Z.min (as_millis parked) u64_max)].
Definition transfer_cap_reached : Metrics → Metrics := emit [Counter "skimasque_transfer_cap_reached_total" [] 1].
Definition exchange_throttled : Metrics → Metrics := emit [Counter "skimasque_exchange_throttled_total" [] 1].

(** [usage_snapshot]. *)
Definition process_usage (m : Metrics) : UsageSnapshot :=
  mkUsage (tunnels_opened (statics m)) (bytes_to_target (statics m)) (bytes_to_client (statics m)).

(** Every call the gateway makes. *)
Inductive MetricCall : Type :=
  | ConnAccepted
  | ConnRefused (reason : str)
  | ConnStarted
  | ConnEnded
  | TunOpened (protocol : str)
  | TunClosed
  | TunRejected (reason : str)
  | BytesRelayed (direction : str) (bytes : Z)
  | Reloaded (kind outcome : str)
  | AcmeEvent (kind : str)
  | Throttled (limit : str) (parked : Duration)
  | CapReached
  | ExchangeThrottled.
Definition metric_call (m : Metrics) (c : MetricCall) : Metrics :=
  match c with
  | ConnAccepted => connection_accepted m
  | ConnRefused r => connection_refused r m
  | ConnStarted => connection_started m
  | ConnEnded => connection_ended m
  | TunOpened p => metric_tunnel_opened p m
  | TunClosed => tunnel_closed m
  | TunRejected r => tunnel_rejected r m
  | BytesRelayed d n => bytes_relayed d n m
  | Reloaded k o => reload k o m
  | AcmeEvent k => acme_event k m
  | Throttled l p => rate_limit_throttled l p m
  | CapReached => transfer_cap_reached m
  | ExchangeThrottled => exchange_throttled m
  end.
Definition metrics_after (calls : list MetricCall) : Metrics := fold_left metric_call calls (describe no_metrics).

(** ** Exported and reported totals *)

(** What a series holds after the operations: the sum of its increments over the
    label sets [keep] selects. *)
Definition op_count (name : str) (keep : list (str * str) → bool) (o : Op) : Z :=
  match o with Counter n l k => if str_eqb n name && keep l then k else 0 | _ => 0 end.
Definition series (name : str) (keep : list (str * str) → bool) (l : list Op) : Z :=
  fold_right Z.add 0 (map (op_count name keep) l).
Definition to_target (l : list (str * str)) : bool := bool_decide (l = [(of_string "direction", of_string "to_target")]).

Lemma series_app name keep l l' : series name keep (l ++ l') = series name keep l + series name keep l'.
Proof. unfold series. rewrite map_app. induction (map _ l) as [|x xs IH]; cbn [app fold_right]; lia. Qed.

Definition exported (l : list Op) : UsageSnapshot :=
  mkUsage (wrap 64 (series TUNNELS_OPENED (λ _, true) l)) (wrap 64 (series BYTES_RELAYED to_target l))
    (wrap 64 (series BYTES_RELAYED (λ x, negb (to_target x)) l)).

(** Operations on other series change nothing. *)
Lemma exported_other l l' :
  series TUNNELS_OPENED (λ _, true) l' = 0 → series BYTES_RELAYED to_target l' = 0 →
  series BYTES_RELAYED (λ x, negb (to_target x)) l' = 0 → exported (l ++ l') = exported l.
Proof. intros H1 H2 H3. unfold exported. rewrite !series_app, H1, H2, H3. by rewrite !Z.add_0_r. Qed.

Lemma exported_call m c : statics m = exported (ops m) → statics (metric_call m c) = exported (ops (metric_call m c)).
Proof.
  intros Hm. destruct c; cbn [metric_call];
    try (unfold connection_accepted, connection_refused, connection_started, connection_ended, tunnel_closed,
           tunnel_rejected, reload, acme_event, rate_limit_throttled, transfer_cap_reached, exchange_throttled, emit;
         cbn [statics ops]; rewrite exported_other by done; exact Hm).
  - unfold metric_tunnel_opened, emit. cbn [statics ops]. rewrite Hm. unfold exported, tunnel_opened, wrap.
    cbn [tunnels_opened bytes_to_target bytes_to_client]. rewrite !series_app, Zplus_mod_idemp_l.
    set (l := [_; _]).
    assert (series TUNNELS_OPENED (λ _, true) l = 1 ∧ series BYTES_RELAYED to_target l = 0 ∧
      series BYTES_RELAYED (λ x, negb (to_target x)) l = 0) as (-> & -> & ->) by (by vm_compute). by rewrite !Z.add_0_r.
  - unfold bytes_relayed, emit. cbn [statics ops]. rewrite Hm.
    assert (to_target [(of_string "direction", direction)] = str_eqb direction "to_target") as Ht.
    { unfold to_target, str_eqb. apply bool_decide_ext. split; [by intros [= ->]|by intros ->]. }
    assert (∀ keep, series BYTES_RELAYED keep [Counter BYTES_RELAYED [(of_string "direction", direction)] bytes] =
      if keep [(of_string "direction", direction)] then bytes else 0) as Hs.
    { intros keep. unfold series, op_count. cbn [map fold_right]. rewrite str_eqb_refl. cbn [andb]. apply Z.add_0_r. }
    unfold exported. rewrite !series_app, !Hs, Ht.
    replace (series TUNNELS_OPENED (λ _, true) [Counter BYTES_RELAYED [(of_string "direction", direction)] bytes]) with 0
      by (by vm_compute).
    destruct (str_eqb direction "to_target"); unfold add_to_target, add_to_client, wrap;
      cbn [negb tunnels_opened bytes_to_target bytes_to_client]; by rewrite Zplus_mod_idemp_l, !Z.add_0_r.
Qed.

(** The usage a heartbeat reports and the series a monitoring system scrapes tell
    the same story: after any calls, in any order, the tunnels opened are the sum
    of their counter over every protocol, the bytes to targets its
    [direction="to_target"] series, and the bytes to clients all the rest, each
    modulo 2^64. *)
Lemma usage_as_exported calls : process_usage (metrics_after calls) = exported (ops (metrics_after calls)).
Proof.
  unfold process_usage. transitivity (statics (metrics_after calls)); [by destruct (statics _)|].
  unfold metrics_after. assert (statics (describe no_metrics) = exported (ops (describe no_metrics))) as H by done.
  revert H. generalize (describe no_metrics) as m. induction calls as [|c calls IH]; intros m Hm; [done|].
  cbn [fold_left]. apply IH. by apply exported_call.
Qed.

(** ** Heartbeats *)

(** What a tick logs when the freshness changed: at [info], [warn] and [error]. *)
Inductive Level : Type := LInfo | LWarn | LError.
Definition freshness_level (f : Freshness) : Level :=
  match f with Fresh => LInfo | Stale => LWarn | Expired => LError end.

(** One tick: the clock, the state of the synchronisation, and the network. *)
Record Tick : Type := mkTick { tick_now : Z; tick_state : SyncState; tick_net : Http }.

(** What a tick leaves behind: the gauges, the line logged with the age in
    seconds, the body posted, and whether it was delivered. *)
Record Beat (R : Type) : Type := mkBeat {
  age_gauge : Duration;
  expired_gauge : bool;
  logged : option (Level * Z);
  posted : R;
  delivered : bool;
}.
Arguments mkBeat {R}.
Arguments age_gauge {R}.
Arguments expired_gauge {R}.
Arguments logged {R}.
Arguments posted {R}.
Arguments delivered {R}.

(** The part both loops share, up to the request. *)
Definition tick_gauges (tk : Tick) (last : Freshness) : Duration * bool * option (Level * Z) * Freshness * bool :=
  let age := policy_age (tick_now tk) (tick_state tk) in
  let f := freshness (tick_now tk) (tick_state tk) in
  (age, bool_decide (f = Expired),
   if decide (f = last) then None else Some (freshness_level f, as_secs age), f,
   ss_healthy (tick_state tk) && bool_decide (f = Fresh)).

Section beats.
Context `{Bodies}.
Context (reason : Z → str) (text : data → str).
Context (base_url : str) (identity : GatewayIdentity).

(** A turn of [run_control_plane_heartbeat]; [usage] are the totals read at it. *)
Definition heartbeat_tick (tk : Tick) (usage : UsageSnapshot) (last : Freshness) : Beat HeartbeatRequest * Freshness :=
  let '(age, expired, line, f, healthy) := tick_gauges tk last in
  let version := version (tick_state tk) in
  let outcome := heartbeat reason text base_url (tick_net tk) identity healthy version (Some usage) in
  (mkBeat age expired line (mkHeartbeat (heartbeat_status healthy) version (Some usage)) (is_ok outcome), f).

(** A turn of [run_platform_heartbeat]; [tenants] is the version of the tenant list
    in force. *)
Definition platform_heartbeat_tick (tk : Tick) (tenants : option Z) (usage : TenantUsage) (last : Freshness)
    : Beat PlatformHeartbeat * Freshness :=
  let '(age, expired, line, f, healthy) := tick_gauges tk last in
  let req := platform_heartbeat_request healthy tenants usage in
  (mkBeat age expired line req (is_ok (platform_heartbeat reason text base_url (tick_net tk) identity req)), f).

(** The gateway's life as the heartbeat sees it: traffic, and ticks. *)
Inductive Moment : Type := Traffic (c : MetricCall) | Beats (tk : Tick).
Fixpoint run_control_plane_heartbeat (life : list Moment) (m : Metrics) (last : Freshness) : list (Beat HeartbeatRequest) :=
  match life with
  | [] => []
  | Traffic c :: life => run_control_plane_heartbeat life (metric_call m c) last
  | Beats tk :: life =>
      let '(beat, last) := heartbeat_tick tk (process_usage m) last in
      beat :: run_control_plane_heartbeat life m last
  end.

Fixpoint run_platform_heartbeat (ticks : list (Tick * option Z * TenantUsage)) (last : Freshness) : list (Beat PlatformHeartbeat) :=
  match ticks with
  | [] => []
  | (tk, tenants, usage) :: ticks =>
      let '(beat, last) := platform_heartbeat_tick tk tenants usage last in
      beat :: run_platform_heartbeat ticks last
  end.

(** ** What the control plane hears *)

Definition traffic (life : list Moment) : list MetricCall :=
  omap (λ x, match x with Traffic c => Some c | Beats _ => None end) life.
Definition ticks_of (life : list Moment) : list Tick :=
  omap (λ x, match x with Beats tk => Some tk | Traffic _ => None end) life.
Definition fresh_at (tk : Tick) : Freshness := freshness (tick_now tk) (tick_state tk).

(** The changes in a sequence of states, after [last]. *)
Fixpoint changes (last : Freshness) (l : list Freshness) : list Freshness :=
  match l with
  | [] => []
  | f :: l => if decide (f = last) then changes last l else f :: changes f l
  end.

Lemma heartbeat_app life tk life' m last :
  ∃ f, run_control_plane_heartbeat (life ++ Beats tk :: life') m last =
    run_control_plane_heartbeat life m last ++
    (heartbeat_tick tk (process_usage (fold_left metric_call (traffic life) m)) f).1 ::
    run_control_plane_heartbeat life' (fold_left metric_call (traffic life) m) (fresh_at tk).
Proof.
  revert m last. induction life as [|[c|tk'] life IH]; intros m last; cbn [app run_control_plane_heartbeat].
  - exists last. done.
  - apply (IH (metric_call m c) last).
  - destruct (heartbeat_tick tk' (process_usage m) last) as [beat last'] eqn:Ht.
    destruct (IH m last') as [f ->]. by exists f.
Qed.

Lemma heartbeat_length life m last :
  length (run_control_plane_heartbeat life m last) = length (ticks_of life).
Proof.
  revert m last. induction life as [|[c|tk] life IH]; intros m last; [done|apply IH|].
  cbn [run_control_plane_heartbeat]. destruct (heartbeat_tick _ _ _). cbn. by rewrite IH.
Qed.

Lemma heartbeat_logs life m last :
  omap (λ beat, fst <$> logged beat) (run_control_plane_heartbeat life m last) =
  map freshness_level (changes last (map fresh_at (ticks_of life))).
Proof.
  revert m last. induction life as [|[c|tk] life IH]; intros m last; [done|apply IH|].
  cbn [run_control_plane_heartbeat]. unfold heartbeat_tick, tick_gauges. cbn [omap list_omap logged].
  change (ticks_of (Beats tk :: life)) with (tk :: ticks_of life). cbn [map changes]. fold (fresh_at tk).
  destruct (decide (fresh_at tk = last)) as [->|Hne]; cbn [fmap option_fmap option_map map fst]; by rewrite IH.
Qed.

(** No heartbeat depends on the ones before it: whatever was answered or lost, one
    is sent at every tick, and it carries the state of the policy at its own time
    and everything the process has relayed since it started; and a line is logged
    exactly when the freshness changes. *)
Theorem heartbeats_cumulative (life life' : list Moment) (tk : Tick) :
  let whole := life ++ Beats tk :: life' in
  let beats := run_control_plane_heartbeat whole (describe no_metrics) Fresh in
  length beats = length (ticks_of whole) ∧
  (∃ beat, beats !! length (ticks_of life) = Some beat ∧
     posted beat = mkHeartbeat (heartbeat_status (heartbeat_healthy (tick_now tk) (tick_state tk)))
       (version (tick_state tk)) (Some (exported (ops (metrics_after (traffic life)))))) ∧
  omap (λ beat, fst <$> logged beat) beats = map freshness_level (changes Fresh (map fresh_at (ticks_of whole))).
Proof.
  intros whole beats. split_and!; [apply heartbeat_length| |apply heartbeat_logs].
  destruct (heartbeat_app life tk life' (describe no_metrics) Fresh) as [f Hb]. unfold beats, whole. rewrite Hb.
  eexists. split.
  - rewrite lookup_app_r by (by rewrite heartbeat_length). by rewrite heartbeat_length, Nat.sub_diag.
  - by rewrite <- usage_as_exported.
Qed.
End beats.

(** ** Totals do not fall *)

Definition counted (c : MetricCall) : Prop := match c with BytesRelayed _ n | Throttled _ n => 0 ≤ n | _ => True end.
Definition usage_le (u u' : UsageSnapshot) : Prop :=
  tunnels_opened u ≤ tunnels_opened u' ∧ bytes_to_target u ≤ bytes_to_target u' ∧ bytes_to_client u ≤ bytes_to_client u'.
Definition countable_to_u64 (l : list Op) : Prop :=
  series TUNNELS_OPENED (λ _, true) l < 2 ^ 64 ∧ series BYTES_RELAYED (λ _, true) l < 2 ^ 64.

Definition increments (o : Op) : Prop := match o with Counter _ _ n => 0 ≤ n | _ => True end.
Lemma series_pos name keep l : Forall increments l → 0 ≤ series name keep l.
Proof.
  unfold series. induction 1 as [|o l Ho _ IH]; [done|]. cbn [map fold_right]. unfold op_count at 1. destruct o; try lia.
  cbn in Ho. destruct (_ && _); lia.
Qed.
Lemma series_split keep l :
  series BYTES_RELAYED (λ _, true) l = series BYTES_RELAYED keep l + series BYTES_RELAYED (λ x, negb (keep x)) l.
Proof.
  unfold series. induction l as [|o l IH]; [done|]. cbn [map fold_right]. rewrite IH. unfold op_count. destruct o; try lia.
  destruct (str_eqb _ _), (keep _); cbn; lia.
Qed.

Lemma metric_call_appends c m : ∃ l, ops (metric_call m c) = ops m ++ l ∧ (counted c → Forall increments l).
Proof.
  destruct c; cbn [metric_call]; eexists; (split; [reflexivity|]); cbn [counted]; intros Hc;
    repeat (apply Forall_cons; split); try apply Forall_nil; cbn [increments]; try lia; try done.
  unfold as_millis, u64_max. apply Z.min_glb; [by apply Z.div_pos|lia].
Qed.
Lemma metric_calls_append calls m :
  Forall counted calls → ∃ l, ops (fold_left metric_call calls m) = ops m ++ l ∧ Forall increments l.
Proof.
  intros Hc. revert m. induction Hc as [|c calls Hc _ IH]; intros m; [exists []; by rewrite app_nil_r|].
  destruct (metric_call_appends c m) as (l & Hl & Hf), (IH (metric_call m c)) as (l' & Hl' & Hf').
  exists (l ++ l'). cbn [fold_left]. rewrite Hl', Hl, app_assoc. split; [done|]. apply Forall_app. auto.
Qed.

(** While fewer than 2^64 tunnels and bytes were counted, a later report is never
    below an earlier one of the same process, and is exact: a report that fell
    tells of a restart. *)
Theorem usage_never_falls (calls more : list MetricCall) :
  Forall counted (calls ++ more) → countable_to_u64 (ops (metrics_after (calls ++ more))) →
  usage_le (process_usage (metrics_after calls)) (process_usage (metrics_after (calls ++ more))) ∧
  tunnels_opened (process_usage (metrics_after calls)) = series TUNNELS_OPENED (λ _, true) (ops (metrics_after calls)) ∧
  bytes_to_target (process_usage (metrics_after calls)) + bytes_to_client (process_usage (metrics_after calls)) =
    series BYTES_RELAYED (λ _, true) (ops (metrics_after calls)).
Proof.
  intros [Hc Hm]%Forall_app [Ht Hb].
  destruct (metric_calls_append calls (describe no_metrics) Hc) as (l & Hl & Hf).
  destruct (metric_calls_append more (metrics_after calls) Hm) as (l' & Hl' & Hf').
  assert (ops (metrics_after (calls ++ more)) = ops (metrics_after calls) ++ l') as Ho.
  { unfold metrics_after in *. by rewrite fold_left_app. }
  assert (Forall increments (ops (metrics_after calls))) as Hp.
  { unfold metrics_after. rewrite Hl. apply Forall_app. split; [|done]. repeat (apply Forall_cons; split); try apply Forall_nil; cbn; lia. }
  rewrite !usage_as_exported, Ho. rewrite Ho, series_app in Ht, Hb.
  unfold usage_le, exported, wrap. cbn [tunnels_opened bytes_to_target bytes_to_client]. rewrite !series_app.
  rewrite !(series_split to_target) in *.
  pose proof (λ n k, series_pos n k _ Hp) as Hp0. pose proof (λ n k, series_pos n k _ Hf') as Hp1.
  pose proof (Hp0 TUNNELS_OPENED (λ _, true)). pose proof (Hp1 TUNNELS_OPENED (λ _, true)).
  pose proof (Hp0 BYTES_RELAYED to_target). pose proof (Hp1 BYTES_RELAYED to_target).
  pose proof (Hp0 BYTES_RELAYED (λ x, negb (to_target x))). pose proof (Hp1 BYTES_RELAYED (λ x, negb (to_target x))).
  rewrite !Z.mod_small by lia. lia.
Qed.

(** ** How long an outage may last before it shows *)

(** [last_contact_secs] counts whole seconds, so the age is right to a second. *)
Lemma contact_age t0 now s :
  ss_origin s ≤ t0 ≤ now → let age := policy_age now (mark_contact t0 s) in
  now - t0 - 10 ^ 9 < age < now - t0 + 10 ^ 9.
Proof.
  intros Ht. unfold policy_age, mark_contact, elapsed_secs, PolicyUnits.from_secs, as_secs. cbn [ss_origin last_contact_secs].
  change (10 ^ 9) with 1000000000. Z.to_euclidean_division_equations. lia.
Qed.

(** An outage shows after the lease and not before, to a second: a gateway that
    last heard from the control plane at [t0] reports itself online as long as the
    lease (and the lifetime of the cache) has a second left, and degraded from a
    second after one of them ran out; one whose last poll failed reports itself
    degraded at once. *)
Theorem outage_reported (t0 now : Z) (s : SyncState) :
  ss_origin s ≤ t0 ≤ now →
  let s' := mark_contact t0 s in
  let limit := Z.min (policy_lease s) (cache_ttl s) in
  (now - t0 + 10 ^ 9 ≤ limit → heartbeat_status (heartbeat_healthy now s') = of_string "online") ∧
  (limit + 10 ^ 9 ≤ now - t0 → heartbeat_status (heartbeat_healthy now s') = of_string "degraded") ∧
  heartbeat_status (heartbeat_healthy now (mark_unreachable s')) = of_string "degraded".
Proof.
  intros Ht s' limit. pose proof (contact_age t0 now s Ht) as Hage. fold s' in Hage. cbv zeta in Hage.
  unfold heartbeat_healthy, freshness. split_and!.
  - intros Hl. change (ss_healthy s') with true. change (cache_ttl s') with (cache_ttl s). change (policy_lease s') with (policy_lease s).
    destruct (Z.leb_spec (cache_ttl s) (policy_age now s')); [lia|].
    destruct (Z.leb_spec (policy_lease s) (policy_age now s')); [lia|]. done.
  - intros Hl. change (cache_ttl s') with (cache_ttl s). change (policy_lease s') with (policy_lease s).
    change (ss_healthy s') with true.
    destruct (Z.leb_spec (cache_ttl s) (policy_age now s')); [done|].
    destruct (Z.leb_spec (policy_lease s) (policy_age now s')); [done|]. lia.
  - done.
Qed.

Lemma outage_reported_witness :
  let s := new_sync_state 0 0 None None sample_lease sample_ttl in
  heartbeat_status (heartbeat_healthy (905 * 10 ^ 9) (mark_contact (4 * 10 ^ 9) s)) = of_string "degraded".
Proof.
  intros s. destruct (outage_reported (4 * 10 ^ 9) (905 * 10 ^ 9) s ltac:(split; vm_compute; discriminate)) as (_ & H & _).
  apply H. vm_compute. discriminate.
Defined.

Lemma usage_never_falls_witness :
  let calls := [TunOpened "connect-tcp"; BytesRelayed "to_target" 100] in
  let more := [BytesRelayed "to_client" 7; TunClosed] in
  usage_le (process_usage (metrics_after calls)) (process_usage (metrics_after (calls ++ more))) ∧
  process_usage (metrics_after (calls ++ more)) = mkUsage 1 100 7.
Proof.
  intros calls more. split; [|vm_compute; reflexivity].
  apply (usage_never_falls calls more); [repeat constructor; cbn; lia|split; vm_compute; reflexivity].
Defined.

(** The shared gateway's loop likewise reports each organisation's totals as they
    stand at each tick, whatever became of the ticks before. *)
Lemma platform_beats_cumulative `{Bodies} (reason : Z → str) (text : data → str) (base_url : str)
    (identity : GatewayIdentity) (ticks : list (Tick * option Z * TenantUsage)) (last : Freshness) :
  map posted (run_platform_heartbeat reason text base_url identity ticks last) =
  map (λ '(tk, tenants, usage),
    platform_heartbeat_request (heartbeat_healthy (tick_now tk) (tick_state tk)) tenants usage) ticks.
Proof.
  revert last. induction ticks as [|[[tk tenants] usage] ticks IH]; intros last; [done|].
  cbn [run_platform_heartbeat]. unfold platform_heartbeat_tick, tick_gauges. cbn [map posted]. by rewrite IH.
Qed.
