(* ===== verification/Shutdown.v ===== *)
(** * The proxy from start to stop

    Model of [Server::run_until] and the loop of [serve_connection]
    ([crates/skimasque/src/server.rs]) around the admission of connections
    ([Rates]): accepting, draining within the grace period, closing.  What happens
    next in a running proxy (a connection arrives, a request, a tunnel's end, the
    signal, the deadline) is an event; [proxy_event] is what the loops do with it,
    and nothing when the loop the event belongs to has already ended.

    The gauges the guards [ActiveConnection] and [ActiveTunnel] keep are part of
    the state, through [Reporting]. *)

From S2P Require Import Prelude RustStr RustNet PolicyUnits Rates Tenant Reporting.

(** ** Tasks *)

(** A task of a connection's set: reading its request or waiting for the service,
    refusing it as one too many, or relaying. *)
Inductive TunnelTask : Type := Deciding | RefusingOne | Refusal | Relaying.

(** A connection's task; [polled] once it ran and holds its [ActiveConnection]. *)
Record ConnTask : Type := mkConnTask {
  polled : bool;
  conn_draining : bool;
  conn_tunnels : list TunnelTask;
}.
Definition spawned : ConnTask := mkConnTask false false [].

Inductive Stage : Type := Listening | Draining | Closing | Stopped.

(** [began], [finished] and [cut] are history: tunnel tasks that were spawned, that
    ended by themselves, and that were dropped, by their connection's end or by the
    proxy closing. *)
Record Proxy : Type := mkProxy {
  stage : Stage;
  drain : bool;
  tasks : list ConnTask;
  admission : Accepting;
  metrics : Metrics;
  began : nat;
  finished : nat;
  cut_by_peer : nat;
  cut_by_close : nat;
}.

Definition start_proxy (l : ResourceLimits) (now : Z) : Proxy :=
  mkProxy Listening false [] (start_accepting l now) (describe no_metrics) 0 0 0 0.

Definition set_tasks (ts : list ConnTask) (p : Proxy) : Proxy :=
  mkProxy (stage p) (drain p) ts (admission p) (metrics p) (began p) (finished p) (cut_by_peer p) (cut_by_close p).
Definition set_stage (s : Stage) (d : bool) (p : Proxy) : Proxy :=
  mkProxy s d (tasks p) (admission p) (metrics p) (began p) (finished p) (cut_by_peer p) (cut_by_close p).
Definition metric (c : MetricCall) (p : Proxy) : Proxy :=
  mkProxy (stage p) (drain p) (tasks p) (admission p) (metric_call (metrics p) c) (began p) (finished p) (cut_by_peer p)
    (cut_by_close p).
Definition count (b f cp cc : nat) (p : Proxy) : Proxy :=
  mkProxy (stage p) (drain p) (tasks p) (admission p) (metrics p) (began p + b) (finished p + f) (cut_by_peer p + cp)
    (cut_by_close p + cc).

(** ** Guards *)

(** [Drop] of the guards a tunnel's or a connection's task holds. *)
Definition drop_tunnel (t : TunnelTask) (p : Proxy) : Proxy :=
  match t with Relaying => metric TunClosed p | _ => p end.
Definition drop_tunnels (ts : list TunnelTask) (p : Proxy) : Proxy := fold_left (λ p t, drop_tunnel t p) ts p.
Definition drop_conn (c : ConnTask) (p : Proxy) : Proxy :=
  let p := drop_tunnels (conn_tunnels c) p in if polled c then metric ConnEnded p else p.

(** ** Events *)

Inductive ProxyEvent : Type :=
  | Incoming (now : Z) (ip : IpAddr)
  | FirstPoll (i : nat)
  | NewRequest (i : nat)
  | TunnelOpens (i j : nat) (protocol : str)
  | TunnelRefused (i j : nat)
  | TunnelEnds (i j : nat)
  | DrainSeen (i : nat)
  | PeerGone (i : nat)
  | ConnDrained (i : nat)
  | ShutdownSignal
  | EndpointClosed
  | AllDrained
  | GraceOver
  | CloseAll.

Definition refusal_reason (a : Admission) : option str :=
  match a with
  | Accept => None
  | OverConnections => Some (of_string "connection_limit")
  | OverSourceRate => Some (of_string "per_source_rate")
  | OverRate => Some (of_string "rate_limit")
  end.

(** The connection task of [i], and the tunnel task [j] of it, replaced. *)
Definition with_conn (i : nat) (c : ConnTask) (p : Proxy) : Proxy := set_tasks (<[i := c]> (tasks p)) p.
Definition set_tunnels (ts : list TunnelTask) (c : ConnTask) : ConnTask := mkConnTask (polled c) (conn_draining c) ts.

Section proxy.
Context (limits : ResourceLimits).

(** The accept branch: the finished tasks are reaped, so the set holds the live
    ones. *)
Definition on_incoming (now : Z) (ip : IpAddr) (p : Proxy) : Proxy :=
  let a := mkAccepting (length (tasks p)) (sources (admission p)) (global (admission p)) in
  let '(verdict, a) := accept_connection limits now ip a in
  let p := mkProxy (stage p) (drain p) (tasks p) a (metrics p) (began p) (finished p) (cut_by_peer p) (cut_by_close p) in
  match refusal_reason verdict with
  | Some reason => metric (ConnRefused reason) p
  | None => set_tasks (tasks p ++ [spawned]) (metric ConnAccepted p)
  end.

(** A request: its task joins the connection's set, to be refused when it came over
    the limit. *)
Definition on_request (c : ConnTask) : ConnTask :=
  set_tunnels (conn_tunnels c ++
    [if over (max_tunnels_per_connection limits) (length (conn_tunnels c)) then RefusingOne else Deciding]) c.

(** A connection's task ends: [tunnels.shutdown()] drops what is left in its set. *)
Definition end_conn (i : nat) (c : ConnTask) (p : Proxy) : Proxy :=
  count 0 0 (length (conn_tunnels c)) 0 (drop_conn c (set_tasks (delete i (tasks p)) p)).

Definition proxy_event (e : ProxyEvent) (p : Proxy) : Proxy :=
  match e with
  | Incoming now ip => match stage p with Listening => on_incoming now ip p | _ => p end
  | FirstPoll i =>
      match tasks p !! i with
      | Some c => if polled c then p
                  else with_conn i (mkConnTask true (conn_draining c) (conn_tunnels c)) (metric ConnStarted p)
      | None => p
      end
  | NewRequest i =>
      match tasks p !! i with
      | Some c => if polled c then with_conn i (on_request c) (count 1 0 0 0 p) else p
      | None => p
      end
  | TunnelOpens i j protocol =>
      match tasks p !! i with
      | Some c =>
          match conn_tunnels c !! j with
          | Some Deciding => with_conn i (set_tunnels (<[j := Relaying]> (conn_tunnels c)) c) (metric (TunOpened protocol) p)
          | _ => p
          end
      | None => p
      end
  | TunnelRefused i j =>
      match tasks p !! i with
      | Some c =>
          match conn_tunnels c !! j with
          | Some RefusingOne =>
              with_conn i (set_tunnels (<[j := Refusal]> (conn_tunnels c)) c)
                (metric (TunRejected (of_string "per_connection_limit")) p)
          | _ => p
          end
      | None => p
      end
  | TunnelEnds i j =>
      match tasks p !! i with
      | Some c =>
          match conn_tunnels c !! j with
          | Some t => with_conn i (set_tunnels (delete j (conn_tunnels c)) c) (drop_tunnel t (count 0 1 0 0 p))
          | None => p
          end
      | None => p
      end
  | DrainSeen i =>
      match tasks p !! i with
      | Some c => if drain p && polled c then with_conn i (mkConnTask true true (conn_tunnels c)) p else p
      | None => p
      end
  | PeerGone i =>
      match tasks p !! i with Some c => if polled c then end_conn i c p else p | None => p end
  | ConnDrained i =>
      match tasks p !! i with
      | Some c => if conn_draining c && bool_decide (conn_tunnels c = []) then end_conn i c p else p
      | None => p
      end
  | ShutdownSignal | EndpointClosed => match stage p with Listening => set_stage Draining true p | _ => p end
  | AllDrained =>
      match stage p with Draining => if decide (tasks p = []) then set_stage Closing true p else p | _ => p end
  | GraceOver => match stage p with Draining => set_stage Closing true p | _ => p end
  | CloseAll =>
      match stage p with
      | Closing =>
          set_stage Stopped true (set_tasks [] (fold_left (λ p c, count 0 0 0 (length (conn_tunnels c)) (drop_conn c p)) (tasks p) p))
      | _ => p
      end
  end.
Definition run_proxy (es : list ProxyEvent) (p : Proxy) : Proxy := fold_left (λ p e, proxy_event e p) es p.
End proxy.

(** ** What the gauges show *)

Definition gauge_op (name : str) (v : Z) (o : Op) : Z :=
  match o with
  | GaugeAdd n d => if str_eqb n name then v + d else v
  | GaugeSet n x => if str_eqb n name then x else v
  | Counter _ _ _ => v
  end.
Definition gauge (name : str) (l : list Op) : Z := fold_left (gauge_op name) l 0.
Definition gauge_of (name : str) (p : Proxy) : Z := gauge name (ops (metrics p)).

Definition sumZ {A} (f : A → Z) (l : list A) : Z := fold_right Z.add 0 (map f l).
Definition is_polled (c : ConnTask) : Z := if polled c then 1 else 0.
Definition is_relaying (t : TunnelTask) : Z := match t with Relaying => 1 | _ => 0 end.
Definition relaying (c : ConnTask) : Z := sumZ is_relaying (conn_tunnels c).
Definition carried (c : ConnTask) : Z := Z.of_nat (length (conn_tunnels c)).

Lemma sumZ_app {A} (f : A → Z) l l' : sumZ f (l ++ l') = sumZ f l + sumZ f l'.
Proof. unfold sumZ. rewrite map_app. induction (map f l) as [|x xs IH]; cbn [app fold_right]; lia. Qed.
Lemma sumZ_insert {A} (f : A → Z) l i x y : l !! i = Some x → sumZ f (<[i := y]> l) = sumZ f l - f x + f y.
Proof.
  intros Hl. pose proof (lookup_lt_Some _ _ _ Hl) as Hlt. rewrite <- (take_drop_middle l i x Hl) at 2.
  rewrite insert_take_drop by done. rewrite !sumZ_app. unfold sumZ. cbn [map fold_right]. lia.
Qed.
Lemma sumZ_delete {A} (f : A → Z) l i x : l !! i = Some x → sumZ f (delete i l) = sumZ f l - f x.
Proof.
  intros Hl. rewrite delete_take_drop. rewrite <- (take_drop_middle l i x Hl) at 3. rewrite !sumZ_app. unfold sumZ.
  cbn [map fold_right]. lia.
Qed.

(** What one call adds to the two gauges. *)
Definition adds_connection (c : MetricCall) : Z := match c with ConnStarted => 1 | ConnEnded => -1 | _ => 0 end.
Definition adds_tunnel (c : MetricCall) : Z := match c with TunOpened _ => 1 | TunClosed => -1 | _ => 0 end.
Lemma gauge_names : str_eqb CONNECTIONS_ACTIVE TUNNELS_ACTIVE = false ∧ str_eqb TUNNELS_ACTIVE CONNECTIONS_ACTIVE = false.
Proof. by vm_compute. Qed.
Lemma metric_gauges c p :
  gauge_of CONNECTIONS_ACTIVE (metric c p) = gauge_of CONNECTIONS_ACTIVE p + adds_connection c ∧
  gauge_of TUNNELS_ACTIVE (metric c p) = gauge_of TUNNELS_ACTIVE p + adds_tunnel c.
Proof.
  destruct gauge_names as [Hn1 Hn2]. destruct p as [st d ts a m b f cp cc]. unfold gauge_of, metric. cbn [metrics].
  destruct c; unfold gauge; cbn [metric_call]; split;
    unfold connection_accepted, connection_refused, connection_started, connection_ended, tunnel_closed,
      tunnel_rejected, reload, acme_event, rate_limit_throttled, transfer_cap_reached, exchange_throttled,
      metric_tunnel_opened, bytes_relayed, emit; cbn [ops]; rewrite fold_left_app; cbn [fold_left gauge_op adds_connection adds_tunnel];
    rewrite ?str_eqb_refl, ?Hn1, ?Hn2; lia.
Qed.

Lemma drop_tunnel_spec t p :
  gauge_of CONNECTIONS_ACTIVE (drop_tunnel t p) = gauge_of CONNECTIONS_ACTIVE p ∧
  gauge_of TUNNELS_ACTIVE (drop_tunnel t p) = gauge_of TUNNELS_ACTIVE p - is_relaying t.
Proof.
  destruct (metric_gauges TunClosed p) as [H1 H2]. destruct t; cbn [drop_tunnel is_relaying]; rewrite ?H1, ?H2; cbn; lia.
Qed.
Lemma drop_tunnels_spec ts p :
  gauge_of CONNECTIONS_ACTIVE (drop_tunnels ts p) = gauge_of CONNECTIONS_ACTIVE p ∧
  gauge_of TUNNELS_ACTIVE (drop_tunnels ts p) = gauge_of TUNNELS_ACTIVE p - sumZ is_relaying ts.
Proof.
  revert p. induction ts as [|t ts IH]; intros p; [cbn; lia|]. destruct (IH (drop_tunnel t p)) as [H1 H2].
  destruct (drop_tunnel_spec t p) as [H3 H4]. unfold drop_tunnels in *. cbn [fold_left]. rewrite H1, H2, H3, H4.
  unfold sumZ. cbn [map fold_right]. lia.
Qed.
Lemma drop_conn_spec c p :
  gauge_of CONNECTIONS_ACTIVE (drop_conn c p) = gauge_of CONNECTIONS_ACTIVE p - is_polled c ∧
  gauge_of TUNNELS_ACTIVE (drop_conn c p) = gauge_of TUNNELS_ACTIVE p - relaying c.
Proof.
  unfold drop_conn, is_polled, relaying. destruct (drop_tunnels_spec (conn_tunnels c) p) as [H1 H2].
  destruct (metric_gauges ConnEnded (drop_tunnels (conn_tunnels c) p)) as [H3 H4].
  destruct (polled c); rewrite ?H3, ?H4, H1, H2; cbn; lia.
Qed.

(** Dropping touches nothing but the metrics. *)
Lemma drop_conn_frame c p : let p' := drop_conn c p in
  stage p' = stage p ∧ drain p' = drain p ∧ tasks p' = tasks p ∧ began p' = began p ∧ finished p' = finished p ∧
  cut_by_peer p' = cut_by_peer p ∧ cut_by_close p' = cut_by_close p.
Proof.
  assert (∀ ts p, let p' := drop_tunnels ts p in
    stage p' = stage p ∧ drain p' = drain p ∧ tasks p' = tasks p ∧ began p' = began p ∧ finished p' = finished p ∧
    cut_by_peer p' = cut_by_peer p ∧ cut_by_close p' = cut_by_close p) as Ht.
  { intros ts. induction ts as [|t ts IH]; intros q; [done|]. specialize (IH (drop_tunnel t q)). by destruct t. }
  specialize (Ht (conn_tunnels c) p). unfold drop_conn. by destruct (polled c).
Qed.

(** ** The invariant *)

Definition proxy_inv (p : Proxy) : Prop :=
  gauge_of CONNECTIONS_ACTIVE p = sumZ is_polled (tasks p) ∧
  gauge_of TUNNELS_ACTIVE p = sumZ relaying (tasks p) ∧
  Z.of_nat (began p) = Z.of_nat (finished p + cut_by_peer p + cut_by_close p) + sumZ carried (tasks p) ∧
  (drain p = true ↔ stage p ≠ Listening) ∧ (stage p = Stopped → tasks p = []) ∧
  Forall (λ c, conn_draining c = true → drain p = true) (tasks p).

Definition accounted (p : Proxy) : Z :=
  Z.of_nat (began p) - Z.of_nat (finished p + cut_by_peer p + cut_by_close p).

(** Replacing a connection's task keeps the invariant when the counts move with
    it. *)
Lemma with_conn_inv p q i c c' :
  proxy_inv p → tasks p !! i = Some c → tasks q = tasks p → stage q = stage p → drain q = drain p →
  gauge_of CONNECTIONS_ACTIVE q = gauge_of CONNECTIONS_ACTIVE p + (is_polled c' - is_polled c) →
  gauge_of TUNNELS_ACTIVE q = gauge_of TUNNELS_ACTIVE p + (relaying c' - relaying c) →
  accounted q = accounted p + (carried c' - carried c) →
  (conn_draining c' = true → drain p = true) → proxy_inv (with_conn i c' q).
Proof.
  intros (H1 & H2 & H3 & H4 & H5 & H6) Hi Ht Hs Hd Hc Htn Ha Hdr. unfold accounted in Ha.
  unfold with_conn, set_tasks, proxy_inv, gauge_of in *. cbn [tasks metrics began finished cut_by_peer cut_by_close drain stage].
  rewrite Ht, Hs, Hd, !(sumZ_insert _ _ _ _ _ Hi), Hc, Htn. split_and!; [lia|lia|lia|done| |].
  - intros Hst. rewrite (H5 Hst) in Hi. done.
  - by apply Forall_insert.
Qed.

Lemma end_conn_inv p i c : proxy_inv p → tasks p !! i = Some c → proxy_inv (end_conn i c p).
Proof.
  intros (H1 & H2 & H3 & H4 & H5 & H6) Hi. unfold end_conn. set (q := set_tasks (delete i (tasks p)) p).
  destruct (drop_conn_frame c q) as (F1 & F2 & F3 & F4 & F5 & F6 & F7). destruct (drop_conn_spec c q) as [G1 G2].
  unfold proxy_inv, count, gauge_of in *. cbn [tasks metrics began finished cut_by_peer cut_by_close drain stage].
  rewrite F1, F2, F3, F4, F5, F6, F7, G1, G2. unfold q, set_tasks.
  cbn [tasks metrics began finished cut_by_peer cut_by_close drain stage]. rewrite !(sumZ_delete _ _ _ _ Hi).
  unfold carried at 2. split_and!; [lia|lia|lia|done| |by apply Forall_delete].
  intros Hst. by rewrite (H5 Hst) in Hi.
Qed.

Lemma incoming_inv limits now ip p : stage p = Listening → proxy_inv p → proxy_inv (on_incoming limits now ip p).
Proof.
  intros Hst (H1 & H2 & H3 & H4 & H5 & H6). unfold on_incoming. destruct (accept_connection _ _ _ _) as [verdict a].
  set (q := mkProxy _ _ _ _ _ _ _ _ _). assert (proxy_inv q) as Hq by done.
  assert (∀ c, adds_connection c = 0 → adds_tunnel c = 0 → proxy_inv (metric c q)) as Hm.
  { intros c Hc1 Hc2. destruct (metric_gauges c q) as [G1 G2], Hq as (Q1 & Q2 & Q3 & Q4 & Q5 & Q6).
    unfold proxy_inv. rewrite G1, G2, Hc1, Hc2, !Z.add_0_r. done. }
  destruct (refusal_reason verdict); [by apply Hm|].
  destruct (Hm ConnAccepted eq_refl eq_refl) as (M1 & M2 & M3 & M4 & M5 & M6).
  unfold proxy_inv, set_tasks, gauge_of in *. cbn [tasks metrics began finished cut_by_peer cut_by_close drain stage metric] in *.
  rewrite !sumZ_app. change (sumZ is_polled [spawned]) with 0. change (sumZ relaying [spawned]) with 0.
  change (sumZ carried [spawned]) with 0. rewrite !Z.add_0_r. split_and!; try done.
  - unfold q. cbn. by rewrite Hst.
  - apply Forall_app. by split; [|apply Forall_singleton].
Qed.

Lemma close_all_spec ts p :
  let q := fold_left (λ p c, count 0 0 0 (length (conn_tunnels c)) (drop_conn c p)) ts p in
  gauge_of CONNECTIONS_ACTIVE q = gauge_of CONNECTIONS_ACTIVE p - sumZ is_polled ts ∧
  gauge_of TUNNELS_ACTIVE q = gauge_of TUNNELS_ACTIVE p - sumZ relaying ts ∧
  began q = began p ∧ finished q = finished p ∧ cut_by_peer q = cut_by_peer p ∧
  Z.of_nat (cut_by_close q) = Z.of_nat (cut_by_close p) + sumZ carried ts.
Proof.
  revert p. induction ts as [|c ts IH]; intros p; [cbn; split_and!; lia|]. cbn [fold_left].
  set (p1 := count _ _ _ _ _). destruct (IH p1) as (I1 & I2 & I3 & I4 & I5 & I6).
  destruct (drop_conn_spec c p) as [G1 G2], (drop_conn_frame c p) as (F1 & F2 & F3 & F4 & F5 & F6 & F7).
  rewrite I1, I2, I3, I4, I5, I6. unfold p1, count, gauge_of in *. cbn [metrics began finished cut_by_peer cut_by_close].
  rewrite F4, F5, F6, F7, G1, G2. unfold sumZ, carried. cbn [map fold_right]. split_and!; lia.
Qed.

Lemma close_all_inv p :
  stage p = Closing → proxy_inv p →
  let q := set_stage Stopped true (set_tasks [] (fold_left (λ p c, count 0 0 0 (length (conn_tunnels c)) (drop_conn c p)) (tasks p) p)) in
  proxy_inv q.
Proof.
  intros Hst (H1 & H2 & H3 & H4 & H5 & H6) q. destruct (close_all_spec (tasks p) p) as (I1 & I2 & I3 & I4 & I5 & I6).
  unfold q, proxy_inv, set_stage, set_tasks, gauge_of in *.
  cbn [tasks metrics began finished cut_by_peer cut_by_close drain stage]. rewrite I1, I2, I3, I4, I5.
  change (sumZ is_polled []) with 0. change (sumZ relaying []) with 0. change (sumZ carried []) with 0.
  split_and!; try done; lia.
Qed.

Lemma stage_inv p s : proxy_inv p → stage p = Listening ∨ stage p = Draining → s = Draining ∨ s = Closing → proxy_inv (set_stage s true p).
Proof.
  intros (H1 & H2 & H3 & H4 & H5 & H6) Hp Hs. unfold proxy_inv, set_stage, gauge_of in *.
  cbn [tasks metrics began finished cut_by_peer cut_by_close drain stage]. split_and!; try done.
  - split; [|done]. intros _. by destruct Hs as [->| ->].
  - by destruct Hs as [->| ->].
  - by apply Forall_true.
Qed.

Lemma draining_kept p i c : proxy_inv p → tasks p !! i = Some c → conn_draining c = true → drain p = true.
Proof. intros (_ & _ & _ & _ & _ & Hd) Hi. by apply (Forall_lookup_1 _ _ _ _ Hd Hi). Qed.

(** A change of one connection's tunnels. *)
Lemma set_tunnels_inv p q i c ts :
  proxy_inv p → tasks p !! i = Some c → tasks q = tasks p → stage q = stage p → drain q = drain p →
  gauge_of CONNECTIONS_ACTIVE q = gauge_of CONNECTIONS_ACTIVE p →
  gauge_of TUNNELS_ACTIVE q = gauge_of TUNNELS_ACTIVE p + (sumZ is_relaying ts - relaying c) →
  accounted q = accounted p + (Z.of_nat (length ts) - carried c) → proxy_inv (with_conn i (set_tunnels ts c) q).
Proof.
  intros Hp Hi Ht Hs Hd Hc Htn Ha. eapply (with_conn_inv p q i c); try done.
  - rewrite Hc. unfold is_polled, set_tunnels. cbn [polled]. lia.
  - intros Hdr. by apply (draining_kept p i c).
Qed.

Lemma first_poll_inv p i c :
  proxy_inv p → tasks p !! i = Some c → polled c = false →
  proxy_inv (with_conn i (mkConnTask true (conn_draining c) (conn_tunnels c)) (metric ConnStarted p)).
Proof.
  intros Hp Hi Hpl. destruct (metric_gauges ConnStarted p) as [G1 G2]. eapply (with_conn_inv p _ i c); try done.
  - rewrite G1. unfold is_polled. rewrite Hpl. cbn [polled adds_connection]. lia.
  - rewrite G2. unfold relaying. cbn [conn_tunnels adds_tunnel]. lia.
  - unfold accounted, carried. cbn [metric began finished cut_by_peer cut_by_close conn_tunnels]. lia.
  - intros Hdr. by apply (draining_kept p i c).
Qed.

Lemma request_inv limits p i c :
  proxy_inv p → tasks p !! i = Some c → proxy_inv (with_conn i (on_request limits c) (count 1 0 0 0 p)).
Proof.
  intros Hp Hi. apply (set_tunnels_inv p); try done.
  - rewrite sumZ_app. unfold relaying, gauge_of. cbn [metrics count]. destruct (over _ _); cbn; lia.
  - rewrite length_app. unfold accounted, carried. cbn [count began finished cut_by_peer cut_by_close length]. lia.
Qed.

(** A task of the set moves on, with the call it makes. *)
Lemma tunnel_moves_inv p i j c t t' call :
  proxy_inv p → tasks p !! i = Some c → conn_tunnels c !! j = Some t →
  adds_connection call = 0 → adds_tunnel call = is_relaying t' - is_relaying t →
  proxy_inv (with_conn i (set_tunnels (<[j := t']> (conn_tunnels c)) c) (metric call p)).
Proof.
  intros Hp Hi Hj Hc Ht. destruct (metric_gauges call p) as [G1 G2]. apply (set_tunnels_inv p); try done.
  - rewrite G1, Hc. lia.
  - rewrite G2, Ht, (sumZ_insert _ _ _ _ _ Hj). unfold relaying. lia.
  - rewrite length_insert. unfold accounted, carried. cbn [metric began finished cut_by_peer cut_by_close]. lia.
Qed.

Lemma tunnel_ends_inv p i j c t :
  proxy_inv p → tasks p !! i = Some c → conn_tunnels c !! j = Some t →
  proxy_inv (with_conn i (set_tunnels (delete j (conn_tunnels c)) c) (drop_tunnel t (count 0 1 0 0 p))).
Proof.
  intros Hp Hi Hj. destruct (drop_tunnel_spec t (count 0 1 0 0 p)) as [G1 G2].
  apply (set_tunnels_inv p); try done; try (by destruct t).
  - rewrite G2, (sumZ_delete _ _ _ _ Hj). unfold gauge_of, relaying. cbn [metrics count]. lia.
  - rewrite length_delete by (by eexists). pose proof (lookup_lt_Some _ _ _ Hj). unfold accounted, carried.
    destruct t; cbn [drop_tunnel metric count began finished cut_by_peer cut_by_close]; lia.
Qed.

Lemma drain_seen_inv p i c :
  proxy_inv p → tasks p !! i = Some c → drain p = true → polled c = true →
  proxy_inv (with_conn i (mkConnTask true true (conn_tunnels c)) p).
Proof.
  intros Hp Hi Hd Hpl. eapply (with_conn_inv p _ i c); try done; unfold is_polled, relaying, carried;
    cbn [polled conn_tunnels]; rewrite ?Hpl; lia.
Qed.

Lemma proxy_event_inv limits e p : proxy_inv p → proxy_inv (proxy_event limits e p).
Proof.
  intros Hp. destruct e as [now ip|i|i|i j protocol|i j|i j|i|i|i| | | | |]; cbn [proxy_event].
  2-9: destruct (tasks p !! i) as [c|] eqn:Hi; [|done].
  4-6: destruct (conn_tunnels c !! j) as [t|] eqn:Hj; [|done].
  - destruct (stage p) eqn:Hst; try done. by apply incoming_inv.
  - destruct (polled c) eqn:Hpl; [done|]. by apply first_poll_inv.
  - destruct (polled c) eqn:Hpl; [|done]. by apply request_inv.
  - destruct t; try done. by eapply tunnel_moves_inv.
  - destruct t; try done. by eapply tunnel_moves_inv.
  - by apply tunnel_ends_inv.
  - destruct (drain p) eqn:Hd, (polled c) eqn:Hpl; try done. by apply drain_seen_inv.
  - destruct (polled c); [|done]. by apply end_conn_inv.
  - destruct (_ && _); [|done]. by apply end_conn_inv.
  - destruct (stage p) eqn:Hst; try done. apply stage_inv; auto.
  - destruct (stage p) eqn:Hst; try done. apply stage_inv; auto.
  - destruct (stage p) eqn:Hst; try done. destruct (decide _); [|done]. apply stage_inv; auto.
  - destruct (stage p) eqn:Hst; try done. apply stage_inv; auto.
  - destruct (stage p) eqn:Hst; try done. by apply close_all_inv.
Qed.

Lemma run_proxy_inv limits es p : proxy_inv p → proxy_inv (run_proxy limits es p).
Proof.
  revert p. induction es as [|e es IH]; intros p Hp; [done|]. apply IH. by apply proxy_event_inv.
Qed.
Lemma start_proxy_inv limits now : proxy_inv (start_proxy limits now).
Proof. by repeat split. Qed.

(** ** Stopping *)

Lemma end_conn_frame i c p : let q := end_conn i c p in
  stage q = stage p ∧ tasks q = delete i (tasks p) ∧ cut_by_close q = cut_by_close p ∧
  cut_by_peer q = (cut_by_peer p + length (conn_tunnels c))%nat.
Proof.
  cbv zeta. destruct (drop_conn_frame c (set_tasks (delete i (tasks p)) p)) as (F1 & F2 & F3 & F4 & F5 & F6 & F7).
  unfold end_conn, count. cbn [stage tasks cut_by_close cut_by_peer]. rewrite F1, F3, F6, F7. cbn. split_and!; try done; lia.
Qed.

(** What an event does to the stage and to what is cut: most leave both, and only
    a listening proxy gains connections. *)
Inductive event_effect (e : ProxyEvent) (p q : Proxy) : Prop :=
  | effect_same :
      stage q = stage p → cut_by_close q = cut_by_close p →
      (stage p ≠ Listening → (length (tasks q) ≤ length (tasks p))%nat) →
      (cut_by_peer q = cut_by_peer p ∨ ∃ i, e = PeerGone i) → event_effect e p q
  | effect_drain :
      stage p = Listening → stage q = Draining → tasks q = tasks p → cut_by_close q = cut_by_close p →
      cut_by_peer q = cut_by_peer p → event_effect e p q
  | effect_close :
      stage p = Draining → stage q = Closing → tasks q = tasks p → tasks p = [] ∨ e = GraceOver →
      cut_by_close q = cut_by_close p → cut_by_peer q = cut_by_peer p → event_effect e p q
  | effect_stop :
      stage p = Closing → stage q = Stopped → tasks q = [] →
      Z.of_nat (cut_by_close q) = Z.of_nat (cut_by_close p) + sumZ carried (tasks p) →
      cut_by_peer q = cut_by_peer p → event_effect e p q.

Lemma effect_refl e p : event_effect e p p.
Proof. apply effect_same; auto. Qed.
#[local] Hint Resolve effect_refl : core.

Lemma proxy_event_effect limits e p : event_effect e p (proxy_event limits e p).
Proof.
  destruct e as [now ip|i|i|i j protocol|i j|i j|i|i|i| | | | |]; cbn [proxy_event].
  2-9: destruct (tasks p !! i) as [c|] eqn:Hi; [|done].
  4-6: destruct (conn_tunnels c !! j) as [t|] eqn:Hj; [|done].
  2-7: repeat case_match; try done; try (by apply effect_same; auto; cbn; rewrite ?length_insert).
  - destruct (stage p) eqn:E; try done. unfold on_incoming. destruct (accept_connection _ _ _ _) as [v a].
    destruct (refusal_reason v); apply effect_same; cbn; auto; by rewrite E.
  - destruct t; apply effect_same; cbn; auto; by rewrite length_insert.
  - destruct (polled c); [|done]. destruct (end_conn_frame i c p) as (F1 & F2 & F3 & F4).
    apply effect_same; [done..| |eauto]. rewrite F2, length_delete by (by eexists). lia.
  - destruct (_ && _) eqn:Hd; [|done]. destruct (end_conn_frame i c p) as (F1 & F2 & F3 & F4).
    apply andb_true_iff in Hd as [_ Hn%bool_decide_eq_true].
    apply effect_same; [done..| |left; rewrite F4, Hn; cbn; lia]. rewrite F2, length_delete by (by eexists). lia.
  - destruct (stage p) eqn:E; try done. by apply effect_drain.
  - destruct (stage p) eqn:E; try done. by apply effect_drain.
  - destruct (stage p) eqn:E; try done. destruct (decide _); [|done]. apply effect_close; auto.
  - destruct (stage p) eqn:E; try done. apply effect_close; auto.
  - destruct (stage p) eqn:E; try done. destruct (close_all_spec (tasks p) p) as (_ & _ & _ & _ & I5 & I6).
    by apply effect_stop.
Qed.

(** Until the grace period is over the proxy cuts nothing itself. *)
Definition unhurried (p : Proxy) : Prop :=
  cut_by_close p = 0%nat ∧ (stage p = Closing ∨ stage p = Stopped → tasks p = []).

Lemma unhurried_event limits e p : e ≠ GraceOver → unhurried p → unhurried (proxy_event limits e p).
Proof.
  intros He [Hc Hs]. unfold unhurried.
  destruct (proxy_event_effect limits e p) as [H1 H2 H3 _|H1 H2 H3 H4 _|H1 H2 H3 [H4|H4] H5 _|H1 H2 H3 H4 _].
  - rewrite H1, H2. split; [done|]. intros Hst. assert (stage p ≠ Listening) as Hl by (by destruct Hst as [->| ->]).
    specialize (H3 Hl). rewrite (Hs Hst) in H3. by destruct (tasks (proxy_event limits e p)); cbn in H3; [|lia].
  - rewrite H2, H4. split; [done|]. by intros [?|?].
  - rewrite H3, H4, H5. done.
  - done.
  - rewrite H3. split; [|done]. rewrite (Hs (or_introl H1)) in H4. cbn in H4. lia.
Qed.

Lemma run_unhurried limits es p : GraceOver ∉ es → unhurried p → unhurried (run_proxy limits es p).
Proof.
  revert p. induction es as [|e es IH]; intros p Hn Hp; [done|]. apply not_elem_of_cons in Hn as [He Hn].
  apply IH; [done|]. apply unhurried_event; [congruence|done].
Qed.
Lemma run_no_peer limits es p :
  (∀ i, PeerGone i ∉ es) → cut_by_peer (run_proxy limits es p) = cut_by_peer p.
Proof.
  revert p. induction es as [|e es IH]; intros p Hn; [done|].
  change (run_proxy limits (e :: es) p) with (run_proxy limits es (proxy_event limits e p)).
  rewrite IH by (intros i Hi; apply (Hn i); by right).
  destruct (proxy_event_effect limits e p) as [_ _ _ [H|[i ->]]|? ? ? ? H|? ? ? ? ? H|? ? ? ? H]; try done.
  exfalso. apply (Hn i). by left.
Qed.

(** However connections and tunnels come and go, the gauges show what is there,
    and nothing is unaccounted for: the active connections are the connection
    tasks that run, the active tunnels those that relay, and every tunnel task
    that ever began has ended, was cut, or is still carried.  Once the proxy has
    stopped, nothing runs and both gauges are back at zero. *)
Theorem proxy_accounts (limits : ResourceLimits) (now : Z) (es : list ProxyEvent) :
  let p := run_proxy limits es (start_proxy limits now) in
  gauge_of CONNECTIONS_ACTIVE p = sumZ is_polled (tasks p) ∧
  gauge_of TUNNELS_ACTIVE p = sumZ relaying (tasks p) ∧
  Z.of_nat (began p) = Z.of_nat (finished p + cut_by_peer p + cut_by_close p) + sumZ carried (tasks p) ∧
  (stage p = Stopped → tasks p = [] ∧ gauge_of CONNECTIONS_ACTIVE p = 0 ∧ gauge_of TUNNELS_ACTIVE p = 0).
Proof.
  intros p. destruct (run_proxy_inv limits es _ (start_proxy_inv limits now)) as (H1 & H2 & H3 & _ & H5 & _).
  fold p in H1, H2, H3, H5. split_and!; try done. intros Hst. specialize (H5 Hst). by rewrite H1, H2, H5.
Qed.

(** C17.  A shutdown within its grace period interrupts no tunnel: unless the deadline
    passes, the proxy itself never cuts one, and a proxy that stopped without a
    client having gone away either let every tunnel that began finish. *)
Theorem shutdown_graceful (limits : ResourceLimits) (now : Z) (es : list ProxyEvent) :
  GraceOver ∉ es →
  let p := run_proxy limits es (start_proxy limits now) in
  cut_by_close p = 0%nat ∧
  (stage p = Stopped → (∀ i, PeerGone i ∉ es) → finished p = began p).
Proof.
  intros Hn p. assert (unhurried p) as [Hc Hs] by (apply run_unhurried; [done|]; split; [done|by intros [?|?]]).
  split; [done|]. intros Hst Hp.
  destruct (run_proxy_inv limits es _ (start_proxy_inv limits now)) as (_ & _ & H3 & _ & H5 & _). fold p in H3, H5.
  assert (cut_by_peer p = 0%nat) as Hcp by apply (run_no_peer limits es (start_proxy limits now) Hp).
  rewrite (H5 Hst), Hc, Hcp in H3. cbn in H3. lia.
Qed.

(** A shutdown always ends: from any point of the proxy's life the signal, the
    deadline and the closing are enough, and between the signal and the end no
    connection is added. *)
Theorem shutdown_ends (limits : ResourceLimits) (es : list ProxyEvent) (p : Proxy) :
  stage (run_proxy limits [ShutdownSignal; GraceOver; CloseAll] p) = Stopped ∧
  (stage p ≠ Listening → stage (run_proxy limits es p) ≠ Listening ∧
     (length (tasks (run_proxy limits es p)) ≤ length (tasks p))%nat).
Proof.
  split.
  - destruct p as [st d ts a m b f cp cc]. by destruct st.
  - revert p. induction es as [|e es IH]; intros p Hp; [done|].
    change (run_proxy limits (e :: es) p) with (run_proxy limits es (proxy_event limits e p)).
    assert (stage (proxy_event limits e p) ≠ Listening ∧
      (length (tasks (proxy_event limits e p)) ≤ length (tasks p))%nat) as [Hl Ht].
    { destruct (proxy_event_effect limits e p) as [H1 _ H3 _|H1 H2 H3|H1 H2 H3|H1 H2 H3]; rewrite ?H1, ?H2, ?H3; auto;
        (split; [done|cbn; lia]). }
    destruct (IH _ Hl) as [I1 I2]. split; [done|lia].
Qed.

(** ** A proxy's day *)

(** One client opens a tunnel; the proxy is told to stop, the tunnel ends, the
    connection drains and the proxy stops. *)
Definition quiet_day : list ProxyEvent :=
  [Incoming 3 (V4 9); FirstPoll 0; NewRequest 0; TunnelOpens 0 0 (of_string "connect-tcp"); ShutdownSignal; Incoming 4 (V4 8);
   DrainSeen 0; ConnDrained 0; TunnelEnds 0 0; ConnDrained 0; AllDrained; CloseAll].
(** The same day with a tunnel that outlasts the grace period. *)
Definition hurried_day : list ProxyEvent :=
  [Incoming 3 (V4 9); FirstPoll 0; NewRequest 0; TunnelOpens 0 0 (of_string "connect-tcp"); ShutdownSignal; DrainSeen 0; GraceOver; CloseAll].

Definition evening : Proxy := run_proxy small_limits quiet_day (start_proxy small_limits 0).

Lemma no_peer_gone i : PeerGone i ∉ quiet_day.
Proof.
  intros Hin. unfold quiet_day in Hin.
  repeat (apply elem_of_cons in Hin as [Hin|Hin]; [discriminate Hin|]). by apply elem_of_nil in Hin.
Qed.
Lemma no_grace_over : GraceOver ∉ quiet_day.
Proof.
  intros Hin. unfold quiet_day in Hin.
  repeat (apply elem_of_cons in Hin as [Hin|Hin]; [discriminate Hin|]). by apply elem_of_nil in Hin.
Qed.

Lemma shutdown_graceful_witness : began evening = 1%nat ∧ cut_by_close evening = 0%nat ∧ finished evening = began evening.
Proof.
  split; [vm_compute; reflexivity|].
  destruct (shutdown_graceful small_limits 0 quiet_day no_grace_over) as [Hc Hf].
  split; [exact Hc|]. apply Hf; [vm_compute; reflexivity|exact no_peer_gone].
Defined.

Lemma hurried_day_cuts :
  let p := run_proxy small_limits hurried_day (start_proxy small_limits 0) in
  stage p = Stopped ∧ cut_by_close p = 1%nat ∧ finished p = 0%nat ∧ gauge_of TUNNELS_ACTIVE p = 0.
Proof. by vm_compute. Qed.

Lemma shutdown_ends_witness :
  stage (run_proxy small_limits [ShutdownSignal; GraceOver; CloseAll] (start_proxy small_limits 0)) = Stopped ∧
  (length (tasks (run_proxy small_limits quiet_day (set_stage Draining true (start_proxy small_limits 0)))) ≤ 0)%nat.
Proof.
  split; [apply (shutdown_ends small_limits [])|].
  apply (shutdown_ends small_limits quiet_day (set_stage Draining true (start_proxy small_limits 0))). discriminate.
Defined.
