(* ===== verification/Boot.v ===== *)
(** * The gateway's main program

    Model of [main], [bootstrap_platform] and [spawn_platform_tasks] of
    [crates/skimasque-cli/src/bin/skimasque-server.rs] as the sequence of what
    they do to the world: which steps must succeed before the endpoint is bound,
    what is in force by then, and which tasks run afterwards.  The steps themselves
    are modelled in their own files ([Certificates], [ServerStart], [ControlSync],
    [Minting], [Gateway]); here each is an outcome. *)

From S2P Require Import Prelude RustStr RustNet PolicyUnits.

(** The flags [main] branches on. *)
Record MainFlags : Type := mkMainFlags {
  metrics_listen : bool;
  write_cert : option str;
  platform_mode : bool;
  control_plane : bool;
  observe_only : bool;
  policy_source : bool;
  policy_reload : bool;
  policy_reload_interval : str;
  tls_reload : bool;
  tls_reload_interval : str;
  cert_files : bool;
  shutdown_grace : str;
}.

(** The background tasks. *)
Inductive Background : Type :=
  | AcmeManager
  | ControlPlaneSync
  | SigningKeyRefresh
  | AuditShipping
  | RevocationSync (platform : bool)
  | ControlPlaneHeartbeat
  | TenantSync
  | PlatformAuditShipping
  | PlatformHeartbeat
  | PolicyReload (every : Duration)
  | TlsReload (every : Duration)
  | OpsServer.

Inductive Action : Type :=
  | InstalledRecorder
  | WroteCertificate (path : str)
  | BootstrappedPlatform
  | BootstrappedControlPlane
  | WiredOidc
  | RefusingSessions (sids : list str)
  | BuiltService
  | Bound
  | Spawned (t : Background)
  | MarkedReady
  | ServedUntilShutdown (grace : Duration).

(** How each step of start-up turned out. *)
Record Steps : Type := mkSteps {
  recorder : result str unit;
  (** [load_tls]: whether ACME manages the certificate. *)
  tls : result str bool;
  certificate_write : result str unit;
  (** [build_oidc]: whether [--oidc] was given. *)
  oidc : result str bool;
  template : result str unit;
  limits : result str unit;
  bootstrap_platform : result str unit;
  bootstrap_control_plane : result str unit;
  wire_oidc : result str unit;
  cached_revocations : option (list str);
  (** [build_service]: whether it made a [PolicyHandle]. *)
  build_service : result str bool;
  bind : result str unit;
}.

(** ** Programs with a trace *)

Definition Boot (A : Type) : Type := list Action → result str A * list Action.
#[global] Instance boot_ret : MRet Boot := λ A a tr, (Ok a, tr).
#[global] Instance boot_bind : MBind Boot := λ A B k m tr,
  match m tr with
  | (Ok a, tr) => k a tr
  | (Err e, tr) => (Err e, tr)
  end.
Definition lift {A} (r : result str A) : Boot A := λ tr, (r, tr).
Definition did (a : Action) : Boot unit := λ tr, (Ok tt, tr ++ [a]).
Definition when_ (b : bool) (m : Boot unit) : Boot unit := if b then m else mret tt.
(** A panic of [expect] ends the program too. *)
Definition expect (b : bool) (msg : str) : Boot unit := if b then mret tt else lift (Err msg).

Section main.
Context (display_unit_error : ParseUnitError → str).
Context (args : MainFlags) (st : Steps).

Definition flag_duration (flag value : str) : Boot Duration :=
  lift (map_err (λ e, "parsing " ++ flag ++ ": " ++ display_unit_error e) (parse_duration value)).
Definition interval_if (b : bool) (flag value : str) : Boot (option Duration) :=
  if b then d ← flag_duration flag value; mret (Some d) else mret None.

(** What the first part of [main] hands to the second. *)
Record Ready : Type := mkReady {
  acme : bool;
  with_oidc : bool;
  grace : Duration;
  reload_every : option Duration;
  tls_every : option Duration;
  handle : bool;
}.

(** Up to the service: everything that may refuse to start. *)
Definition prepare : Boot Ready :=
  _ ← when_ (metrics_listen args) (_ ← lift (recorder st); did InstalledRecorder);
  is_acme ← lift (tls st);
  _ ← match write_cert args with
      | Some path =>
          when_ (negb is_acme)
            (_ ← lift (map_err (λ e, "writing the certificate to " ++ path ++ ": " ++ e) (certificate_write st));
             did (WroteCertificate path))
      | None => mret tt
      end;
  with_oidc ← (if platform_mode args then mret false else lift (oidc st));
  _ ← lift (template st);
  _ ← lift (limits st);
  grace ← flag_duration "--shutdown-grace" (shutdown_grace args);
  reload ← interval_if (policy_reload args) "--policy-reload-interval" (policy_reload_interval args);
  tls_every ← interval_if (tls_reload args) "--tls-reload-interval" (tls_reload_interval args);
  _ ← when_ (platform_mode args) (_ ← lift (bootstrap_platform st); did BootstrappedPlatform);
  _ ← when_ (negb (platform_mode args) && control_plane args)
        (_ ← lift (bootstrap_control_plane st); did BootstrappedControlPlane);
  _ ← when_ (with_oidc && (negb (platform_mode args) && control_plane args)) (_ ← lift (wire_oidc st); did WiredOidc);
  _ ← match cached_revocations st with
      | Some sids => when_ (platform_mode args || control_plane args) (did (RefusingSessions sids))
      | None => mret tt
      end;
  handle ← (if platform_mode args then mret false else lift (build_service st));
  _ ← did BuiltService;
  mret (mkReady is_acme with_oidc grace reload tls_every handle).

(** [spawn_platform_tasks]. *)
Definition spawn_platform_tasks : Boot unit :=
  _ ← did (Spawned TenantSync);
  _ ← did (Spawned (RevocationSync true));
  _ ← did (Spawned PlatformAuditShipping);
  did (Spawned PlatformHeartbeat).

(** The tasks of a gateway with a control plane of its own. *)
Definition spawn_control_plane_tasks (r : Ready) : Boot unit :=
  _ ← expect (handle r) "--control-plane yields a policy source and so a PolicyHandle";
  _ ← did (Spawned ControlPlaneSync);
  _ ← when_ (with_oidc r) (did (Spawned SigningKeyRefresh));
  _ ← when_ (negb (observe_only args)) (did (Spawned AuditShipping));
  _ ← did (Spawned (RevocationSync false));
  did (Spawned ControlPlaneHeartbeat).

(** From the bound endpoint on. *)
Definition serve (r : Ready) : Boot unit :=
  _ ← when_ (acme r) (did (Spawned AcmeManager));
  _ ← when_ (negb (platform_mode args) && control_plane args) (spawn_control_plane_tasks r);
  _ ← when_ (platform_mode args) spawn_platform_tasks;
  _ ← match reload_every r with
      | Some every =>
          _ ← expect (policy_source args) "--policy-reload requires a policy source, which clap enforces";
          _ ← expect (handle r) "a policy source always yields a PolicyHandle";
          did (Spawned (PolicyReload every))
      | None => mret tt
      end;
  _ ← match tls_every r with
      | Some every =>
          _ ← expect (cert_files args) "--tls-reload requires --cert, which clap enforces";
          did (Spawned (TlsReload every))
      | None => mret tt
      end;
  _ ← when_ (metrics_listen args) (did (Spawned OpsServer));
  _ ← when_ (metrics_listen args) (did MarkedReady);
  did (ServedUntilShutdown (grace r)).

Definition main : Boot unit :=
  r ← prepare;
  _ ← lift (bind st);
  _ ← did Bound;
  serve r.
End main.

(** ** What runs, and when *)

(** An action that serves nobody yet. *)
Definition preparing (a : Action) : bool :=
  match a with Bound | Spawned _ | MarkedReady | ServedUntilShutdown _ => false | _ => true end.

(** The tasks a gateway runs, by its flags. *)
Definition tasks_for (args : MainFlags) (r : Ready) : list Background :=
  (if acme r then [AcmeManager] else []) ++
  (if negb (platform_mode args) && control_plane args then
     ControlPlaneSync :: (if with_oidc r then [SigningKeyRefresh] else []) ++
     (if observe_only args then [] else [AuditShipping]) ++ [RevocationSync false; ControlPlaneHeartbeat]
   else []) ++
  (if platform_mode args then [TenantSync; RevocationSync true; PlatformAuditShipping; PlatformHeartbeat] else []) ++
  match reload_every r with Some every => [PolicyReload every] | None => [] end ++
  match tls_every r with Some every => [TlsReload every] | None => [] end ++
  (if metrics_listen args then [OpsServer] else []).

(** What the argument parser guarantees of the flags, and [build_service] of its
    handle. *)
Definition accepted_flags (args : MainFlags) : Prop :=
  (platform_mode args = true → control_plane args = true) ∧
  (policy_reload args = true → policy_source args = true ∧ control_plane args = false) ∧
  (tls_reload args = true → cert_files args = true).
Definition handle_made (args : MainFlags) (st : Steps) : Prop :=
  ∀ h, build_service st = Ok h → policy_source args || control_plane args = true → h = true.

(** A program that only adds preparing actions. *)
Definition quietly {A} (m : Boot A) (Q : A → list Action → Prop) : Prop :=
  ∀ tr, ∃ more, (m tr).2 = tr ++ more ∧ Forall (λ a, preparing a = true) more ∧
    ∀ a, (m tr).1 = Ok a → Q a more.

Lemma quietly_ret {A} (a : A) (Q : A → list Action → Prop) : Q a [] → quietly (mret a) Q.
Proof. intros HQ tr. exists []. rewrite app_nil_r. split_and!; [done|done|]. by intros ? [= <-]. Qed.
Lemma quietly_lift {A} (r : result str A) (Q : A → list Action → Prop) :
  (∀ a, r = Ok a → Q a []) → quietly (lift r) Q.
Proof. intros HQ tr. exists []. rewrite app_nil_r. split_and!; [done|done|]. intros a Ha. by apply HQ. Qed.
Lemma quietly_did a (Q : unit → list Action → Prop) : preparing a = true → Q tt [a] → quietly (did a) Q.
Proof. intros Ha HQ tr. exists [a]. split_and!; [done|by constructor|]. by intros [] _. Qed.
Lemma quietly_bind {A B} (m : Boot A) (k : A → Boot B) P (Q : B → list Action → Prop) :
  quietly m P → (∀ a l, P a l → quietly (k a) (λ b l', Q b (l ++ l'))) → quietly (m ≫= k) Q.
Proof.
  intros Hm Hk tr. destruct (Hm tr) as (l & Hl & Hf & HP). unfold mbind, boot_bind.
  destruct (m tr) as [[a|e] tr'] eqn:Hmt; cbn in *; subst tr'.
  - destruct (Hk a l (HP a eq_refl) (tr ++ l)) as (l' & Hl' & Hf' & HQ). exists (l ++ l').
    rewrite Hl', app_assoc. split_and!; [done|by apply Forall_app|done].
  - by exists l.
Qed.
Lemma quietly_weaken {A} (m : Boot A) (P Q : A → list Action → Prop) :
  (∀ a l, P a l → Q a l) → quietly m P → quietly m Q.
Proof. intros HPQ Hm tr. destruct (Hm tr) as (l & Hl & Hf & HP). exists l. split_and!; auto. Qed.

Section order.
Context (display_unit_error : ParseUnitError → str).
Context (args : MainFlags) (st : Steps).

Lemma quietly_any {A} (r : result str A) : quietly (lift r) (λ a _, r = Ok a).
Proof. by apply quietly_lift. Qed.
Lemma quietly_when b m (Q : unit → list Action → Prop) :
  (b = true → quietly m Q) → (b = false → Q tt []) → quietly (when_ b m) Q.
Proof. intros H1 H2. destruct b; [by apply H1|]. apply quietly_ret. by apply H2. Qed.
Lemma quietly_interval b flag value :
  quietly (interval_if display_unit_error b flag value) (λ o _, is_Some o → b = true).
Proof.
  unfold interval_if, flag_duration. destruct b; [|apply quietly_ret; by intros [? ?]].
  eapply quietly_bind; [apply quietly_any|]. intros d l _. by apply quietly_ret.
Qed.

(** What holds when preparation succeeds. *)
Definition prepared (r : Ready) (done_ : list Action) : Prop :=
  (is_Some (reload_every r) → policy_reload args = true) ∧ (is_Some (tls_every r) → tls_reload args = true) ∧
  (platform_mode args = false → build_service st = Ok (handle r)) ∧
  (∀ sids, cached_revocations st = Some sids → platform_mode args || control_plane args = true →
     RefusingSessions sids ∈ done_).

Lemma prepared_mono r l l' : prepared r l' → prepared r (l ++ l').
Proof. intros (H1 & H2 & H3 & H4). split_and!; try done. intros sids Hs Hm. apply elem_of_app. right. by apply H4. Qed.
(** A step before the revocations: what it did itself does not matter. *)
Lemma then_prepared {A} (m : Boot A) (k : A → Boot Ready) P :
  quietly m P → (∀ a l, P a l → quietly (k a) prepared) → quietly (m ≫= k) prepared.
Proof.
  intros Hm Hk. eapply quietly_bind; [exact Hm|]. intros a l HP. eapply quietly_weaken; [|by apply (Hk a l)].
  intros r l'. apply prepared_mono.
Qed.
Lemma quietly_reported b {A} (r : result str A) a :
  preparing a = true → quietly (when_ b (_ ← lift r; did a)) (λ _ _, True).
Proof.
  intros Ha. apply quietly_when; [|done]. intros _. eapply quietly_bind; [apply quietly_any|]. intros x l _.
  by apply quietly_did.
Qed.

Lemma prepare_quietly : quietly (prepare display_unit_error args st) prepared.
Proof.
  unfold prepare.
  eapply then_prepared; [by apply quietly_reported|intros _ _ _].
  eapply then_prepared; [apply quietly_any|intros is_acme _ _].
  eapply (then_prepared _ _ (λ _ _, True)).
  { destruct (write_cert args); [by apply quietly_reported|by apply quietly_ret]. }
  intros _ _ _. eapply (then_prepared _ _ (λ _ _, True)).
  { destruct (platform_mode args); [by apply quietly_ret|]. by apply quietly_lift. }
  intros with_oidc _ _. eapply then_prepared; [apply quietly_any|intros _ _ _].
  eapply then_prepared; [apply quietly_any|intros _ _ _].
  eapply then_prepared; [apply quietly_any|intros grace _ _].
  eapply then_prepared; [apply quietly_interval|intros reload l1 Hreload].
  eapply then_prepared; [apply quietly_interval|intros tls_every l2 Htls].
  do 3 (eapply then_prepared; [by apply quietly_reported|intros _ _ _]).
  eapply (quietly_bind _ _ (λ _ l, ∀ sids, cached_revocations st = Some sids →
    platform_mode args || control_plane args = true → RefusingSessions sids ∈ l)).
  { destruct (cached_revocations st) as [sids|]; [|by apply quietly_ret].
    apply quietly_when; [|intros Hb ? ? Hb'; by rewrite Hb in Hb']. intros _. apply quietly_did; [done|].
    intros ? [= <-] _. by apply list_elem_of_singleton. }
  intros _ l Hl. eapply (quietly_bind _ _ (λ h _, platform_mode args = false → build_service st = Ok h)).
  { destruct (platform_mode args); [by apply quietly_ret|]. by apply quietly_lift. }
  intros h l3 Hh. eapply quietly_bind; [by apply (quietly_did _ (λ _ _, True))|]. intros _ l4 _. apply quietly_ret.
  split_and!; try done. intros sids Hs Hm. apply elem_of_app. left. by apply Hl.
Qed.

(** Serving, once prepared. *)
Lemma serve_trace r tr :
  accepted_flags args → handle_made args st → prepared r tr → ∀ tr0,
  serve args r tr0 = (Ok tt, tr0 ++ map Spawned (tasks_for args r) ++
    (if metrics_listen args then [MarkedReady] else []) ++ [ServedUntilShutdown (grace r)]).
Proof.
  intros (Hf1 & Hf2 & Hf3) Hh (Hr & Ht & Hb & _) tr0.
  assert (negb (platform_mode args) && control_plane args = true → handle r = true) as Hhc.
  { intros [Hp%negb_true_iff Hc]%andb_prop. apply (Hh (handle r) (Hb Hp)). by rewrite Hc, orb_true_r. }
  assert (∀ d, reload_every r = Some d → policy_source args = true ∧ handle r = true) as Hhr.
  { intros d Hd. destruct (Hf2 (Hr (mk_is_Some _ _ Hd))) as [Hs Hc]. split; [done|]. apply (Hh (handle r)); [|by rewrite Hs].
    apply Hb. destruct (platform_mode args); [|done]. specialize (Hf1 eq_refl). congruence. }
  assert (∀ d, tls_every r = Some d → cert_files args = true) as Htc by (intros d Hd; apply Hf3, Ht; by eexists).
  unfold serve, tasks_for, spawn_control_plane_tasks, spawn_platform_tasks, mbind, boot_bind, when_, expect, did, mret, boot_ret, lift.
  destruct (acme r), (negb (platform_mode args) && control_plane args) eqn:Ecp;
    try (rewrite (Hhc eq_refl));
    destruct (platform_mode args), (with_oidc r), (observe_only args), (metrics_listen args);
    destruct (reload_every r) as [d|]; try (destruct (Hhr d eq_refl) as [Hps Hhd]; rewrite ?Hps, ?Hhd);
    destruct (tls_every r) as [d'|]; try (rewrite (Htc d' eq_refl)); cbn; by rewrite <- ?app_assoc.
Qed.
End order.


(** A gateway with a control plane and an exchange, restarted. *)
Definition sample_main : MainFlags :=
  mkMainFlags true None false true false false false [] false [] false (of_string "10s").
Definition sample_steps : Steps :=
  mkSteps (Ok tt) (Ok false) (Ok tt) (Ok true) (Ok tt) (Ok tt) (Ok tt) (Ok tt) (Ok tt) (Some [of_string "sess"]) (Ok true) (Ok tt).

