(* ===== verification/Probe.v ===== *)
(** * The probe of a tunnel

    Model of [crates/skimasque-cli/src/probe.rs]: the DNS query a probe sends through
    a tunnel, the header of the reply, and the dump of a payload.  ([parse_hex] is in
    [ServerStart], where a gateway uses it.) *)

From S2P Require Import Prelude RustStr RustNet Platform.

(** ** Dumping bytes *)

(** [{:02x}] and [{:08x}]. *)
Definition hex2 (b : Z) : str := [hex_digit (b / 16); hex_digit (b mod 16)].
Fixpoint hex_fixed (digits : nat) (n : Z) : str :=
  match digits with O => [] | S d => hex_fixed d (n / 16) ++ [hex_digit (n mod 16)] end.
(** An offset that does not fit eight digits is printed in full. *)
Definition offset_text (n : Z) : str := hex_fixed (Nat.max 8 (S (Z.to_nat (Z.log2 n / 4)))) n.

Definition printable_byte (b : Z) : Z := if (32 <=? b) && (b <=? 126) then b else 46.

Definition dump_cell (chunk : list Z) (i : nat) : str :=
  match chunk !! i with Some b => hex2 b ++ " " | None => "   " end ++ (if Nat.eqb i 7 then " " else []).
Definition dump_line (offset : Z) (chunk : list Z) : str :=
  offset_text offset ++ "  " ++ flat_map (dump_cell chunk) (seq 0 16) ++ " |" ++ map printable_byte chunk ++ "|" ++ [10].

Fixpoint dump_lines (fuel : nat) (offset : Z) (bytes : list Z) : str :=
  match fuel, bytes with
  | S fuel, _ :: _ => dump_line offset (take 16 bytes) ++ dump_lines fuel (offset + 16) (drop 16 bytes)
  | _, _ => []
  end.
Definition hexdump (bytes : list Z) : str := dump_lines (length bytes) 0 bytes.

(** ** DNS *)

Definition TYPE_A : Z := 1.
Definition TYPE_AAAA : Z := 28.

Definition be16 (n : Z) : list Z := [n / 256; n mod 256].

Inductive QueryError : Type := EmptyLabel (name : str) | LongLabel (label : str).

Fixpoint query_labels (name : str) (labels : list str) : result QueryError (list Z) :=
  match labels with
  | [] => Ok []
  | label :: labels =>
      if bool_decide (label = []) then Err (EmptyLabel name)
      else if (63 <? length (as_bytes label))%nat then Err (LongLabel label)
      else
        rest ← query_labels name labels;
        Ok (Z.of_nat (length (as_bytes label)) :: as_bytes label ++ rest)
  end.

Definition labels_of (name : str) : list str := split 46 (trim_end_matches 46 name).

Definition dns_query (id : Z) (name : str) (qtype : Z) : result QueryError (list Z) :=
  labels ← query_labels name (labels_of name);
  Ok (be16 id ++ be16 0x0100 ++ be16 1 ++ [0; 0; 0; 0; 0; 0] ++ labels ++ [0] ++ be16 qtype ++ be16 1).

Record DnsHeader : Type := mkDnsHeader {
  id : Z;
  is_response : bool;
  response_code : Z;
  questions : Z;
  answers : Z;
}.

Definition parse_dns_header (bytes : list Z) : option DnsHeader :=
  match bytes with
  | b0 :: b1 :: b2 :: b3 :: b4 :: b5 :: b6 :: b7 :: _ :: _ :: _ :: _ :: _ =>
      let flags := b2 * 256 + b3 in
      Some (mkDnsHeader (b0 * 256 + b1) (negb (Z.land flags 0x8000 =? 0)) (Z.land flags 0x000f)
              (b4 * 256 + b5) (b6 * 256 + b7))
  | _ => None
  end.

Definition response_code_name (h : DnsHeader) : str :=
  match response_code h with
  | 0 => "NOERROR"
  | 1 => "FORMERR"
  | 2 => "SERVFAIL"
  | 3 => "NXDOMAIN"
  | 4 => "NOTIMP"
  | 5 => "REFUSED"
  | _ => "unknown"
  end.

(** ** What a resolver reads *)

(** A name on the wire, as RFC 1035 has it: labels with their lengths, up to the
    empty one. *)
Fixpoint read_name (fuel : nat) (bytes : list Z) : option (list (list Z) * list Z) :=
  match fuel, bytes with
  | S fuel, n :: bytes =>
      if n =? 0 then Some ([], bytes)
      else if (n <=? 63) && (Z.to_nat n <=? length bytes)%nat then
        '(labels, rest) ← read_name fuel (drop (Z.to_nat n) bytes);
        Some (take (Z.to_nat n) bytes :: labels, rest)
      else None
  | _, _ => None
  end.

Lemma as_bytes_nonempty s : s ≠ [] → (0 < length (as_bytes s))%nat.
Proof.
  destruct s as [|c s]; [done|]. intros _. cbn. rewrite length_app. unfold utf8_char. repeat case_match; cbn; lia.
Qed.

Lemma query_labels_read name labels wire rest :
  query_labels name labels = Ok wire →
  read_name (S (length labels)) (wire ++ 0 :: rest) = Some (map as_bytes labels, rest).
Proof.
  revert wire. induction labels as [|label labels IH]; intros wire; cbn [query_labels]; [by intros [= <-]|].
  case_bool_decide as Hne; [done|]. destruct (Nat.ltb_spec 63 (length (as_bytes label))) as [|Hle]; [done|].
  intros H. apply bind_Ok in H as (wire' & Hw & [= <-]). pose proof (as_bytes_nonempty label Hne) as Hpos.
  change (length (label :: labels)) with (S (length labels)). cbn [app]. rewrite <- app_assoc.
  remember (S (length labels)) as fuel eqn:Hfuel. cbn [read_name].
  destruct (Z.eqb_spec (Z.of_nat (length (as_bytes label))) 0); [lia|].
  rewrite (proj2 (Z.leb_le _ _)) by lia. rewrite Nat2Z.id, (proj2 (Nat.leb_le _ _)) by (rewrite length_app; lia).
  cbn [andb]. rewrite drop_app_length, take_app_length, (IH _ Hw). done.
Qed.

(** A resolver reads the query the probe meant.  When a query is built, its
    header is that of a question with the caller's id, and what follows is the name
    given, label by label and without its trailing dot, then the type asked for. *)
Theorem dns_query_reads (i : Z) (name : str) (qtype : Z) (query : list Z) :
  0 ≤ i < 65536 → 0 ≤ qtype < 65536 → dns_query i name qtype = Ok query →
  parse_dns_header query = Some (mkDnsHeader i false 0 1 0) ∧
  read_name (S (length (labels_of name))) (drop 12 query) = Some (map as_bytes (labels_of name), be16 qtype ++ [0; 1]).
Proof.
  intros Hi Hq H. unfold dns_query in H. apply bind_Ok in H as (wire & Hw & [= <-]). split.
  - cbn. do 2 f_equal. rewrite Z.mul_comm, <- Z_div_mod_eq_full. done.
  - cbn [be16 app drop]. by apply (query_labels_read name).
Qed.

Lemma dns_query_reads_witness :
  ∃ query, dns_query 0xbeef "example.com." TYPE_A = Ok query ∧
    parse_dns_header query = Some (mkDnsHeader 0xbeef false 0 1 0).
Proof.
  eexists. split; [by vm_compute|].
  apply (dns_query_reads 0xbeef "example.com." TYPE_A); [lia|unfold TYPE_A; lia|by vm_compute].
Defined.
