(* ===== verification/Session.v ===== *)
(** * The client's session

    Model of [crates/skimasque-cli/src/session.rs]: where the gateway is, which
    credential a client presents, how it is kept fresh, and what the user is told
    when the gateway refuses a tunnel.

    Exchanges with the gateway and the control plane are parameters; a loop over
    them recurses on the list of their outcomes.  Durations and instants are in
    nanoseconds. *)

From S2P Require Import Prelude RustStr RustNet Target PolicyDest PolicyUnits PolicyModel PolicyEval.
From S2P Require Import Template Service PolicyLayer Server.

(** ** Where the gateway is *)

(** [spec.parse::<Ipv6Addr>().is_ok()]. *)
Definition is_ipv6_text (spec : str) : bool :=
  match read_ipv6_addr spec with Some (_, []) => true | _ => false end.

Definition DEFAULT_PORT : str := ":443".

Definition proxy_with_port (spec : str) : str :=
  if starts_with "[" spec then
    if ends_with "]" spec then spec ++ DEFAULT_PORT else spec
  else if is_ipv6_text spec then "[" ++ spec ++ "]:443"
  else
    match rsplit_once 58 spec with
    | Some (_, port) => if bool_decide (is_Some (parse_u16 port)) then spec else spec ++ DEFAULT_PORT
    | None => spec ++ DEFAULT_PORT
    end.

(** ** Which credential *)

Record AuthArgs : Type := mkAuthArgs {
  auth_token : option str;
  auth_token_file : option str;
  github_oidc : bool;
  oidc_token : option str;
  oidc_audience : option str;
  arg_org : option str;
}.

Inductive AuthMode : Type := ModeOidc | ModeStatic | ModeSession | ModeNone.

Definition auth_mode (a : AuthArgs) (has_session : bool) : AuthMode :=
  if github_oidc a || bool_decide (is_Some (oidc_token a)) then ModeOidc
  else if bool_decide (is_Some (auth_token a)) || bool_decide (is_Some (auth_token_file a)) then ModeStatic
  else if has_session then ModeSession
  else ModeNone.

(** [AuthArgs::static_token]; [read] is [fs::read_to_string]. *)
Definition static_token (read : str → option str) (a : AuthArgs) : result str (option str) :=
  match auth_token_file a with
  | Some path =>
      text ← ok_or (read path) ("reading the token file " ++ path);
      let token := trim text in
      if decide (token = []) then Err ("the token file " ++ path ++ " is empty") else Ok (Some token)
  | None => Ok (auth_token a)
  end.

Record Credential : Type := mkCredential { cred_token : str; cred_expires_in : Duration }.
Record OidcExchange : Type := mkOidcExchange { ex_audience : str; ex_static_token : option str }.
Inductive RefreshMode (Login : Type) : Type :=
  | RefreshOidc (e : OidcExchange)
  | RefreshSession (l : Login).
Arguments RefreshOidc {Login} e.
Arguments RefreshSession {Login} l.

Record Bearer (Login : Type) : Type := mkBearer {
  bearer_header : option str;
  bearer_refresh : option (RefreshMode Login * Duration);
  bearer_login : option Login;
}.
Arguments mkBearer {Login} bearer_header bearer_refresh bearer_login.
Arguments bearer_header {Login} b : rename.
Arguments bearer_refresh {Login} b : rename.
Arguments bearer_login {Login} b : rename.

Section bearer.
Context {Stored Login : Type}.
Context (read : str → option str).
(** [github_actions_id_token], [Session::exchange_credential], and for a stored
    login: the organisation it resolves to and the credential minted for it. *)
Context (id_token : str → result str str) (exchange_credential : str → result str Credential).
Context (resolve_login : Stored → option str → result str Login) (mint_from : Login → result str Credential).

Definition run_oidc (e : OidcExchange) : result str Credential :=
  oidc ← match ex_static_token e with Some token => Ok token | None => id_token (ex_audience e) end;
  exchange_credential oidc.

Definition run_refresh (m : RefreshMode Login) : result str Credential :=
  match m with RefreshOidc e => run_oidc e | RefreshSession l => mint_from l end.

(** [creds] is what [account::load] found. *)
Definition resolve_bearer (a : AuthArgs) (creds : option Stored) : result str (Bearer Login) :=
  match auth_mode a (bool_decide (is_Some creds)), creds with
  | ModeOidc, _ =>
      audience ← ok_or (oidc_audience a)
        (of_string "--github-oidc / --oidc-token also need --oidc-audience (the value the gateway expects)");
      let exchange := mkOidcExchange audience (oidc_token a) in
      credential ← run_oidc exchange;
      Ok (mkBearer (Some (cred_token credential)) (Some (RefreshOidc exchange, cred_expires_in credential)) None)
  | ModeStatic, _ =>
      token ← static_token read a;
      Ok (mkBearer token None None)
  | ModeSession, Some creds =>
      login ← resolve_login creds (arg_org a);
      credential ← mint_from login;
      Ok (mkBearer (Some (cred_token credential)) (Some (RefreshSession login, cred_expires_in credential))
            (Some login))
  | _, _ =>
      Err (of_string "not authenticated: run `skimasque login`, or pass --github-oidc/--oidc-token/--auth-token")
  end.
End bearer.

(** ** Keeping it fresh *)

Definition secs (n : Z) : Duration := n * 10 ^ 9.
Definition REFRESH_RETRY : Duration := secs 30.

Definition refresh_lead_time (ttl : Duration) : Duration :=
  Z.min (Z.min (Z.max (ttl / 4) (secs 10)) (secs 900)) (ttl / 2).

(** [ttl.saturating_sub(refresh_lead_time(ttl))]. *)
Definition refresh_sleep (ttl : Duration) : Duration := Z.max 0 (ttl - refresh_lead_time ttl).

(** One outcome of an exchange: how long it took, and what it gave; [settable]
    tells whether a header can carry the new credential. *)
Record Attempt : Type := mkAttempt { took : Duration; got : result str Credential; settable : bool }.

(** The loop of [refresh_credential] from instant [now]: the instants at which it
    asks, and the credential in use with the instant it was obtained. *)
Fixpoint refresh_credential (now : Z) (ttl : Duration) (held : Credential * Z) (attempts : list Attempt)
    : list Z * (Credential * Z) :=
  match attempts with
  | [] => ([], held)
  | a :: attempts =>
      let asked := now + refresh_sleep ttl in
      let now := asked + took a in
      match got a with
      | Ok credential =>
          if settable a then
            let '(times, last) := refresh_credential now (cred_expires_in credential) (credential, now) attempts in
            (asked :: times, last)
          else ([asked], held)
      | Err _ =>
          let '(times, last) := refresh_credential now REFRESH_RETRY held attempts in
          (asked :: times, last)
      end
  end.

(** ** What the user is told *)

(** [skimasque::Error], as far as [refusal_line] looks. *)
Inductive ClientError : Type :=
  | Rejected (status : Z) (proxy_status : option str)
  | OtherError (text : str).

(** The loop of [proxy_status_details] after the opening quote. *)
Fixpoint details_loop (chars : str) : option str :=
  match chars with
  | [] => None
  | c :: chars =>
      if c =? 92 then
        match chars with
        | e :: chars => (cons e) <$> details_loop chars
        | [] => None
        end
      else if c =? 34 then Some []
      else (cons c) <$> details_loop chars
  end.

Definition DETAILS : str := of_string "details=" ++ [34].

Definition proxy_status_details (value : str) : option str :=
  '(_, rest) ← split_once_str DETAILS value;
  details_loop rest.

Section refusal.
(** [Display] of a status code. *)
Context (display_status : Z → str).

Definition display_client_error (e : ClientError) : str :=
  match e with
  | Rejected status ps =>
      "proxy refused the tunnel: " ++ display_status status ++
      match ps with Some s => " (" ++ s ++ ")" | None => [] end
  | OtherError text => text
  end.

Definition SUGGESTED : str := " suggested rule: ".

Definition refusal_line (destination : str) (e : ClientError) : str :=
  let unreachable := "could not reach " ++ destination ++ ": " ++ display_client_error e in
  match e with
  | Rejected status ps =>
      if status =? 403 then
        match ps ≫= proxy_status_details with
        | Some details =>
            match split_once_str SUGGESTED details with
            | Some (reason, rule) => "denied " ++ destination ++ ": " ++ reason ++ " To allow it: " ++ rule
            | None => "denied " ++ destination ++ ": " ++ details
            end
        | None => "denied " ++ destination
        end
      else unreachable
  | OtherError _ => unreachable
  end.
End refusal.

(** ** Opening a session *)

Inductive TrustStore : Type := TrustCa (pem : list Z) | TrustAnything | TrustWebPki.

Record TlsArgs : Type := mkTlsArgs {
  tls_authority : option str;
  tls_template : option str;
  tls_ca : option str;
  tls_insecure : bool;
}.

Record Connected (Conn Login : Type) : Type := mkConnected {
  session : Conn;
  default_headers : list (str * str);
  conn_refresh : option (RefreshMode Login * Duration);
  conn_credential : option str;
  conn_login : option Login;
}.
Arguments mkConnected {Conn Login} session default_headers conn_refresh conn_credential conn_login.
Arguments session {Conn Login} c : rename.
Arguments default_headers {Conn Login} c : rename.
Arguments conn_refresh {Conn Login} c : rename.
Arguments conn_credential {Conn Login} c : rename.
Arguments conn_login {Conn Login} c : rename.

Section open.
Context {Conn Login : Type}.
(** [lookup_host], [fs::read], [Client::connect], and the bearer resolved over the
    session; [set_header] is [HeaderMap::insert] after [HeaderValue::from_str]. *)
Context (lookup_host : str → result str (list SocketAddr)) (read_file : str → option (list Z)).
Context (connect : TrustStore → SocketAddr → UriTemplate → result str Conn).
Context (bearer_of : Conn → result str (Bearer Login)).
Context (set_header : list (str * str) → str → str → option (list (str * str))).

Definition resolve_proxy (spec : str) : result str (SocketAddr * str) :=
  let with_port := proxy_with_port spec in
  addrs ← map_err (λ _, "resolving the gateway address " ++ quoted with_port) (lookup_host with_port);
  match addrs with
  | addr :: _ => Ok (addr, with_port)
  | [] => Err (quoted with_port ++ " did not resolve to any address")
  end.

Definition open_session (gateway : str) (tls : TlsArgs) (headers : list (str * str))
    : result str (Connected Conn Login) :=
  '(proxy, proxy_authority) ← resolve_proxy gateway;
  trust ← match tls_ca tls, tls_insecure tls with
          | Some path, _ => TrustCa <$> ok_or (read_file path) ("reading " ++ path)
          | None, true => Ok TrustAnything
          | None, false => Ok TrustWebPki
          end;
  let authority := default proxy_authority (tls_authority tls) in
  template ← match tls_template tls with
             | Some raw => map_err (λ _, of_string "parsing --template") (Template.parse raw)
             | None => map_err (λ _, of_string "template") (default_connect_udp authority)
             end;
  _ ← map_err (λ _, of_string "a connect-udp template needs target_host and target_port")
        (require_variables template CONNECT_UDP_VARIABLES);
  conn ← map_err (λ _, "connecting to the gateway at " ++ gateway) (connect trust proxy template);
  bearer ← bearer_of conn;
  headers ← match bearer_header bearer with
            | Some token =>
                ok_or (set_header headers "proxy-authorization" ("Bearer " ++ token))
                  (of_string "the credential contains characters a header cannot carry")
            | None => Ok headers
            end;
  Ok (mkConnected conn headers (bearer_refresh bearer) (bearer_header bearer) (bearer_login bearer)).
End open.

(** ** The refresh schedule *)

(** The lead time: a quarter of the lifetime, between ten seconds and fifteen
    minutes, and never more than half of it. *)
Lemma refresh_lead_bounds ttl :
  0 ≤ ttl → 0 ≤ refresh_lead_time ttl ≤ ttl / 2 ∧ refresh_lead_time ttl ≤ secs 900 ∧
    Z.min (secs 10) (ttl / 2) ≤ refresh_lead_time ttl.
Proof. intros Ht. unfold refresh_lead_time, secs. dm_lia. Qed.

Lemma retry_sleep : refresh_sleep REFRESH_RETRY = secs 20.
Proof. by vm_compute. Qed.

(** The time a list of exchanges took. *)
Definition time_spent (l : list Attempt) : Duration := fold_right Z.add 0 (map took l).

(** The instant of the [k]-th question after a credential was obtained at [now],
    if the ones before it failed. *)
Definition asked_at (now : Z) (ttl : Duration) (failed : list Attempt) : Z :=
  now + refresh_sleep ttl + time_spent failed + secs 20 * Z.of_nat (length failed).

Definition failed (a : Attempt) : Prop := is_ok (got a) = false.

Lemma refresh_after_failures now ttl held fails rest :
  Forall failed fails →
  refresh_credential now ttl held (fails ++ rest) =
  match fails with
  | [] => refresh_credential now ttl held rest
  | _ =>
      let '(times, last) := refresh_credential (asked_at now ttl fails - refresh_sleep REFRESH_RETRY) REFRESH_RETRY held rest in
      (map (λ k, asked_at now ttl (take k fails)) (seq 0 (length fails)) ++ times, last)
  end.
Proof.
  intros Hf. revert now ttl. induction Hf as [|a fails Ha Hf IH]; intros now ttl; [done|].
  cbn [app refresh_credential]. unfold failed in Ha. destruct (got a) as [|e]; [done|].
  rewrite IH. rewrite retry_sleep. destruct fails as [|b fails].
  - replace (asked_at now ttl [a] - secs 20) with (now + refresh_sleep ttl + took a).
    + destruct (refresh_credential _ _ _ rest) as [times last]. cbn. unfold asked_at, time_spent. cbn. f_equal. f_equal. lia.
    + unfold asked_at, time_spent. cbn. lia.
  - set (l := b :: fails) in *.
    assert (∀ k, asked_at (now + refresh_sleep ttl + took a) REFRESH_RETRY (take k l) = asked_at now ttl (take (S k) (a :: l))) as Hk.
    { intros k. unfold asked_at, time_spent. rewrite retry_sleep. cbn [take map fold_right length]. lia. }
    assert (asked_at (now + refresh_sleep ttl + took a) REFRESH_RETRY l = asked_at now ttl (a :: l)) as Hall.
    { unfold asked_at, time_spent. rewrite retry_sleep. cbn [map fold_right length]. lia. }
    rewrite Hall. destruct (refresh_credential _ _ held rest) as [times last].
    cbn [length seq map app]. f_equal. f_equal.
    + unfold asked_at, time_spent. cbn. lia.
    + rewrite <- seq_shift, map_map. f_equal. apply map_ext. exact Hk.
Qed.

Lemma time_spent_app l1 l2 : time_spent (l1 ++ l2) = time_spent l1 + time_spent l2.
Proof. unfold time_spent. induction l1 as [|a l1 IH]; cbn in *; lia. Qed.

Lemma time_spent_nonneg l : Forall (λ a, 0 ≤ took a) l → 0 ≤ time_spent l.
Proof. unfold time_spent. induction 1; cbn; lia. Qed.

(** Failures only push the next question back. *)
Lemma asked_at_le now ttl l1 l2 :
  Forall (λ a, 0 ≤ took a) l2 → asked_at now ttl l1 ≤ asked_at now ttl (l1 ++ l2).
Proof.
  intros H%time_spent_nonneg. unfold asked_at.
  rewrite time_spent_app, length_app. unfold secs. lia.
Qed.

(** A credential is replaced before it runs out.  The first exchange is asked
    for between half the lifetime and its end, at least ten seconds ahead (or half
    the lifetime, if that is less); while exchanges fail the next is asked for
    twenty seconds after the last one ended; so as long as the failures and the
    time between them fit the lead time, the exchange that succeeds was asked for
    before the old credential expired, and its credential is the one in use. *)
Theorem refresh_in_time (obtained : Z) (ttl : Duration) (held : Credential) (fails : list Attempt) (a : Attempt)
    (next : Credential) (rest : list Attempt) :
  0 < ttl → Forall failed fails → got a = Ok next → settable a = true → 0 ≤ took a →
  Forall (λ x, 0 ≤ took x) fails →
  let '(times, last) := refresh_credential obtained ttl (held, obtained) (fails ++ a :: rest) in
  let asked := asked_at obtained ttl fails in
  (∃ pre post, times = pre ++ asked :: post ∧ length pre = length fails ∧ Forall (λ t, t ≤ asked) pre) ∧
  obtained + ttl / 2 ≤ asked ∧
  (time_spent fails + secs 20 * Z.of_nat (length fails) < refresh_lead_time ttl →
   asked < obtained + ttl) ∧
  last = (refresh_credential (asked + took a) (cred_expires_in next) (next, asked + took a) rest).2.
Proof.
  intros Ht Hf Hgot Hset Htook Hpos. rewrite refresh_after_failures by done.
  pose proof (refresh_lead_bounds ttl ltac:(lia)) as (Hl & Hl9 & Hl10).
  assert (refresh_sleep ttl = ttl - refresh_lead_time ttl) as Hsleep by (unfold refresh_sleep; dm_lia).
  pose proof (time_spent_nonneg _ Hpos) as Hspent.
  assert (obtained + ttl / 2 ≤ asked_at obtained ttl fails) as Hlow
    by (unfold asked_at, secs; rewrite Hsleep; dm_lia).
  assert (time_spent fails + secs 20 * Z.of_nat (length fails) < refresh_lead_time ttl →
    asked_at obtained ttl fails < obtained + ttl) as Hhigh by (unfold asked_at; rewrite Hsleep; lia).
  assert (Forall (λ t, t ≤ asked_at obtained ttl fails)
    (map (λ k, asked_at obtained ttl (take k fails)) (seq 0 (length fails)))) as Hpre.
  { apply Forall_forall. intros t (k & -> & _)%list_elem_of_fmap.
    rewrite <- (take_drop k fails) at 2. by apply asked_at_le, Forall_drop. }
  destruct fails as [|b fails].
  - cbn [app refresh_credential]. rewrite Hgot, Hset.
    replace (asked_at obtained ttl []) with (obtained + refresh_sleep ttl) in * by (unfold asked_at; cbn; lia).
    destruct (refresh_credential _ _ _ rest) as [times last] eqn:Hr. cbv zeta.
    split; [by exists [], times|]. split; [done|]. split; [done|]. done.
  - set (l := b :: fails) in *. cbn [refresh_credential]. rewrite Hgot, Hset.
    replace (asked_at obtained ttl l - refresh_sleep REFRESH_RETRY + refresh_sleep REFRESH_RETRY)
      with (asked_at obtained ttl l) by lia.
    destruct (refresh_credential (asked_at obtained ttl l + took a) _ _ rest) as [times last] eqn:Hr. cbv zeta.
    split; [eexists _, times; split; [done|]; by rewrite length_map, length_seq|]. split; [done|]. split; [done|]. done.
Qed.

(** An hour's credential is asked for again after forty-five minutes; one failed
    exchange of five seconds moves the next to twenty seconds later. *)
Lemma refresh_in_time_witness :
  0 < secs 3600 ∧
  let c n := mkCredential n (secs 3600) in
  let fails := [mkAttempt (secs 5) (Err (of_string "no route")) true] in
  let a := mkAttempt (secs 1) (Ok (c (of_string "new"))) true in
  let '(times, last) := refresh_credential 0 (secs 3600) (c (of_string "old"), 0) (fails ++ [a]) in
  times = [secs 2700; secs 2725] ∧
  (time_spent fails + secs 20 * Z.of_nat (length fails) < refresh_lead_time (secs 3600) →
   asked_at 0 (secs 3600) fails < 0 + secs 3600).
Proof.
  split; [by vm_compute|]. cbv zeta.
  pose proof (refresh_in_time 0 (secs 3600) (mkCredential (of_string "old") (secs 3600))
    [mkAttempt (secs 5) (Err (of_string "no route")) true]
    (mkAttempt (secs 1) (Ok (mkCredential (of_string "new") (secs 3600))) true)
    (mkCredential (of_string "new") (secs 3600)) []) as H.
  destruct (refresh_credential _ _ _ _) as [times last] eqn:Hr.
  destruct H as (_ & _ & H & _).
  - by vm_compute.
  - by repeat constructor.
  - reflexivity.
  - reflexivity.
  - by vm_compute.
  - repeat constructor; by vm_compute.
  - split; [|exact H]. vm_compute in Hr. injection Hr as <- _. by vm_compute.
Defined.

(** ** What a refusal reads as *)

Lemma split_once_str_first p pre post :
  (∀ u w, pre = u ++ w → w ≠ [] → strip_prefix p (w ++ p ++ post) = None) →
  split_once_str p (pre ++ p ++ post) = Some (pre, post).
Proof.
  induction pre as [|c pre IH]; intros H; cbn [app].
  - destruct p as [|c p]; [by destruct post|]. cbn [app split_once_str].
    change (c :: p ++ post) with ((c :: p) ++ post). by rewrite strip_prefix_app.
  - assert (strip_prefix p (c :: pre ++ p ++ post) = None) as Hn by (by apply (H [] (c :: pre))).
    cbn [split_once_str]. rewrite Hn, IH; [done|]. intros u w -> Hw. by apply (H (c :: u) w).
Qed.

Lemma split_once_str_None p u w : split_once_str p (u ++ w) = None → strip_prefix p w = None.
Proof.
  induction u as [|c u IH]; cbn [app].
  - destruct w; cbn [split_once_str]; by destruct (strip_prefix _ _).
  - cbn [split_once_str]. destruct (strip_prefix p (c :: u ++ w)); [done|].
    destruct (split_once_str p (u ++ w)) as [[]|]; [done|]. auto.
Qed.

Lemma split_once_str_Some p s a b : split_once_str p s = Some (a, b) → s = a ++ p ++ b.
Proof.
  revert a. induction s as [|c s IH]; intros a; cbn [split_once_str].
  - destruct (strip_prefix p []) as [r|] eqn:Hp; [|done]. intros [= <- <-]. by apply strip_prefix_Some in Hp.
  - destruct (strip_prefix p (c :: s)) as [r|] eqn:Hp.
    + intros [= <- <-]. by apply strip_prefix_Some in Hp.
    + destruct (split_once_str p s) as [[a' b']|]; [|done]. intros [= <- <-]. cbn. f_equal. by apply IH.
Qed.

(** A pattern whose last character is nowhere else is found where it is put. *)
Lemma split_once_str_marked p0 q pre post :
  q ∉ p0 → q ∉ pre → split_once_str (p0 ++ [q]) (pre ++ (p0 ++ [q]) ++ post) = Some (pre, post).
Proof.
  intros Hp Hpre. apply split_once_str_first. intros u w -> Hw. apply strip_prefix_None. intros r Heq.
  rewrite <- !app_assoc in Heq. cbn [app] in Heq. rewrite (app_assoc w) in Heq.
  assert (split_once q ((w ++ p0) ++ q :: post) = Some (w ++ p0, post)) as H1.
  { apply split_once_Some. set_solver. }
  assert (split_once q (p0 ++ q :: r) = Some (p0, r)) as H2 by (by apply split_once_Some).
  rewrite Heq, H2 in H1. injection H1 as H1 _.
  apply (f_equal length) in H1. rewrite length_app in H1. destruct w; [done|]. cbn in H1. lia.
Qed.

(** [p] overlaps itself only by its first [n] characters. *)
Definition overlaps_only (n : nat) (p : str) : bool :=
  forallb (λ k, bool_decide (drop k p = take (length p - k) p → k = (length p - n)%nat)) (seq 1 (length p - 1)).

(** A pattern with one short overlap is found where it is put, if the text before it
    does not hold it even when that overlap follows. *)
Lemma split_once_str_overlap n p pre post :
  overlaps_only n p = true → (n ≤ length p)%nat → split_once_str p (pre ++ take n p) = None →
  split_once_str p (pre ++ p ++ post) = Some (pre, post).
Proof.
  intros Ho Hn Hpre. apply split_once_str_first. intros u w -> Hw. apply strip_prefix_None. intros r Heq.
  rewrite <- app_assoc in Hpre. apply split_once_str_None in Hpre.
  assert (length w ≠ 0)%nat as Hw0 by (by destruct w).
  destruct (decide (length p ≤ length w)%nat) as [Hle|Hlt].
  - assert (w = p ++ drop (length p) w) as Hp.
    { rewrite <- (take_drop (length p) w) at 1. f_equal.
      apply (f_equal (take (length p))) in Heq. rewrite take_app_le, take_app_length in Heq; done. }
    rewrite Hp, <- app_assoc, strip_prefix_app in Hpre. done.
  - assert (w = take (length w) p) as Hp.
    { apply (f_equal (take (length w))) in Heq. rewrite take_app_length, take_app_le in Heq; [done|lia]. }
    assert (drop (length w) p = take (length p - length w) p) as Hd.
    { apply (f_equal (drop (length w))) in Heq. rewrite drop_app_length, drop_app_le in Heq by lia.
      apply (f_equal (take (length p - length w))) in Heq. rewrite !take_app_le in Heq by (rewrite ?length_drop; lia).
      rewrite Heq. rewrite take_ge; [done|]. rewrite length_drop. lia. }
    assert (length w = length p - n)%nat as Hwn.
    { unfold overlaps_only in Ho. rewrite forallb_forall in Ho.
      specialize (Ho (length w)). rewrite bool_decide_eq_true in Ho. apply Ho; [|done]. apply in_seq. lia. }
    replace (take n p) with (drop (length w) p) in Hpre by (rewrite Hd; f_equal; lia).
    rewrite Hp in Hpre at 1. rewrite take_drop in Hpre.
    rewrite <- (app_nil_r p) in Hpre at 2. by rewrite strip_prefix_app in Hpre.
Qed.

Lemma details_loop_escaped l rest : details_loop (flat_map escape_char l ++ 34 :: rest) = Some l.
Proof.
  induction l as [|c l IH]; [done|]. cbn [flat_map]. unfold escape_char at 1.
  destruct ((c =? 34) || (c =? 92)) eqn:Hc; cbn [app details_loop].
  - change (92 =? 92) with true. cbv iota. by rewrite IH.
  - apply orb_false_iff in Hc as [-> ->]. by rewrite IH.
Qed.

Lemma structured_token_unquoted name : 34 ∉ structured_token name.
Proof.
  unfold structured_token. destruct (List.filter token_char name) as [|c cs] eqn:Hf.
  - by apply (bool_decide_eq_true_1 _).
  - destruct (is_ascii_alphabetic c); [|by apply (bool_decide_eq_true_1 _)].
    rewrite <- Hf, list_elem_of_In, filter_In. by intros [_ H].
Qed.

(** The client reads the detail the gateway wrote, if all of it was sent. *)
Lemma details_read name error detail :
  34 ∉ error → (length (flat_map escape_char (printable detail)) ≤ 256)%nat →
  proxy_status_details (proxy_status name error detail) = Some (printable detail).
Proof.
  intros He Hl. unfold proxy_status_details, proxy_status.
  replace (structured_token name ++ _) with
    ((structured_token name ++ of_string "; error=" ++ error ++ of_string "; ") ++
     (of_string "details=" ++ [34]) ++ structured_string detail ++ [34])
    by (rewrite <- !app_assoc; reflexivity).
  unfold DETAILS. rewrite split_once_str_marked.
  - cbn [mbind option_bind]. unfold structured_string. rewrite take_ge by done. apply details_loop_escaped.
  - by apply (bool_decide_eq_true_1 _).
  - rewrite !elem_of_app. intros [H|[H|[H|H]]].
    + by apply structured_token_unquoted in H.
    + by apply (bool_decide_eq_true_1 (34 ∉ of_string "; error=")) in H.
    + done.
    + by apply (bool_decide_eq_true_1 (34 ∉ of_string "; ")) in H.
Qed.

Lemma printable_visible d : forallb (λ c, negb (is_control c)) d = true → printable d = d.
Proof.
  unfold printable. induction d as [|c d IH]; [done|]. cbn. intros [-> H]%andb_prop. by rewrite (IH H).
Qed.

(** What a denial says before its suggestion. *)
Definition denial_prefix (d : Denied) : str :=
  match d_policy d with
  | Some policy => "policy " ++ quoted policy ++ ": " ++ summary (reason d)
  | None => summary (reason d)
  end.

Definition has_suggestion (r : DenyReason) : bool :=
  match r with PolicyMismatch _ _ | Baseline _ _ => false | _ => true end.

Lemma denial_detail d :
  rej_detail (denial_rejection d) =
  if has_suggestion (reason d) then denial_prefix d ++ SUGGESTED ++ suggested d else summary (reason d).
Proof.
  unfold denial_rejection, denial_prefix, SUGGESTED.
  destruct (reason d) as [| | |? []|], (d_policy d); cbn [has_suggestion rej_detail with_proxy_error new_rejection];
    rewrite <- ?app_assoc; reflexivity.
Qed.


Definition sample_denial : Denied :=
  mkDenied (Some (of_string "ci")) NoMatchingAllowRule "allow psql db.prod:5432" [].


(** ** What a session presents *)

(** A client never opens a session without a credential by accident.  When the
    bearer is resolved there is a token to present: the one exchanged for an OIDC
    token if that was asked for, else the token given or read from its file (which
    is then not empty), else the one minted from the stored login; the flags decide
    in this order, and with none of them the client stops.  What can expire comes
    with the way to renew it. *)
Theorem bearer_always_presented {Stored Login : Type} (read : str → option str) (id_token : str → result str str)
    (exchange_credential : str → result str Credential) (resolve_login : Stored → option str → result str Login)
    (mint_from : Login → result str Credential) (a : AuthArgs) (creds : option Stored) (b : Bearer Login) :
  resolve_bearer read id_token exchange_credential resolve_login mint_from a creds = Ok b →
  ∃ token, bearer_header b = Some token ∧
  match auth_mode a (bool_decide (is_Some creds)) with
  | ModeOidc => ∃ aud oidc c, oidc_audience a = Some aud ∧ bearer_login b = None ∧
      match oidc_token a with Some t => oidc = t | None => id_token aud = Ok oidc end ∧
      exchange_credential oidc = Ok c ∧ token = cred_token c ∧
      bearer_refresh b = Some (RefreshOidc (mkOidcExchange aud (oidc_token a)), cred_expires_in c)
  | ModeStatic => bearer_refresh b = None ∧ bearer_login b = None ∧
      match auth_token_file a with
      | Some path => ∃ text, read path = Some text ∧ token = trim text ∧ token ≠ []
      | None => auth_token a = Some token
      end
  | ModeSession => ∃ stored l c, creds = Some stored ∧ resolve_login stored (arg_org a) = Ok l ∧
      mint_from l = Ok c ∧ token = cred_token c ∧ bearer_login b = Some l ∧
      bearer_refresh b = Some (RefreshSession l, cred_expires_in c)
  | ModeNone => False
  end.
Proof.
  unfold resolve_bearer. destruct (auth_mode a _) eqn:Hm.
  - destruct (oidc_audience a) as [aud|]; [|done]. cbn [ok_or mbind result_mbind result_bind].
    unfold run_oidc. cbn [ex_static_token ex_audience].
    destruct (oidc_token a) as [t|] eqn:Ht; [|destruct (id_token aud) as [t|] eqn:Hi; [|done]];
      cbn [mbind result_mbind result_bind]; destruct (exchange_credential t) as [c|] eqn:Hc; try done;
      intros [= <-]; eexists; (split; [done|]); exists aud, t, c; by rewrite ?Ht.
  - unfold static_token. destruct (auth_token_file a) as [path|] eqn:Hf.
    + destruct (read path) as [text|] eqn:Hr; [|done]. cbn [ok_or mbind result_mbind result_bind].
      destruct (decide (trim text = [])); [done|]. intros [= <-]. eexists. split; [done|].
      split; [done|]. split; [done|]. by exists text.
    + intros [= <-]. unfold auth_mode in Hm. rewrite Hf in Hm.
      destruct (github_oidc a || _); [done|]. destruct (auth_token a) as [t|]; [by exists t|].
      by destruct (bool_decide (is_Some creds)).
  - destruct creds as [stored|]; [|done].
    destruct (resolve_login stored (arg_org a)) as [l|] eqn:Hl; [|done]. cbn [mbind result_mbind result_bind].
    destruct (mint_from l) as [c|] eqn:Hc; [|done]. intros [= <-]. eexists. split; [done|]. by exists stored, l, c.
  - by destruct creds.
Qed.

(** A token file with a trailing line break, and a login that is not used. *)
Lemma bearer_always_presented_witness :
  let read path := if decide (path = of_string "t") then Some (of_string " abc " ++ [10]) else None in
  ∃ token, Some (of_string "abc") = Some token ∧ ∃ text, read (of_string "t") = Some text ∧ token = trim text ∧ token ≠ [].
Proof.
  cbv zeta.
  set (read := λ path, if decide (path = of_string "t") then Some (of_string " abc " ++ [10]) else None).
  set (a := mkAuthArgs None (Some (of_string "t")) false None None None).
  pose (b := mkBearer (Some (of_string "abc")) None None : Bearer unit).
  destruct (bearer_always_presented read (λ _, Err []) (λ _, Err []) (λ (_ : unit) _, Err []) (λ _, Err []) a
    (Some tt) b) as (token & H & Hm).
  - by vm_compute.
  - exists token. split; [exact H|]. exact (proj2 (proj2 Hm)).
Defined.
