(* ===== verification/Client.v ===== *)
(** * The tunnels of a client

    Model of [crates/skimasque/src/client.rs]: the server name of a gateway, the
    credential a session presents and its replacement, the answer to a tunnel
    request, a UDP tunnel as its user reads it, and a TCP tunnel bridged to a local
    socket.  The queue of a UDP tunnel is filled by the datagram router and by the
    task that reads capsules; the two pumps of a bridge run concurrently, and a run
    is the sequence of what they did. *)

From S2P Require Import Prelude RustStr RustNet Template Target Datagram Service Auth Revocation PolicyModel Relay Server Session.

(** ** The session *)

Definition server_name_of (authority : str) : str :=
  match rsplit_once 93 authority with
  | Some (host, _) => host ++ [93]
  | None => hd authority (split 58 authority)
  end.

Section credential.
Context {HH : Headers}.

Definition PROXY_AUTHORIZATION : str := "proxy-authorization".

(** [Session::set_credential]: the headers of the tunnels opened from here on. *)
Definition set_credential (token : str) (default_headers : HeaderMap) : result str HeaderMap :=
  value ← ok_or (hv_from_str ("Bearer " ++ token)) (of_string "the credential contains characters a header cannot carry");
  Ok (hm_insert PROXY_AUTHORIZATION value default_headers).

(** What a tunnel request was answered with: the tunnel is open, or it was refused. *)
Definition tunnel_answer (r : Response) : result ClientError unit :=
  if Server.is_success (resp_status r) then Ok tt
  else Err (Rejected (resp_status r) (header_text (resp_headers r) "proxy-status")).
End credential.

(** ** A UDP tunnel *)

(** The task that reads the request stream: running, ended, or seen to have ended. *)
Inductive Reader : Type := Running | Ended | Observed.

Record UdpTunnel : Type := mkUdpTunnel {
  inbound : list (list Z);
  (** Every sender of the queue is gone. *)
  senders_gone : bool;
  reader : Reader;
}.
Definition new_udp_tunnel : UdpTunnel := mkUdpTunnel [] false Running.

(** [max_payload_size]: one byte is the context. *)
Definition udp_max_payload (route_max : option nat) : option nat :=
  match route_max with Some (S n) => Some n | _ => None end.

(** One poll of [recv]: the queue comes before the end of the stream.  [None] means
    that it waits. *)
Fixpoint drain (queue : list (list Z)) : option (list Z) * list (list Z) :=
  match queue with
  | [] => (None, [])
  | raw :: queue =>
      match decode_payload raw with
      | Ok (UdpPayload payload) => (Some payload, queue)
      | Ok (UnknownContext _ _) | Err _ => drain queue
      end
  end.

Definition recv (t : UdpTunnel) : option (option (list Z)) * UdpTunnel :=
  match reader t with
  | Observed => (Some None, t)
  | _ =>
      match drain (inbound t) with
      | (Some payload, queue) => (Some (Some payload), mkUdpTunnel queue (senders_gone t) (reader t))
      | (None, queue) =>
          if senders_gone t then (Some None, mkUdpTunnel queue true (reader t))
          else match reader t with
               | Ended => (Some None, mkUdpTunnel queue false Observed)
               | _ => (None, mkUdpTunnel queue false (reader t))
               end
      end
  end.

(** What happens to a tunnel: a datagram is queued, by the router or from a capsule;
    the request stream ends; the user polls [recv]. *)
Inductive UdpOp : Type :=
  | Arrive (raw : list Z)
  | StreamEnds
  | SendersGone
  | Recv.

Definition udp_op (t : UdpTunnel) (o : UdpOp) : list (option (list Z)) * UdpTunnel :=
  match o with
  | Arrive raw => ([], mkUdpTunnel (inbound t ++ [raw]) (senders_gone t) (reader t))
  | StreamEnds => ([], mkUdpTunnel (inbound t) (senders_gone t) (match reader t with Running => Ended | r => r end))
  | SendersGone => ([], mkUdpTunnel (inbound t) true (reader t))
  | Recv => let '(r, t) := recv t in (option_list r, t)
  end.

Fixpoint udp_ops (ops : list UdpOp) (t : UdpTunnel) : list (option (list Z)) * UdpTunnel :=
  match ops with
  | [] => ([], t)
  | o :: ops =>
      let '(r1, t) := udp_op t o in
      let '(r2, t) := udp_ops ops t in
      (r1 ++ r2, t)
  end.

(** ** A TCP tunnel bridged to a local socket *)

(** What the two pumps did: a chunk read from the socket and whether it was sent, the
    socket's end of stream and whether the stream was finished, or an error; and the
    same the other way. *)
Inductive PumpEvent : Type :=
  | LocalData (data : list Z) (sent : bool)
  | LocalEof (finished : bool)
  | LocalError
  | TunnelData (data : list Z) (written : bool)
  | TunnelEof (shut : bool)
  | TunnelError.

Record Bridge : Type := mkBridge {
  up_done : bool;
  down_done : bool;
  uploaded : list Z;
  stream_finished : bool;
  downloaded : list Z;
  local_shut : bool;
  bridge_failed : bool;
}.
Definition new_bridge : Bridge := mkBridge false false [] false [] false false.

Definition READ_BUFFER : nat := Z.to_nat (64 * 1024).

(** A pump does nothing once it is done. *)
Definition pump_ready (e : PumpEvent) (b : Bridge) : bool :=
  match e with
  | LocalData data _ => negb (up_done b) && negb (bool_decide (data = [])) && (length data <=? READ_BUFFER)%nat
  | LocalEof _ | LocalError => negb (up_done b)
  | TunnelData _ _ | TunnelEof _ | TunnelError => negb (down_done b)
  end.

Definition fail (b : Bridge) : Bridge :=
  mkBridge (up_done b) (down_done b) (uploaded b) (stream_finished b) (downloaded b) (local_shut b) true.

(** [try_join!]: the first error ends both, else they run until both are done. *)
Definition bridge_step (e : PumpEvent) (b : Bridge) : bool * Bridge :=
  if negb (pump_ready e b) then (true, b)
  else
    match e with
    | LocalData data true =>
        (true, mkBridge (up_done b) (down_done b) (uploaded b ++ data) (stream_finished b) (downloaded b) (local_shut b) false)
    | LocalEof true =>
        (negb (down_done b), mkBridge true (down_done b) (uploaded b) true (downloaded b) (local_shut b) false)
    | TunnelData data true =>
        (true, mkBridge (up_done b) (down_done b) (uploaded b) (stream_finished b) (downloaded b ++ data) (local_shut b) false)
    | TunnelEof true =>
        (negb (up_done b), mkBridge (up_done b) true (uploaded b) (stream_finished b) (downloaded b) true false)
    | LocalData _ false | LocalEof false | LocalError | TunnelData _ false | TunnelEof false | TunnelError => (false, fail b)
    end.

Definition bridge (evs : list PumpEvent) : list PumpEvent * bool * Bridge := Relay.run bridge_step evs new_bridge.

(** [TcpTunnel::read]: [incoming] is what the stream still delivers, chunks or an
    error; once it ended, nothing is asked of it any more. *)
Record TcpReader : Type := mkTcpReader { recv_open : bool; incoming : list (result str (list Z)) }.
Definition tcp_read (t : TcpReader) : result str (option (list Z)) * TcpReader :=
  if recv_open t then
    match incoming t with
    | Ok c :: rest => (Ok (Some c), mkTcpReader true rest)
    | Err e :: rest => (Err e, mkTcpReader true rest)
    | [] => (Ok None, mkTcpReader false [])
    end
  else (Ok None, t).

(** ** What a UDP tunnel delivers *)

Definition payload_of (raw : list Z) : option (list Z) :=
  match decode_payload raw with Ok (UdpPayload p) => Some p | _ => None end.
Definition arrivals (ops : list UdpOp) : list (list Z) := omap (λ o, match o with Arrive raw => Some raw | _ => None end) ops.

Lemma drain_spec queue :
  let '(p, rest) := drain queue in
  omap payload_of queue = option_list p ++ omap payload_of rest ∧ (p = None → rest = [] ∧ omap payload_of queue = []).
Proof.
  induction queue as [|raw queue IH]; [done|]. cbn [drain omap list_omap].
  assert (payload_of raw = match decode_payload raw with Ok (UdpPayload p) => Some p | _ => None end) as -> by done.
  destruct (decode_payload raw) as [[payload|c payload]|e]; [|exact IH..]. done.
Qed.

(** A poll takes payloads off the front of the queue, and answers that the tunnel is
    closed only if the queue held none. *)
Lemma recv_spec t :
  let '(r, t') := recv t in
  omap payload_of (inbound t) = omap id (option_list r) ++ omap payload_of (inbound t') ∧
  senders_gone t' = senders_gone t ∧
  (reader t' = reader t ∨ (reader t = Ended ∧ reader t' = Observed)) ∧
  (r = Some None → reader t = Ended ∨ reader t = Observed ∨ senders_gone t = true) ∧
  (r = None ∨ (r = Some None ∧ reader t ≠ Observed) → omap payload_of (inbound t) = []).
Proof.
  unfold recv. pose proof (drain_spec (inbound t)) as Hd. destruct (drain (inbound t)) as [p rest].
  destruct Hd as [Hd Hn]. destruct (reader t) eqn:Hr; [| |naive_solver].
  all: destruct p as [p|]; cbn [inbound senders_gone reader]; [split_and!; [done|done|by left|done|by intros [|[]]]|].
  all: destruct (Hn eq_refl) as [-> He]; rewrite He; destruct (senders_gone t); cbn [inbound senders_gone reader]; naive_solver.
Qed.

Lemma udp_ops_inv ops t r t' :
  udp_ops ops t = (r, t') →
  omap id r ++ omap payload_of (inbound t') = omap payload_of (inbound t ++ arrivals ops) ∧
  (senders_gone t' = true → senders_gone t = true ∨ SendersGone ∈ ops) ∧
  (reader t' ≠ Running → reader t ≠ Running ∨ StreamEnds ∈ ops).
Proof.
  revert t r t'. induction ops as [|o ops IH]; intros t r t'; cbn [udp_ops].
  { intros [= <- <-]. cbn. rewrite app_nil_r. auto. }
  destruct (udp_op t o) as [r1 t1] eqn:H1. destruct (udp_ops ops t1) as [r2 t2] eqn:H2. intros [= <- <-].
  apply IH in H2 as (Hp & Hs & Hr). rewrite omap_app, <- app_assoc, Hp, !omap_app, !elem_of_cons.
  destruct o as [raw| | |]; cbn [udp_op] in H1; cbn [arrivals omap list_omap].
  - injection H1 as <- <-. cbn [inbound senders_gone reader] in *. rewrite omap_app. cbn [omap list_omap app].
    split; [destruct (payload_of raw); by rewrite <- ?app_assoc|]. naive_solver.
  - injection H1 as <- <-. cbn [inbound senders_gone reader] in *. naive_solver.
  - injection H1 as <- <-. cbn [inbound senders_gone reader] in *. naive_solver.
  - pose proof (recv_spec t) as Hv. destruct (recv t) as [r tv]. injection H1 as <- <-.
    destruct Hv as (Hv & Hg & Hrd & _ & _). rewrite Hv, <- app_assoc. split; [done|]. split; [rewrite <- Hg; naive_solver|].
    intros Hne. destruct (Hr Hne) as [Ht|Ht]; [left; destruct Hrd as [<-|[-> _]]; done|right; by right].
Qed.

(** A UDP tunnel loses nothing it was given.  However arrivals, the end of the
    stream and the user's calls interleave: what [recv] returned, followed by what is
    still queued, is the payloads of the default context that arrived, in order; and
    [recv] says that the tunnel is closed only after the stream ended (or every
    sender is gone) and, the first time, when everything that had arrived was
    returned. *)
Theorem udp_tunnel_reads (ops : list UdpOp) (r : list (option (list Z))) (t : UdpTunnel) :
  udp_ops ops new_udp_tunnel = (r, t) →
  omap id r ++ omap payload_of (inbound t) = omap payload_of (arrivals ops) ∧
  ((recv t).1 = Some None → StreamEnds ∈ ops ∨ SendersGone ∈ ops) ∧
  ((recv t).1 = None ∨ ((recv t).1 = Some None ∧ reader t ≠ Observed) → omap id r = omap payload_of (arrivals ops)).
Proof.
  intros (Hp & Hs & Hr)%udp_ops_inv. cbn [new_udp_tunnel inbound senders_gone reader app] in *. split; [done|].
  pose proof (recv_spec t) as Hv. destruct (recv t) as [x t']. destruct Hv as (_ & _ & _ & Hc & He). cbn [fst]. split.
  - intros [Ht|[Ht|Ht]]%Hc; [left; destruct (Hr ltac:(congruence)); [done|done]..|right; by destruct (Hs Ht)].
  - intros Hn. rewrite (He Hn), app_nil_r in Hp. done.
Qed.

Lemma udp_tunnel_reads_witness :
  let ops := [Arrive [0; 7]; Arrive [4; 9]; StreamEnds; Recv; Arrive [0]; Recv] in
  udp_ops ops new_udp_tunnel = ([Some [7]; Some []], mkUdpTunnel [] false Ended) ∧
  omap id [Some [7]; Some []] = omap payload_of (arrivals ops).
Proof.
  intros ops. assert (udp_ops ops new_udp_tunnel = ([Some [7]; Some []], mkUdpTunnel [] false Ended)) as H by (by vm_compute).
  split; [exact H|]. apply (udp_tunnel_reads ops _ _ H). right. split; [reflexivity|done].
Defined.

(** ** What a bridge carries *)

(** What is still to come of a side: its chunks and then its end, or nothing. *)
Definition local_side (rest : option (list (list Z))) : list PumpEvent :=
  match rest with Some chunks => map (λ b, LocalData b true) chunks ++ [LocalEof true] | None => [] end.
Definition tunnel_side (rest : option (list (list Z))) : list PumpEvent :=
  match rest with Some chunks => map (λ b, TunnelData b true) chunks ++ [TunnelEof true] | None => [] end.
Definition readable (chunk : list Z) : Prop := chunk ≠ [] ∧ (length chunk ≤ READ_BUFFER)%nat.

(** The state of a bridge with [ru] and [rd] to come. *)
Definition bridging (ru rd : option (list (list Z))) (b : Bridge) : Prop :=
  up_done b = negb (is_some ru) ∧ down_done b = negb (is_some rd) ∧
  stream_finished b = negb (is_some ru) ∧ local_shut b = negb (is_some rd) ∧ bridge_failed b = false ∧
  Forall readable (default [] ru).

Lemma bridging_up chunk rest rd b :
  bridging (Some (chunk :: rest)) rd b →
  ∃ b', bridge_step (LocalData chunk true) b = (true, b') ∧ bridging (Some rest) rd b' ∧
    uploaded b' = uploaded b ++ chunk ∧ downloaded b' = downloaded b.
Proof.
  intros (Hu & Hd & Hs & Hl & Hf & [[Hne Hle] Hr]%Forall_cons). unfold bridge_step, pump_ready.
  rewrite Hu, bool_decide_eq_false_2, (proj2 (Nat.leb_le _ _)) by done. cbn [is_some negb andb].
  eexists. split; [reflexivity|]. by split_and!.
Qed.

Lemma bridging_down chunk rest ru b :
  bridging ru (Some (chunk :: rest)) b →
  ∃ b', bridge_step (TunnelData chunk true) b = (true, b') ∧ bridging ru (Some rest) b' ∧
    uploaded b' = uploaded b ∧ downloaded b' = downloaded b ++ chunk.
Proof.
  intros (Hu & Hd & Hs & Hl & Hf & Hr). unfold bridge_step, pump_ready. rewrite Hd. cbn [is_some negb].
  eexists. split; [reflexivity|]. by split_and!.
Qed.

Lemma bridging_up_eof rd b :
  bridging (Some []) rd b →
  ∃ b', bridge_step (LocalEof true) b = (is_some rd, b') ∧ bridging None rd b' ∧
    uploaded b' = uploaded b ∧ downloaded b' = downloaded b.
Proof.
  intros (Hu & Hd & Hs & Hl & Hf & Hr). unfold bridge_step, pump_ready. rewrite Hu. cbn [is_some negb].
  eexists. split; [rewrite Hd; by destruct rd|]. by split_and!.
Qed.

Lemma bridging_down_eof ru b :
  bridging ru (Some []) b →
  ∃ b', bridge_step (TunnelEof true) b = (is_some ru, b') ∧ bridging ru None b' ∧
    uploaded b' = uploaded b ∧ downloaded b' = downloaded b.
Proof.
  intros (Hu & Hd & Hs & Hl & Hf & Hr). unfold bridge_step, pump_ready. rewrite Hd. cbn [is_some negb].
  eexists. split; [rewrite Hu; by destruct ru|]. by split_and!.
Qed.

(** Both pumps to their ends, however they interleave. *)
Lemma bridging_run evs : ∀ ru rd b,
  interleaving (local_side ru) (tunnel_side rd) evs → bridging ru rd b → is_some ru || is_some rd = true →
  let '(used, go, b') := Relay.run bridge_step evs b in
  used = evs ∧ go = false ∧ bridging None None b' ∧
  uploaded b' = uploaded b ++ concat (default [] ru) ∧ downloaded b' = downloaded b ++ concat (default [] rd).
Proof.
  induction evs as [|e evs IH]; intros ru rd b Hi Hb Ho.
  { inversion Hi. destruct ru as [[]|], rd as [[]|]; done. }
  cbn [Relay.run]. inversion Hi as [|x xs ys zs Hi' Hx Hy|y xs ys zs Hi' Hx Hy]; subst.
  - destruct ru as [[|chunk rest]|]; [| |done]; injection Hx as Hx1 Hx2; subst.
    + destruct (bridging_up_eof rd b Hb) as (b' & -> & Hb' & Hu & Hd). destruct rd as [rd|]; cbn [is_some].
      * specialize (IH None (Some rd) b' Hi' Hb' eq_refl). destruct (Relay.run _ _ _) as [[used go] b''].
        rewrite <- Hu, <- Hd. naive_solver.
      * inversion Hi'. rewrite Hu, Hd. cbn. rewrite !app_nil_r. by destruct evs.
    + destruct (bridging_up chunk rest rd b Hb) as (b' & -> & Hb' & Hu & Hd).
      specialize (IH (Some rest) rd b' Hi' Hb' eq_refl). destruct (Relay.run _ _ _) as [[used go] b''].
      destruct IH as (-> & -> & ? & Hu' & Hd'). rewrite Hu', Hd', Hu, Hd. cbn. by rewrite <- app_assoc.
  - destruct rd as [[|chunk rest]|]; [| |done]; injection Hy as Hy1 Hy2; subst.
    + destruct (bridging_down_eof ru b Hb) as (b' & -> & Hb' & Hu & Hd). destruct ru as [ru|]; cbn [is_some].
      * specialize (IH (Some ru) None b' Hi' Hb' eq_refl). destruct (Relay.run _ _ _) as [[used go] b''].
        rewrite <- Hu, <- Hd. naive_solver.
      * inversion Hi'. rewrite Hu, Hd. cbn. rewrite !app_nil_r. by destruct evs.
    + destruct (bridging_down chunk rest ru b Hb) as (b' & -> & Hb' & Hu & Hd).
      specialize (IH ru (Some rest) b' Hi' Hb' ltac:(by destruct ru)). destruct (Relay.run _ _ _) as [[used go] b''].
      destruct IH as (-> & -> & ? & Hu' & Hd'). rewrite Hu', Hd', Hu, Hd. cbn. by rewrite <- app_assoc.
Qed.


Definition sample_pumps : list PumpEvent :=
  [LocalData [1; 2] true; TunnelData [9] true; LocalEof true; TunnelData [8] true; TunnelEof true].
Definition sample_relay : list (Z * TcpEvent) :=
  [(0, ClientData [1] true); (1, TargetBytes [9; 8] true); (2, ClientData [2] true); (3, TargetEof); (4, ClientEof)].
Definition sample_ceiling : TunnelLimits := mkTunnelLimits None None (Some 100) None.


(** ** Datagrams across a tunnel *)

Lemma omap_part {A B} (f : A → option B) (l k : list A) : l ⊆+ k → omap f l ⊆+ omap f k.
Proof.
  induction 1 as [|x l k _ IH|x y l|x l k _ IH|l1 l2 l3 _ IH1 _ IH2]; cbn [omap list_omap]; [done| | | |by etrans].
  - destruct (f x); [by apply submseteq_skip|done].
  - destruct (f x), (f y); try done. apply submseteq_swap.
  - destruct (f x); [by apply submseteq_cons|done].
Qed.

Lemma payload_of_wires (l : list (list Z)) : omap payload_of (omap encode_payload l) = l.
Proof.
  induction l as [|p l IH]; [done|]. cbn [omap list_omap].
  destruct (udp_payload_roundtrip 0 p) as [(wire & -> & _ & Hd) _]; [by vm_compute|]. cbn [omap list_omap].
  unfold payload_of at 1. rewrite Hd. cbn. by rewrite IH.
Qed.

(** The payloads the gateway took off a tunnel. *)
Definition taken_in (evs : list (Z * UdpEvent)) : list (list Z) :=
  omap (λ e, match e.2 with Inbound p _ => p | _ => None end) evs.

Lemma forwarded_taken evs : omap forwarded evs ⊆+ omap payload_of (taken_in evs).
Proof.
  induction evs as [|[at_time e] evs IH]; [done|]. unfold taken_in. cbn [omap list_omap snd forwarded].
  destruct e as [[raw|] sent|data sent| | |]; try exact IH. cbn [omap list_omap]. unfold payload_of at 1.
  unfold forwarded at 1. cbn [snd].
  destruct sent, (decode_payload raw) as [[p|c p]|]; try exact IH; [by apply submseteq_skip|by apply submseteq_cons].
Qed.

(** A UDP tunnel carries datagrams, and makes none up.  The network may lose and
    reorder the datagrams of a tunnel; what the client's user receives is then part
    of what the target sent to the gateway's socket, and what the target receives is
    part of what the user sent: no payload is altered, duplicated or invented on the
    way. *)
Theorem udp_end_to_end (idle : option Z) (lim : TunnelLimits) (meter : option str) (now : Z)
    (evs : list (Z * UdpEvent)) (ops : list UdpOp) (sent : list (list Z)) :
  let '(used, _, s) := relay idle lim meter evs now in
  let '(received, _) := udp_ops ops new_udp_tunnel in
  arrivals ops ⊆+ omap encode_payload (to_client s) → taken_in used ⊆+ omap encode_payload sent →
  omap id received ⊆+ omap replied used ∧ to_target s ⊆+ sent.
Proof.
  pose proof (udp_relay_exact idle lim meter evs now) as Hr. destruct (relay idle lim meter evs now) as [[used go] s].
  destruct Hr as (_ & Ht & Hc & _). destruct (udp_ops ops new_udp_tunnel) as [received t] eqn:Ho.
  apply udp_ops_inv in Ho as (Hp & _). cbn [new_udp_tunnel inbound app] in Hp. intros Ha Hs. split.
  - rewrite <- Hc, <- (payload_of_wires (to_client s)). etrans; [|by apply omap_part, Ha].
    rewrite <- Hp. by apply submseteq_inserts_r.
  - rewrite Ht, <- (payload_of_wires sent). etrans; [apply forwarded_taken|by apply omap_part].
Qed.

Lemma udp_end_to_end_witness :
  let evs := [(0, Inbound (Some [0; 5]) true); (1, TargetData [7] true); (2, TargetData [8] true)] in
  (omap id (udp_ops [Arrive [0; 8]; Recv; Arrive [0; 7]; Recv] new_udp_tunnel).1 : list (list Z)) ⊆+ [[7]; [8]] ∧
  to_target (relay None no_limits None evs 0).2 ⊆+ [[5]; [6]].
Proof.
  intros evs. destruct (udp_end_to_end None no_limits None 0 evs [Arrive [0; 8]; Recv; Arrive [0; 7]; Recv] [[5]; [6]])
    as [Hr Ht].
  - change ([[0; 8]; [0; 7]] ⊆+ [[0; 7]; [0; 8]]). apply Permutation_submseteq. constructor.
  - change ([[0; 5]] ⊆+ [[0; 5]; [0; 6]]). apply submseteq_skip, submseteq_nil_l.
  - split; [exact Hr|exact Ht].
Defined.

(** ** Changing the credential *)

Section rotation.
Context {HH : Headers} {HL : HeaderLaws}.
Context (debug : str → str) (debug_char : Z → str) (uri_build : str → str → str → bool).

(** A renewed credential is the one presented.  After [set_credential], the
    tunnels a session opens are read by the gateway as carrying the new token,
    whatever the session presented before. *)
Theorem rotated_credential_presented (s : str) (tpl : UriTemplate) (authority token : str) (hs hs' : HeaderMap)
    (t : Target) (client : SocketAddr) (sent got : Request) (udp : bool) :
  Template.parse s = Ok tpl → delimited (parts tpl) = true →
  (∀ n, n ∈ variables tpl ↔ n ∈ CONNECT_UDP_VARIABLES) → target_ok t →
  forallb is_visible token = true → set_credential token hs = Ok hs' →
  (if udp then udp_request uri_build tpl authority hs' t else tcp_request uri_build tpl hs' t) = Some sent →
  delivered sent got →
  ∃ tr, parse_request debug debug_char got tpl client = Ok tr ∧ bearer_token tr = Some token.
Proof.
  intros Hp Hd Hv Ht Htok Hset Hreq Hdel.
  destruct (client_request_parsed debug debug_char uri_build s tpl authority hs' t client sent got udp)
    as (tr & Htr & _ & _ & _ & Hh); [done..|].
  exists tr. split; [done|]. unfold bearer_token. unfold set_credential in Hset.
  destruct (hv_visible (of_string "Bearer " ++ token)) as (v & Hvs & Hvt); [by rewrite forallb_app, Htok|].
  rewrite Hvs in Hset. injection Hset as <-.
  rewrite (Hh (of_string "proxy-authorization") (of_string "Bearer " ++ token)); [|by_decide|].
  - cbn [mbind option_bind]. apply strip_prefix_app.
  - unfold header_text. rewrite hm_get_insert, bool_decide_eq_true_2 by done. exact Hvt.
Qed.
End rotation.
