(* ===== verification/PolicyCli.v ===== *)
(** * The policy commands

    Model of [crates/skimasque-cli/src/policy.rs], the commands that check, test,
    validate, compare and draft policies, and of the reload of a running gateway
    ([watch_and_reload] and [run_policy_reload] of
    [crates/skimasque-cli/src/bin/skimasque-server.rs]).

    Text written to the output is returned.  [debug] is the [Debug] form of a
    string, which quotes and escapes it; JSON decoding, files and the TOML and YAML
    readers are parameters. *)

From S2P Require Import Prelude RustStr RustNet Target PolicyDest PolicyUnits PolicyModel PolicyEval PolicyParse.
From S2P Require Import PolicyRender PolicyLearn PolicyChecks Service PolicyLayer StateDir.

(** ** Text *)

Definition writeln (s : str) : str := s ++ nl.

(** ** One request *)

Record IdentityArgs : Type := mkIdentityArgs {
  ia_organization : option str;
  ia_repository : option str;
  ia_workflow : option str;
  ia_git_ref : option str;
  ia_branch : option str;
  ia_environment : option str;
  ia_actor : option str;
  ia_kind : option WorkloadKind;
}.

Definition into_identity (a : IdentityArgs) : WorkloadIdentity :=
  let r := match ia_git_ref a with
           | Some r => Some r
           | None => (λ b, "refs/heads/" ++ b) <$> ia_branch a
           end in
  mkIdentity (ia_organization a) (ia_repository a) (ia_workflow a) r (ia_environment a) (ia_actor a) (ia_kind a)
    None None None.

Section commands.
Context (debug : str → str).

Definition display_destination_error (e : ParseDestinationError) : str :=
  match e with
  | PolicyDest.Empty input => debug input ++ " is empty"
  | PolicyDest.MissingPort input => debug input ++ " has no port; expected host:port"
  | PolicyDest.Malformed value reason => debug value ++ " is not a valid destination: " ++ reason
  | PolicyDest.BadPort port => "port " ++ debug port ++ " is not in 1..=65535"
  | PolicyDest.BadPrefix len family => "prefix length " ++ to_string len ++ " is too long for an " ++ family ++ " address"
  end.

Definition cli_evaluate (set : PolicySet) (policy_name : option str) (application : str) (t : Transport)
    (destination : str) (i : WorkloadIdentity) (requested_policy : option str) : result str Decision :=
  d ← map_err (λ _, "parsing the destination " ++ debug destination) (parse_destination destination);
  let ctx := mkContext i application t d requested_policy in
  match policy_name with
  | Some name => ok_or (evaluate_named set name ctx) ("no policy named " ++ debug name ++ " in the set")
  | None => Ok (evaluate set ctx)
  end.

(** ** The tests of a set *)

Definition detail_text (d : TestDetail) : str :=
  match d with
  | InvalidDestination e => "the test destination is invalid: " ++ display_destination_error e
  | Unexpected expected got => "expected " ++ action_as_str expected ++ ", got " ++ action_as_str got
  end.

Definition outcome_lines (o : TestOutcome) : str :=
  let mark : str := if passed o then "ok  " else "FAIL" in
  writeln ("  " ++ mark ++ " " ++ t_application (test o) ++ " -> " ++ t_destination (test o) ++
    "  (expect " ++ action_as_str (t_expect (test o)) ++ ")") ++
  match detail o with Some d => writeln ("       " ++ detail_text d) | None => [] end.

Definition policy_report (p : Policy) : str :=
  match run_tests p with
  | [] => []
  | outcomes => writeln (p_name p) ++ flat_map outcome_lines outcomes
  end.

Definition cli_run_tests (set : PolicySet) : bool * str :=
  let outcomes := flat_map run_tests set in
  let all_passed := forallb passed outcomes in
  (all_passed,
   flat_map policy_report set ++
   match outcomes with
   | [] => writeln "no [[tests]] in any policy"
   | _ =>
       writeln (nl ++ to_string (Z.of_nat (length outcomes)) ++ " assertions, " ++
         (if all_passed then of_string "all passed" else of_string "FAILURES"))
   end).

(** ** Drafting *)

Section learn.
(** [serde_json::from_str] for one observation and for an array of them. *)
Context (from_json : str → option Observation) (from_json_array : str → option (list Observation)).

Fixpoint parse_lines (n : nat) (ls : list str) : result str (list Observation) :=
  match ls with
  | [] => Ok []
  | l :: ls =>
      if bool_decide (trim l = []) then parse_lines (S n) ls
      else
        o ← ok_or (from_json l) ("parsing observation on line " ++ to_string (Z.of_nat (S n)));
        os ← parse_lines (S n) ls;
        Ok (o :: os)
  end.

Definition parse_observations (text : str) : result str (list Observation) :=
  let trimmed := trim_start text in
  if starts_with "[" trimmed then
    ok_or (from_json_array trimmed) (of_string "parsing the observations as a JSON array")
  else parse_lines 0 (lines text).

Definition skipped_line (s : Observation * ParseDestinationError) : str :=
  "# skipped " ++ debug (o_destination s.1) ++ ": " ++ display_destination_error s.2.

(** The lines above the drafted policy. *)
Definition learn_header (observations : list Observation) (s : Suggestion) : list str :=
  ("# generated by `skimasque policy learn` from " ++ to_string (Z.of_nat (length observations)) ++ " observation(s)") ::
  of_string "# review before committing: an observed destination is not a trusted one" ::
  map skipped_line (skipped s).

(** [read] is the outcome of [read_to_string]; an error of [suggest_policy] stands
    for a panic. *)
Definition learn (read : option str) (path name : str) (i : WorkloadIdentity) : result str str :=
  text ← ok_or read ("reading " ++ path);
  observations ← parse_observations text;
  match observations with
  | [] => Err ("no observations in " ++ path)
  | _ =>
      s ← map_err (λ _, of_string "panic") (suggest_policy name i observations);
      Ok (flat_map writeln (learn_header observations s) ++ nl ++ to_toml (policy s))
  end.
End learn.

(** ** Validating files *)

Section validate.
Context {TomlError YamlError : Type}.
Context (toml : str → result TomlError RawPolicy) (yaml : str → result YamlError YamlDoc).
Context (display_parse_error : @ParseError TomlError YamlError → str).

(** One file: its name, and its text or why it could not be read. *)
Definition check_file (f : str * result str str) : result str Policy :=
  text ← f.2;
  map_err display_parse_error (from_named_document toml yaml f.1 text).

Definition file_report (f : str * result str str) : str :=
  match check_file f with
  | Ok p =>
      writeln ("ok    " ++ f.1 ++ " (" ++ p_name p ++ ")") ++
      flat_map (λ l, writeln ("warn  " ++ f.1 ++ " [" ++ lint_as_str (code l) ++ "]: " ++ message l)) (lints p)
  | Err e => writeln ("ERROR " ++ f.1 ++ ": " ++ e)
  end.

Definition linted (f : str * result str str) : bool :=
  match check_file f with Ok p => negb (bool_decide (lints p = [])) | Err _ => false end.

Definition validate (files : list (str * result str str)) (strict : bool) : bool * str :=
  let ok := forallb (λ f, is_ok (check_file f)) files in
  let warned := existsb linted files in
  let report := flat_map file_report files in
  if warned && strict then
    (false, report ++ writeln (nl ++ "--strict: treating the warnings above as failures"))
  else (ok, report).
End validate.

(** ** Comparing two sets *)

#[local] Instance Rate_eq_dec : EqDecision Rate.
Proof. solve_decision. Defined.
#[local] Instance Limits_eq_dec : EqDecision Limits.
Proof. solve_decision. Defined.
#[local] Instance SessionSpec_eq_dec : EqDecision SessionSpec.
Proof. solve_decision. Defined.

Definition rule_app (a : AppPattern) : str := match a with AnyApp => "*" | AppName name => name end.

Definition rule_line (a : Action) (app : AppPattern) (t : TransportPattern) (d : DestinationSpec) : str :=
  action_as_str a ++ " " ++ rule_app app ++ " " ++
  match as_word t with Some w => w ++ " " | None => [] end ++ raw d.

Definition rule_lines (p : Policy) : list str :=
  flat_map (λ r, map (rule_line (action r) (application r) (transport r)) (destinations r)) (rules p).

(** [names.sort_unstable(); names.dedup()]. *)
Fixpoint dedup_names (l : list str) : list str :=
  match l with
  | [] => []
  | a :: l =>
      match dedup_names l with
      | b :: l' => if bool_decide (a = b) then b :: l' else a :: b :: l'
      | [] => [a]
      end
  end.
Definition diff_names (old new : PolicySet) : list str :=
  dedup_names (sort_by str_le (map p_name (old ++ new))).

Definition missing_from (have : list str) (l : list str) : list str :=
  List.filter (λ s, negb (bool_decide (s ∈ have))) l.

Definition diff_policy (name : str) (before after : Policy) : list str :=
  map (λ r, "  " ++ name ++ ": + " ++ r) (missing_from (rule_lines before) (rule_lines after)) ++
  map (λ r, "  " ++ name ++ ": - " ++ r) (missing_from (rule_lines after) (rule_lines before)) ++
  (if bool_decide (limits before = limits after) && bool_decide (session before = session after) then []
   else ["  " ++ name ++ ": ~ limits or session changed"]).

(** A name that is in neither set is the [unreachable!]. *)
Definition diff_name (old new : PolicySet) (name : str) : list str :=
  match get old name, get new name with
  | None, Some _ => ["+ policy " ++ name]
  | Some _, None => ["- policy " ++ name]
  | Some before, Some after => diff_policy name before after
  | None, None => []
  end.

Definition diff (old new : PolicySet) : str := flat_map writeln (flat_map (diff_name old new) (diff_names old new)).
End commands.

(** ** Where policies are read from *)

Record Meta : Type := mkMeta { mtime : option Z; len : Z }.
(** The files as a call sees them: [metadata], the paths of a directory, and
    [read_to_string]. *)
Record Files : Type := mkFiles {
  stat : str → option Meta;
  read_dir : str → option (list str);
  read_text : str → option str;
}.

(** [Path::file_name]: the last component, unless it is [..]. *)
Definition file_name (path : str) : option str :=
  c ← last (List.filter (λ c, negb (bool_decide (c = [])) && negb (str_eqb c ".")) (split 47 path));
  if str_eqb c ".." then None else Some c.
Definition display_name (path : str) : str := default path (file_name path).
Definition is_policy_path (path : str) : bool := default false (is_policy_file <$> file_name path).

Definition Fingerprint : Type := list (str * option Z * option Z).
Definition fingerprint_of (files : Files) (paths : list str) : Fingerprint :=
  map (λ path, (path, stat files path ≫= mtime, len <$> stat files path)) (sort_by str_le paths).

Inductive SourceSpec : Type :=
  | SourceDir (dir : str)
  | SourceFiles (files : list str).

Definition from_args (policy_dir : option str) (policy_files : list str) : option SourceSpec :=
  match policy_dir, policy_files with
  | Some dir, _ => Some (SourceDir dir)
  | None, _ :: _ => Some (SourceFiles policy_files)
  | None, [] => None
  end.

Definition describe (s : SourceSpec) : str :=
  match s with SourceDir dir => dir | SourceFiles files => join_names files end.

Definition fingerprint (s : SourceSpec) (files : Files) : Fingerprint :=
  fingerprint_of files
    match s with
    | SourceDir dir => List.filter is_policy_path (default [] (read_dir files dir))
    | SourceFiles paths => paths
    end.

Section source.
Context {TomlError YamlError : Type}.
Context (toml : str → result TomlError RawPolicy) (yaml : str → result YamlError YamlDoc).

Record Loaded : Type := mkLoaded { set : PolicySet; sources : list str }.

Definition load_paths (files : Files) (paths : list str) : result str Loaded :=
  documents ← traverse (λ path,
    text ← ok_or (read_text files path) ("reading " ++ path);
    Ok (display_name path, text)) paths;
  set ← map_err (λ _, of_string "loading the policy set") (from_documents toml yaml documents);
  Ok (mkLoaded set paths).

Definition load_directory (files : Files) (dir : str) : result str Loaded :=
  entries ← ok_or (read_dir files dir) ("reading the policy directory " ++ dir);
  match sort_by str_le (List.filter is_policy_path entries) with
  | [] => Err ("no .toml/.yaml policy files in " ++ dir)
  | paths => load_paths files paths
  end.

Definition load (s : SourceSpec) (files : Files) : result str Loaded :=
  match s with
  | SourceDir dir => load_directory files dir
  | SourceFiles paths => load_paths files paths
  end.

(** ** Reloading

    [watch_and_reload] as [run_policy_reload] calls it.  A turn is a timer tick or
    a hangup signal ([forced]); the fingerprint is taken from the files as they are
    then, and the policies are read from the files as they are a little later. *)

Record Watch : Type := mkWatch { current : Fingerprint; enforced : PolicySet }.
Record Look : Type := mkLook { forced : bool; seen : Files; read : Files }.

Definition watch_turn (s : SourceSpec) (w : Watch) (l : Look) : Watch :=
  let next := fingerprint s (seen l) in
  if negb (forced l) && bool_decide (next = current w) then w
  else match load s (read l) with
       | Ok loaded => mkWatch next (set loaded)
       | Err _ => w
       end.

Definition run_policy_reload (s : SourceSpec) (looks : list Look) (w : Watch) : Watch :=
  fold_left (watch_turn s) looks w.
End source.

(** ** What a running gateway enforces *)

Section reload.
Context {TomlError YamlError : Type}.
Context (toml : str → result TomlError RawPolicy) (yaml : str → result YamlError YamlDoc).
Context (s : SourceSpec).
(** The files over time, and when each turn looks at them. *)
Context (files : nat → Files).

Record Tick : Type := mkTick { hangup : bool; seen_at : nat; read_at : nat }.
Definition look (t : Tick) : Look := mkLook (hangup t) (files (seen_at t)) (files (read_at t)).

Fixpoint in_order (now : nat) (ticks : list Tick) : Prop :=
  match ticks with
  | [] => True
  | t :: ticks => (now ≤ seen_at t)%nat ∧ (seen_at t ≤ read_at t)%nat ∧ in_order (read_at t) ticks
  end.

(** Files whose fingerprint is one seen before were not changed in between: an edit
    moves a length or a modification time, and never back. *)
Definition edits_show : Prop := ∀ i j k, (i ≤ j ≤ k)%nat →
  fingerprint s (files i) = fingerprint s (files k) → load toml yaml s (files j) = load toml yaml s (files k).

(** The fingerprint kept was seen before the policies in force were read, and both
    before [now]. *)
Definition in_force_at (now : nat) (w : Watch) : Prop :=
  ∃ i j, (i ≤ j ≤ now)%nat ∧ current w = fingerprint s (files i) ∧
    set <$> load toml yaml s (files j) = Ok (enforced w).

Lemma watch_turn_in_force now w t :
  in_force_at now w → (now ≤ seen_at t)%nat → (seen_at t ≤ read_at t)%nat →
  in_force_at (read_at t) (watch_turn toml yaml s w (look t)).
Proof.
  intros (i & j & Hij & Hc & He) H1 H2. unfold watch_turn, look. cbn [forced seen read].
  destruct (negb _ && _); [exists i, j; split; [lia|done]|].
  destruct (load toml yaml s (files (read_at t))) as [l|] eqn:Hl; [|exists i, j; split; [lia|done]].
  exists (seen_at t), (read_at t). split; [lia|]. split; [done|]. by rewrite Hl.
Qed.

Lemma reload_in_force now w ticks :
  in_force_at now w → in_order now ticks →
  ∃ last, (now ≤ last)%nat ∧ (∀ t, in_order now (ticks ++ [t]) → (last ≤ seen_at t ∧ seen_at t ≤ read_at t)%nat) ∧
    in_force_at last (run_policy_reload toml yaml s (map look ticks) w).
Proof.
  revert now w. induction ticks as [|t ticks IH]; intros now w Hw Ho; cbn [map run_policy_reload fold_left].
  - exists now. split; [lia|]. split; [|done]. intros t. cbn. tauto.
  - destruct Ho as (H1 & H2 & Ho).
    destruct (IH (read_at t) (watch_turn toml yaml s w (look t))) as (last & Hl & Hnext & Hf);
      [by eapply watch_turn_in_force|done|].
    exists last. split; [lia|]. split; [|done]. intros t' (_ & _ & Ho'). by apply Hnext.
Qed.

End reload.

(** A second file appears at instant 2. *)
Definition policy_paths (both : bool) : list str :=
  of_string "p/guard.toml" :: (if both then [of_string "p/web.yaml"] else []).
Definition sample_files (both : bool) : Files :=
  mkFiles (λ path, if bool_decide (path ∈ policy_paths both) then Some (mkMeta (Some 1) 5) else None)
    (λ _, Some (policy_paths both))
    (λ path, if bool_decide (path = of_string "p/guard.toml") then Some (of_string "guard") else Some (of_string "web")).
Definition files_at (n : nat) : Files := sample_files (2 <=? n)%nat.
Definition sample_source : SourceSpec := SourceDir (of_string "p").
Definition names_of (r : result str Loaded) : list str := match r with Ok l => map p_name (set l) | Err _ => [] end.

Lemma sample_edits_show : edits_show sample_toml sample_yaml sample_source files_at.
Proof.
  intros i j k Hijk. unfold files_at.
  destruct (2 <=? i)%nat eqn:Hi, (2 <=? j)%nat eqn:Hj, (2 <=? k)%nat eqn:Hk; try done;
    rewrite ?Nat.leb_le, ?Nat.leb_gt in *; lia || by vm_compute.
Qed.

Definition loaded_at (both : bool) : Loaded :=
  match load sample_toml sample_yaml sample_source (sample_files both) with Ok l => l | Err _ => mkLoaded [] [] end.


(** The condition that no file changes between the load at start-up and the first
    fingerprint is needed: such an edit is not noticed until another one, or a
    hangup. *)
Lemma startup_edit_missed (n : nat) :
  run_policy_reload sample_toml sample_yaml sample_source (repeat (look files_at (mkTick false 2 2)) n)
    (mkWatch (fingerprint sample_source (files_at 2)) (set (loaded_at false))) =
  mkWatch (fingerprint sample_source (files_at 2)) (set (loaded_at false)) ∧
  names_of (load sample_toml sample_yaml sample_source (files_at 2)) ≠ map p_name (set (loaded_at false)).
Proof.
  split; [|by vm_compute]. induction n as [|n IH]; [done|]. cbn [repeat run_policy_reload fold_left]. exact IH.
Qed.

(** ** What the commands tell *)


Lemma policy_test_outcome p i t :
  tests p !! i = Some t →
  ∃ o, run_tests p !! i = Some o ∧ test o = t ∧
    (passed o = true ↔ ∃ d, parse_destination (t_destination t) = Ok d ∧
       ∀ w pin, decision_action (policy_evaluate p
         (mkContext w (t_application t) (test_transport t) d pin)) = t_expect t).
Proof. intros Ht. destruct (policy_tests_exact p i t Ht) as (o & ? & ? & ? & _). eauto. Qed.

(** [policy test] succeeds exactly when, in every policy of the set, every test
    names a destination and the rules give what it expects, whatever the
    workload. *)
Theorem cli_tests_exact (debug : str → str) (set : PolicySet) :
  (cli_run_tests debug set).1 = true ↔
  ∀ p t, p ∈ set → t ∈ tests p → ∃ d, parse_destination (t_destination t) = Ok d ∧
    ∀ w pin, decision_action (policy_evaluate p (mkContext w (t_application t) (test_transport t) d pin)) = t_expect t.
Proof.
  unfold cli_run_tests. cbn [fst]. rewrite forallb_forall. setoid_rewrite in_flat_map. split.
  - intros Hall p t Hp Ht. apply list_elem_of_lookup in Ht as [i Hi].
    destruct (policy_test_outcome p i t Hi) as (o & Ho & _ & Hpass). apply Hpass, Hall.
    exists p. split; [by apply list_elem_of_In|]. apply list_elem_of_In. by eapply list_elem_of_lookup_2.
  - intros Hall o (p & Hp & Ho). apply list_elem_of_In in Hp, Ho.
    apply list_elem_of_lookup in Ho as [i Hi].
    assert (is_Some (tests p !! i)) as [t Ht].
    { unfold run_tests in Hi. rewrite list_lookup_fmap in Hi. destruct (tests p !! i); [done|]. by cbn in Hi. }
    destruct (policy_test_outcome p i t Ht) as (o' & Ho' & _ & Hpass).
    rewrite Hi in Ho'. injection Ho' as <-. apply Hpass, Hall; [done|]. by eapply list_elem_of_lookup_2.
Qed.

(** [policy validate] succeeds exactly when every file is read and parses and, if
    asked to be strict, none of the policies is linted. *)
Theorem validate_exact {TomlError YamlError : Type} (toml : str → result TomlError RawPolicy)
    (yaml : str → result YamlError YamlDoc) (display : @ParseError TomlError YamlError → str)
    (files : list (str * result str str)) (strict : bool) :
  (validate toml yaml display files strict).1 = true ↔
  ∀ name read, (name, read) ∈ files → ∃ text p, read = Ok text ∧ from_named_document toml yaml name text = Ok p ∧
    (strict = true → lints p = []).
Proof.
  assert (∀ f, (∃ p, check_file toml yaml display f = Ok p) ↔
    ∃ text p, f.2 = Ok text ∧ from_named_document toml yaml f.1 text = Ok p) as Hc.
  { intros [name [text|e]]; unfold check_file; cbn [fst snd mbind result_mbind result_bind].
    - destruct (from_named_document toml yaml name text) as [p|] eqn:Hp; cbn; [naive_solver|].
      split; [by intros [? ?]|]. intros (? & ? & [= <-] & ?). congruence.
    - split; [by intros [? ?]|naive_solver]. }
  unfold validate. destruct (existsb _ files && strict) eqn:Hw; cbn [fst].
  - split; [done|]. intros Hall. exfalso. apply andb_prop in Hw as [Hw ->].
    apply existsb_exists in Hw as ([name read] & Hin%list_elem_of_In & Hl).
    destruct (Hall _ _ Hin) as (text & p & -> & Hp & Hlint). unfold linted, check_file in Hl. cbn in Hl.
    rewrite Hp in Hl. cbn in Hl. rewrite (Hlint eq_refl) in Hl. done.
  - rewrite forallb_forall. split.
    + intros Hall name read Hin. specialize (Hall (name, read)). rewrite <- list_elem_of_In in Hall.
      specialize (Hall Hin). destruct (check_file toml yaml display (name, read)) as [p|] eqn:Hp; [|done].
      destruct (proj1 (Hc (name, read)) (ex_intro _ p Hp)) as (text & p' & Hr & Hp'). cbn in Hr, Hp'. subst read.
      exists text, p'. split; [done|]. split; [done|]. intros ->. rewrite andb_true_r in Hw.
      destruct (lints p') eqn:Hl; [done|]. exfalso. rewrite <- not_true_iff_false in Hw. apply Hw.
      apply existsb_exists. exists (name, Ok text). split; [by apply list_elem_of_In|].
      unfold linted, check_file. cbn. rewrite Hp'. cbn. by rewrite Hl.
    + intros Hall [name read] Hin%list_elem_of_In. destruct (Hall _ _ Hin) as (text & p & -> & Hp & _).
      unfold check_file. cbn. by rewrite Hp.
Qed.

(** ** What a silent comparison means *)

(** One line of a rule: its action, application, transport and a destination. *)
Abbreviation grant := (Action * AppPattern * TransportPattern * DestinationSpec)%type.
Definition grants_of (p : Policy) : list grant :=
  flat_map (λ r, map (λ d, (action r, application r, transport r, d)) (destinations r)) (rules p).
Definition grant_line (g : grant) : str := rule_line g.1.1.1 g.1.1.2 g.1.2 g.2.

Lemma rule_lines_grants p : rule_lines p = map grant_line (grants_of p).
Proof.
  unfold rule_lines, grants_of. induction (rules p) as [|r rs IH]; [done|].
  cbn [flat_map]. by rewrite map_app, IH, map_map.
Qed.

(** A line says what it grants if its parts hold no space. *)
Definition plain_grant (g : grant) : Prop :=
  32 ∉ rule_app g.1.1.2 ∧ g.1.1.2 ≠ AppName "*" ∧ 32 ∉ raw g.2 ∧ parse_spec (raw g.2) = Ok g.2.

Lemma split_grant_line g :
  plain_grant g →
  split 32 (grant_line g) =
    [action_as_str g.1.1.1; rule_app g.1.1.2] ++ option_list (as_word g.1.2) ++ [raw g.2].
Proof.
  destruct g as [[[a ap] t] d]. intros (Happ & _ & Hraw & _). cbn [fst snd] in *. unfold grant_line, rule_line.
  cbn [fst snd]. change (of_string " ") with [32]. cbn [app].
  rewrite split_app by (destruct a; by apply (bool_decide_eq_true_1 _)).
  rewrite split_app by done. unfold option_list.
  destruct t; cbn [as_word default]; [by rewrite split_none| |];
    rewrite <- app_assoc; cbn [app]; (rewrite split_app by (by apply (bool_decide_eq_true_1 _)));
    by rewrite split_none.
Qed.

Lemma grant_line_inj g g' : plain_grant g → plain_grant g' → grant_line g = grant_line g' → g = g'.
Proof.
  intros Hg Hg' Heq. pose proof (split_grant_line g Hg) as H. rewrite Heq, (split_grant_line g' Hg') in H.
  destruct g as [[[a ap] t] d], g' as [[[a' ap'] t'] d']. destruct Hg as (_ & Hs & _ & Hp), Hg' as (_ & Hs' & _ & Hp').
  cbn [fst snd app] in *. injection H as Ha Happ H.
  assert (a = a') as -> by (by destruct a, a').
  assert (ap = ap') as ->.
  { destruct ap, ap'; cbn [rule_app] in Happ; subst; done. }
  assert (t = t' ∧ raw d = raw d') as [-> Hr] by (destruct t, t'; cbn in H; by injection H).
  rewrite Hr in Hp. congruence.
Qed.

Definition grants (ctx : RequestContext) (g : grant) : bool :=
  app_matches g.1.1.2 (c_application ctx) && transport_matches g.1.2 (c_transport ctx) &&
  spec_matches g.2 (destination ctx).

Lemma applies_grants p ctx :
  Exists (λ r, applies r ctx = true) (rules p) ↔ Exists (λ g, grants ctx g = true) (grants_of p).
Proof.
  unfold grants_of. induction (rules p) as [|r rs IH]; cbn [flat_map]; [by rewrite !Exists_nil|].
  rewrite Exists_cons, Exists_app, IH. apply or_iff_compat_r.
  unfold applies, covers, grants. rewrite Exists_exists.
  rewrite andb_true_iff, existsb_exists. split.
  - intros (Hc & d & Hd & Hm). exists (action r, application r, transport r, d). cbn [fst snd].
    split; [|by rewrite Hc, Hm]. apply list_elem_of_In, in_map_iff. eauto.
  - intros (g & Hg & Hm). apply list_elem_of_In, in_map_iff in Hg as (d & <- & Hd). cbn [fst snd] in Hm.
    apply andb_prop in Hm as [Hc Hm]. eauto.
Qed.

Lemma missing_from_nil have l : missing_from have l = [] ↔ ∀ x, x ∈ l → x ∈ have.
Proof.
  unfold missing_from. induction l as [|y l IH]; cbn [List.filter].
  - split; [by intros _ x []%elem_of_nil|done].
  - case_bool_decide as Hy; cbn [negb].
    + rewrite IH. set_solver.
    + split; [done|]. set_solver.
Qed.

Lemma dedup_names_elem l x : x ∈ dedup_names l ↔ x ∈ l.
Proof.
  induction l as [|a l IH]; [done|]. cbn [dedup_names]. rewrite elem_of_cons, <- IH.
  destruct (dedup_names l) as [|b l']; [set_solver|].
  case_bool_decide; [|by rewrite elem_of_cons]. subst. rewrite !elem_of_cons. tauto.
Qed.

Lemma diff_names_elem old new x : x ∈ diff_names old new ↔ x ∈ map p_name old ∨ x ∈ map p_name new.
Proof. unfold diff_names. rewrite dedup_names_elem, sort_by_perm, map_app. apply elem_of_app. Qed.

Lemma get_None_names ps name : get ps name = None ↔ name ∉ map p_name ps.
Proof.
  unfold get. induction ps as [|p ps IH]; cbn [List.find map]; [split; [intros _; apply not_elem_of_nil|done]|].
  rewrite not_elem_of_cons. unfold str_eqb at 1. case_bool_decide; [naive_solver|]. rewrite IH. naive_solver.
Qed.

Definition allow_only (p : Policy) : Prop := Forall (λ r, action r = Allow) (rules p) ∧ Forall plain_grant (grants_of p).

Lemma diff_policy_nil name p q :
  allow_only p → allow_only q → diff_policy name p q = [] →
  limits p = limits q ∧ session p = session q ∧
  ∀ ctx, is_allow (policy_evaluate p ctx) = is_allow (policy_evaluate q ctx).
Proof.
  intros [Hp Hgp] [Hq Hgq] H. unfold diff_policy in H.
  apply app_nil in H as [H1%map_eq_nil H]. apply app_nil in H as [H2%map_eq_nil H3].
  rewrite missing_from_nil in H1, H2. rewrite !rule_lines_grants in H1, H2.
  assert (∀ P Q : list grant, Forall plain_grant P → Forall plain_grant Q →
    (∀ x, x ∈ map grant_line P → x ∈ map grant_line Q) → ∀ g, g ∈ P → g ∈ Q) as Hback.
  { intros P Q HP HQ HPQ g Hg. specialize (HPQ (grant_line g)).
    rewrite !list_elem_of_In, !in_map_iff in HPQ. destruct HPQ as (g' & Hl & Hg').
    - exists g. split; [done|]. by apply list_elem_of_In.
    - apply list_elem_of_In in Hg'. rewrite Forall_forall in HP, HQ.
      by rewrite <- (grant_line_inj g' g) by auto. }
  case_bool_decide; [|done]. case_bool_decide; [|done]. split; [done|]. split; [done|]. intros ctx.
  apply eq_true_iff_eq. unfold policy_evaluate.
  rewrite !all_allow_evaluate, !applies_grants, !Exists_exists by done.
  split; intros (g & Hg & Hm); exists g; (split; [|done]); by eapply Hback; [| | |exact Hg].
Qed.

(** A comparison that prints nothing means nothing was granted or taken away.
    If [policy diff] of two sets whose policies only hold allow rules, with
    applications and destinations that contain no space, has no output, the sets
    name the same policies, and each of them allows exactly the same requests and
    has the same limits and session in both. *)
Theorem silent_diff_same_grants (old new : PolicySet) :
  Forall allow_only old → Forall allow_only new → diff old new = [] →
  ∀ name,
  match get old name, get new name with
  | Some p, Some q => limits p = limits q ∧ session p = session q ∧
      ∀ ctx, is_allow (policy_evaluate p ctx) = is_allow (policy_evaluate q ctx)
  | None, None => True
  | _, _ => False
  end.
Proof.
  intros Hold Hnew H name. unfold diff in H.
  assert (flat_map (diff_name old new) (diff_names old new) = []) as Hn.
  { destruct (flat_map (diff_name old new) _) as [|l ls]; [done|]. cbn [flat_map] in H.
    apply app_nil in H as [H _]. apply app_nil in H as [_ H]. discriminate H. }
  assert (∀ x, x ∈ diff_names old new → diff_name old new x = []) as Hall.
  { intros x Hx. apply list_elem_of_In in Hx. apply in_split in Hx as (l1 & l2 & Hx). rewrite Hx, flat_map_app in Hn.
    cbn in Hn. apply app_nil in Hn as [_ Hn]. by apply app_nil in Hn as [Hn _]. }
  assert (∀ ps p, Forall allow_only ps → get ps name = Some p → allow_only p) as Hget.
  { intros ps p Hps Hg. unfold get in Hg. apply find_some in Hg as [Hin%list_elem_of_In _].
    rewrite Forall_forall in Hps. by apply Hps. }
  destruct (get old name) as [p|] eqn:Hp, (get new name) as [q|] eqn:Hq; [| | |done].
  1: apply (diff_policy_nil name); [by apply (Hget old)|by apply (Hget new)|].
  all: assert (name ∈ diff_names old new) as Hin
    by (apply diff_names_elem; destruct (decide (name ∈ map p_name old)) as [?|Hn1%get_None_names];
        [by left|]; destruct (decide (name ∈ map p_name new)) as [?|Hn2%get_None_names]; [by right|congruence]).
  all: specialize (Hall name Hin); unfold diff_name in Hall; rewrite Hp, Hq in Hall; done.
Qed.

(** ** A drafted policy, from the observations to the gateway *)

(** A reader that skips comments: lines that start with [#] and hold no control
    character. *)
Definition comment (l : str) : Prop := starts_with "#" l = true ∧ clean l.
Class CommentedReader {E : Type} (toml : str → result E RawPolicy) : Prop :=
  skips_comments ls text : Forall comment ls → toml (flat_map writeln ls ++ nl ++ text) = toml text.

(** What the entries collected from observations satisfy. *)
Definition entry_ok (e : PolicyLearn.key * list str) : Prop :=
  e.2 ≠ [] ∧ clean e.1.1 ∧ ∀ t, t ∈ e.2 → ∃ d, dest_ok d ∧ t = display_destination d.

Lemma clean_app a b : clean a → clean b → clean (a ++ b).
Proof. apply Forall_app_2. Qed.
Ltac clean_text := repeat apply clean_app; first [done | by apply forallb_clean].

Lemma display_clean d : dest_ok d → clean (display_destination d).
Proof.
  intros Hd. apply Forall_forall. intros c Hc. unfold clean_char.
  destruct (decide (45 ≤ c < 127 ∧ c ≠ 47)) as [[H _]|H].
  - apply orb_true_iff. right. apply andb_true_intro. split; [lia|]. apply negb_true_iff. lia.
  - by destruct (display_not_in d c Hd H).
Qed.

Lemma entry_insert_ok k d m :
  clean k.1 → dest_ok d → Forall entry_ok m → Forall entry_ok (entry_insert k (display_destination d) m).
Proof.
  intros Hk Hd. assert (entry_ok (k, [display_destination d])) as Hnew.
  { split; [done|]. split; [done|]. intros t ->%list_elem_of_singleton. eauto. }
  induction 1 as [|[k' ds] m He Hm IH]; cbn [entry_insert]; [by constructor|].
  destruct (key_compare k k'); [| |by constructor]; constructor; [|done|done|by constructor].
  destruct He as (Hne & Hc & Ht). split; [|split; [done|]].
  - destruct ds as [|y ds]; [done|]. cbn. by destruct (str_compare _ _).
  - intros t Hin. cbn [snd] in Hin. apply set_insert_elem in Hin as [->|Hin]; eauto.
Qed.

Lemma observed_entries_ok obs acc :
  Forall (λ o, clean (o_application o)) obs → Forall entry_ok acc.2 → Forall entry_ok (fold_left observe obs acc).2.
Proof.
  intros Ho. revert acc. induction Ho as [|o obs Hc Ho IH]; intros [sk m] Hm; [done|].
  cbn [fold_left]. apply IH. unfold observe. destruct (parse_destination (o_destination o)) as [d|] eqn:Hd; [|done].
  apply parse_destination_valid in Hd. by apply entry_insert_ok.
Qed.

Lemma draft_rule_ok e r :
  entry_ok e → draft_rule e = Ok r →
  rule_ok r ∧ action r = Allow ∧
  Forall clean (option_list (rule_id r) ++ [app_text (application r)] ++ map raw (destinations r)).
Proof.
  destruct e as [[ap tp] texts]. intros (Hne & Hc & Ht). cbn [fst snd] in *. unfold draft_rule.
  destruct (traverse parse_spec texts) as [ds|] eqn:Hds; [|done]. intros [= <-].
  cbn [destinations application rule_id action option_list].
  apply traverse_Ok in Hds.
  assert (Forall (λ d, parse_spec (raw d) = Ok d ∧ clean (raw d)) ds) as Hall.
  { clear Hne. induction Hds as [|t d texts ds Hd Hds IH]; [done|].
    destruct (Ht t ltac:(left)) as (dest & Hok & ->). constructor; [|apply IH; intros x Hx; apply Ht; by right].
    rewrite spec_of_display in Hd by done. injection Hd as <-. cbn [raw].
    split; [by apply spec_of_display|by apply display_clean]. }
  unfold rule_ok. cbn [destinations application]. split; [split_and!|split; [done|]].
  - intros ->. apply Forall2_nil_inv_r in Hds. done.
  - eapply Forall_impl; [exact Hall|]. by intros d [? _].
  - unfold draft_app. destruct (_ || _) eqn:E; [done|]. apply orb_false_iff in E as [_ E%str_eqb_neq]. congruence.
  - constructor; [|constructor].
    + unfold draft_id. destruct (as_word tp) as [w|] eqn:Hw.
      * assert (clean w) by (destruct tp; try done; injection Hw as <-; by apply forallb_clean).
        case_bool_decide; clean_text.
      * case_bool_decide; clean_text.
    + unfold draft_app. destruct (_ || _); [by apply forallb_clean|done].
    + apply Forall_forall. intros x (d & -> & Hin)%list_elem_of_fmap.
      rewrite Forall_forall in Hall. by apply Hall.
Qed.

(** The reasons a parser gives are plain text. *)
Definition plain_error (e : ParseDestinationError) : Prop :=
  match e with
  | PolicyDest.Malformed _ reason => clean reason
  | PolicyDest.BadPrefix len family => 0 ≤ len ∧ clean family
  | _ => True
  end.

Lemma parse_error_plain input e : parse_destination input = Err e → plain_error e.
Proof.
  unfold parse_destination. case_bool_decide; [by intros [= <-]|].
  destruct (split_host_port _) as [[h p]|]; cbn [ok_or mbind result_mbind result_bind]; [|by intros [= <-]].
  destruct (nonzero_port p); cbn [ok_or mbind result_mbind result_bind]; [|by intros [= <-]].
  unfold parse_host_literal. case_bool_decide; [intros [= <-]; by apply forallb_clean|].
  destruct (parse_ip _); [done|]. destruct (existsb _ _); [|done]. intros [= <-]. by apply forallb_clean.
Qed.

Lemma skipped_comment debug o e :
  (∀ s, clean (debug s)) → plain_error e → comment (skipped_line debug (o, e)).
Proof.
  intros Hd He. split; [by vm_compute|]. unfold skipped_line. cbn [fst snd].
  assert (clean (display_destination_error debug e)).
  { destruct e; cbn [display_destination_error plain_error] in *; repeat apply clean_app;
      first [apply Hd | done | by apply to_string_clean | by destruct He; try apply to_string_clean | by apply forallb_clean]. }
  repeat apply clean_app; first [done | apply Hd | by apply forallb_clean].
Qed.

Lemma draft_renderable name i obs sg :
  name ≠ [] → clean name → Forall clean (texts_of_match (match_from_identity i)) →
  Forall (λ o, clean (o_application o)) obs → suggest_policy name i obs = Ok sg → renderable (policy sg).
Proof.
  intros Hn Hc Hi Ho. unfold suggest_policy.
  pose proof (observed_entries_ok obs ([], []) Ho ltac:(constructor)) as Hm.
  destruct (fold_left observe obs ([], [])) as [sk m]. cbn [snd] in Hm.
  destruct (traverse draft_rule m) as [rs|] eqn:Hrs; [|done]. intros [= <-]. cbn [policy].
  apply traverse_Ok in Hrs.
  assert (Forall (λ r, rule_ok r ∧ Forall clean (option_list (rule_id r) ++ [app_text (application r)] ++
    map raw (destinations r))) rs) as Hr.
  { clear Hn Hc Hi. induction Hrs as [|e r m rs He Hrs IH]; [done|]. apply Forall_cons in Hm as [He' Hm].
    destruct (draft_rule_ok e r He' He) as (? & _ & ?). constructor; [done|]. by apply IH. }
  unfold renderable. cbn [p_name session limits rules baseline].
  split; [done|]. split.
  { unfold texts_of. cbn [p_name match_spec egress rules tests]. constructor; [done|].
    apply Forall_app_2; [done|]. cbn [app]. rewrite app_nil_r.
    clear Hrs. induction Hr as [|r rs [_ ?] Hr IH]; [done|]. by apply Forall_app_2. }
  split; [done|]. split; [by repeat split|]. split; [|done].
  eapply Forall_impl; [exact Hr|]. by intros r [? _].
Qed.

Lemma is_allow_rules p q ctx index rs :
  is_allow (evaluate_rules p ctx index rs) = is_allow (evaluate_rules q ctx index rs).
Proof.
  revert index. induction rs as [|r rs IH]; intros index; [done|]. rewrite !is_allow_cons.
  by destruct (applies r ctx).
Qed.


(** ** Examples and witnesses *)

#[export] Instance read_toml_comments : CommentedReader read_toml.
Proof.
  intros ls text Hls. unfold read_toml, read_document.
  assert (read_lines None (split 10 (flat_map writeln ls ++ nl ++ text)) = read_lines None (split 10 text)) as ->;
    [|done].
  induction Hls as [|l ls [Hs Hc] Hls IH]; [done|]. cbn [flat_map].
  change (writeln l) with (l ++ [10]). rewrite <- !app_assoc. cbn [app]. rewrite split_app.
  - cbn [read_lines]. by rewrite Hs, orb_true_r.
  - intros Hin. unfold clean in Hc. rewrite Forall_forall in Hc. by specialize (Hc _ Hin).
Qed.

(** Three observations, one of them of no destination. *)
Definition curl_seen : Observation := mkObservation "curl" (Some Tcp) "API.example.com:443" 3.
Definition dig_seen : Observation := mkObservation "dig" (Some Udp) "10.0.0.53:53" 1.
Definition odd_seen : Observation := mkObservation "curl" None "nowhere" 1.
Definition sample_json (l : str) : option Observation :=
  if str_eqb l "1" then Some curl_seen else if str_eqb l "2" then Some dig_seen
  else if str_eqb l "3" then Some odd_seen else None.
Definition sample_text : str := of_string "1" ++ [10] ++ of_string "2" ++ [13; 10; 10] ++ of_string "3" ++ [10].
Definition shown (_ : str) : str := "?".


(** Two allow rules, and the same grants in another order. *)
Definition one_rule (app dest : str) : Rule := mkRule None (AppName app) AnyTransport Allow [spec_of dest].
Definition allow_policy (rs : list Rule) : Policy :=
  mkPolicy "ci" default_match default_session None default_limits rs [] false.
Definition rule_a : Rule := one_rule "curl" "api.example.com:443".
Definition rule_b : Rule := one_rule "psql" "*.db.example.com:5432".

Ltac solve_allow_only :=
  split; [by repeat constructor|]; repeat constructor; cbn [fst snd];
  first [by apply (bool_decide_eq_true_1 _) | by vm_compute].
Lemma sample_allow_only :
  allow_only (allow_policy [rule_a; rule_b]) ∧ allow_only (allow_policy [rule_b; rule_a]).
Proof. split; solve_allow_only. Qed.

Lemma silent_diff_same_grants_witness :
  let old := [allow_policy [rule_a; rule_b]] in
  let new := [allow_policy [rule_b; rule_a]] in
  diff old new = [] ∧ diff old [allow_policy [rule_a]] = of_string "  ci: - allow psql *.db.example.com:5432" ++ [10] ∧
  ∀ name,
  match get old name, get new name with
  | Some p, Some q => limits p = limits q ∧ session p = session q ∧
      ∀ ctx, is_allow (policy_evaluate p ctx) = is_allow (policy_evaluate q ctx)
  | None, None => True
  | _, _ => False
  end.
Proof.
  cbv zeta. split; [by vm_compute|]. split; [by vm_compute|].
  apply silent_diff_same_grants; [| |by vm_compute].
  - constructor; [apply sample_allow_only|constructor].
  - constructor; [apply sample_allow_only|constructor].
Defined.

(** With a deny rule the order matters, and a comparison does not show it: after the
    two rules change places the request is allowed. *)
Definition deny_a : Rule := mkRule None AnyApp AnyTransport Deny [spec_of "*.example.com:443"].
Lemma reordered_rules_unreported :
  let old := [allow_policy [deny_a; rule_a]] in
  let new := [allow_policy [rule_a; deny_a]] in
  let ctx := mkContext empty_identity "curl" Tcp (mkDestination (Name "api.example.com") 443) None in
  diff old new = [] ∧ is_allow (evaluate old ctx) = false ∧ is_allow (evaluate new ctx) = true.
Proof. by vm_compute. Qed.

(** So does a policy that becomes a baseline, or governs other workloads. *)
Lemma widened_match_unreported :
  let p m := mkPolicy "ci" m default_session None default_limits [rule_a] [] false in
  let old := [p (mkMatch (Some (of_string "acme")) None None None None None None None)] in
  let new := [p default_match] in
  let ctx := mkContext empty_identity "curl" Tcp (mkDestination (Name "api.example.com") 443) None in
  diff old new = [] ∧ is_allow (evaluate old ctx) = false ∧ is_allow (evaluate new ctx) = true.
Proof. by vm_compute. Qed.

