(* ===== verification/Certificates.v ===== *)
(** * Certificates

    Model of [crates/skimasque/src/tls.rs] and [acme.rs], of [load_tls] and
    [run_tls_reload] of [crates/skimasque-cli/src/bin/skimasque-server.rs], and of
    [TlsReloader] ([server.rs]): which TLS configurations are built, and which
    certificate a running gateway presents while its files are replaced.

    The PEM reader, rustls' checks of a chain against its key, of a root and of
    TLS 1.3, the generator of self-signed certificates and the ACME client are
    parameters. *)

From S2P Require Import Prelude RustStr RustNet PolicyUnits PolicyModel PolicyEval PolicyParse StateDir.
From S2P Require Import ServerStart Reporting PolicyCli.

(** ** Configurations *)

(** [b"h3"]. *)
Definition ALPN_H3 : data := [104; 51].

Section tls.
Context {Cert Key : Type}.

(** What a server presents: a fixed chain, or whatever the ACME manager holds. *)
Inductive Presented : Type :=
  | Chain (certs : list Cert) (key : Key)
  | AcmeResolver.
Record ServerTls : Type := mkServerTls { presents : Presented; server_alpn : list data }.

(** Which servers a client believes. *)
Inductive Trust : Type := WebPki | Roots (roots : list Cert) | AnyCertificate.
Record ClientTls : Type := mkClientTls { trusts : Trust; client_alpn : list data }.

Class Tls : Type := {
  (** [CertificateDer::pem_slice_iter] and [PrivateKeyDer::from_pem_slice]. *)
  pem_certs : data → list (result str Cert);
  pem_key : data → result str Key;
  (** [RootCertStore::add] and [with_single_cert]. *)
  root_add : Cert → result str unit;
  with_single_cert : list Cert → Key → result str unit;
  (** [QuicServerConfig::try_from]. *)
  tls13 : ServerTls → result str unit;
  (** [rcgen::generate_simple_self_signed]: certificate and key, as PEM. *)
  self_signed : list str → result str (str * str);
}.
Context `{Tls}.

Definition finish_built_client_config (t : Trust) : ClientTls := mkClientTls t [ALPN_H3].
Definition client_config_with_webpki_roots : ClientTls := finish_built_client_config WebPki.
Definition dangerous_client_config_without_verification : ClientTls := finish_built_client_config AnyCertificate.

(** The roots added one by one; an entry that does not parse or is refused stops. *)
Fixpoint add_roots (certs : list (result str Cert)) (roots : list Cert) : result str (list Cert) :=
  match certs with
  | [] => Ok roots
  | cert :: certs =>
      cert ← map_err (λ e, "reading CA PEM: " ++ e) cert;
      _ ← map_err (λ e, "adding CA certificate: " ++ e) (root_add cert);
      add_roots certs (roots ++ [cert])
  end.
Definition client_config_with_ca (ca_pem : data) : result str ClientTls :=
  roots ← add_roots (pem_certs ca_pem) [];
  if decide (length roots = 0%nat) then Err (of_string "CA file contained no certificates")
  else Ok (finish_built_client_config (Roots roots)).

Definition server_config_from_der (cert_chain : list Cert) (key : Key) : result str ServerTls :=
  _ ← map_err (λ e, "building server config: " ++ e) (with_single_cert cert_chain key);
  Ok (mkServerTls (Chain cert_chain key) [ALPN_H3]).

Definition server_config_from_pem (cert_chain_pem key_pem : data) : result str ServerTls :=
  certs ← map_err (λ e, "reading certificate PEM: " ++ e) (traverse id (pem_certs cert_chain_pem));
  if decide (length certs = 0%nat) then Err (of_string "certificate file contained no certificates")
  else
    key ← map_err (λ e, "reading private key PEM: " ++ e) (pem_key key_pem);
    server_config_from_der certs key.

(** ** QUIC *)

Record Transport : Type := mkTransport {
  datagram_receive_buffer_size : option Z;
  datagram_send_buffer_size : Z;
  max_idle_timeout : option Duration;
  keep_alive_interval : option Duration;
}.
Definition datagram_transport_config : Transport :=
  mkTransport (Some (1024 * 1024)) (1024 * 1024) (Some (PolicyUnits.from_secs 60)) (Some (PolicyUnits.from_secs 15)).
Definition quic_server_config (t : ServerTls) : result str (ServerTls * Transport) :=
  _ ← map_err (λ e, "QUIC requires TLS 1.3: " ++ e) (tls13 t);
  Ok (t, datagram_transport_config).

(** ** ACME *)

Record AcmeParams : Type := mkAcmeParams {
  domains : list str;
  contact : option str;
  cache_dir : str;
  production : bool;
  challenge_addr : SocketAddr;
}.
Definition acme_start (debug : str → str) (params : AcmeParams) : result str AcmeParams :=
  if decide (length (domains params) = 0%nat) then Err (of_string "at least one --acme domain is required")
  else match contact params with
       | Some c =>
           if contains 58 c then Ok params
           else Err ("ACME contact " ++ debug c ++ " must be a URI such as mailto:you@example.com")
       | None => Ok params
       end.
Definition acme_server_config : ServerTls := mkServerTls AcmeResolver [ALPN_H3].

Inductive EventOk : Type := DeployedNewCert | DeployedCachedCert | CertCacheStore | AccountCacheStore.
Definition on_event (e : EventOk) : MetricCall :=
  AcmeEvent match e with
            | DeployedNewCert => of_string "deployed_new"
            | DeployedCachedCert => of_string "deployed_cached"
            | CertCacheStore | AccountCacheStore => of_string "cache_store"
            end.

(** What the manager meets: its listener's bind fails or works, the ACME stream
    yields an event, an error or its end, and a client connects: a validation,
    anything else, or an error of the listener. *)
Inductive AcmeMoment : Type :=
  | BindFails
  | Bound
  | Happened (e : result str EventOk)
  | StreamEnds
  | Validated
  | NotValidated.
Definition REBIND_BACKOFF : Duration := PolicyUnits.from_secs 30.

(** [Acme::run]: the calls it makes, and whether it still runs.  A manager that is
    not bound takes no event. *)
Fixpoint acme_run (bound : bool) (moments : list AcmeMoment) : list MetricCall * bool :=
  match moments with
  | [] => ([], true)
  | m :: moments =>
      match bound, m with
      | false, BindFails => let '(calls, on) := acme_run false moments in (AcmeEvent (of_string "error") :: calls, on)
      | false, Bound => acme_run true moments
      | true, Happened (Ok e) => let '(calls, on) := acme_run true moments in (on_event e :: calls, on)
      | true, Happened (Err _) => let '(calls, on) := acme_run true moments in (AcmeEvent (of_string "error") :: calls, on)
      | true, StreamEnds => ([], false)
      | true, Validated => let '(calls, on) := acme_run true moments in (AcmeEvent (of_string "challenge") :: calls, on)
      | _, _ => acme_run bound moments
      end
  end.

(** ** Where the certificate comes from *)

Inductive TlsSetup : Type := Static (pem : str) | Acme (params : AcmeParams).

(** The flags [load_tls] reads beside those of [ServerStart.Flags]. *)
Record TlsFlags : Type := mkTlsFlags {
  tf_cert : option str;
  tf_key : option str;
  tf_self_signed_names : list str;
  tf_acme_cache : str;
  tf_acme_staging : bool;
}.

(** [read] is [tokio::fs::read], [lossy] is [String::from_utf8_lossy]. *)
Definition load_tls (debug : str → str) (lossy : data → str) (read : str → option data) (args : Flags) (tf : TlsFlags)
    : result str (ServerTls * TlsSetup) :=
  if fl_acme args then
    acme ← acme_start debug (mkAcmeParams (acme_domains args) (acme_contact args) (tf_acme_cache tf)
                              (negb (tf_acme_staging tf)) (acme_challenge_addr args));
    Ok (acme_server_config, Acme acme)
  else
    match tf_cert tf, tf_key tf with
    | Some cert, Some key =>
        cert_pem ← ok_or (read cert) ("reading " ++ cert);
        key_pem ← ok_or (read key) ("reading " ++ key);
        config ← server_config_from_pem cert_pem key_pem;
        Ok (config, Static (lossy cert_pem))
    | _, _ =>
        '(certificate_pem, key_pem) ← map_err (λ e, "generating self-signed certificate: " ++ e)
                                        (self_signed (tf_self_signed_names tf));
        config ← server_config_from_pem (as_bytes certificate_pem) (as_bytes key_pem);
        Ok (config, Static certificate_pem)
    end.

(** ** Reloading *)

(** The endpoint: the configuration of handshakes to come, and what each
    connection handshook with. *)
Record Endpoint : Type := mkEndpoint { for_new : ServerTls; established : list ServerTls }.
Definition handshake (e : Endpoint) : Endpoint := mkEndpoint (for_new e) (established e ++ [for_new e]).
(** [TlsReloader::reload]. *)
Definition endpoint_reload (t : ServerTls) (e : Endpoint) : result str Endpoint :=
  '(t, _) ← quic_server_config t;
  Ok (mkEndpoint t (established e)).

(** [watch_and_reload]: a turn takes the fingerprint and reloads when it changed or
    a hangup asks for it; only a reload that worked moves the fingerprint. *)
Definition watch_and_reload {A} (kind : str) (forced : bool) (next : Fingerprint) (reload : result str A)
    (w : Fingerprint * A) : (Fingerprint * A) * list MetricCall :=
  if negb forced && bool_decide (next = w.1) then (w, [])
  else match reload with
       | Ok a => ((next, a), [Reloaded kind (of_string "ok")])
       | Err _ => (w, [Reloaded kind (of_string "error")])
       end.

(** The files over time, and when a turn looks at them: the fingerprint, then the
    certificate, then the key. *)
Record CertFiles : Type := mkCertFiles { cf_stat : Files; cf_read : str → option data }.
Record TlsTick : Type := mkTlsTick { hup : bool; fp_at : nat; cert_at : nat; key_at : nat; arrivals : nat }.

Context (cert key : str) (files : nat → CertFiles).

Definition cert_fingerprint (i : nat) : Fingerprint := fingerprint_of (cf_stat (files i)) [cert; key].
Definition reload_config (i j : nat) : result str ServerTls :=
  cert_pem ← ok_or (cf_read (files i) cert) ("reading " ++ cert);
  key_pem ← ok_or (cf_read (files j) key) ("reading " ++ key);
  server_config_from_pem cert_pem key_pem.

(** [run_tls_reload]: between two turns [arrivals] connections handshake. *)
Definition tls_turn (w : Fingerprint * Endpoint) (t : TlsTick) : Fingerprint * Endpoint :=
  let w := (w.1, Nat.iter (arrivals t) handshake w.2) in
  (watch_and_reload (of_string "tls") (hup t) (cert_fingerprint (fp_at t))
    (config ← reload_config (cert_at t) (key_at t); endpoint_reload config w.2) w).1.
Definition run_tls_reload (ticks : list TlsTick) (w : Fingerprint * Endpoint) : Fingerprint * Endpoint :=
  fold_left tls_turn ticks w.

(** ** What is built *)

Lemma traverse_id {E A} (l : list (result E A)) k : traverse id l = Ok k ↔ l = map Ok k.
Proof.
  rewrite traverse_Ok. split.
  - induction 1 as [|x y l k Hxy _ IH]; [done|]. cbn in *. by rewrite Hxy, IH.
  - intros ->. induction k as [|x k IH]; constructor; [done|exact IH].
Qed.

(** A server's configuration is made of the whole chain and the first key of the
    files, they belong together, and it speaks HTTP/3 only. *)
Lemma server_config_spec cert_pem key_pem c :
  server_config_from_pem cert_pem key_pem = Ok c ↔
  ∃ certs key, pem_certs cert_pem = map Ok certs ∧ certs ≠ [] ∧ pem_key key_pem = Ok key ∧
    with_single_cert certs key = Ok tt ∧ c = mkServerTls (Chain certs key) [ALPN_H3].
Proof.
  unfold server_config_from_pem, server_config_from_der. rewrite bind_Ok. split.
  - intros (certs & Hc & Hr). apply map_err_Ok, traverse_id in Hc. destruct (decide _) as [|Hn]; [done|].
    apply bind_Ok in Hr as (k & Hk%map_err_Ok & Hr). apply bind_Ok in Hr as ([] & Hw%map_err_Ok & [= <-]).
    exists certs, k. split_and!; try done. by intros ->.
  - intros (certs & k & Hc & Hn & Hk & Hw & ->). exists certs. rewrite map_err_Ok, traverse_id. split; [done|].
    destruct (decide _) as [Hl%length_zero_iff_nil|]; [done|]. by rewrite Hk; cbn; rewrite Hw.
Qed.

Lemma add_roots_spec certs roots r :
  add_roots certs roots = Ok r ↔ ∃ more, certs = map Ok more ∧ Forall (λ c, root_add c = Ok tt) more ∧ r = roots ++ more.
Proof.
  revert roots. induction certs as [|c certs IH]; intros roots; cbn [add_roots].
  - split; [intros [= <-]; exists []; by rewrite app_nil_r|]. intros ([|? ?] & ? & _ & ->); [by rewrite app_nil_r|done].
  - rewrite bind_Ok. split.
    + intros (x & Hx%map_err_Ok & Hr). apply bind_Ok in Hr as ([] & Ha%map_err_Ok & Hr).
      apply IH in Hr as (more & -> & Hf & ->). exists (x :: more). rewrite Hx, <- app_assoc. split_and!; [done| |done].
      by constructor.
    + intros ([|x more] & Hc & Hf & ->); [done|]. injection Hc as -> ->. apply Forall_cons in Hf as [Hx Hf].
      exists x. split; [done|]. rewrite Hx. bind_simpl. apply IH. exists more. by rewrite <- app_assoc.
Qed.

(** A client told to trust a file trusts exactly the certificates in it, all of
    them, and never none. *)
Lemma client_config_spec ca_pem c :
  client_config_with_ca ca_pem = Ok c ↔
  ∃ roots, pem_certs ca_pem = map Ok roots ∧ roots ≠ [] ∧ Forall (λ c, root_add c = Ok tt) roots ∧
    c = mkClientTls (Roots roots) [ALPN_H3].
Proof.
  unfold client_config_with_ca. rewrite bind_Ok. setoid_rewrite add_roots_spec. split.
  - intros (roots & (more & Hc & Hf & ->) & Hr). cbn in Hr. destruct (decide _) as [|Hn]; [done|]. injection Hr as <-.
    exists more. split_and!; try done. by intros ->.
  - intros (roots & Hc & Hn & Hf & ->). exists roots. split; [by exists roots|].
    by destruct (decide _) as [Hl%length_zero_iff_nil|].
Qed.

(** What a gateway may present: a chain with its key, or what ACME manages. *)
Definition sound_config (c : ServerTls) : Prop :=
  server_alpn c = [ALPN_H3] ∧
  match presents c with Chain certs key => certs ≠ [] ∧ with_single_cert certs key = Ok tt | AcmeResolver => True end.

Lemma server_config_sound cert_pem key_pem c : server_config_from_pem cert_pem key_pem = Ok c → sound_config c.
Proof. intros (certs & k & _ & Hn & _ & Hw & ->)%server_config_spec. done. Qed.

(** [--acme] with any other flags starts: a domain is always there, and a contact
    without a scheme was given one. *)
Lemma acme_flags_accepted debug args cache prod :
  let params := mkAcmeParams (acme_domains args) (acme_contact args) cache prod (acme_challenge_addr args) in
  acme_start debug params = Ok params.
Proof.
  intros params. unfold acme_start. cbn [domains contact params].
  assert (∀ l ds, ds ≠ [] → fold_left (λ ds d, if bool_decide (d ∈ ds) then ds else ds ++ [d]) l ds ≠ ([] : list str)) as Hd.
  { intros l. induction l as [|d l IH]; intros ds Hds; [done|]. cbn. apply IH. case_bool_decide; [done|]. by destruct ds. }
  destruct (decide _) as [Hl%length_zero_iff_nil|_]; [by apply Hd in Hl|].
  unfold acme_contact. destruct (fl_acme_email args) as [e|]; [|done]. cbn [fmap option_fmap option_map].
  destruct (contains 58 e) eqn:He; [by rewrite He|].
  assert (contains 58 ("mailto:" ++ e) = true) as ->; [|done]. apply contains_true. apply elem_of_app. left. set_solver.
Qed.

(** Whatever its flags, a gateway that starts presents a certificate with its own
    key, or one ACME manages, and speaks HTTP/3 only. *)
Lemma load_tls_sound debug lossy read args tf c setup :
  load_tls debug lossy read args tf = Ok (c, setup) → sound_config c.
Proof.
  unfold load_tls. destruct (fl_acme args).
  - rewrite acme_flags_accepted. bind_simpl. by intros [= <- _].
  - destruct (tf_cert tf) as [cp|], (tf_key tf) as [kp|].
    2-4: intros ([pem kpem] & _ & Hr)%bind_Ok; apply bind_Ok in Hr as (config & Hc & [= <- _]); by eapply server_config_sound.
    intros (b1 & _ & Hr)%bind_Ok. apply bind_Ok in Hr as (b2 & _ & Hr). apply bind_Ok in Hr as (config & Hc & [= <- _]).
    by eapply server_config_sound.
Qed.

(** ** What is presented while the files change *)

Fixpoint in_time (now : nat) (ticks : list TlsTick) : Prop :=
  match ticks with
  | [] => True
  | t :: ticks => (now ≤ fp_at t ≤ cert_at t)%nat ∧ (cert_at t ≤ key_at t)%nat ∧ in_time (key_at t) ticks
  end.

(** An edit shows in the files' lengths or modification times, and never moves them
    back. *)
Definition cert_edits_show : Prop := ∀ i j k, (i ≤ j ≤ k)%nat → cert_fingerprint i = cert_fingerprint k →
  cf_read (files j) cert = cf_read (files k) cert ∧ cf_read (files j) key = cf_read (files k) key.

Definition presented_at (now : nat) (w : Fingerprint * Endpoint) : Prop :=
  ∃ i j k, (i ≤ j ≤ now)%nat ∧ (i ≤ k ≤ now)%nat ∧ w.1 = cert_fingerprint i ∧ reload_config j k = Ok (for_new w.2).

Lemma reload_config_sound i j c : reload_config i j = Ok c → sound_config c.
Proof. intros (b1 & _ & Hr)%bind_Ok. apply bind_Ok in Hr as (b2 & _ & Hr). by eapply server_config_sound. Qed.

Lemma handshakes_keep n e : for_new (Nat.iter n handshake e) = for_new e ∧ established e `prefix_of` established (Nat.iter n handshake e).
Proof.
  induction n as [|n [IH1 IH2]]; [done|]. change (Nat.iter (S n) handshake e) with (handshake (Nat.iter n handshake e)).
  unfold handshake at 1 3. cbn [for_new established]. split; [done|]. by apply prefix_app_r.
Qed.

Lemma reloaded_endpoint t e e' : endpoint_reload t e = Ok e' ↔ e' = mkEndpoint t (established e) ∧ is_ok (tls13 t) = true.
Proof.
  unfold endpoint_reload, quic_server_config. destruct (tls13 t); cbn; (split; [by intros [= <-]|by intros [-> ?]]).
Qed.

Lemma tls_turn_presented now w t :
  presented_at now w → (now ≤ fp_at t ≤ cert_at t)%nat → (cert_at t ≤ key_at t)%nat → presented_at (key_at t) (tls_turn w t).
Proof.
  intros (i & j & k & Hj & Hk & Hfp & Hc) Ht1 Ht2. unfold tls_turn, watch_and_reload. cbn [fst snd].
  destruct (handshakes_keep (arrivals t) w.2) as [Hnew _]. set (e := Nat.iter _ _ _) in *.
  assert (presented_at (key_at t) (w.1, e)) as Hstay.
  { exists i, j, k. cbn [fst snd]. rewrite Hnew. split_and!; try lia; done. }
  destruct (negb _ && _); [exact Hstay|].
  destruct (reload_config (cert_at t) (key_at t)) as [c|] eqn:Hr; cbn [mbind result_mbind result_bind]; [|exact Hstay].
  destruct (endpoint_reload c e) as [e'|] eqn:He; [|exact Hstay].
  apply reloaded_endpoint in He as [-> _]. exists (fp_at t), (cert_at t), (key_at t). split_and!; try lia; done.
Qed.

(** What a turn does to the connections there are: nothing; new ones handshake with
    what is presented. *)
Lemma tls_turn_established w t :
  sound_config (for_new w.2) → Forall sound_config (established w.2) →
  established w.2 `prefix_of` established (tls_turn w t).2 ∧ Forall sound_config (established (tls_turn w t).2).
Proof.
  intros Hs Hf. assert (∀ n e, sound_config (for_new e) → Forall sound_config (established e) →
    Forall sound_config (established (Nat.iter n handshake e))) as Hh.
  { intros n e He1 He2. induction n as [|n IH]; [done|].
    change (Nat.iter (S n) handshake e) with (handshake (Nat.iter n handshake e)). unfold handshake at 1. cbn [established].
    apply Forall_app. split; [done|]. apply Forall_singleton. by destruct (handshakes_keep n e) as [-> _]. }
  specialize (Hh (arrivals t) _ Hs Hf). destruct (handshakes_keep (arrivals t) w.2) as [_ Hpre].
  unfold tls_turn, watch_and_reload. cbn [fst snd]. destruct (negb _ && _); [done|].
  destruct (reload_config _ _) as [c|]; cbn [mbind result_mbind result_bind]; [|done].
  destruct (endpoint_reload c _) as [e'|] eqn:He; [|done]. by apply reloaded_endpoint in He as [-> _].
Qed.

Lemma run_established ticks w now :
  presented_at now w → in_time now ticks → Forall sound_config (established w.2) →
  established w.2 `prefix_of` established (run_tls_reload ticks w).2 ∧ Forall sound_config (established (run_tls_reload ticks w).2).
Proof.
  revert now w. induction ticks as [|t ticks IH]; intros now w Hp Ho Hf; [done|].
  destruct Ho as (H1 & H2 & Ho). pose proof (tls_turn_presented now w t Hp H1 H2) as Hp'.
  destruct Hp as (i & j & k & _ & _ & _ & Hc). apply reload_config_sound in Hc.
  destruct (tls_turn_established w t Hc Hf) as [Hpre Hf']. destruct (IH _ _ Hp' Ho Hf') as [Hpre' Hf''].
  split; [by etrans|done].
Qed.

(** Renewing a certificate never presents a broken one: whenever the files are
    replaced, in whatever order and however a turn's reads fall between the edits,
    new handshakes are given a chain with its own key, one that was read from the
    files, and so were the connections there are; and once the files rest
    over a turn and load, that turn ends with them presented. *)
Theorem tls_reload_converges (c0 : ServerTls) (t0 t1 : nat) (ticks : list TlsTick) (t : TlsTick) :
  cert_edits_show → (t0 ≤ t1)%nat → reload_config t0 t0 = Ok c0 → cert_fingerprint t0 = cert_fingerprint t1 →
  in_time t1 (ticks ++ [t]) →
  let w := run_tls_reload (ticks ++ [t]) (cert_fingerprint t1, mkEndpoint c0 []) in
  sound_config (for_new w.2) ∧ Forall sound_config (established w.2) ∧ (∃ i j, reload_config i j = Ok (for_new w.2)) ∧
  (∀ c, cert_fingerprint (fp_at t) = cert_fingerprint (key_at t) →
     reload_config (key_at t) (key_at t) = Ok c → is_ok (tls13 c) = true → for_new w.2 = c).
Proof.
  intros Hed H01 H0 Hfp0 Ho w. assert (presented_at t1 (cert_fingerprint t1, mkEndpoint c0 [])) as Hp0.
  { exists t1, t1, t1. split_and!; try lia; [done|]. destruct (Hed t0 t0 t1 ltac:(lia) Hfp0) as [Hc Hk].
    unfold reload_config in *. by rewrite <- Hc, <- Hk. }
  assert (Forall sound_config (established w.2)) as Hest by (by apply (run_established _ _ t1)).
  assert (∃ last w', presented_at last w' ∧ (last ≤ fp_at t ≤ cert_at t)%nat ∧ (cert_at t ≤ key_at t)%nat ∧ w = tls_turn w' t)
    as (last & w' & Hp & H1 & H2 & Hw).
  { unfold w, run_tls_reload. rewrite fold_left_app. cbn [fold_left].
    revert Hp0 Ho. generalize (cert_fingerprint t1, mkEndpoint c0 []) as w0. clear w H01 Hfp0 H0 Hest. revert t1.
    induction ticks as [|tk ticks IH]; intros now w0 Hp0 Ho; cbn [fold_left app in_time] in *.
    - exists now, w0. destruct Ho as (? & ? & _). done.
    - destruct Ho as (Ha & Hb & Ho). apply (IH (key_at tk)); [by eapply tls_turn_presented|done]. }
  destruct (tls_turn_presented last w' t Hp H1 H2) as (i & j & k & _ & _ & _ & Hnow).
  rewrite Hw in *. split_and!; [by eapply reload_config_sound|done|by exists j, k|].
  - intros c Hrest Hload H13. destruct (Hed (fp_at t) (cert_at t) (key_at t) ltac:(lia) Hrest) as [Hcert _].
    assert (reload_config (cert_at t) (key_at t) = Ok c) as Hload' by (unfold reload_config in *; by rewrite Hcert).
    unfold tls_turn, watch_and_reload. cbn [fst snd]. rewrite Hload'. cbn [mbind result_mbind result_bind].
    set (e := Nat.iter _ _ _). rewrite (proj2 (reloaded_endpoint c e (mkEndpoint c (established e))) (conj eq_refl H13)).
    destruct (negb (hup t) && _) eqn:Hsame; [|done].
    apply andb_prop in Hsame as [_ Hsame%bool_decide_eq_true]. cbn [snd].
    destruct (handshakes_keep (arrivals t) w'.2) as [Hnew _]. fold e in Hnew. cbn [fst snd]. rewrite Hnew.
    destruct Hp as (i' & j' & k' & Hj & Hk & Hfp & Hc). rewrite Hfp in Hsame.
    destruct (Hed i' j' (fp_at t) ltac:(lia) (eq_sym Hsame)) as [Hcj _], (Hed i' k' (fp_at t) ltac:(lia) (eq_sym Hsame)) as [_ Hkk].
    destruct (Hed (fp_at t) (fp_at t) (key_at t) ltac:(lia) Hrest) as [Hcf Hkf].
    unfold reload_config in Hc, Hload. rewrite Hcj, Hkk, Hcf, Hkf in Hc. rewrite Hload in Hc. by injection Hc.
Qed.

(** No error stops the ACME manager, and each is counted. *)
Lemma acme_run_resilient bound moments :
  StreamEnds ∉ moments → (acme_run bound moments).2 = true ∧
  Forall (λ c, ∃ kind, c = AcmeEvent kind) (acme_run bound moments).1.
Proof.
  revert bound. induction moments as [|m moments IH]; intros bound Hn; [done|]. apply not_elem_of_cons in Hn as [Hm Hn].
  cbn [acme_run]. destruct (IH true Hn) as [H1 H2], (IH false Hn) as [H3 H4].
  destruct bound, m as [| |[e|e]| | |]; try done;
    (destruct (acme_run true moments) as [calls on] eqn:E1; destruct (acme_run false moments) as [calls' on'] eqn:E2; cbn in *);
    split; try done; constructor; eauto. 
Qed.
End tls.

(** The policy's reload is the same loop. *)
Lemma policy_watch {TomlError YamlError} (toml : str → result TomlError RawPolicy) (yaml : str → result YamlError YamlDoc)
    (s : SourceSpec) (w : Watch) (l : Look) :
  let w' := watch_turn toml yaml s w l in
  (current w', enforced w') =
  (watch_and_reload (of_string "policy") (forced l) (fingerprint s (seen l)) (set <$> load toml yaml s (read l))
    (current w, enforced w)).1.
Proof.
  unfold watch_turn, watch_and_reload. cbn [fst snd]. destruct (negb _ && _); [done|].
  by destruct (load toml yaml s (read l)).
Qed.

(** ** A renewal *)

(** Certificates and keys are numbers here and belong together when they are equal;
    the key is replaced at instant 1 and the certificate at instant 2. *)
#[local] Instance sample_tls : @Tls Z Z := {|
  pem_certs := λ b, map Ok b;
  pem_key := λ b, match b with [k] => Ok k | _ => Err (of_string "no key") end;
  root_add := λ _, Ok tt;
  with_single_cert := λ certs k, if decide (certs = [k]) then Ok tt else Err (of_string "keys do not match");
  tls13 := λ _, Ok tt;
  self_signed := λ _, Err (of_string "no entropy") |}.
Definition renewal (i : nat) : CertFiles :=
  let old_cert := (i <? 2)%nat in let old_key := (i <? 1)%nat in
  mkCertFiles
    (mkFiles (λ path, if str_eqb path "c" then Some (mkMeta (Some (if old_cert then 0 else 2)) 1)
                      else Some (mkMeta (Some (if old_key then 0 else 1)) 1)) (λ _, None) (λ _, None))
    (λ path, Some (if str_eqb path "c" then [if old_cert then 7 else 8] else [if old_key then 7 else 8])).

Lemma renewal_shows : cert_edits_show (of_string "c") (of_string "k") renewal.
Proof.
  intros i j k Hij Hfp.
  assert ((i <? 2)%nat = (k <? 2)%nat ∧ (i <? 1)%nat = (k <? 1)%nat) as [H2 H1].
  { unfold cert_fingerprint, renewal in Hfp. revert Hfp.
    by destruct (i <? 2)%nat, (k <? 2)%nat, (i <? 1)%nat, (k <? 1)%nat; vm_compute. }
  assert ((j <? 2)%nat = (k <? 2)%nat ∧ (j <? 1)%nat = (k <? 1)%nat) as [H2' H1'].
  { destruct (Nat.ltb_spec i 2), (Nat.ltb_spec k 2), (Nat.ltb_spec i 1), (Nat.ltb_spec k 1), (Nat.ltb_spec j 2), (Nat.ltb_spec j 1);
      try done; lia. }
  unfold renewal. cbn [cf_read]. by rewrite H2', H1'.
Qed.

(** A turn that finds the new key and the old certificate, then one at rest. *)
Lemma tls_reload_converges_witness :
  let w := run_tls_reload (of_string "c") (of_string "k") renewal [mkTlsTick false 1 1 1 1; mkTlsTick false 3 3 3 1]
             (cert_fingerprint (of_string "c") (of_string "k") renewal 0, mkEndpoint (mkServerTls (Chain [7] 7) [ALPN_H3]) []) in
  established w.2 = [mkServerTls (Chain [7] 7) [ALPN_H3]; mkServerTls (Chain [7] 7) [ALPN_H3]] ∧
  for_new w.2 = mkServerTls (Chain [8] 8) [ALPN_H3].
Proof.
  intros w. split; [vm_compute; reflexivity|].
  destruct (@tls_reload_converges Z Z sample_tls (of_string "c") (of_string "k") renewal (mkServerTls (Chain [7] 7) [ALPN_H3]) 0 0
    [mkTlsTick false 1 1 1 1] (mkTlsTick false 3 3 3 1) renewal_shows ltac:(lia) ltac:(vm_compute; reflexivity) eq_refl
    ltac:(cbn; lia)) as (_ & _ & _ & Hrest).
  apply Hrest; vm_compute; reflexivity.
Defined.
