(* ===== verification/Account.v ===== *)
(** * The signed-in user

    Model of [crates/skimasque-cli/src/account.rs] and [normalize_base_url] of
    [lib.rs]: where the sign-in session is kept, which addresses it may be sent to,
    the device flow that obtains it, and the calls of the management API.

    A file is its mode and its bytes.  The control plane is a parameter: a function
    from requests to answers, or a sequence of answers for a loop.  Durations and
    instants are in nanoseconds. *)

From S2P Require Import Prelude RustStr RustNet PolicyUnits Identity Platform HttpConnect Socks5 StateDir ControlSync.

(** ** Addresses *)

Definition normalize_base_url (addr : str) : str :=
  let addr := trim_end_matches 47 (trim addr) in
  if contains_str "://" addr then addr else "https://" ++ addr.

(** What [require_secure_transport] takes for the host of an authority. *)
Definition host_of_authority (authority : str) : str :=
  let host := match rsplit_once 64 authority with Some (_, h) => h | None => authority end in
  match strip_prefix "[" host with
  | Some v6 => first_piece_of (Z.eqb 93) v6
  | None => match rsplit_once 58 host with Some (h, _) => h | None => host end
  end.

Definition loopback_host (host : str) : bool :=
  eq_ignore_ascii_case host "localhost" || ends_with ".localhost" (to_ascii_lowercase host) ||
  match parse_ip host with Some ip => is_loopback ip | None => false end.

Definition require_secure_transport (base_url : str) : result str unit :=
  match strip_prefix "http://" base_url with
  | None => Ok tt
  | Some rest =>
      if loopback_host (host_of_authority (first_piece_of ends_authority rest)) then Ok tt
      else Err (base_url ++ " is plain HTTP, which would send your sign-in session in the clear")
  end.

(** [Api::new]: the base URL of a client. *)
Definition api_new (base_url : str) : result str str :=
  let base_url := normalize_base_url base_url in
  _ ← require_secure_transport base_url;
  Ok base_url.

(** ** The credential file *)

Record Credentials : Type := mkCredentials {
  control_plane : str;
  session_token : str;
  github_login : str;
  user_id : str;
}.

(** The variables [credentials_path] reads, on Unix; [join] is [Path::join] of a
    relative path. *)
Definition join (dir file : str) : str :=
  if bool_decide (dir = []) || ends_with "/" dir then dir ++ file else dir ++ "/" ++ file.
Definition credentials_path (var : str → option str) : result str str :=
  match var (of_string "SKIMASQUE_CONFIG_HOME") with
  | Some dir => Ok (join dir "credentials.json")
  | None =>
      match var (of_string "XDG_CONFIG_HOME") with
      | Some dir => Ok (join (join dir "skimasque") "credentials.json")
      | None =>
          home ← ok_or (var (of_string "HOME")) (of_string "no home directory (set SKIMASQUE_CONFIG_HOME)");
          Ok (join (join (join home ".config") "skimasque") "credentials.json")
      end
  end.

Record File : Type := mkFile { mode : Z; bytes : data }.
Abbreviation Disk := (gmap str File).

Definition S_PRIVATE : Z := 0x180.  (* 0o600 *)
(** The mode a new file gets: the one asked for, less what the umask clears. *)
Definition created_mode (umask : Z) : Z := Z.land S_PRIVATE (Z.lnot umask).

(** [OpenOptions::new().write(true).create(true).truncate(true).mode(0o600)] and
    [write_all], if the disk lets it. *)
Definition write_private (umask : Z) (path : str) (content : data) (d : Disk) : Disk :=
  <[path := mkFile (match d !! path with Some f => mode f | None => created_mode umask end) content]> d.

Section files.
Context `{Serde Credentials}.
Context (var : str → option str) (umask : Z).

Definition load_credentials (d : Disk) : result str (option Credentials) :=
  path ← credentials_path var;
  match d !! path with
  | Some f => Some <$> ok_or (from_slice (bytes f)) (of_string "parsing the stored credentials")
  | None => Ok None
  end.

Definition require_credentials (d : Disk) : result str Credentials :=
  creds ← load_credentials d;
  ok_or creds (of_string "not signed in -- run `skimasque login` first").

Definition save_credentials (creds : Credentials) (d : Disk) : result str Disk :=
  path ← credentials_path var;
  Ok (write_private umask path (to_vec creds) d).

Definition clear_credentials (d : Disk) : result str Disk :=
  path ← credentials_path var;
  Ok (delete path d).
End files.

(** [write_secret_file]. *)
Definition write_secret_file (umask : Z) (path : str) (content : data) (overwrite : bool) (d : Disk) : result str Disk :=
  match d !! path with
  | Some _ =>
      if overwrite then Ok (write_private umask path content d)
      else Err (path ++ " already exists (pass --force to replace it)")
  | None => Ok (write_private umask path content d)
  end.

(** ** The device flow *)

Record UserView : Type := mkUserView { u_id : str; u_github_id : Z; u_github_login : str; u_email : option str }.
Record DeviceStart : Type := mkDeviceStart {
  device_code : str;
  user_code : str;
  verification_uri : str;
  ds_interval : Z;
  ds_expires_in : Z;
}.
Inductive DevicePoll : Type :=
  | Pending (slow_down : bool)
  | Complete (session_token : str) (user : UserView)
  | Failed (reason : str).

(** One answer to a poll, and how long it took. *)
Record PollAnswer : Type := mkPollAnswer { poll_took : Duration; poll : result str DevicePoll }.

(** The loop of [login] from the instant [now]; the [n]-th poll gets the answer
    [answers n].  It returns when each poll was sent, and how it ended. *)
Fixpoint login_loop (fuel : nat) (answers : nat → PollAnswer) (n : nat) (now deadline : Z) (interval : Duration)
    : option (list Z * result str (str * UserView)) :=
  match fuel with
  | O => None
  | S fuel =>
      let a := answers n in
      let asked := now in
      let now := now + poll_took a in
      match poll a with
      | Err e => Some ([asked], Err e)
      | Ok (Complete token user) => Some ([asked], Ok (token, user))
      | Ok (Failed reason) => Some ([asked], Err ("authorization failed: " ++ reason))
      | Ok (Pending slow_down) =>
          let interval := if slow_down then interval + PolicyUnits.from_secs 5 else interval in
          if deadline <=? now + interval then Some ([asked], Err (of_string "timed out waiting for authorization"))
          else '(times, r) ← login_loop fuel answers (S n) (now + interval) deadline interval; Some (asked :: times, r)
      end
  end.

Definition LOGIN_MAX : Z := 900.
Definition login (fuel : nat) (start : DeviceStart) (answers : nat → PollAnswer) (now : Z)
    : option (list Z * result str (str * UserView)) :=
  login_loop fuel answers 0 now (now + PolicyUnits.from_secs (Z.min (ds_expires_in start) LOGIN_MAX))
    (PolicyUnits.from_secs (Z.max (ds_interval start) 1)).

(** ** The management API *)

Inductive Method : Type := GET | POST | PUT | DELETE.

Record AgentSessionRequest : Type := mkAgentSessionRequest {
  ttl_seconds : option Z;
  asr_run_id : option str;
  asr_runtime : option str;
  asr_parent : option str;
}.

(** The calls a session is sent with. *)
Inductive ApiCall : Type :=
  | Me
  | Logout
  | Simulate (org : str) (version : option Z) (draft : bool) (gateway : option str) (body : Json)
  | ListOrgs
  | MintRegistrationToken (org : str)
  | MintCredential (org : str) (ttl : option Z)
  | CreateOrg (name : str)
  | ListMembers (org : str)
  | AddMember (org github_login : str)
  | SetMemberRole (org user_id role : str)
  | RemoveMember (org user_id : str)
  | QueryAudit (org : str) (limit : nat) (gateway decision since cursor : option str)
  | Usage (org : str)
  | ListGateways (org : str)
  | StartAgentSession (org : str) (request : AgentSessionRequest)
  | EndAgentSession (org sid : str)
  | ListAgentSessions (org : str).

Record ApiRequest : Type := mkApiRequest {
  req_method : Method;
  req_url : str;
  req_bearer : str;
  req_query : list (str * str);
  req_json : option Json;
}.

Definition opt_text (key : str) (v : option str) : list (str * Json) :=
  match v with Some s => [(key, JString s)] | None => [] end.
Definition opt_number (key : str) (v : option Z) : list (str * Json) :=
  match v with Some n => [(key, JNumber (PosInt n))] | None => [] end.
Definition opt_query (key : str) (v : option str) : list (str * str) :=
  match v with Some s => [(key, s)] | None => [] end.

Definition org_path (org rest : str) : str := "/v1/orgs/" ++ org ++ rest.
Definition org_agent_sessions (org : str) : str := org_path org "/agent-sessions".
Definition org_agent_session_end (org sid : str) : str := org_path org ("/agent-sessions/" ++ sid ++ "/end").

Definition request_of (base_url session : str) (c : ApiCall) : ApiRequest :=
  let make (m : Method) (path : str) (query : list (str * str)) (body : option Json) :=
    mkApiRequest m (base_url ++ path) session query body in
  match c with
  | Me => make GET "/v1/me" [] None
  | Logout => make POST "/v1/auth/logout" [] None
  | Simulate org version draft gateway body =>
      make POST (org_path org "/policy/simulate")
        (opt_query "version" (to_string <$> version) ++ (if draft then [(of_string "draft", of_string "true")] else []) ++
         opt_query "gateway" gateway) (Some body)
  | ListOrgs => make GET "/v1/orgs" [] None
  | MintRegistrationToken org => make POST (org_path org "/registration-tokens") [] (Some (JObject []))
  | MintCredential org ttl => make POST (org_path org "/credentials") [] (Some (JObject (opt_number "ttl_seconds" ttl)))
  | CreateOrg name => make POST "/v1/orgs" [] (Some (JObject [(of_string "name", JString name)]))
  | ListMembers org => make GET (org_path org "/members") [] None
  | AddMember org login =>
      make POST (org_path org "/members") [] (Some (JObject [(of_string "github_login", JString login)]))
  | SetMemberRole org user role =>
      make PUT (org_path org ("/members/" ++ user ++ "/role")) [] (Some (JObject [(of_string "role", JString role)]))
  | RemoveMember org user => make DELETE (org_path org ("/members/" ++ user)) [] None
  | QueryAudit org limit gateway decision since cursor =>
      make GET (org_path org "/audit")
        ((of_string "limit", to_string (Z.of_nat limit)) :: opt_query "gateway" gateway ++
         opt_query "decision" decision ++ opt_query "since" since ++ opt_query "cursor" cursor) None
  | Usage org => make GET (org_path org "/usage") [] None
  | ListGateways org => make GET (org_path org "/gateways") [] None
  | StartAgentSession org r =>
      make POST (org_agent_sessions org) []
        (Some (JObject (opt_number "ttl_seconds" (ttl_seconds r) ++ opt_text "run_id" (asr_run_id r) ++
           opt_text "runtime" (asr_runtime r) ++ opt_text "parent" (asr_parent r))))
  | EndAgentSession org sid => make POST (org_agent_session_end org sid) [] (Some (JObject []))
  | ListAgentSessions org => make GET (org_agent_sessions org) [] None
  end.

(** [Api::error_for_status]: [text] is the body as text and [detail] its JSON
    member [detail], if it has one that is a string. *)
Definition api_error (what status text : str) (detail : option str) : str :=
  what ++ " failed: " ++ status ++ " " ++ default (trim text) detail.

(** ** The audit trail, page by page *)

Section audit.
Context {AuditView : Type}.

Record AuditPage : Type := mkAuditPage { page_events : list AuditView; next_cursor : option str }.

Definition PAGE : nat := 500.

(** [fetch limit cursor] is one request of [query_audit]. *)
Context (fetch : nat → option str → result str AuditPage).

(** [want - out.len()] is natural here: the loop goes on only while it is
    positive. *)
Fixpoint audit_loop (fuel want : nat) (out : list AuditView) (cursor : option str) : option (result str (list AuditView)) :=
  match fuel with
  | O => None
  | S fuel =>
      match fetch (Nat.min (want - length out) PAGE) cursor with
      | Err e => Some (Err e)
      | Ok page =>
          let out := out ++ page_events page in
          match next_cursor page with
          | Some c => if (length out <? want)%nat then audit_loop fuel want out (Some c) else Some (Ok out)
          | None => Some (Ok out)
          end
      end
  end.

Definition audit_want (limit : option nat) : nat := Nat.max (default 50%nat limit) 1.
Definition query_audit (fuel : nat) (limit : option nat) : option (result str (list AuditView)) :=
  audit_loop fuel (audit_want limit) [] None.
End audit.
Arguments AuditPage AuditView : clear implicits.

(** ** Agent sessions and organisations *)

Definition agent_session_state (ended_at_ms : option Z) (expires_at_ms now_ms : Z) : str :=
  if bool_decide (is_Some ended_at_ms) then "ended"
  else if expires_at_ms <=? now_ms then "expired" else "active".

(** [orgs] are the identifiers [list_orgs] answers with. *)
Definition resolve_org (orgs : result str (list str)) (creds : Credentials) (explicit : option str) : result str str :=
  match explicit with
  | Some org => Ok org
  | None =>
      orgs ← orgs;
      match orgs with
      | [only] => Ok only
      | [] => Err ("you are not a member of any organisation on " ++ control_plane creds)
      | _ => Err (of_string "--org is required")
      end
  end.

(** ** Where a session is sent *)

(** The authority of a URL, as RFC 3986 writes it. *)
Inductive UrlHost : Type := HostName (name : str) | HostV6 (address : str).
Definition host_text (h : UrlHost) : str := match h with HostName n => n | HostV6 a => "[" ++ a ++ "]" end.
Definition host_name (h : UrlHost) : str := match h with HostName n => n | HostV6 a => a end.
Definition reserved (c : Z) : bool := contains c "/?#@:[]".

Record HttpUrl : Type := mkHttpUrl { url_user : option str; url_host : UrlHost; url_port : option str; url_rest : str }.
Definition url_text (u : HttpUrl) : str :=
  "http://" ++ match url_user u with Some s => s ++ "@" | None => [] end ++ host_text (url_host u) ++
  match url_port u with Some p => ":" ++ p | None => [] end ++ url_rest u.
Definition url_ok (u : HttpUrl) : Prop :=
  (∀ s, url_user u = Some s → Forall (λ c, contains c "/?#@" = false) s) ∧
  match url_host u with
  | HostName n => Forall (λ c, reserved c = false) n
  | HostV6 a => Forall (λ c, contains c "/?#@[]" = false) a
  end ∧
  (∀ p, url_port u = Some p → Forall (λ c, is_ascii_digit c = true) p) ∧
  (url_rest u = [] ∨ ∃ c rest, url_rest u = c :: rest ∧ ends_authority c = true).

Lemma first_piece_app p a b :
  Forall (λ c, p c = false) a → (b = [] ∨ ∃ c b', b = c :: b' ∧ p c = true) → first_piece_of p (a ++ b) = a.
Proof.
  intros Ha Hb. unfold first_piece_of. rewrite span_app; [done| |].
  - eapply Forall_impl; [exact Ha|]. intros c Hc. by rewrite Hc.
  - destruct Hb as [->|(c & b' & -> & ->)]; done.
Qed.

Lemma not_in_class c (p : Z → bool) s : p c = true → Forall (λ x, p x = false) s → c ∉ s.
Proof. intros Hc Hs Hin. rewrite Forall_forall in Hs. apply Hs in Hin. congruence. Qed.

Lemma weaken_class (p q : Z → bool) s :
  (∀ c, q c = true → p c = true) → Forall (λ c, p c = false) s → Forall (λ c, q c = false) s.
Proof.
  intros H Hs. eapply Forall_impl; [exact Hs|]. intros c Hc. destruct (q c) eqn:E; [|done]. apply H in E. congruence.
Qed.

Lemma contains_incl a b c : a ⊆ b → contains c a = true → contains c b = true.
Proof.
  intros Hab. unfold contains. rewrite !existsb_exists. intros (x & Hx%list_elem_of_In & He). exists x.
  split; [|done]. apply list_elem_of_In. by apply Hab.
Qed.

Lemma digits_no c s : is_ascii_digit c = false → Forall (λ x, is_ascii_digit x = true) s → c ∉ s.
Proof. intros Hc Hs Hin. rewrite Forall_forall in Hs. apply Hs in Hin. congruence. Qed.

(** The host read off an authority is its host. *)
Lemma host_of_authority_text (u : HttpUrl) :
  url_ok u →
  host_of_authority (match url_user u with Some s => s ++ "@" | None => [] end ++ host_text (url_host u) ++
    match url_port u with Some p => ":" ++ p | None => [] end) = host_name (url_host u).
Proof.
  intros (Huser & Hhost & Hport & _). unfold host_of_authority.
  set (hp := host_text (url_host u) ++ match url_port u with Some p => ":" ++ p | None => [] end).
  assert (64 ∉ hp) as H64.
  { subst hp. rewrite elem_of_app. intros [H|H].
    - destruct (url_host u) as [n|a]; cbn [host_text] in H.
      + revert H. by apply (not_in_class 64 reserved).
      + apply elem_of_app in H as [H|[H|H]%elem_of_app]; [set_solver| |set_solver].
        revert H. by apply (not_in_class 64 (λ c, contains c "/?#@[]")).
    - destruct (url_port u) as [p|]; [|by apply elem_of_nil in H]. apply elem_of_app in H as [H|H]; [set_solver|].
      revert H. apply digits_no; [done|]. by apply Hport. }
  assert (match rsplit_once 64 (match url_user u with Some s => s ++ of_string "@" | None => [] end ++ hp) with
          | Some (_, h) => h
          | None => match url_user u with Some s => s ++ of_string "@" | None => [] end ++ hp end = hp) as ->.
  { destruct (url_user u) as [s|].
    - rewrite (proj2 (rsplit_once_Some 64 _ s hp)); [done|]. split; [by rewrite <- app_assoc|done].
    - cbn [app]. by rewrite (proj2 (rsplit_once_None 64 hp)). }
  subst hp. destruct (url_host u) as [n|a]; cbn [host_text host_name].
  - assert (∀ port, strip_prefix "[" (n ++ port) = None ∨ n = [] ) as Hb.
    { intros port. destruct n as [|c n]; [by right|]. left. apply strip_prefix_None. intros r [= Hc _].
      apply Forall_cons in Hhost as [Hr _]. by rewrite Hc in Hr. }
    destruct (url_port u) as [p|].
    + assert (strip_prefix "[" (n ++ of_string ":" ++ p) = None) as -> by (by destruct (Hb (of_string ":" ++ p)) as [?| ->]).
      rewrite (proj2 (rsplit_once_Some 58 _ n p)); [done|]. split; [done|]. apply digits_no; [done|]. by apply Hport.
    + rewrite app_nil_r. assert (strip_prefix "[" n = None) as ->.
      { destruct (Hb []) as [H| ->]; [by rewrite app_nil_r in H|done]. }
      by rewrite (proj2 (rsplit_once_None 58 n)) by (by apply (not_in_class 58 reserved)).
  - rewrite <- !app_assoc, strip_prefix_app. apply first_piece_app.
    + eapply weaken_class; [|exact Hhost]. intros c Hc%Z.eqb_eq. by subst.
    + right. by exists 93, (match url_port u with Some p => of_string ":" ++ p | None => [] end).
Qed.

Lemma authority_chars (u : HttpUrl) :
  url_ok u →
  Forall (λ c, ends_authority c = false)
    (match url_user u with Some s => s ++ "@" | None => [] end ++ host_text (url_host u) ++
     match url_port u with Some p => ":" ++ p | None => [] end).
Proof.
  intros (Huser & Hhost & Hport & _). repeat apply Forall_app_2.
  - destruct (url_user u) as [s|]; [|constructor]. apply Forall_app_2; [|by repeat constructor].
    eapply weaken_class; [|by apply Huser]. intros c. apply contains_incl. by apply (bool_decide_eq_true_1 _).
  - destruct (url_host u) as [n|a]; cbn [host_text].
    + eapply weaken_class; [|exact Hhost]. intros c. apply contains_incl. by apply (bool_decide_eq_true_1 _).
    + repeat apply Forall_app_2; [by repeat constructor| |by repeat constructor].
      eapply weaken_class; [|exact Hhost]. intros c. apply contains_incl. by apply (bool_decide_eq_true_1 _).
  - destruct (url_port u) as [p|]; [|constructor]. apply Forall_app_2; [by repeat constructor|].
    specialize (Hport p eq_refl). eapply Forall_impl; [exact Hport|]. intros c Hc.
    destruct (ends_authority c) eqn:E; [|done]. unfold ends_authority, contains in E.
    apply existsb_exists in E as (x & Hx & ->%Z.eqb_eq). cbn in Hx.
    by destruct Hx as [<-|[<-|[<-|[]]]].
Qed.

Lemma secure_transport_iff (u : HttpUrl) :
  url_ok u → is_ok (require_secure_transport (url_text u)) = true ↔ loopback_host (host_name (url_host u)) = true.
Proof.
  intros Hu. unfold require_secure_transport, url_text. rewrite strip_prefix_app.
  set (auth := match url_user u with Some s => s ++ of_string "@" | None => [] end ++ host_text (url_host u) ++
    match url_port u with Some p => of_string ":" ++ p | None => [] end).
  assert (first_piece_of ends_authority (match url_user u with Some s => s ++ of_string "@" | None => [] end ++
    host_text (url_host u) ++ match url_port u with Some p => of_string ":" ++ p | None => [] end ++ url_rest u) = auth) as ->.
  { subst auth. rewrite !app_assoc. rewrite <- (app_assoc (match url_user u with Some _ => _ | None => _ end)).
    apply first_piece_app; [by apply authority_chars|]. apply Hu. }
  subst auth. rewrite host_of_authority_text by done. by destruct (loopback_host _).
Qed.


Definition local_url : HttpUrl := mkHttpUrl (Some (of_string "u")) (HostV6 (of_string "::1")) (Some (of_string "8080")) (of_string "/api?x=1").

(** The scheme of a URL is not case sensitive, the check is; and a backslash ends
    the authority of an HTTP URL, but not here. *)
Lemma upper_case_scheme_passes :
  api_new "HTTP://control.example" = Ok (of_string "HTTP://control.example") ∧
  api_new (of_string "http://control.example" ++ [92] ++ "@localhost") =
    Ok (of_string "http://control.example" ++ [92] ++ "@localhost").
Proof. by vm_compute. Qed.

(** ** The files *)

(** Nobody but the owner may read or write. *)
Definition private (f : File) : Prop := Z.land (mode f) 0x3F = 0.

Lemma created_private umask : Z.land (created_mode umask) 0x3F = 0.
Proof.
  unfold created_mode. rewrite <- Z.land_assoc, (Z.land_comm (Z.lnot umask)), Z.land_assoc.
  change (Z.land S_PRIVATE 0x3F) with 0. apply Z.land_0_l.
Qed.

(** What is written for a login or an agent stays with its owner.  A credential
    file that was saved is loaded back as it was, and is gone once cleared; a new
    file is private from its creation; a secret written without [--force] never
    replaces a file; and no other file is touched. *)
Theorem secret_files (umask : Z) (var : str → option str) `{SerdeLaws Credentials} (creds : Credentials) (d d' : Disk) :
  save_credentials var umask creds d = Ok d' →
  load_credentials var d' = Ok (Some creds) ∧
  (∃ path, credentials_path var = Ok path ∧ (d !! path = None → ∃ f, d' !! path = Some f ∧ private f) ∧
    (∀ q, q ≠ path → d' !! q = d !! q)) ∧
  (∃ d0, clear_credentials var d' = Ok d0 ∧ load_credentials var d0 = Ok None) ∧
  ∀ path content overwrite d2, write_secret_file umask path content overwrite d' = Ok d2 →
    (overwrite = false → d' !! path = None) ∧ (∀ q, q ≠ path → d2 !! q = d' !! q) ∧
    ∃ f, d2 !! path = Some f ∧ bytes f = content ∧ (d' !! path = None → private f).
Proof.
  unfold save_credentials, load_credentials, clear_credentials.
  destruct (credentials_path var) as [path|] eqn:Hpath; [|done]. cbn [mbind result_mbind result_bind]. intros [= <-].
  unfold write_private at 1. rewrite lookup_insert_eq. cbn [bytes]. rewrite from_to. split; [done|]. split.
  { exists path. split; [done|]. split.
    - intros Hn. unfold write_private. rewrite lookup_insert_eq, Hn. eexists. split; [done|]. apply created_private.
    - intros q Hq. unfold write_private. by rewrite lookup_insert_ne. }
  split. { eexists. split; [done|]. by rewrite lookup_delete_eq. }
  intros path2 content overwrite d2. set (d' := write_private umask path (to_vec creds) d). unfold write_secret_file.
  destruct (d' !! path2) as [f|] eqn:Hf; [destruct overwrite; [|done]|]; intros [= <-]; (split; [done|]).
  - split; [intros q Hq; unfold write_private; by rewrite lookup_insert_ne|].
    unfold write_private. rewrite lookup_insert_eq. by eexists.
  - split; [intros q Hq; unfold write_private; by rewrite lookup_insert_ne|].
    unfold write_private. rewrite lookup_insert_eq, Hf. eexists. split; [done|]. split; [done|]. intros _. apply created_private.
Qed.

#[global] Instance credentials_eq_dec : EqDecision Credentials.
Proof. solve_decision. Defined.
#[global] Instance credentials_countable : Countable Credentials.
Proof.
  by refine (inj_countable' (λ c, (control_plane c, session_token c, github_login c, user_id c))
    (λ p, mkCredentials p.1.1.1 p.1.1.2 p.1.2 p.2) _); intros [].
Defined.
Definition home_var (v : str) : option str := if str_eqb v "HOME" then Some (of_string "/home/u") else None.
Definition sample_credentials : Credentials :=
  mkCredentials (of_string "https://control.example") (of_string "tok") (of_string "octocat") (of_string "usr_1").

Lemma secret_files_witness :
  ∃ d', @save_credentials (count_serde Credentials) home_var 0x12 sample_credentials ∅ = Ok d' ∧
    @load_credentials (count_serde Credentials) home_var d' = Ok (Some sample_credentials).
Proof.
  eexists. split; [reflexivity|].
  exact (proj1 (secret_files 0x12 home_var (H0 := count_serde_laws Credentials) sample_credentials ∅ _ eq_refl)).
Defined.

(** With [--force] a file keeps the mode it had: a secret written over a file that
    anyone can read can be read by anyone. *)
Lemma forced_secret_readable :
  let d : Disk := {[ [116] := mkFile 0x1A4 [] ]} in
  write_secret_file 0x12 [116] [1; 2; 3] true d = Ok {[ [116] := mkFile 0x1A4 [1; 2; 3] ]} ∧
  ¬ private (mkFile 0x1A4 [1; 2; 3]).
Proof. split; [|by vm_compute]. unfold write_secret_file, write_private. rewrite lookup_singleton_eq. by rewrite insert_singleton_eq. Qed.

(** ** The device flow ends *)

(** Polls are at least [interval] apart. *)
Fixpoint spaced (interval : Duration) (times : list Z) : Prop :=
  match times with
  | a :: (b :: _) as rest => a + interval ≤ b ∧ spaced interval rest
  | _ => True
  end.

Lemma login_loop_ends answers fuel n now deadline interval :
  (∀ k, 0 ≤ poll_took (answers k)) → PolicyUnits.from_secs 1 ≤ interval →
  deadline ≤ now + PolicyUnits.from_secs (Z.of_nat fuel) → (0 < fuel)%nat →
  ∃ times r, login_loop fuel answers n now deadline interval = Some (times, r) ∧
    head times = Some now ∧ (1 ≤ length times ≤ fuel)%nat ∧ spaced interval times ∧
    Forall (λ t, now ≤ t ∧ (t = now ∨ t < deadline)) times.
Proof.
  intros Htook. revert n now interval. induction fuel as [|fuel IH]; intros n now interval Hi Hd Hf; [lia|].
  cbn [login_loop].
  assert (∀ r : result str (str * UserView), ∃ times r', Some ([now], r) = Some (times, r') ∧ head times = Some now ∧
    (1 ≤ length times ≤ S fuel)%nat ∧ spaced interval times ∧ Forall (λ t, now ≤ t ∧ (t = now ∨ t < deadline)) times) as Hstop.
  { intros r. eexists _, _. split; [done|]. cbn. split; [done|]. split; [lia|]. split; [done|].
    constructor; [lia|constructor]. }
  destruct (poll (answers n)) as [[slow| |]|]; [|apply Hstop..].
  set (interval' := if slow then _ else _).
  assert (interval ≤ interval') as Hle by (subst interval'; destruct slow; unfold PolicyUnits.from_secs; lia).
  destruct (Z.leb_spec deadline (now + poll_took (answers n) + interval')) as [_|Hlt]; [apply Hstop|].
  specialize (Htook n). unfold PolicyUnits.from_secs in *.
  destruct (IH (S n) (now + poll_took (answers n) + interval') interval') as (times & r & -> & Hhead & Hlen & Hsp & Hall); [lia..|].
  eexists _, r. split; [reflexivity|]. split; [done|]. split; [cbn; lia|]. destruct times as [|t times]; [done|].
  injection Hhead as ->. split.
  - split; [lia|]. clear -Hle Hsp. revert Hsp. generalize (now + poll_took (answers n) + interval'). induction times as [|t times IH]; intros z; [done|].
    cbn. intros [H1 H2]. split; [lia|]. by apply IH.
  - constructor; [lia|]. eapply Forall_impl; [exact Hall|]. cbn. lia.
Qed.

(** A sign-in ends.  Whatever the control plane answers, and also if it never
    says anything but "pending", the device flow returns: after at most one poll
    per second of the lifetime it announced, fifteen minutes at most, no two polls
    closer than the interval it asked for, and none after the code has expired. *)
Theorem login_ends (start : DeviceStart) (answers : nat → PollAnswer) (now : Z) :
  (∀ n, 0 ≤ poll_took (answers n)) →
  let lifetime := Z.min (ds_expires_in start) LOGIN_MAX in
  ∃ times r, login (Z.to_nat (Z.max 1 lifetime)) start answers now = Some (times, r) ∧
    (1 ≤ length times)%nat ∧ Z.of_nat (length times) ≤ Z.max 1 lifetime ≤ 900 ∧
    spaced (PolicyUnits.from_secs (Z.max (ds_interval start) 1)) times ∧
    Forall (λ t, t = now ∨ now < t < now + PolicyUnits.from_secs lifetime) times.
Proof.
  intros Htook lifetime. subst lifetime. unfold login.
  set (lifetime := Z.min (ds_expires_in start) LOGIN_MAX).
  destruct (login_loop_ends answers (Z.to_nat (Z.max 1 lifetime)) 0 now (now + PolicyUnits.from_secs lifetime)
    (PolicyUnits.from_secs (Z.max (ds_interval start) 1)) Htook) as (times & r & Hl & _ & Hlen & Hsp & Hall);
    [unfold PolicyUnits.from_secs; lia..|].
  exists times, r. split; [done|]. split; [lia|]. split; [unfold LOGIN_MAX in *; lia|]. split; [done|].
  eapply Forall_impl; [exact Hall|]. cbn. lia.
Qed.

Lemma login_ends_witness :
  let start := mkDeviceStart "d" "ABCD" "https://control.example/device" 5 60 in
  let answers n := mkPollAnswer (PolicyUnits.from_secs 1) (Ok (Pending (Nat.eqb n 1))) in
  (∃ r, login 60 start answers 0 = Some (map PolicyUnits.from_secs [0; 6; 17; 28; 39; 50], r)) ∧
  ∃ times r, login 60 start answers 0 = Some (times, r) ∧ (1 ≤ length times)%nat.
Proof.
  cbv zeta. split; [eexists; by vm_compute|].
  destruct (login_ends (mkDeviceStart "d" "ABCD" "https://control.example/device" 5 60)
    (λ n, mkPollAnswer (PolicyUnits.from_secs 1) (Ok (Pending (Nat.eqb n 1)))) 0) as (times & r & H & Hlen & _).
  - intros n. cbn [poll_took]. unfold PolicyUnits.from_secs. lia.
  - exists times, r. split; [exact H|exact Hlen].
Defined.

(** ** The audit trail is read in full *)

Section trail.
Context {AuditView : Type}.
Context (all : list AuditView) (clamp : nat) (cursor_at : nat → str) (position : str → nat).
Context (Hcursor : ∀ n, position (cursor_at n) = n).

(** A control plane that serves a trail: from the position of the cursor, at most
    what is asked for and what it gives in one answer, and a cursor if there is
    more. *)
Definition serve_audit (limit : nat) (cursor : option str) : result str (AuditPage AuditView) :=
  let from := match cursor with Some c => position c | None => 0%nat end in
  let n := Nat.min limit clamp in
  Ok (mkAuditPage (take n (drop from all))
        (if (from + n <? length all)%nat then Some (cursor_at (from + n)) else None)).

Lemma audit_loop_reads fuel want from cursor :
  (0 < clamp)%nat → (from < want)%nat → (want - from ≤ fuel)%nat → (from ≤ length all)%nat →
  match cursor with Some c => position c | None => 0%nat end = from →
  audit_loop serve_audit fuel want (take from all) cursor = Some (Ok (take want all)).
Proof.
  intros Hclamp. revert from cursor. induction fuel as [|fuel IH]; intros from cursor Hw Hf Hlen Hc; [lia|].
  cbn [audit_loop]. unfold serve_audit. rewrite Hc. cbn [page_events next_cursor].
  rewrite (length_take_le all from) by done. set (n := Nat.min (Nat.min (want - from) PAGE) clamp).
  assert (0 < n ≤ want - from)%nat as Hn by (unfold n, PAGE; lia).
  rewrite take_take_drop. destruct (Nat.ltb_spec (from + n) (length all)) as [Hmore|Hend].
  - rewrite length_take_le by lia. destruct (Nat.ltb_spec (from + n) want) as [Hlt|Hge].
    + apply IH; [lia..|]. by rewrite Hcursor.
    + do 3 f_equal. lia.
  - do 2 f_equal. rewrite !take_ge by lia. done.
Qed.

(** [audit query] gathers what was asked for.  Against a control plane that
    serves a trail page by page, with whatever page size and cursors, the loop
    ends, at the latest after one request per event wanted, with exactly the first
    events of the trail, as many as asked for (fifty if nothing was said) or all
    there are. *)
Theorem audit_query_complete (limit : option nat) :
  (0 < clamp)%nat →
  query_audit serve_audit (audit_want limit) limit = Some (Ok (take (audit_want limit) all)).
Proof.
  intros Hc. unfold query_audit.
  apply (audit_loop_reads (audit_want limit) (audit_want limit) 0 None); unfold audit_want; try lia; done.
Qed.
End trail.

Lemma audit_query_complete_witness :
  (0 < 2)%nat ∧
  query_audit (serve_audit [10; 20; 30; 40; 50] 2 (λ n, [Z.of_nat n]) (λ c, Z.to_nat (default 0 (head c)))) 3 (Some 3%nat) =
    Some (Ok [10; 20; 30]).
Proof.
  split; [lia|].
  refine (audit_query_complete [10; 20; 30; 40; 50] 2 (λ n, [Z.of_nat n]) (λ c, Z.to_nat (default 0 (head c))) _ (Some 3%nat) _).
  - intros n. cbn. lia.
  - lia.
Defined.
