(* ===== verification/Sandbox.v ===== *)
(** * The sandbox of an agent

    Model of [crates/skimasque-cli/src/sandbox.rs]: the settings a command is
    confined with, its command line, and the judgement of the check that the
    confinement works.  A JSON object is a list of members with distinct names; the
    order of members means nothing. *)

From S2P Require Import Prelude RustStr RustNet Service Identity Socks5.

Definition SCRUBBED_ENV : list str :=
  [of_string "HTTP_PROXY"; of_string "http_proxy"; of_string "HTTPS_PROXY"; of_string "https_proxy";
   of_string "ALL_PROXY"; of_string "all_proxy"; of_string "NO_PROXY"; of_string "no_proxy";
   of_string "SKIMASQUE_TOKEN"; of_string "SKIMASQUE_TOKEN_FILE"; of_string "SKIMASQUE_OIDC_TOKEN"].

Definition PROBE_ESCAPED : str := "connected".
Definition PROBE_BLOCKED : str := "blocked".

Definition check_allow_domain (raw : str) : result str str :=
  let domain := trim raw in
  if bool_decide (domain = []) then Err (of_string "an allowed domain cannot be empty")
  else if str_eqb domain "*" || (starts_with "*." domain && negb (contains 46 (drop 2 domain)))
  then Err ([34] ++ domain ++ [34] ++ " is too broad: the sandbox runtime refuses a bare " ++ [34; 42; 34] ++
    " or a whole top-level domain. Name the domains the agent needs, e.g. " ++ [34] ++ "*.acme.dev" ++ [34] ++
    "; the gateway's policy still decides each connection")
  else if contains_str "://" domain || contains 47 domain || existsb is_whitespace domain
  then Err ([34] ++ domain ++ [34] ++ " is not a host pattern: give a host such as " ++ [34] ++ "api.acme.dev" ++ [34] ++
    ", " ++ [34] ++ "*.acme.dev" ++ [34] ++ " or " ++ [34] ++ "api.acme.dev:443" ++ [34] ++
    ", without a scheme or path")
  else Ok domain.

(** ** Settings *)

Abbreviation Members := (list (str * Json)).

Fixpoint member (m : Members) (key : str) : option Json :=
  match m with
  | [] => None
  | (k, v) :: m => if str_eqb k key then Some v else member m key
  end.
(** [map.entry(key).or_insert_with(|| v)]. *)
Definition or_insert_member (m : Members) (key : str) (v : Json) : Members :=
  match member m key with Some _ => m | None => m ++ [(key, v)] end.
(** [map.insert(key, v)]. *)
Fixpoint set_member (m : Members) (key : str) (v : Json) : Members :=
  match m with
  | [] => [(key, v)]
  | (k, w) :: m => if str_eqb k key then (k, v) :: m else (k, w) :: set_member m key v
  end.

(** The object under [key], created empty if there is none, changed in place. *)
Definition with_object (m : Members) (key : str) (f : Members → result str Members) : result str Members :=
  let m := or_insert_member m key (JObject []) in
  match member m key with
  | Some (JObject o) => o ← f o; Ok (set_member m key (JObject o))
  | _ => Err ([34] ++ key ++ [34] ++ " in the sandbox settings must be an object")
  end.

Definition names_path (path : str) (v : Json) : bool := bool_decide (as_str v = Some path).
Definition push_path (denied : list Json) (path : str) : list Json :=
  if existsb (names_path path) denied then denied else denied ++ [JString path].

Definition settings_filesystem (deny_read : list str) (fs : Members) : result str Members :=
  let fs := or_insert_member fs "allowWrite" (JArray [JString "."]) in
  let fs := or_insert_member fs "denyWrite" (JArray []) in
  let fs := or_insert_member fs "denyRead" (JArray []) in
  match member fs "denyRead" with
  | Some (JArray denied) => Ok (set_member fs "denyRead" (JArray (fold_left push_path deny_read denied)))
  | _ => Err ([34] ++ "filesystem.denyRead" ++ [34] ++ " must be a list")
  end.

Definition settings_network (allow : list str) (parent : SocketAddr) (net : Members) : result str Members :=
  let url := JString ("http://" ++ display_socket parent) in
  let net := or_insert_member net "deniedDomains" (JArray []) in
  let net := set_member net "allowedDomains" (JArray (map JString allow)) in
  Ok (set_member net "parentProxy" (JObject [(of_string "http", url); (of_string "https", url)])).

Definition settings (base : option Json) (allow : list str) (parent : SocketAddr) (deny_read : list str)
    : result str Json :=
  doc ← match base with
        | None => Ok []
        | Some (JObject m) => Ok m
        | Some _ => Err (of_string "the sandbox settings file must be a JSON object")
        end;
  if bool_decide (allow = []) then Err ("--sandbox needs at least one --allow-domain: the sandbox runtime allows no network access until domains are named, and it will not accept " ++ [34; 42; 34])
  else
    doc ← with_object doc "filesystem" (settings_filesystem deny_read);
    doc ← with_object doc "network" (settings_network allow parent);
    Ok (JObject doc).

(** ** Command line and check *)

Definition argv (settings_file : str) (command : list str) : list str :=
  [of_string "--settings"; settings_file; of_string "--"] ++ command.

(** [probe_connect]: [connected] tells whether the connection was made. *)
Definition probe_connect (connected : bool) : str := if connected then PROBE_ESCAPED else PROBE_BLOCKED.

Definition judge_probe (stdout : str) (success : bool) : result str unit :=
  if str_eqb (trim stdout) PROBE_BLOCKED && success then Ok tt
  else if str_eqb (trim stdout) PROBE_ESCAPED then
    Err (of_string "the sandbox did not stop a direct connection to this host's own network address, so it is not confining the command. Refusing to start the agent")
  else Err (of_string "could not confirm that the sandbox blocks direct connections (the check did not run to completion inside it). Refusing to start the agent").

(** ** What the settings say *)

Lemma member_or_insert m key v k :
  member (or_insert_member m key v) k =
    match member m k with Some w => Some w | None => if str_eqb key k then Some v else None end.
Proof.
  unfold or_insert_member. destruct (member m key) as [w|] eqn:Hm.
  - destruct (member m k) eqn:Hk; [done|]. destruct (str_eqb key k) eqn:E; [|done].
    apply bool_decide_eq_true in E. congruence.
  - revert Hm. induction m as [|[k' w] m IH]; [done|]. cbn [member app].
    destruct (str_eqb k' key); [done|]. intros Hm. destruct (str_eqb k' k); [done|]. exact (IH Hm).
Qed.

Lemma member_set m key v k : member (set_member m key v) k = if str_eqb key k then Some v else member m k.
Proof.
  induction m as [|[k' w] m IH]; cbn [set_member member]; [done|].
  destruct (str_eqb k' key) eqn:E; cbn [member].
  - apply bool_decide_eq_true in E as ->. by destruct (str_eqb key k).
  - destruct (str_eqb k' k) eqn:E'; [|exact IH]. apply bool_decide_eq_true in E' as ->.
    destruct (str_eqb key k) eqn:E'; [|done]. apply bool_decide_eq_true in E' as ->.
    unfold str_eqb in E. by rewrite bool_decide_eq_true_2 in E.
Qed.

Lemma str_eqb_other key k : k ≠ key → str_eqb key k = false.
Proof. intros Hk. apply bool_decide_eq_false. congruence. Qed.

Lemma with_object_Ok m key f m' :
  with_object m key f = Ok m' →
  ∃ o o', f o = Ok o' ∧ member m' key = Some (JObject o') ∧
    (member m key = Some (JObject o) ∨ (member m key = None ∧ o = [])) ∧
    ∀ k, k ≠ key → member m' k = member m k.
Proof.
  unfold with_object. destruct (member (or_insert_member m key (JObject [])) key) as [[| | | | |o]|] eqn:Ho; try done.
  rewrite member_or_insert in Ho.
  destruct (f o) as [o'|] eqn:Hf; [|done]. intros [= <-]. exists o, o'. split; [done|].
  rewrite member_set. unfold str_eqb at 1. rewrite bool_decide_eq_true_2 by done. split; [done|]. split.
  - destruct (member m key) as [w|]; [left; congruence|]. right. split; [done|].
    unfold str_eqb in Ho. rewrite bool_decide_eq_true_2 in Ho by done. congruence.
  - intros k Hk. rewrite member_set, member_or_insert. unfold str_eqb. rewrite !bool_decide_eq_false_2 by done.
    by destruct (member m k).
Qed.

Lemma push_paths_keep paths denied v : v ∈ denied → v ∈ fold_left push_path paths denied.
Proof.
  revert denied. induction paths as [|p paths IH]; intros denied Hv; [done|]. cbn [fold_left]. apply IH.
  unfold push_path. destruct (existsb _ denied); [done|]. apply elem_of_app. by left.
Qed.

Lemma push_paths_all paths denied p : p ∈ paths → JString p ∈ fold_left push_path paths denied.
Proof.
  revert denied. induction paths as [|q paths IH]; intros denied Hp; [by apply elem_of_nil in Hp|]. cbn [fold_left].
  apply elem_of_cons in Hp as [->|Hp]; [|by apply IH]. apply push_paths_keep. unfold push_path.
  destruct (existsb (names_path q) denied) eqn:E; [|apply elem_of_app; right; left].
  apply existsb_exists in E as (v & Hv & Hn%bool_decide_eq_true). destruct v; try done. injection Hn as ->.
  by apply list_elem_of_In.
Qed.

(** The sandbox leaves one way out.  Whatever settings file the user gives: the
    generated settings send all traffic to the proxy of this run and allow exactly
    the domains named on the command line, and the paths to be hidden are denied in
    addition to the user's own; everything else the user wrote is kept.  A file in
    which one of these is not what it must be is refused. *)
Theorem settings_confine (base : option Json) (allow : list str) (parent : SocketAddr) (deny_read : list str) (doc : Json) :
  settings base allow parent deny_read = Ok doc →
  let before := match base with Some (JObject m) => m | _ => [] end in
  let inner m key := match member m key with Some (JObject o) => o | _ => [] end in
  let url := JString ("http://" ++ display_socket parent) in
  allow ≠ [] ∧ ∃ m, doc = JObject m ∧
    member (inner m (of_string "network")) "parentProxy" =
      Some (JObject [(of_string "http", url); (of_string "https", url)]) ∧
    member (inner m (of_string "network")) "allowedDomains" = Some (JArray (map JString allow)) ∧
    (∃ denied, member (inner m (of_string "filesystem")) "denyRead" = Some (JArray denied) ∧
      (∀ p, p ∈ deny_read → JString p ∈ denied) ∧
      ∀ own v, member (inner before (of_string "filesystem")) "denyRead" = Some (JArray own) → v ∈ own → v ∈ denied) ∧
    (∀ k, k ≠ of_string "network" → k ≠ of_string "filesystem" → member m k = member before k) ∧
    (∀ k v, k ≠ of_string "denyRead" → member (inner before (of_string "filesystem")) k = Some v →
      member (inner m (of_string "filesystem")) k = Some v) ∧
    (∀ k v, k ≠ of_string "allowedDomains" → k ≠ of_string "parentProxy" →
      member (inner before (of_string "network")) k = Some v → member (inner m (of_string "network")) k = Some v).
Proof.
  unfold settings. intros H.
  set (before := match base with Some (JObject m) => m | _ => [] end).
  assert (match base with None => Ok [] | Some (JObject m) => Ok m
    | Some _ => Err (of_string "the sandbox settings file must be a JSON object") end = Ok before ∨ ∃ e : str,
    (match base with None => Ok [] | Some (JObject m) => Ok m
    | Some _ => Err (of_string "the sandbox settings file must be a JSON object") end : result str Members) = Err e) as [Hb|[e Hb]];
    [by subst before; destruct base as [[| | | | |]|]; eauto| |by rewrite Hb in H].
  rewrite Hb in H. cbn [mbind result_mbind result_bind] in H. case_bool_decide as Ha; [done|]. split; [done|].
  destruct (with_object before _ _) as [m1|] eqn:H1; [|done]. cbn [mbind result_mbind result_bind] in H.
  destruct (with_object m1 _ _) as [m2|] eqn:H2; [|done]. injection H as <-. exists m2. split; [done|].
  apply with_object_Ok in H1 as (fs & fs' & Hfs & Hm1 & Hfs0 & Hk1).
  apply with_object_Ok in H2 as (net & net' & Hnet & Hm2 & Hnet0 & Hk2).
  assert (member m2 (of_string "filesystem") = Some (JObject fs')) as Hfs2 by (by rewrite Hk2).
  rewrite (Hk1 (of_string "network")) in Hnet0 by done.
  assert (fs = match member before (of_string "filesystem") with Some (JObject o) => o | _ => [] end) as Efs
    by (destruct Hfs0 as [->|[-> ->]]; done).
  assert (net = match member before (of_string "network") with Some (JObject o) => o | _ => [] end) as Enet
    by (destruct Hnet0 as [->|[-> ->]]; done).
  cbv zeta. rewrite Hm2, Hfs2. clearbody before. rewrite <- Efs, <- Enet. injection Hnet as <-. clear Efs Enet.
  unfold settings_filesystem in Hfs. set (fs3 := or_insert_member _ (of_string "denyRead") _) in Hfs.
  destruct (member fs3 (of_string "denyRead")) as [[| | | |own|]|] eqn:Hd; try done. injection Hfs as <-.
  split; [by rewrite member_set|]. split; [by rewrite !member_set|].
  split.
  { exists (fold_left push_path deny_read own). split; [by rewrite member_set|].
    split; [intros p Hp; by apply push_paths_all|]. intros own' v Hown Hv. apply push_paths_keep.
    subst fs3. rewrite !member_or_insert, Hown in Hd. injection Hd as <-. done. }
  split; [intros k Hn Hf; by rewrite Hk2, Hk1|]. split.
  - intros k v Hk Hv. rewrite member_set, str_eqb_other by exact Hk.
    subst fs3. by rewrite !member_or_insert, Hv.
  - intros k v Hk1' Hk2' Hv.
    rewrite !member_set, str_eqb_other by exact Hk2'. rewrite str_eqb_other by exact Hk1'.
    by rewrite member_or_insert, Hv.
Qed.

Definition example_base : Json :=
  JObject [(of_string "filesystem", JObject [(of_string "denyRead", JArray [JString "~/.ssh"])]);
           (of_string "network", JObject [(of_string "parentProxy", JNull)])].

Lemma settings_confine_witness :
  ∃ doc, settings (Some example_base) [of_string "a.dev"] {| sa_ip := V4 2130706433; sa_port := 41234 |} [of_string "/login"] = Ok doc ∧
    ∃ m, doc = JObject m.
Proof.
  eexists. split; [reflexivity|].
  destruct (settings_confine (Some example_base) [of_string "a.dev"] {| sa_ip := V4 2130706433; sa_port := 41234 |} [of_string "/login"]
    _ eq_refl) as (_ & m & Hm & _).
  exists m. exact Hm.
Defined.

(** Only an explicit "blocked" from a check that ran to its end counts. *)
Lemma judge_probe_Ok stdout success : judge_probe stdout success = Ok tt ↔ trim stdout = PROBE_BLOCKED ∧ success = true.
Proof.
  unfold judge_probe. destruct (str_eqb (trim stdout) PROBE_BLOCKED) eqn:E; destruct success; cbn [andb].
  1: by apply bool_decide_eq_true in E.
  all: split; [by destruct (str_eqb (trim stdout) PROBE_ESCAPED)|]; intros [H1 H2]; try done.
  all: by rewrite H1 in E.
Qed.
