(* ===== verification/Exec.v ===== *)
(** * Running a command behind the gateway

    Model of [crates/skimasque-cli/src/exec.rs] and of [locate] of
    [crates/skimasque-cli/src/sandbox.rs], on Unix: the decisions of
    [skimasque exec], and the run itself as the list of what it does to the world.

    The world is a [Host]: the files, the control plane and the gateway it talks to,
    the signals that arrive, and how the command ends.  A run is a writer and error
    monad over the actions: a failure ends it with an exit status, and what was done
    before stays done. *)

From S2P Require Import Prelude RustStr RustNet Target Template PolicyUnits PolicyModel PolicyEval PolicyDest Identity Service.
From S2P Require Import PolicyChecks PolicyLayer HttpConnect PolicyCli Session Account Sandbox.

(** ** Arguments *)

Definition CLOUD_CONTROL_PLANE : str := "https://control.skimasque.com".
Definition CLOUD_GATEWAY : str := "gateway.skimasque.com".
Definition PREFLIGHT_PLACEHOLDER : str := "preflight.invalid:1".
Definition EXIT_FAILED : Z := 125.
Definition EXIT_NOT_EXECUTABLE : Z := 126.
Definition EXIT_NOT_FOUND : Z := 127.

Inductive SandboxRuntime : Type := Srt.

Record ExecArgs : Type := mkExecArgs {
  x_policy : option str;
  x_app : option str;
  x_gateway : option str;
  x_control_plane : option str;
  x_forwards : list ForwardSpec;
  x_agent : bool;
  x_ttl : option str;
  x_runtime : option str;
  x_run_id : option str;
  x_parent : option str;
  x_sandbox : option SandboxRuntime;
  x_allow_domains : list str;
  x_sandbox_settings : option str;
  x_unsandboxed : bool;
  x_quiet : bool;
  x_tls : TlsArgs;
  x_auth : AuthArgs;
  x_command : list str;
}.

Definition sandboxed (args : ExecArgs) : bool := bool_decide (is_Some (x_sandbox args)).

Definition validate (args : ExecArgs) : result str unit :=
  if x_agent args && negb (sandboxed args) && negb (x_unsandboxed args) then
    Err (of_string "an agent needs a sandbox: pass --sandbox srt (with --allow-domain), or --unsandboxed to run it with nothing stopping direct connections")
  else if sandboxed args then
    if bool_decide (x_allow_domains args = []) then
      Err ("--sandbox needs at least one --allow-domain: the sandbox runtime allows no network access until domains are named, and it will not accept " ++ [34; 42; 34])
    else if negb (bool_decide (x_forwards args = [])) then
      Err (of_string "--forward cannot be combined with --sandbox: the sandboxed command cannot reach loopback listeners outside the sandbox")
    else Ok tt
  else Ok tt.

Definition resolve_control_plane (explicit : option str) (login : option Credentials) : str :=
  normalize_base_url
    (default CLOUD_CONTROL_PLANE
       (match explicit with Some e => Some e | None => control_plane <$> login end)).

Definition resolve_gateway (explicit : option str) (control_plane : str) : result str str :=
  match explicit with
  | Some gateway => Ok gateway
  | None =>
      if str_eqb control_plane CLOUD_CONTROL_PLANE then Ok CLOUD_GATEWAY
      else Err ("No gateway is configured for " ++ control_plane ++ ". Pass --gateway or set SKIMASQUE_GATEWAY.")
  end.

(** [Path::file_stem] and [Path::extension] of a file name: split at the last dot,
    unless that is the first character. *)
Definition split_dot (file : str) : str * option str :=
  match rsplit_once 46 file with
  | Some (before, after) => if bool_decide (before = []) then (file, None) else (before, Some after)
  | None => (file, None)
  end.
Definition default_app (command : str) : str :=
  match file_name command with Some file => (split_dot file).1 | None => command end.

Definition child_env (http socks : SocketAddr) (forwards : list (ForwardSpec * SocketAddr)) : list (str * str) :=
  let http_url := "http://" ++ display_socket http in
  let socks_url := "socks5h://" ++ display_socket socks in
  map (λ name, (name, http_url))
    [of_string "HTTPS_PROXY"; of_string "https_proxy"; of_string "HTTP_PROXY"; of_string "http_proxy"] ++
  map (λ name, (name, socks_url)) [of_string "ALL_PROXY"; of_string "all_proxy"] ++
  map (λ name, (name, of_string "localhost,127.0.0.1,::1")) [of_string "NO_PROXY"; of_string "no_proxy"] ++
  [(of_string "SKIMASQUE_PROXY_HTTP", display_socket http);
   (of_string "SKIMASQUE_PROXY_SOCKS5", display_socket socks)] ++
  map (λ f, (env_name f.1, display_socket f.2)) forwards.

Definition identity_label (identity : option WorkloadIdentity) : str :=
  default (of_string "unknown")
    (i ← identity;
     match actor i, repository i with
     | Some a, _ => Some a
     | None, Some r => Some r
     | None, None => organization i
     end).

(** ** The preflight *)

Record SimStep : Type := mkSimStep { step_ok : bool; step_text : str }.
Record SimLimit : Type := mkSimLimit { limit_label : str; limit_value : str }.
Record SimulateResult : Type := mkSimulateResult {
  sim_against : str;
  sim_outcome : str;
  sim_policy : option str;
  sim_rule : option str;
  sim_steps : list SimStep;
  sim_suggested_rule : option str;
  sim_closest : list str;
  sim_limits : list SimLimit;
}.

Record Checked : Type := mkChecked { selected : option str; ck_allowed : list bool; ck_session : option str }.

Definition sim_allows (r : SimulateResult) : bool := str_eqb (sim_outcome r) "allow".

Definition judge (pin : option str) (who : str) (probes : list (str * SimulateResult)) (forwards : nat) : result str Checked :=
  let selected := match probes with p :: _ => sim_policy p.2 | [] => None end in
  _ ← match pin with
      | Some pin =>
          if bool_decide (selected = Some pin) then Ok tt
          else
            let chose := match selected with Some s => quoted s | None => of_string "no policy" end in
            Err ("Policy " ++ quoted pin ++ " does not apply to you (" ++ who ++ "). SkiMasque selected " ++ chose ++
                 " for this identity.")
      | None => Ok tt
      end;
  if bool_decide (forwards = 0%nat) then Ok (mkChecked selected [] None)
  else
    let allowed := map (λ p, sim_allows p.2) probes in
    if negb (existsb (λ a, a) allowed) then
      Err ("Every destination would be denied:" ++
           flat_map (λ p, nl ++ "  " ++ p.1 ++ ": denied." ++
             match sim_suggested_rule p.2 with Some rule => " To allow it: " ++ rule | None => [] end) probes)
    else
      let session :=
        p ← List.find (λ p, sim_allows p.2) probes;
        limit_value <$> List.find (λ l, str_eqb (limit_label l) "duration") (sim_limits p.2) in
      Ok (mkChecked selected allowed session).

(** ** The access summary *)

Record AccessLine : Type := mkAccessLine { destination : str; al_allowed : option bool; local : SocketAddr }.
Record HeaderView : Type := mkHeaderView {
  hv_identity : str;
  hv_policy : str;
  hv_application : str;
  hv_gateway : str;
  access : list AccessLine;
  hv_session : option str;
}.

(** [format!("{s:<width$}")]. *)
Definition pad_right (width : nat) (s : str) : str := s ++ repeat 32 (width - length s).

Definition access_line (l : AccessLine) : str :=
  match al_allowed l with
  | Some ok => "  " ++ pad_right 16 (destination l) ++ " " ++ [if ok then 0x2713 else 0x2717] ++ "  " ++ [0x2192] ++ " " ++
               display_socket (local l) ++ nl
  | None => "  " ++ pad_right 16 (destination l) ++ " " ++ [0x2192] ++ " " ++ display_socket (local l) ++ nl
  end.

Definition render_header (v : HeaderView) : str :=
  "SkiMasque" ++ nl ++ nl ++
  flat_map (λ lv, pad_right 13 lv.1 ++ lv.2 ++ nl)
    [(of_string "Identity", hv_identity v); (of_string "Policy", hv_policy v);
     (of_string "Application", hv_application v); (of_string "Gateway", hv_gateway v)] ++
  (if bool_decide (access v = []) then [] else nl ++ "Access" ++ nl ++ flat_map access_line (access v)) ++
  match hv_session v with Some s => nl ++ "Session" ++ nl ++ "  " ++ s ++ nl | None => [] end ++
  nl ++ "Connected." ++ nl.

(** ** Finding a program *)

(** [Path::components().count()]. *)
Definition component_count (p : str) : nat :=
  ((if starts_with "/" p then 1 else if bool_decide (hd [] (split 47 p) = of_string ".") then 1 else 0) +
   length (List.filter (λ c, negb (bool_decide (c = [])) && negb (str_eqb c ".")) (split 47 p)))%nat.

Section programs.
Context (is_file : str → bool).

Definition resolve_program (program : str) (path pathext : option str) : option str :=
  if negb (Nat.eqb (component_count program) 1) ||
     bool_decide (is_Some (file ← file_name program; (split_dot file).2)) then None
  else
    let pathext := default (of_string ".COM;.EXE;.BAT;.CMD") pathext in
    let extensions := List.filter (λ e, negb (bool_decide (e = []))) (split 59 pathext) in
    path ← path;
    List.find is_file
      (flat_map (λ dir, map (λ ext, join dir (program ++ ext)) extensions)
         (List.filter (λ dir, negb (bool_decide (dir = []))) (split 58 path))).

Definition locate (program : str) (path pathext : option str) : option str :=
  if Nat.ltb 1 (component_count program) then if is_file program then Some program else None
  else
    match resolve_program program path pathext with
    | Some found => Some found
    | None => path ← path; List.find is_file (map (λ dir, join dir program) (split 58 path))
    end.
End programs.

(** ** How a command ends *)

Inductive SpawnError : Type := NotFound | OtherIo (text : str).
Definition spawn_error_code (e : SpawnError) : Z :=
  match e with NotFound => EXIT_NOT_FOUND | OtherIo _ => EXIT_NOT_EXECUTABLE end.

(** [ExitStatus]: an exit code, or the signal that ended it, or neither. *)
Record ExitStatus : Type := mkExitStatus { es_code : option Z; es_signal : option Z }.
Definition status_code (s : ExitStatus) : Z :=
  match es_code s with
  | Some code => code
  | None => match es_signal s with Some signal => 128 + signal | None => EXIT_FAILED end
  end.

(** ** The world *)

Record Login : Type := mkLogin { login_creds : Credentials; login_org : str }.
Record Output : Type := mkOutput { out_stdout : str; out_stderr : str; out_success : bool }.
Record AgentSession : Type := mkAgentSession { session_id : str; session_credential : str }.

Record Host (Conn : Type) : Type := mkHost {
  (** The environment and the files of this machine. *)
  var : str → option str;
  is_file : str → bool;
  read_file : str → option (list Z);
  read_text : str → result str str;
  json_from_str : str → result str Json;
  current_exe : result str str;
  (** [account::load], and the control plane's answer to each request. *)
  load : result str (option Credentials);
  answer_orgs : ApiRequest → result str (list str);
  answer_start : ApiRequest → result str AgentSession;
  answer_end : ApiRequest → result str unit;
  answer_mint : ApiRequest → result str Credential;
  answer_simulate : ApiRequest → result str SimulateResult;
  (** The gateway: name lookup, the QUIC session and the credential exchange on it. *)
  lookup_host : str → result str (list SocketAddr);
  connect : TrustStore → SocketAddr → UriTemplate → result str Conn;
  id_token : str → result str str;
  exchange_credential : Conn → str → result str Credential;
  set_header : list (str * str) → str → str → option (list (str * str));
  peek_identity : str → option WorkloadIdentity;
  identity_json : WorkloadIdentity → Json;
  display_unit_error : ParseUnitError → str;
  (** The address the n-th loopback listener gets when it asks for a port. *)
  bind : nat → Z → result str SocketAddr;
  (** The sandbox: where the settings end up, the address to aim at, and what the
      check printed, if it ended in time. *)
  write_settings : Json → result str str;
  probe_target : result str SocketAddr;
  run_check : list str → option (result str Output);
  (** Signals: registering them; one that arrives while the agent session is being
      started or the gateway session prepared, after so many actions of it; those
      that arrive while the command runs. *)
  register : result str unit;
  signal_in_start : option (nat * Z);
  signal_in_prepare : option (nat * Z);
  signals : list Z;
  (** Starting the command, and how waiting for it ends. *)
  spawn : list str → list str → list (str * str) → option SpawnError;
  wait : result str ExitStatus;
}.
Arguments mkHost {Conn} var is_file read_file read_text json_from_str current_exe load answer_orgs answer_start
  answer_end answer_mint answer_simulate lookup_host connect id_token exchange_credential set_header peek_identity
  identity_json display_unit_error bind write_settings probe_target run_check register signal_in_start
  signal_in_prepare signals spawn wait.
Arguments var {Conn} _. Arguments is_file {Conn} _. Arguments read_file {Conn} _. Arguments read_text {Conn} _.
Arguments json_from_str {Conn} _. Arguments current_exe {Conn} _. Arguments load {Conn} _.
Arguments answer_orgs {Conn} _. Arguments answer_start {Conn} _. Arguments answer_end {Conn} _.
Arguments answer_mint {Conn} _. Arguments answer_simulate {Conn} _. Arguments lookup_host {Conn} _.
Arguments connect {Conn} _. Arguments id_token {Conn} _. Arguments exchange_credential {Conn} _.
Arguments set_header {Conn} _. Arguments peek_identity {Conn} _. Arguments identity_json {Conn} _.
Arguments display_unit_error {Conn} _. Arguments bind {Conn} _. Arguments write_settings {Conn} _.
Arguments probe_target {Conn} _. Arguments run_check {Conn} _. Arguments register {Conn} _.
Arguments signal_in_start {Conn} _. Arguments signal_in_prepare {Conn} _. Arguments signals {Conn} _.
Arguments spawn {Conn} _. Arguments wait {Conn} _.

(** ** Actions *)

Inductive Task : Type :=
  | TaskRefresh
  | TaskForward (spec : ForwardSpec) (local : SocketAddr)
  | TaskHttp (local : SocketAddr)
  | TaskSocks (local : SocketAddr).

Inductive Action : Type :=
  (** The control plane started an agent session; its end was asked for. *)
  | SessionStarted (org : str) (s : AgentSession)
  | SessionEnd (org : str) (sid : str)
  (** A gateway session was opened that sends these headers; it was closed. *)
  | Opened (gateway : str) (headers : list (str * str))
  | Closed
  | Spawned (t : Task)
  | Aborted (t : Task)
  | SettingsWritten (file : str) (doc : Json)
  | SettingsRemoved (file : str)
  | CheckRun (line : list str) (env_removed : list str) (out : Output)
  | CommandRun (line : list str) (env_removed : list str) (env_added : list (str * str))
  | Kill (signal : Z)
  | StartKill
  | Say (text : str).

Record Failure : Type := mkFailure { f_code : Z; f_message : str }.
Definition failed (message : str) : Failure := mkFailure EXIT_FAILED message.

(** What was done, and how it ended. *)
Definition Run (A : Type) : Type := list Action * result Failure A.
#[global] Instance run_ret : MRet Run := λ A a, ([], Ok a).
#[global] Instance run_bind : MBind Run := λ A B f m,
  match m.2 with
  | Ok a => (m.1 ++ (f a).1, (f a).2)
  | Err e => (m.1, Err e)
  end.
Definition act (a : Action) : Run unit := ([a], Ok tt).
Definition lift {A} (r : result str A) : Run A := ([], map_err failed r).

(** [select!] with the next signal: the future is dropped where it stands. *)
Definition interruptible {A} (signal : option (nat * Z)) (m : Run A) : Run A :=
  match signal with
  | Some (n, signal) => (take n m.1, Err (mkFailure (128 + signal) (of_string "interrupted before the command started")))
  | None => m
  end.

Section run.
Context {Conn : Type} (h : Host Conn).

(** ** The agent session *)

Record AgentLease : Type := mkAgentLease {
  lease_api : str;
  login_token : str;
  lease_org : str;
  lease_session : AgentSession;
}.

(** [account::resolve_org] over an [Api]. *)
Definition org_of (api : str) (creds : Credentials) (explicit : option str) : result str str :=
  resolve_org (answer_orgs h (request_of api (session_token creds) ListOrgs)) creds explicit.

Definition lease_start (args : ExecArgs) : Run AgentLease :=
  creds ← lift (load h);
  creds ← lift (ok_or creds (of_string "--agent needs a SkiMasque login to start the session: run `skimasque login`"));
  api ← lift (api_new (control_plane creds));
  org ← lift (org_of api creds (arg_org (x_auth args)));
  ttl ← lift (match x_ttl args with
              | Some t => map_err (λ e, "--ttl: " ++ display_unit_error h e) ((λ d, Some (as_secs d)) <$> parse_duration t)
              | None => Ok None
              end);
  let request := mkAgentSessionRequest ttl (x_run_id args)
    (Some (default (default_app (hd [] (x_command args))) (x_runtime args))) (x_parent args) in
  started ← lift (map_err (λ e, "starting the agent session: " ++ e)
                    (answer_start h (request_of api (session_token creds) (StartAgentSession org request))));
  _ ← act (SessionStarted org started);
  mret (mkAgentLease api (session_token creds) org started).

Definition lease_end (l : AgentLease) : list Action :=
  let sid := session_id (lease_session l) in
  SessionEnd (lease_org l) sid ::
  match answer_end h (request_of (lease_api l) (login_token l) (EndAgentSession (lease_org l) sid)) with
  | Ok _ => []
  | Err e => [Say ("skimasque exec: could not end agent session " ++ sid ++ ": " ++ e ++
                   ". End it with: skimasque agent-session end " ++ sid)]
  end.

(** ** Preparing the gateway session *)

Definition login_of (creds : Credentials) (explicit : option str) : result str Login :=
  api ← api_new (control_plane creds);
  org ← org_of api creds explicit;
  Ok (mkLogin creds org).
Definition mint_from (l : Login) : result str Credential :=
  api ← api_new (control_plane (login_creds l));
  answer_mint h (request_of api (session_token (login_creds l)) (MintCredential (login_org l) None)).

Definition bearer_over (auth : AuthArgs) (conn : Conn) : result str (Bearer Login) :=
  creds ← load h;
  resolve_bearer (λ path, result_ok (read_text h path)) (id_token h) (exchange_credential h conn) login_of mint_from auth creds.

(** The arguments a session is opened with: an agent presents the credential of its
    session and nothing else. *)
Definition auth_for (args : ExecArgs) (agent_credential : option str) : AuthArgs :=
  match agent_credential with
  | Some credential => mkAuthArgs (Some credential) None false None None (arg_org (x_auth args))
  | None => x_auth args
  end.

Fixpoint preflight (api : str) (login : Login) (identity : WorkloadIdentity) (app_name : str) (destinations : list str)
    : result str (list (str * SimulateResult)) :=
  match destinations with
  | [] => Ok []
  | d :: destinations =>
      let body := JObject [(of_string "identity", identity_json h identity); (of_string "application", JString app_name);
                           (of_string "destination", JString d); (of_string "transport", JString "tcp")] in
      r ← answer_simulate h (request_of api (session_token (login_creds login)) (Simulate (login_org login) None false None body));
      probes ← preflight api login identity app_name destinations;
      Ok ((d, r) :: probes)
  end.

(** The forward listeners, the [n]-th and following of this run. *)
Fixpoint bind_forwards (n : nat) (specs : list ForwardSpec) : Run (list (ForwardSpec * SocketAddr)) :=
  match specs with
  | [] => mret []
  | spec :: specs =>
      local ← lift (map_err (λ e, "could not listen on 127.0.0.1:" ++ to_string (local_port spec) ++ " for " ++
                              Target.display (fs_target spec) ++ ": " ++ e) (bind h n (local_port spec)));
      _ ← act (Spawned (TaskForward spec local));
      rest ← bind_forwards (S n) specs;
      mret ((spec, local) :: rest)
  end.

Record Prepared : Type := mkPrepared {
  pr_tasks : list Task;
  pr_env : list (str * str);
  pr_http : SocketAddr;
}.

Definition header_for (args : ExecArgs) (app_name : str) : result str (list (str * str)) :=
  headers ← ok_or (set_header h [] APPLICATION_HEADER app_name)
              (of_string "the application name contains characters a header cannot carry");
  match x_policy args with
  | Some pin => ok_or (set_header h headers POLICY_HEADER pin)
                  (of_string "the policy name contains characters a header cannot carry")
  | None => Ok headers
  end.

(** The check in advance, only with a login on this control plane. *)
Definition check_access (args : ExecArgs) (control_plane_url app_name who : str) (identity : option WorkloadIdentity)
    (login : option Login) : Run (option Checked) :=
  match login with
  | Some login =>
      if str_eqb (normalize_base_url (control_plane (login_creds login))) control_plane_url then
        let destinations := match x_forwards args with
                            | [] => [PREFLIGHT_PLACEHOLDER]
                            | forwards => map (λ f, Target.display (fs_target f)) forwards
                            end in
        match (api ← api_new (control_plane (login_creds login));
               preflight api login (default empty_identity identity) app_name destinations) with
        | Ok probes => c ← lift (judge (x_policy args) who probes (length (x_forwards args))); mret (Some c)
        | Err e => _ ← act (Say ("skimasque exec: could not check access in advance (" ++ e ++
                                 "); the gateway still enforces"));
                   mret None
        end
      else mret None
  | None => mret None
  end.

Definition header_view (args : ExecArgs) (who app_name gateway : str) (checked : option Checked)
    (forwards : list (ForwardSpec * SocketAddr)) : HeaderView :=
  mkHeaderView who
    (default (of_string "(selected by the gateway)")
       (match x_policy args with Some p => Some p | None => c ← checked; selected c end))
    app_name gateway
    (imap (λ i f, mkAccessLine (Target.display (fs_target f.1)) (c ← checked; ck_allowed c !! i) f.2) forwards)
    (c ← checked; ck_session c).

Definition prepare (args : ExecArgs) (agent_credential : option str) : Run Prepared :=
  login ← lift (load h);
  let control_plane_url := resolve_control_plane (x_control_plane args) login in
  gateway ← lift (resolve_gateway (x_gateway args) control_plane_url);
  let app_name := default (default_app (hd [] (x_command args))) (x_app args) in
  headers ← lift (header_for args app_name);
  connected ← lift (open_session (lookup_host h) (read_file h) (connect h)
                      (bearer_over (auth_for args agent_credential)) (set_header h) gateway (x_tls args) headers);
  _ ← act (Opened gateway (default_headers connected));
  let identity := token ← conn_credential connected; peek_identity h token in
  let who := identity_label identity in
  checked ← check_access args control_plane_url app_name who identity (conn_login connected);
  let refresh := match conn_refresh connected with Some _ => [TaskRefresh] | None => [] end in
  _ ← (Spawned <$> refresh, Ok tt);
  http ← lift (map_err (λ e, "listening on loopback: " ++ e) (bind h 0 0));
  socks ← lift (map_err (λ e, "listening on loopback: " ++ e) (bind h 1 0));
  forwards ← bind_forwards 2 (x_forwards args);
  _ ← act (Spawned (TaskHttp http));
  _ ← act (Spawned (TaskSocks socks));
  _ ← if x_quiet args then mret tt
      else act (Say (render_header (header_view args who app_name gateway checked forwards)));
  mret (mkPrepared (refresh ++ map (λ f, TaskForward f.1 f.2) forwards ++ [TaskHttp http; TaskSocks socks])
          (if sandboxed args then [] else child_env http socks forwards) http).

(** ** The sandbox *)

(** [Path::parent] of a path whose last component is a name: what is left of it,
    less empty components and dots at its end. *)
Fixpoint drop_blank (segments : list str) : list str :=
  match segments with
  | [] => []
  | c :: segments => if bool_decide (c = []) || str_eqb c "." then drop_blank segments else c :: segments
  end.
Definition parent_dir (path : str) : str :=
  match rev (split 47 path) with
  | [] => []
  | _ :: before =>
      match rev (drop_blank before) with
      | [] => if starts_with "/" path then "/" else if starts_with "./" path then "." else []
      | first :: rest => first ++ flat_map (λ c, 47 :: c) rest
      end
  end.
Definition login_dir : list str :=
  match credentials_path (var h) with Ok p => [parent_dir p] | Err _ => [] end.

(** The verdict of the check: the last line that says anything. *)
Definition verdict (stdout : str) : str :=
  default [] (List.find (λ l, negb (bool_decide (trim l = []))) (rev (lines stdout))).

Definition sandbox_base (args : ExecArgs) : result str (option Json) :=
  match x_sandbox_settings args with
  | Some path =>
      text ← map_err (λ e, "reading " ++ path ++ ": " ++ e) (read_text h path);
      doc ← map_err (λ e, path ++ " is not valid JSON: " ++ e) (json_from_str h text);
      Ok (Some doc)
  | None => Ok None
  end.

(** The check that a direct connection from inside the sandbox fails. *)
Definition enforce (srt file : str) : Run unit :=
  target ← lift (map_err (λ e, "cannot check the sandbox: this host has no non-loopback address to test against (" ++
                                e ++ ")") (probe_target h));
  me ← lift (map_err (λ e, "locating skimasque: " ++ e) (current_exe h));
  let line := srt :: argv file [me; of_string "sandbox-probe"; display_socket target] in
  out ← lift (ok_or (run_check h line) (of_string "the sandbox check timed out; refusing to start the agent"));
  out ← lift (map_err (λ e, "running " ++ srt ++ ": " ++ e) out);
  _ ← act (CheckRun line SCRUBBED_ENV out);
  lift (map_err (λ why, let stderr := trim (out_stderr out) in
                        if bool_decide (stderr = []) then why
                        else why ++ nl ++ "The sandbox said:" ++ nl ++ stderr)
          (judge_probe (verdict (out_stdout out)) (out_success out))).

(** The settings directory is removed when its guard is dropped: here if the check
    fails, else at the end of [launch]. *)
Definition srt_command_line (args : ExecArgs) (http : SocketAddr) : Run (list str * str) :=
  srt ← lift (ok_or (locate (is_file h) (of_string "srt") (var h (of_string "PATH")) (var h (of_string "PATHEXT")))
                (of_string "--sandbox srt needs the sandbox runtime on PATH: npm install -g @anthropic-ai/sandbox-runtime"));
  base ← lift (sandbox_base args);
  doc ← lift (settings base (x_allow_domains args) http login_dir);
  file ← lift (map_err (λ e, "writing the sandbox settings: " ++ e) (write_settings h doc));
  _ ← act (SettingsWritten file doc);
  let check := enforce srt file in
  match check.2 with
  | Ok _ => (check.1, Ok (srt :: argv file (x_command args), file))
  | Err e => (check.1 ++ [SettingsRemoved file], Err e)
  end.

(** ** The command *)

Definition SIGINT : Z := 2.

(** [supervise]: the signals that arrive before the command ends. *)
Fixpoint supervise (arriving : list Z) : list Action * result str Z :=
  match arriving with
  | [] => ([], status_code <$> wait h)
  | signal :: arriving =>
      let rest := supervise arriving in
      ((if signal =? SIGINT then [] else [Kill signal]) ++ rest.1, rest.2)
  end.

Definition env_removed (args : ExecArgs) : list str := if x_agent args || sandboxed args then SCRUBBED_ENV else [].

Definition run_command (args : ExecArgs) (line : list str) (env : list (str * str)) : Run Z :=
  match spawn h line (env_removed args) env with
  | Some e =>
      let code := spawn_error_code e in
      let what := match e with NotFound => of_string "command not found" | OtherIo text => text end in
      _ ← act (Say ("skimasque exec: " ++ hd [] line ++ ": " ++ what));
      mret code
  | None =>
      _ ← act (CommandRun line (env_removed args) env);
      match supervise (signals h) with
      | (log, Ok code) => (log, Ok code)
      | (log, Err e) => (log ++ [StartKill; Say ("skimasque exec: waiting for the command: " ++ e)], Ok EXIT_FAILED)
      end
  end.

Definition launch (args : ExecArgs) (lease : option AgentLease) : Run Z :=
  prepared ← interruptible (signal_in_prepare h)
               (prepare args ((λ l, session_credential (lease_session l)) <$> lease));
  '(line, settings_file) ← match x_sandbox args with
                           | Some Srt => lf ← srt_command_line args (pr_http prepared); mret (lf.1, Some lf.2)
                           | None => mret (x_command args, None)
                           end;
  code ← run_command args line (pr_env prepared);
  _ ← (map Aborted (pr_tasks prepared) ++ [Closed] ++ match settings_file with Some f => [SettingsRemoved f] | None => [] end, Ok tt);
  mret code.

Definition run_inner (args : ExecArgs) : Run Z :=
  _ ← lift (validate args);
  _ ← lift (map_err (λ e, "listening for signals: " ++ e) (register h));
  if x_agent args then
    lease ← interruptible (signal_in_start h) (lease_start args);
    let outcome := launch args (Some lease) in
    (outcome.1 ++ lease_end lease, outcome.2)
  else launch args None.

(** [run]: the actions and the exit status. *)
Definition run (args : ExecArgs) : list Action * Z :=
  match run_inner args with
  | (log, Ok code) => (log, code)
  | (log, Err f) => (log ++ [Say ("skimasque exec: " ++ f_message f)], f_code f)
  end.
End run.

(** ** What a run does *)

(** The environment a command gets: what was added last, else what it inherits and
    was not removed. *)
Definition environment (inherited : str → option str) (removed : list str) (added : list (str * str)) (name : str)
    : option str :=
  match List.find (λ p, str_eqb p.1 name) (rev added) with
  | Some p => Some p.2
  | None => if bool_decide (name ∈ removed) then None else inherited name
  end.

Definition TOKENS : list str :=
  [of_string "SKIMASQUE_TOKEN"; of_string "SKIMASQUE_TOKEN_FILE"; of_string "SKIMASQUE_OIDC_TOKEN"].

Definition is_command (a : Action) : bool := match a with CommandRun _ _ _ => true | _ => false end.
Definition is_say (a : Action) : bool := match a with Say _ => true | _ => false end.
Definition is_end (a : Action) : bool := match a with SessionEnd _ _ => true | _ => false end.
Definition is_kill (a : Action) : bool := match a with Kill _ => true | _ => false end.

(** Actions without any that [p] selects. *)
Definition none_of (p : Action → bool) (log : list Action) : Prop := Forall (λ a, p a = false) log.

Lemma none_of_app p l1 l2 : none_of p (l1 ++ l2) ↔ none_of p l1 ∧ none_of p l2.
Proof. apply Forall_app. Qed.

Lemma none_of_elem p log a : none_of p log → a ∈ log → p a = false.
Proof. intros H Ha. by apply (proj1 (Forall_forall _ _) H). Qed.

Lemma none_of_take p n log : none_of p log → none_of p (take n log).
Proof. apply Forall_take. Qed.

Lemma none_of_bind {A B} p (m : Run A) (f : A → Run B) :
  none_of p m.1 → (∀ a, m.2 = Ok a → none_of p (f a).1) → none_of p (m ≫= f).1.
Proof.
  intros Hm Hf. unfold mbind, run_bind. destruct (m.2) as [a|e] eqn:E; cbn [fst]; [|done].
  apply none_of_app. split; [done|]. by apply Hf.
Qed.

Lemma none_of_lift {A} p (r : result str A) : none_of p (lift r).1.
Proof. constructor. Qed.

Lemma run_bind_Ok {A B} (m : Run A) (f : A → Run B) log b :
  (m ≫= f) = (log, Ok b) → ∃ a l1 l2, m = (l1, Ok a) ∧ f a = (l2, Ok b) ∧ log = l1 ++ l2.
Proof.
  unfold mbind, run_bind. destruct m as [l1 [a|e]]; cbn [fst snd]; [|done].
  destruct (f a) as [l2 r] eqn:E. cbn [fst snd]. intros [= <- ->]. by exists a, l1, l2.
Qed.

Lemma lift_Ok {A} (r : result str A) log a : lift r = (log, Ok a) → log = [] ∧ r = Ok a.
Proof. destruct r; cbn; by intros [= <- <-]. Qed.

(** An action found in a sequence, and where: either the first part did it, or the
    first part ended well and the second did. *)
Lemma bind_log_split {A B} (p : Action → bool) (m : Run A) (f : A → Run B) :
  none_of p m.1 → ¬ none_of p (m ≫= f).1 →
  ∃ a, m = (m.1, Ok a) ∧ (m ≫= f) = (m.1 ++ (f a).1, (f a).2) ∧ ¬ none_of p (f a).1.
Proof.
  intros Hm Hn. unfold mbind, run_bind in *. destruct m as [l [a|e]]; cbn [fst snd] in *; [|done].
  exists a. split; [done|]. split; [done|]. contradict Hn. by apply none_of_app.
Qed.

Lemma unique_split p (pre post q tail : list Action) x y :
  p x = true → p y = true → none_of p q → none_of p tail → pre ++ x :: post = q ++ y :: tail →
  pre = q ∧ x = y ∧ post = tail.
Proof.
  intros Hx Hy. revert pre. induction q as [|a q IH]; intros [|b pre] Hq Ht H; cbn [app] in H.
  - injection H as -> ->. done.
  - injection H as -> <-. exfalso. apply none_of_app in Ht as [_ Ht]. inversion Ht. congruence.
  - injection H as -> _. inversion Hq. congruence.
  - injection H as -> H. inversion Hq; subst. destruct (IH pre) as (-> & -> & ->); done.
Qed.

Ltac quiet_log := repeat
  match goal with
  | |- none_of _ (mbind _ _).1 => apply none_of_bind; [|intros ? _]
  | |- none_of _ (lift _).1 => apply none_of_lift
  | |- none_of _ (act _).1 => repeat constructor
  | |- none_of _ (mret _).1 => constructor
  | |- none_of _ ([], _).1 => constructor
  | |- none_of _ (if ?b then _ else _).1 => destruct b
  | |- none_of _ (match ?o with Some _ => _ | None => _ end).1 => destruct o
  | |- none_of _ (match ?o with Ok _ => _ | Err _ => _ end).1 => destruct o
  end.

(** Take a run that ended well apart, one step at a time. *)
Ltac run_inv H := repeat
  match type of H with
  | (mbind _ (lift _)) = (_, Ok _) =>
      let a := fresh "a" in let Ha := fresh "Ha" in let l2 := fresh "l" in
      apply run_bind_Ok in H as (a & ? & l2 & Ha & H & ?); apply lift_Ok in Ha as [? Ha]; subst
  | (mbind _ _) = (_, Ok _) =>
      let a := fresh "a" in let Ha := fresh "Ha" in let l1 := fresh "l" in let l2 := fresh "l" in
      apply run_bind_Ok in H as (a & l1 & l2 & Ha & H & ?); subst
  end.

Ltac act_inv := repeat match goal with H : act _ = (_, Ok _) |- _ => injection H as <- _ end.

(** What [prepare] and its like never do. *)
Definition prepares (a : Action) : bool :=
  match a with Opened _ _ | Spawned _ | Say _ => false | _ => true end.

Section facts.
Context {Conn : Type} (h : Host Conn).

Lemma bind_forwards_quiet n specs : none_of prepares (bind_forwards h n specs).1.
Proof.
  revert n. induction specs as [|spec specs IH]; intros n; [constructor|]. cbn [bind_forwards]. quiet_log. apply IH.
Qed.

Lemma bind_forwards_Ok n specs log fs :
  bind_forwards h n specs = (log, Ok fs) → log = map (λ f, Spawned (TaskForward f.1 f.2)) fs.
Proof.
  revert n log fs. induction specs as [|spec specs IH]; intros n log fs; cbn [bind_forwards]; [by intros [= <- <-]|].
  intros H. run_inv H. injection Ha0 as <- _. injection H as <- <-. cbn [map app fst snd].
  by rewrite app_nil_r, (IH _ _ _ Ha1).
Qed.

Lemma check_access_says args url a who i l : none_of (λ a, negb (is_say a)) (check_access h args url a who i l).1.
Proof. unfold check_access. quiet_log. Qed.

Lemma none_of_weaken (p q : Action → bool) log : (∀ a, q a = true → p a = true) → none_of p log → none_of q log.
Proof.
  intros Hpq H. apply (Forall_impl _ _ _ H). intros a Ha. destruct (q a) eqn:E; [|done]. apply Hpq in E. congruence.
Qed.

Lemma prepare_quiet args c : none_of prepares (prepare h args c).1.
Proof.
  unfold prepare. quiet_log; try apply bind_forwards_quiet.
  - eapply none_of_weaken, check_access_says. by intros [].
  - destruct (conn_refresh _); repeat constructor.
Qed.

(** What [prepare] leaves: the session it opened, and a task for each listener. *)
Lemma prepare_Ok args c log p :
  prepare h args c = (log, Ok p) →
  (∃ gateway connected headers, Opened gateway (default_headers connected) ∈ log ∧
     open_session (lookup_host h) (read_file h) (connect h) (bearer_over h (auth_for args c)) (set_header h)
       gateway (x_tls args) headers = Ok connected) ∧
  (∀ t, Spawned t ∈ log → t ∈ pr_tasks p) ∧ Spawned (TaskHttp (pr_http p)) ∈ log ∧
  ∃ socks forwards, pr_env p = if sandboxed args then [] else child_env (pr_http p) socks forwards.
Proof.
  unfold prepare. intros H. run_inv H. injection H as <- <-. cbn [pr_tasks pr_env pr_http].
  cbn [app]. rewrite !app_nil_r. injection Ha3 as <- _. injection Ha9 as <- _. injection Ha10 as <- _. injection Ha5 as <- _.
  apply bind_forwards_Ok in Ha8 as ->.
  assert (none_of (λ a, negb (is_say a)) l0) as Hl0
    by (change l0 with (l0, Ok a4 : result Failure (option Checked)).1; rewrite <- Ha4; apply check_access_says).
  assert (none_of (λ a, negb (is_say a)) l5) as Hl5
    by (destruct (x_quiet args); injection Ha11 as <- _; repeat constructor).
  split; [|split; [|split]].
  - exists a0, a2, a1. split; [left|done].
  - intros t Ht. rewrite !elem_of_app in Ht. rewrite !elem_of_app.
    destruct Ht as [Ht|[Ht|[Ht|[Ht|[Ht|[Ht|Ht]]]]]].
    + by apply list_elem_of_singleton in Ht.
    + by apply (none_of_elem _ _ _ Hl0) in Ht.
    + left. apply list_elem_of_fmap in Ht as (t' & [= ->] & Ht). done.
    + right. left. apply list_elem_of_fmap in Ht as (f & [= ->] & Hf). apply list_elem_of_fmap. by exists f.
    + apply list_elem_of_singleton in Ht as [= ->]. right. right. left.
    + apply list_elem_of_singleton in Ht as [= ->]. right. right. right. left.
    + by apply (none_of_elem _ _ _ Hl5) in Ht.
  - rewrite !elem_of_app. do 4 right. left. by apply list_elem_of_singleton.
  - by exists a7, a8.
Qed.

(** An agent's session sends the credential of its agent session. *)
Lemma agent_header args c gateway headers connected :
  open_session (lookup_host h) (read_file h) (connect h) (bearer_over h (auth_for args (Some c))) (set_header h)
    gateway (x_tls args) headers = Ok connected →
  ∃ before, set_header h before "proxy-authorization" ("Bearer " ++ c) = Some (default_headers connected).
Proof.
  unfold open_session. intros H. apply bind_Ok in H as ([proxy authority] & _ & H).
  apply bind_Ok in H as (trust & _ & H). apply bind_Ok in H as (template & _ & H). apply bind_Ok in H as (_ & _ & H).
  apply bind_Ok in H as (conn & _ & H). apply bind_Ok in H as (bearer & Hb & H).
  apply bind_Ok in H as (hs & Hh & H). injection H as <-. cbn [default_headers].
  unfold bearer_over in Hb. apply bind_Ok in Hb as (creds & _ & Hb). cbn [auth_for] in Hb.
  assert (∀ b, auth_mode (mkAuthArgs (Some c) None false None None (arg_org (x_auth args))) b = ModeStatic) as Hm by done.
  unfold resolve_bearer in Hb. rewrite Hm in Hb. cbn [static_token auth_token_file auth_token mbind result_mbind result_bind] in Hb.
  injection Hb as <-. cbn [bearer_header] in Hh. exists headers.
  destruct (set_header h headers _ _) in Hh |- *; [by injection Hh as <-|done].
Qed.

(** The command line of a sandboxed command, and the check that came before it. *)
Lemma srt_command_line_Ok args http log line file :
  srt_command_line h args http = (log, Ok (line, file)) →
  ∃ srt base doc probe out, sandbox_base h args = Ok base ∧
    settings base (x_allow_domains args) http (login_dir h) = Ok doc ∧
    log = [SettingsWritten file doc; CheckRun (srt :: argv file probe) SCRUBBED_ENV out] ∧
    judge_probe (verdict (out_stdout out)) (out_success out) = Ok tt ∧ line = srt :: argv file (x_command args).
Proof.
  unfold srt_command_line. intros H. run_inv H. act_inv.
  destruct (enforce h a a2) as [lc [[]|e]] eqn:He; cbn [fst snd] in H; [|done]. injection H as <- <- <-.
  unfold enforce in He. run_inv He. act_inv. apply lift_Ok in He as [-> He].
  eexists a, a0, a1, _, _. split; [done|]. split; [done|]. split; [reflexivity|]. split; [|done].
  by destruct (judge_probe _ _) as [[]|].
Qed.

Lemma srt_command_line_quiet args http : none_of (λ a, is_command a || is_end a || is_kill a) (srt_command_line h args http).1.
Proof.
  assert (∀ srt file, none_of (λ a, is_command a || is_end a || is_kill a) (enforce h srt file).1) as He
    by (intros; unfold enforce; quiet_log).
  unfold srt_command_line. quiet_log; cbn [fst]; [apply He|]. apply none_of_app. split; [apply He|repeat constructor].
Qed.

Lemma supervise_kills arriving :
  (supervise h arriving).1 = map Kill (List.filter (λ s, negb (s =? SIGINT)) arriving) ∧
  (supervise h arriving).2 = status_code <$> wait h.
Proof.
  induction arriving as [|s arriving [IH1 IH2]]; [done|]. cbn [supervise List.filter fst snd]. rewrite IH1, IH2.
  by destruct (s =? SIGINT).
Qed.

(** What follows the start of a command. *)
Definition wind_down (tasks : list Task) (settings_file : option str) : list Action :=
  map Kill (List.filter (λ s, negb (s =? SIGINT)) (signals h)) ++
  match wait h with
  | Ok _ => []
  | Err e => [StartKill; Say ("skimasque exec: waiting for the command: " ++ e)]
  end ++
  map Aborted tasks ++ [Closed] ++ match settings_file with Some f => [SettingsRemoved f] | None => [] end.

Lemma wind_down_quiet tasks f : none_of (λ a, is_command a || is_end a) (wind_down tasks f).
Proof.
  unfold wind_down. rewrite !none_of_app. split; [apply Forall_map, Forall_true; done|].
  split; [destruct (wait h); repeat constructor|]. split; [apply Forall_map, Forall_true; done|].
  split; [repeat constructor|destruct f; repeat constructor].
Qed.

Definition exit_code : Z := match wait h with Ok st => status_code st | Err _ => EXIT_FAILED end.

Definition lease_credential (lease : option AgentLease) : option str := (λ l, session_credential (lease_session l)) <$> lease.

(** A run of [launch] that starts its command. *)
Definition starts (args : ExecArgs) (lease : option AgentLease) (lp : list Action) (p : Prepared) (lx : list Action)
    (line : list str) (f : option str) : Prop :=
  prepare h args (lease_credential lease) = (lp, Ok p) ∧
  match x_sandbox args with
  | Some Srt => ∃ file, f = Some file ∧ srt_command_line h args (pr_http p) = (lx, Ok (line, file))
  | None => lx = [] ∧ line = x_command args ∧ f = None
  end.

Lemma run_command_log args line env :
  (¬ none_of is_command (run_command h args line env).1) →
  run_command h args line env =
    (CommandRun line (env_removed args) env :: map Kill (List.filter (λ s, negb (s =? SIGINT)) (signals h)) ++
     match wait h with
     | Ok _ => []
     | Err e => [StartKill; Say ("skimasque exec: waiting for the command: " ++ e)]
     end, Ok exit_code).
Proof.
  unfold run_command, exit_code. destruct (spawn h line _ env) as [e|].
  - intros Hn. exfalso. apply Hn. repeat constructor.
  - intros _. destruct (supervise_kills (signals h)) as [H1 H2].
    destruct (supervise h (signals h)) as [l r]. cbn [fst snd] in *. subst l r.
    destruct (wait h) as [st|e]; cbn [fmap result_fmap]; unfold mbind, run_bind, act; cbn [fst snd app]; [|done].
    by rewrite app_nil_r.
Qed.

Lemma launch_command args lease :
  (¬ none_of is_command (launch h args lease).1) →
  ∃ lp p lx line f, starts args lease lp p lx line f ∧
    launch h args lease =
      (lp ++ lx ++ CommandRun line (env_removed args) (pr_env p) :: wind_down (pr_tasks p) f, Ok exit_code).
Proof.
  intros Hn. unfold launch in Hn |- *. fold (lease_credential lease) in Hn |- *.
  set (m := interruptible _ _) in Hn |- *.
  apply bind_log_split in Hn as (p & Hm & -> & Hn1); last first.
  { subst m. assert (none_of is_command (prepare h args (lease_credential lease)).1) as Hp
      by (eapply none_of_weaken, prepare_quiet; by intros []).
    unfold interruptible. destruct (signal_in_prepare h) as [[n s]|]; [by apply none_of_take|done]. }
  assert (prepare h args (lease_credential lease) = (m.1, Ok p)) as Hp.
  { subst m. unfold interruptible in *. by destruct (signal_in_prepare h) as [[n s]|]. }
  set (x := match x_sandbox args with Some Srt => _ | None => _ end) in Hn1 |- *.
  apply bind_log_split in Hn1 as ([line f] & Hx & -> & Hn2); last first.
  { subst x. destruct (x_sandbox args) as [[]|]; [|constructor]. apply none_of_bind; [|constructor].
    eapply none_of_weaken, srt_command_line_quiet. by intros []. }
  cbn [fst snd] in Hn2 |- *. exists m.1, p, x.1, line, f. split; [split; [done|]|].
  { subst x. destruct (x_sandbox args) as [[]|]; [|by injection Hx as <- <-].
    destruct (srt_command_line h args (pr_http p)) as [lx [[line' file]|e]]; cbn in Hx |- *; [|done].
    injection Hx as <- <-. exists file. by rewrite app_nil_r. }
  assert (¬ none_of is_command (run_command h args line (pr_env p)).1) as Hr.
  { contradict Hn2. apply none_of_bind; [done|]. intros a _. apply none_of_bind; [|constructor].
    cbn [fst]. rewrite !none_of_app. split; [apply Forall_map, Forall_true; done|].
    split; [repeat constructor|destruct f; repeat constructor]. }
  rewrite (run_command_log _ _ _ Hr). unfold mbind, run_bind, mret, run_ret, wind_down. cbn [fst snd].
  rewrite app_nil_r. cbn [app]. by rewrite <- !app_assoc.
Qed.

Lemma lease_start_Ok args log l : lease_start h args = (log, Ok l) → log = [SessionStarted (lease_org l) (lease_session l)].
Proof. unfold lease_start. intros H. run_inv H. act_inv. by injection H as <- <-. Qed.

Lemma lease_start_quiet args : none_of (λ a, match a with SessionStarted _ _ => false | _ => true end) (lease_start h args).1.
Proof. unfold lease_start. quiet_log. Qed.

Lemma lease_end_says l : ∃ says, lease_end h l = SessionEnd (lease_org l) (session_id (lease_session l)) :: says ∧
  none_of (λ a, negb (is_say a)) says.
Proof. unfold lease_end. destruct (answer_end h _); eexists; (split; [done|]); repeat constructor. Qed.

(** The lease of a run, and the actions that open and close it. *)
Definition leased (args : ExecArgs) (lease : option AgentLease) (before after : list Action) : Prop :=
  match lease with
  | Some l => x_agent args = true ∧ lease_start h args = (before, Ok l) ∧ after = lease_end h l
  | None => x_agent args = false ∧ before = [] ∧ after = []
  end.

Lemma leased_quiet args lease before after : leased args lease before after → none_of is_command before ∧ none_of is_command after.
Proof.
  destruct lease as [l|]; [|intros (_ & -> & ->); split; constructor]. intros (_ & ->%lease_start_Ok & ->).
  split; [repeat constructor|]. destruct (lease_end_says l) as (says & -> & Hs). constructor; [done|].
  eapply none_of_weaken, Hs. by intros [].
Qed.

Lemma run_command_reached args :
  (¬ none_of is_command (run h args).1) →
  validate args = Ok tt ∧
  ∃ lease before after lp p lx line f, leased args lease before after ∧ starts args lease lp p lx line f ∧
    run h args =
      (before ++ lp ++ lx ++ CommandRun line (env_removed args) (pr_env p) :: wind_down (pr_tasks p) f ++ after, exit_code).
Proof.
  intros Hn. assert (¬ none_of is_command (run_inner h args).1) as Hr.
  { contradict Hn. unfold run. destruct (run_inner h args) as [l [c|e]]; cbn [fst] in *; [done|].
    apply none_of_app. split; [done|repeat constructor]. }
  clear Hn. unfold run, run_inner in *.
  apply bind_log_split in Hr as ([] & Hv & -> & Hr); [|apply none_of_lift]. apply lift_Ok in Hv as [_ Hv].
  apply bind_log_split in Hr as ([] & _ & -> & Hr); [|apply none_of_lift]. cbn [lift fst app] in Hr |- *.
  split; [done|]. destruct (x_agent args) eqn:Ha.
  - set (m := interruptible _ _) in Hr |- *. apply bind_log_split in Hr as (l & Hm & -> & Hr); last first.
    { subst m. assert (none_of is_command (lease_start h args).1) as Hl
        by (eapply none_of_weaken, lease_start_quiet; by intros []).
      unfold interruptible. destruct (signal_in_start h) as [[n s]|]; [by apply none_of_take|done]. }
    assert (lease_start h args = (m.1, Ok l)) as Hl
      by (clear -Hm; subst m; unfold interruptible in *; destruct (signal_in_start h) as [[n s]|]; [discriminate Hm|exact Hm]).
    assert (leased args (Some l) m.1 (lease_end h l)) as Hls by done.
    cbn [fst snd] in Hr |- *. destruct (launch_command args (Some l)) as (lp & p & lx & line & f & Hs & Heq).
    { contradict Hr. apply none_of_app. split; [done|]. exact (proj2 (leased_quiet _ _ _ _ Hls)). }
    exists (Some l), m.1, (lease_end h l), lp, p, lx, line, f. split; [done|]. split; [done|].
    rewrite Heq. cbn [fst snd]. by rewrite <- !app_assoc.
  - destruct (launch_command args None Hr) as (lp & p & lx & line & f & Hs & ->).
    exists None, [], [], lp, p, lx, line, f. split; [done|]. split; [done|]. by rewrite app_nil_r.
Qed.

(** Where a run starts its command: what came before, and what follows. *)
Lemma run_command_at args pre line removed env post :
  (run h args).1 = pre ++ CommandRun line removed env :: post →
  validate args = Ok tt ∧ removed = env_removed args ∧ (run h args).2 = exit_code ∧
  ∃ lease before after lp p lx f, leased args lease before after ∧ starts args lease lp p lx line f ∧
    env = pr_env p ∧ pre = before ++ lp ++ lx ∧ post = wind_down (pr_tasks p) f ++ after.
Proof.
  intros H. destruct (run_command_reached args) as (Hv & lease & before & after & lp & p & lx & line' & f & Hl & Hs & Hr).
  { rewrite H. intros [_ Hn]%none_of_app. by inversion Hn. }
  rewrite Hr in H |- *. cbn [fst snd] in H |- *. symmetry in H. rewrite !app_assoc in H.
  destruct (leased_quiet _ _ _ _ Hl) as [Hb Ha].
  apply (unique_split is_command) in H as (-> & [= -> -> ->] & ->); try done.
  - split; [done|]. split; [done|]. split; [done|]. exists lease, before, after, lp, p, lx, f.
    split; [done|]. split; [done|]. split; [done|]. by rewrite app_assoc.
  - rewrite !none_of_app. split; [split; [done|]|].
    + destruct Hs as [Hp _]. change lp with (lp, Ok p : result Failure Prepared).1. rewrite <- Hp.
      eapply none_of_weaken, prepare_quiet. by intros [].
    + destruct Hs as [_ Hx]. destruct (x_sandbox args) as [[]|]; [|destruct Hx as [-> _]; constructor].
      destruct Hx as (file & _ & (? & ? & ? & ? & ? & _ & _ & -> & _)%srt_command_line_Ok). repeat constructor.
  - apply none_of_app. split; [|done]. eapply none_of_weaken, wind_down_quiet. by intros [].
Qed.
End facts.

(** ** The environment of a command *)

Lemma find_app_none {A} (p : A → bool) l1 l2 : Forall (λ a, p a = false) l1 → List.find p (l1 ++ l2) = List.find p l2.
Proof. induction 1 as [|a l1 Ha _ IH]; [done|]. cbn [app List.find]. by rewrite Ha. Qed.

(** The variables of forwards are no others: their names differ at the eleventh
    character. *)
Lemma child_env_other inherited removed http socks forwards name :
  name !! 10%nat ≠ Some 70 →
  environment inherited removed (child_env http socks forwards) name =
  environment inherited removed (child_env http socks []) name.
Proof.
  intros Hn. unfold environment, child_env. cbn [map]. rewrite app_nil_r, !app_assoc, rev_app_distr, find_app_none; [done|].
  apply Forall_rev, Forall_forall. intros p (f & -> & _)%list_elem_of_fmap. cbn [fst]. apply bool_decide_eq_false.
  intros H. apply Hn. by rewrite <- H.
Qed.

Lemma tokens_scrubbed inherited http socks forwards name env :
  name ∈ TOKENS → env = [] ∨ env = child_env http socks forwards → environment inherited SCRUBBED_ENV env name = None.
Proof.
  unfold TOKENS. rewrite !elem_of_cons, elem_of_nil.
  intros [->|[->|[->|[]]]] [->| ->]; rewrite ?child_env_other by done; done.
Qed.

(** ** The theorems *)


Definition is_lease (a : Action) : bool := match a with SessionStarted _ _ | SessionEnd _ _ => true | _ => false end.

Lemma launch_no_lease {Conn} (h : Host Conn) args lease : none_of is_lease (launch h args lease).1.
Proof.
  unfold launch. apply none_of_bind; [|intros p _].
  { assert (none_of is_lease (prepare h args (lease_credential lease)).1) as Hp
      by (eapply none_of_weaken, prepare_quiet; by intros []).
    unfold interruptible. destruct (signal_in_prepare h) as [[n s]|]; [by apply none_of_take|done]. }
  apply none_of_bind; [|intros [line f] _].
  { destruct (x_sandbox args) as [[]|]; [|constructor]. apply none_of_bind; [|constructor].
    unfold srt_command_line. assert (∀ srt file, none_of is_lease (enforce h srt file).1) as He
      by (intros; unfold enforce; quiet_log).
    quiet_log; cbn [fst]; [apply He|]. apply none_of_app. split; [apply He|repeat constructor]. }
  apply none_of_bind; [|intros code _; apply none_of_bind; [|constructor]].
  - unfold run_command. destruct (spawn h _ _ _); [quiet_log|]. apply none_of_bind; [repeat constructor|intros _ _].
    destruct (supervise_kills h (signals h)) as [H1 _]. destruct (supervise h (signals h)) as [l r]. cbn [fst] in H1. subst l.
    destruct r; cbn [fst]; rewrite ?none_of_app; repeat split; try apply Forall_map, Forall_true; repeat constructor.
  - cbn [fst]. rewrite !none_of_app. split; [apply Forall_map, Forall_true; done|].
    split; [repeat constructor|destruct f; repeat constructor].
Qed.

Lemma lift_log {A} (r : result str A) log a : lift r = (log, a) → log = [].
Proof. by intros [= <- _]. Qed.

Lemma run_bind_Err {A B} (m : Run A) (f : A → Run B) log e :
  (m ≫= f) = (log, Err e) → m = (log, Err e) ∨ ∃ a l1 l2, m = (l1, Ok a) ∧ f a = (l2, Err e) ∧ log = l1 ++ l2.
Proof.
  unfold mbind, run_bind. destruct m as [l1 [a|e']]; cbn [fst snd]; [|intros [= <- <-]; by left].
  destruct (f a) as [l2 r] eqn:E. cbn [fst snd]. intros [= <- ->]. right. by exists a, l1, l2.
Qed.

(** A start that fails has started nothing. *)
Lemma lease_start_Err {Conn} (h : Host Conn) args log e : lease_start h args = (log, Err e) → log = [].
Proof.
  unfold lease_start. intros H.
  repeat (apply run_bind_Err in H as [H|(? & ? & ? & ?%lift_Ok & H & ->)];
    [by apply lift_log in H|destruct_and!; subst; cbn [app]]).
  apply run_bind_Err in H as [H|(? & ? & ? & _ & H & _)]; done.
Qed.

(** C20.  An agent session does not outlive its run.  Unless a signal cut its start
    short: when the control plane has started a session, the run asks for its end,
    once, and after that does nothing but print; whether the command ran, could not
    be started, was refused by the sandbox check, or a signal came first. *)
Theorem agent_session_ends {Conn : Type} (h : Host Conn) (args : ExecArgs) org s :
  signal_in_start h = None →
  SessionStarted org s ∈ (run h args).1 →
  ∃ pre post, (run h args).1 = pre ++ SessionEnd org (session_id s) :: post ∧
    none_of is_end pre ∧ none_of (λ a, negb (is_say a)) post.
Proof.
  intros Hsig Hs. assert (SessionStarted org s ∈ (run_inner h args).1 ∧
    ∃ says, (run h args).1 = (run_inner h args).1 ++ says ∧ none_of (λ a, negb (is_say a)) says) as (Hi & says & -> & Hsays).
  { unfold run in *. destruct (run_inner h args) as [l [c|e]]; cbn [fst] in *.
    - split; [done|]. exists []. by rewrite app_nil_r; split; [|constructor].
    - apply elem_of_app in Hs as [Hs|Hs%list_elem_of_singleton]; [|done]. split; [done|]. eexists. split; [done|].
      repeat constructor. }
  clear Hs. unfold run_inner in *. revert Hi. unfold mbind at 1 3, run_bind at 1 3.
  destruct (lift (validate args)) as [lv [[]|]] eqn:Ev; cbn [fst snd]; apply lift_log in Ev as ->; [|by intros ?%elem_of_nil].
  cbn [app]. unfold mbind at 1 3, run_bind at 1 3.
  destruct (lift (map_err _ (register h))) as [lr [[]|]] eqn:Er; cbn [fst snd]; apply lift_log in Er as ->; [|by intros ?%elem_of_nil].
  cbn [app]. destruct (x_agent args).
  - unfold interruptible. rewrite Hsig. unfold mbind, run_bind.
    destruct (lease_start h args) as [ls [l|e]] eqn:Hl; cbn [fst snd].
    + apply lease_start_Ok in Hl as ->. pose proof (launch_no_lease h args (Some l)) as Hq.
      destruct (lease_end_says h l) as (ends & -> & Hends). cbn [fst].
      rewrite !elem_of_app, list_elem_of_singleton, elem_of_cons.
      intros [[= -> ->]|[Hx|[|Hx]]]; [|by apply (none_of_elem _ _ _ Hq) in Hx|done|by apply (none_of_elem _ _ _ Hends) in Hx].
      exists ([SessionStarted (lease_org l) (lease_session l)] ++ (launch h args (Some l)).1), (ends ++ says).
      split; [by rewrite <- !app_assoc|]. split; [|by apply none_of_app].
      apply none_of_app. split; [repeat constructor|]. eapply none_of_weaken, Hq. by intros [].
    + intros Hs. exfalso. assert (ls = []) as ->; [|by apply elem_of_nil in Hs]. by eapply lease_start_Err.
  - intros Hs. pose proof (launch_no_lease h args None) as Hq. by apply (none_of_elem _ _ _ Hq) in Hs.
Qed.

Lemma filter_none p log : none_of p log → List.filter p log = [].
Proof. induction 1 as [|a log Ha _ IH]; [done|]. cbn [List.filter]. by rewrite Ha. Qed.

(** C21.  The command is supervised to its end and leaves nothing behind.  When the
    command has started, the exit status of the run is the command's own; the signals
    that arrive meanwhile are passed on to it, in order, less the interrupts the
    terminal delivers itself; and afterwards every listener that was started is
    stopped, the gateway session closed and the sandbox settings removed. *)
Theorem command_supervised {Conn : Type} (h : Host Conn) (args : ExecArgs) pre line removed env post :
  (run h args).1 = pre ++ CommandRun line removed env :: post →
  (∀ st, wait h = Ok st → (run h args).2 = status_code st) ∧
  List.filter is_kill post = map Kill (List.filter (λ s, negb (s =? SIGINT)) (signals h)) ∧
  (∀ t, Spawned t ∈ pre → Aborted t ∈ post) ∧ Closed ∈ post ∧
  ∀ file doc, SettingsWritten file doc ∈ pre → SettingsRemoved file ∈ post.
Proof.
  intros H. apply run_command_at in H as (_ & -> & -> & lease & before & after & lp & p & lx & f & Hl & [Hp Hx] & -> & -> & ->).
  pose proof (prepare_quiet h args (lease_credential lease)) as Hq. rewrite Hp in Hq. cbn [fst] in Hq.
  apply prepare_Ok in Hp as (_ & Ht & _).
  assert (none_of is_kill after ∧ none_of (λ a, negb (match a with SessionStarted _ _ => true | _ => false end)) before) as [Hka Hb].
  { destruct lease as [l|]; [|destruct Hl as (_ & -> & ->); split; constructor].
    destruct Hl as (_ & ->%lease_start_Ok & ->). destruct (lease_end_says h l) as (says & -> & Hs).
    split; [|repeat constructor]. constructor; [done|]. eapply none_of_weaken, Hs. by intros []. }
  split; [intros st Hst; unfold exit_code; by rewrite Hst|]. split; [|split; [|split]].
  - rewrite List.filter_app, (filter_none _ after), app_nil_r by done. unfold wind_down. rewrite List.filter_app.
    rewrite (filter_none _ (match wait h with Ok _ => _ | Err _ => _ end ++ _)), app_nil_r.
    + induction (List.filter _ (signals h)) as [|s l IH]; [done|]. cbn [map List.filter is_kill]. by rewrite IH.
    + rewrite !none_of_app. split; [destruct (wait h); repeat constructor|].
      split; [apply Forall_map, Forall_true; done|]. split; [repeat constructor|destruct f; repeat constructor].
  - intros t. rewrite !elem_of_app. intros [Hin|[Hin|Hin]].
    + by apply (none_of_elem _ _ _ Hb) in Hin.
    + left. unfold wind_down. rewrite !elem_of_app. right. right. left. apply list_elem_of_fmap. exists t. auto.
    + destruct (x_sandbox args) as [[]|]; [|destruct Hx as [-> _]; by apply elem_of_nil in Hin].
      destruct Hx as (file & _ & (? & ? & ? & ? & ? & _ & _ & -> & _)%srt_command_line_Ok).
      rewrite !elem_of_cons, elem_of_nil in Hin. by destruct Hin as [|[|[]]].
  - apply elem_of_app. left. unfold wind_down. rewrite !elem_of_app. do 3 right. left. left.
  - intros file doc. rewrite !elem_of_app. intros [Hin|[Hin|Hin]].
    + by apply (none_of_elem _ _ _ Hb) in Hin.
    + by apply (none_of_elem _ _ _ Hq) in Hin.
    + destruct (x_sandbox args) as [[]|]; [|destruct Hx as [-> _]; by apply elem_of_nil in Hin].
      destruct Hx as (file' & -> & (? & ? & ? & ? & ? & _ & _ & -> & _)%srt_command_line_Ok).
      rewrite !elem_of_cons, elem_of_nil in Hin. destruct Hin as [[= -> ->]|[|[]]]; [|done].
      left. unfold wind_down. rewrite !elem_of_app. do 4 right. left.
Qed.

(** The preflight lets a run go on exactly if the pinned policy is the one selected
    and, when there are forwards, some destination would be allowed. *)
Lemma judge_exact pin who probes forwards :
  is_ok (judge pin who probes forwards) = true ↔
  (∀ p, pin = Some p → ∃ d r rest, probes = (d, r) :: rest ∧ sim_policy r = Some p) ∧
  (forwards = 0%nat ∨ ∃ d r, (d, r) ∈ probes ∧ sim_outcome r = of_string "allow").
Proof.
  unfold judge. set (sel := match probes with p :: _ => sim_policy p.2 | [] => None end).
  assert ((∀ p, pin = Some p → ∃ d r rest, probes = (d, r) :: rest ∧ sim_policy r = Some p) ↔
    match pin with Some p => sel = Some p | None => True end) as ->.
  { subst sel. destruct pin as [p|]; [|split; [done|intros _ p [=]]]. split.
    - intros Hp. destruct (Hp p eq_refl) as (d & r & rest & -> & Hr). done.
    - intros Hp p' [= <-]. destruct probes as [|[d r] rest]; [done|]. by exists d, r, rest. }
  destruct pin as [p|]; [destruct (decide (sel = Some p)) as [Hs|Hs]; [rewrite (bool_decide_eq_true_2 _ Hs)|rewrite (bool_decide_eq_false_2 _ Hs)]|]; cbn [mbind result_mbind result_bind]; [| |].
  2: { split; [done|]. intros [Hs' _]. by destruct (Hs Hs'). }
  all: case_bool_decide as Hf; [by split; [split; [|left]|]|].
  all: destruct (existsb _ _) eqn:E; cbn [negb is_ok];
    [split; [intros _; split; [done|]; right|done]|split; [done|]; intros [_ [|(d & r & Hin & Hr)]]; [done|]].
  all: try (apply existsb_exists in E as (b & ([d r] & <- & Hin)%in_map_iff & Ho); exists d, r;
    split; [by apply list_elem_of_In|by apply bool_decide_eq_true in Ho]).
  all: exfalso; apply not_true_iff_false in E; apply E, existsb_exists; exists true; split; [|done];
    apply in_map_iff; exists (d, r); split; [by unfold sim_allows; cbn [snd]; rewrite Hr|by apply list_elem_of_In].
Qed.

(** ** A run *)

Definition sample_address (n : nat) : SocketAddr := {| sa_ip := V4 2130706433; sa_port := 40000 + Z.of_nat n |}.
Definition sample_session : AgentSession := mkAgentSession (of_string "sess_1") (of_string "agent.credential").
Definition sample_host (cut : option (nat * Z)) : Host unit :=
  mkHost
    (λ v, if str_eqb v "HOME" then Some (of_string "/home/u") else if str_eqb v "PATH" then Some (of_string "/bin")
          else if str_eqb v "SKIMASQUE_TOKEN" then Some (of_string "secret") else None)
    (λ f, str_eqb f "/bin/srt") (λ _, None) (λ _, Err []) (λ _, Err []) (Ok (of_string "/bin/skimasque"))
    (Ok (Some sample_credentials)) (λ _, Ok [of_string "org"]) (λ _, Ok sample_session) (λ _, Ok tt) (λ _, Err []) (λ _, Err [])
    (λ _, Ok [sample_address 0]) (λ _ _ _, Ok tt) (λ _, Err []) (λ _ _, Err []) (λ hs k v, Some (hs ++ [(k, v)]))
    (λ _, None) (λ _, JNull) (λ _, []) (λ n _, Ok (sample_address n))
    (λ _, Ok (of_string "/tmp/s.json")) (Ok (sample_address 9)) (λ _, Some (Ok (mkOutput (of_string "srt 1.0" ++ nl ++ "blocked" ++ nl) [] true)))
    (Ok tt) cut None [2; 15] (λ _ _ _, None) (Ok (mkExitStatus (Some 3) None)).
Definition sample_exec (sandbox : option SandboxRuntime) : ExecArgs :=
  mkExecArgs None None (Some (of_string "gw.example")) None [] true None None None None sandbox
    (match sandbox with Some _ => [of_string "a.dev"] | None => [] end) None
    (match sandbox with Some _ => false | None => true end) true (mkTlsArgs None None None false)
    (mkAuthArgs None None false None None None) [of_string "/usr/bin/claude"; of_string "-p"].

(** The run of a sandboxed agent, up to its command, and after it. *)
Definition sample_log : list Action := (run (sample_host None) (sample_exec (Some Srt))).1.


Lemma agent_session_ends_witness :
  ∃ pre post, sample_log = pre ++ SessionEnd (of_string "org") (of_string "sess_1") :: post ∧ none_of is_end pre.
Proof.
  destruct (agent_session_ends (sample_host None) (sample_exec (Some Srt)) (of_string "org") sample_session eq_refl) as (pre & post & H & Hp & _).
  - apply list_elem_of_In. left. by vm_compute.
  - exists pre, post. split; [exact H|exact Hp].
Defined.

Lemma command_supervised_witness :
  (run (sample_host None) (sample_exec (Some Srt))).2 = 3 ∧ List.filter is_kill (drop 7 sample_log) = [Kill 15].
Proof.
  destruct (command_supervised (sample_host None) (sample_exec (Some Srt)) (take 6 sample_log)
    [of_string "/bin/srt"; of_string "--settings"; of_string "/tmp/s.json"; of_string "--"; of_string "/usr/bin/claude"; of_string "-p"]
    SCRUBBED_ENV [] (drop 7 sample_log)) as (Hc & Hk & _).
  - by vm_compute.
  - split; [exact (Hc (mkExitStatus (Some 3) None) eq_refl)|exact Hk].
Defined.

(** A signal that arrives once the control plane has answered, and before the answer
    is read, leaves the session it started with nobody to end it. *)
Lemma interrupted_start_leaks :
  let log := (run (sample_host (Some (1%nat, 15))) (sample_exec (Some Srt))).1 in
  SessionStarted (of_string "org") sample_session ∈ log ∧ none_of is_end log.
Proof. split; [left|]. repeat constructor. Qed.
