(* ===== verification/Commands.v ===== *)
(** * The [skimasque] command

    Model of [crates/skimasque-cli/src/bin/skimasque.rs] on Unix: every subcommand
    from its parsed arguments to its exit code, with what it prints, the requests it
    sends to the control plane, the files it writes and the programs it starts.

    The [Machine] is what a command finds: the environment, the policy files, which
    disk operations fail, the control plane's answers, how a started program ends.
    A [Cmd] is a state, writer and error monad: the disk is passed along, effects are
    listed in order, and an error keeps both.  An error is its outermost message. *)

From S2P Require Import Prelude RustStr RustNet Target PolicyDest PolicyUnits Floats PolicyModel PolicyEval PolicyParse.
From S2P Require Import PolicyChecks PolicyLearn PolicyRender Identity Platform HttpConnect StateDir ControlSync PolicyCli Account.
From S2P Require Import Sandbox Exec.
From Stdlib Require Import SpecFloat.

(** ** What a shell reads back *)

Definition expands (c : Z) : bool := is_whitespace c || contains c ([34; 39] ++ "$`\*?~#&|<>(){}[];").

(** [p.replace('\'', r"'\''")]. *)
Definition escape_quote (p : str) : str := flat_map (λ c, if c =? 39 then [39; 92; 39; 39] else [c]) p.
Definition shell_quote (p : str) : str :=
  if bool_decide (p = []) || existsb expands p then 39 :: escape_quote p ++ [39] else p.
Fixpoint join_spaces (ps : list str) : str :=
  match ps with
  | [] => []
  | [p] => p
  | p :: ps => p ++ 32 :: join_spaces ps
  end.
Definition shell_join (parts : list str) : str := join_spaces (map shell_quote parts).

(** ** Small texts *)

Definition println (s : str) : str := s ++ nl.
Definition plural (n : Z) : str := if n =? 1 then [] else "s".

Definition span_text (secs : Z) : str :=
  if secs <=? 59 then to_string secs ++ "s"
  else if secs <=? 3599 then to_string (secs / 60) ++ "m"
  else if secs <=? 86399 then to_string (secs / 3600) ++ "h"
  else to_string (secs / 86400) ++ "d".
Definition relative_time (ms now_ms : Z) : str :=
  if now_ms <? ms then "in " ++ span_text ((ms - now_ms) / 1000) else span_text ((now_ms - ms) / 1000) ++ " ago".
Definition ago (now_ms then_ms : Z) : str := span_text (Z.max 0 (now_ms - then_ms) / 1000) ++ " ago".

(** [format!("{value:.1}")] of a float that is positive and finite: the exact value,
    to the nearest tenth, ties to even. *)
Definition half_even (num den : Z) : Z :=
  let q := num / den in
  let twice := 2 * (num mod den) in
  if twice <? den then q else if den <? twice then q + 1 else if Z.even q then q else q + 1.
Definition display_tenths (x : f64) : str :=
  let tenths := match x with
                | S754_finite _ m e => half_even (10 * Zpos m * 2 ^ Z.max e 0) (2 ^ Z.max (- e) 0)
                | _ => 0
                end in
  to_string (tenths / 10) ++ "." ++ to_string (tenths mod 10).

(** The loop of [human_bytes]: at most one turn for each unit after the first. *)
Fixpoint scale_down (value : f64) (unit : nat) (larger : nat) : f64 * nat :=
  match larger with
  | O => (value, unit)
  | S larger => if SFleb (f64_of_Z 1024) value then scale_down (SFdiv 53 1024 value (f64_of_Z 1024)) (S unit) larger
                else (value, unit)
  end.
Definition UNITS : list str := [of_string "B"; of_string "KB"; of_string "MB"; of_string "GB"; of_string "TB"].
Definition human_bytes (bytes : Z) : str :=
  let '(value, unit) := scale_down (f64_of_Z bytes) 0 (length UNITS - 1) in
  if bool_decide (unit = 0%nat) then to_string bytes ++ " B"
  else display_tenths value ++ " " ++ nth unit UNITS [].

(** ** What the control plane answers with *)

Record OrgView : Type := mkOrgView { org_id : str; org_name : str }.
Record MemberView : Type := mkMemberView { mv_user_id : str; mv_github_login : option str; mv_role : str; mv_added_at_ms : Z }.
Record CreatedOrg : Type := mkCreatedOrg { co_org : OrgView; co_registration_token : str }.
Record UsageView : Type := mkUsageView { tunnels_total : Z; bytes_total : Z; active_gateways : Z; updated_at_ms : Z }.
Record AuditView : Type := mkAuditView { av_gateway_id : str; av_seq : Z; av_received_at_ms : Z; av_event : option Json }.
Record GatewayView : Type := mkGatewayView {
  gw_id : str;
  gw_name : str;
  gw_status : str;
  gw_last_seen_ms : option Z;
  gw_acked_policy_version : option Z;
  gw_labels : list (str * str);
}.
Record AgentSessionResponse : Type := mkAgentSessionResponse {
  started_id : str;
  credential : str;
  started_expires_in : Z;
  started_expires_at_ms : Z;
}.
Record AgentSessionView : Type := mkAgentSessionView {
  asv_id : str;
  asv_initiator : str;
  asv_run_id : option str;
  asv_runtime : option str;
  asv_parent : option str;
  asv_created_at_ms : Z;
  asv_expires_at_ms : Z;
  asv_ended_at_ms : option Z;
}.
Record EndedSession : Type := mkEndedSession { ended_id : str; ended_at_ms : Z; also_ended : list str }.

(** ** The machine *)

(** A write that does not succeed: the file cannot be opened, or only so many bytes
    are written. *)
Inductive Fault : Type := OpenFails | WriteStops (n : nat).

Record Machine : Type := mkMachine {
  env : str → option str;
  umask : Z;
  fault : str → option Fault;
  remove_fails : str → bool;
  create_dir_all : str → bool;
  policy_files : Files;
  is_dir : str → bool;
  exe : option str;
  program_file : str → bool;
  connects : SocketAddr → bool;
  (** [Command::status]. *)
  status_of : str → list str → option ExitStatus;
  (** [SystemTime::now] in milliseconds. *)
  now_ms : Z;
  (** [Api::login], and the answers to the requests. *)
  device_login : str → result str (str * UserView);
  reply_me : ApiRequest → result str UserView;
  reply_logout : ApiRequest → result str unit;
  reply_simulate : ApiRequest → result str SimulateResult;
  reply_orgs : ApiRequest → result str (list OrgView);
  reply_registration : ApiRequest → result str str;
  reply_create_org : ApiRequest → result str CreatedOrg;
  reply_members : ApiRequest → result str (list MemberView);
  reply_member : ApiRequest → result str MemberView;
  reply_removed : ApiRequest → result str unit;
  (** All pages of an audit query, as [Account.query_audit] gathers them. *)
  reply_audit : ApiRequest → result str (list AuditView);
  reply_usage : ApiRequest → result str UsageView;
  reply_gateways : ApiRequest → result str (list GatewayView);
  reply_start : ApiRequest → result str AgentSessionResponse;
  reply_end : ApiRequest → result str EndedSession;
  reply_sessions : ApiRequest → result str (list AgentSessionView);
}.

Inductive Effect : Type :=
  | Out (s : str)
  | ErrOut (s : str)
  | Sent (r : ApiRequest)
  | Wrote (path : str) (content : data)
  | Removed (path : str)
  | Ran (program : str) (args : list str).

Definition Cmd (A : Type) : Type := Disk → list Effect * Disk * result str A.
#[global] Instance cmd_ret : MRet Cmd := λ A a d, ([], d, Ok a).
#[global] Instance cmd_bind : MBind Cmd := λ A B f m d,
  match m d with
  | (es, d, Ok a) => let '(es', d, r) := f a d in (es ++ es', d, r)
  | (es, d, Err e) => (es, d, Err e)
  end.
Definition emit (e : Effect) : Cmd unit := λ d, ([e], d, Ok tt).
Definition of_result {A} (r : result str A) : Cmd A := λ d, ([], d, r).
Definition read_disk {A} (f : Disk → result str A) : Cmd A := λ d, ([], d, f d).
(** A result looked at instead of passed on with [?]. *)
Definition tried {A} (m : Cmd A) : Cmd (result str A) := λ d, let '(es, d, r) := m d in (es, d, Ok r).
Definition ask {A} (reply : ApiRequest → result str A) (r : ApiRequest) : Cmd A := λ d, ([Sent r], d, reply r).
Definition say (s : str) : Cmd unit := emit (Out (println s)).
Definition warn (s : str) : Cmd unit := emit (ErrOut (println s)).
Definition says (l : list str) : Cmd unit := λ d, (map (λ s, Out (println s)) l, d, Ok tt).
Fixpoint for_each {A} (f : A → Cmd unit) (l : list A) : Cmd unit :=
  match l with [] => mret tt | x :: l => _ ← f x; for_each f l end.

(** ** Arguments *)

Record RequestArgs : Type := mkRequestArgs { ra_app : str; ra_transport : Transport; ra_identity : IdentityArgs }.
Record SourceArgs : Type := mkSourceArgs { policy_dir : str; source_files : list str }.

Inductive AgentSessionCommand : Type :=
  | AgentStart (org ttl run_id runtime parent token_file : option str) (force print_token : bool)
  | AgentEnd (session_id : str) (org : option str)
  | AgentList (org : option str) (all : bool).

Inductive OrgCommand : Type :=
  | OrgCreate (name : str)
  | OrgList
  | OrgMembers (org : option str)
  | OrgAddMember (github_login : str) (org : option str)
  | OrgSetRole (github_login role : str) (org : option str)
  | OrgRemoveMember (github_login : str) (org : option str).

Inductive PolicyCommand : Type :=
  | PolicyCheck (policy destination : str) (request : RequestArgs) (source : SourceArgs)
  | PolicyExplain (policy destination : str) (request : RequestArgs) (source : SourceArgs)
  | PolicyTestAll (source : SourceArgs)
  | PolicyValidate (strict : bool) (source : SourceArgs)
  | PolicyDiff (old new : str)
  | PolicyLearnFrom (observations name : str) (identity : IdentityArgs).

Record GatewayRegisterArgs : Type := mkGatewayRegisterArgs {
  gr_org : option str;
  gr_name : option str;
  gr_control_plane : option str;
  gr_state : str;
  gr_labels : list str;
  gr_hostname : str;
  gr_acme : bool;
  gr_acme_extra_domains : list str;
  gr_acme_email : option str;
  gr_run : bool;
  gr_extra : list str;
}.

(** [skimasque gateway register] parses its own arguments; [GatewayArgs] are the
    others, passed on as they are. *)
Inductive Command : Type :=
  | Init (dir : str)
  | LoginTo (control_plane : option str)
  | LogoutNow
  | Whoami
  | Org (command : OrgCommand)
  | AgentSessions (command : AgentSessionCommand)
  | Audit (org gateway decision since : option str) (limit : nat)
  | GatewayRegister (args : GatewayRegisterArgs)
  | GatewayArgs (args : list str)
  | Connect (destination : str) (args : list str)
  | SandboxProbe (addr : SocketAddr)
  | Policies (command : PolicyCommand)
  | Why (destination : str) (request : RequestArgs) (policy : option str) (control_plane : bool) (org : option str)
        (revision : option Z) (draft : bool) (gateway : option str) (source : SourceArgs)
  | Status (source : SourceArgs).

Definition DEFAULT_CONTROL_PLANE : str := "https://control.skimasque.com".
Definition SUCCESS : Z := 0.
Definition FAILURE : Z := 1.

Definition parse_transport (value : str) : option Transport :=
  let v := to_ascii_lowercase value in
  if str_eqb v "tcp" then Some Tcp else if str_eqb v "udp" then Some Udp else None.

Definition exit_for (d : Decision) : Z := if is_allow d then SUCCESS else FAILURE.
Definition u8_or (other code : Z) : Z := if (0 <=? code) && (code <=? 255) then code else other.
Definition exit_code (s : ExitStatus) : Z := match es_code s with Some code => u8_or 1 code | None => 1 end.
(** The end of [run_exec]: [code] is what [exec::run] returned. *)
Definition exec_exit (code : Z) : Z := u8_or EXIT_FAILED code.

Section commands.
Context (debug : str → str) (to_uppercase : str → str) (identity_json : WorkloadIdentity → Json).
Context {TomlError YamlError : Type} (toml : str → result TomlError RawPolicy) (yaml : str → result YamlError YamlDoc).
Context (display_parse_error : @ParseError TomlError YamlError → str) (display_unit_error : ParseUnitError → str).
Context (from_json : str → option Observation) (from_json_array : str → option (list Observation)).
Context `{Serde Credentials}.
Context (m : Machine).

(** ** Files *)

(** A write that the machine may cut short; [after] is the disk with the bytes that
    made it. *)
Definition write_file (path : str) (content : data) (after : data → Disk) : Cmd unit := λ d,
  match fault m path with
  | None => ([Wrote path content], after content, Ok tt)
  | Some OpenFails => ([], d, Err ("creating " ++ path))
  | Some (WriteStops n) => ([], after (take n content), Err ("writing " ++ path))
  end.

Definition put_private (path : str) (content : data) : Cmd unit := λ d,
  write_file path content (λ b, write_private (umask m) path b d) d.

(** [account::write_secret_file]. *)
Definition put_secret (path : str) (content : data) (overwrite : bool) : Cmd unit := λ d,
  match write_secret_file (umask m) path content overwrite d with
  | Ok _ => put_private path content d
  | Err e => ([], d, Err e)
  end.

Definition load_login : Cmd (option Credentials) := read_disk (load_credentials (env m)).
Definition require_login : Cmd Credentials := read_disk (require_credentials (env m)).
Definition save_login (creds : Credentials) : Cmd unit :=
  path ← of_result (credentials_path (env m));
  _ ← of_result (if create_dir_all m (parent_dir path) then Ok tt else Err ("creating " ++ parent_dir path));
  put_private path (to_vec creds).
Definition clear_login : Cmd unit := λ d,
  match credentials_path (env m) with
  | Err e => ([], d, Err e)
  | Ok path => if bool_decide (is_Some (d !! path)) && remove_fails m path
               then ([], d, Err (of_string "removing the stored credentials"))
               else ([Removed path], delete path d, Ok tt)
  end.

(** [fs::write]: a new file gets the mode 0o666, less the umask. *)
Definition plain_file (path : str) (b : data) (d : Disk) : Disk :=
  <[path := mkFile (match d !! path with Some f => mode f | None => Z.land 0x1B6 (Z.lnot (umask m)) end) b]> d.

(** ** Policies *)

Definition load_source (s : SourceArgs) : result str Loaded :=
  match source_files s with
  | [] => load_directory toml yaml (policy_files m) (policy_dir s)
  | files => load_paths toml yaml (policy_files m) files
  end.
Definition source_paths (s : SourceArgs) : result str (list str) :=
  match source_files s with
  | [] => entries ← ok_or (read_dir (policy_files m) (policy_dir s)) ("reading " ++ policy_dir s);
          Ok (sort_by str_le (List.filter is_policy_path entries))
  | files => Ok files
  end.
Definition describe_source (s : SourceArgs) : str :=
  match source_files s with [] => policy_dir s | files => join_names files end.
Definition load_revision (path : str) : result str Loaded :=
  if is_dir m path then load_directory toml yaml (policy_files m) path
  else load_paths toml yaml (policy_files m) [path].

Definition named_file (path : str) : str * result str str :=
  (display_name path, ok_or (PolicyCli.read_text (policy_files m) path) (of_string "I/O error")).

Definition ask_policy (policy destination : str) (request : RequestArgs) (source : SourceArgs) : result str Decision :=
  loaded ← load_source source;
  cli_evaluate debug (set loaded) (Some policy) (ra_app request) (ra_transport request) destination
    (into_identity (ra_identity request)) None.

Definition run_policy (c : PolicyCommand) : Cmd Z :=
  match c with
  | PolicyCheck policy destination request source =>
      decision ← of_result (ask_policy policy destination request source);
      _ ← say (display_decision decision);
      mret (exit_for decision)
  | PolicyExplain policy destination request source =>
      decision ← of_result (ask_policy policy destination request source);
      _ ← says ["Application: " ++ ra_app request; "Transport: " ++ transport_as_str (ra_transport request);
                "Destination: " ++ destination; "Policy: " ++ policy ++ nl; display_decision decision];
      mret SUCCESS
  | PolicyTestAll source =>
      loaded ← of_result (load_source source);
      let '(passed, out) := cli_run_tests debug (set loaded) in
      _ ← emit (Out out);
      mret (if passed then SUCCESS else FAILURE)
  | PolicyValidate strict source =>
      paths ← of_result (source_paths source);
      _ ← of_result (match paths with [] => Err (of_string "no policy files found") | _ => Ok tt end);
      let '(ok, out) := PolicyCli.validate toml yaml display_parse_error (map named_file paths) strict in
      _ ← emit (Out out);
      mret (if ok then SUCCESS else FAILURE)
  | PolicyLearnFrom observations name identity =>
      draft ← of_result (learn debug from_json from_json_array (PolicyCli.read_text (policy_files m) observations)
                           observations name (into_identity identity));
      _ ← emit (Out draft);
      mret SUCCESS
  | PolicyDiff old new =>
      old ← of_result (load_revision old);
      new ← of_result (load_revision new);
      _ ← match diff (set old) (set new) with
          | [] => say "no changes"
          | out => emit (Out out)
          end;
      mret SUCCESS
  end.

(** The rows of [why]. *)
Definition row (label value : str) : str := pad_right 13 label ++ value.
Definition identity_lines (i : WorkloadIdentity) : list (str * str) :=
  let subject : str := match repository i, organization i with
                       | Some repo, _ => "github:" ++ repo
                       | None, Some org => "github:" ++ org
                       | None, None => "(unspecified)"
                       end in
  let given (label : str) (v : option str) : list (str * str) := match v with Some v => [(label, v)] | None => [] end in
  (of_string "Identity:", subject) :: given "Workflow:" (workflow i) ++ given "Ref:" (git_ref i) ++
  given "Environment:" (PolicyModel.environment i) ++ given "Actor:" (actor i).
Definition request_rows (i : WorkloadIdentity) (request : RequestArgs) (destination : str) : list str :=
  map (λ l, row l.1 l.2) (identity_lines i) ++
  (if bool_decide (ra_app request = []) then [] else [row "Application:" (ra_app request)]) ++
  [row "Transport:" (transport_as_str (ra_transport request)); row "Destination:" destination].
Definition closest_rows (closest : list str) : list str :=
  match closest with [] => [] | _ => (nl ++ "Closest rules:") :: map (λ r, "  " ++ r) closest end.

Definition run_why (destination : str) (request : RequestArgs) (source : SourceArgs) (pin : option str) : Cmd Z :=
  loaded ← of_result (load_source source);
  let i := into_identity (ra_identity request) in
  decision ← of_result (cli_evaluate debug (set loaded) None (ra_app request) (ra_transport request) destination i pin);
  _ ← says (((if is_allow decision then of_string "ALLOW" else of_string "DENY") ++ nl) :: request_rows i request destination);
  _ ← says (match decision with
            | Allows a => [row "Policy:" (a_policy a); row "Rule:" (a_rule a)]
            | Denies dn =>
                match d_policy dn with Some p => [row "Policy:" p] | None => [] end ++
                [nl ++ "Reason:" ++ nl ++ "  " ++ summary (reason dn)] ++ closest_rows (closest dn) ++
                [nl ++ "Suggested rule:" ++ nl ++ "  " ++ suggested dn]
            end);
  mret (exit_for decision).

(** ** The control plane *)

(** An [Api] for the address, and the organisation a command acts on; the choice is
    listed when there are several. *)
Definition api_for (address : str) : Cmd str := of_result (api_new address).
Definition org_for (api : str) (creds : Credentials) (explicit : option str) : Cmd str :=
  match explicit with
  | Some org => mret org
  | None =>
      orgs ← ask (reply_orgs m) (request_of api (session_token creds) ListOrgs);
      _ ← match orgs with
          | [] | [_] => mret tt
          | _ => for_each warn (of_string "you belong to several organisations -- pass --org <id>:" ::
                                map (λ o, "  " ++ org_id o ++ "  " ++ org_name o) orgs)
          end;
      of_result (resolve_org (Ok (map org_id orgs)) creds None)
  end.

Definition run_why_remote (destination : str) (request : RequestArgs) (org : option str) (revision : option Z) (draft : bool)
    (gateway : option str) : Cmd Z :=
  creds ← require_login;
  api ← api_for (control_plane creds);
  org ← org_for api creds org;
  let i := into_identity (ra_identity request) in
  let body := JObject [(of_string "identity", identity_json i); (of_string "application", JString (ra_app request));
                       (of_string "destination", JString destination);
                       (of_string "transport", JString (transport_as_str (ra_transport request)))] in
  result ← ask (reply_simulate m) (request_of api (session_token creds) (Simulate org revision draft gateway body));
  _ ← says ((to_uppercase (sim_outcome result) ++ nl) :: request_rows i request destination ++
    [row "Against:" (sim_against result)] ++
    match sim_policy result with Some p => [row "Policy:" p] | None => [] end ++
    match sim_rule result with Some r => [row "Rule:" r] | None => [] end ++
    match sim_steps result with
    | [] => []
    | steps => (nl ++ "Why:") :: map (λ s, "  " ++ (if step_ok s then of_string "+ " else of_string "- ") ++ step_text s) steps
    end ++
    match sim_limits result with
    | [] => []
    | limits => (nl ++ "Limits:") :: map (λ l, "  " ++ pad_right 16 (limit_label l) ++ limit_value l) limits
    end ++
    match sim_suggested_rule result with Some r => [nl ++ "Suggested rule:" ++ nl ++ "  " ++ r] | None => [] end ++
    closest_rows (sim_closest result));
  mret (if sim_allows result then SUCCESS else FAILURE).

Definition run_login (explicit : option str) : Cmd Z :=
  stored ← tried load_login;
  let last := match stored with Ok (Some creds) => Some (control_plane creds) | _ => None end in
  let base_url := normalize_base_url
    (default DEFAULT_CONTROL_PLANE (match explicit with Some e => Some e | None => last end)) in
  api ← api_for base_url;
  '(token, user) ← of_result (device_login m api);
  _ ← save_login (mkCredentials base_url token (u_github_login user) (u_id user));
  _ ← say ("Signed in to " ++ base_url ++ " as " ++ u_github_login user ++ ".");
  mret SUCCESS.

Definition run_logout : Cmd Z :=
  stored ← load_login;
  _ ← match stored with
      | Some creds =>
          _ ← tried (api ← api_for (control_plane creds); ask (reply_logout m) (request_of api (session_token creds) Account.Logout));
          _ ← clear_login;
          say ("Signed out of " ++ control_plane creds ++ ".")
      | None => say "Not signed in."
      end;
  mret SUCCESS.

Definition run_whoami : Cmd Z :=
  stored ← load_login;
  match stored with
  | None => _ ← warn "Not signed in -- run `skimasque login`."; mret 1
  | Some creds =>
      api ← api_for (control_plane creds);
      me ← tried (ask (reply_me m) (request_of api (session_token creds) Me));
      match me with
      | Ok user =>
          _ ← says ((u_github_login user ++ " (" ++ control_plane creds ++ ")") ::
                    match u_email user with Some e => ["  email: " ++ e] | None => [] end ++ ["  user id: " ++ u_id user]);
          mret SUCCESS
      | Err e =>
          _ ← warn ("session for " ++ control_plane creds ++ " is not valid: " ++ e);
          _ ← warn "run `skimasque login` again.";
          mret 1
      end
  end.

Definition audit_field (e : AuditView) (name : str) : str :=
  default [] (v ← av_event e; v ← json_get v name; as_str v).
Definition audit_line (e : AuditView) : str :=
  let decision := audit_field e "decision" in
  let detail := if str_eqb decision "deny" then audit_field e "reason" else audit_field e "rule" in
  pad_right 24 (audit_field e "timestamp") ++ " " ++ pad_right 5 decision ++ " " ++ pad_right 24 (audit_field e "destination") ++
  " " ++ pad_right 12 (audit_field e "application") ++ " " ++ detail ++ "  (" ++ av_gateway_id e ++ ")".
Definition run_audit (org gateway decision since : option str) (limit : nat) : Cmd Z :=
  creds ← require_login;
  api ← api_for (control_plane creds);
  org ← org_for api creds org;
  events ← ask (reply_audit m) (request_of api (session_token creds)
             (QueryAudit org (Nat.min (audit_want (Some limit)) PAGE) gateway decision since None));
  _ ← says (match events with [] => [of_string "no audit events match."] | _ => map audit_line events end);
  mret SUCCESS.

(** ** Agent sessions *)

Definition ttl_of (ttl : option str) : result str (option Z) :=
  match ttl with
  | Some t => (λ t, Some (as_secs t)) <$> map_err (λ e, "--ttl: " ++ display_unit_error e) (parse_duration t)
  | None => Ok None
  end.

Definition start_session (creds : Credentials) (api : str) (org ttl run_id runtime parent token_file : option str)
    (force print_token : bool) : Cmd unit :=
  _ ← of_result (if force && negb (bool_decide (is_Some token_file))
                 then Err (of_string "--force only applies with --token-file") else Ok tt);
  _ ← of_result (if negb (bool_decide (is_Some token_file)) && negb print_token
                 then Err (of_string "choose where the credential goes: --token-file <PATH> (a new owner-only file) or --print-token (stdout, for $(...))")
                 else Ok tt);
  ttl ← of_result (ttl_of ttl);
  org ← org_for api creds org;
  started ← ask (reply_start m) (request_of api (session_token creds)
              (StartAgentSession org (mkAgentSessionRequest ttl run_id runtime parent)));
  _ ← match token_file with
      | Some path =>
          written ← tried (put_secret path (as_bytes (credential started)) force);
          match written with
          | Ok _ => mret tt
          | Err e =>
              _ ← tried (ask (reply_end m) (request_of api (session_token creds) (EndAgentSession org (started_id started))));
              of_result (Err (of_string "the session was ended again, since its credential could not be saved"))
          end
      | None => mret tt
      end;
  _ ← warn ("Started agent session " ++ started_id started ++ " (ends " ++
            relative_time (started_expires_at_ms started) (now_ms m) ++ ").");
  _ ← match token_file with
      | Some path => _ ← warn ("Credential written to " ++ path ++ " (owner-only)."); say (started_id started)
      | None => say (credential started)
      end;
  warn ("End it any time: skimasque agent-session end " ++ started_id started).

Definition session_row (s : AgentSessionView) : str :=
  pad_right 24 (asv_id s) ++ " " ++ pad_right 16 (asv_initiator s) ++ " " ++
  pad_right 14 (default (of_string "-") (asv_runtime s)) ++ " " ++
  pad_right 8 (agent_session_state (asv_ended_at_ms s) (asv_expires_at_ms s) (now_ms m)) ++ " " ++
  relative_time (default (asv_expires_at_ms s) (asv_ended_at_ms s)) (now_ms m).

Definition run_agent_session (c : AgentSessionCommand) : Cmd Z :=
  creds ← require_login;
  api ← api_for (control_plane creds);
  _ ← match c with
      | AgentStart org ttl run_id runtime parent token_file force print_token =>
          start_session creds api org ttl run_id runtime parent token_file force print_token
      | AgentEnd sid org =>
          org ← org_for api creds org;
          ended ← ask (reply_end m) (request_of api (session_token creds) (EndAgentSession org sid));
          says (("Ended " ++ ended_id ended ++ ".") ::
                map (λ child, "Also ended " ++ child ++ ", delegated from it.") (also_ended ended) ++
                [of_string "Gateways stop accepting it within moments and close its open tunnels."])
      | AgentList org all =>
          org ← org_for api creds org;
          sessions ← ask (reply_sessions m) (request_of api (session_token creds) (ListAgentSessions org));
          let rows := List.filter (λ s, all ||
            str_eqb (agent_session_state (asv_ended_at_ms s) (asv_expires_at_ms s) (now_ms m)) "active") sessions in
          says (match rows with
                | [] => ["No " ++ (if all then [] else of_string "active ") ++ "agent sessions."]
                | _ => (pad_right 24 "ID" ++ " " ++ pad_right 16 "STARTED BY" ++ " " ++ pad_right 14 "RUNTIME" ++ " " ++
                        pad_right 8 "STATE" ++ " ENDS") :: map session_row rows
                end)
      end;
  mret SUCCESS.

(** ** Organisations *)

Definition resolve_member (api session org login : str) : Cmd str :=
  members ← ask (reply_members m) (request_of api session (ListMembers org));
  of_result (ok_or (mv_user_id <$> List.find (λ v, match mv_github_login v with
                                                   | Some l => eq_ignore_ascii_case l login
                                                   | None => false
                                                   end) members)
               (login ++ " is not a member of " ++ org)).

Definition run_org (c : OrgCommand) : Cmd Z :=
  creds ← require_login;
  api ← api_for (control_plane creds);
  let session := session_token creds in
  _ ← match c with
      | OrgCreate name =>
          created ← ask (reply_create_org m) (request_of api session (CreateOrg name));
          says ["Created " ++ org_name (co_org created) ++ " (" ++ org_id (co_org created) ++ ")."; [];
                of_string "A one-time gateway registration token (expires in ~1h):";
                "  " ++ co_registration_token created; [];
                "Or run `skimasque gateway register --org " ++ org_id (co_org created) ++ "` later."]
      | OrgList =>
          orgs ← ask (reply_orgs m) (request_of api session ListOrgs);
          says (match orgs with [] => [of_string "You are not a member of any organisation."] | _ => [] end ++
                map (λ o, org_id o ++ "  " ++ org_name o) orgs)
      | OrgMembers org =>
          org ← org_for api creds org;
          members ← ask (reply_members m) (request_of api session (ListMembers org));
          says (map (λ v, pad_right 20 (default (mv_user_id v) (mv_github_login v)) ++ " " ++ mv_role v) members)
      | OrgAddMember login org =>
          org ← org_for api creds org;
          member ← ask (reply_member m) (request_of api session (AddMember org login));
          say ("Added " ++ default login (mv_github_login member) ++ " to " ++ org ++ " as " ++ mv_role member ++ ".")
      | OrgSetRole login role org =>
          org ← org_for api creds org;
          user ← resolve_member api session org login;
          member ← ask (reply_member m) (request_of api session (SetMemberRole org user role));
          say (default login (mv_github_login member) ++ " is now " ++ mv_role member ++ " of " ++ org ++ ".")
      | OrgRemoveMember login org =>
          org ← org_for api creds org;
          user ← resolve_member api session org login;
          _ ← ask (reply_removed m) (request_of api session (RemoveMember org user));
          say ("Removed " ++ login ++ " from " ++ org ++ ".")
      end;
  mret SUCCESS.

(** ** Other programs *)

(** [sibling_path]: next to this executable if it is there, with its extension. *)
Definition sibling_path (sibling : str) : str :=
  match exe m with
  | None => sibling
  | Some path =>
      let name := match f ← file_name path; (split_dot f).2 with Some ext => sibling ++ "." ++ ext | None => sibling end in
      let candidate := join (parent_dir path) name in
      if program_file m candidate then candidate else name
  end.
Definition delegate (sibling : str) (args : list str) : Cmd Z :=
  let program := sibling_path sibling in
  _ ← emit (Ran program args);
  status ← of_result (ok_or (status_of m program args)
             ("running " ++ program ++ " -- is it installed alongside skimasque?"));
  mret (exit_code status).

Definition client_args (destination : str) (passthrough : list str) : list str :=
  passthrough ++ [of_string "connect"; of_string "--target"; destination].
Definition run_connect (destination : str) (passthrough : list str) : Cmd Z :=
  _ ← of_result (map_err (λ _, "the destination " ++ debug destination ++ " is not a valid host:port") (Target.parse destination));
  delegate "skimasque-client" (client_args destination passthrough).

Definition hostname_or_default : str :=
  let given := match env m (of_string "COMPUTERNAME") with Some h => Some h | None => env m (of_string "HOSTNAME") end in
  match given with
  | Some h => if bool_decide (trim h = []) then "gateway" else h
  | None => "gateway"
  end.

Definition server_command (a : GatewayRegisterArgs) (base_url token : str) : list str :=
  [of_string "skimasque-server"; of_string "--control-plane"; base_url; of_string "--control-plane-state"; gr_state a;
   of_string "--control-plane-token"; token; of_string "--control-plane-name"; default hostname_or_default (gr_name a);
   of_string "--hostname"; gr_hostname a] ++
  flat_map (λ l, [of_string "--control-plane-label"; l]) (gr_labels a) ++
  (if gr_acme a then
     of_string "--acme" :: flat_map (λ d, [of_string "--acme-extra-domain"; d]) (gr_acme_extra_domains a) ++
     match gr_acme_email a with Some e => [of_string "--acme-email"; e] | None => [] end
   else []) ++
  gr_extra a.

Definition run_gateway_register (a : GatewayRegisterArgs) : Cmd Z :=
  creds ← require_login;
  let base_url := normalize_base_url (default (control_plane creds) (gr_control_plane a)) in
  api ← api_for base_url;
  org ← org_for api creds (gr_org a);
  token ← ask (reply_registration m) (request_of api (session_token creds) (MintRegistrationToken org));
  let cmd := server_command a base_url token in
  if gr_run a then
    _ ← warn ("registered " ++ org ++ "; starting the gateway");
    delegate "skimasque-server" (tail cmd)
  else
    _ ← says ["Registration token minted for " ++ org ++ ". It is one-time and expires in about an hour."; [];
              "  " ++ shell_join cmd; [];
              of_string "Keep --control-plane-state: the gateway persists its identity there and will not";
              of_string "need the token on later starts. Pass SKIMASQUE_CONTROL_TOKEN in the environment";
              of_string "instead of the flag if you would rather not have it in shell history."];
    mret SUCCESS.

(** ** [init] and [status] *)

Definition EXAMPLE_POLICY : str := flat_map println
  [of_string "# A starter policy. Edit it, then `skimasque policy test` and";
   of_string "# `skimasque gateway --policy-dir .masque/policies`."; of_string "#";
   of_string "# `[match]` decides which workloads this policy governs -- every field is a";
   of_string "# constraint, and an empty match governs everyone. `[[rules]]` are evaluated in";
   of_string "# order; the absence of an `allow` is a deny."; [];
   "name = " ++ quoted "example"; [];
   of_string "[match]"; "repository = " ++ quoted "acme/widget"; "branch = " ++ quoted "main"; [];
   of_string "[[rules]]"; "id = " ++ quoted "terraform-api"; "application = " ++ quoted "terraform";
   "action = " ++ quoted "allow"; "destinations = [" ++ quoted "api.production.example.com:443" ++ "]"; [];
   of_string "[[tests]]"; "application = " ++ quoted "terraform";
   "destination = " ++ quoted "api.production.example.com:443"; "expect = " ++ quoted "allow"; [];
   of_string "[[tests]]"; "application = " ++ quoted "terraform";
   "destination = " ++ quoted "evil.example.com:443"; "expect = " ++ quoted "deny"].

Definition write_example (example : str) : Cmd unit := λ d,
  match d !! example with
  | Some _ => say (example ++ " already exists; leaving it as it is") d
  | None => (_ ← write_file example (as_bytes EXAMPLE_POLICY) (λ b, plain_file example b d); say ("wrote " ++ example)) d
  end.

Definition run_init (dir : str) : Cmd Z :=
  _ ← of_result (if create_dir_all m dir then Ok tt else Err ("creating " ++ dir));
  let example := join dir "example.toml" in
  _ ← write_example example;
  _ ← says [[]; of_string "next:"; "  1. edit " ++ example ++ " to describe who may reach what";
            "  2. check it:        skimasque policy test --policy-dir " ++ dir;
            "  3. run a gateway:   skimasque gateway --policy-dir " ++ dir ++ " \";
            of_string "                          --authority <host:port> --write-cert gateway.pem";
            of_string "  4. reach a target:  skimasque connect <host:port> --proxy <gateway> \";
            of_string "                          --ca gateway.pem --auth-token <token>"; [];
            of_string "from CI, use the setup action instead of step 4 (see docs/github-actions.md).";
            of_string "guided gateway registration and `skimasque login` use a control plane";
            of_string "(SkiMasque Cloud by default) -- see docs/getting-started.md."];
  mret SUCCESS.

Definition count (n : nat) : str := to_string (Z.of_nat n).
Definition counted (n : nat) (noun : str) : str := count n ++ " " ++ noun ++ plural (Z.of_nat n).

Definition usage_line (u : UsageView) : str :=
  "      usage: " ++ to_string (tunnels_total u) ++ " tunnels, " ++ human_bytes (bytes_total u) ++ " relayed, " ++
  to_string (active_gateways u) ++ " active, updated " ++ ago (now_ms m) (updated_at_ms u).
Definition gateway_line (g : GatewayView) : str :=
  "    - " ++ pad_right 20 (gw_name g) ++ " " ++ pad_right 9 (gw_status g) ++ " " ++
  match gw_last_seen_ms g with Some ms => "last seen " ++ ago (now_ms m) ms | None => of_string "never seen" end ++
  match gw_acked_policy_version g with Some v => ", policy v" ++ to_string v | None => [] end ++
  match gw_labels g with [] => [] | labels => " [" ++ join_spaces (map (λ kv, kv.1 ++ "=" ++ kv.2) labels) ++ "]" end.

Definition org_status (api : str) (creds : Credentials) (org : OrgView) : Cmd unit :=
  gateways ← ask (reply_gateways m) (request_of api (session_token creds) (ListGateways (org_id org)));
  _ ← say ("  " ++ org_name org ++ " (" ++ org_id org ++ ")  " ++ counted (length gateways) "gateway");
  usage ← tried (ask (reply_usage m) (request_of api (session_token creds) (Usage (org_id org))));
  _ ← says (match usage with
            | Ok u => if 0 <? updated_at_ms u then [usage_line u] else []
            | Err _ => []
            end);
  says (map gateway_line gateways).

Definition print_fleet_status : Cmd unit :=
  stored ← load_login;
  match stored with
  | None => say "control plane: not signed in (run `skimasque login`)"
  | Some creds =>
      _ ← say ("control plane: " ++ control_plane creds ++ " as " ++ github_login creds);
      api ← api_for (control_plane creds);
      answer ← tried (ask (reply_orgs m) (request_of api (session_token creds) ListOrgs));
      orgs ← of_result (map_err (λ _, of_string "listing organisations (session may be stale -- try `skimasque login`)") answer);
      match orgs with
      | [] => say "  no organisations"
      | _ => for_each (org_status api creds) orgs
      end
  end.

Definition local_status (source : SourceArgs) : list str * bool :=
  match load_source source with
  | Ok loaded =>
      let rules_of (p : Policy) := length (rules p) in
      let policies := set loaded in
      let rule_count := sum_list (map rules_of policies) in
      let passed := (cli_run_tests debug policies).1 in
      (("  " ++ count (length policies) ++ " polic" ++ (if (length policies =? 1)%nat then of_string "y" else of_string "ies") ++
        ", " ++ counted rule_count "rule" ++ ", from " ++ counted (length (sources loaded)) "file") ::
       map (λ p, "    - " ++ p_name p ++ " (" ++ counted (rules_of p) "rule" ++ ")") policies ++
       ["  embedded tests: " ++ (if passed then of_string "all pass" else of_string "FAILURES -- run `skimasque policy test`")],
       passed)
  | Err e => (["  does not load: " ++ e], false)
  end.

Definition run_status (source : SourceArgs) : Cmd Z :=
  let '(lines, ok) := local_status source in
  _ ← says (("policy source: " ++ describe_source source) :: lines ++ [[]]);
  fleet ← tried print_fleet_status;
  match fleet with
  | Ok _ => mret (if ok then SUCCESS else FAILURE)
  | Err e => _ ← say ("control plane: " ++ e); mret FAILURE
  end.

(** ** The command line *)

Definition run (c : Command) : Cmd Z :=
  match c with
  | Init dir => run_init dir
  | LoginTo explicit => run_login explicit
  | LogoutNow => run_logout
  | Whoami => run_whoami
  | Org c => run_org c
  | AgentSessions c => run_agent_session c
  | SandboxProbe addr => _ ← say (probe_connect (connects m addr)); mret SUCCESS
  | Audit org gateway decision since limit => run_audit org gateway decision since limit
  | GatewayRegister a => run_gateway_register a
  | GatewayArgs args => delegate "skimasque-server" args
  | Connect destination args => run_connect destination args
  | Why destination request pin remote org revision draft gateway source =>
      if remote then run_why_remote destination request org revision draft gateway
      else run_why destination request source pin
  | Status source => run_status source
  | Policies c => run_policy c
  end.

(** [main]: effects, the disk after, and the exit code. *)
Definition main (c : Command) (d : Disk) : list Effect * Disk * Z :=
  match run c d with
  | (es, d, Ok code) => (es, d, code)
  | (es, d, Err e) => (es ++ [ErrOut (println ("error: " ++ e))], d, 2)
  end.
End commands.

(** ** The printed command reads back *)

(** How a POSIX shell splits a line into words: blanks separate, single quotes keep
    everything up to the next one, a backslash keeps the next character.  [None] is a
    line with an expansion, an operator, a comment, double quotes or an end inside
    quotes. *)
Definition shell_special (c : Z) : bool := contains c ([10; 34] ++ "$`*?~#&|<>(){}[];").
Definition push (word : option str) (c : Z) : option str := Some (default [] word ++ [c]).
Fixpoint read_words (quoted : bool) (word : option str) (line : str) : option (list str) :=
  match line with
  | [] => if quoted then None else Some (option_list word)
  | c :: line =>
      if quoted then
        if c =? 39 then read_words false word line else read_words true (push word c) line
      else if c =? 39 then read_words true (Some (default [] word)) line
      else if c =? 92 then
        match line with
        | x :: line => if x =? 10 then None else read_words false (push word x) line
        | [] => None
        end
      else if (c =? 32) || (c =? 9) then
        match word with
        | Some w => (λ ws, w :: ws) <$> read_words false None line
        | None => read_words false None line
        end
      else if shell_special c then None
      else read_words false (push word c) line
  end.

Lemma existsb_false {A} (p : A → bool) l : existsb p l = false ↔ Forall (λ x, p x = false) l.
Proof.
  induction l as [|x l IH]; cbn [existsb]; [done|]. rewrite orb_false_iff, Forall_cons, IH. done.
Qed.

(** A character [shell_join] leaves alone stands for itself. *)
Lemma plain_char c :
  expands c = false → (c =? 39) = false ∧ (c =? 92) = false ∧ (c =? 32) || (c =? 9) = false ∧ shell_special c = false.
Proof.
  unfold expands. intros [Hw Hc]%orb_false_iff.
  unfold contains in Hc. rewrite existsb_false in Hc. cbn [app of_string] in Hc.
  assert (∀ x, is_whitespace x = true → (c =? x) = false) as Hx.
  { intros x H. apply Z.eqb_neq. intros ->. congruence. }
  assert (∀ x, x ∈ ([34; 39] ++ of_string "$`\*?~#&|<>(){}[];") → (c =? x) = false) as He.
  { intros x Hin. rewrite Forall_forall in Hc. by apply Hc. }
  assert (of_string "$`*?~#&|<>(){}[];" ⊆ [34; 39] ++ of_string "$`\*?~#&|<>(){}[];") as Hsub
    by (by apply (bool_decide_eq_true_1 _)).
  split_and!; [apply He; by apply (bool_decide_eq_true_1 _)..|by rewrite !Hx|].
  unfold shell_special, contains. rewrite existsb_false. cbn [app].
  apply Forall_cons. split; [by apply Hx|]. apply Forall_cons. split; [apply He; by left|].
  apply Forall_forall. intros x Hin. by apply He, Hsub.
Qed.

Lemma read_plain_word p word line :
  Forall (λ c, expands c = false) p → p ≠ [] →
  read_words false word (p ++ line) = read_words false (Some (default [] word ++ p)) line.
Proof.
  revert word. induction p as [|c p IH]; intros word Hp Hne; [done|].
  apply Forall_cons in Hp as [Hc Hp]. apply plain_char in Hc as (H1 & H2 & H3 & H4).
  cbn [app read_words]. rewrite H1, H2, H3, H4. destruct p as [|c' p]; [done|].
  rewrite IH by done. unfold push. simpl. by rewrite <- app_assoc.
Qed.

Lemma read_escaped p w line :
  read_words true (Some w) (escape_quote p ++ 39 :: line) = read_words false (Some (w ++ p)) line.
Proof.
  revert w. induction p as [|c p IH]; intros w; [by cbn; rewrite app_nil_r|].
  unfold escape_quote. cbn [flat_map]. fold (escape_quote p). destruct (c =? 39) eqn:Hc.
  - apply Z.eqb_eq in Hc as ->. cbn [app read_words]. simpl (39 =? 39). simpl (92 =? 39). simpl (92 =? 92). simpl (39 =? 10).
    unfold push; simpl default. rewrite IH. by rewrite <- app_assoc.
  - cbn [app read_words]. rewrite Hc. unfold push. simpl default. rewrite IH. by rewrite <- app_assoc.
Qed.

Lemma read_quoted p line : read_words false None (shell_quote p ++ line) = read_words false (Some p) line.
Proof.
  unfold shell_quote. destruct (bool_decide (p = []) || existsb expands p) eqn:Hq.
  - cbn [app read_words]. simpl (39 =? 39). simpl default. rewrite <- app_assoc. apply (read_escaped p [] line).
  - apply orb_false_iff in Hq as [Hne Hp]. apply bool_decide_eq_false in Hne. rewrite existsb_false in Hp.
    by rewrite read_plain_word.
Qed.

(** A shell that is given the line [gateway register] prints runs exactly the
    command it was made from, whatever the arguments contain. *)
Theorem shell_join_reads (parts : list str) : read_words false None (shell_join parts) = Some parts.
Proof.
  unfold shell_join. induction parts as [|p parts IH]; [done|]. destruct parts as [|q parts].
  - cbn [map join_spaces]. rewrite <- (app_nil_r (shell_quote p)), read_quoted. done.
  - change (join_spaces (map shell_quote (p :: q :: parts)))
      with (shell_quote p ++ 32 :: join_spaces (map shell_quote (q :: parts))).
    rewrite read_quoted. cbn [read_words]. simpl (32 =? 39). simpl (32 =? 92). simpl ((32 =? 32) || _). by rewrite IH.
Qed.

(** Interactive shells also expand [!], which is left bare. *)
Lemma bang_left_bare : shell_join [of_string "skimasque-server"; of_string "a!b"] = of_string "skimasque-server a!b".
Proof. vm_compute. reflexivity. Qed.

(** ** An agent session is never lost *)

Section sessions.
Context (display_unit_error : ParseUnitError → str) `{Serde Credentials} (m : Machine).

(** What a write leaves behind. *)
Lemma put_secret_cases path content overwrite d :
  (∃ f, put_secret m path content overwrite d = ([Wrote path content], <[path := f]> d, Ok tt) ∧ bytes f = content ∧
        (d !! path = None → private f)) ∨
  (∃ d' e, put_secret m path content overwrite d = ([], d', Err e)).
Proof.
  unfold put_secret, write_secret_file, put_private, write_file, write_private.
  assert (private (mkFile (created_mode (umask m)) content)) as Hp by apply created_private.
  destruct (d !! path) as [f|] eqn:Hf; [destruct overwrite|]; [|right; eauto|];
    (destruct (fault m path) as [[|n]|]; [right; eauto..|left; eexists; split_and!; eauto]); done.
Qed.

Lemma for_each_warn l d : for_each warn l d = (map (λ s, ErrOut (println s)) l, d, Ok tt).
Proof.
  revert d. induction l as [|s l IH]; intros d; [done|].
  cbn [for_each map]. unfold mbind, cmd_bind. cbn. by rewrite IH.
Qed.

(** Finding the organisation only reads. *)
Lemma org_for_shape api creds org d :
  ∃ es r, org_for m api creds org d = (es, d, r) ∧
    ∀ e, e ∈ es → (∃ s, e = ErrOut s) ∨ e = Sent (request_of api (session_token creds) ListOrgs).
Proof.
  destruct org as [org|]; [exists [], (Ok org); split; [done|]; by intros e ?%elem_of_nil|].
  unfold org_for, mbind, cmd_bind, ask. destruct (reply_orgs m _) as [orgs|e0].
  2: { do 2 eexists. split; [reflexivity|]. intros e ->%list_elem_of_singleton. by right. }
  destruct orgs as [|o [|o' orgs]]; [by do 2 eexists; split; [reflexivity|]; intros e ->%list_elem_of_singleton; right..|].
  rewrite for_each_warn. do 2 eexists. split; [reflexivity|]. intros e.
  rewrite elem_of_app, list_elem_of_singleton, elem_of_app. intros [->|[Hin|?%elem_of_nil]]; [by right| |done].
  apply list_elem_of_fmap in Hin as (s & -> & _). left. eauto.
Qed.

Definition started_by (creds : Credentials) (api : str) (e : Effect) : Prop :=
  ∃ o req, e = Sent (request_of api (session_token creds) (StartAgentSession o req)).

Lemma not_started creds api e :
  (∃ s, e = ErrOut s) ∨ e = Sent (request_of api (session_token creds) ListOrgs) ∨
  (∃ o sid, e = Sent (request_of api (session_token creds) (EndAgentSession o sid))) ∨ (∃ s, e = Out s) ∨
  (∃ p b, e = Wrote p b) → ¬ started_by creds api e.
Proof.
  intros He (o & req & ->). destruct He as [[s ?]|[?|[(o' & sid & He)|[[s ?]|(p & b & ?)]]]]; try done.
  injection He as He. unfold org_agent_sessions, org_agent_session_end, org_path in He.
  apply (f_equal last) in He. rewrite !app_assoc, !last_app in He. done.
Qed.

(** What became of the session that was started. *)
Definition session_kept (creds : Credentials) (api o : str) (token_file : option str) (print_token : bool) (d d' : Disk)
    (es : list Effect) (ok : bool) (started : AgentSessionResponse) : Prop :=
  (ok = true ∧
   match token_file with
   | Some path => (∃ f, d' = <[path := f]> d ∧ bytes f = as_bytes (credential started) ∧ (d !! path = None → private f)) ∧
                  ∀ s, Out s ∈ es → s = println (started_id started)
   | None => print_token = true ∧ Out (println (credential started)) ∈ es
   end) ∨
  (ok = false ∧ Sent (request_of api (session_token creds) (EndAgentSession o (started_id started))) ∈ es).

Lemma start_session_kept creds api org ttl run_id runtime parent token_file force print_token d es d' r :
  start_session display_unit_error m creds api org ttl run_id runtime parent token_file force print_token d = (es, d', r) →
  (is_ok r = false ∧ d' = d ∧ ∀ e, e ∈ es → ¬ started_by creds api e) ∨
  ∃ o req before after, let start := request_of api (session_token creds) (StartAgentSession o req) in
    es = before ++ Sent start :: after ∧ (∀ e, e ∈ before ++ after → ¬ started_by creds api e) ∧
    match reply_start m start with
    | Err _ => is_ok r = false
    | Ok started => session_kept creds api o token_file print_token d d' es (is_ok r) started
    end.
Proof.
  intros Hrun. unfold start_session, of_result, mbind, cmd_bind in Hrun.
  case (force && negb (bool_decide (is_Some token_file))) in Hrun.
  { injection Hrun as <- <- <-. left. split_and!; [done..|]. by intros e ?%elem_of_nil. }
  destruct (negb (bool_decide (is_Some token_file)) && negb print_token) eqn:Hprint in Hrun.
  { injection Hrun as <- <- <-. left. split_and!; [done..|]. by intros e ?%elem_of_nil. }
  destruct (ttl_of display_unit_error ttl) as [secs|e] in Hrun.
  2: { injection Hrun as <- <- <-. left. split_and!; [done..|]. by intros e' ?%elem_of_nil. }
  destruct (org_for_shape api creds org d) as (es0 & [o|e] & Ho & Hes0); rewrite Ho in Hrun.
  2: { injection Hrun as <- <- <-. left. split_and!; [done..|]. intros e' Hin. apply not_started. destruct (Hes0 _ Hin); auto. }
  assert (∀ e, e ∈ es0 → ¬ started_by creds api e) as Hbefore
    by (intros e Hin; apply not_started; destruct (Hes0 _ Hin); auto).
  unfold ask in Hrun. right. exists o, (mkAgentSessionRequest secs run_id runtime parent), es0. cbn zeta.
  destruct (reply_start m _) as [started|e].
  2: { injection Hrun as <- <- <-. exists []. split_and!; [done| |done]. by rewrite app_nil_r. }
  assert (∀ e after, e ∈ es0 ++ after → (e ∈ after → ¬ started_by creds api e) → ¬ started_by creds api e) as Hrest.
  { intros e after [Hin|Hin]%elem_of_app Hafter; [by apply Hbefore|by apply Hafter]. }
  assert (∀ s, Out s ∉ es0) as Hquiet by (intros s Hin; apply Hes0 in Hin as [[? ?]|?]; done).
  destruct token_file as [path|].
  - unfold tried in Hrun.
    destruct (put_secret_cases path (as_bytes (credential started)) force d) as [(f & Hput & Hf & Hnew)|(d1 & e & Hput)];
      rewrite Hput in Hrun; cbn in Hrun; injection Hrun as <- <- <-; eexists; (split_and!; [reflexivity| |]).
    + intros e Hin. eapply Hrest; [exact Hin|]. intros He. apply not_started. set_solver.
    + left. split; [done|]. split; [by exists f|]. intros s Hs. apply elem_of_app in Hs as [?%Hquiet|Hs]; [done|]. set_solver.
    + intros e' Hin. eapply Hrest; [exact Hin|]. intros He. apply not_started. set_solver.
    + right. split; [done|]. set_solver.
  - cbn in Hrun. injection Hrun as <- <- <-. eexists. split_and!; [reflexivity| |].
    + intros e Hin. eapply Hrest; [exact Hin|]. intros He. apply not_started. set_solver.
    + left. split; [done|]. split; [by destruct print_token|set_solver].
Qed.

End sessions.

(** ** Where the sign-in session is sent *)

(** Every effect of a command satisfies [P], whatever the disk. *)
Definition only {A} (P : Effect → Prop) (c : Cmd A) : Prop := ∀ d, Forall P (c d).1.1.

Section only.
Context {P : Effect → Prop}.

Lemma only_bind {A B} (c : Cmd A) (k : A → Cmd B) : only P c → (∀ a, only P (k a)) → only P (c ≫= k).
Proof.
  intros Hc Hk d. specialize (Hc d). unfold mbind, cmd_bind. destruct (c d) as [[es d1] [a|e]]; [|done].
  specialize (Hk a d1). destruct (k a d1) as [[es' d2] r]. by apply Forall_app_2.
Qed.
Lemma only_ret {A} (a : A) : only P (mret a).
Proof. intros d. constructor. Qed.
Lemma only_emit e : P e → only P (emit e).
Proof. intros He d. by repeat constructor. Qed.
Lemma only_result {A} (r : result str A) : only P (of_result r).
Proof. intros d. constructor. Qed.
Lemma only_result_bind {A B} (r : result str A) (k : A → Cmd B) :
  (∀ a, r = Ok a → only P (k a)) → only P (of_result r ≫= k).
Proof.
  intros Hk d. unfold mbind, cmd_bind, of_result. destruct r as [a|e]; [|constructor].
  specialize (Hk a eq_refl d). by destruct (k a d) as [[es d'] r].
Qed.
Lemma only_read {A} (f : Disk → result str A) : only P (read_disk f).
Proof. intros d. constructor. Qed.
Lemma only_tried {A} (c : Cmd A) : only P c → only P (tried c).
Proof. intros Hc d. specialize (Hc d). unfold tried. by destruct (c d) as [[es d'] r]. Qed.
Lemma only_ask {A} (reply : ApiRequest → result str A) r : P (Sent r) → only P (ask reply r).
Proof. intros He d. by repeat constructor. Qed.
Lemma only_says l : (∀ s, P (Out s)) → only P (says l).
Proof. intros He d. cbn. induction l; by constructor. Qed.
Lemma only_for_each {A} (f : A → Cmd unit) l : (∀ x, only P (f x)) → only P (for_each f l).
Proof. intros Hf. induction l; [apply only_ret|]. by apply only_bind. Qed.
End only.

Create HintDb only discriminated.
#[export] Hint Resolve only_ret only_emit only_result only_read only_tried only_ask only_says only_for_each : only.

(** Cut a command into its steps. *)
Ltac only_steps :=
  repeat first
    [ progress intros
    | lazymatch goal with
      | |- only _ (of_result _ ≫= _) => apply only_result_bind
      | |- only _ (_ ≫= _) => apply only_bind
      | |- only _ (match ?x with _ => _ end) => destruct x
      end
    | simple apply only_tried | simple apply only_for_each
    | solve [auto with only] ].

(** A request with the session of [creds], to the control plane at [address]. *)
Definition carries (creds : Credentials) (address : str) (e : Effect) : Prop :=
  match e with
  | Sent r => ∃ api call, api_new address = Ok api ∧ r = request_of api (session_token creds) call
  | _ => True
  end.
Lemma carries_call creds address api call :
  api_new address = Ok api → carries creds address (Sent (request_of api (session_token creds) call)).
Proof. intros H. by exists api, call. Qed.
Lemma carries_out creds address s : carries creds address (Out s).
Proof. done. Qed.
Lemma carries_err creds address s : carries creds address (ErrOut s).
Proof. done. Qed.
Lemma carries_ran creds address p args : carries creds address (Ran p args).
Proof. done. Qed.
#[export] Hint Resolve carries_call carries_out carries_err carries_ran : only.

Section home.
Context (debug : str → str) (to_uppercase : str → str) (identity_json : WorkloadIdentity → Json).
Context {TomlError YamlError : Type} (toml : str → result TomlError RawPolicy) (yaml : str → result YamlError YamlDoc).
Context (display_parse_error : @ParseError TomlError YamlError → str) (display_unit_error : ParseUnitError → str).
Context (from_json : str → option Observation) (from_json_array : str → option (list Observation)).
Context `{Serde Credentials}.
Context (m : Machine).

Lemma org_for_carries creds address api org :
  api_new address = Ok api → only (carries creds address) (org_for m api creds org).
Proof. intros Ha. unfold org_for, warn. only_steps. Qed.
Lemma put_secret_silent P path content overwrite :
  (∀ b, P (Wrote path b)) → only P (put_secret m path content overwrite).
Proof.
  intros HP d. unfold put_secret, put_private, write_file. destruct (write_secret_file _ _ _ _ _); [|constructor].
  destruct (fault m path) as [[|n]|]; by repeat constructor.
Qed.

(** The requests of a command: with the stored session, to the address [f] gives. *)
Definition sends {A} (f : Credentials → str) (c : Cmd A) (d : Disk) : Prop :=
  Forall (λ e, ∀ r, e = Sent r → ∃ creds, load_credentials (env m) d = Ok (Some creds) ∧ carries creds (f creds) e) (c d).1.1.

Lemma only_sends {A} (c : Cmd A) f d : only (λ e, ∀ r, e ≠ Sent r) c → sends f c d.
Proof. intros Hc. eapply Forall_impl; [exact (Hc d)|]. cbn. naive_solver. Qed.
Lemma required_sends {A} (k : Credentials → Cmd A) f d :
  (∀ creds, only (carries creds (f creds)) (k creds)) → sends f (require_login m ≫= k) d.
Proof.
  intros Hk. unfold sends, mbind, cmd_bind, require_login, require_credentials, read_disk.
  destruct (load_credentials (env m) d) as [[creds|]|e]; cbn; [|constructor..].
  specialize (Hk creds d). destruct (k creds d) as [[es d'] r]. eapply Forall_impl; [exact Hk|]. cbn. naive_solver.
Qed.
Lemma loaded_sends {A} (k : option Credentials → Cmd A) f d :
  (∀ creds, only (carries creds (f creds)) (k (Some creds))) → only (λ e, ∀ r, e ≠ Sent r) (k None) →
  sends f (load_login m ≫= k) d.
Proof.
  intros Hk Hn. unfold sends, mbind, cmd_bind, load_login, read_disk.
  destruct (load_credentials (env m) d) as [[creds|]|e]; cbn; [| |constructor].
  - specialize (Hk creds d). destruct (k (Some creds) d) as [[es d'] r]. eapply Forall_impl; [exact Hk|]. cbn. naive_solver.
  - specialize (Hn d). destruct (k None d) as [[es d'] r]. eapply Forall_impl; [exact Hn|]. cbn. naive_solver.
Qed.

Lemma says_sends {A} l (k : Cmd A) f d : sends f k d → sends f (says l ≫= λ _, k) d.
Proof.
  unfold sends, mbind, cmd_bind, says. intros Hk. destruct (k d) as [[es d'] r]. cbn in *. apply Forall_app_2; [|done].
  apply Forall_fmap, Forall_true. by intros.
Qed.
Lemma tried_sends {A B} (c : Cmd A) (k : result str A → Cmd B) f d :
  sends f c d → (∀ r, only (λ e, ∀ r, e ≠ Sent r) (k r)) → sends f (tried c ≫= k) d.
Proof.
  unfold sends, mbind, cmd_bind, tried. intros Hc Hk. destruct (c d) as [[es d'] r].
  specialize (Hk r d'). destruct (k r d') as [[es' d''] r']. cbn in *. apply Forall_app_2; [done|].
  eapply Forall_impl; [exact Hk|]. naive_solver.
Qed.

Lemma start_session_carries creds address api org ttl run_id runtime parent token_file force print_token :
  api_new address = Ok api →
  only (carries creds address) (start_session display_unit_error m creds api org ttl run_id runtime parent token_file force print_token).
Proof.
  intros Ha. unfold start_session, warn, say. only_steps; [by apply org_for_carries|by apply put_secret_silent].
Qed.

Lemma run_agent_session_sends c d : sends control_plane (run_agent_session display_unit_error m c) d.
Proof.
  apply required_sends. intros creds. unfold api_for, say. only_steps; [by apply start_session_carries|by apply org_for_carries..].
Qed.
Lemma run_org_sends c d : sends control_plane (run_org m c) d.
Proof.
  apply required_sends. intros creds. unfold api_for, say, resolve_member. only_steps; by apply org_for_carries.
Qed.
Lemma run_audit_sends org gateway decision since limit d : sends control_plane (run_audit m org gateway decision since limit) d.
Proof. apply required_sends. intros creds. unfold api_for. only_steps; by apply org_for_carries. Qed.
Lemma run_why_remote_sends destination request org revision draft gateway d :
  sends control_plane (run_why_remote to_uppercase identity_json m destination request org revision draft gateway) d.
Proof. apply required_sends. intros creds. unfold api_for. only_steps; by apply org_for_carries. Qed.
Lemma run_whoami_sends d : sends control_plane (run_whoami m) d.
Proof. apply loaded_sends; unfold api_for, warn; only_steps. Qed.

Lemma run_logout_sends d : sends control_plane (run_logout m) d.
Proof.
  apply loaded_sends; unfold api_for, say; only_steps. intros d'. unfold clear_login.
  destruct (credentials_path (env m)) as [path|]; [|constructor]. case (_ && _); by repeat constructor.
Qed.
Lemma run_status_sends source d : sends control_plane (run_status debug toml yaml m source) d.
Proof.
  unfold run_status. destruct (local_status debug toml yaml m source) as [lines ok].
  assert (sends control_plane (print_fleet_status m) d) as Hf.
  { apply loaded_sends; unfold api_for, say; only_steps. unfold org_status, say. only_steps. }
  apply says_sends, tried_sends; [done|]. intros r. unfold say. only_steps.
Qed.
Lemma delegate_silent sibling args : only (λ e, ∀ r, e ≠ Sent r) (delegate m sibling args).
Proof. unfold delegate. only_steps. Qed.
Lemma run_gateway_register_sends a d :
  sends (λ creds, normalize_base_url (default (control_plane creds) (gr_control_plane a))) (run_gateway_register m a) d.
Proof.
  apply required_sends. intros creds. unfold api_for, warn, delegate. only_steps; by apply org_for_carries.
Qed.
Lemma save_login_silent creds : only (λ e, ∀ r, e ≠ Sent r) (save_login m creds).
Proof.
  unfold save_login, put_private. only_steps. intros d. unfold write_file.
  destruct (fault m _) as [[|n]|]; by repeat constructor.
Qed.
Lemma run_login_silent explicit : only (λ e, ∀ r, e ≠ Sent r) (run_login m explicit).
Proof. unfold run_login, api_for, load_login, say. only_steps; apply save_login_silent. Qed.
Lemma run_policy_silent c :
  only (λ e, ∀ r, e ≠ Sent r) (run_policy debug toml yaml display_parse_error from_json from_json_array m c).
Proof. unfold run_policy, say. only_steps. Qed.
Lemma run_init_silent dir : only (λ e, ∀ r, e ≠ Sent r) (run_init m dir).
Proof.
  unfold run_init. only_steps. intros d. unfold write_example, say. case (d !! _); [by repeat constructor|].
  unfold mbind, cmd_bind, write_file. destruct (fault m _) as [[|n]|]; by repeat constructor.
Qed.
Lemma run_why_silent destination request source pin : only (λ e, ∀ r, e ≠ Sent r) (run_why debug toml yaml m destination request source pin).
Proof. unfold run_why. only_steps. Qed.

Abbreviation run_command :=
  (run debug to_uppercase identity_json toml yaml display_parse_error display_unit_error from_json from_json_array m).
Abbreviation main_command :=
  (main debug to_uppercase identity_json toml yaml display_parse_error display_unit_error from_json from_json_array m).

(** The address a command talks to. *)
Definition address_of (c : Command) (creds : Credentials) : str :=
  match c with
  | GatewayRegister a => normalize_base_url (default (control_plane creds) (gr_control_plane a))
  | _ => control_plane creds
  end.

Lemma run_sends c d : sends (address_of c) (run_command c) d.
Proof.
  destruct c; cbn [run]; unfold say;
    try (apply only_sends; solve [apply run_init_silent|apply run_login_silent|apply delegate_silent|apply run_policy_silent|only_steps]).
  - apply run_logout_sends.
  - apply run_whoami_sends.
  - apply run_org_sends.
  - apply run_agent_session_sends.
  - apply run_audit_sends.
  - apply run_gateway_register_sends.
  - apply only_sends. unfold run_connect. only_steps. apply delegate_silent.
  - destruct control_plane; [apply run_why_remote_sends|apply only_sends, run_why_silent].
  - apply run_status_sends.
Qed.

(** The sign-in session goes home.  Whatever the command and its arguments, every
    request it sends carries the stored session and no other, and goes to the control
    plane that session was stored for, over TLS or to this machine; only [gateway
    register] goes to the address it is given instead. *)
Theorem session_sent_home (c : Command) (d : Disk) (r : ApiRequest) :
  Sent r ∈ (run_command c d).1.1 →
  ∃ creds api call, load_credentials (env m) d = Ok (Some creds) ∧ r = request_of api (session_token creds) call ∧
    api_new (address_of c creds) = Ok api ∧ require_secure_transport api = Ok tt.
Proof.
  intros Hin. pose proof (run_sends c d) as Hs. unfold sends in Hs. rewrite Forall_forall in Hs.
  destruct (Hs _ Hin r eq_refl) as (creds & Hload & api & call & Hapi & ->). exists creds, api, call. split_and!; [done..|].
  unfold api_new in Hapi. apply bind_Ok in Hapi as ([] & Hsec & [= <-]). done.
Qed.

(** ** Exit codes *)

(** [policy check] and [why] exit with 0 exactly when the policies, which load, allow
    the request, with 1 exactly when they deny it, and with 2 otherwise. *)
Theorem decision_exit_codes (policy destination : str) (request : RequestArgs) (source : SourceArgs) (pin : option str) (d : Disk) :
  let ctx dest pin := mkContext (into_identity (ra_identity request)) (ra_app request) (ra_transport request) dest pin in
  let code verdict :=
    match verdict with Some dec => if is_allow dec then 0 else 1 | None => 2 end in
  (main_command (Policies (PolicyCheck policy destination request source)) d).2 =
    code (loaded ← result_ok (load_source toml yaml m source); dest ← result_ok (parse_destination destination);
          evaluate_named (set loaded) policy (ctx dest None)) ∧
  (∀ org revision draft gateway,
     (main_command (Why destination request pin false org revision draft gateway source) d).2 =
     code (loaded ← result_ok (load_source toml yaml m source); dest ← result_ok (parse_destination destination);
           Some (evaluate (set loaded) (ctx dest pin)))).
Proof.
  cbn zeta. unfold main. cbn [run run_policy]. split; [|intros org revision draft gateway]; unfold run_why, ask_policy, cli_evaluate;
    unfold of_result, say, says, emit, mbind, cmd_bind; destruct (load_source toml yaml m source) as [loaded|e]; cbn; try done;
    destruct (parse_destination destination) as [dest|e]; cbn; try done.
  - unfold ok_or. by destruct (evaluate_named _ _ _).
Qed.

(** [logout] forgets the session whatever the control plane answers, and fails only
    when the file cannot be read or removed. *)
Theorem logout_forgets (d : Disk) (creds : Credentials) :
  load_credentials (env m) d = Ok (Some creds) →
  ∃ path es, credentials_path (env m) = Ok path ∧
    run_command LogoutNow d = (if remove_fails m path
                               then (es, d, Err (of_string "removing the stored credentials"))
                               else (es, delete path d, Ok SUCCESS)) ∧
    load_credentials (env m) (delete path d) = Ok None.
Proof.
  intros Hload. unfold load_credentials in Hload. apply bind_Ok in Hload as (path & Hpath & Hf).
  destruct (d !! path) as [f|] eqn:Hd; [|done].
  assert (load_credentials (env m) d = Ok (Some creds)) as Hload
    by (unfold load_credentials; rewrite Hpath; cbn; by rewrite Hd).
  exists path. enough (∃ es, run_logout m d = (if remove_fails m path
      then (es, d, Err (of_string "removing the stored credentials")) else (es, delete path d, Ok SUCCESS))) as [es Hes].
  { exists es. split_and!; [done..|]. unfold load_credentials. rewrite Hpath. cbn. by rewrite lookup_delete_eq. }
  unfold run_logout, load_login, read_disk, api_for, of_result, mbind, cmd_bind, tried. rewrite Hload.
  destruct (api_new (control_plane creds)); cbn; unfold clear_login; rewrite Hpath, Hd; cbn;
    destruct (remove_fails m path); by eexists.
Qed.
End home.

(** ** The starter policy *)

(** The document a TOML reader finds in the text [init] writes. *)
Definition example_raw : RawPolicy :=
  mkRawPolicy (Some (of_string "example")) false
    (mkRawMatch None (Some (of_string "acme/widget")) None None (Some (of_string "main")) None None None)
    (mkRawSession None) None (mkRawLimits None None None None None None)
    [mkRawRule (Some (of_string "terraform-api")) "terraform" None "allow" [of_string "api.production.example.com:443"]]
    [mkRawTest "terraform" "api.production.example.com:443" None "allow" None;
     mkRawTest "terraform" "evil.example.com:443" None "deny" None].

(** What [init] writes loads, passes its own tests and draws no warning. *)
Theorem starter_policy_passes {TomlError YamlError : Type} (debug : str → str) (toml : str → result TomlError RawPolicy)
    (yaml : str → result YamlError YamlDoc) :
  toml EXAMPLE_POLICY = Ok example_raw →
  ∃ p, from_named_document toml yaml "example.toml" EXAMPLE_POLICY = Ok p ∧
    (cli_run_tests debug [p]).1 = true ∧ lints p = [].
Proof.
  intros Htoml. unfold from_named_document, from_toml.
  replace (ends_with _ _ || ends_with _ _) with false by (vm_compute; reflexivity).
  rewrite Htoml. eexists. split_and!; [vm_compute; reflexivity|vm_compute; reflexivity..].
Qed.

(** ** Samples *)

Definition quiet_files : Files := mkFiles (λ _, None) (λ _, None) (λ _, None).
Definition started_one : AgentSessionResponse := mkAgentSessionResponse (of_string "sess_1") (of_string "jwt") 1800 1800000.
Definition sample_machine (fault : str → option Fault) (ends : bool) : Machine :=
  let no {A} (_ : ApiRequest) : result str A := Err (of_string "503") in
  mkMachine home_var 0x12 fault (λ _, false) (λ _, true) quiet_files (λ _, false) None (λ _, false) (λ _, false)
    (λ _ _, None) 0 (λ _, Err (of_string "503")) no no no (λ _, Ok [mkOrgView (of_string "org_1") (of_string "acme")])
    no no no no no no no no (λ _, Ok started_one)
    (λ _, if ends then Ok (mkEndedSession (of_string "sess_1") 1 []) else Err (of_string "503")) no.
Definition signed_in : Disk :=
  {[ of_string "/home/u/.config/skimasque/credentials.json" := mkFile 0x180 (@to_vec _ (count_serde Credentials) sample_credentials) ]}.
Definition start_to (path : str) : AgentSessionCommand := AgentStart None None None None None (Some path) false false.

Lemma starter_policy_passes_witness :
  ∃ p, from_named_document (λ _, @Ok unit _ example_raw) (λ _, @Err unit YamlDoc tt) "example.toml" EXAMPLE_POLICY = Ok p ∧
    (cli_run_tests (λ s, s) [p]).1 = true ∧ lints p = [].
Proof. apply starter_policy_passes. reflexivity. Defined.

Definition no_space (path : str) : option Fault := if str_eqb path "/t" then Some (WriteStops 2) else None.
Definition start_run (ends : bool) : list Effect * Disk * result str Z :=
  @run_agent_session (λ _, []) (count_serde Credentials) (sample_machine no_space ends) (start_to "/t") signed_in.


(** The command says that it ended the session also when it could not. *)
Lemma failed_end_unreported :
  (start_run false).2 = Err (of_string "the session was ended again, since its credential could not be saved") ∧
  ∀ r, reply_end (sample_machine no_space false) r = Err (of_string "503").
Proof. split; [vm_compute; reflexivity|done]. Qed.

Definition register_at (address : str) : GatewayRegisterArgs :=
  mkGatewayRegisterArgs None None (Some address) (of_string "state") [] (of_string "gw.example") false [] None false [].
Definition command_run (c : Command) : list Effect * Disk * result str Z :=
  @run (λ s, s) (λ s, s) (λ _, JNull) unit unit (λ _, Err tt) (λ _, Err tt) (λ _, []) (λ _, []) (λ _, None) (λ _, None)
    (count_serde Credentials) (sample_machine (λ _, None) true) c signed_in.

Lemma session_sent_home_witness :
  let m := sample_machine (λ _, None) true in
  let r := request_of (of_string "https://control.example") (of_string "tok") Me in
  Sent r ∈ (command_run Whoami).1.1 ∧
  ∃ creds api call, @load_credentials (count_serde Credentials) (env m) signed_in = Ok (Some creds) ∧
    r = request_of api (session_token creds) call ∧
    api_new (address_of Whoami creds) = Ok api ∧ require_secure_transport api = Ok tt.
Proof.
  cbn zeta. assert (Sent (request_of (of_string "https://control.example") (of_string "tok") Me) ∈ (command_run Whoami).1.1) as Hin.
  { vm_compute. left. }
  split; [exact Hin|]. exact (@session_sent_home (λ s, s) (λ s, s) (λ _, JNull) unit unit (λ _, Err tt) (λ _, Err tt) (λ _, [])
    (λ _, []) (λ _, None) (λ _, None) (count_serde Credentials) (sample_machine (λ _, None) true) Whoami signed_in _ Hin).
Defined.

(** With [--control-plane], [gateway register] sends the session of the control plane
    that was signed in to somewhere else. *)
Lemma register_sends_elsewhere :
  Sent (request_of (of_string "https://other.example") (session_token sample_credentials) ListOrgs)
    ∈ (command_run (GatewayRegister (register_at "https://other.example"))).1.1.
Proof. vm_compute. left. Qed.

Lemma logout_forgets_witness :
  (command_run LogoutNow).2 = Ok SUCCESS ∧ (command_run LogoutNow).1.2 !! of_string "/home/u/.config/skimasque/credentials.json" = None ∧
  ∃ path es, credentials_path home_var = Ok path ∧ command_run LogoutNow = (es, delete path signed_in, Ok SUCCESS).
Proof.
  split; [vm_compute; reflexivity|]. split; [vm_compute; reflexivity|].
  destruct (@logout_forgets (λ s, s) (λ s, s) (λ _, JNull) unit unit (λ _, Err tt) (λ _, Err tt) (λ _, []) (λ _, []) (λ _, None)
    (λ _, None) (count_serde Credentials) (sample_machine (λ _, None) true) signed_in sample_credentials) as (path & es & Hp & Hr & _).
  { vm_compute. reflexivity. }
  exists path, es. split; [exact Hp|exact Hr].
Defined.

Lemma human_bytes_samples :
  human_bytes 1023 = of_string "1023 B" ∧ human_bytes 1536 = of_string "1.5 KB" ∧ human_bytes 1048575 = of_string "1024.0 KB" ∧
  human_bytes u64_max = of_string "16777216.0 TB".
Proof. vm_compute. done. Qed.
