(* ===== verification/LocalProxy.v ===== *)
(** * The local proxy

    Model of the client's standing proxy: the HTTP proxy of
    [crates/skimasque-cli/src/http_proxy.rs], the listeners and the record that says
    they are up ([proxy.rs]), the operational endpoints of a gateway ([ops.rs]), and
    the commands of [bin/skimasque-client.rs].

    The [http] crate's header maps and URIs are parameters, and so are hyper and the
    session: [Outside] says how an attempt to open a tunnel, an upgrade, a handshake
    and a forwarded request end.  A request is handled by a list of actions and one
    response.  The record is written on the file system of [StateDir], where every
    call can fail and the process can die in it. *)

From S2P Require Import Prelude RustStr RustNet Target PolicyChecks HttpConnect Server StateDir ServerStart Probe.

(** ** Headers *)

Class HeaderStore : Type := {
  Hv : Type;
  Hm : Type;
  value_of : str → option Hv;
  text_of : Hv → option str;
  get_all : Hm → str → list Hv;
  remove : str → Hm → Hm;
  (** [insert(HOST, v)]. *)
  insert_host : Hv → Hm → Hm;
}.

(** Header names are compared without regard to case; a name that is no header name
    names nothing. *)
Class HeaderStoreLaws `{HeaderStore} : Prop := {
  get_all_remove m n n' : get_all (remove n m) n' = if eq_ignore_ascii_case n n' then [] else get_all m n';
  get_all_insert m v n : get_all (insert_host v m) n = if eq_ignore_ascii_case "host" n then [v] else get_all m n;
  text_of_value s v : value_of s = Some v → forallb is_visible s = true → text_of v = Some s;
}.

(** A request's URI, as the [http] crate parsed it. *)
Record Uri : Type := mkUri {
  scheme : option str;
  authority : option str;
  port : option Z;
  path_query : option str;
  uri_text : str;
}.

Inductive HttpMethod : Type := ConnectMethod | Method (name : str).

Section proxy.
Context {HS : HeaderStore} {Body : Type}.
Context (parse_uri : str → option Uri).

Record Request : Type := mkRequest { method : HttpMethod; uri : Uri; headers : Hm; body : Body }.
Record Upstream : Type := mkUpstream { up_status : Z; up_headers : Hm; up_body : Body }.

(** The answer: a short text of the proxy's own, or the upstream's response. *)
Inductive Reply : Type :=
  | Small (status : Z) (text : str)
  | Forwarded (u : Upstream).

Definition nominated (m : Hm) : list str :=
  flat_map (λ v, match text_of v with Some s => map trim (split 44 s) | None => [] end) (get_all m "connection").

Definition HOP_HEADERS : list str :=
  [of_string "connection"; of_string "proxy-authorization"; of_string "proxy-authenticate"; of_string "proxy-connection";
   of_string "keep-alive"; of_string "te"; of_string "trailer"; of_string "transfer-encoding"; of_string "upgrade"].

Definition remove_all (names : list str) (m : Hm) : Hm := fold_left (λ m n, remove n m) names m.
Definition strip_hop_headers (m : Hm) : Hm := remove_all HOP_HEADERS (remove_all (nominated m) m).

Definition BAD_REQUEST : Z := 400.
Definition FORBIDDEN : Z := 403.
Definition BAD_GATEWAY : Z := 502.
Definition OK : Z := 200.

Definition prepare_request (r : Request) : result Z (Target.Target * Request) :=
  let u := uri r in
  if negb (bool_decide (scheme u = Some (of_string "http"))) ||
     negb (bool_decide (get_all (headers r) "upgrade" = nil)) then Err BAD_REQUEST
  else
    auth ← ok_or (authority u) BAD_REQUEST;
    if contains 64 auth || contains 35 (uri_text u) then Err BAD_REQUEST
    else
      let endpoint := match port u with Some _ => auth | None => auth ++ ":80" end in
      target ← map_err (λ _, BAD_REQUEST) (Target.parse endpoint);
      path ← ok_or (parse_uri (default (of_string "/") (path_query u))) BAD_REQUEST;
      host ← ok_or (value_of auth) BAD_REQUEST;
      Ok (target, mkRequest (method r) path (insert_host host (strip_hop_headers (headers r))) (body r)).

(** ** One request *)

(** How [timeout(OPEN_TIMEOUT, session.connect_tcp(target))] ends. *)
Inductive Attempt : Type :=
  | Opened
  | Rejected (status : Z)
  | Broken
  | TimedOut.

Record Outside : Type := mkOutside {
  connect_tcp : Target.Target → Attempt;
  (** Whether the client's connection is upgraded, and the handshake on the tunnel
      made, in time. *)
  upgraded : bool;
  handshake : bool;
  send_request : Request → option Upstream;
}.

Inductive Act : Type :=
  | OpenTunnel (t : Target.Target)
  (** The tunnel carries the client's connection as it is; it carries the proxy's own
      HTTP connection. *)
  | RelayClient (t : Target.Target)
  | RelayUpstream (t : Target.Target)
  | SendRequest (r : Request).

(** The two answers to a tunnel that is not opened. *)
Definition refusal (a : Attempt) : Reply :=
  match a with
  | Rejected status => if status =? FORBIDDEN then Small FORBIDDEN ("Gateway denied the destination" ++ nl)
                       else Small BAD_GATEWAY ("Gateway could not open the destination" ++ nl)
  | _ => Small BAD_GATEWAY ("Gateway could not open the destination" ++ nl)
  end.

Definition handle_connect (o : Outside) (r : Request) : list Act * Reply :=
  let bad := ([], Small BAD_REQUEST ("CONNECT requires host:port" ++ nl)) in
  match authority (uri r) with
  | None => bad
  | Some auth =>
      match Target.parse auth with
      | Err _ => bad
      | Ok target =>
          match connect_tcp o target with
          | Opened => (OpenTunnel target :: (if upgraded o then [RelayClient target] else []), Small OK [])
          | a => ([OpenTunnel target], refusal a)
          end
      end
  end.

Definition handle (o : Outside) (r : Request) : list Act * Reply :=
  match method r with
  | ConnectMethod => handle_connect o r
  | Method _ =>
      match prepare_request r with
      | Err status => ([], Small status ("An absolute http:// destination is required" ++ nl))
      | Ok (target, request) =>
          match connect_tcp o target with
          | Opened =>
              let opened := [OpenTunnel target; RelayUpstream target] in
              if handshake o then
                (opened ++ [SendRequest request],
                 match send_request o request with
                 | Some u => Forwarded (mkUpstream (up_status u) (strip_hop_headers (up_headers u)) (up_body u))
                 | None => Small BAD_GATEWAY ("Upstream response failed" ++ nl)
                 end)
              else (opened, Small BAD_GATEWAY ("Upstream connection failed" ++ nl))
          | a => ([OpenTunnel target], refusal a)
          end
      end
  end.
End proxy.

(** ** The listeners *)

Definition bind (http socks : SocketAddr) (bind_tcp : SocketAddr → result str SocketAddr) : result str (SocketAddr * SocketAddr) :=
  if negb (is_loopback (sa_ip http)) || negb (is_loopback (sa_ip socks)) then
    Err (of_string "proxy listeners must use loopback addresses")
  else
    http ← bind_tcp http;
    socks ← bind_tcp socks;
    Ok (http, socks).

(** [create_new(true).open(name)], [write_all], [sync_all], [hard_link] and
    [remove_file]. *)
Definition fs_create_new (name : str) : Io unit :=
  prim (λ fs, match fs !! name with Some _ => Err io_error | None => Ok (tt, <[name := File []]> fs) end)
       (λ p fs, match fs !! name, written p with None, Some _ => <[name := File []]> fs | _, _ => fs end).
Definition fs_write_all (name : str) (bytes : data) : Io unit :=
  prim (λ fs, Ok (tt, <[name := File bytes]> fs)) (λ p fs, torn p bytes (λ b, <[name := File b]> fs) fs).
Definition fs_sync_all : Io unit := prim (λ fs, Ok (tt, fs)) (λ _ fs, fs).
Definition fs_hard_link (from to : str) : Io unit :=
  prim (λ fs, match fs !! from, fs !! to with
              | Some (File b), None => Ok (tt, <[to := File b]> fs)
              | _, _ => Err io_error
              end)
       (λ _ fs, fs).
Definition fs_remove_file (name : str) : Io unit :=
  prim (λ fs, match fs !! name with Some (File _) => Ok (tt, delete name fs) | _ => Err io_error end) (λ _ fs, fs).

Definition temp_name (path : str) (pid : Z) : str := path ++ "." ++ to_string pid ++ ".tmp".

(** [write_ready_with_tun]; [record] is the JSON of the addresses. *)
Definition write_ready (path : str) (pid : Z) (record : data) : Io unit :=
  let temp := temp_name path pid in
  _ ← fs_create_new temp;
  outcome ← attempt (_ ← fs_write_all temp record; _ ← fs_sync_all; fs_hard_link temp path);
  _ ← attempt (fs_remove_file temp);
  io_of outcome.

(** ** Operational endpoints *)

Record OpsReply : Type := mkOpsReply { ops_status : Z; content_type : str; ops_body : str }.
Definition text (status : Z) (body : str) : OpsReply := mkOpsReply status "text/plain; charset=utf-8" body.
Definition route (get : bool) (path : str) (render : str) (ready : bool) : OpsReply :=
  if negb get then text 405 ("GET only" ++ nl)
  else if str_eqb path "/healthz" then text 200 ("ok" ++ nl)
  else if str_eqb path "/readyz" then if ready then text 200 ("ready" ++ nl) else text 503 ("not ready" ++ nl)
  else if str_eqb path "/metrics" then mkOpsReply 200 "text/plain; version=0.0.4" render
  else text 404 ("not found" ++ nl).

(** ** The commands of [skimasque-client] *)

(** [native::validate_name], of a TUN interface. *)
Definition validate_name (name : str) : bool :=
  let b := as_bytes name in
  negb (bool_decide (b = [])) && (length b <=? 15)%nat && negb (str_eqb name ".") && negb (str_eqb name "..") &&
  forallb (λ c, is_ascii_alphanumeric c || contains c "_.-") b.

(** [main] of the proxy mode from the bound listeners on: the record is written, the
    proxy serves until [served], and the record is removed. *)
Definition run_proxy (ready_file : option str) (pid : Z) (record : data) (served : result error unit) : Io unit :=
  match ready_file with
  | Some path =>
      _ ← write_ready path pid record;
      _ ← attempt (fs_remove_file path);
      io_of served
  | None => io_of served
  end.

Record Payload : Type := mkPayload { p_bytes : list Z; dns_id : option Z }.
Inductive PayloadError : Type := BadQuery (e : QueryError) | BadHex (e : HexError) | NothingToSend.

(** [nanos] are those of the clock, if it is past the epoch. *)
Definition build_payload (nanos : option Z) (dns : option str) (aaaa : bool) (words hex : option str) : result PayloadError Payload :=
  match dns, words, hex with
  | Some name, _, _ =>
      let id := match nanos with Some n => n mod 65536 | None => 0x1234 end in
      bytes ← map_err BadQuery (dns_query id name (if aaaa then TYPE_AAAA else TYPE_A));
      Ok (mkPayload bytes (Some id))
  | None, Some t, _ => Ok (mkPayload (as_bytes t) None)
  | None, None, Some h => bytes ← map_err BadHex (parse_hex h); Ok (mkPayload bytes None)
  | None, None, None => Err NothingToSend
  end.

Definition hex16 (n : Z) : str := "0x" ++ hex_fixed 4 n.
Definition dns_summary (query_id : Z) (reply : list Z) : list str :=
  match parse_dns_header reply with
  | None => [of_string "  (too short to be a DNS reply)"]
  | Some h =>
      (if Probe.id h =? query_id then []
       else ["  warning: transaction id " ++ hex16 (Probe.id h) ++ " does not match the query's " ++ hex16 query_id]) ++
      ["  DNS: " ++ (if is_response h then of_string "response" else of_string "query") ++ " rcode=" ++ response_code_name h ++
       " questions=" ++ to_string (questions h) ++ " answers=" ++ to_string (answers h)]
  end.

(** One turn of the probe: whether the payload could be sent, and what came before the
    deadline. *)
Inductive Arrival : Type := Arrived (reply : list Z) | TunnelClosed | NothingCame.
Record Turn : Type := mkTurn { sent : result str unit; arrival : Arrival }.
(** A line of the report; times are left out. *)
Inductive Line : Type :=
  | Replied (attempt : nat) (size : nat) (summary : list str) (dump : str)
  | ClosedAt (attempt : nat)
  | TimedOutAt (attempt : nat)
  | Tally (received count : nat).

(** The loop from [attempt] on, with [togo] attempts to go. *)
Fixpoint probe_loop (payload : Payload) (turn : nat → Turn) (togo attempt received : nat) : list Line * result str nat :=
  match togo with
  | O => ([], Ok received)
  | S togo =>
      match sent (turn attempt) with
      | Err e => ([], Err e)
      | Ok _ =>
          match arrival (turn attempt) with
          | Arrived reply =>
              let line := Replied attempt (length reply)
                (match dns_id payload with Some id => dns_summary id reply | None => [] end) (hexdump reply) in
              let '(lines, r) := probe_loop payload turn togo (S attempt) (S received) in (line :: lines, r)
          | TunnelClosed => ([ClosedAt attempt], Ok received)
          | NothingCame => let '(lines, r) := probe_loop payload turn togo (S attempt) received in (TimedOutAt attempt :: lines, r)
          end
      end
  end.

(** [opened] is the outcome of [connect_udp], [closed] that of closing the tunnel. *)
Definition run_probe (target : str) (opened : Target.Target → result str unit) (payload : Payload) (count : nat)
    (turn : nat → Turn) (closed : result str unit) : list Line * result str unit :=
  match Target.parse target with
  | Err _ => ([], Err (of_string "parsing --target"))
  | Ok t =>
      match opened t with
      | Err _ => ([], Err ("opening a tunnel to " ++ Target.display t))
      | Ok _ =>
          let '(lines, r) := probe_loop payload turn count 1 0 in
          match r with
          | Err e => (lines, Err e)
          | Ok received =>
              (lines ++ [Tally received count],
               _ ← closed; if (received =? 0)%nat then Err (of_string "no replies") else Ok tt)
          end
      end
  end.

(** ** What is forwarded *)

Section forwarding.
Context {HS : HeaderStore} {HL : HeaderStoreLaws} {Body : Type}.
Context (parse_uri : str → option Uri).

Lemma get_all_removed names m n :
  get_all (remove_all names m) n = if existsb (λ x, eq_ignore_ascii_case x n) names then [] else get_all m n.
Proof.
  unfold remove_all. revert m. induction names as [|x names IH]; intros m; [done|].
  cbn [fold_left existsb]. rewrite IH, get_all_remove.
  destruct (eq_ignore_ascii_case x n), (existsb _ names); done.
Qed.

(** The headers between one hop and the next. *)
Definition hop_by_hop (m : Hm) (n : str) : bool := existsb (λ x, eq_ignore_ascii_case x n) (nominated m ++ HOP_HEADERS).

Lemma get_all_stripped m n : get_all (strip_hop_headers m) n = if hop_by_hop m n then [] else get_all m n.
Proof.
  unfold strip_hop_headers, hop_by_hop. rewrite !get_all_removed, existsb_app.
  destruct (existsb _ HOP_HEADERS), (existsb _ (nominated m)); done.
Qed.

(** A plain request is forwarded as one request to the origin it names: the tunnel
    goes to the host of its authority, at port 80 when none is given; the request
    keeps its method and body, asks for the path alone, names that authority, and no
    other, as its host, and keeps its other headers except those meant for this hop,
    whether listed or nominated by the client. *)
Theorem forwarded_exact (r q : @Request HS Body) (t : Target.Target) :
  prepare_request parse_uri r = Ok (t, q) →
  ∃ auth v, authority (uri r) = Some auth ∧ 64 ∉ auth ∧ value_of auth = Some v ∧
    Target.parse (match port (uri r) with Some _ => auth | None => auth ++ ":80" end) = Ok t ∧
    method q = method r ∧ body q = body r ∧
    parse_uri (default (of_string "/") (path_query (uri r))) = Some (uri q) ∧
    ∀ n, get_all (headers q) n =
      if eq_ignore_ascii_case "host" n then [v] else if hop_by_hop (headers r) n then [] else get_all (headers r) n.
Proof.
  unfold prepare_request. case (_ || _); [done|]. intros H. apply bind_Ok in H as (auth & Hauth & H).
  destruct (contains 64 auth || contains 35 _) eqn:Hat; [done|]. apply orb_false_iff in Hat as [Hat _].
  apply bind_Ok in H as (t' & Ht & H). apply bind_Ok in H as (path & Hp & H). apply bind_Ok in H as (v & Hv & H).
  injection H as -> <-. exists auth, v. split_and!; try done.
  - by destruct (authority (uri r)); [injection Hauth as ->|].
  - intros Hin. unfold contains in Hat. rewrite <- not_true_iff_false in Hat. apply Hat.
    apply existsb_exists. exists 64. split; [by apply list_elem_of_In|done].
  - by destruct (value_of auth); [injection Hv as ->|].
  - by destruct (Target.parse _); [injection Ht as ->|].
  - cbn. by destruct (parse_uri _); [injection Hp as ->|].
  - intros n. cbn [headers]. by rewrite get_all_insert, get_all_stripped.
Qed.

(** ** What a request comes to *)

(** The target a request names. *)
Definition names (r : @Request HS Body) (t : Target.Target) : Prop :=
  match method r with
  | ConnectMethod => ∃ auth, authority (uri r) = Some auth ∧ Target.parse auth = Ok t
  | Method _ => ∃ q, prepare_request parse_uri r = Ok (t, q)
  end.

Definition status (p : @Reply HS Body) : Z := match p with Small s _ => s | Forwarded u => up_status u end.

Definition refused (a : Attempt) : Z :=
  match a with Rejected s => if s =? FORBIDDEN then FORBIDDEN else BAD_GATEWAY | _ => BAD_GATEWAY end.
Lemma refusal_status a : status (refusal a) = refused a.
Proof. destruct a as [|s| |]; [done| |done..]. cbn. by destruct (s =? FORBIDDEN). Qed.

Lemma prepare_request_Err (r : @Request HS Body) e : prepare_request parse_uri r = Err e → e = BAD_REQUEST.
Proof.
  unfold prepare_request. case (_ || _); [by intros [= <-]|]. destruct (authority (uri r)) as [auth|]; [|by intros [= <-]].
  cbn [ok_or mbind result_mbind result_bind]. case (_ || _); [by intros [= <-]|].
  destruct (Target.parse _); [|by intros [= <-]]. cbn. destruct (parse_uri _); [|by intros [= <-]]. cbn.
  by destruct (value_of auth); [|intros [= <-]].
Qed.

(** A request that names no target is refused and nothing is opened.  One that does
    opens one tunnel, to that target: it is refused with 403 exactly when the gateway
    refused it so, and otherwise when the tunnel fails with 502; a CONNECT is answered
    200 exactly when the tunnel is open, and only then carries the client's
    connection; a plain request is sent once, down that tunnel, and its answer comes
    back without the headers of the hop. *)
Theorem request_handled (o : @Outside HS Body) (r : @Request HS Body) :
  (¬ (∃ t, names r t) ∧ (handle parse_uri o r).1 = [] ∧ status (handle parse_uri o r).2 = BAD_REQUEST) ∨
  ∃ t rest, names r t ∧ (handle parse_uri o r).1 = OpenTunnel t :: rest ∧
    match connect_tcp o t with
    | Opened =>
        match method r with
        | ConnectMethod => rest = (if upgraded o then [RelayClient t] else []) ∧ (handle parse_uri o r).2 = Small OK []
        | Method _ => ∃ q, prepare_request parse_uri r = Ok (t, q) ∧
            rest = RelayUpstream t :: (if handshake o then [SendRequest q] else []) ∧
            match (if handshake o then send_request o q else None) with
            | Some u => ∃ h, (handle parse_uri o r).2 = Forwarded (mkUpstream (up_status u) h (up_body u)) ∧
                ∀ n, get_all h n = if hop_by_hop (up_headers u) n then [] else get_all (up_headers u) n
            | None => status (handle parse_uri o r).2 = BAD_GATEWAY
            end
        end
    | a => rest = [] ∧ status (handle parse_uri o r).2 = refused a
    end.
Proof.
  unfold handle, handle_connect, names. destruct (method r) as [|name].
  - destruct (authority (uri r)) as [auth|]; [|left; split_and!; [by intros (? & ? & ? & _)|done..]].
    destruct (Target.parse auth) as [t|e] eqn:Ht; [|left; split_and!; [intros (? & ? & [= <-] & ?); congruence|done..]].
    right. destruct (connect_tcp o t) eqn:Hc; do 2 eexists; (split; [by exists auth|]); (split; [reflexivity|]);
      rewrite Hc; cbn [snd]; by rewrite ?refusal_status.
  - destruct (prepare_request parse_uri r) as [[t q]|e] eqn:Hp.
    2: { left. split_and!; [by intros (? & ? & ?)|done|]. cbn. by eapply prepare_request_Err. }
    right. destruct (connect_tcp o t) eqn:Hc; [|do 2 eexists; (split; [by exists q|]); (split; [reflexivity|]);
      rewrite Hc; cbn [snd]; by rewrite refusal_status..].
    destruct (handshake o) eqn:Hh; do 2 eexists; (split; [by exists q|]); (split; [reflexivity|]); rewrite Hc;
      exists q; (split; [done|]); (split; [done|]); [|done].
    cbn [snd]. destruct (send_request o q) as [u|]; [|done]. eexists. split; [reflexivity|]. apply get_all_stripped.
Qed.
End forwarding.

(** ** The record of a running proxy *)

Lemma attempt_result_spec {A : Type} (P : Fs → Prop) (m : Io A) Q (C : Fs → Prop) :
  io_spec P m Q C → io_spec P (attempt m) (λ r fs, match r with Ok r => Q r fs | Err _ => False end) C.
Proof.
  intros Hm fs fates HP. specialize (Hm fs fates HP). unfold attempt. by destruct (m fs fates) as [[[r|] fs'] rest].
Qed.

Lemma temp_name_ne path pid : temp_name path pid ≠ path.
Proof.
  unfold temp_name. intros H. apply (f_equal length) in H. rewrite !length_app in H. cbn [of_string length] in H. lia.
Qed.

Section ready.
Context (path : str) (pid : Z) (record : data) (fs0 : Fs).
Let temp := temp_name path pid.

(** Nothing has changed but the temporary file; the record is there as well. *)
Definition untouched (fs : Fs) : Prop := ∀ n, n ≠ temp → fs !! n = fs0 !! n.
Definition published (fs : Fs) : Prop :=
  fs0 !! path = None ∧ fs !! path = Some (File record) ∧ ∀ n, n ≠ path → n ≠ temp → fs !! n = fs0 !! n.

Lemma untouched_insert node fs : untouched fs → untouched (<[temp := node]> fs).
Proof. intros H n Hn. rewrite lookup_insert_ne by done. by apply H. Qed.
Lemma untouched_delete fs : untouched fs → untouched (delete temp fs).
Proof. intros H n Hn. rewrite lookup_delete_ne by done. by apply H. Qed.
Lemma published_delete fs : published fs → published (delete temp fs).
Proof.
  intros (H0 & H1 & H2). split; [done|]. rewrite lookup_delete_ne by (apply temp_name_ne). split; [done|].
  intros n Hp Hn. rewrite lookup_delete_ne by done. by apply H2.
Qed.

Lemma create_new_spec : io_spec (λ fs, fs = fs0) (fs_create_new temp) (λ _, untouched) untouched.
Proof.
  assert (untouched fs0) as H0 by done. apply prim_spec.
  - intros fs Hfs. subst fs. destruct (fs0 !! temp); [done|]. by apply untouched_insert.
  - intros p fs Hfs. subst fs. destruct (fs0 !! temp), (written p); (split; [|]); try done; by apply untouched_insert.
Qed.

Lemma fill_spec :
  io_spec untouched (_ ← fs_write_all temp record; _ ← fs_sync_all; fs_hard_link temp path)
    (λ r fs, if is_ok r then published fs else untouched fs) untouched.
Proof.
  apply (io_bind_spec _ _ _ (λ r fs, untouched fs ∧ (is_ok r = true → fs !! temp = Some (File record)))); [| |tauto].
  { apply prim_spec.
    - intros fs H. split; [by apply untouched_insert|]. intros _. apply lookup_insert_eq.
    - intros p fs H. unfold torn. destruct (written p); (split; [split|]); try done; by apply untouched_insert. }
  intros []. apply (io_bind_spec _ _ _ (λ r fs, untouched fs ∧ (is_ok r = true → fs !! temp = Some (File record)))); [| |tauto].
  { apply prim_spec; [done|]. intros p fs [H _]. done. }
  intros []. apply prim_spec; [|by intros p fs [H _]].
  intros fs [H Ht]. rewrite (Ht eq_refl), (H path (not_eq_sym (temp_name_ne path pid))).
  destruct (fs0 !! path) eqn:Hp; [done|]. cbn. split; [done|]. rewrite lookup_insert_eq. split; [done|].
  intros n Hn Hn'. rewrite lookup_insert_ne by done. by apply H.
Qed.

Lemma write_ready_spec :
  io_spec (λ fs, fs = fs0) (write_ready path pid record) (λ r fs, if is_ok r then published fs else untouched fs)
    (λ fs, untouched fs ∨ published fs).
Proof.
  unfold write_ready. fold temp. eapply io_bind_spec; [eapply io_crash; [apply create_new_spec|by left]| |done].
  intros []. eapply io_bind_spec; [eapply io_crash; [apply attempt_result_spec, fill_spec|by left]| |done].
  intros r. set (Q := λ fs, if is_ok r then published fs else untouched fs).
  assert (io_spec Q (fs_remove_file temp) (λ _, Q) Q) as Hrm.
  { apply prim_spec; [|done]. intros fs H. subst Q. cbn in *. destruct (fs !! temp) as [[]|]; try done.
    destruct (is_ok r); [by apply published_delete|by apply untouched_delete]. }
  apply attempt_result_spec in Hrm. eapply io_bind_spec.
  - eapply io_crash; [exact Hrm|]. intros fs. subst Q. cbn. destruct (is_ok r); [by right|by left].
  - intros r'. apply io_of_spec. by destruct r.
  - done.
Qed.
End ready.

(** A run in which nothing fails. *)
Lemma write_ready_runs path pid record fs :
  fs !! temp_name path pid = None → fs !! path = None →
  write_ready path pid record fs [] =
    (Returned (Ok tt), delete (temp_name path pid) (<[path := File record]> (<[temp_name path pid := File record]>
       (<[temp_name path pid := File []]> fs))), []).
Proof.
  intros Ht Hp. pose proof (temp_name_ne path pid) as Hne.
  unfold write_ready, fs_create_new, fs_write_all, fs_sync_all, fs_hard_link, fs_remove_file, attempt, io_of, prim,
    mbind, io_mbind, io_bind, mret.
  rewrite Ht. cbn. rewrite lookup_insert_eq, !lookup_insert_ne by done. rewrite Hp. cbn.
  rewrite lookup_insert_ne by (by apply not_eq_sym). by rewrite lookup_insert_eq.
Qed.

(** The record of a running proxy appears whole or not at all.  Whatever fails and
    wherever the process dies, the file that says a proxy is up is what it was, or it
    was absent and now holds the whole record; when the call succeeds it is the
    latter, when it fails the former.  A record that another proxy left is never
    replaced, and no other file is touched but the temporary one, which is gone when
    nothing fails. *)
Theorem ready_record_atomic (path : str) (pid : Z) (record : data) (fs : Fs) (fates : list fate) :
  let temp := temp_name path pid in
  let '(o, fs', _) := write_ready path pid record fs fates in
  let appeared := fs !! path = None ∧ fs' !! path = Some (File record) in
  match o with
  | Returned (Ok _) => appeared
  | Returned (Err _) => fs' !! path = fs !! path
  | Died => fs' !! path = fs !! path ∨ appeared
  end ∧
  (∀ n, n ≠ path → n ≠ temp → fs' !! n = fs !! n) ∧
  (fates = [] → fs !! temp = None → fs !! path = None → o = Returned (Ok tt) ∧ fs' !! temp = None).
Proof.
  cbn zeta. pose proof (write_ready_spec path pid record fs fs fates eq_refl) as H.
  pose proof (write_ready_runs path pid record fs) as Hrun.
  destruct (write_ready path pid record fs fates) as [[o fs'] rest] eqn:Hw.
  assert (∀ P : Prop, P → (untouched path pid fs fs' → fs' !! path = fs !! path)) as Hu.
  { intros P _ Hu. apply Hu. apply not_eq_sym, temp_name_ne. }
  split_and!.
  - destruct o as [[u|e]|]; cbn in H; [by destruct H as (? & ? & _)|by apply (Hu True)|].
    destruct H as [H|(? & ? & _)]; [left; by apply (Hu True)|by right].
  - assert (untouched path pid fs fs' ∨ published path pid record fs fs') as Hor by (destruct o as [[u|e]|]; cbn in H; tauto).
    intros n Hp Ht. destruct Hor as [Hv|(_ & _ & Hv)]; by apply Hv.
  - intros -> Ht Hp. rewrite (Hrun Ht Hp) in Hw. injection Hw as <- <- _. split; [done|]. apply lookup_delete_eq.
Qed.

(** The record is there while the proxy serves and gone after it, whatever ended it. *)
Lemma record_removed (path : str) (pid : Z) (record : data) (fs : Fs) (served : result error unit) :
  fs !! temp_name path pid = None → fs !! path = None →
  ∃ fs' rest, run_proxy (Some path) pid record served fs [] = (Returned served, fs', rest) ∧ fs' !! path = None.
Proof.
  intros Ht Hp. unfold run_proxy.
  unfold mbind, io_mbind, io_bind. rewrite write_ready_runs by done.
  unfold attempt, fs_remove_file, prim. rewrite lookup_delete_ne by apply temp_name_ne. rewrite lookup_insert_eq. cbn.
  do 2 eexists. split; [done|]. apply lookup_delete_eq.
Qed.

(** ** Probing *)

Lemma probe_loop_counts payload turn togo attempt received :
  (∀ k, is_ok (sent (turn k)) = true) →
  ∃ n, (probe_loop payload turn togo attempt received).2 = Ok (received + n)%nat ∧ (n ≤ togo)%nat ∧
    ((0 < n)%nat ↔ ∃ k reply, (attempt ≤ k < attempt + togo)%nat ∧ arrival (turn k) = Arrived reply ∧
       ∀ j, (attempt ≤ j < k)%nat → arrival (turn j) ≠ TunnelClosed).
Proof.
  intros Hs. revert attempt received. induction togo as [|togo IH]; intros attempt received.
  { exists 0%nat. cbn. split_and!; [by rewrite Nat.add_0_r|lia|]. split; [lia|]. intros (k & ? & ? & _). lia. }
  cbn [probe_loop]. specialize (Hs attempt) as Ha. destruct (sent (turn attempt)); [|done].
  destruct (arrival (turn attempt)) as [reply| |] eqn:Harr.
  - destruct (IH (S attempt) (S received)) as (n & Hn & Hle & _).
    destruct (probe_loop _ _ _ _ _) as [lines r]. cbn in *. exists (S n). split_and!; [rewrite Hn; f_equal; lia|lia|].
    split; [intros _|lia]. exists attempt, reply. split_and!; [lia|lia|done|]. intros j ?. lia.
  - exists 0%nat. cbn. split_and!; [by rewrite Nat.add_0_r|lia|]. split; [lia|]. intros (k & reply & Hk & Hr & Hj).
    destruct (decide (k = attempt)) as [->|Hne]; [congruence|]. exfalso. apply (Hj attempt); [lia|done].
  - destruct (IH (S attempt) received) as (n & Hn & Hle & Hiff).
    destruct (probe_loop _ _ _ _ _) as [lines r]. cbn in *. exists n. split_and!; [done|lia|]. rewrite Hiff.
    split; intros (k & reply & Hk & Hr & Hj).
    + exists k, reply. split_and!; [lia|lia|done|]. intros j Hjk. destruct (decide (j = attempt)) as [->|]; [congruence|]. apply Hj. lia.
    + destruct (decide (k = attempt)) as [->|Hne]; [congruence|]. exists k, reply. split_and!; [lia|lia|done|]. intros j Hjk. apply Hj. lia.
Qed.

(** A probe whose payloads go out and whose tunnel closes cleanly succeeds exactly
    when one of its attempts was answered before the gateway closed the tunnel. *)
Theorem probe_exit (target : str) (t : Target.Target) (payload : Payload) (count : nat) (turn : nat → Turn) :
  Target.parse target = Ok t → (∀ k, is_ok (sent (turn k)) = true) →
  (run_probe target (λ _, Ok tt) payload count turn (Ok tt)).2 = Ok tt ↔
  ∃ k reply, (1 ≤ k ≤ count)%nat ∧ arrival (turn k) = Arrived reply ∧
    ∀ j, (1 ≤ j < k)%nat → arrival (turn j) ≠ TunnelClosed.
Proof.
  intros Ht Hs. unfold run_probe. rewrite Ht. cbn zeta.
  destruct (probe_loop_counts payload turn count 1 0 Hs) as (n & Hn & _ & Hiff).
  destruct (probe_loop payload turn count 1 0) as [lines r]. cbn in Hn. subst r. cbn.
  assert ((∃ k reply, (1 ≤ k ≤ count)%nat ∧ arrival (turn k) = Arrived reply ∧
    ∀ j, (1 ≤ j < k)%nat → arrival (turn j) ≠ TunnelClosed) ↔ (0 < n)%nat) as ->.
  { rewrite Hiff. split; intros (k & reply & Hk & Hr & Hj); exists k, reply; (split; [lia|done]). }
  destruct (Nat.eqb_spec n 0); split; intros; try done; lia.
Qed.

(** The id a reply is checked against is the one in the query. *)
Lemma payload_id nanos name aaaa words hex p :
  build_payload nanos (Some name) aaaa words hex = Ok p → (∀ n, nanos = Some n → 0 ≤ n) →
  ∃ i h, dns_id p = Some i ∧ parse_dns_header (p_bytes p) = Some h ∧ Probe.id h = i ∧ is_response h = false.
Proof.
  intros H Hn. cbn in H. apply bind_Ok in H as (bytes & Hq & [= <-]). cbn [dns_id p_bytes].
  set (i := match nanos with Some n => n mod 65536 | None => 0x1234 end) in *.
  assert (0 ≤ i < 65536) by (subst i; destruct nanos; [apply Z.mod_pos_bound|]; lia).
  destruct (dns_query i name _) as [q|] eqn:Hd; [|done]. injection Hq as <-.
  apply dns_query_reads in Hd as [Hd _]; [|done|by destruct aaaa]. by exists i, (mkDnsHeader i false 0 1 0).
Qed.

(** ** Samples *)

(** Header maps as functions of the lower-case name. *)
#[local] Instance sample_store : HeaderStore := {|
  Hv := str;
  Hm := str → list str;
  value_of := Some;
  text_of := Some;
  get_all := λ m n, m (to_ascii_lowercase n);
  remove := λ n m k, if bool_decide (k = to_ascii_lowercase n) then [] else m k;
  insert_host := λ v m k, if bool_decide (k = of_string "host") then [v] else m k;
|}.
#[local] Instance sample_store_laws : @HeaderStoreLaws sample_store.
Proof.
  split.
  - intros m n n'. unfold eq_ignore_ascii_case, str_eqb. unfold get_all, remove, sample_store. cbv beta iota.
    repeat case_bool_decide; first [reflexivity|congruence].
  - intros m v n. unfold eq_ignore_ascii_case, str_eqb. unfold get_all, insert_host, sample_store. cbv beta iota.
    assert (to_ascii_lowercase "host" = of_string "host") as -> by reflexivity. repeat case_bool_decide; first [reflexivity|congruence].
  - by intros s v [= ->] _.
Qed.

Definition page : Uri := mkUri (Some (of_string "http")) (Some (of_string "example.com")) None (Some (of_string "/a?b"))
  (of_string "http://example.com/a?b").
Definition page_headers (k : str) : list str :=
  if str_eqb k "connection" then [of_string "close, X-Secret"] else
  if str_eqb k "x-secret" then [of_string "s"] else if str_eqb k "accept" then [of_string "*/*"] else [].
Definition page_request : @Request sample_store unit := mkRequest (Method (of_string "GET")) page page_headers tt.
Definition sample_uri (s : str) : option Uri := Some (mkUri None None None (Some s) s).

Lemma forwarded_exact_witness :
  ∃ t q, prepare_request sample_uri page_request = Ok (t, q) ∧ t = Target.mkTarget (Target.Name "example.com") 80 ∧
    get_all (headers q) "Host" = [of_string "example.com"] ∧ get_all (headers q) "X-Secret" = [] ∧
    get_all (headers q) "Accept" = [of_string "*/*"] ∧
    ∃ auth v, authority (uri page_request) = Some auth ∧ 64 ∉ auth ∧ value_of auth = Some v ∧ method q = method page_request.
Proof.
  do 2 eexists. split; [vm_compute; reflexivity|]. split; [reflexivity|].
  do 3 (split; [vm_compute; reflexivity|]).
  destruct (forwarded_exact sample_uri page_request (match prepare_request sample_uri page_request with
    | Ok (_, q) => q | Err _ => page_request end) (Target.mkTarget (Target.Name "example.com") 80))
    as (auth & v & Ha & Hn & Hv & _ & Hm & _); [vm_compute; reflexivity|].
  exists auth, v. split; [exact Ha|]. split; [exact Hn|]. split; [exact Hv|]. exact Hm.
Defined.

Lemma probe_exit_witness :
  let turn k := mkTurn (Ok tt) (if (k =? 2)%nat then Arrived [1] else NothingCame) in
  (run_probe "dns.test:53" (λ _, Ok tt) (mkPayload [] None) 3 turn (Ok tt)).2 = Ok tt ∧
  ∃ k reply, (1 ≤ k ≤ 3)%nat ∧ arrival (turn k) = Arrived reply.
Proof.
  cbn zeta. split; [vm_compute; reflexivity|].
  destruct (proj1 (probe_exit "dns.test:53" (Target.mkTarget (Target.Name "dns.test") 53) (mkPayload [] None) 3
    (λ k, mkTurn (Ok tt) (if (k =? 2)%nat then Arrived [1] else NothingCame)) ltac:(vm_compute; reflexivity) ltac:(done))
    ltac:(vm_compute; reflexivity)) as (k & reply & Hk & Hr & _).
  exists k, reply. split; [exact Hk|exact Hr].
Defined.
