(* ===== verification/Native.v ===== *)
(** * The native tunnel device

    Model of [crates/skimasque-cli/src/native]: which packets of the TUN device reach
    the userspace stack ([packet.rs]), the table of UDP flows and their tasks
    ([udp.rs]) and the ceiling on TCP flows ([tcp.rs]).

    Reading a packet is smoltcp's and a parameter.  The main loop and the tasks of the
    flows take turns: an event is one branch of a [select!] in one of them, and the
    theorems quantify over the list of events.  What was offered to a flow and what it
    sent is kept with its task, to state the theorems. *)

From S2P Require Import Prelude RustStr RustNet Target Service.

#[global] Instance SocketAddr_eq_dec : EqDecision SocketAddr.
Proof. solve_decision. Defined.

(** ** Packets *)

Inductive IpProtocol : Type := Tcp | Udp | OtherProtocol.
(** What smoltcp's checked views tell of a packet. *)
Record Ipv4View : Type := mkIpv4View {
  total_len : Z;
  v4_checksum : bool;
  more_frags : bool;
  frag_offset : Z;
  v4_addrs : IpAddr * IpAddr;
  v4_protocol : IpProtocol;
  v4_payload : list Z;
}.
Record Ipv6View : Type := mkIpv6View {
  payload_len : Z;
  v6_addrs : IpAddr * IpAddr;
  v6_protocol : IpProtocol;
  v6_payload : list Z;
}.

Section packets.
Context (ipv4_checked : list Z → option Ipv4View) (ipv6_checked : list Z → option Ipv6View).
(** [new_checked] and [verify_checksum] of a TCP segment; of a datagram, with its
    length field. *)
Context (tcp_checked : IpAddr * IpAddr → list Z → bool) (udp_checked : IpAddr * IpAddr → list Z → option Z).

Definition MTU : Z := 1280.
Definition len (b : list Z) : Z := Z.of_nat (length b).

Definition network_layer (bytes : list Z) : option ((IpAddr * IpAddr) * IpProtocol * list Z) :=
  first ← head bytes;
  if Z.shiftr first 4 =? 4 then
    p ← ipv4_checked bytes;
    if negb (total_len p =? len bytes) || negb (v4_checksum p) || more_frags p || negb (frag_offset p =? 0) then None
    else Some (v4_addrs p, v4_protocol p, v4_payload p)
  else if Z.shiftr first 4 =? 6 then
    p ← ipv6_checked bytes;
    if negb (payload_len p + 40 =? len bytes) then None else Some (v6_addrs p, v6_protocol p, v6_payload p)
  else None.

Definition valid (bytes : list Z) : bool :=
  if MTU <? len bytes then false
  else
    match network_layer bytes with
    | None => false
    | Some (addrs, Tcp, payload) => tcp_checked addrs payload
    | Some (addrs, Udp, payload) => match udp_checked addrs payload with Some n => n =? len payload | None => false end
    | Some (_, OtherProtocol, _) => false
    end.
End packets.

(** ** UDP flows *)

Record FlowKey : Type := mkFlowKey { source : SocketAddr; destination : SocketAddr }.
#[global] Instance FlowKey_eq_dec : EqDecision FlowKey.
Proof. solve_decision. Defined.

Definition MAX_FLOWS : nat := 1024.
Definition QUEUE : nat := 64.

(** A task that has not been joined.  [alive]: it still reads its queue; [opened]: its
    tunnel is open.  [offered] and [carried] are what came for the flow and what went
    into the tunnel. *)
Record Task : Type := mkTask {
  key : FlowKey;
  id : Z;
  queue : list (list Z);
  alive : bool;
  opened : bool;
  offered : list (list Z);
  carried : list (list Z);
}.
Record Reply : Type := mkReply { re_bytes : list Z; re_from : SocketAddr; re_to : SocketAddr }.
Record Native : Type := mkNative {
  flows : list (FlowKey * Z);
  generation : Z;
  tasks : list Task;
  replies : list Reply;
}.
Definition fresh : Native := mkNative [] 0 [] [].

Inductive Event : Type :=
  (** The stack has a datagram. *)
  | Input (src dst : SocketAddr) (bytes : list Z)
  (** The tunnel of a flow opened, or did not. *)
  | Connected (flow : Z) (ok : bool)
  (** A flow takes the next datagram of its queue; [max] is the tunnel's largest
      payload, [ok] whether it could be sent. *)
  | Take (flow : Z) (max : option Z) (ok : bool)
  (** The tunnel of a flow delivers a datagram. *)
  | Deliver (flow : Z) (bytes : list Z)
  (** A flow ends: idle, its tunnel closed, or an error. *)
  | End (flow : Z)
  (** The main loop joins a flow's task. *)
  | Join (flow : Z).

Definition target_of (k : FlowKey) : result Target.Error Target.Target := Target.parse (display_socket (destination k)).

Fixpoint lookup_flow (k : FlowKey) (l : list (FlowKey * Z)) : option Z :=
  match l with
  | [] => None
  | (k', i) :: l => if decide (k' = k) then Some i else lookup_flow k l
  end.

Definition on_task (i : Z) (f : Task → Task) (l : list Task) : list Task := map (λ t, if id t =? i then f t else t) l.
Definition find_task (i : Z) (l : list Task) : option Task := List.find (λ t, id t =? i) l.

(** [tx.try_send(bytes)]. *)
Definition try_send (bytes : list Z) (t : Task) : Task :=
  mkTask (key t) (id t) (if alive t && (length (queue t) <? QUEUE)%nat then queue t ++ [bytes] else queue t)
    (alive t) (opened t) (offered t ++ [bytes]) (carried t).
Definition stop (t : Task) : Task := mkTask (key t) (id t) [] false false (offered t) (carried t).
Definition take_one (max : option Z) (ok : bool) (t : Task) : Task :=
  match queue t with
  | packet :: rest =>
      if alive t && opened t then
        if match max with Some m => m <? len packet | None => false end then
          mkTask (key t) (id t) rest (alive t) (opened t) (offered t) (carried t)
        else if ok then mkTask (key t) (id t) rest (alive t) (opened t) (offered t) (carried t ++ [packet])
        else stop t
      else t
  | [] => t
  end.
Definition connect (ok : bool) (t : Task) : Task :=
  if alive t && negb (opened t) then
    if ok && is_ok (target_of (key t)) then mkTask (key t) (id t) (queue t) true true (offered t) (carried t) else stop t
  else t.

(** The headers the stack puts before a datagram. *)
Definition header (k : FlowKey) : Z := if is_ipv4 (sa_ip (source k)) then 28 else 48.

Definition turn (e : Event) (n : Native) : Native :=
  match e with
  | Input src dst bytes =>
      let k := mkFlowKey src dst in
      match lookup_flow k (flows n) with
      | Some i => mkNative (flows n) (generation n) (on_task i (try_send bytes) (tasks n)) (replies n)
      | None =>
          if (MAX_FLOWS <=? length (flows n))%nat then n
          else
            let i := (generation n + 1) mod 2 ^ 64 in
            mkNative ((k, i) :: flows n) i (mkTask k i [bytes] true false [bytes] [] :: tasks n) (replies n)
      end
  | Connected i ok => mkNative (flows n) (generation n) (on_task i (connect ok) (tasks n)) (replies n)
  | Take i max ok => mkNative (flows n) (generation n) (on_task i (take_one max ok) (tasks n)) (replies n)
  | Deliver i bytes =>
      match find_task i (tasks n) with
      | Some t =>
          if alive t && opened t && (len bytes + header (key t) <=? MTU) then
            mkNative (flows n) (generation n) (tasks n)
              (replies n ++ [mkReply bytes (destination (key t)) (source (key t))])
          else n
      | None => n
      end
  | End i => mkNative (flows n) (generation n) (on_task i stop (tasks n)) (replies n)
  | Join i =>
      match find_task i (tasks n) with
      | Some t =>
          if alive t then n
          else mkNative
                 (if decide (lookup_flow (key t) (flows n) = Some i)
                  then List.filter (λ f, negb (bool_decide (f.1 = key t))) (flows n) else flows n)
                 (generation n) (List.filter (λ t, negb (id t =? i)) (tasks n)) (replies n)
      | None => n
      end
  end.
Definition serve (events : list Event) : Native := fold_left (λ n e, turn e n) events fresh.

(** ** TCP flows *)

(** [tcp.rs]: the number of flows; a stream beyond the ceiling is dropped. *)
Inductive TcpEvent : Type := Accepted | Finished.
Definition tcp_turn (running : nat) (e : TcpEvent) : nat :=
  match e with
  | Accepted => if (MAX_FLOWS <=? running)%nat then running else S running
  | Finished => pred running
  end.

(** ** The table of flows *)

(** What the stack handed over for a flow. *)
Definition packets_of (k : FlowKey) (events : list Event) : list (list Z) :=
  omap (λ e, match e with Input s d b => if decide (mkFlowKey s d = k) then Some b else None | _ => None end) events.

Definition entry (t : Task) : FlowKey * Z := (key t, id t).
Definition task_ok (events : list Event) (t : Task) : Prop :=
  carried t ++ queue t `sublist_of` offered t ∧ offered t `sublist_of` packets_of (key t) events ∧ (length (queue t) ≤ QUEUE)%nat.
Definition reply_ok (r : Reply) : Prop := len (re_bytes r) + (if is_ipv4 (sa_ip (re_to r)) then 28 else 48) ≤ MTU.

Record native_ok (events : list Event) (n : Native) : Prop := {
  flows_tasks : flows n = map entry (tasks n);
  keys_unique : NoDup (map key (tasks n));
  ids_unique : NoDup (map id (tasks n));
  ids_old : Forall (λ t, 0 < id t ≤ generation n) (tasks n);
  generation_small : 0 ≤ generation n ≤ Z.of_nat (length events);
  flows_few : (length (tasks n) ≤ MAX_FLOWS)%nat;
  tasks_ok : Forall (task_ok events) (tasks n);
  replies_ok : Forall reply_ok (replies n);
}.

(** A change of a task that leaves it the same flow. *)
Definition keeps (f : Task → Task) : Prop := ∀ t, entry (f t) = entry t.
Lemma keeps_try_send b : keeps (try_send b).
Proof. done. Qed.
Lemma keeps_stop : keeps stop.
Proof. done. Qed.
Lemma keeps_take max ok : keeps (take_one max ok).
Proof. intros t. unfold take_one. repeat case_match; done. Qed.
Lemma keeps_connect ok : keeps (connect ok).
Proof. intros t. unfold connect. repeat case_match; done. Qed.

Lemma on_task_entries i f l : keeps f → map entry (on_task i f l) = map entry l.
Proof.
  intros Hf. unfold on_task. rewrite map_map. apply map_ext. intros t. case (id t =? i); [apply Hf|done].
Qed.
Lemma entries_key l l' : map entry l = map entry l' → map key l = map key l' ∧ map id l = map id l' ∧ length l = length l'.
Proof.
  intros H. split_and!.
  - apply (f_equal (map fst)) in H. by rewrite !map_map in H.
  - apply (f_equal (map snd)) in H. by rewrite !map_map in H.
  - apply (f_equal length) in H. by rewrite !length_map in H.
Qed.
Lemma Forall_on_task (P Q : Task → Prop) i f l :
  (∀ t, P t → id t = i → Q (f t)) → (∀ t, P t → id t ≠ i → Q t) → Forall P l → Forall Q (on_task i f l).
Proof.
  intros H1 H2 Hl. unfold on_task. apply Forall_map. eapply Forall_impl; [exact Hl|]. intros t Ht.
  destruct (Z.eqb_spec (id t) i); auto.
Qed.

Lemma flow_packets_snoc k events e :
  packets_of k (events ++ [e]) = packets_of k events ++ packets_of k [e].
Proof. apply omap_app. Qed.
Lemma task_ok_more events e t : task_ok events t → task_ok (events ++ [e]) t.
Proof.
  intros (H1 & H2 & H3). split_and!; [done| |done]. rewrite flow_packets_snoc. by apply sublist_inserts_r.
Qed.

Lemma lookup_flow_entry k l i :
  lookup_flow k (map entry l) = Some i → ∃ t, t ∈ l ∧ key t = k ∧ id t = i.
Proof.
  induction l as [|t l IH]; [done|]. cbn. case_decide as Hk.
  - intros [= <-]. exists t. split_and!; [left|done|done].
  - intros (t' & ? & ?)%IH. exists t'. split; [by right|done].
Qed.
Lemma lookup_flow_None k l : lookup_flow k (map entry l) = None → k ∉ map key l.
Proof.
  induction l as [|t l IH]; cbn; [intros _ ?%elem_of_nil; done|]. case_decide as Hk; [done|].
  intros H%IH. rewrite elem_of_cons. intros [?|?]; congruence.
Qed.
Lemma lookup_flow_elem t l : NoDup (map key l) → t ∈ l → lookup_flow (key t) (map entry l) = Some (id t).
Proof.
  induction l as [|t' l IH]; cbn; [intros _ ?%elem_of_nil; done|].
  intros [Hn Hnd]%NoDup_cons [->|Hin]%elem_of_cons; [by rewrite decide_True|].
  rewrite decide_False; [by apply IH|]. intros Hk. apply Hn. rewrite Hk. by apply list_elem_of_fmap_2.
Qed.

(** An event that changes one task and nothing else. *)
Lemma on_task_ok events e n i f :
  native_ok events n → keeps f →
  (∀ t, t ∈ tasks n → id t = i → task_ok events t → task_ok (events ++ [e]) (f t)) →
  native_ok (events ++ [e]) (mkNative (flows n) (generation n) (on_task i f (tasks n)) (replies n)).
Proof.
  intros [Hf Hk Hi Ho Hg Hn Ht Hr] Hkeep Hstep. pose proof (on_task_entries i f (tasks n) Hkeep) as He.
  pose proof (entries_key _ _ He) as (Hek & Hei & Hel). constructor; cbn [flows generation tasks replies].
  - by rewrite He.
  - by rewrite Hek.
  - by rewrite Hei.
  - apply (Forall_on_task (λ t, 0 < id t ≤ generation n)); [|done|done].
    intros t Hid _. specialize (Hkeep t). injection Hkeep as _ ->. done.
  - rewrite length_app. cbn. lia.
  - by rewrite Hel.
  - unfold on_task. apply Forall_map. rewrite Forall_forall in Ht |- *. intros t Hin. specialize (Ht t Hin).
    destruct (Z.eqb_spec (id t) i); [by apply Hstep|by apply task_ok_more].
  - done.
Qed.

Lemma quiet_ok events e n : native_ok events n → native_ok (events ++ [e]) n.
Proof.
  intros [Hf Hk Hi Ho Hg Hn Ht Hr]. constructor; try done.
  - rewrite length_app. cbn. lia.
  - eapply Forall_impl; [exact Ht|]. intros t. apply task_ok_more.
Qed.

Lemma stop_ok events e t : task_ok events t → task_ok (events ++ [e]) (stop t).
Proof.
  intros H. apply (task_ok_more _ e) in H as (H1 & H2 & H3). split_and!; cbn; [|done|lia].
  rewrite app_nil_r. etrans; [|exact H1]. by apply sublist_inserts_r.
Qed.

Lemma take_ok events e max ok t : task_ok events t → task_ok (events ++ [e]) (take_one max ok t).
Proof.
  intros Ht. pose proof (stop_ok _ e _ Ht) as Hs. apply (task_ok_more _ e) in Ht. unfold take_one.
  destruct (queue t) as [|packet rest] eqn:Hq; [done|]. destruct (alive t && opened t); [|done].
  destruct Ht as (H1 & H2 & H3). rewrite Hq in H1, H3. cbn [length] in H3.
  case_match; [|destruct ok; [|done]]; (split_and!; cbn [carried queue offered key]; [|done|lia]).
  - etrans; [|exact H1]. apply sublist_app; [done|]. by apply sublist_cons.
  - by rewrite <- app_assoc.
Qed.
Lemma connect_ok events e ok t : task_ok events t → task_ok (events ++ [e]) (connect ok t).
Proof.
  intros Ht. pose proof (stop_ok _ e _ Ht) as Hs. apply (task_ok_more _ e) in Ht. unfold connect.
  case (alive t && negb (opened t)); [|done]. by case (ok && _).
Qed.
Lemma flow_try_send_ok events s d b t :
  key t = mkFlowKey s d → task_ok events t → task_ok (events ++ [Input s d b]) (try_send b t).
Proof.
  intros Hk (H1 & H2 & H3). unfold try_send, task_ok. cbn [carried queue offered key].
  assert (packets_of (key t) (events ++ [Input s d b]) = packets_of (key t) events ++ [b]) as ->.
  { rewrite flow_packets_snoc, Hk. cbn. by rewrite decide_True. }
  split_and!; [| by apply sublist_app|].
  - case (alive t && _).
    + rewrite app_assoc. by apply sublist_app.
    + by apply sublist_inserts_r.
  - destruct (alive t); cbn [andb]; [|done]. destruct (Nat.ltb_spec (length (queue t)) QUEUE); [|done].
    rewrite length_app. cbn. lia.
Qed.

Lemma input_ok events n s d b :
  Z.of_nat (S (length events)) < 2 ^ 64 → native_ok events n → native_ok (events ++ [Input s d b]) (turn (Input s d b) n).
Proof.
  intros Hlen Hok. pose proof Hok as [Hf Hk Hi Ho Hg Hn Ht Hr]. cbn [turn].
  destruct (lookup_flow (mkFlowKey s d) (flows n)) as [i|] eqn:Hl.
  - apply on_task_ok; [done|apply keeps_try_send|]. intros t Hin Hid. apply flow_try_send_ok.
    rewrite Hf in Hl. apply lookup_flow_entry in Hl as (t' & Hin' & Hk' & Hid').
    assert (t = t') as ->; [|done]. apply list_elem_of_lookup in Hin as [j Hj], Hin' as [j' Hj'].
    assert (j = j') as <-; [|congruence]. apply (NoDup_lookup _ j j' i Hi); rewrite list_lookup_fmap; [rewrite Hj|rewrite Hj']; cbn; by f_equal.
  - destruct (Nat.leb_spec MAX_FLOWS (length (flows n))) as [|Hroom]; [by apply quiet_ok|].
    rewrite Hf in Hl, Hroom. rewrite length_map in Hroom. apply lookup_flow_None in Hl.
    rewrite Z.mod_small by lia. constructor; cbn [flows generation tasks replies map].
    + by rewrite Hf.
    + by apply NoDup_cons.
    + apply NoDup_cons. split; [|done]. cbn [id]. intros (t & Hid & Hin)%list_elem_of_fmap.
      rewrite Forall_forall in Ho. specialize (Ho t Hin). lia.
    + apply Forall_cons. split; [cbn; lia|]. eapply Forall_impl; [exact Ho|]. cbn. lia.
    + rewrite length_app. cbn. lia.
    + cbn. lia.
    + apply Forall_cons. split; [|eapply Forall_impl; [exact Ht|]; intros t; apply task_ok_more].
      split_and!; cbn; [done| |unfold QUEUE; lia]. rewrite flow_packets_snoc. cbn. rewrite decide_True by done. by apply sublist_inserts_l.
    + done.
Qed.

Lemma find_task_Some i l t : find_task i l = Some t → t ∈ l ∧ id t = i.
Proof. unfold find_task. intros [Hin Hid%Z.eqb_eq]%find_some. split; [by apply list_elem_of_In|done]. Qed.

Lemma filter_entries t l :
  NoDup (map key l) → NoDup (map id l) → t ∈ l →
  List.filter (λ f, negb (bool_decide (f.1 = key t))) (map entry l) = map entry (List.filter (λ t', negb (id t' =? id t)) l).
Proof.
  intros Hk Hi Hin. assert (∀ t', t' ∈ l → (key t' = key t ↔ id t' = id t)) as Hiff.
  { intros t' Hin'. apply list_elem_of_lookup in Hin as [j Hj], Hin' as [j' Hj'].
    split; intros He; (assert (j = j') as <-; [|congruence]).
    - apply (NoDup_lookup _ j j' (key t) Hk); rewrite list_lookup_fmap; [rewrite Hj|rewrite Hj']; cbn; by f_equal.
    - apply (NoDup_lookup _ j j' (id t) Hi); rewrite list_lookup_fmap; [rewrite Hj|rewrite Hj']; cbn; by f_equal. }
  clear Hin Hk Hi. induction l as [|t' l IH]; [done|]. cbn [map List.filter].
  assert (bool_decide ((entry t').1 = key t) = (id t' =? id t)) as ->.
  { specialize (Hiff t' (list_elem_of_here _ _)). cbn. destruct (Z.eqb_spec (id t') (id t)); case_bool_decide; tauto. }
  rewrite IH by (intros t'' ?; apply Hiff; by right). by destruct (id t' =? id t).
Qed.

Lemma map_filter_sublist {A B} (f : A → B) (p : A → bool) l : map f (List.filter p l) `sublist_of` map f l.
Proof.
  induction l as [|x l IH]; [done|]. cbn. destruct (p x); cbn; [by apply sublist_skip|by apply sublist_cons].
Qed.

Lemma join_ok events n i : native_ok events n → native_ok (events ++ [Join i]) (turn (Join i) n).
Proof.
  intros Hok. apply (quiet_ok _ (Join i)) in Hok. pose proof Hok as [Hf Hk Hi Ho Hg Hn Ht Hr]. cbn [turn].
  destruct (find_task i (tasks n)) as [t|] eqn:Hfind; [|done]. apply find_task_Some in Hfind as [Hin <-].
  destruct (alive t); [done|]. rewrite Hf, lookup_flow_elem, decide_True, filter_entries by done.
  constructor; cbn [flows generation tasks replies]; try done.
  - eapply sublist_NoDup; [|apply map_filter_sublist]; done.
  - eapply sublist_NoDup; [|apply map_filter_sublist]; done.
  - rewrite Forall_forall in Ho |- *. intros t' Hin'. apply Ho. apply list_elem_of_In, filter_In in Hin' as [Hin' _]. by apply list_elem_of_In.
  - etrans; [|exact Hn]. rewrite <- (length_map id (tasks n)), <- (length_map id (List.filter _ _)).
    apply sublist_length, map_filter_sublist.
  - rewrite Forall_forall in Ht |- *. intros t' Hin'. apply Ht. apply list_elem_of_In, filter_In in Hin' as [Hin' _]. by apply list_elem_of_In.
Qed.

Lemma deliver_ok events n i b : native_ok events n → native_ok (events ++ [Deliver i b]) (turn (Deliver i b) n).
Proof.
  intros Hok. apply (quiet_ok _ (Deliver i b)) in Hok. cbn [turn]. destruct (find_task i (tasks n)) as [t|]; [|done].
  destruct (alive t && opened t); [|done]. cbn [andb]. destruct (Z.leb_spec (len b + header (key t)) MTU) as [Hl|]; [|done].
  destruct Hok as [Hf Hk Hi Ho Hg Hn Ht Hr]. constructor; try done. cbn. apply Forall_app_2; [done|]. by apply Forall_singleton.
Qed.

Lemma serve_ok events : Z.of_nat (length events) < 2 ^ 64 → native_ok events (serve events).
Proof.
  unfold serve. induction events as [|e events IH] using rev_ind; intros Hlen.
  { constructor; cbn; try constructor; unfold MAX_FLOWS; lia. }
  rewrite length_app in Hlen. cbn in Hlen. rewrite fold_left_app. cbn [fold_left]. specialize (IH ltac:(lia)).
  destruct e.
  - apply input_ok; [lia|done].
  - apply on_task_ok; [done|apply keeps_connect|]. intros t _ _. apply connect_ok.
  - apply on_task_ok; [done|apply keeps_take|]. intros t _ _. apply take_ok.
  - by apply deliver_ok.
  - apply on_task_ok; [done|apply keeps_stop|]. intros t _ _. apply stop_ok.
  - by apply join_ok.
Qed.

(** A flow asks for the address and port its datagrams are sent to. *)
Lemma target_of_destination k :
  ip_ok (sa_ip (destination k)) → 0 < sa_port (destination k) ≤ u16_max →
  target_of k = Ok (Target.mkTarget (Target.Ip (sa_ip (destination k))) (sa_port (destination k))).
Proof.
  intros Hip Hport. unfold target_of. destruct (destination k) as [ip p] eqn:Hd. cbn in *.
  rewrite <- target_display_roundtrip; [|by split]. f_equal. unfold display_socket, Target.display. cbn.
  destruct ip; cbn; [done|]. by rewrite <- !app_assoc.
Qed.

(** C25.  UDP flows of the device do not mix.  At any time at most 1024 flows are known, one
    for each pair of addresses, and each has exactly one task that has not been
    joined.  What a flow has carried into its tunnel are datagrams the device had from
    its source to its destination, in that order, each at most as often; its tunnel is
    to that destination; at most 64 wait.  Every datagram given back fits the
    device with the headers of its family. *)
Theorem flows_isolated (events : list Event) :
  Z.of_nat (length events) < 2 ^ 64 →
  let n := serve events in
  (length (flows n) ≤ MAX_FLOWS)%nat ∧ NoDup (map fst (flows n)) ∧ flows n = map entry (tasks n) ∧ NoDup (map id (tasks n)) ∧
  (∀ t, t ∈ tasks n → carried t `sublist_of` packets_of (key t) events ∧ (length (queue t) ≤ QUEUE)%nat ∧
     (ip_ok (sa_ip (destination (key t))) → 0 < sa_port (destination (key t)) ≤ u16_max →
      target_of (key t) = Ok (Target.mkTarget (Target.Ip (sa_ip (destination (key t)))) (sa_port (destination (key t)))))) ∧
  Forall reply_ok (replies n).
Proof.
  intros Hlen n. destruct (serve_ok events Hlen) as [Hf Hk Hi _ _ Hn Ht Hr]. subst n. rewrite Hf. split_and!; try done.
  - by rewrite length_map.
  - by rewrite map_map.
  - intros t Hin. rewrite Forall_forall in Ht. destruct (Ht t Hin) as (H1 & H2 & H3). split_and!; [|done|apply target_of_destination].
    etrans; [|exact H2]. etrans; [|exact H1]. by apply sublist_inserts_r.
Qed.

Definition host_at (a p : Z) : SocketAddr := {| sa_ip := V4 a; sa_port := p |}.
Definition sample_events : list Event :=
  [Input (host_at 1 4000) (host_at 2 53) [1]; Input (host_at 1 4001) (host_at 2 53) [2]; Connected 1 true;
   Input (host_at 1 4000) (host_at 2 53) [3]; Take 1 None true; Take 1 None true; Deliver 1 [9]; End 2; Join 2].
Lemma flows_isolated_witness :
  map carried (tasks (serve sample_events)) = [[[1]; [3]]] ∧ length (replies (serve sample_events)) = 1%nat ∧
  (length (flows (serve sample_events)) ≤ MAX_FLOWS)%nat ∧ NoDup (map fst (flows (serve sample_events))).
Proof.
  split; [vm_compute; reflexivity|]. split; [vm_compute; reflexivity|].
  destruct (flows_isolated sample_events ltac:(cbn; lia)) as (H1 & H2 & _). split; [exact H1|exact H2].
Defined.

(** A packet the stack is given is whole: not longer than the device's MTU, as long as
    its header says, not a fragment, and TCP or UDP with a checksum that fits. *)
Lemma valid_whole v4 v6 tcp udp bytes :
  valid v4 v6 tcp udp bytes = true →
  len bytes ≤ MTU ∧ ∃ addrs proto payload, network_layer v4 v6 bytes = Some (addrs, proto, payload) ∧
    ((proto = Tcp ∧ tcp addrs payload = true) ∨ (proto = Udp ∧ udp addrs payload = Some (len payload))).
Proof.
  unfold valid. destruct (Z.ltb_spec MTU (len bytes)) as [|Hle]; [done|]. destruct (network_layer v4 v6 bytes) as [[[addrs proto] payload]|]; [|done].
  intros H. split; [lia|]. exists addrs, proto, payload. split; [done|]. destruct proto; [by left| |done].
  right. split; [done|]. destruct (udp addrs payload); [|done]. by apply Z.eqb_eq in H as ->.
Qed.

Lemma tcp_flows_few events : (fold_left tcp_turn events 0 ≤ MAX_FLOWS)%nat.
Proof.
  assert (∀ n, (n ≤ MAX_FLOWS)%nat → (fold_left tcp_turn events n ≤ MAX_FLOWS)%nat) as H.
  { induction events as [|e events IH]; intros n Hn; [done|]. cbn [fold_left]. apply IH.
    destruct e; cbn [tcp_turn]; [destruct (Nat.leb_spec MAX_FLOWS n)|]; lia. }
  apply H. lia.
Qed.
