(* ===== verification/Markup.v ===== *)
(** * Markup: what a browser reads

    The dashboard and the site of the repository are written by the components of
    [skimasque-visual].  A component writes literals of its source and values it was
    given; [skimasque-visual/src/render.rs] has the two ways to write, and the values
    pass through the escaping of the library stucco, which is a parameter here.

    To say what the result is worth this file has a reader: the part of an HTML
    tokenizer the components use, which keeps the stack of open elements and stops at
    anything else: an element or an attribute that is not of the library's vocabulary
    (there is no script, frame, form or event handler in it), a tag that closes
    another element than the last opened, an attribute without its quotes.  Markup is
    [contained] when the reader gets through it from any point of a page and is then
    where it was.  The lemmas below let a proof follow a component's source literal by
    literal. *)

From S2P Require Import Prelude RustStr.

(** ** Writing *)

(** [stucco_core::escape::escape_attr]. *)
Class Escaper := escape_attr : str → str.

(** What its documentation and render.rs say of it: neither an opening bracket nor
    a quote is left, and plain letters and digits are as they were. *)
Class EscapeLaws `{Escaper} : Prop := {
  escape_quiet s : 60 ∉ escape_attr s ∧ 34 ∉ escape_attr s;
  escape_plain s : Forall (λ c, is_ascii_alphanumeric c = true) s → escape_attr s = s
}.

(** A literal of the source.  A quotation mark inside is written as an apostrophe,
    which no literal of the crate contains. *)
Definition lit (s : string) : str :=
  default [] (from_utf8 (map (λ c, if c =? 39 then 34 else c) (of_string s))).

(** [markup] and [text]: a [Cx] is what has been written, so that writing is
    appending. *)
Definition markup (s : string) : str := lit s.
Definition text `{Escaper} (value : str) : str := escape_attr value.

(** The trait [Render], and [Component::html]. *)
Class Render (A : Type) := render : A → str.
Definition Html : Type := str.
Definition html `{Render A} (a : A) : Html := render a.
(** Markup that was rendered is written as it is. *)
#[global] Instance Html_render : Render Html := λ h, h.

(** The [for] loops of the components, without and with [enumerate]. *)
Definition each {A} (l : list A) (f : A → str) : str := concat (map f l).
Definition eachi {A} (l : list A) (f : nat → A → str) : str := concat (imap f l).

(** ** Reading *)

Definition elements : list str := map of_string
  ["a"; "article"; "blockquote"; "circle"; "dd"; "details"; "div"; "dl"; "dt"; "figcaption"; "figure"; "footer"; "g";
   "h1"; "h2"; "h3"; "h4"; "h5"; "h6"; "header"; "label"; "li"; "line"; "main"; "nav"; "ol"; "option"; "p"; "path";
   "polygon"; "pre"; "rect"; "section"; "select"; "span"; "strong"; "summary"; "svg"; "table"; "tbody"; "td"; "th";
   "thead"; "time"; "tr"; "ul"; "use"].
Definition void_elements : list str := map of_string ["br"].
Definition attributes : list str := map of_string
  ["aria-current"; "aria-hidden"; "aria-label"; "aria-valuemax"; "aria-valuemin"; "aria-valuenow"; "class"; "cx"; "cy";
   "d"; "data-copy"; "data-kind"; "data-layer"; "data-layout"; "fill"; "focusable"; "for"; "height"; "hidden"; "href"; "id";
   "name"; "overflow"; "points"; "preserveAspectRatio"; "r"; "role"; "scope"; "stroke"; "stroke-dasharray";
   "stroke-linecap"; "stroke-width"; "style"; "transform"; "value"; "viewBox"; "width"; "x"; "x1"; "x2"; "y"; "y1"; "y2"].

Definition among (names : list str) (n : str) : bool := existsb (str_eqb n) names.
Definition name_char (c : Z) : bool := is_ascii_alphanumeric c || (c =? 45).

(** Where in a page the reader is.  Names are collected back to front. *)
Inductive Mode : Type :=
  | Data
  | TagStart
  | OpenName (rev_name : str)
  | CloseName (rev_name : str)
  | InTag (name : str)
  | AttrName (name : str) (rev_attr : str)
  | AttrStart (name : str)
  | AttrValue (name : str)
  | AfterValue (name : str)
  | SelfClosing (name : str).

(** An opening tag is complete. *)
Definition opened (name : str) (open : list str) : option (Mode * list str) :=
  if among elements name then Some (Data, name :: open)
  else if among void_elements name then Some (Data, open)
  else None.

Definition read_char (c : Z) (s : Mode * list str) : option (Mode * list str) :=
  let '(m, open) := s in
  match m with
  | Data => if c =? 60 then Some (TagStart, open) else Some (Data, open)
  | TagStart =>
      if c =? 47 then Some (CloseName [], open)
      else if is_ascii_alphabetic c then Some (OpenName [c], open) else None
  | OpenName n =>
      if name_char c then Some (OpenName (c :: n), open)
      else if c =? 32 then Some (InTag (rev n), open)
      else if c =? 62 then opened (rev n) open
      else None
  | CloseName n =>
      if name_char c then Some (CloseName (c :: n), open)
      else if c =? 62 then
        match open with
        | top :: below => if str_eqb top (rev n) then Some (Data, below) else None
        | [] => None
        end
      else None
  | InTag n =>
      if name_char c then Some (AttrName n [c], open)
      else if c =? 62 then opened n open
      else None
  | AttrName n a =>
      if name_char c then Some (AttrName n (c :: a), open)
      else if among attributes (rev a) then
        if c =? 61 then Some (AttrStart n, open)
        else if c =? 32 then Some (InTag n, open)
        else if c =? 62 then opened n open
        else None
      else None
  | AttrStart n => if c =? 34 then Some (AttrValue n, open) else None
  | AttrValue n => if c =? 34 then Some (AfterValue n, open) else Some (AttrValue n, open)
  | AfterValue n =>
      if c =? 32 then Some (InTag n, open)
      else if c =? 47 then Some (SelfClosing n, open)
      else if c =? 62 then opened n open
      else None
  | SelfClosing n => if (c =? 62) && among elements n then Some (Data, open) else None
  end.
Fixpoint read (h : str) (s : Mode * list str) : option (Mode * list str) :=
  match h with
  | [] => Some s
  | c :: h => read_char c s ≫= read h
  end.

Definition contained (h : Html) : Prop := ∀ open, read h (Data, open) = Some (Data, open).

(** ** Reading what was written *)

Lemma read_app a b s : read (a ++ b) s = read a s ≫= read b.
Proof.
  revert s. induction a as [|c a IH]; intros s; [done|]. cbn [read app].
  destruct (read_char c s) as [s'|]; [apply IH|done].
Qed.

Lemma read_seq a b s s' r : read a s = Some s' → read b s' = r → read (a ++ b) s = r.
Proof. intros Ha Hb. by rewrite read_app, Ha. Qed.

Lemma read_if (c : bool) a b s r :
  (c = true → read a s = r) → (c = false → read b s = r) → read (if c then a else b) s = r.
Proof. destruct c; auto. Qed.

Lemma read_option {A} (o : option A) f b s r :
  read b s = r → (∀ a, o = Some a → read (f a) s = r) → read (match o with Some a => f a | None => b end) s = r.
Proof. destruct o; auto. Qed.

Lemma read_contained h open : contained h → read h (Data, open) = Some (Data, open).
Proof. auto. Qed.

Lemma contained_concat l : Forall contained l → contained (concat l).
Proof. induction 1 as [|h l Hh _ IH]; intros open; [done|]. cbn. eapply read_seq; [apply Hh|apply IH]. Qed.

Lemma each_contained {A} (l : list A) f : (∀ x, x ∈ l → contained (f x)) → contained (each l f).
Proof. intros H. apply contained_concat, Forall_fmap, Forall_forall. exact H. Qed.

Lemma eachi_contained {A} (l : list A) f : (∀ i x, l !! i = Some x → contained (f i x)) → contained (eachi l f).
Proof.
  intros H. apply contained_concat, Forall_forall. intros h (i & x & -> & Hx)%elem_of_lookup_imap. by apply H.
Qed.

Lemma read_each {A} (l : list A) f open : (∀ x, x ∈ l → contained (f x)) → read (each l f) (Data, open) = Some (Data, open).
Proof. intros. by apply each_contained. Qed.
Lemma read_eachi {A} (l : list A) f open :
  (∀ i x, l !! i = Some x → contained (f i x)) → read (eachi l f) (Data, open) = Some (Data, open).
Proof. intros. by apply eachi_contained. Qed.

Section values.
Context `{EscapeLaws}.

Lemma read_inert s h : Forall (λ c, read_char c s = Some s) h → read h s = Some s.
Proof. induction 1 as [|c h Hc _ IH]; [done|]. cbn. by rewrite Hc. Qed.

(** A value between tags is text, and one between quotes stays there. *)
Lemma read_text v open : read (text v) (Data, open) = Some (Data, open).
Proof.
  apply read_inert, Forall_forall. intros c Hc. cbn. destruct (Z.eqb_spec c 60) as [->|]; [|done].
  by destruct (escape_quiet v).
Qed.
Lemma read_text_attr v n open : read (text v) (AttrValue n, open) = Some (AttrValue n, open).
Proof.
  apply read_inert, Forall_forall. intros c Hc. cbn. destruct (Z.eqb_spec c 34) as [->|]; [|done].
  by destruct (escape_quiet v).
Qed.

Lemma digits_plain n : 0 ≤ n → text (to_string n) = to_string n.
Proof.
  intros Hn. apply escape_plain, Forall_forall. intros c Hc%to_string_digit; [|done].
  unfold is_ascii_alphanumeric, is_ascii_digit. destruct (Z.leb_spec 48 c), (Z.leb_spec c 57); lia.
Qed.

(** The number of a heading inside its tag. *)
Lemma heading_level n (P : Z → Prop) : 2 ≤ n ≤ 6 → P 2 → P 3 → P 4 → P 5 → P 6 → P n.
Proof. intros Hn. by assert (n = 2 ∨ n = 3 ∨ n = 4 ∨ n = 5 ∨ n = 6) as [->|[->|[->|[->| ->]]]] by lia. Qed.
End values.

Create HintDb contained discriminated.

(** Follow the source of a component: [piece] reads one thing that was written,
    [scan] the sequence of them. *)
Ltac read_literal :=
  lazymatch goal with
  | |- read ?l ?s = _ =>
      let v := eval vm_compute in (read l s) in
      lazymatch v with Some _ => exact (@eq_refl _ v <: read l s = v) end
  end.
Ltac piece :=
  lazymatch goal with
  | |- read ((if ?c then _ else _) ++ _) _ = _ =>
      first [eapply read_seq; [solve [apply read_if; intros ?; piece]|] | destruct c]; piece
  | |- read (_ ++ _) _ = _ => eapply read_seq; [piece|piece]
  | |- read (markup _) _ = _ => read_literal
  | |- read [] _ = _ => reflexivity
  | |- read (text _) (Data, _) = _ => apply read_text
  | |- read (text _) (AttrValue _, _) = _ => apply read_text_attr
  | |- read (text (to_string _)) _ = _ => rewrite digits_plain by lia; read_literal
  | |- read (if _ then _ else _) _ = _ => apply read_if; intros ?; piece
  | |- read (match _ with Some _ => _ | None => _ end) _ = _ => apply read_option; [piece|intros; piece]
  | |- read (let (_, _) := ?p in _) _ = _ => destruct p; piece
  | |- read (each _ _) _ = _ => apply read_each; intros ? ?; scan
  | |- read (eachi _ _) _ = _ => apply read_eachi; intros ? ? ?; scan
  | |- read _ (Data, _) = _ => apply read_contained; eauto 4 with contained
  end
with scan :=
  lazymatch goal with
  | |- contained (let (_, _) := ?p in _) => destruct p; scan
  | |- contained (_ ++ _) => intros ?; piece
  | |- contained (markup _) => intros ?; piece
  | |- contained (each _ _) => intros ?; piece
  | |- contained (if _ then _ else _) => intros ?; piece
  | |- contained (match _ with Some _ => _ | None => _ end) => intros ?; piece
  | |- _ => eauto 4 with contained
  end.
Tactic Notation "component" reference(render) := unfold render; cbv zeta; scan.

(** The reader is not easily pleased. *)
Example scripts_refused : read (lit "<p><script>x</script></p>") (Data, []) = None.
Proof. vm_compute. reflexivity. Qed.
Example handlers_refused : read (lit "<a href='/' onclick='x'>x</a>") (Data, []) = None.
Proof. vm_compute. reflexivity. Qed.
Example unbalanced_refused : read (lit "<p><span></p>") (Data, []) = None.
Proof. vm_compute. reflexivity. Qed.
