(* ===== verification/Visual.v ===== *)
(** * Visual: the diagrams

    Model of the diagram components of [skimasque-visual]: node.rs, status.rs,
    connection.rs, boundary.rs, flow.rs, layout.rs, topology.rs, motif.rs and the
    wrappers of motion.rs.  A component is the record of its struct; its [render] is
    the text its trait method writes, statement by statement; its builder methods
    return the changed record.  The icon sprite and the scripted walkthrough are files
    included as they are and are left out.

    Every component is [contained] in the sense of [Markup] whatever its texts say; a
    connector is drawn inside its frame; a flow has one connector between two steps
    and none after the last. *)

From S2P Require Import Prelude RustStr Markup.

Section visual.
Context `{Escaper}.

(** ** node.rs and status.rs *)

Inductive Tone : Type :=
  | Tone_Active | Tone_Structure | Tone_Edge | Tone_Neutral | Tone_Deny | Tone_Info | Tone_Warning.
Definition tone_class (self : Tone) : str :=
  match self with
  | Tone_Active => "active"
  | Tone_Structure => "structure"
  | Tone_Edge => "edge"
  | Tone_Neutral => "neutral"
  | Tone_Deny => "deny"
  | Tone_Info => "info"
  | Tone_Warning => "warning"
  end.
Inductive Status : Type :=
  | Status_Allow | Status_Deny | Status_Active | Status_Expired | Status_Pending | Status_Blocked
  | Status_Granted | Status_Denied | Status_Healthy | Status_Degraded | Status_Offline.
Definition status_word (self : Status) : str :=
  match self with
  | Status_Allow => "ALLOW"
  | Status_Deny => "DENY"
  | Status_Active => "ACTIVE"
  | Status_Expired => "EXPIRED"
  | Status_Pending => "PENDING"
  | Status_Blocked => "BLOCKED"
  | Status_Granted => "ACCESS GRANTED"
  | Status_Denied => "ACCESS DENIED"
  | Status_Healthy => "HEALTHY"
  | Status_Degraded => "DEGRADED"
  | Status_Offline => "OFFLINE"
  end.
Definition status_tone (self : Status) : Tone :=
  match self with
  | Status_Allow | Status_Active | Status_Granted | Status_Healthy => Tone_Active
  | Status_Deny | Status_Blocked | Status_Denied => Tone_Deny
  | Status_Expired | Status_Offline => Tone_Neutral
  | Status_Pending => Tone_Info
  | Status_Degraded => Tone_Warning
  end.

Record StatusBadge : Type := mkStatusBadge {
  status_badge_status : Status
}.
Definition render_StatusBadge (self : StatusBadge) : str :=
  markup "<span class='v-status v-tone-" ++
  text (tone_class (status_tone (status_badge_status self))) ++
  markup "'><span aria-hidden='true'>●</span> " ++
  text (status_word (status_badge_status self)) ++
  markup "</span>".
#[global] Instance status_badge_render : Render StatusBadge := render_StatusBadge.

Record DecisionBadge : Type := mkDecisionBadge {
  decision_badge_allow : bool; decision_badge_technical : bool
}.
Definition decision_badge_new (allow : bool) : DecisionBadge := mkDecisionBadge allow false.
Definition decision_badge_with_technical (self : DecisionBadge) : DecisionBadge :=
  mkDecisionBadge (decision_badge_allow self) true.
Definition decision_badge_word (self : DecisionBadge) : str :=
  match decision_badge_allow self, decision_badge_technical self with
  | true, false => "ACCESS GRANTED"
  | false, false => "ACCESS DENIED"
  | true, true => "ALLOW"
  | false, true => "DENY"
  end.
Definition render_DecisionBadge (self : DecisionBadge) : str :=
  (if decision_badge_allow self then
    markup "<span class='v-decision v-tone-active'><span aria-hidden='true'>✓</span> " ++
    text (decision_badge_word self) ++
    markup "</span>"
   else markup "<span class='v-decision v-tone-deny'><span aria-hidden='true'><svg class='v-denial-mark' viewBox='0 0 12 12' width='12' height='12' fill='none' stroke='currentColor' stroke-width='2' stroke-linecap='round' aria-hidden='true' focusable='false'><path d='M3 3 L9 9 M9 3 L3 9'/></svg>
</span> " ++
    text (decision_badge_word self) ++
    markup "</span>").
#[global] Instance decision_badge_render : Render DecisionBadge := render_DecisionBadge.

Inductive NodeKind : Type :=
  | NodeKind_Workload | NodeKind_Developer | NodeKind_GitHub | NodeKind_CiJob | NodeKind_Application
  | NodeKind_Identity | NodeKind_Policy | NodeKind_Session | NodeKind_Gateway | NodeKind_Network
  | NodeKind_Service | NodeKind_Database | NodeKind_Api | NodeKind_Kubernetes | NodeKind_Cloud
  | NodeKind_Firewall | NodeKind_Internet | NodeKind_Allow | NodeKind_Deny | NodeKind_ControlPlane
  | NodeKind_Cli | NodeKind_Credential | NodeKind_Audit.
Definition node_kind_slug (self : NodeKind) : str :=
  match self with
  | NodeKind_Workload => "workload"
  | NodeKind_Developer => "developer"
  | NodeKind_GitHub => "github"
  | NodeKind_CiJob => "ci-job"
  | NodeKind_Application => "application"
  | NodeKind_Identity => "identity"
  | NodeKind_Policy => "policy"
  | NodeKind_Session => "session"
  | NodeKind_Gateway => "gateway"
  | NodeKind_Network => "network"
  | NodeKind_Service => "service"
  | NodeKind_Database => "database"
  | NodeKind_Api => "api"
  | NodeKind_Kubernetes => "kubernetes"
  | NodeKind_Cloud => "cloud"
  | NodeKind_Firewall => "firewall"
  | NodeKind_Internet => "internet"
  | NodeKind_Allow => "allow"
  | NodeKind_Deny => "deny"
  | NodeKind_ControlPlane => "control-plane"
  | NodeKind_Cli => "cli"
  | NodeKind_Credential => "credential"
  | NodeKind_Audit => "audit"
  end.
Definition node_kind_icon (self : NodeKind) : str :=
  match self with
  | NodeKind_Session => "i-clock"
  | NodeKind_Allow => "i-check"
  | NodeKind_Deny => "i-cross"
  | NodeKind_Workload => "i-workload"
  | NodeKind_Developer => "i-developer"
  | NodeKind_GitHub => "i-github"
  | NodeKind_CiJob => "i-ci-job"
  | NodeKind_Application => "i-application"
  | NodeKind_Identity => "i-identity"
  | NodeKind_Policy => "i-policy"
  | NodeKind_Gateway => "i-gateway"
  | NodeKind_Network => "i-network"
  | NodeKind_Service => "i-service"
  | NodeKind_Database => "i-database"
  | NodeKind_Api => "i-api"
  | NodeKind_Kubernetes => "i-kubernetes"
  | NodeKind_Cloud => "i-cloud"
  | NodeKind_Firewall => "i-firewall"
  | NodeKind_Internet => "i-internet"
  | NodeKind_ControlPlane => "i-control-plane"
  | NodeKind_Cli => "i-cli"
  | NodeKind_Credential => "i-credential"
  | NodeKind_Audit => "i-audit"
  end.
Definition node_kind_tone (self : NodeKind) : Tone :=
  match self with
  | NodeKind_Network | NodeKind_Service | NodeKind_Database | NodeKind_Api | NodeKind_Kubernetes |
  NodeKind_Cloud | NodeKind_ControlPlane => Tone_Structure
  | NodeKind_Gateway | NodeKind_Firewall | NodeKind_Internet => Tone_Edge
  | NodeKind_Session | NodeKind_Allow => Tone_Active
  | NodeKind_Deny => Tone_Deny
  | _ => Tone_Neutral
  end.
Definition node_kind_default_label (self : NodeKind) : str :=
  match self with
  | NodeKind_Workload => "Workload"
  | NodeKind_Developer => "Developer"
  | NodeKind_GitHub => "GitHub Actions"
  | NodeKind_CiJob => "CI job"
  | NodeKind_Application => "Application"
  | NodeKind_Identity => "Identity"
  | NodeKind_Policy => "Policy"
  | NodeKind_Session => "Session"
  | NodeKind_Gateway => "Gateway"
  | NodeKind_Network => "Private network"
  | NodeKind_Service => "Service"
  | NodeKind_Database => "Database"
  | NodeKind_Api => "Internal API"
  | NodeKind_Kubernetes => "Kubernetes API"
  | NodeKind_Cloud => "SkiMasque Cloud"
  | NodeKind_Firewall => "Firewall"
  | NodeKind_Internet => "Internet"
  | NodeKind_Allow => "Allow"
  | NodeKind_Deny => "Deny"
  | NodeKind_ControlPlane => "Control plane"
  | NodeKind_Cli => "CLI"
  | NodeKind_Credential => "Credential"
  | NodeKind_Audit => "Audit log"
  end.

Record Node : Type := mkNode {
  node_kind : NodeKind; node_label : str; node_sub : option str; node_status : option Status
}.
Definition node_new (kind : NodeKind) : Node := mkNode kind (node_kind_default_label kind) None None.
Definition node_with_label (label : str) (self : Node) : Node := mkNode (node_kind self) label (node_sub self) (node_status self).
Definition node_with_sub (sub : str) (self : Node) : Node := mkNode (node_kind self) (node_label self) (Some sub) (node_status self).
Definition node_with_status (status : Status) (self : Node) : Node :=
  mkNode (node_kind self) (node_label self) (node_sub self) (Some status).
Definition node_status_html (self : Node) : option Html := (λ status, html (mkStatusBadge status)) <$> node_status self.
Definition render_Node (self : Node) : str :=
  markup "<div class='v-node v-tone-" ++
  text (tone_class (node_kind_tone (node_kind self))) ++
  markup "' data-kind='" ++
  text (node_kind_slug (node_kind self)) ++
  markup "'><svg class='v-icon' aria-hidden='true' focusable='false'><use href='#" ++
  text (node_kind_icon (node_kind self)) ++
  markup "'></use></svg><span class='v-node-text'><span class='v-node-label'>" ++
  text (node_label self) ++
  markup "</span>" ++
  match node_sub self with
  | Some s =>
    markup "<span class='v-node-sub'>" ++
    text s ++
    markup "</span>"
  | None => []
  end ++
  markup "</span>" ++
  match node_status_html self with
  | Some h =>
    render h
  | None => []
  end ++
  markup "</div>
".
#[global] Instance node_render : Render Node := render_Node.

(** ** connection.rs *)

Inductive ConnKind : Type :=
  | ConnKind_Normal | ConnKind_Control | ConnKind_Active | ConnKind_Potential | ConnKind_Denied.
#[global] Instance ConnKind_eq_dec : EqDecision ConnKind.
Proof. solve_decision. Defined.
Definition conn_kind_slug (self : ConnKind) : str :=
  match self with
  | ConnKind_Normal => "normal"
  | ConnKind_Control => "control"
  | ConnKind_Active => "active"
  | ConnKind_Potential => "potential"
  | ConnKind_Denied => "denied"
  end.
Definition conn_kind_spoken (self : ConnKind) : str :=
  match self with
  | ConnKind_Normal => []
  | ConnKind_Control => "control plane"
  | ConnKind_Active => "active"
  | ConnKind_Potential => "potential"
  | ConnKind_Denied => "denied"
  end.
Definition conn_kind_is_denied (self : ConnKind) : bool := bool_decide (self = ConnKind_Denied).

Record ArrowGeometry : Type := mkArrowGeometry {
  arrow_geometry_length : Z; arrow_geometry_head_size : Z; arrow_geometry_gap : Z
}.
Definition clamp (lo hi n : Z) : Z := if n <? lo then lo else if hi <? n then hi else n.
Definition arrow_geometry_new (length head_size gap : Z) : ArrowGeometry :=
  mkArrowGeometry (clamp 32 256 length) (clamp 4 12 head_size) (clamp 1 8 gap).
Definition arrow_geometry_default : ArrowGeometry := arrow_geometry_new 32 8 2.

(** The lengths that are [f32] are halves of whole numbers below 2^12, which a
    32-bit float holds exactly and computes with exactly: they are the [Z] of their
    halves, [6] for 3.0 and [7] for 3.5. *)
Abbreviation halves := Z (only parsing).
Definition display_half (h : halves) : str :=
  if h mod 2 =? 0 then to_string (h / 2) else to_string (h / 2) ++ ".5".
Definition arrow_geometry_cross (self : ArrowGeometry) : halves := 2 * arrow_geometry_head_size self + 8.
Definition arrow_geometry_center (self : ArrowGeometry) : halves := arrow_geometry_cross self / 2.
Definition arrow_geometry_head_inset (self : ArrowGeometry) : halves := 2 * arrow_geometry_head_size self + 4.
Definition arrow_geometry_shaft_inset (self : ArrowGeometry) (stroke : halves) : halves :=
  arrow_geometry_head_inset self + 2 * arrow_geometry_gap self + stroke / 2.
Definition arrow_geometry_shaft_start (self : ArrowGeometry) (stroke : halves) : halves :=
  arrow_geometry_shaft_inset self stroke + stroke / 2.
Definition arrow_geometry_head_far (self : ArrowGeometry) : halves := arrow_geometry_cross self - 4.
(** A [u16] subtraction: the arrow would panic or wrap below zero. *)
Definition arrow_geometry_packet_travel (self : ArrowGeometry) : Z :=
  arrow_geometry_length self - arrow_geometry_head_size self - arrow_geometry_gap self - 8.

Record Connection : Type := mkConnection {
  connection_kind : ConnKind; connection_label : option str; connection_arrow : ArrowGeometry
}.
Definition connection_new (kind : ConnKind) : Connection := mkConnection kind None arrow_geometry_default.
Definition connection_with_label (label : str) (self : Connection) : Connection :=
  mkConnection (connection_kind self) (Some label) (connection_arrow self).
Definition connection_with_geometry (arrow : ArrowGeometry) (self : Connection) : Connection :=
  mkConnection (connection_kind self) (connection_label self) arrow.
Definition connection_arrow_geometry (self : Connection) : ArrowGeometry := connection_arrow self.
Definition connection_stroke_width (self : Connection) : halves :=
  if decide (connection_kind self = ConnKind_Active) then 6 else 4.
Definition connection_shaft_inset (self : Connection) : halves :=
  arrow_geometry_shaft_inset (connection_arrow self) (connection_stroke_width self).
Definition connection_shaft_start (self : Connection) : halves :=
  arrow_geometry_shaft_start (connection_arrow self) (connection_stroke_width self).
Definition connection_dash_pattern (self : Connection) : str :=
  match connection_kind self with
  | ConnKind_Control | ConnKind_Denied => "5 4"
  | ConnKind_Potential => "0 6"
  | _ => "none"
  end.
Definition render_Connection (self : Connection) : str :=
  let g := connection_arrow_geometry self in
  let stroke := connection_stroke_width self in
  markup "<span class='v-conn v-conn-" ++
  text (conn_kind_slug (connection_kind self)) ++
  markup "' style='--v-conn-length: " ++
  text (to_string (arrow_geometry_length g)) ++
  markup "px; --v-conn-cross: " ++
  text (display_half (arrow_geometry_cross g)) ++
  markup "px; --v-conn-travel: " ++
  text (to_string (arrow_geometry_packet_travel g)) ++
  markup "px'><span class='v-conn-line' aria-hidden='true'>
  <svg class='v-conn-svg v-conn-horizontal' width='100%' height='100%' focusable='false'>
    <g transform='translate(-" ++
  text (display_half (connection_shaft_inset self)) ++
  markup " 0)'><line x1='" ++
  text (display_half (connection_shaft_start self)) ++
  markup "' y1='" ++
  text (display_half (arrow_geometry_center g)) ++
  markup "' x2='100%' y2='" ++
  text (display_half (arrow_geometry_center g)) ++
  markup "' stroke='currentColor' stroke-width='" ++
  text (display_half stroke) ++
  markup "' stroke-linecap='round' stroke-dasharray='" ++
  text (connection_dash_pattern self) ++
  markup "'/></g>
    <svg x='100%' width='" ++
  text (display_half (arrow_geometry_cross g)) ++
  markup "' height='" ++
  text (display_half (arrow_geometry_cross g)) ++
  markup "' overflow='visible' focusable='false'><polygon points='-" ++
  text (display_half (arrow_geometry_head_inset g)) ++
  markup ",2 -2," ++
  text (display_half (arrow_geometry_center g)) ++
  markup " -" ++
  text (display_half (arrow_geometry_head_inset g)) ++
  markup "," ++
  text (display_half (arrow_geometry_head_far g)) ++
  markup "' fill='currentColor'/></svg>
  </svg>
  <svg class='v-conn-svg v-conn-vertical' width='100%' height='100%' focusable='false'>
    <g transform='translate(0 -" ++
  text (display_half (connection_shaft_inset self)) ++
  markup ")'><line x1='" ++
  text (display_half (arrow_geometry_center g)) ++
  markup "' y1='" ++
  text (display_half (connection_shaft_start self)) ++
  markup "' x2='" ++
  text (display_half (arrow_geometry_center g)) ++
  markup "' y2='100%' stroke='currentColor' stroke-width='" ++
  text (display_half stroke) ++
  markup "' stroke-linecap='round' stroke-dasharray='" ++
  text (connection_dash_pattern self) ++
  markup "'/></g>
    <svg y='100%' width='" ++
  text (display_half (arrow_geometry_cross g)) ++
  markup "' height='" ++
  text (display_half (arrow_geometry_cross g)) ++
  markup "' overflow='visible' focusable='false'><polygon points='2,-" ++
  text (display_half (arrow_geometry_head_inset g)) ++
  markup " " ++
  text (display_half (arrow_geometry_center g)) ++
  markup ",-2 " ++
  text (display_half (arrow_geometry_head_far g)) ++
  markup ",-" ++
  text (display_half (arrow_geometry_head_inset g)) ++
  markup "' fill='currentColor'/></svg>
  </svg>
" ++
  (if conn_kind_is_denied (connection_kind self) then
    markup "<span class='v-conn-x' aria-hidden='true'><svg class='v-denial-mark' viewBox='0 0 12 12' width='12' height='12' fill='none' stroke='currentColor' stroke-width='2' stroke-linecap='round' aria-hidden='true' focusable='false'><path d='M3 3 L9 9 M9 3 L3 9'/></svg>
</span>"
   else []) ++
  markup "</span>" ++
  match connection_label self with
  | Some l =>
    markup "<span class='v-conn-label'>" ++
    text l ++
    markup "</span>"
  | None => []
  end ++
  (if negb (is_empty (conn_kind_spoken (connection_kind self))) then
    markup "<span class='v-sr'>" ++
    text (conn_kind_spoken (connection_kind self)) ++
    markup "</span>"
   else []) ++
  markup "</span>
".
#[global] Instance connection_render : Render Connection := render_Connection.

(** ** boundary.rs *)

Inductive BoundaryKind : Type :=
  | BoundaryKind_Region | BoundaryKind_Firewall.
#[global] Instance BoundaryKind_eq_dec : EqDecision BoundaryKind.
Proof. solve_decision. Defined.
Record Boundary : Type := mkBoundary {
  boundary_label : str; boundary_kind : BoundaryKind; boundary_children : list Html
}.
Definition boundary_region (label : str) : Boundary := mkBoundary label BoundaryKind_Region [].
Definition boundary_firewall (label : str) : Boundary := mkBoundary label BoundaryKind_Firewall [].
Definition boundary_child {C} `{Render C} (c : C) (self : Boundary) : Boundary :=
  mkBoundary (boundary_label self) (boundary_kind self) (boundary_children self ++ [html c]).
Definition boundary_is_firewall (self : Boundary) : bool := bool_decide (boundary_kind self = BoundaryKind_Firewall).
Definition render_Boundary (self : Boundary) : str :=
  (if boundary_is_firewall self then
    markup "<div class='v-boundary v-boundary-firewall' role='group' aria-label='" ++
    text (boundary_label self) ++
    markup "'><div class='v-firewall-rule'><span class='v-boundary-label' aria-hidden='true'>" ++
    text (boundary_label self) ++
    markup "</span></div><div class='v-boundary-body'>" ++
    each (boundary_children self) (λ c,
      render c) ++
    markup "</div></div>"
   else markup "<div class='v-boundary v-boundary-region' role='group' aria-label='" ++
    text (boundary_label self) ++
    markup "'><span class='v-boundary-label' aria-hidden='true'>" ++
    text (boundary_label self) ++
    markup "</span><div class='v-boundary-body'>" ++
    each (boundary_children self) (λ c,
      render c) ++
    markup "</div></div>").
#[global] Instance boundary_render : Render Boundary := render_Boundary.

(** ** flow.rs *)

Record Step : Type := mkStep {
  step_body : Html; step_next : option Connection
}.
Record Flow : Type := mkFlow {
  flow_steps : list Step; flow_caption : str
}.
Definition flow_new (caption : str) : Flow := mkFlow [] caption.
(** [steps.last_mut()]. *)
Fixpoint on_last {A} (f : A → A) (l : list A) : list A :=
  match l with
  | [] => []
  | [x] => [f x]
  | x :: l => x :: on_last f l
  end.
Definition flow_push {C} `{Render C} (conn : option Connection) (c : C) (self : Flow) : Flow :=
  mkFlow
    (on_last (λ prev, mkStep (step_body prev) (Some (default (connection_new ConnKind_Normal) conn))) (flow_steps self) ++
       [mkStep (html c) None])
    (flow_caption self).
Definition flow_then {C} `{Render C} (c : C) (self : Flow) : Flow := flow_push None c self.
Definition flow_via {C} `{Render C} (conn : Connection) (c : C) (self : Flow) : Flow := flow_push (Some conn) c self.
Definition flow_conn_html (step : Step) : option Html := html <$> step_next step.
Definition flow_layout (self : Flow) : str :=
  if forallb (λ step, starts_with (lit "<div class='v-node ") (step_body step)) (flow_steps self) then
    match length (flow_steps self) with
    | 0 | 1 | 2 | 3 => "compact"
    | 4 | 5 => "medium"
    | _ => "full"
    end%nat
  else "full".
Definition render_Flow (self : Flow) : str :=
  markup "<figure class='v-flow-wrap'><ol class='v-flow' data-layout='" ++
  text (flow_layout self) ++
  markup "'>" ++
  eachi (flow_steps self) (λ index_0 s,
    markup "<li class='v-flow-step'>" ++
    render (step_body s) ++
    (if negb (S index_0 =? length (flow_steps self))%nat then
      match flow_conn_html s with
      | Some c =>
        render c
      | None => []
      end
     else []) ++
    markup "</li>") ++
  markup "</ol><figcaption class='v-sr'>" ++
  text (flow_caption self) ++
  markup "</figcaption></figure>
".
#[global] Instance flow_render : Render Flow := render_Flow.

(** ** layout.rs *)

Record LayerRow : Type := mkLayerRow {
  layer_row_title : str; layer_row_sub : option str
}.
Record Layers : Type := mkLayers {
  layers_caption : str; layers_rows : list LayerRow; layers_upward : bool
}.
Definition layers_new (caption : str) : Layers := mkLayers caption [] false.
Definition layers_with_upward (self : Layers) : Layers := mkLayers (layers_caption self) (layers_rows self) true.
Definition layers_row (title : str) (self : Layers) : Layers :=
  mkLayers (layers_caption self) (layers_rows self ++ [mkLayerRow title None]) (layers_upward self).
Definition layers_row_sub (title sub : str) (self : Layers) : Layers :=
  mkLayers (layers_caption self) (layers_rows self ++ [mkLayerRow title (Some sub)]) (layers_upward self).
Definition render_Layers (self : Layers) : str :=
  markup "<figure class='v-layers-wrap'><ol class='v-layers" ++
  (if layers_upward self then
    markup " v-layers-up"
   else []) ++
  markup "'>" ++
  eachi (layers_rows self) (λ index_0 r,
    markup "<li class='v-layer-row'><span class='v-layer-name'>" ++
    text (layer_row_title r) ++
    markup "</span>" ++
    match layer_row_sub r with
    | Some s =>
      markup "<span class='v-layer-sub'>" ++
      text s ++
      markup "</span>"
    | None => []
    end ++
    markup "</li>" ++
    (if negb (S index_0 =? length (layers_rows self))%nat then
      markup "<li class='v-layer-gap' aria-hidden='true'>" ++
      (if layers_upward self then
        markup "↑"
       else markup "↓") ++
      markup "</li>"
     else [])) ++
  markup "</ol><figcaption class='v-sr'>" ++
  text (layers_caption self) ++
  markup "</figcaption></figure>".
#[global] Instance layers_render : Render Layers := render_Layers.

Record Side : Type := mkSide {
  side_title : str; side_tone : Tone; side_body : Html
}.
Record Compare : Type := mkCompare {
  compare_caption : str; compare_sides : list Side
}.
Definition compare_new (caption : str) : Compare := mkCompare caption [].
Definition compare_side {C} `{Render C} (title : str) (tone : Tone) (body : C) (self : Compare) : Compare :=
  mkCompare (compare_caption self) (compare_sides self ++ [mkSide title tone (html body)]).
Definition render_Compare (self : Compare) : str :=
  markup "<figure class='v-compare-wrap'><div class='v-compare'>" ++
  each (compare_sides self) (λ s,
    markup "<section class='v-compare-side v-tone-" ++
    text (tone_class (side_tone s)) ++
    markup "'>" ++
    (if negb (is_empty (side_title s)) then
      markup "<p class='v-compare-title'>" ++
      text (side_title s) ++
      markup "</p>"
     else []) ++
    render (side_body s) ++
    markup "</section>") ++
  markup "</div><figcaption class='v-sr'>" ++
  text (compare_caption self) ++
  markup "</figcaption></figure>".
#[global] Instance compare_render : Render Compare := render_Compare.

Record Arm : Type := mkArm {
  arm_conn : Html; arm_body : Html
}.
Record Branch : Type := mkBranch {
  branch_caption : str; branch_root : Html; branch_arms : list Arm
}.
Definition branch_new {C} `{Render C} (caption : str) (root : C) : Branch := mkBranch caption (html root) [].
Definition branch_arm {C} `{Render C} (conn : Connection) (body : C) (self : Branch) : Branch :=
  mkBranch (branch_caption self) (branch_root self) (branch_arms self ++ [mkArm (html conn) (html body)]).
Definition render_Branch (self : Branch) : str :=
  markup "<figure class='v-branch-wrap'><div class='v-branch'><div class='v-branch-root'>" ++
  render (branch_root self) ++
  markup "</div><ul class='v-branch-arms'>" ++
  each (branch_arms self) (λ a,
    markup "<li class='v-branch-arm'>" ++
    render (arm_conn a) ++
    render (arm_body a) ++
    markup "</li>") ++
  markup "</ul></div><figcaption class='v-sr'>" ++
  text (branch_caption self) ++
  markup "</figcaption></figure>".
#[global] Instance branch_render : Render Branch := render_Branch.

Record Message : Type := mkMessage {
  message_label : str; message_rightward : bool; message_spoken : str
}.
Record Sequence : Type := mkSequence {
  sequence_caption : str; sequence_left : str; sequence_right : str; sequence_messages : list Message
}.
Definition sequence_arrow (self : Sequence) : Html := html (connection_new ConnKind_Normal).
Definition sequence_new (caption left right : str) : Sequence := mkSequence caption left right [].
Definition sequence_say (m : Message) (self : Sequence) : Sequence :=
  mkSequence (sequence_caption self) (sequence_left self) (sequence_right self) (sequence_messages self ++ [m]).
Definition sequence_to_right (label : str) (self : Sequence) : Sequence :=
  sequence_say (mkMessage label true (sequence_left self ++ " to " ++ sequence_right self)) self.
Definition sequence_to_left (label : str) (self : Sequence) : Sequence :=
  sequence_say (mkMessage label false (sequence_right self ++ " to " ++ sequence_left self)) self.
Definition render_Sequence (self : Sequence) : str :=
  markup "<figure class='v-seq-wrap'><div class='v-seq'><div class='v-seq-actor'>" ++
  text (sequence_left self) ++
  markup "</div><div class='v-seq-actor'>" ++
  text (sequence_right self) ++
  markup "</div>" ++
  each (sequence_messages self) (λ m,
    markup "<div class='v-seq-msg " ++
    (if message_rightward m then
      markup "v-seq-right"
     else markup "v-seq-left") ++
    markup "'><span class='v-seq-label'>" ++
    text (message_label m) ++
    markup "</span><span class='v-seq-track' aria-hidden='true'>" ++
    render (sequence_arrow self) ++
    markup "</span><span class='v-sr'>" ++
    text (message_spoken m) ++
    markup "</span></div>") ++
  markup "</div><figcaption class='v-sr'>" ++
  text (sequence_caption self) ++
  markup "</figcaption></figure>
".
#[global] Instance sequence_render : Render Sequence := render_Sequence.

(** ** topology.rs *)

Record TopologyNetwork : Type := mkTopologyNetwork {
  topology_network_boundary : str; topology_network_gateway : Node; topology_network_control : Connection;
  topology_network_services : list (Connection * Node)
}.
Definition topology_network_new (boundary : str) (gateway : Node) (control : Connection) : TopologyNetwork :=
  mkTopologyNetwork boundary gateway control [].
Definition topology_network_service (connection : Connection) (service : Node) (self : TopologyNetwork) : TopologyNetwork :=
  mkTopologyNetwork (topology_network_boundary self) (topology_network_gateway self) (topology_network_control self)
    (topology_network_services self ++ [(connection, service)]).
Definition topology_network_html (self : TopologyNetwork) : Html :=
  let branch := fold_left (λ branch p, branch_arm p.1 p.2 branch) (topology_network_services self)
    (branch_new ("Services behind " ++ topology_network_boundary self ++ ".") (topology_network_gateway self)) in
  html (boundary_child branch (boundary_region (topology_network_boundary self))).

Record TopologyArm : Type := mkTopologyArm {
  topology_arm_connection : Html; topology_arm_body : Html
}.
Record NetworkTopology : Type := mkNetworkTopology {
  network_topology_caption : str; network_topology_control_plane : Html;
  network_topology_workloads : list TopologyArm; network_topology_networks : list TopologyArm
}.
Definition network_topology_new (caption : str) (control_plane : Node) : NetworkTopology :=
  mkNetworkTopology caption (html control_plane) [] [].
Definition network_topology_workload (workload : Node) (connection : Connection) (self : NetworkTopology) : NetworkTopology :=
  mkNetworkTopology (network_topology_caption self) (network_topology_control_plane self)
    (network_topology_workloads self ++ [mkTopologyArm (html connection) (html workload)]) (network_topology_networks self).
Definition network_topology_network (network : TopologyNetwork) (self : NetworkTopology) : NetworkTopology :=
  mkNetworkTopology (network_topology_caption self) (network_topology_control_plane self) (network_topology_workloads self)
    (network_topology_networks self ++
       [mkTopologyArm (html (topology_network_control network)) (topology_network_html network)]).
Definition render_NetworkTopology (self : NetworkTopology) : str :=
  markup "<figure class='v-topology'>" ++
  (if negb (is_empty (network_topology_workloads self)) then
    markup "<ul class='v-topology-workloads'>" ++
    each (network_topology_workloads self) (λ arm,
      markup "<li>" ++
      render (topology_arm_body arm) ++
      render (topology_arm_connection arm) ++
      markup "</li>") ++
    markup "</ul>"
   else []) ++
  markup "<div class='v-topology-control'>" ++
  render (network_topology_control_plane self) ++
  markup "</div>" ++
  (if negb (is_empty (network_topology_networks self)) then
    markup "<ul class='v-topology-networks'>" ++
    each (network_topology_networks self) (λ arm,
      markup "<li>" ++
      render (topology_arm_connection arm) ++
      render (topology_arm_body arm) ++
      markup "</li>") ++
    markup "</ul>"
   else markup "<p class='v-topology-empty'>No private networks configured.</p>") ++
  markup "<figcaption class='v-sr'>" ++
  text (network_topology_caption self) ++
  markup "</figcaption></figure>".
#[global] Instance network_topology_render : Render NetworkTopology := render_NetworkTopology.

(** ** motif.rs and motion.rs *)

Inductive Contour : Type := mkContour.
Definition render_Contour (self : Contour) : str :=
  markup "<svg class='v-contour' viewBox='0 0 800 240' preserveAspectRatio='xMidYMid slice' aria-hidden='true' focusable='false'><g fill='none' stroke='currentColor' stroke-width='1'><path d='M0 200 C120 160 200 210 320 170 S560 120 800 160'/><path d='M0 170 C120 130 200 180 320 140 S560 90 800 130'/><path d='M0 140 C120 100 200 150 320 110 S560 60 800 100'/><path d='M0 110 C120 70 200 120 320 80 S560 30 800 70'/><path d='M0 80 C120 40 200 90 320 50 S560 0 800 40'/></g></svg>".
#[global] Instance contour_render : Render Contour := render_Contour.
Inductive Mountain : Type := mkMountain.
Definition render_Mountain (self : Mountain) : str :=
  markup "<svg class='v-mountain' viewBox='0 0 800 160' preserveAspectRatio='none' aria-hidden='true' focusable='false'><path class='v-mountain-far' d='M0 160 L0 90 L120 40 L200 80 L300 20 L420 90 L520 50 L640 100 L720 60 L800 90 L800 160 Z'/><path class='v-mountain-near' d='M0 160 L0 120 L90 80 L180 115 L280 70 L380 120 L480 95 L590 125 L690 85 L800 120 L800 160 Z'/></svg>".
#[global] Instance mountain_render : Render Mountain := render_Mountain.
Record Route : Type := mkRoute {
  route_flowing : bool
}.
Definition route_new : Route := mkRoute false.
Definition route_with_flowing (self : Route) : Route := mkRoute true.
Definition render_Route (self : Route) : str :=
  markup "<svg class='v-route" ++
  (if route_flowing self then
    markup " v-route-flowing"
   else []) ++
  markup "' viewBox='0 0 400 80' aria-hidden='true' focusable='false'><path class='v-route-line' fill='none' d='M8 64 C90 64 100 16 200 16 S310 64 392 24'/><circle class='v-route-start' cx='8' cy='64' r='5'/><circle class='v-route-end' cx='392' cy='24' r='5'/></svg>".
#[global] Instance route_render : Render Route := render_Route.

Inductive Shape : Type :=
  | Shape_Circle | Shape_Square | Shape_Diamond.
#[global] Instance Shape_eq_dec : EqDecision Shape.
Proof. solve_decision. Defined.
Record TrailMarker : Type := mkTrailMarker {
  trail_marker_shape : Shape; trail_marker_tone : Tone; trail_marker_label : str
}.
Definition trail_marker_new (shape : Shape) (tone : Tone) (label : str) : TrailMarker := mkTrailMarker shape tone label.
Definition trail_marker_is_circle (self : TrailMarker) : bool := bool_decide (trail_marker_shape self = Shape_Circle).
Definition trail_marker_is_square (self : TrailMarker) : bool := bool_decide (trail_marker_shape self = Shape_Square).
Definition render_TrailMarker (self : TrailMarker) : str :=
  markup "<span class='v-trail v-tone-" ++
  text (tone_class (trail_marker_tone self)) ++
  markup "'><svg class='v-trail-shape' viewBox='0 0 12 12' aria-hidden='true' focusable='false'>" ++
  (if trail_marker_is_circle self then
    markup "<circle cx='6' cy='6' r='4.5'/>"
   else (if trail_marker_is_square self then
      markup "<rect x='1.5' y='1.5' width='9' height='9'/>"
     else markup "<polygon points='6,0.8 11.2,6 6,11.2 0.8,6'/>")) ++
  markup "</svg><span class='v-trail-label'>" ++
  text (trail_marker_label self) ++
  markup "</span></span>".
#[global] Instance trail_marker_render : Render TrailMarker := render_TrailMarker.

Record Reveal : Type := mkReveal {
  reveal_inner : Html
}.
Definition render_Reveal (self : Reveal) : str :=
  markup "<div class='v-reveal'>" ++
  render (reveal_inner self) ++
  markup "</div>".
#[global] Instance reveal_render : Render Reveal := render_Reveal.
Definition reveal_new {C} `{Render C} (c : C) : Reveal := mkReveal (html c).
Record Expire : Type := mkExpire {
  expire_inner : Html
}.
Definition render_Expire (self : Expire) : str :=
  markup "<div class='v-expire'>" ++
  render (expire_inner self) ++
  markup "</div>".
#[global] Instance expire_render : Render Expire := render_Expire.
Definition expire_new {C} `{Render C} (c : C) : Expire := mkExpire (html c).
End visual.

(** ** Containment *)

Section containment.
Context `{EscapeLaws}.

Lemma html_contained (h : Html) : contained h → contained (render h).
Proof. done. Qed.
#[local] Hint Resolve html_contained : contained.

Lemma status_badge_contained b : contained (render_StatusBadge b).
Proof. component render_StatusBadge. Qed.
Lemma decision_badge_contained b : contained (render_DecisionBadge b).
Proof. component render_DecisionBadge. Qed.
#[local] Hint Resolve status_badge_contained decision_badge_contained : contained.

Lemma node_contained n : contained (render_Node n).
Proof.
  component render_Node. unfold node_status_html in *. destruct (node_status n); simplify_eq/=. apply status_badge_contained.
Qed.
Lemma connection_contained c : contained (render_Connection c).
Proof. component render_Connection. Qed.
#[local] Hint Resolve node_contained connection_contained : contained.

Lemma boundary_contained b : Forall contained (boundary_children b) → contained (render_Boundary b).
Proof. rewrite Forall_forall. intros Hc. component render_Boundary. Qed.

Lemma flow_contained f : Forall (λ s, contained (step_body s)) (flow_steps f) → contained (render_Flow f).
Proof.
  rewrite Forall_forall. intros Hc. component render_Flow.
  - apply html_contained, Hc. by eapply list_elem_of_lookup_2.
  - unfold flow_conn_html in *. destruct (step_next _); simplify_eq/=. apply connection_contained.
Qed.

Lemma layers_contained l : contained (render_Layers l).
Proof. component render_Layers. Qed.

Lemma compare_contained c : Forall (λ s, contained (side_body s)) (compare_sides c) → contained (render_Compare c).
Proof. rewrite Forall_forall. intros Hc. component render_Compare. Qed.

(** What a flow or a branch already carries, and that [then], [via] and [arm] add to it. *)
Definition branch_ok (b : Branch) : Prop :=
  contained (branch_root b) ∧ Forall (λ a, contained (arm_conn a) ∧ contained (arm_body a)) (branch_arms b).

Lemma branch_contained b : branch_ok b → contained (render_Branch b).
Proof.
  unfold branch_ok. rewrite Forall_forall. intros [Hr Hc]. component render_Branch; apply html_contained, Hc; done.
Qed.
Lemma branch_new_ok {C} `{Render C} caption (root : C) : contained (html root) → branch_ok (branch_new caption root).
Proof. intros Hr. split; [exact Hr|constructor]. Qed.
Lemma branch_arm_ok {C} `{Render C} conn (body : C) b : contained (html body) → branch_ok b → branch_ok (branch_arm conn body b).
Proof.
  intros Hb [Hr Ha]. split; [exact Hr|]. apply Forall_app. split; [exact Ha|]. constructor; [|constructor].
  split; [exact (connection_contained _)|exact Hb].
Qed.
Lemma branch_arms_ok {C A} `{Render C} (conn : A → Connection) (body : A → C) (l : list A) b :
  (∀ x, contained (html (body x))) → branch_ok b → branch_ok (fold_left (λ b x, branch_arm (conn x) (body x) b) l b).
Proof. intros Hx. revert b. induction l as [|x l IH]; intros b Hb; [exact Hb|]. apply IH, branch_arm_ok; [apply Hx|exact Hb]. Qed.

Definition flow_ok (f : Flow) : Prop := Forall (λ s, contained (step_body s)) (flow_steps f).
Lemma flow_new_ok caption : flow_ok (flow_new caption).
Proof. constructor. Qed.
Lemma flow_push_ok {C} `{Render C} conn (c : C) f : contained (html c) → flow_ok f → flow_ok (flow_push conn c f).
Proof.
  intros Hc Hf. apply Forall_app. split; [|constructor; [exact Hc|constructor]].
  induction Hf as [|s l Hs Hl IH]; [constructor|]. destruct l as [|s' l]; cbn [on_last]; constructor; try done.
Qed.

Lemma sequence_contained s : contained (render_Sequence s).
Proof. component render_Sequence. Qed.

Lemma network_topology_contained t :
  contained (network_topology_control_plane t) →
  Forall (λ a, contained (topology_arm_connection a) ∧ contained (topology_arm_body a)) (network_topology_workloads t) →
  Forall (λ a, contained (topology_arm_connection a) ∧ contained (topology_arm_body a)) (network_topology_networks t) →
  contained (render_NetworkTopology t).
Proof.
  rewrite !Forall_forall. intros Hc Hw Hn. component render_NetworkTopology; apply html_contained;
    first [by apply Hw|by apply Hn].
Qed.

(** A private network is drawn from texts alone. *)
Lemma topology_network_contained n : contained (topology_network_html n).
Proof.
  unfold topology_network_html. apply boundary_contained. constructor; [|constructor].
  apply branch_contained, (branch_arms_ok fst snd); [intros p; exact (node_contained _)|].
  apply branch_new_ok. exact (node_contained _).
Qed.

Lemma contour_contained c : contained (render_Contour c).
Proof. component render_Contour. Qed.
Lemma mountain_contained m : contained (render_Mountain m).
Proof. component render_Mountain. Qed.
Lemma route_contained r : contained (render_Route r).
Proof. component render_Route. Qed.
Lemma trail_marker_contained t : contained (render_TrailMarker t).
Proof. component render_TrailMarker. Qed.
Lemma reveal_contained r : contained (reveal_inner r) → contained (render_Reveal r).
Proof. intros Hi. component render_Reveal. Qed.
Lemma expire_contained e : contained (expire_inner e) → contained (render_Expire e).
Proof. intros Hi. component render_Expire. Qed.
End containment.

#[export] Hint Resolve html_contained status_badge_contained decision_badge_contained node_contained connection_contained
  layers_contained sequence_contained topology_network_contained contour_contained mountain_contained route_contained
  trail_marker_contained flow_new_ok flow_push_ok branch_new_ok : contained.

(** ** Connectors *)

(** A connector stays inside its frame, whatever measures it is given: the packet
    that travels along it has a way to go (the subtraction does not underflow), the
    ink of the shaft with its round caps begins at the edge and ends exactly the gap
    before the head, and the head ends before the frame does. *)
Theorem arrow_in_frame (length head_size gap : Z) (kind : ConnKind) :
  0 ≤ length ≤ u16_max → 0 ≤ head_size ≤ u16_max → 0 ≤ gap ≤ u16_max →
  let g := arrow_geometry_new length head_size gap in
  let c := connection_with_geometry g (connection_new kind) in
  let frame := 2 * arrow_geometry_length g in
  let cap := connection_stroke_width c / 2 in
  4 ≤ arrow_geometry_packet_travel g ≤ u16_max ∧
  connection_shaft_start c < frame ∧
  connection_shaft_start c - connection_shaft_inset c - cap = 0 ∧
  frame - connection_shaft_inset c + cap + 2 * arrow_geometry_gap g = frame - arrow_geometry_head_inset g ∧
  0 < frame - arrow_geometry_head_inset g < frame - 4 ∧
  4 ≤ arrow_geometry_head_far g ≤ arrow_geometry_cross g ∧ 2 * arrow_geometry_center g = arrow_geometry_cross g.
Proof.
  intros Hl Hh Hg g c frame cap.
  assert (32 ≤ arrow_geometry_length g ≤ 256 ∧ 4 ≤ arrow_geometry_head_size g ≤ 12 ∧ 1 ≤ arrow_geometry_gap g ≤ 8) as (H1 & H2 & H3).
  { unfold g, arrow_geometry_new, clamp. cbn. cmp_cases. }
  assert (connection_stroke_width c = 4 ∨ connection_stroke_width c = 6) as Hs.
  { unfold connection_stroke_width. destruct (decide _); auto. }
  assert (connection_arrow c = g) as Hc by done.
  unfold frame, cap, arrow_geometry_packet_travel, connection_shaft_start, connection_shaft_inset, arrow_geometry_shaft_start,
    arrow_geometry_shaft_inset, arrow_geometry_head_far, arrow_geometry_center, arrow_geometry_cross, arrow_geometry_head_inset, u16_max.
  rewrite Hc. clearbody g c. destruct Hs as [-> | ->]; Z.to_euclidean_division_equations; lia.
Qed.

Lemma arrow_in_frame_witness :
  4 ≤ arrow_geometry_packet_travel (arrow_geometry_new 0 u16_max u16_max).
Proof. apply (arrow_in_frame 0 u16_max u16_max ConnKind_Active); vm_compute; split; discriminate. Defined.

(** The steps [then] and [via] are to build: a connector leads from each step to the
    next, the one that was named or a plain one, and none leads on from the last. *)
Fixpoint linked (l : list (option Connection * Html)) : list Step :=
  match l with
  | [] => []
  | p :: l => mkStep p.2 (match l with [] => None | q :: _ => Some (default (connection_new ConnKind_Normal) q.1) end) :: linked l
  end.

Lemma linked_snoc l p :
  linked (l ++ [p]) =
    on_last (λ prev, mkStep (step_body prev) (Some (default (connection_new ConnKind_Normal) p.1))) (linked l) ++ [mkStep p.2 None].
Proof.
  induction l as [|q l IH]; [done|]. cbn [linked app]. rewrite IH. destruct l as [|q' l]; [done|].
  cbn [linked app on_last]. done.
Qed.

Lemma flow_builds `{Escaper} (caption : str) (l : list (option Connection * Html)) :
  fold_left (λ f p, flow_push p.1 p.2 f) l (flow_new caption) = mkFlow (linked l) caption.
Proof.
  induction l as [|p l IH] using rev_ind; [done|]. rewrite fold_left_app, IH. cbn [fold_left]. unfold flow_push.
  rewrite linked_snoc. done.
Qed.
