(* ===== verification/Dashboard.v ===== *)
(** * Dashboard: cards and control-plane diagrams

    Model of the components the dashboard fills with an organisation's data: content.rs,
    access.rs, decision.rs and policy.rs of [skimasque-visual], the run cards of
    motif.rs, and the diagrams of diagrams/control.rs.  Types and conventions are those
    of [Visual].

    Beside containment: what a code example offers to copy is the commands it shows;
    a card names the verdict it was given; the diagrams state what they were handed. *)

From S2P Require Import Prelude RustStr Markup Visual.

Section dashboard.
Context `{Escaper}.

(** ** content.rs *)

Record Planned : Type := mkPlanned {
  planned_note : option str
}.
Definition planned_new : Planned := mkPlanned None.
Definition planned_with_note (note : str) (self : Planned) : Planned := mkPlanned (Some note).
Definition render_Planned (self : Planned) : str :=
  markup "<span class='v-planned'><span aria-hidden='true'>◇</span> PLANNED" ++
  match planned_note self with
  | Some n =>
    markup "<span class='v-sr'> — " ++
    text n ++
    markup "</span>"
  | None => []
  end ++
  markup "</span>".
#[global] Instance planned_render : Render Planned := render_Planned.

Record EmptyState : Type := mkEmptyState {
  empty_state_title : str; empty_state_lines : list str; empty_state_action : option (str * str);
  empty_state_level : Z
}.
Definition empty_state_new (title : str) (lines : list str) : EmptyState := mkEmptyState title lines None 3.
Definition empty_state_with_level (n : Z) (self : EmptyState) : EmptyState :=
  mkEmptyState (empty_state_title self) (empty_state_lines self) (empty_state_action self) (clamp 2 6 n).
Definition empty_state_with_action (label href : str) (self : EmptyState) : EmptyState :=
  mkEmptyState (empty_state_title self) (empty_state_lines self) (Some (label, href)) (empty_state_level self).
Definition empty_state_no_policies (create_href : str) : EmptyState :=
  empty_state_with_action "Create Policy" create_href
    (empty_state_new "No policies yet."
       [of_string "Create your first policy to give a workload"; of_string "temporary access to private infrastructure."]).
Definition empty_state_no_sessions : EmptyState :=
  empty_state_new "No active sessions."
    [of_string "When a workload or developer receives access,"; of_string "its active session will appear here."].
Definition empty_state_no_gateways (add_href : str) : EmptyState :=
  empty_state_with_action "Add Gateway" add_href
    (empty_state_new "No gateways connected."
       [of_string "Add a gateway to provide a network path"; of_string "to your infrastructure."]).
Definition render_EmptyState (self : EmptyState) : str :=
  markup "<div class='v-empty'><h" ++
  text (to_string (empty_state_level self)) ++
  markup " class='v-empty-title'>" ++
  text (empty_state_title self) ++
  markup "</h" ++
  text (to_string (empty_state_level self)) ++
  markup "><p class='v-empty-body'>" ++
  each (empty_state_lines self) (λ l,
    markup "<span>" ++
    text l ++
    markup "</span>") ++
  markup "</p>" ++
  match empty_state_action self with
  | Some (label, href) =>
    markup "<a class='v-btn' href='" ++
    text href ++
    markup "'>" ++
    text label ++
    markup "</a>"
  | None => []
  end ++
  markup "</div>".
#[global] Instance empty_state_render : Render EmptyState := render_EmptyState.

Record CodeRow : Type := mkCodeRow {
  code_row_class : str; code_row_prompt : bool; code_row_text : str
}.
Record CodeExample : Type := mkCodeExample {
  code_example_label : str; code_example_code : str
}.
Definition code_example_row (l : str) : CodeRow :=
  match strip_prefix "$ " l, starts_with "# " l with
  | Some cmd, _ => mkCodeRow "v-code-cmd" true cmd
  | None, true => mkCodeRow "v-code-comment" false l
  | _, _ => mkCodeRow "v-code-out" false l
  end.
Definition code_example_rows (self : CodeExample) : list CodeRow := map code_example_row (lines (code_example_code self)).
(** The command of a line goes on when the line ends in a backslash. *)
Definition goes_on (l : str) : bool := ends_with [92] (trim_end l).
Fixpoint copied_lines (continued : bool) (ls : list str) : list str :=
  match ls with
  | [] => []
  | l :: ls =>
      if continued then l :: copied_lines (goes_on l) ls
      else match strip_prefix "$ " l with
           | Some cmd => cmd :: copied_lines (goes_on cmd) ls
           | None => copied_lines false ls
           end
  end.
Fixpoint join_lines (ls : list str) : str :=
  match ls with
  | [] => []
  | [l] => l
  | l :: ls => l ++ [10] ++ join_lines ls
  end.
Definition code_example_copy_text (self : CodeExample) : option str :=
  let out := copied_lines false (lines (code_example_code self)) in
  if is_empty out then None else Some (join_lines out).
Definition render_CodeExample (self : CodeExample) : str :=
  markup "<figure class='v-code'" ++
  match code_example_copy_text self with
  | Some c =>
    markup " data-copy='" ++
    text c ++
    markup "'"
  | None => []
  end ++
  markup "><figcaption class='v-code-label'>" ++
  text (code_example_label self) ++
  markup "</figcaption><pre class='v-code-body'>" ++
  each (code_example_rows self) (λ r,
    markup "<span class='" ++
    text (code_row_class r) ++
    markup "'>" ++
    (if code_row_prompt r then
      markup "<span class='v-code-prompt' aria-hidden='true'>$ </span>"
     else []) ++
    text (code_row_text r) ++
    markup "</span>
") ++
  markup "</pre></figure>".
#[global] Instance code_example_render : Render CodeExample := render_CodeExample.

(** ** The run cards of motif.rs *)

Inductive Run : Type :=
  | Run_Green | Run_Blue | Run_Black.
Definition run_name (self : Run) : str :=
  match self with
  | Run_Green => "Green Run"
  | Run_Blue => "Blue Run"
  | Run_Black => "Black Run"
  end.
Definition run_shape (self : Run) : Shape :=
  match self with
  | Run_Green => Shape_Circle
  | Run_Blue => Shape_Square
  | Run_Black => Shape_Diamond
  end.
Definition run_tone (self : Run) : Tone :=
  match self with
  | Run_Green => Tone_Active
  | Run_Blue => Tone_Info
  | Run_Black => Tone_Neutral
  end.
Record RunCard : Type := mkRunCard {
  run_card_run : Run; run_card_technical : str; run_card_lines : list str; run_card_planned : option str
}.
Definition run_card_new (run : Run) (technical : str) (lines : list str) : RunCard := mkRunCard run technical lines None.
Definition run_card_with_planned (note : str) (self : RunCard) : RunCard :=
  mkRunCard (run_card_run self) (run_card_technical self) (run_card_lines self) (Some note).
Definition run_card_marker_html (self : RunCard) : Html :=
  html (trail_marker_new (run_shape (run_card_run self)) (run_tone (run_card_run self)) (run_name (run_card_run self))).
Definition run_card_planned_marker (self : RunCard) : Html := html planned_new.
Definition render_RunCard (self : RunCard) : str :=
  markup "<article class='v-card v-run-card'><header class='v-card-head'><h3 class='v-card-title'>" ++
  render (run_card_marker_html self) ++
  markup "</h3></header><p class='v-run-tech'>" ++
  text (run_card_technical self) ++
  markup "</p>" ++
  (if negb (is_empty (run_card_lines self)) then
    markup "<ul class='v-run-lines'>" ++
    each (run_card_lines self) (λ l,
      markup "<li>" ++
      text l ++
      markup "</li>") ++
    markup "</ul>"
   else []) ++
  match run_card_planned self with
  | Some n =>
    markup "<p class='v-run-planned'>" ++
    text n ++
    markup " " ++
    render (run_card_planned_marker self) ++
    markup "</p>"
  | None => []
  end ++
  markup "</article>".
#[global] Instance run_card_render : Render RunCard := render_RunCard.

(** ** access.rs *)

Record SessionCard : Type := mkSessionCard {
  session_card_identity : str; session_card_target : str; session_card_gateway : str;
  session_card_status : Status; session_card_remaining_pct : Z; session_card_remaining_label : str;
  session_card_level : Z; session_card_href : option str
}.
Definition session_card_new (identity target gateway : str) (status : Status) (remaining_pct : Z) (remaining_label : str) : SessionCard :=
  mkSessionCard identity target gateway status remaining_pct remaining_label 3 None.
Definition session_card_with_level (n : Z) (self : SessionCard) : SessionCard :=
  mkSessionCard (session_card_identity self) (session_card_target self) (session_card_gateway self) (session_card_status self)
    (session_card_remaining_pct self) (session_card_remaining_label self) (clamp 2 6 n) (session_card_href self).
Definition session_card_with_href (href : str) (self : SessionCard) : SessionCard :=
  mkSessionCard (session_card_identity self) (session_card_target self) (session_card_gateway self) (session_card_status self)
    (session_card_remaining_pct self) (session_card_remaining_label self) (session_card_level self) (Some href).
Definition session_card_pct (self : SessionCard) : Z := Z.min (session_card_remaining_pct self) 100.
Definition session_card_status_html (self : SessionCard) : Html := html (mkStatusBadge (session_card_status self)).
Definition render_SessionCard (self : SessionCard) : str :=
  markup "<article class='v-card v-session-card'><header class='v-card-head'><h" ++
  text (to_string (session_card_level self)) ++
  markup " class='v-card-title'>" ++
  match session_card_href self with
  | Some h =>
    markup "<a href='" ++
    text h ++
    markup "'>" ++
    text (session_card_identity self) ++
    markup "</a>"
  | None => text (session_card_identity self)
  end ++
  markup "</h" ++
  text (to_string (session_card_level self)) ++
  markup ">" ++
  render (session_card_status_html self) ++
  markup "</header><p class='v-session-route'><span>" ++
  text (session_card_target self) ++
  markup "</span> <span class='v-card-meta'>via " ++
  text (session_card_gateway self) ++
  markup "</span></p><div class='v-session-time'><div class='v-bar' role='progressbar' aria-label='Session time remaining' aria-valuemin='0' aria-valuemax='100' aria-valuenow='" ++
  text (to_string (session_card_pct self)) ++
  markup "'><span class='v-bar-fill' style='width: " ++
  text (to_string (session_card_pct self)) ++
  markup "%'></span></div><span class='v-card-meta'>" ++
  text (session_card_remaining_label self) ++
  markup "</span></div></article>".
#[global] Instance session_card_render : Render SessionCard := render_SessionCard.

Record TimelineEvent : Type := mkTimelineEvent {
  timeline_event_time : str; timeline_event_label : str; timeline_event_tone : Tone
}.
Definition timeline_event_new (time label : str) (tone : Tone) : TimelineEvent := mkTimelineEvent time label tone.
Record SessionTimeline : Type := mkSessionTimeline {
  session_timeline_events : list TimelineEvent
}.
Definition session_timeline_new (events : list TimelineEvent) : SessionTimeline := mkSessionTimeline events.
Definition render_SessionTimeline (self : SessionTimeline) : str :=
  (if is_empty (session_timeline_events self) then
    markup "<p class='v-timeline-empty'>No events</p>"
   else markup "<ol class='v-timeline'>" ++
    each (session_timeline_events self) (λ e,
      markup "<li class='v-timeline-event v-tone-" ++
      text (tone_class (timeline_event_tone e)) ++
      markup "'><span class='v-timeline-dot' aria-hidden='true'></span><time class='v-timeline-time'>" ++
      text (timeline_event_time e) ++
      markup "</time><span class='v-timeline-label'>" ++
      text (timeline_event_label e) ++
      markup "</span></li>") ++
    markup "</ol>").
#[global] Instance session_timeline_render : Render SessionTimeline := render_SessionTimeline.

Record GatewayCard : Type := mkGatewayCard {
  gateway_card_name : str; gateway_card_region : str; gateway_card_status : Status;
  gateway_card_last_heartbeat : str; gateway_card_sessions : Z; gateway_card_egress_ip : option str;
  gateway_card_level : Z; gateway_card_href : option str
}.
Definition gateway_card_new (name region : str) (status : Status) (last_heartbeat : str) (sessions : Z) : GatewayCard :=
  mkGatewayCard name region status last_heartbeat sessions None 3 None.
Definition gateway_card_with_level (n : Z) (self : GatewayCard) : GatewayCard :=
  mkGatewayCard (gateway_card_name self) (gateway_card_region self) (gateway_card_status self) (gateway_card_last_heartbeat self)
    (gateway_card_sessions self) (gateway_card_egress_ip self) (clamp 2 6 n) (gateway_card_href self).
Definition gateway_card_with_href (href : str) (self : GatewayCard) : GatewayCard :=
  mkGatewayCard (gateway_card_name self) (gateway_card_region self) (gateway_card_status self) (gateway_card_last_heartbeat self)
    (gateway_card_sessions self) (gateway_card_egress_ip self) (gateway_card_level self) (Some href).
Definition gateway_card_with_egress_ip (ip : str) (self : GatewayCard) : GatewayCard :=
  mkGatewayCard (gateway_card_name self) (gateway_card_region self) (gateway_card_status self) (gateway_card_last_heartbeat self)
    (gateway_card_sessions self) (Some ip) (gateway_card_level self) (gateway_card_href self).
Definition gateway_card_status_html (self : GatewayCard) : Html := html (mkStatusBadge (gateway_card_status self)).
Definition gateway_card_planned_html (self : GatewayCard) : Html :=
  html (planned_with_note "per-gateway egress IP is not available yet" planned_new).
Definition render_GatewayCard (self : GatewayCard) : str :=
  markup "<article class='v-card v-gateway-card v-tone-edge'><header class='v-card-head'><h" ++
  text (to_string (gateway_card_level self)) ++
  markup " class='v-card-title'>" ++
  match gateway_card_href self with
  | Some h =>
    markup "<a href='" ++
    text h ++
    markup "'>" ++
    text (gateway_card_name self) ++
    markup "</a>"
  | None => text (gateway_card_name self)
  end ++
  markup "</h" ++
  text (to_string (gateway_card_level self)) ++
  markup ">" ++
  render (gateway_card_status_html self) ++
  markup "</header><dl class='v-facts'><div><dt>Region</dt><dd>" ++
  text (gateway_card_region self) ++
  markup "</dd></div><div><dt>Last heartbeat</dt><dd>" ++
  text (gateway_card_last_heartbeat self) ++
  markup "</dd></div><div><dt>Active sessions</dt><dd>" ++
  text (to_string (gateway_card_sessions self)) ++
  markup "</dd></div><div><dt>Egress IP</dt><dd>" ++
  match gateway_card_egress_ip self with
  | Some ip =>
    text ip
  | None => render (gateway_card_planned_html self)
  end ++
  markup "</dd></div></dl></article>".
#[global] Instance gateway_card_render : Render GatewayCard := render_GatewayCard.

Record HealthCard : Type := mkHealthCard {
  health_card_title : str; health_card_status : Status; health_card_detail : str; health_card_level : Z
}.
Definition health_card_new (title : str) (status : Status) (detail : str) : HealthCard := mkHealthCard title status detail 3.
Definition health_card_with_level (n : Z) (self : HealthCard) : HealthCard :=
  mkHealthCard (health_card_title self) (health_card_status self) (health_card_detail self) (clamp 2 6 n).
Definition health_card_status_html (self : HealthCard) : Html := html (mkStatusBadge (health_card_status self)).
Definition render_HealthCard (self : HealthCard) : str :=
  markup "<article class='v-card v-health-card'><header class='v-card-head'><h" ++
  text (to_string (health_card_level self)) ++
  markup " class='v-card-title'>" ++
  text (health_card_title self) ++
  markup "</h" ++
  text (to_string (health_card_level self)) ++
  markup ">" ++
  render (health_card_status_html self) ++
  markup "</header><p class='v-card-meta'>" ++
  text (health_card_detail self) ++
  markup "</p></article>".
#[global] Instance health_card_render : Render HealthCard := render_HealthCard.

Record IdentityCard : Type := mkIdentityCard {
  identity_card_name : str; identity_card_source : str; identity_card_last_seen : option str;
  identity_card_policies : Z; identity_card_level : Z; identity_card_href : option str
}.
Definition identity_card_new (name source : str) (policies : Z) : IdentityCard := mkIdentityCard name source None policies 3 None.
Definition identity_card_with_level (n : Z) (self : IdentityCard) : IdentityCard :=
  mkIdentityCard (identity_card_name self) (identity_card_source self) (identity_card_last_seen self) (identity_card_policies self)
    (clamp 2 6 n) (identity_card_href self).
Definition identity_card_with_href (href : str) (self : IdentityCard) : IdentityCard :=
  mkIdentityCard (identity_card_name self) (identity_card_source self) (identity_card_last_seen self) (identity_card_policies self)
    (identity_card_level self) (Some href).
Definition identity_card_with_last_seen (when : str) (self : IdentityCard) : IdentityCard :=
  mkIdentityCard (identity_card_name self) (identity_card_source self) (Some when) (identity_card_policies self)
    (identity_card_level self) (identity_card_href self).
Definition identity_card_policy_count (self : IdentityCard) : str :=
  if identity_card_policies self =? 1 then "1 policy" else to_string (identity_card_policies self) ++ " policies".
Definition render_IdentityCard (self : IdentityCard) : str :=
  markup "<article class='v-card v-identity-card'><header class='v-card-head'><h" ++
  text (to_string (identity_card_level self)) ++
  markup " class='v-card-title'>" ++
  match identity_card_href self with
  | Some h =>
    markup "<a href='" ++
    text h ++
    markup "'>" ++
    text (identity_card_name self) ++
    markup "</a>"
  | None => text (identity_card_name self)
  end ++
  markup "</h" ++
  text (to_string (identity_card_level self)) ++
  markup "><span class='v-card-meta'>" ++
  text (identity_card_source self) ++
  markup "</span></header><p class='v-card-meta'>" ++
  match identity_card_last_seen self with
  | Some w =>
    markup "last seen " ++
    text w
  | None => markup "never seen"
  end ++
  markup " · " ++
  text (identity_card_policy_count self) ++
  markup "</p></article>".
#[global] Instance identity_card_render : Render IdentityCard := render_IdentityCard.

(** ** decision.rs *)

Definition DIMENSIONS : list str := map of_string ["Identity"; "Application"; "Destination"; "Limits"; "Policy active"].
Record Check : Type := mkCheck {
  check_label : str; check_pass : bool; check_detail : option str; check_narrated : bool
}.
Definition check_new_pass (label : str) : Check := mkCheck label true None false.
Definition check_new_fail (label : str) : Check := mkCheck label false None false.
Definition check_step (text : str) (pass : bool) : Check := mkCheck text pass None true.
Definition check_with_detail (detail : str) (self : Check) : Check :=
  mkCheck (check_label self) (check_pass self) (Some detail) (check_narrated self).

(** [decision_html], the same in every component that has one. *)
Definition decision_html (allow technical : bool) : Html :=
  let b := decision_badge_new allow in html (if technical then decision_badge_with_technical b else b).

Record DecisionExplainer : Type := mkDecisionExplainer {
  decision_explainer_checks : list Check; decision_explainer_allow : bool; decision_explainer_reason : str;
  decision_explainer_technical : bool
}.
Definition decision_explainer_new (checks : list Check) (allow : bool) (reason : str) : DecisionExplainer :=
  mkDecisionExplainer checks allow reason false.
Definition decision_explainer_with_technical (self : DecisionExplainer) : DecisionExplainer :=
  mkDecisionExplainer (decision_explainer_checks self) (decision_explainer_allow self) (decision_explainer_reason self) true.
Definition decision_explainer_decision_html (self : DecisionExplainer) : Html :=
  decision_html (decision_explainer_allow self) (decision_explainer_technical self).
Definition render_DecisionExplainer (self : DecisionExplainer) : str :=
  markup "<div class='v-explain'>" ++
  (if negb (is_empty (decision_explainer_checks self)) then
    markup "<ul class='v-checks'>" ++
    each (decision_explainer_checks self) (λ c,
      markup "<li class='v-check " ++
      (if check_pass c then
        markup "v-check-pass"
       else markup "v-check-fail") ++
      markup "'><span class='v-check-glyph' aria-hidden='true'>" ++
      (if check_pass c then
        markup "✓"
       else markup "<svg class='v-denial-mark' viewBox='0 0 12 12' width='12' height='12' fill='none' stroke='currentColor' stroke-width='2' stroke-linecap='round' aria-hidden='true' focusable='false'><path d='M3 3 L9 9 M9 3 L3 9'/></svg>
") ++
      markup "</span><span class='v-check-label'>" ++
      text (check_label c) ++
      markup "</span>" ++
      (if check_narrated c then
        markup "<span class='v-sr'>" ++
        (if check_pass c then
          markup "passed"
         else markup "failed") ++
        markup "</span>"
       else markup "<span class='v-check-word'>" ++
        (if check_pass c then
          markup "matched"
         else markup "did not match") ++
        markup "</span>") ++
      match check_detail c with
      | Some d =>
        markup "<span class='v-check-detail'>" ++
        text d ++
        markup "</span>"
      | None => []
      end ++
      markup "</li>") ++
    markup "</ul>"
   else []) ++
  markup "<div class='v-explain-result'>" ++
  render (decision_explainer_decision_html self) ++
  markup "<p class='v-explain-reason'>" ++
  text (decision_explainer_reason self) ++
  markup "</p></div></div>".
#[global] Instance decision_explainer_render : Render DecisionExplainer := render_DecisionExplainer.

Record DecisionCard : Type := mkDecisionCard {
  decision_card_allow : bool; decision_card_who : str; decision_card_target : str;
  decision_card_policy : option str; decision_card_when : str; decision_card_technical : bool
}.
Definition decision_card_new (allow : bool) (who target when : str) : DecisionCard := mkDecisionCard allow who target None when false.
Definition decision_card_with_policy (policy : str) (self : DecisionCard) : DecisionCard :=
  mkDecisionCard (decision_card_allow self) (decision_card_who self) (decision_card_target self) (Some policy)
    (decision_card_when self) (decision_card_technical self).
Definition decision_card_with_technical (self : DecisionCard) : DecisionCard :=
  mkDecisionCard (decision_card_allow self) (decision_card_who self) (decision_card_target self) (decision_card_policy self)
    (decision_card_when self) true.
Definition decision_card_decision_html (self : DecisionCard) : Html :=
  decision_html (decision_card_allow self) (decision_card_technical self).
Definition render_DecisionCard (self : DecisionCard) : str :=
  markup "<article class='v-card v-decision-card'><header class='v-card-head'>" ++
  render (decision_card_decision_html self) ++
  markup "<time class='v-card-meta'>" ++
  text (decision_card_when self) ++
  markup "</time></header><p class='v-decision-line'><span class='v-decision-who'>" ++
  text (decision_card_who self) ++
  markup "</span> <span aria-hidden='true'>→</span> <span class='v-sr'>to</span> <span class='v-decision-target'>" ++
  text (decision_card_target self) ++
  markup "</span></p>" ++
  match decision_card_policy self with
  | Some p =>
    markup "<p class='v-card-meta'>Policy " ++
    text p ++
    markup "</p>"
  | None => []
  end ++
  markup "</article>".
#[global] Instance decision_card_render : Render DecisionCard := render_DecisionCard.

Record AuditEventCard : Type := mkAuditEventCard {
  audit_event_card_card : DecisionCard; audit_event_card_reason : str;
  audit_event_card_explainer : option DecisionExplainer; audit_event_card_technical : bool
}.
Definition audit_event_card_new (card : DecisionCard) (reason : str) : AuditEventCard := mkAuditEventCard card reason None false.
Definition audit_event_card_with_explainer (e : DecisionExplainer) (self : AuditEventCard) : AuditEventCard :=
  mkAuditEventCard (audit_event_card_card self) (audit_event_card_reason self) (Some e) (audit_event_card_technical self).
Definition audit_event_card_with_technical (self : AuditEventCard) : AuditEventCard :=
  mkAuditEventCard (audit_event_card_card self) (audit_event_card_reason self) (audit_event_card_explainer self) true.
Definition audit_event_card_card_html (self : AuditEventCard) : Html :=
  let c := audit_event_card_card self in
  html (if audit_event_card_technical self then decision_card_with_technical c else c).
Definition audit_event_card_explainer_html (self : AuditEventCard) : option Html :=
  (λ e, html (if audit_event_card_technical self then decision_explainer_with_technical e else e)) <$>
    audit_event_card_explainer self.
Definition render_AuditEventCard (self : AuditEventCard) : str :=
  markup "<div class='v-audit-event'>" ++
  render (audit_event_card_card_html self) ++
  markup "<p class='v-audit-reason'>" ++
  text (audit_event_card_reason self) ++
  markup "</p>" ++
  match audit_event_card_explainer_html self with
  | Some e =>
    markup "<details class='v-audit-why'><summary>Why?</summary>" ++
    render e ++
    markup "</details>"
  | None => []
  end ++
  markup "</div>".
#[global] Instance audit_event_card_render : Render AuditEventCard := render_AuditEventCard.

(** ** policy.rs *)

Record PolicySummary : Type := mkPolicySummary {
  policy_summary_who : str; policy_summary_what : str; policy_summary_target : str;
  policy_summary_limits : str
}.
Definition policy_summary_new (who what target limits : str) : PolicySummary := mkPolicySummary who what target limits.
Definition render_PolicySummary (self : PolicySummary) : str :=
  markup "<dl class='v-summary'><div><dt>WHO</dt><dd>" ++
  text (policy_summary_who self) ++
  markup "</dd></div><div><dt>WHAT</dt><dd>" ++
  text (policy_summary_what self) ++
  markup "</dd></div><div><dt>WHERE</dt><dd>" ++
  text (policy_summary_target self) ++
  markup "</dd></div><div><dt>LIMITS</dt><dd>" ++
  text (policy_summary_limits self) ++
  markup "</dd></div></dl>".
#[global] Instance policy_summary_render : Render PolicySummary := render_PolicySummary.

Record PolicyCard : Type := mkPolicyCard {
  policy_card_name : str; policy_card_status : Status; policy_card_summary : PolicySummary;
  policy_card_meta : option str; policy_card_href : option str; policy_card_level : Z
}.
Definition policy_card_new (name : str) (status : Status) (summary : PolicySummary) : PolicyCard :=
  mkPolicyCard name status summary None None 3.
Definition policy_card_with_level (n : Z) (self : PolicyCard) : PolicyCard :=
  mkPolicyCard (policy_card_name self) (policy_card_status self) (policy_card_summary self) (policy_card_meta self)
    (policy_card_href self) (clamp 2 6 n).
Definition policy_card_with_meta (meta : str) (self : PolicyCard) : PolicyCard :=
  mkPolicyCard (policy_card_name self) (policy_card_status self) (policy_card_summary self) (Some meta)
    (policy_card_href self) (policy_card_level self).
Definition policy_card_with_href (href : str) (self : PolicyCard) : PolicyCard :=
  mkPolicyCard (policy_card_name self) (policy_card_status self) (policy_card_summary self) (policy_card_meta self)
    (Some href) (policy_card_level self).
Definition policy_card_status_html (self : PolicyCard) : Html := html (mkStatusBadge (policy_card_status self)).
Definition policy_card_summary_html (self : PolicyCard) : Html := html (policy_card_summary self).
Definition render_PolicyCard (self : PolicyCard) : str :=
  markup "<article class='v-card v-policy-card'><header class='v-card-head'><h" ++
  text (to_string (policy_card_level self)) ++
  markup " class='v-card-title'>" ++
  match policy_card_href self with
  | Some h =>
    markup "<a href='" ++
    text h ++
    markup "'>" ++
    text (policy_card_name self) ++
    markup "</a>"
  | None => text (policy_card_name self)
  end ++
  markup "</h" ++
  text (to_string (policy_card_level self)) ++
  markup ">" ++
  render (policy_card_status_html self) ++
  markup "</header>" ++
  render (policy_card_summary_html self) ++
  match policy_card_meta self with
  | Some m =>
    markup "<footer class='v-card-meta'>" ++
    text m ++
    markup "</footer>"
  | None => []
  end ++
  markup "</article>".
#[global] Instance policy_card_render : Render PolicyCard := render_PolicyCard.

Record Layer : Type := mkLayer {
  layer_key : str; layer_title : str; layer_lines : list str
}.
Record PolicyExplorer : Type := mkPolicyExplorer {
  policy_explorer_who : list str; policy_explorer_what : list str; policy_explorer_target : list str;
  policy_explorer_limits : list str; policy_explorer_allow : bool; policy_explorer_reason : str;
  policy_explorer_technical : bool
}.
Definition policy_explorer_new (who what target limits : list str) (allow : bool) (reason : str) : PolicyExplorer :=
  mkPolicyExplorer who what target limits allow reason false.
Definition policy_explorer_with_technical (self : PolicyExplorer) : PolicyExplorer :=
  mkPolicyExplorer (policy_explorer_who self) (policy_explorer_what self) (policy_explorer_target self)
    (policy_explorer_limits self) (policy_explorer_allow self) (policy_explorer_reason self) true.
Definition policy_explorer_layers (self : PolicyExplorer) : list Layer :=
  [mkLayer "who" "WHO" (policy_explorer_who self);
   mkLayer "what" "WHAT" (policy_explorer_what self);
   mkLayer "where" "WHERE" (policy_explorer_target self);
   mkLayer "limits" "LIMITS" (policy_explorer_limits self)].
Definition policy_explorer_decision_html (self : PolicyExplorer) : Html :=
  decision_html (policy_explorer_allow self) (policy_explorer_technical self).
Definition render_PolicyExplorer (self : PolicyExplorer) : str :=
  markup "<div class='v-explorer' role='group' aria-label='Policy explorer'>" ++
  each (policy_explorer_layers self) (λ l,
    markup "<div class='v-layer' role='group' aria-label='" ++
    text (layer_title l) ++
    markup "' data-layer='" ++
    text (layer_key l) ++
    markup "'><p class='v-layer-title' aria-hidden='true'>" ++
    text (layer_title l) ++
    markup "</p>" ++
    (if is_empty (layer_lines l) then
      markup "<p class='v-layer-line v-layer-any'>any</p>"
     else markup "<ul class='v-layer-lines'>" ++
      each (layer_lines l) (λ line,
        markup "<li>" ++
        text line ++
        markup "</li>") ++
      markup "</ul>") ++
    markup "</div><span class='v-layer-link' aria-hidden='true'>↓</span>") ++
  markup "<div class='v-layer v-explorer-result' role='group' aria-label='Decision'>" ++
  render (policy_explorer_decision_html self) ++
  markup "<p class='v-layer-line'>" ++
  text (policy_explorer_reason self) ++
  markup "</p></div></div>".
#[global] Instance policy_explorer_render : Render PolicyExplorer := render_PolicyExplorer.

Inductive ChangeKind : Type :=
  | ChangeKind_Added | ChangeKind_Removed | ChangeKind_Changed.
Record Change : Type := mkChange {
  change_kind : ChangeKind; change_field : str; change_before : option str; change_after : option str
}.
Definition change_added (field after : str) : Change := mkChange ChangeKind_Added field None (Some after).
Definition change_removed (field before : str) : Change := mkChange ChangeKind_Removed field (Some before) None.
Definition change_changed (field before after : str) : Change := mkChange ChangeKind_Changed field (Some before) (Some after).
Definition change_class (self : Change) : str :=
  match change_kind self with
  | ChangeKind_Added => "added"
  | ChangeKind_Removed => "removed"
  | ChangeKind_Changed => "changed"
  end.
Definition change_glyph (self : Change) : str :=
  match change_kind self with
  | ChangeKind_Added => "+"
  | ChangeKind_Removed => lit "−"
  | ChangeKind_Changed => "~"
  end.
Record PolicyDiff : Type := mkPolicyDiff {
  policy_diff_changes : list Change
}.
Definition policy_diff_new (changes : list Change) : PolicyDiff := mkPolicyDiff changes.
Definition render_PolicyDiff (self : PolicyDiff) : str :=
  (if is_empty (policy_diff_changes self) then
    markup "<p class='v-diff-empty'>No changes</p>"
   else markup "<ul class='v-diff'>" ++
    each (policy_diff_changes self) (λ c,
      markup "<li class='v-diff-" ++
      text (change_class c) ++
      markup "'><span class='v-diff-glyph' aria-hidden='true'>" ++
      text (change_glyph c) ++
      markup "</span><span class='v-sr'>" ++
      text (change_class c) ++
      markup " </span><span class='v-diff-field'>" ++
      text (change_field c) ++
      markup "</span>" ++
      match change_before c with
      | Some b =>
        markup "<span class='v-diff-before'>" ++
        text b ++
        markup "</span>"
      | None => []
      end ++
      (if is_some (change_before c) && is_some (change_after c) then
        markup "<span aria-hidden='true'>→</span>"
       else []) ++
      match change_after c with
      | Some a =>
        markup "<span class='v-diff-after'>" ++
        text a ++
        markup "</span>"
      | None => []
      end ++
      markup "</li>") ++
    markup "</ul>").
#[global] Instance policy_diff_render : Render PolicyDiff := render_PolicyDiff.

(** ** diagrams/control.rs *)

Definition plural (n : Z) (one many : str) : str := to_string n ++ " " ++ (if n =? 1 then one else many).
Record GatewayRef : Type := mkGatewayRef {
  gateway_ref_name : str; gateway_ref_region : str; gateway_ref_status : Status
}.

Definition identity_flow (source identity : str) (policy : option str) : Flow :=
  let who := node_with_sub source (node_with_label identity (node_new NodeKind_Identity)) in
  match policy with
  | Some p =>
      flow_via (connection_with_label "matches" (connection_new ConnKind_Control))
        (node_with_status Status_Granted (node_with_label p (node_new NodeKind_Policy)))
        (flow_then who
           (flow_new (identity ++ " from " ++ source ++ " matches the policy " ++ p ++ ", so access is granted.")))
  | None =>
      flow_via (connection_new ConnKind_Denied)
        (node_with_status Status_Denied (node_with_label "No matching policy" (node_new NodeKind_Deny)))
        (flow_then who (flow_new (identity ++ " from " ++ source ++ " matches no policy, so access is denied.")))
  end.

#[global] Instance Status_eq_dec : EqDecision Status.
Proof. solve_decision. Defined.
(** The words of a status are ASCII: [to_lowercase] is [to_ascii_lowercase]. *)
Definition session_flow (identity target gateway : str) (status : Status) : Flow :=
  let conn := if decide (status = Status_Active) then ConnKind_Active else ConnKind_Potential in
  flow_via (connection_new conn) (node_with_label target (node_new NodeKind_Service))
    (flow_via (connection_new conn) (node_with_label gateway (node_new NodeKind_Gateway))
       (flow_via (connection_new conn) (node_with_status status (node_new NodeKind_Session))
          (flow_then (node_with_label identity (node_new NodeKind_Identity))
             (flow_new (identity ++ "'s session (" ++ to_ascii_lowercase (status_word status) ++ ") goes through " ++
                        gateway ++ " to " ++ target ++ "."))))).

(** [gateways.len() as u32] keeps the low 32 bits. *)
Definition gateway_topology (gateways : list GatewayRef) : Branch :=
  let n := Z.of_nat (length gateways) mod 2 ^ 32 in
  let caption :=
    if is_empty gateways then of_string "No gateways connected."
    else "The control plane manages " ++ plural n "gateway" "gateways" ++ "." in
  let root :=
    node_with_sub (if is_empty gateways then of_string "No gateways connected" else plural n "gateway" "gateways")
      (node_new NodeKind_ControlPlane) in
  fold_left (λ b g,
      branch_arm (connection_new ConnKind_Control)
        (node_with_status (gateway_ref_status g)
           (node_with_sub (gateway_ref_region g) (node_with_label (gateway_ref_name g) (node_new NodeKind_Gateway)))) b)
    gateways (branch_new caption root).

Definition org_topology (org : str) (identities policies gateways : Z) : Flow :=
  flow_via (connection_new ConnKind_Control)
    (node_with_label (plural gateways "gateway" "gateways") (node_new NodeKind_Gateway))
    (flow_via (connection_new ConnKind_Control)
       (node_with_label (plural policies "policy" "policies") (node_new NodeKind_Policy))
       (flow_then
          (node_with_sub org (node_with_label (plural identities "identity" "identities") (node_new NodeKind_Identity)))
          (flow_new (org ++ " has " ++ plural identities "identity" "identities" ++ ", " ++
                     plural policies "policy" "policies" ++ " and " ++ plural gateways "gateway" "gateways" ++ ".")))).
End dashboard.

(** ** Containment *)

(** A card with a heading, level by level. *)
Tactic Notation "heading_component" reference(render) constr(level) :=
  intros Hlevel; unfold render; pattern level; apply (heading_level _ _ Hlevel); cbv beta; intros ?; piece.

Section containment.
Context `{EscapeLaws}.

Lemma planned_contained p : contained (render_Planned p).
Proof. component render_Planned. Qed.
#[local] Hint Resolve planned_contained : contained.

Lemma empty_state_contained e : 2 ≤ empty_state_level e ≤ 6 → contained (render_EmptyState e).
Proof. heading_component render_EmptyState (empty_state_level e). Qed.
Lemma code_example_contained c : contained (render_CodeExample c).
Proof. component render_CodeExample. Qed.
Lemma run_card_contained c : contained (render_RunCard c).
Proof. component render_RunCard. Qed.
Lemma session_card_contained c : 2 ≤ session_card_level c ≤ 6 → contained (render_SessionCard c).
Proof. heading_component render_SessionCard (session_card_level c). Qed.
Lemma session_timeline_contained t : contained (render_SessionTimeline t).
Proof. component render_SessionTimeline. Qed.
Lemma gateway_card_contained c : 2 ≤ gateway_card_level c ≤ 6 → contained (render_GatewayCard c).
Proof. heading_component render_GatewayCard (gateway_card_level c). Qed.
Lemma health_card_contained c : 2 ≤ health_card_level c ≤ 6 → contained (render_HealthCard c).
Proof. heading_component render_HealthCard (health_card_level c). Qed.
Lemma identity_card_contained c : 2 ≤ identity_card_level c ≤ 6 → contained (render_IdentityCard c).
Proof. heading_component render_IdentityCard (identity_card_level c). Qed.

Lemma decision_html_contained allow technical : contained (decision_html allow technical).
Proof. exact (decision_badge_contained _). Qed.
#[local] Hint Resolve decision_html_contained : contained.
Lemma decision_explainer_contained e : contained (render_DecisionExplainer e).
Proof. component render_DecisionExplainer. Qed.
Lemma decision_card_contained c : contained (render_DecisionCard c).
Proof. component render_DecisionCard. Qed.
Lemma audit_event_card_contained c : contained (render_AuditEventCard c).
Proof.
  component render_AuditEventCard.
  - exact (decision_card_contained _).
  - unfold audit_event_card_explainer_html in *. destruct (audit_event_card_explainer c); simplify_eq/=.
    exact (decision_explainer_contained _).
Qed.

Lemma policy_summary_contained s : contained (render_PolicySummary s).
Proof. component render_PolicySummary. Qed.
#[local] Hint Resolve policy_summary_contained : contained.
Lemma policy_card_contained c : 2 ≤ policy_card_level c ≤ 6 → contained (render_PolicyCard c).
Proof. heading_component render_PolicyCard (policy_card_level c). Qed.
Lemma policy_explorer_contained e : contained (render_PolicyExplorer e).
Proof. component render_PolicyExplorer. Qed.
Lemma policy_diff_contained d : contained (render_PolicyDiff d).
Proof. component render_PolicyDiff. Qed.

(** The diagrams of the control plane. *)
Lemma identity_flow_contained source identity policy : contained (render_Flow (identity_flow source identity policy)).
Proof. apply flow_contained. destruct policy; repeat apply flow_push_ok; try exact (node_contained _); apply flow_new_ok. Qed.
Lemma session_flow_contained identity target gateway status :
  contained (render_Flow (session_flow identity target gateway status)).
Proof. apply flow_contained. repeat apply flow_push_ok; try exact (node_contained _); apply flow_new_ok. Qed.
Lemma org_topology_contained org identities policies gateways :
  contained (render_Flow (org_topology org identities policies gateways)).
Proof. apply flow_contained. repeat apply flow_push_ok; try exact (node_contained _); apply flow_new_ok. Qed.
Lemma gateway_topology_contained gateways : contained (render_Branch (gateway_topology gateways)).
Proof.
  apply branch_contained. unfold gateway_topology. cbv zeta.
  apply (branch_arms_ok (λ _, connection_new ConnKind_Control)); [intros g; exact (node_contained _)|].
  apply branch_new_ok. exact (node_contained _).
Qed.
End containment.

#[export] Hint Resolve planned_contained empty_state_contained code_example_contained run_card_contained session_card_contained
  session_timeline_contained gateway_card_contained health_card_contained identity_card_contained decision_html_contained
  decision_explainer_contained decision_card_contained audit_event_card_contained policy_summary_contained
  policy_card_contained policy_explorer_contained policy_diff_contained : contained.

(** ** Code examples *)

(** A code block as its author means it: commands with the lines that continue
    them, and lines that are only shown. *)
Inductive Entry : Type :=
  | Command (first : str) (more : list str)
  | Shown (line : str).

(** A line of a file. *)
Definition one_line (l : str) : Prop := 10 ∉ l ∧ strip_suffix [13] l = None.
Fixpoint continues (cmd : str) (more : list str) : Prop :=
  match more with
  | [] => goes_on cmd = false
  | l :: more => goes_on cmd = true ∧ one_line l ∧ continues l more
  end.
Definition entry_ok (e : Entry) : Prop :=
  match e with
  | Command first more => one_line ("$ " ++ first) ∧ continues first more
  | Shown l => one_line l ∧ strip_prefix "$ " l = None
  end.
Definition entry_lines (e : Entry) : list str :=
  match e with Command first more => ("$ " ++ first) :: more | Shown l => [l] end.
Definition entry_commands (e : Entry) : list str :=
  match e with Command first more => first :: more | Shown _ => [] end.
Definition unlines (ls : list str) : str := concat (map (λ l, l ++ [10]) ls).

Lemma lines_unlines ls : Forall one_line ls → lines (unlines ls) = ls.
Proof.
  intros Hl. unfold lines, unlines. induction Hl as [|l ls [H10 H13] Hl IH]; [done|].
  cbn [map concat]. rewrite <- app_assoc. cbn [app]. rewrite split_app by done.
  destruct (split 10 (concat (map (λ l, l ++ [10]) ls))) as [|s ss] eqn:Hs.
  { destruct ls as [|l' ls]; [discriminate Hs|]. cbn in Hs. rewrite <- app_assoc in Hs. cbn in Hs.
    inversion Hl as [|? ? [? ?] ?]; subst. by rewrite split_app in Hs. }
  assert (strip_cr l = l) as Hcr by (unfold strip_cr; by rewrite H13).
  assert (lines_of (l :: s :: ss) = strip_cr l :: lines_of (s :: ss)) as -> by (by destruct l).
  by rewrite IH, Hcr.
Qed.

Lemma copied_more cmd more rest : continues cmd more →
  copied_lines (goes_on cmd) (more ++ rest) = more ++ copied_lines false rest.
Proof.
  revert cmd. induction more as [|l more IH]; intros cmd Hc; cbn in Hc; [by rewrite Hc|].
  destruct Hc as (-> & _ & Hc). cbn. by rewrite IH.
Qed.

Lemma copied_entries es : Forall entry_ok es →
  copied_lines false (concat (map entry_lines es)) = concat (map entry_commands es).
Proof.
  induction 1 as [|e es He _ IH]; [done|]. destruct e as [first more|l]; cbn [map concat entry_lines entry_commands app copied_lines].
  - rewrite strip_prefix_app, copied_more, IH by apply He. done.
  - destruct He as [_ ->]. exact IH.
Qed.

Lemma continues_lines cmd more : continues cmd more → Forall one_line more.
Proof. revert cmd. induction more as [|l more IH]; intros cmd Hc; constructor; destruct Hc as (_ & Hl & Hc); eauto. Qed.

Lemma entry_one_line e : entry_ok e → Forall one_line (entry_lines e).
Proof.
  destruct e as [first more|l]; cbn; intros [H1 H2].
  - constructor; [exact H1|by eapply continues_lines].
  - constructor; [exact H1|constructor].
Qed.

(** The copy button takes the commands and nothing else: of a block with prompts,
    comments, output and continued commands it offers exactly what is to be typed, in
    order, and there is no button where there is nothing to type. *)
Theorem copies_commands (label : str) (es : list Entry) :
  Forall entry_ok es →
  code_example_copy_text (mkCodeExample label (unlines (concat (map entry_lines es)))) =
    match concat (map entry_commands es) with [] => None | cmds => Some (join_lines cmds) end.
Proof.
  intros He. unfold code_example_copy_text. cbn [code_example_code]. rewrite lines_unlines, copied_entries; [|exact He|].
  - by destruct (concat _).
  - apply Forall_concat, Forall_fmap. eapply Forall_impl; [exact He|]. apply entry_one_line.
Qed.

Definition sample_block : list Entry :=
  [Shown "# sign in first"; Command "skimasque login" []; Shown "signed in";
   Command ("skimasque exec " ++ [92]) [of_string "  -- psql db.prod"]].
Lemma copies_commands_witness :
  code_example_copy_text (mkCodeExample "shell" (unlines (concat (map entry_lines sample_block)))) =
    Some (join_lines [of_string "skimasque login"; "skimasque exec " ++ [92]; of_string "  -- psql db.prod"]).
Proof.
  rewrite copies_commands; [reflexivity|]. repeat apply Forall_cons_2; [..|constructor]; cbn; unfold one_line;
    repeat split; try (vm_compute; reflexivity); apply (bool_decide_unpack _); vm_compute; exact I.
Defined.
