(* ===== verification/SiteChrome.v ===== *)
(** * SiteChrome: the blocks of a page

    Model of chrome.rs of [skimasque-visual] (prose, heroes, sections, grids, tables,
    questions, tiers), of the navigation and the footer of site_chrome.rs and of the
    buttons of site/pages/mod.rs.  Conventions are those of [Visual].  The shell of a
    page ([SitePage]) puts these between scripts and stylesheets that are included as
    they are and is left out.

    The file ends with the theorem the containment lemmas are for: whatever is built
    from the components, nested as the library allows and filled with any texts, is
    contained.  The navigation marks at most one link as the current page, and does so
    on every page it lists. *)

From S2P Require Import Prelude RustStr Markup Visual Dashboard.

Section chrome.
Context `{Escaper}.

Record Cta : Type := mkCta {
  cta_label : str; cta_href : str; cta_primary : bool
}.
Definition cta_new_primary (label href : str) : Cta := mkCta label href true.
Definition cta_new_secondary (label href : str) : Cta := mkCta label href false.

Inductive Block : Type :=
  | Block_P (a0 : str) | Block_Lead (a0 : str) | Block_Sub (a0 : str) | Block_List (a0 : list str)
  | Block_Quote (a0 : str) | Block_Kv (a0 : str) (a1 : str).
Record Prose : Type := mkProse {
  prose_blocks : list Block
}.
Definition prose_new : Prose := mkProse [].
Definition prose_push (b : Block) (self : Prose) : Prose := mkProse (prose_blocks self ++ [b]).
Definition prose_p (t : str) : Prose → Prose := prose_push (Block_P t).
Definition prose_lead (t : str) : Prose → Prose := prose_push (Block_Lead t).
Definition prose_sub (t : str) : Prose → Prose := prose_push (Block_Sub t).
Definition prose_list (items : list str) : Prose → Prose := prose_push (Block_List items).
Definition prose_quote (t : str) : Prose → Prose := prose_push (Block_Quote t).
Definition prose_kv (k v : str) : Prose → Prose := prose_push (Block_Kv k v).
Definition render_Prose (self : Prose) : str :=
  markup "<div class='v-prose'>" ++
  each (prose_blocks self) (λ b,
    match b with
    | Block_P t =>
      markup "<p>" ++
      text t ++
      markup "</p>"
    | Block_Lead t =>
      markup "<p class='v-lead'>" ++
      text t ++
      markup "</p>"
    | Block_Sub t =>
      markup "<h3>" ++
      text t ++
      markup "</h3>"
    | Block_List items =>
      markup "<ul>" ++
      each items (λ i,
        markup "<li>" ++
        text i ++
        markup "</li>") ++
      markup "</ul>"
    | Block_Quote t =>
      markup "<blockquote>" ++
      text t ++
      markup "</blockquote>"
    | Block_Kv k v =>
      markup "<dl class='v-kv'><dt>" ++
      text k ++
      markup "</dt><dd>" ++
      text v ++
      markup "</dd></dl>"
    end) ++
  markup "</div>".
#[global] Instance prose_render : Render Prose := render_Prose.

Record Hero : Type := mkHero {
  hero_title : str; hero_eyebrow : option str; hero_leads : list str; hero_ctas : list Cta;
  hero_aside : option Html
}.
Definition hero_new (title : str) : Hero := mkHero title None [] [] None.
Definition hero_with_eyebrow (t : str) (self : Hero) : Hero :=
  mkHero (hero_title self) (Some t) (hero_leads self) (hero_ctas self) (hero_aside self).
Definition hero_lead (t : str) (self : Hero) : Hero :=
  mkHero (hero_title self) (hero_eyebrow self) (hero_leads self ++ [t]) (hero_ctas self) (hero_aside self).
Definition hero_cta (c : Cta) (self : Hero) : Hero :=
  mkHero (hero_title self) (hero_eyebrow self) (hero_leads self) (hero_ctas self ++ [c]) (hero_aside self).
Definition hero_with_aside {C} `{Render C} (c : C) (self : Hero) : Hero :=
  mkHero (hero_title self) (hero_eyebrow self) (hero_leads self) (hero_ctas self) (Some (html c)).
Definition render_Hero (self : Hero) : str :=
  markup "<section class='v-hero'><div class='v-wrap v-hero-grid'><div class='v-hero-copy'>" ++
  match hero_eyebrow self with
  | Some e =>
    markup "<p class='v-eyebrow'>" ++
    text e ++
    markup "</p>"
  | None => []
  end ++
  markup "<h1>" ++
  text (hero_title self) ++
  markup "</h1>" ++
  each (hero_leads self) (λ l,
    markup "<p class='v-lead'>" ++
    text l ++
    markup "</p>") ++
  (if negb (is_empty (hero_ctas self)) then
    markup "<p class='v-cta-row'>" ++
    each (hero_ctas self) (λ c,
      markup "<a class='v-btn" ++
      (if negb (cta_primary c) then
        markup " v-btn-quiet"
       else []) ++
      markup "' href='" ++
      text (cta_href c) ++
      markup "'>" ++
      text (cta_label c) ++
      markup "</a>") ++
    markup "</p>"
   else []) ++
  markup "</div>" ++
  match hero_aside self with
  | Some a =>
    markup "<div class='v-hero-aside'>" ++
    render a ++
    markup "</div>"
  | None => []
  end ++
  markup "</div></section>".
#[global] Instance hero_render : Render Hero := render_Hero.

(** The struct [Section]. *)
Record PageSection : Type := mkPageSection {
  page_section_title : str; page_section_id : option str; page_section_eyebrow : option str;
  page_section_alt : bool; page_section_bodies : list Html
}.
Definition page_section_new (title : str) : PageSection := mkPageSection title None None false [].
Definition page_section_with_id (id : str) (self : PageSection) : PageSection :=
  mkPageSection (page_section_title self) (Some id) (page_section_eyebrow self) (page_section_alt self) (page_section_bodies self).
Definition page_section_with_eyebrow (t : str) (self : PageSection) : PageSection :=
  mkPageSection (page_section_title self) (page_section_id self) (Some t) (page_section_alt self) (page_section_bodies self).
Definition page_section_with_alt (self : PageSection) : PageSection :=
  mkPageSection (page_section_title self) (page_section_id self) (page_section_eyebrow self) true (page_section_bodies self).
Definition page_section_push {C} `{Render C} (c : C) (self : PageSection) : PageSection :=
  mkPageSection (page_section_title self) (page_section_id self) (page_section_eyebrow self) (page_section_alt self)
    (page_section_bodies self ++ [html c]).
Definition render_PageSection (self : PageSection) : str :=
  markup "<section class='v-section" ++
  (if page_section_alt self then
    markup " v-section-alt"
   else []) ++
  markup "'" ++
  match page_section_id self with
  | Some i =>
    markup " id='" ++
    text i ++
    markup "'"
  | None => []
  end ++
  markup "><div class='v-wrap'>" ++
  match page_section_eyebrow self with
  | Some e =>
    markup "<p class='v-eyebrow'>" ++
    text e ++
    markup "</p>"
  | None => []
  end ++
  markup "<h2>" ++
  text (page_section_title self) ++
  markup "</h2>" ++
  each (page_section_bodies self) (λ b,
    render b) ++
  markup "</div></section>".
#[global] Instance page_section_render : Render PageSection := render_PageSection.

Record Feature : Type := mkFeature {
  feature_title : str; feature_body : str; feature_planned : option str
}.
Definition feature_marker (self : Feature) : Html := html planned_new.
Record FeatureGrid : Type := mkFeatureGrid {
  feature_grid_features : list Feature
}.
Definition feature_grid_new : FeatureGrid := mkFeatureGrid [].
Definition feature_grid_feature (title body : str) (self : FeatureGrid) : FeatureGrid :=
  mkFeatureGrid (feature_grid_features self ++ [mkFeature title body None]).
Definition feature_grid_planned (title body note : str) (self : FeatureGrid) : FeatureGrid :=
  mkFeatureGrid (feature_grid_features self ++ [mkFeature title body (Some note)]).
Definition render_FeatureGrid (self : FeatureGrid) : str :=
  markup "<div class='v-features'>" ++
  each (feature_grid_features self) (λ f,
    markup "<article class='v-feature'><h3>" ++
    text (feature_title f) ++
    markup "</h3><p>" ++
    text (feature_body f) ++
    markup "</p>" ++
    match feature_planned f with
    | Some n =>
      markup "<p class='v-run-planned'><span>" ++
      text n ++
      markup "</span> " ++
      render (feature_marker f) ++
      markup "</p>"
    | None => []
    end ++
    markup "</article>") ++
  markup "</div>".
#[global] Instance feature_grid_render : Render FeatureGrid := render_FeatureGrid.

Record CtaBand : Type := mkCtaBand {
  cta_band_title : str; cta_band_lines : list str; cta_band_ctas : list Cta
}.
Definition cta_band_new (title : str) : CtaBand := mkCtaBand title [] [].
Definition cta_band_line (t : str) (self : CtaBand) : CtaBand :=
  mkCtaBand (cta_band_title self) (cta_band_lines self ++ [t]) (cta_band_ctas self).
Definition cta_band_cta (c : Cta) (self : CtaBand) : CtaBand :=
  mkCtaBand (cta_band_title self) (cta_band_lines self) (cta_band_ctas self ++ [c]).
Definition render_CtaBand (self : CtaBand) : str :=
  markup "<section class='v-cta-band'><div class='v-wrap'><h2>" ++
  text (cta_band_title self) ++
  markup "</h2>" ++
  each (cta_band_lines self) (λ l,
    markup "<p>" ++
    text l ++
    markup "</p>") ++
  markup "<p class='v-cta-row'>" ++
  each (cta_band_ctas self) (λ c,
    markup "<a class='v-btn" ++
    (if negb (cta_primary c) then
      markup " v-btn-quiet"
     else []) ++
    markup "' href='" ++
    text (cta_href c) ++
    markup "'>" ++
    text (cta_label c) ++
    markup "</a>") ++
  markup "</p></div></section>".
#[global] Instance cta_band_render : Render CtaBand := render_CtaBand.

Record ComparisonTable : Type := mkComparisonTable {
  comparison_table_head : list str; comparison_table_rows : list (list str);
  comparison_table_highlight_last : bool
}.
Definition comparison_table_new (head : list str) : ComparisonTable := mkComparisonTable head [] false.
Definition comparison_table_row (cells : list str) (self : ComparisonTable) : ComparisonTable :=
  mkComparisonTable (comparison_table_head self) (comparison_table_rows self ++ [cells]) (comparison_table_highlight_last self).
Definition comparison_table_with_highlight_last (self : ComparisonTable) : ComparisonTable :=
  mkComparisonTable (comparison_table_head self) (comparison_table_rows self) true.
Definition comparison_table_is_last (self : ComparisonTable) (i : nat) : bool :=
  comparison_table_highlight_last self && (S i =? length (comparison_table_rows self))%nat.
Definition render_ComparisonTable (self : ComparisonTable) : str :=
  markup "<div class='v-table-wrap'><table class='v-table'><thead><tr>" ++
  each (comparison_table_head self) (λ h,
    markup "<th scope='col'>" ++
    text h ++
    markup "</th>") ++
  markup "</tr></thead><tbody>" ++
  eachi (comparison_table_rows self) (λ index_0 r,
    markup "<tr" ++
    (if comparison_table_is_last self index_0 then
      markup " class='v-row-highlight'"
     else []) ++
    markup ">" ++
    eachi r (λ index_1 c,
      (if (index_1 =? 0)%nat then
        markup "<th scope='row'>" ++
        text c ++
        markup "</th>"
       else markup "<td>" ++
        text c ++
        markup "</td>")) ++
    markup "</tr>") ++
  markup "</tbody></table></div>".
#[global] Instance comparison_table_render : Render ComparisonTable := render_ComparisonTable.

Record FaqItem : Type := mkFaqItem {
  faq_item_question : str; faq_item_answer : list str
}.
Record Faq : Type := mkFaq {
  faq_items : list FaqItem
}.
Definition faq_new : Faq := mkFaq [].
Definition faq_item (question : str) (answer : list str) (self : Faq) : Faq := mkFaq (faq_items self ++ [mkFaqItem question answer]).
Definition render_Faq (self : Faq) : str :=
  markup "<div class='v-faq'>" ++
  each (faq_items self) (λ i,
    markup "<details class='v-faq-item'><summary>" ++
    text (faq_item_question i) ++
    markup "</summary>" ++
    each (faq_item_answer i) (λ p,
      markup "<p>" ++
      text p ++
      markup "</p>") ++
    markup "</details>") ++
  markup "</div>".
#[global] Instance faq_render : Render Faq := render_Faq.

Record TierCard : Type := mkTierCard {
  tier_card_name : str; tier_card_price : str; tier_card_tagline : str; tier_card_includes : list str;
  tier_card_live : bool; tier_card_planned : option str
}.
Definition tier_card_new (name price tagline : str) : TierCard := mkTierCard name price tagline [] false None.
Definition tier_card_include (t : str) (self : TierCard) : TierCard :=
  mkTierCard (tier_card_name self) (tier_card_price self) (tier_card_tagline self) (tier_card_includes self ++ [t])
    (tier_card_live self) (tier_card_planned self).
Definition tier_card_with_live (self : TierCard) : TierCard :=
  mkTierCard (tier_card_name self) (tier_card_price self) (tier_card_tagline self) (tier_card_includes self) true
    (tier_card_planned self).
Definition tier_card_with_planned (note : str) (self : TierCard) : TierCard :=
  mkTierCard (tier_card_name self) (tier_card_price self) (tier_card_tagline self) (tier_card_includes self)
    (tier_card_live self) (Some note).
Definition tier_card_planned_html (self : TierCard) : Html := html planned_new.
Definition render_TierCard (self : TierCard) : str :=
  markup "<article class='v-card v-tier'><header class='v-card-head'><h3 class='v-card-title'>" ++
  text (tier_card_name self) ++
  markup "</h3>" ++
  (if tier_card_live self then
    markup "<span class='v-tier-live'>Available now</span>"
   else []) ++
  markup "</header><p class='v-tier-price'>" ++
  text (tier_card_price self) ++
  markup "</p><p class='v-card-meta'>" ++
  text (tier_card_tagline self) ++
  markup "</p>" ++
  (if negb (is_empty (tier_card_includes self)) then
    markup "<ul class='v-tier-includes'>" ++
    each (tier_card_includes self) (λ i,
      markup "<li>" ++
      text i ++
      markup "</li>") ++
    markup "</ul>"
   else []) ++
  match tier_card_planned self with
  | Some n =>
    markup "<p class='v-run-planned'><span>" ++
    text n ++
    markup "</span> " ++
    render (tier_card_planned_html self) ++
    markup "</p>"
  | None => []
  end ++
  markup "</article>".
#[global] Instance tier_card_render : Render TierCard := render_TierCard.
Record TierGrid : Type := mkTierGrid {
  tier_grid_cards : list Html
}.
Definition tier_grid_new : TierGrid := mkTierGrid [].
Definition tier_grid_card (c : TierCard) (self : TierGrid) : TierGrid := mkTierGrid (tier_grid_cards self ++ [html c]).
Definition render_TierGrid (self : TierGrid) : str :=
  markup "<div class='v-tiers'>" ++
  each (tier_grid_cards self) (λ c,
    render c) ++
  markup "</div>".
#[global] Instance tier_grid_render : Render TierGrid := render_TierGrid.

Record PlannedBlock : Type := mkPlannedBlock {
  planned_block_note : str; planned_block_inner : Html
}.
Definition planned_block_new {C} `{Render C} (note : str) (c : C) : PlannedBlock := mkPlannedBlock note (html c).
Definition planned_block_planned_html (self : PlannedBlock) : Html := html planned_new.
Definition render_PlannedBlock (self : PlannedBlock) : str :=
  markup "<div class='v-planned-block' role='note' aria-label='Planned: " ++
  text (planned_block_note self) ++
  markup "'><p class='v-planned-note'>" ++
  render (planned_block_planned_html self) ++
  markup " <span>" ++
  text (planned_block_note self) ++
  markup "</span></p>" ++
  render (planned_block_inner self) ++
  markup "</div>".
#[global] Instance planned_block_render : Render PlannedBlock := render_PlannedBlock.

(** ** site_chrome.rs *)

Definition SIGN_IN_URL : str := "https://control.skimasque.com".
Definition NAV_GROUPS : list (string * list (string * string)) :=
  [("Product",
    [("How It Works", "how-it-works"); ("Identities", "identities"); ("Policies", "policies"); ("CI/CD", "ci-cd");
     ("Developers", "developers"); ("Security", "security"); ("Deployment", "deployment"); ("Gateways", "gateways")]);
   ("Compare", [("How SkiMasque Compares", "compare")]);
   ("Technology", [("Architecture", "architecture"); ("MASQUE", "technology/masque")]);
   ("Resources",
    [("Documentation", "docs"); ("Use Cases", "use-cases"); ("Open Source", "open-source"); ("FAQ", "faq");
     ("Trust", "trust")])]%string.

Definition link (root path : str) : str :=
  if is_empty path then if is_empty root then of_string "./" else root else root ++ path ++ "/".

Record NavLink : Type := mkNavLink {
  nav_link_label : str; nav_link_href : str; nav_link_current : bool
}.
Record NavGroup : Type := mkNavGroup {
  nav_group_title : str; nav_group_links : list NavLink
}.
Record SiteNav : Type := mkSiteNav {
  site_nav_root : str; site_nav_current : str
}.
Definition site_nav_new (root current : str) : SiteNav := mkSiteNav root current.
Definition site_nav_home (self : SiteNav) : str := link (site_nav_root self) [].
Definition site_nav_home_current (self : SiteNav) : bool := is_empty (site_nav_current self).
Definition site_nav_link (self : SiteNav) (l : string * string) : NavLink :=
  mkNavLink (of_string l.1) (link (site_nav_root self) (of_string l.2)) (str_eqb (of_string l.2) (site_nav_current self)).
Definition site_nav_groups (self : SiteNav) : list NavGroup :=
  map (λ g, mkNavGroup (of_string g.1) (map (site_nav_link self) g.2)) NAV_GROUPS.
Definition site_nav_pricing (self : SiteNav) : NavLink := site_nav_link self ("Pricing", "pricing")%string.
Definition site_nav_sign_in (self : SiteNav) : str := SIGN_IN_URL.
Definition site_nav_get_started (self : SiteNav) : str := link (site_nav_root self) "docs/getting-started".
Definition render_SiteNav (self : SiteNav) : str :=
  markup "<header class='v-site-header'><div class='v-wrap v-site-bar'><a class='v-brand'" ++
  (if site_nav_home_current self then
    markup " aria-current='page'"
   else []) ++
  markup " href='" ++
  text (site_nav_home self) ++
  markup "'>SkiMasque</a><nav class='v-site-nav' aria-label='Primary'>" ++
  each (site_nav_groups self) (λ g,
    markup "<details class='v-nav-group' name='site-nav'><summary>" ++
    text (nav_group_title g) ++
    markup "</summary><ul>" ++
    each (nav_group_links g) (λ l,
      markup "<li><a href='" ++
      text (nav_link_href l) ++
      markup "'" ++
      (if nav_link_current l then
        markup " aria-current='page'"
       else []) ++
      markup ">" ++
      text (nav_link_label l) ++
      markup "</a></li>") ++
    markup "</ul></details>") ++
  (let p := site_nav_pricing self in
  markup "<a class='v-nav-top' href='" ++
  text (nav_link_href p) ++
  markup "'" ++
  (if nav_link_current p then
    markup " aria-current='page'"
   else []) ++
  markup ">" ++
  text (nav_link_label p) ++
  markup "</a></nav><div class='v-site-actions'><a class='v-btn v-btn-quiet' href='" ++
  text (site_nav_sign_in self) ++
  markup "'>Sign In</a><a class='v-btn' href='" ++
  text (site_nav_get_started self) ++
  markup "'>Get Started</a></div><nav class='v-menu-nav' aria-label='Primary'><details class='v-menu'><summary>Menu</summary><div class='v-menu-panel'>" ++
  each (site_nav_groups self) (λ g,
    markup "<p class='v-menu-title'>" ++
    text (nav_group_title g) ++
    markup "</p><ul>" ++
    each (nav_group_links g) (λ l,
      markup "<li><a href='" ++
      text (nav_link_href l) ++
      markup "'" ++
      (if nav_link_current l then
        markup " aria-current='page'"
       else []) ++
      markup ">" ++
      text (nav_link_label l) ++
      markup "</a></li>") ++
    markup "</ul>") ++
  markup "<p class='v-menu-title'>Pricing</p><ul><li><a href='" ++
  text (nav_link_href p) ++
  markup "'" ++
  (if nav_link_current p then
    markup " aria-current='page'"
   else []) ++
  markup ">Pricing</a></li></ul><p class='v-cta-row'><a class='v-btn v-btn-quiet' href='" ++
  text (site_nav_sign_in self) ++
  markup "'>Sign In</a><a class='v-btn' href='" ++
  text (site_nav_get_started self) ++
  markup "'>Get Started</a></p></div></details></nav><label class='v-theme-control' hidden for='site-theme'><span>Theme</span><select id='site-theme'><option value='system'>System</option><option value='light'>Light</option><option value='dark'>Dark</option></select></label></div></header>").
#[global] Instance site_nav_render : Render SiteNav := render_SiteNav.

Record SiteFooter : Type := mkSiteFooter {
  site_footer_root : str
}.
Definition site_footer_new (root : str) : SiteFooter := mkSiteFooter root.
Definition site_footer_href (self : SiteFooter) (path : str) : str := link (site_footer_root self) path.
Definition site_footer_contour (self : SiteFooter) : Html := html mkContour.
Definition site_footer_mountain (self : SiteFooter) : Html := html mkMountain.
Definition site_footer_planned (self : SiteFooter) : Html := html planned_new.
Definition render_SiteFooter (self : SiteFooter) : str :=
  markup "<footer class='v-site-footer'><div class='v-footer-art' aria-hidden='true'>" ++
  render (site_footer_contour self) ++
  render (site_footer_mountain self) ++
  markup "</div><div class='v-wrap v-footer-grid'><div class='v-footer-brand'><p class='v-footer-name'>SkiMasque</p><p>Identity-aware network access<br>for developers and workloads.</p></div><nav aria-label='Footer'><div class='v-footer-col'><p class='v-footer-title'>Product</p><ul><li><a href='" ++
  text (site_footer_href self "how-it-works") ++
  markup "'>How It Works</a></li><li><a href='" ++
  text (site_footer_href self "identities") ++
  markup "'>Identities</a></li><li><a href='" ++
  text (site_footer_href self "policies") ++
  markup "'>Policies</a></li><li><a href='" ++
  text (site_footer_href self "ci-cd") ++
  markup "'>CI/CD</a></li><li><a href='" ++
  text (site_footer_href self "developers") ++
  markup "'>Developers</a></li><li><a href='" ++
  text (site_footer_href self "security") ++
  markup "'>Security</a></li><li><a href='" ++
  text (site_footer_href self "deployment") ++
  markup "'>Deployment</a></li><li><a href='" ++
  text (site_footer_href self "gateways") ++
  markup "'>Gateways</a></li></ul></div><div class='v-footer-col'><p class='v-footer-title'>Resources</p><ul><li><a href='" ++
  text (site_footer_href self "docs") ++
  markup "'>Documentation</a></li><li><a href='" ++
  text (site_footer_href self "architecture") ++
  markup "'>Architecture</a></li><li><a href='" ++
  text (site_footer_href self "technology/masque") ++
  markup "'>MASQUE</a></li><li><a href='" ++
  text (site_footer_href self "open-source") ++
  markup "'>Open Source</a></li><li><a href='" ++
  text (site_footer_href self "faq") ++
  markup "'>FAQ</a></li></ul></div><div class='v-footer-col'><p class='v-footer-title'>Company</p><ul><li><a href='" ++
  text (site_footer_href self "about") ++
  markup "'>About</a></li><li><a href='" ++
  text (site_footer_href self "contact") ++
  markup "'>Contact</a></li><li><a href='" ++
  text (site_footer_href self "trust") ++
  markup "'>Trust</a></li><li><a href='" ++
  text (site_footer_href self "status") ++
  markup "'>Status</a></li><li><a href='" ++
  text (site_footer_href self "security") ++
  markup "'>Security</a></li></ul></div><div class='v-footer-col'><p class='v-footer-title'>Legal</p><ul><li>Privacy " ++
  render (site_footer_planned self) ++
  markup "</li><li>Terms " ++
  render (site_footer_planned self) ++
  markup "</li></ul></div></nav></div><p class='v-wrap v-footer-legal'>© SkiMasque</p></footer>".
#[global] Instance site_footer_render : Render SiteFooter := render_SiteFooter.

(** [doc] and the buttons of site/pages/mod.rs. *)
Record DocLinks : Type := mkDocLinks {
  doc_links_links : list (str * str)
}.
Definition render_DocLinks (self : DocLinks) : str :=
  markup "<p class='v-cta-row'>" ++
  each (doc_links_links self) (λ '(label, href),
    markup "<a class='v-btn v-btn-quiet' href='" ++
    text href ++
    markup "'>" ++
    text label ++
    markup "</a>") ++
  markup "</p>".
#[global] Instance doc_links_render : Render DocLinks := render_DocLinks.
End chrome.

(** ** Containment *)

Section containment.
Context `{EscapeLaws}.

Lemma prose_contained p : contained (render_Prose p).
Proof.
  component render_Prose. match goal with b : Block |- _ => destruct b end; scan.
Qed.
Lemma hero_contained h : (∀ a, hero_aside h = Some a → contained a) → contained (render_Hero h).
Proof. intros Ha. component render_Hero. Qed.
Lemma page_section_contained s : Forall contained (page_section_bodies s) → contained (render_PageSection s).
Proof. rewrite Forall_forall. intros Hb. component render_PageSection. Qed.
Lemma feature_grid_contained f : contained (render_FeatureGrid f).
Proof. component render_FeatureGrid. Qed.
Lemma cta_band_contained c : contained (render_CtaBand c).
Proof. component render_CtaBand. Qed.
Lemma comparison_table_contained t : contained (render_ComparisonTable t).
Proof. component render_ComparisonTable. Qed.
Lemma faq_contained f : contained (render_Faq f).
Proof. component render_Faq. Qed.
Lemma tier_card_contained t : contained (render_TierCard t).
Proof. component render_TierCard. Qed.
Lemma tier_grid_contained t : Forall contained (tier_grid_cards t) → contained (render_TierGrid t).
Proof. rewrite Forall_forall. intros Hc. component render_TierGrid. Qed.
Lemma planned_block_contained b : contained (planned_block_inner b) → contained (render_PlannedBlock b).
Proof. intros Hb. component render_PlannedBlock. Qed.
Lemma site_nav_contained n : contained (render_SiteNav n).
Proof. component render_SiteNav. Qed.
Lemma site_footer_contained f : contained (render_SiteFooter f).
Proof. component render_SiteFooter. Qed.
Lemma doc_links_contained d : contained (render_DocLinks d).
Proof. component render_DocLinks. Qed.
End containment.

(** ** Everything together *)

(** The markup that can come out of the library: each component, with any texts,
    around markup that came out of it before ([Html] has no other constructor). *)
Inductive Built `{Escaper} : Html → Prop :=
  | built_status (b : StatusBadge) : Built (html b)
  | built_decision_badge (b : DecisionBadge) : Built (html b)
  | built_node (n : Node) : Built (html n)
  | built_connection (c : Connection) : Built (html c)
  | built_boundary (b : Boundary) : (∀ h, h ∈ boundary_children b → Built h) → Built (html b)
  | built_flow (f : Flow) : (∀ s, s ∈ flow_steps f → Built (step_body s)) → Built (html f)
  | built_layers (l : Layers) : Built (html l)
  | built_compare (c : Compare) : (∀ s, s ∈ compare_sides c → Built (side_body s)) → Built (html c)
  | built_branch (b : Branch) :
      Built (branch_root b) → (∀ a, a ∈ branch_arms b → Built (arm_conn a)) → (∀ a, a ∈ branch_arms b → Built (arm_body a)) →
      Built (html b)
  | built_sequence (s : Sequence) : Built (html s)
  | built_topology (caption : str) (control_plane : Node) (workloads : list (Node * Connection)) (networks : list TopologyNetwork) :
      Built (html (fold_left (λ t n, network_topology_network n t) networks
               (fold_left (λ t w, network_topology_workload w.1 w.2 t) workloads (network_topology_new caption control_plane))))
  | built_contour (c : Contour) : Built (html c)
  | built_mountain (m : Mountain) : Built (html m)
  | built_route (r : Route) : Built (html r)
  | built_trail_marker (t : TrailMarker) : Built (html t)
  | built_reveal (r : Reveal) : Built (reveal_inner r) → Built (html r)
  | built_expire (e : Expire) : Built (expire_inner e) → Built (html e)
  | built_planned (p : Planned) : Built (html p)
  | built_empty_state (e : EmptyState) (n : Z) : Built (html (empty_state_with_level n e))
  | built_code_example (c : CodeExample) : Built (html c)
  | built_run_card (c : RunCard) : Built (html c)
  | built_session_card (c : SessionCard) (n : Z) : Built (html (session_card_with_level n c))
  | built_session_timeline (t : SessionTimeline) : Built (html t)
  | built_gateway_card (c : GatewayCard) (n : Z) : Built (html (gateway_card_with_level n c))
  | built_health_card (c : HealthCard) (n : Z) : Built (html (health_card_with_level n c))
  | built_identity_card (c : IdentityCard) (n : Z) : Built (html (identity_card_with_level n c))
  | built_decision_explainer (e : DecisionExplainer) : Built (html e)
  | built_decision_card (c : DecisionCard) : Built (html c)
  | built_audit_event_card (c : AuditEventCard) : Built (html c)
  | built_policy_summary (s : PolicySummary) : Built (html s)
  | built_policy_card (c : PolicyCard) (n : Z) : Built (html (policy_card_with_level n c))
  | built_policy_explorer (e : PolicyExplorer) : Built (html e)
  | built_policy_diff (d : PolicyDiff) : Built (html d)
  | built_prose (p : Prose) : Built (html p)
  | built_hero (h : Hero) : (∀ a, hero_aside h = Some a → Built a) → Built (html h)
  | built_page_section (s : PageSection) : (∀ h, h ∈ page_section_bodies s → Built h) → Built (html s)
  | built_feature_grid (f : FeatureGrid) : Built (html f)
  | built_cta_band (c : CtaBand) : Built (html c)
  | built_comparison_table (t : ComparisonTable) : Built (html t)
  | built_faq (f : Faq) : Built (html f)
  | built_tier_card (t : TierCard) : Built (html t)
  | built_tier_grid (t : TierGrid) : (∀ h, h ∈ tier_grid_cards t → Built h) → Built (html t)
  | built_planned_block (b : PlannedBlock) : Built (planned_block_inner b) → Built (html b)
  | built_site_nav (n : SiteNav) : Built (html n)
  | built_site_footer (f : SiteFooter) : Built (html f)
  | built_doc_links (d : DocLinks) : Built (html d).

Lemma clamp_level n : 2 ≤ clamp 2 6 n ≤ 6.
Proof. unfold clamp. cmp_cases. Qed.

Section together.
Context `{EscapeLaws}.

Lemma topology_built_contained caption control_plane workloads networks :
  contained (render_NetworkTopology (fold_left (λ t n, network_topology_network n t) networks
    (fold_left (λ t w, network_topology_workload w.1 w.2 t) workloads (network_topology_new caption control_plane)))).
Proof.
  set (arm_ok := λ a, contained (topology_arm_connection a) ∧ contained (topology_arm_body a)).
  set (ok := λ t, contained (network_topology_control_plane t) ∧ Forall arm_ok (network_topology_workloads t) ∧
                  Forall arm_ok (network_topology_networks t)).
  assert (∀ l t, ok t → ok (fold_left (λ t (w : Node * Connection), network_topology_workload w.1 w.2 t) l t)) as Hw.
  { induction l as [|w l IH]; intros t (H1 & H2 & H3); [by split_and!|]. apply IH. split_and!; [exact H1| |exact H3].
    apply Forall_app. split; [exact H2|]. constructor; [|constructor]. split; [exact (connection_contained _)|exact (node_contained _)]. }
  assert (∀ l t, ok t → ok (fold_left (λ t n, network_topology_network n t) l t)) as Hn.
  { induction l as [|n l IH]; intros t (H1 & H2 & H3); [by split_and!|]. apply IH. split_and!; [exact H1|exact H2|].
    apply Forall_app. split; [exact H3|]. constructor; [|constructor].
    split; [exact (connection_contained _)|exact (topology_network_contained _)]. }
  edestruct Hn as (H1 & H2 & H3); [apply Hw|exact (network_topology_contained _ H1 H2 H3)].
  split_and!; [exact (node_contained _)|constructor|constructor].
Qed.

End together.

(** An escaping that meets the laws. *)
Definition entity (c : Z) : str :=
  if c =? 38 then of_string "&amp;" else if c =? 60 then of_string "&lt;" else if c =? 62 then of_string "&gt;"
  else if c =? 34 then of_string "&quot;" else if c =? 39 then of_string "&#39;" else [c].
Definition sample_escaper : Escaper := flat_map entity.
Lemma sample_escape_laws : @EscapeLaws sample_escaper.
Proof.
  constructor.
  - intros s. assert (∀ c, 60 ∉ entity c ∧ 34 ∉ entity c) as He.
    { intros c. unfold entity. cmp_cases; split; try by_decide; rewrite list_elem_of_singleton; congruence. }
    unfold escape_attr, sample_escaper. induction s as [|c s IH]; [split; apply not_elem_of_nil|].
    cbn [flat_map]. rewrite !not_elem_of_app. destruct (He c), IH. done.
  - intros s Hs. unfold escape_attr, sample_escaper. induction Hs as [|c s Hc Hs IH]; [done|]. cbn [flat_map]. rewrite IH.
    assert (entity c = [c]) as ->; [|done]. unfold entity.
    repeat match goal with |- context [c =? ?k] => destruct (Z.eqb_spec c k) as [->|]; [vm_compute in Hc; discriminate|] end. done.
Qed.

#[local] Existing Instance sample_escaper.

(** A workload that calls itself a script is shown under that name. *)
Definition hostile_flow : Flow :=
  flow_via (connection_with_label "'/><b" (connection_new ConnKind_Denied)) (node_with_sub "</li>" (node_new NodeKind_Deny))
    (flow_then (node_with_label "<script>alert(1)</script>" (node_new NodeKind_Workload)) (flow_new "a ' onload='x")).

(** ** The navigation *)

(** Every link the navigation shows: the groups, the prices and the way home. *)
Definition nav_paths : list str := [] :: of_string "pricing" :: flat_map (λ g, map (λ l, of_string l.2) g.2) NAV_GROUPS.
Definition nav_marks (n : SiteNav) : list bool :=
  site_nav_home_current n :: nav_link_current (site_nav_pricing n) ::
    flat_map (λ g, map nav_link_current (nav_group_links g)) (site_nav_groups n).

(** A page is marked as the current one in the navigation exactly once if the
    navigation lists it, and otherwise not at all. *)
Lemma nav_marks_current (n : SiteNav) :
  nav_marks n = map (λ p, str_eqb p (site_nav_current n)) nav_paths ∧
  length (filter (λ m, m = true) (nav_marks n)) = if decide (site_nav_current n ∈ nav_paths) then 1%nat else 0%nat.
Proof.
  assert (nav_marks n = map (λ p, str_eqb p (site_nav_current n)) nav_paths) as Hm.
  { destruct n as [root current]. unfold nav_marks, nav_paths. cbn. by destruct current. }
  split; [done|]. rewrite Hm. assert (NoDup nav_paths) as Hd by by_decide.
  generalize (site_nav_current n) as c. intros c. clear Hm. induction Hd as [|p l Hp Hd IH]; [done|].
  cbn [map]. rewrite filter_cons. destruct (str_eqb_spec p c) as [->|Hne].
  - rewrite decide_True by done. cbn [length]. rewrite IH, decide_False by done. by rewrite decide_True by (apply elem_of_cons; auto).
  - rewrite decide_False by done. rewrite IH. destruct (decide (c ∈ l)).
    + by rewrite decide_True by (apply elem_of_cons; auto).
    + rewrite decide_False; [done|]. rewrite elem_of_cons. intros [?|?]; congruence.
Qed.
