(* ===== verification/SiteGen.v ===== *)
(** * SiteGen: writing the site and checking it

    Model of [stale] and [collect_files] of [skimasque-visual/src/site/mod.rs] and of
    the program bin/sitegen.rs.  The pages themselves are content and a parameter: a
    list of paths and texts.  A directory is the list of its entries in the order
    [read_dir] gives them; a file that is not UTF-8 cannot be read as text.

    The check accepts a directory exactly when every page is there with its text, up
    to line endings, and nothing else is but the files kept by hand; and it accepts
    what the program wrote. *)

From S2P Require Import Prelude RustStr.

(** ** Files and directories *)

Inductive FsNode : Type :=
  | FsFile (contents : list Z)
  | FsDir (entries : list (str * FsNode)).
Abbreviation Entries := (list (str * FsNode)).

Definition find_entry (name : str) (d : Entries) : option FsNode := snd <$> List.find (λ e, str_eqb (fst e) name) d.

(** [std::fs::read_to_string(root.join(path))], for a relative path with [/]. *)
Fixpoint node_at (segments : list str) (d : Entries) : option FsNode :=
  match segments with
  | [] => None
  | [name] => find_entry name d
  | name :: segments =>
      match find_entry name d with
      | Some (FsDir d) => node_at segments d
      | _ => None
      end
  end.
Definition read_to_string (path : str) (d : Entries) : option str :=
  match node_at (split 47 path) d with
  | Some (FsFile contents) => from_utf8 contents
  | _ => None
  end.

(** [replace], at the CR LF of a text. *)
Fixpoint normalise (s : str) : str :=
  match s with
  | 13 :: ((10 :: _) as s) => normalise s
  | c :: s => c :: normalise s
  | [] => []
  end.

Record Page : Type := mkPage { page_path : str; page_contents : str }.
Definition KEEP : list str := [of_string "favicon.svg"].

(** [collect_files]: a directory that cannot be listed has no files. *)
Definition rel_of (prefix name : str) : str := if bool_decide (prefix = []) then name else prefix ++ "/" ++ name.
Fixpoint collect_node (n : FsNode) (rel : str) {struct n} : list str :=
  match n with
  | FsFile _ => [rel]
  | FsDir d => flat_map (λ '(name, n), collect_node n (rel_of rel name)) d
  end.
Definition collect_files (root : option Entries) : list str :=
  match root with Some d => collect_node (FsDir d) [] | None => [] end.

(** Reading below a root that may be missing. *)
Definition on_disk (root : option Entries) (path : str) : option str := d ← root; read_to_string path d.

Section site.
Variable pages : list Page.

Definition page_stale (root : option Entries) (p : Page) : bool :=
  match on_disk root (page_path p) with
  | Some text => negb (str_eqb (normalise text) (normalise (page_contents p)))
  | None => true
  end.
Definition orphan (rel : str) : bool :=
  negb (existsb (λ p, str_eqb (page_path p) rel) pages) && negb (existsb (str_eqb rel) KEEP).
Definition stale (root : option Entries) : list str :=
  map page_path (List.filter (page_stale root) pages) ++ sort_by str_le (List.filter orphan (collect_files root)).

(** [create_dir_all] and [write]: a file where a directory is needed, or the other
    way round, is an error. *)
Fixpoint set_entry (name : str) (n : FsNode) (d : Entries) : Entries :=
  match d with
  | [] => [(name, n)]
  | e :: d => if str_eqb e.1 name then (name, n) :: d else e :: set_entry name n d
  end.
Fixpoint put (segments : list str) (contents : list Z) (d : Entries) : option Entries :=
  match segments with
  | [] => None
  | [name] =>
      match find_entry name d with
      | Some (FsDir _) => None
      | _ => Some (set_entry name (FsFile contents) d)
      end
  | name :: segments =>
      match find_entry name d with
      | Some (FsFile _) => None
      | Some (FsDir sub) => sub' ← put segments contents sub; Some (set_entry name (FsDir sub') d)
      | None => sub' ← put segments contents []; Some (set_entry name (FsDir sub') d)
      end
  end.

(** The loop that writes; [refused] are the paths the disk will not take. *)
Fixpoint write_pages (refused : str → bool) (ps : list Page) (root : option Entries) : option Entries * bool :=
  match ps with
  | [] => (root, true)
  | p :: ps =>
      match (if refused (page_path p) then None
             else put (split 47 (page_path p)) (as_bytes (page_contents p)) (default [] root)) with
      | Some d => write_pages refused ps (Some d)
      | None => (root, false)
      end
  end.

(** The arguments of the program, and its exit code. *)
Fixpoint parse_args (out : str) (check : bool) (args : list str) : option (str * bool) :=
  match args with
  | [] => Some (out, check)
  | arg :: args =>
      if str_eqb arg "--check" then parse_args out true args
      else if str_eqb arg "--out" then
        match args with
        | dir :: args => parse_args dir check args
        | [] => None
        end
      else None
  end.
Definition main (refused : str → str → bool) (args : list str) (disk : str → option Entries) : Z * (str → option Entries) :=
  match parse_args "site" false args with
  | None => (2, disk)
  | Some (out, true) => (if bool_decide (stale (disk out) = []) then 0 else 1, disk)
  | Some (out, false) =>
      let '(root, done_) := write_pages (refused out) pages (disk out) in
      (if done_ then 0 else 1, λ dir, if str_eqb dir out then root else disk dir)
  end.

(** ** The check *)

Definition up_to_date (root : option Entries) : Prop :=
  (∀ p, p ∈ pages → ∃ text, on_disk root (page_path p) = Some text ∧ normalise text = normalise (page_contents p)) ∧
  (∀ rel, rel ∈ collect_files root → rel ∈ map page_path pages ∨ rel ∈ KEEP).

Lemma filter_nil {A} (f : A → bool) l : List.filter f l = [] ↔ ∀ x, x ∈ l → f x = false.
Proof.
  induction l as [|x l IH]; cbn; [split; [by intros _ ? ?%not_elem_of_nil|done]|]. destruct (f x) eqn:Hx.
  - split; [done|]. intros Hl. rewrite (Hl x) in Hx; [done|]. apply elem_of_cons. auto.
  - rewrite IH. split; intros Hl y; [intros [->|Hy]%elem_of_cons; auto|]. intros Hy. apply Hl, elem_of_cons. auto.
Qed.

Lemma page_stale_false root p :
  page_stale root p = false ↔
    ∃ text, on_disk root (page_path p) = Some text ∧ normalise text = normalise (page_contents p).
Proof.
  unfold page_stale. destruct (on_disk root (page_path p)) as [t|].
  - rewrite negb_false_iff, str_eqb_eq. split; [eauto|]. by intros (? & [= <-] & ?).
  - split; [done|]. by intros (? & ? & _).
Qed.

Lemma orphan_false rel : orphan rel = false ↔ rel ∈ map page_path pages ∨ rel ∈ KEEP.
Proof.
  unfold orphan. rewrite andb_false_iff, !negb_false_iff, !existsb_exists. rewrite list_elem_of_In, in_map_iff.
  setoid_rewrite str_eqb_eq. split.
  - intros [(p & Hp & <-)|(k & Hk & ->)]; [left; eauto|right; by apply list_elem_of_In].
  - intros [(p & <- & Hp)|Hk%list_elem_of_In]; [left; eauto|right; eauto].
Qed.

Lemma sort_by_nil {A} (le : A → A → bool) l : sort_by le l = [] ↔ l = [].
Proof.
  split; [|by intros ->]. intros Hs. pose proof (sort_by_perm le l) as Hp. rewrite Hs in Hp. by apply Permutation_nil in Hp.
Qed.

Lemma stale_nil root : stale root = [] ↔ up_to_date root.
Proof.
  unfold stale, up_to_date. rewrite app_nil, sort_by_nil. split.
  - intros [Hp%map_eq_nil Ho]. rewrite filter_nil in Hp. rewrite filter_nil in Ho. split.
    + intros p Hin. by apply page_stale_false, Hp.
    + intros rel Hin. by apply orphan_false, Ho.
  - intros [Hp Ho]. split.
    + assert (List.filter (page_stale root) pages = []) as ->; [|done]. apply filter_nil. intros p Hin. by apply page_stale_false, Hp.
    + apply filter_nil. intros rel Hin. by apply orphan_false, Ho.
Qed.
End site.

(** ** What is written *)

Lemma find_set_entry name name' n d :
  find_entry name (set_entry name' n d) = if str_eqb name' name then Some n else find_entry name d.
Proof.
  unfold find_entry. induction d as [|e d IH]; cbn.
  - by destruct (str_eqb name' name).
  - destruct (str_eqb_spec e.1 name') as [He|He]; cbn.
    + rewrite He. by destruct (str_eqb name' name).
    + destruct (str_eqb_spec e.1 name) as [<-|Hn]; [|exact IH]. destruct (str_eqb_spec name' e.1); congruence.
Qed.

Lemma node_at_cons name s segments d :
  node_at (name :: s :: segments) d = match find_entry name d with Some (FsDir sub) => node_at (s :: segments) sub | _ => None end.
Proof. done. Qed.

Lemma put_cons name s segments contents d :
  put (name :: s :: segments) contents d =
    match find_entry name d with
    | Some (FsFile _) => None
    | Some (FsDir sub) => sub' ← put (s :: segments) contents sub; Some (set_entry name (FsDir sub') d)
    | None => sub' ← put (s :: segments) contents []; Some (set_entry name (FsDir sub') d)
    end.
Proof. done. Qed.

(** A write shows, and the other files stay as they were. *)
Lemma put_same segments contents d d' : put segments contents d = Some d' → node_at segments d' = Some (FsFile contents).
Proof.
  revert d d'. induction segments as [|name segments IH]; intros d d' Hp; [done|]. destruct segments as [|s segments].
  - cbn in *. destruct (find_entry name d) as [[]|]; simplify_eq; by rewrite find_set_entry, str_eqb_refl.
  - rewrite node_at_cons. rewrite put_cons in Hp. destruct (find_entry name d) as [[|sub]|]; [done|..];
      (destruct (put (s :: segments) contents _) as [sub'|] eqn:Hs; [|done]); injection Hp as <-;
      rewrite find_set_entry, str_eqb_refl; by eapply IH.
Qed.

Lemma put_other segments segments' contents c d d' :
  put segments contents d = Some d' → segments ≠ segments' →
  node_at segments' d = Some (FsFile c) → node_at segments' d' = Some (FsFile c).
Proof.
  revert segments' d d'. induction segments as [|name segments IH]; intros segments' d d' Hp Hne Hn; [done|].
  destruct segments' as [|name' segments']; [done|].
  assert (∀ n, name ≠ name' → node_at (name' :: segments') (set_entry name n d) = Some (FsFile c)) as Hskip.
  { intros n Hnn. destruct segments' as [|s' segments']; cbn in *; rewrite find_set_entry;
      (destruct (str_eqb_spec name name'); [done|exact Hn]). }
  destruct segments as [|s segments].
  - cbn in Hp. destruct (decide (name = name')) as [<-|Hnn].
    + destruct segments' as [|s' segments']; [done|]. rewrite node_at_cons in *.
      destruct (find_entry name d) as [[]|]; done.
    + destruct (find_entry name d) as [[]|]; simplify_eq; by apply Hskip.
  - rewrite put_cons in Hp. destruct (decide (name = name')) as [<-|Hnn].
    + destruct segments' as [|s' segments'].
      { cbn in Hn. rewrite Hn in Hp. done. }
      rewrite node_at_cons in *. destruct (find_entry name d) as [[|sub]|]; [done| |done].
      destruct (put (s :: segments) contents sub) as [sub'|] eqn:Hs; [|done]. injection Hp as <-.
      rewrite find_set_entry, str_eqb_refl. eapply IH; [exact Hs|congruence|exact Hn].
    + destruct (find_entry name d) as [[|sub]|]; [done|..];
        (destruct (put (s :: segments) contents _) as [sub'|] eqn:Hs; [|done]); injection Hp as <-; by apply Hskip.
Qed.

(** Where a written file is listed. *)
Fixpoint rel_at (prefix : str) (segments : list str) : str :=
  match segments with
  | [] => prefix
  | name :: segments => rel_at (rel_of prefix name) segments
  end.

Lemma collect_set_entry name n d prefix rel :
  rel ∈ collect_node (FsDir (set_entry name n d)) prefix →
  rel ∈ collect_node (FsDir d) prefix ∨ rel ∈ collect_node n (rel_of prefix name).
Proof.
  induction d as [|[name' n'] d IH]; cbn [set_entry collect_node flat_map].
  - rewrite app_nil_r. auto.
  - cbn [fst]. destruct (str_eqb name' name); cbn [collect_node flat_map]; rewrite !elem_of_app.
    + intros [?|?]; auto.
    + intros [?|[?|?]%IH]; auto.
Qed.

Lemma find_entry_elem name n d : find_entry name d = Some n → (name, n) ∈ d.
Proof.
  unfold find_entry. intros ([name' n'] & [Hin%list_elem_of_In Heq%str_eqb_eq]%List.find_some & ->)%fmap_Some. cbn in *. by subst.
Qed.

Lemma collect_sub name sub d prefix rel :
  find_entry name d = Some sub → rel ∈ collect_node sub (rel_of prefix name) → rel ∈ collect_node (FsDir d) prefix.
Proof.
  intros Hf%find_entry_elem Hin. cbn. apply list_elem_of_In, in_flat_map. exists (name, sub).
  split; [by apply list_elem_of_In|by apply list_elem_of_In].
Qed.

Lemma collect_put segments contents d d' prefix rel :
  put segments contents d = Some d' → rel ∈ collect_node (FsDir d') prefix →
  rel ∈ collect_node (FsDir d) prefix ∨ rel = rel_at prefix segments.
Proof.
  revert d d' prefix. induction segments as [|name segments IH]; intros d d' prefix Hp Hin; [done|].
  destruct segments as [|s segments].
  - cbn in Hp. destruct (find_entry name d) as [[]|]; simplify_eq;
      apply collect_set_entry in Hin as [?|Hin]; auto; right; cbn in *; by apply list_elem_of_singleton in Hin.
  - rewrite put_cons in Hp. destruct (find_entry name d) as [[|sub]|] eqn:Hf; [done|..];
      (destruct (put (s :: segments) contents _) as [sub'|] eqn:Hs; [|done]); injection Hp as <-;
      apply collect_set_entry in Hin as [?|Hin]; auto.
    + destruct (IH _ _ _ Hs Hin) as [Hold| ->]; [|auto]. left. by eapply collect_sub.
    + destruct (IH _ _ _ Hs Hin) as [Hold| ->]; [|auto]. cbn in Hold. by apply not_elem_of_nil in Hold.
Qed.

(** A path that is written out of its parts. *)
Definition clean (path : str) : Prop := Forall (λ s, s ≠ []) (split 47 path).

Fixpoint slashed (segments : list str) : str :=
  match segments with
  | [] => []
  | [s] => s
  | s :: segments => s ++ "/" ++ slashed segments
  end.
Lemma slashed_split path : slashed (split 47 path) = path.
Proof.
  induction path as [|c path IH]; [done|]. cbn [split]. destruct (Z.eqb_spec c 47) as [->|].
  - assert (∃ s l, split 47 path = s :: l) as (s & l & Hs).
    { destruct path as [|c p]; cbn; eauto. destruct (c =? 47); eauto. destruct (split 47 p); eauto. }
    rewrite Hs in *. cbn [slashed app of_string]. by rewrite <- IH.
  - destruct (split 47 path) as [|s [|s' l]]; cbn in *; by rewrite <- IH.
Qed.

Lemma rel_at_clean segments prefix :
  Forall (λ s, s ≠ []) segments → segments ≠ [] → rel_at prefix segments = rel_of prefix (slashed segments).
Proof.
  intros Hc. revert prefix. induction Hc as [|s l Hs Hc IH]; intros prefix Hne; [done|]. destruct l as [|s' l]; [done|].
  cbn [rel_at]. change (rel_at (rel_of (rel_of prefix s) s') l) with (rel_at (rel_of prefix s) (s' :: l)).
  rewrite IH by done. change (slashed (s :: s' :: l)) with (s ++ "/" ++ slashed (s' :: l)).
  unfold rel_of. destruct (bool_decide_reflect (prefix = [])) as [->|Hp].
  - by rewrite bool_decide_eq_false_2.
  - rewrite bool_decide_eq_false_2 by (by destruct prefix). by rewrite <- !app_assoc.
Qed.

Lemma rel_at_path path : clean path → rel_at [] (split 47 path) = path.
Proof.
  intros Hc. rewrite rel_at_clean; [by rewrite slashed_split|done|]. destruct path as [|c p]; cbn; [done|].
  destruct (c =? 47); [done|]. by destruct (split 47 p).
Qed.

Section written.
Variable pages : list Page.
Variable refused : str → bool.

(** What is there of the pages written so far. *)
Definition holds (root : option Entries) (p : Page) : Prop :=
  node_at (split 47 (page_path p)) (default [] root) = Some (FsFile (as_bytes (page_contents p))).

Lemma write_pages_spec ps root root' :
  NoDup (map page_path ps) → write_pages refused ps root = (root', true) →
  (∀ p, p ∈ ps → holds root' p) ∧
  (∀ p, page_path p ∉ map page_path ps → holds root p → holds root' p) ∧
  (∀ rel, rel ∈ collect_files root' → rel ∈ collect_files root ∨ ∃ p, p ∈ ps ∧ rel = rel_at [] (split 47 (page_path p))).
Proof.
  revert root. induction ps as [|p ps IH]; intros root Hd Hw; cbn in Hw.
  { injection Hw as <-. split_and!; [by intros ? ?%not_elem_of_nil|done|auto]. }
  apply NoDup_cons in Hd as [Hnew Hd]. destruct (refused (page_path p)); [done|].
  destruct (put _ _ _) as [d|] eqn:Hp; [|done]. destruct (IH (Some d) Hd Hw) as (H1 & H2 & H3). split_and!.
  - intros q [->|Hq]%elem_of_cons; [|auto]. apply H2; [done|]. by eapply put_same.
  - intros q Hq Hh. cbn in Hq. apply not_elem_of_cons in Hq as [Hpq Hq]. apply H2; [done|]. eapply put_other; [exact Hp| |exact Hh].
    intros Heq. apply Hpq. rewrite <- (slashed_split (page_path q)), <- Heq. by rewrite slashed_split.
  - intros rel [Hin|(q & Hq & ->)]%H3; [|right; exists q; split; [apply elem_of_cons; auto|done]].
    destruct (collect_put _ _ _ _ _ _ Hp Hin) as [Hold| ->]; [left; by destruct root|].
    right. exists p. split; [apply elem_of_cons; auto|done].
Qed.
End written.

(** The check accepts what the generator wrote: if the directory held nothing but
    pages and files kept by hand and the program ended well, running it with --check
    ends well too.  The paths of the pages are distinct and written out of their
    parts. *)
Theorem generated_site_checks (pages : list Page) (refused : str → str → bool) (dir : str) (disk disk' : str → option Entries) :
  NoDup (map page_path pages) → Forall (λ p, clean (page_path p) ∧ chars_ok (page_contents p)) pages →
  (∀ rel, rel ∈ collect_files (disk dir) → rel ∈ map page_path pages ∨ rel ∈ KEEP) →
  main pages refused [of_string "--out"; dir] disk = (0, disk') →
  main pages refused [of_string "--out"; dir; of_string "--check"] disk' = (0, disk').
Proof.
  intros Hd Hc Hold Hm. rewrite Forall_forall in Hc. unfold main in *.
  change (parse_args "site" false [of_string "--out"; dir]) with (Some (dir, false)) in Hm. cbv beta iota in Hm.
  change (parse_args "site" false [of_string "--out"; dir; of_string "--check"]) with (Some (dir, true)). cbv beta iota.
  destruct (write_pages (refused dir) pages (disk dir)) as [root done_] eqn:Hw. destruct done_; [|done]. injection Hm as <-.
  rewrite str_eqb_refl. rewrite bool_decide_eq_true_2; [done|]. apply stale_nil.
  destruct (write_pages_spec _ _ _ _ Hd Hw) as (H1 & _ & H3). split.
  - intros p Hp. exists (page_contents p). split; [|done]. specialize (H1 p Hp). unfold holds in H1. unfold on_disk, read_to_string.
    destruct root as [d|]; cbn in *.
    + rewrite H1. by apply from_utf8_as_bytes, (Hc p Hp).
    + by destruct (split 47 (page_path p)) as [|s []].
  - intros rel [Hin|(p & Hp & ->)]%H3; [auto|]. left. rewrite rel_at_path by apply (Hc p Hp).
    by apply list_elem_of_fmap_2.
Qed.

Definition sample_pages : list Page :=
  [mkPage "index.html" "<p>home</p>"; mkPage "docs/index.html" "<p>docs</p>"; mkPage "assets/visual.css" "p { }"].
Lemma generated_site_checks_witness :
  let m := main sample_pages (λ _ _, false) [of_string "--out"; of_string "out"] (λ _, Some [(of_string "favicon.svg", FsFile [])]) in
  m.1 = 0 ∧ (main sample_pages (λ _ _, false) [of_string "--out"; of_string "out"; of_string "--check"] m.2).1 = 0.
Proof.
  intros m. split; [vm_compute; reflexivity|].
  rewrite (generated_site_checks sample_pages (λ _ _, false) (of_string "out") (λ _, Some [(of_string "favicon.svg", FsFile [])]) m.2);
    [reflexivity|by_decide| |intros rel Hin; right; exact Hin|].
  - repeat (apply Forall_cons_2; [split; [unfold clean|]; by_decide|]). constructor.
  - unfold main. cbv beta iota zeta delta [m main]. reflexivity.
Defined.

(** The check is exact: it succeeds when the directory is up to date and only then. *)
Theorem site_check_exact (pages : list Page) (refused : str → str → bool) (dir : str) (disk : str → option Entries) :
  (main pages refused [of_string "--check"; of_string "--out"; dir] disk).1 = 0 ↔ up_to_date pages (disk dir).
Proof.
  unfold main. change (parse_args "site" false [of_string "--check"; of_string "--out"; dir]) with (Some (dir, true)).
  cbv beta iota. cbn [fst]. rewrite <- stale_nil. destruct (bool_decide_reflect (stale pages (disk dir) = [])); split; try done; lia.
Qed.
